(* ===== verification/_CoqProject ===== *)
-Q . S2P
Prelude.v
Utf8.v
Contracts.v
Cascade.v
Grants.v
Conformance.v
PolicyPg.v
Floors.v
Engine.v
Snapshot.v
Bucket.v
AuditChain.v
SqlStore.v
ChainTest.v
Sdk.v
GovernanceTest.v
Startup.v
DoorAssembly.v
PolicySources.v
PolicyReload.v
Wiring.v
Layers.v
Orchestrator.v
Goroutines.v
EventLog.v
DoorDemos.v
EstateFloor.v
Placement.v
Manifest.v
EstateResolve.v
Fleet.v
Reconcile.v
Approvals.v
ApprovalsTest.v
Admissions.v
AdmissionTest.v
Manager.v
Discovery.v
Registry.v
Stores.v
KernelRunner.v
Kafka.v
KafkaClient.v
EstateService.v
DoorServer.v
DoorProgram.v
PolicyBundle.v
DoorClient.v
EstateConfig.v
EstateApi.v
EstateServe.v
EstateCli.v
Lint.v
LintText.v
Regexp.v
LintGo.v
LintJava.v
Dupstrings.v
Mounting.v
