(* ===== verification/Prelude.v ===== *)
(** * MantleKeep: a verification development

    MantleKeep is a governance control plane. A change to infrastructure is an intent that
    a caller submits to one door; the door resolves who the caller is, evaluates policy,
    records the decision on a hash chain and, if the answer is yes, issues a token. Around
    the door live the policy (documents, a role ladder, a layered cascade, attribute
    floors, product adapters, all hot-reloaded), a workflow engine that runs steps in
    dependency order, and the estate: what each team declares, what the platform's floor
    makes of it, where it is placed, who has to sign it, and how reality is compared with
    what was approved.

    This library models the Go sources under [src/mantlekeep-control],
    [src/mantlekeep-estate], [src/mantlekeep-kafka] and
    [src/mantlekeep-policy-postgres] as executable functions
    (relations where the scheduler chooses) and proves what they guarantee. Definitions
    keep the names of the source; where two types have a method of one name the type is
    put before it ([Tier_valid], [Labels_validate]).

    ** The files, in order

    - [Prelude]: results of fallible functions and their guards, Go's [strings] functions,
      maps read in key order, decimal integers, tactics and the hint database [mk].
    - [Utf8]: valid UTF-8, and a text as [encoding/json] reads it back (other bytes become
      U+FFFD). Every round trip of a JSON codec is stated for valid texts.
    - [Contracts] (contracts.go, decision.go, policyinput.go): subjects, intents,
      decisions, tokens, audit records, and what can be read back from an error.
    - [Cascade] (internal/policy ladder.go, resolve.go, scope.go, dynamic.go, validate.go):
      which role an action requires. A sealed binding is only tightened below; the most
      specific layer decides the rest; a validated cascade names only ranked roles; the
      per-scope cache is never stale; hot reload tracks its source.
    - [Grants] (grants/): the policy documents. Product documents cannot grant platform
      verbs; a permission changes only under a token for that very change; a revision
      names the documents it is the digest of.
    - [PolicyPg] (mantlekeep-policy-postgres): the documents in a database. A write lands
      once or not at all, whatever other operators commit, and one that fails with a
      conflict left nothing of its own; replaying the changes between two documents reaches
      the second. [SqlStore] (sqlstore/) is the transactions behind
      it, over the two tables: the history replays to the head.
    - [Floors] (internal/policy/floor.go): which requests the attribute floor denies and
      which need a second person, exactly; a rule without a message refuses nobody; more
      layers only deny more.
    - [Engine] (internal/policy rbac.go, precedence.go, provider.go, order.go, failsafe.go
      and others): [Evaluate]. A request is allowed exactly when the grants and every floor
      rule that has a message permit it; the answer is the one of the first step of the
      published order; product adapters add denials; the fail-safe policy only reads.
    - [Snapshot] (grants_reload.go, inforce.go, notices.go): the live pointer. What is in
      force is the last good document, through failed reloads. [PolicyReload] takes the
      reloads apart into their reads, loads and stores, which overlap: they settle on the
      source once it rests.
    - [Bucket], [AuditChain] (internal/audit): the hash chain over an ordered bucket.
      Logging a record of valid texts extends a verified chain by the one record (a record of
      other bytes breaks it); two verified logs that end on the same hash hold the same
      records; truncation is what the walk cannot see.
    - [Conformance]: the suites the repository gives its adopters, as tests that run against
      any implementation, under any schedule of its goroutines and any clock. With it,
      [ChainTest] (chaintest/): concurrent appends never fork the chain of the door;
      [GovernanceTest] (governancetest/): what the door of a deployment that passes cannot
      do; [ApprovalsTest], [AdmissionTest] (approvalstest/, admissiontest/): enough signers
      always release a request, and the stores in memory pass.
    - [Sdk] (internal/sdk, internal/identity): [Submit], against an interface of its three
      collaborators and then wired to the directory, [Engine] and [AuditChain]: a token
      means the policy permitted the directory's subject and the newest record of a log that
      still verifies is that allow.
    - [Startup] (app/brand.go, identity.go, policyconfig.go, policyscopes.go): from the
      environment to directories, layers and scopes. A configured source of identity is
      asked in its order, and the layers that are configured are the ones in force.
    - [PolicySources] (grants/ readers, internal/safeio): from the variables and files to the
      documents; [PolicyBundle] (policybundle/): the documents as a bundle for
      gateways, named by its revision.
    - [Wiring] (internal/config, internal/provider, internal/app, cmd/mantlekeep/wiring.go):
      which backend serves which purpose. What was said last is in force.
    - [DoorAssembly] (app/door.go, explain.go): the whole door as one process that answers,
      reloads and trips. Whatever its files become, a sealed floor binds every allow,
      except that a door whose fail-safe is tripped lets everybody read; the explainer gives
      the door's answer.
    - [Layers], [Orchestrator] (orchestrator/): dependency levels, and runs as a step
      relation over the interleavings of a level's goroutines. Steps start after their
      dependencies, once; a failed run compensates exactly the completed steps in reverse
      order of completion. [Goroutines] takes the run apart into the moves of its goroutines,
      the mutex and the WaitGroup: only a runner that hangs keeps it from ending, and it ends
      as [Orchestrator] says. [EventLog] (internal/store/events.go): the
      durable log of the runs is the in-memory one's twin.
    - [DoorDemos] (cmd/mantlekeep/main.go, cmd/acme-govern): what the demonstrations show.
    - [EstateFloor] (floor.go, with the records of manifest.go, slot.go, fleet.go),
      [Placement] (placement.go, namespace.go), [Manifest] (manifest.go, labels.go,
      governed_fields.go), [EstateResolve] (resolve.go, slot.go): what a manifest may say,
      where an app may go and why it went there, and that every change of a resolved
      manifest carries the floor's limits, at least the tier and the gate it must.
    - [Fleet] (fleet.go, ownership.go): changes to clusters, exactly the permitted ones.
    - [Reconcile] (reconcile.go): the drift report is exact in both directions, and a pass
      re-applies exactly what nobody had to approve.
    - [Approvals] (approval.go, signature.go, approvals_memory.go, approvals_collect.go):
      an approved record has exactly the required distinct signatures, none the
      requester's; decisions are final.
    - [Admissions] (admission*.go): an app is let into an environment on the gatekeepers'
      last word, which only a decision of the door writes.
    - [Manager] (manager.go, transform.go, discovery.go): everything together, as a state
      monad with a trace. No change reaches an adapter except under the token the door
      issued for it; an approval applies the change that was signed, once.
    - [Registry] (registry/, internal/store/mem.go): the artifact registry over a store
      other processes write and that can be unreachable. Versions never change, what runs
      was governed, a demise waits for its dependents. [Stores] (internal/store): the
      embedded file answers as the in-memory store, and so does a driver in another process
      for keys in UTF-8. [KernelRunner] (internal/kernel, internal/tooltest): a run in the
      sandbox is what opens the way to a promotion.
    - [Kafka] (mantlekeep-kafka): topics, bindings and quotas of a team from its intent.
      [KafkaClient] (franz/) keeps the promises of the interface [Kafka.KafkaCluster] over a
      client library that keeps [KafkaClient.KadmCluster].
    - [EstateService] (service.go, read.go, guarded.go, readonly.go, manifests.go, memory/):
      the page's reads and the wrappers around an adapter.
    - [DoorServer], [DoorClient] (doorserver/, doorkit/; doorclient/): the door over HTTP.
      The door is asked as the caller that was authenticated and only as that; a client
      over a network that delivers gets the door's answers, and over one that loses messages
      never holds a token the door did not issue.
    - [DoorProgram] (doorkit/, internal/policy/grants_live.go, cmd/mantlekeep/serve.go): the
      door as a program. It decides everything on the documents of one load.
    - [EstateConfig] (config/, internal/safepath): the estate's configuration file. An
      accepted file keeps the platform's guarantee, but for a harbor section of an unknown
      tier; reloads keep the last sound one.
    - [EstateApi] (api/): the estate's routes. A refused read looks like an unknown team.
    - [EstateServe] (serve/, fleet/): the estate process, from its flags to its requests and
      reloads, composed of [EstateConfig], [Manager], [EstateService] and [EstateApi].
    - [EstateCli] (cmd/mantlekeep-estate-cli): the client of the estate. Its exit code says
      what happened to the changes, as long as the exchange is whole and every error has a
      text.
    - [Discovery] (discovery.go): what a reconcile pass writes on the audit chain. [Mounting]
      (serve/mount.go, extension/): the routes a deployment adds.
    - [Dupstrings] (scripts/dupstrings): the checks the build runs over the sources. Over the
      tally of [Lint], [LintText] scans text and [LintGo] trees of Go; [LintJava] classifies
      lines of Java with the expressions of [Regexp]. The command exits with 0 exactly when
      every file it walks is clean.

    ** How the code is represented

    - Strings are bytes. [strings.ToLower] and [EqualFold] fold ASCII only; [%q] is exact on
      ASCII. JSON values are [Contracts.value].
    - A map is a [gmap], a nil map the empty one, a set a [gset]. Where Go ranges over a map
      in no order the model picks one, and what is proved does not depend on it; where
      the code sorts, so does the model.
    - Integers are [Z]. They wrap where the code's arithmetic can reach 64 bits
      ([Fleet.minorRank], [DoorAssembly.reloadInterval]; [strconv.Atoi] refuses what does
      not fit); elsewhere they
      are lengths, counts or nanoseconds.
    - Floating-point numbers are IEEE doubles ([SpecFloat]). Times are nanoseconds since
      Go's zero time, and every reading of a clock is an argument or a call into the world.
    - An error is a constructor of its file's error type, or a [Contracts.go_error] where
      the code looks inside one. A pair of a value and an error is a [result].
    - A codec of [encoding/json] is a class whose round trip is a law for valid texts only
      ([AuditChain.RecordCodec], [Stores.SubJSON]); a digest is a class of hexadecimal text.
      Where a theorem needs that digests do not collide it says of which inputs.
    - What a mutex protects is one atomic step. Runs of a store are lists of such steps, so
      a theorem about every list holds for every interleaving; the workflow engine, whose
      goroutines overlap, is a relation, and [Goroutines] justifies its atomic moves.
    - Code outside the repository is an argument or a class: the JSON codecs, SHA-256,
      [strconv.ParseFloat], the bbolt bucket, the policy store's transaction, the door and
      the adapters seen from the estate. A hypothesis on one of them is named in the
      theorem that needs it and met by a concrete instance in its witness.
    - Fuel: [Layers.layers_loop] takes the number of steps and removes at least one a
      round; [Placement.replace_placeholders], [Manifest.runes_from] and [trim_with] take
      the length of the string and consume at least a byte a round;
      [PolicyPg.write_attempts] has the code's own bound of five; [Regexp.star_run] gives up
      a round that takes no rune, which [Regexp.run_matches] shows loses no match;
      [LintText.range_from] and [LintGo.unquote_from] take at least a byte a round and
      [LintJava.fold_lines] a line.

    ** What is not modelled

    Opening, reading and replacing files (what a file holds is an argument); listening on a
    port, timeouts and shutting down; the database drivers, and SQL other than the
    statements of the policy store; how long a ticker waits (its ticks are events); what the
    command-line programs print; the sandbox itself, which is another program; the
    Kafka client library; the OPA that polls the policy bundle; approval stores a deployment
    supplies itself to the estate process; what sharing a slice or map between callers would
    show (a copy is its value); the client SDKs in other languages. *)
From stdpp Require Export base gmap strings pretty list sets sorting fin_maps.
From Stdlib Require Export ZArith.
From Stdlib Require Export Ascii.
From Stdlib Require Strings.String.

#[global] Set Default Goal Selector "!".

(** * Results of fallible Go functions *)

Declare Scope mk_scope.
Delimit Scope mk_scope with mk.

(** A Go function returning [(A, error)]: the code returns the zero value beside a
    non-nil error, and no caller reads it, so the pair is a sum. *)
Inductive result (E A : Type) : Type :=
| Ok (a : A)
| Err (e : E).
Arguments Ok {E A} a.
Arguments Err {E A} e.

Definition rbind {E A B} (r : result E A) (k : A → result E B) : result E B :=
  match r with Ok a => k a | Err e => Err e end.

Definition is_ok {E A} (r : result E A) : bool :=
  match r with Ok _ => true | Err _ => false end.

(** [if err != nil { return err }] before the rest of the function. *)
Notation "x <-? e ; k" := (rbind e (λ x, k))
  (at level 100, e at next level, right associativity) : mk_scope.
(** A guard clause: [if c { return e }]. *)
Notation "'refuse' c 'with' e ; k" := (if c then Err e else k)
  (at level 100, c at next level, e at next level, right associativity) : mk_scope.

Open Scope mk_scope.

Lemma rbind_Ok {E A B} (r : result E A) (k : A → result E B) b :
  rbind r k = Ok b ↔ ∃ a, r = Ok a ∧ k a = Ok b.
Proof. destruct r; naive_solver. Qed.

Lemma rbind_Err {E A B} (r : result E A) (k : A → result E B) e :
  rbind r k = Err e ↔ r = Err e ∨ ∃ a, r = Ok a ∧ k a = Err e.
Proof. destruct r; naive_solver. Qed.

(** Run a check over a list and stop at the first error, as the [for ... { if err :=
    ...; err != nil { return err } }] loops do. *)
Fixpoint first_err {E A} (f : A → result E unit) (l : list A) : result E unit :=
  match l with
  | [] => Ok tt
  | x :: l => _ <-? f x ; first_err f l
  end.

Lemma first_err_Ok {E A} (f : A → result E unit) l :
  first_err f l = Ok tt ↔ Forall (λ x, f x = Ok tt) l.
Proof.
  induction l as [|x l IH]; simpl; [by split|].
  rewrite Forall_cons, <- IH. destruct (f x) as [[]|]; naive_solver.
Qed.

Lemma first_err_Err {E A} (f : A → result E unit) l e :
  first_err f l = Err e → ∃ x, x ∈ l ∧ f x = Err e.
Proof.
  induction l as [|x l IH]; simpl; [done|].
  rewrite rbind_Err. intros [Hx|(? & _ & Hl)].
  - exists x. split; [left|done].
  - destruct (IH Hl) as (y & ? & ?). exists y. split; [by right|done].
Qed.

(** [for x in l { y, err := f(x); if err != nil { return err }; out = append(out, y) }] *)
Fixpoint mapM_err {E A B} (f : A → result E B) (l : list A) : result E (list B) :=
  match l with
  | [] => Ok []
  | x :: l => y <-? f x ; ys <-? mapM_err f l ; Ok (y :: ys)
  end.

Lemma mapM_err_Ok {E A B} (f : A → result E B) l ys :
  mapM_err f l = Ok ys ↔ Forall2 (λ x y, f x = Ok y) l ys.
Proof.
  revert ys. induction l as [|x l IH]; intros ys; simpl.
  - split; [by intros [= <-]|by inversion 1].
  - rewrite rbind_Ok. split.
    + intros (y & Hy & Hr). apply rbind_Ok in Hr as (zs & Hzs & [= <-]).
      constructor; [done|]. by apply IH.
    + intros H. inversion H as [|? y ? zs Hy Hzs]; subst. exists y. split; [done|].
      apply rbind_Ok. exists zs. split; [by apply IH|done].
Qed.

(** * Proof automation *)

(** Split every [match] and [if] of the goal or of a hypothesis, keeping equations. *)
Ltac case_code :=
  repeat (case_match; simplify_eq/=; try done).

Ltac inv_ok :=
  repeat match goal with
  | H : rbind _ _ = Ok _ |- _ => apply rbind_Ok in H as (? & ? & H)
  | H : Ok _ = Ok _ |- _ => injection H as H
  | H : Err _ = Err _ |- _ => injection H as H
  | H : Ok _ = Err _ |- _ => discriminate H
  | H : Err _ = Ok _ |- _ => discriminate H
  end; subst.

(** Turn the boolean connectives and tests of the code into propositions. *)
Ltac boolify :=
  repeat match goal with
  | H : andb _ _ = true |- _ => apply andb_true_iff in H as [? ?]
  | H : orb _ _ = false |- _ => apply orb_false_iff in H as [? ?]
  | H : negb _ = true |- _ => apply negb_true_iff in H
  | H : negb _ = false |- _ => apply negb_false_iff in H
  | H : bool_decide _ = true |- _ => apply bool_decide_eq_true in H
  | H : bool_decide _ = false |- _ => apply bool_decide_eq_false in H
  end.

Create HintDb mk discriminated.

(** * Strings, as Go's [strings] package treats them *)

(** A Go string is its bytes. *)

Definition eqs (a b : string) : bool := bool_decide (a = b).

Infix "=s?" := eqs (at level 70) : mk_scope.

Lemma eqs_true a b : (a =s? b) = true ↔ a = b.
Proof. apply bool_decide_eq_true. Qed.
Lemma eqs_false a b : (a =s? b) = false ↔ a ≠ b.
Proof. apply bool_decide_eq_false. Qed.
Lemma eqs_refl a : (a =s? a) = true.
Proof. by apply eqs_true. Qed.

Definition HasPrefix (s p : string) : bool := Stdlib.Strings.String.prefix p s.

Fixpoint rev_onto (s acc : string) : string :=
  match s with
  | EmptyString => acc
  | String c s => rev_onto s (String c acc)
  end.
Definition srev (s : string) : string := rev_onto s "".

Definition HasSuffix (s p : string) : bool := Stdlib.Strings.String.prefix (srev p) (srev s).

(** [strings.Contains] *)
Fixpoint Contains (s sub : string) : bool :=
  Stdlib.Strings.String.prefix sub s ||
  match s with EmptyString => false | String _ s => Contains s sub end.

(** [strings.ContainsAny]; the sets of characters the code passes are ASCII. *)
Fixpoint char_in (c : ascii) (chars : string) : bool :=
  match chars with
  | EmptyString => false
  | String d chars => bool_decide (c = d) || char_in c chars
  end.
Fixpoint ContainsAny (s chars : string) : bool :=
  match s with
  | EmptyString => false
  | String c s => char_in c chars || ContainsAny s chars
  end.

(** [strings.Join] *)
Fixpoint Join (l : list string) (sep : string) : string :=
  match l with
  | [] => ""
  | [x] => x
  | x :: l => x +:+ sep +:+ Join l sep
  end.

(** [strings.TrimPrefix] and [strings.CutPrefix]: the bytes after [p]. *)
Fixpoint drop_bytes (n : nat) (s : string) : string :=
  match n, s with
  | S n, String _ s => drop_bytes n s
  | _, _ => s
  end.
Definition CutPrefix (s p : string) : option string :=
  if HasPrefix s p then Some (drop_bytes (Stdlib.Strings.String.length p) s) else None.
Definition TrimPrefix (s p : string) : string := default s (CutPrefix s p).

(** [strings.ReplaceAll] of one byte by another. *)
Fixpoint replace_byte (a b : ascii) (s : string) : string :=
  match s with
  | EmptyString => EmptyString
  | String c s => String (if bool_decide (c = a) then b else c) (replace_byte a b s)
  end.

(** Code points of ASCII and case. Go folds the case of all of Unicode; the model folds
    that of ASCII, and leaves every other byte as it is. *)
Definition lower_ascii (c : ascii) : ascii :=
  let n := N_of_ascii c in
  if (65 <=? n)%N && (n <=? 90)%N then ascii_of_N (n + 32) else c.
Fixpoint ToLower (s : string) : string :=
  match s with
  | EmptyString => EmptyString
  | String c s => String (lower_ascii c) (ToLower s)
  end.
Definition EqualFold (a b : string) : bool := ToLower a =s? ToLower b.

(** [strings.TrimSpace]: the UTF-8 encodings of the code points with the White_Space
    property, which is what [unicode.IsSpace] tests. *)
Definition bytes (l : list N) : string := Stdlib.Strings.String.string_of_list_ascii (map ascii_of_N l).
Definition space_encodings : list string :=
  map bytes ([[9]; [10]; [11]; [12]; [13]; [32]; [194; 133]; [194; 160];
     [225; 154; 128]; [226; 128; 168]; [226; 128; 169]; [226; 128; 175];
     [226; 129; 159]; [227; 128; 128]] ++
     map (λ n, [226; 128; n]) [128; 129; 130; 131; 132; 133; 134; 135; 136; 137; 138])%N.

Definition cut_any (ps : list string) (s : string) : option string :=
  list_find (λ p, HasPrefix s p = true) ps ≫= λ '(_, p), CutPrefix s p.

Fixpoint trim_with (fuel : nat) (ps : list string) (s : string) : string :=
  match fuel with
  | 0 => s
  | S fuel =>
      match cut_any ps s with
      | Some rest => trim_with fuel ps rest
      | None => s
      end
  end.

(** Every cut drops at least one byte, so the length of the string is enough fuel. *)
Definition TrimSpace (s : string) : string :=
  let left := trim_with (Stdlib.Strings.String.length s) space_encodings s in
  srev (trim_with (Stdlib.Strings.String.length left) (map srev space_encodings) (srev left)).

(** [strings.Split] on a one-byte separator. *)
Fixpoint SplitByte (sep : ascii) (s : string) : list string :=
  match s with
  | EmptyString => [""]
  | String c s =>
      let parts := SplitByte sep s in
      if bool_decide (c = sep) then "" :: parts
      else match parts with
           | [] => [String c ""]
           | p :: ps => String c p :: ps
           end
  end.

(** [%q]: a double-quoted Go literal. The escapes of ASCII are exact; a byte above 127
    is kept, as Go keeps the printable code points. *)
Definition hex_digit (n : N) : ascii :=
  ascii_of_N (if (n <? 10)%N then 48 + n else 87 + n).
Definition quote_char (c : ascii) : string :=
  let n := N_of_ascii c in
  let esc (l : N) := bytes [92%N; l] in
  match n with
  | 7%N => esc 97%N | 8%N => esc 98%N | 9%N => esc 116%N | 10%N => esc 110%N | 11%N => esc 118%N
  | 12%N => esc 102%N | 13%N => esc 114%N | 34%N => esc 34%N | 92%N => esc 92%N
  | _ => if (n <? 32)%N || (n =? 127)%N
         then bytes [92%N; 120%N] +:+ String (hex_digit (n / 16)) (String (hex_digit (n mod 16)) "")
         else String c ""
  end.
Fixpoint quote_body (s : string) : string :=
  match s with
  | EmptyString => EmptyString
  | String c s => quote_char c +:+ quote_body s
  end.
Definition Quote (s : string) : string := bytes [34%N] +:+ quote_body s +:+ bytes [34%N].

(** [len(s)] and the slice expressions [s[n:]], [s[:n]] within bounds. *)
Notation slen := Stdlib.Strings.String.length (only parsing).
Fixpoint take_bytes (n : nat) (s : string) : string :=
  match n, s with
  | S n, String c s => String c (take_bytes n s)
  | _, _ => EmptyString
  end.

Lemma HasPrefix_spec s p : HasPrefix s p = true ↔ ∃ t, s = p +:+ t.
Proof.
  unfold HasPrefix. revert s. induction p as [|a p IH]; intros s; simpl.
  - split; [by exists s|by destruct s].
  - destruct s as [|b s]; simpl; [by split; [|intros [t Ht]]|].
    destruct (ascii_dec a b) as [->|Hne].
    + rewrite IH. split; intros [t Ht]; exists t.
      * by rewrite Ht.
      * by injection Ht.
    + split; [done|]. intros [t Ht]. by injection Ht.
Qed.

(** * Maps: Go's [map[string]V] *)

(** Go visits a map in an unspecified order, so the code sorts the keys where the order
    shows; [sorted_keys] is [sort.Strings] of them. *)
Definition sort_strings : list string → list string := merge_sort String.le.

Definition sorted_keys {V} (m : gmap string V) : list string :=
  sort_strings (map_to_list m).*1.

Lemma elem_of_sort_strings l x : x ∈ sort_strings l ↔ x ∈ l.
Proof. unfold sort_strings. by rewrite merge_sort_Permutation. Qed.

Lemma elem_of_sorted_keys {V} (m : gmap string V) k :
  k ∈ sorted_keys m ↔ is_Some (m !! k).
Proof.
  unfold sorted_keys. rewrite elem_of_sort_strings, list_elem_of_fmap. split.
  - intros ([k' v] & -> & Hin). apply elem_of_map_to_list in Hin. by eexists.
  - intros [v Hv]. exists (k, v). split; [done|]. by apply elem_of_map_to_list.
Qed.

Lemma sorted_keys_sorted {V} (m : gmap string V) : Sorted String.le (sorted_keys m).
Proof. unfold sorted_keys, sort_strings. apply Sorted_merge_sort, _. Qed.

Lemma sorted_keys_NoDup {V} (m : gmap string V) : NoDup (sorted_keys m).
Proof.
  unfold sorted_keys, sort_strings. rewrite merge_sort_Permutation.
  apply NoDup_fst_map_to_list.
Qed.

(** Reading a [map[string]bool] used as a set: an absent key reads false. *)
Definition in_set (s : gset string) (k : string) : bool := bool_decide (k ∈ s).

Lemma in_set_true s k : in_set s k = true ↔ k ∈ s.
Proof. apply bool_decide_eq_true. Qed.
Lemma in_set_false s k : in_set s k = false ↔ k ∉ s.
Proof. apply bool_decide_eq_false. Qed.

(** [sort.Strings] of the keys of a set. *)
Definition sorted_elements (s : gset string) : list string := sort_strings (elements s).

Lemma elem_of_sorted_elements s x : x ∈ sorted_elements s ↔ x ∈ s.
Proof. unfold sorted_elements. by rewrite elem_of_sort_strings, elem_of_elements. Qed.

Lemma sorted_elements_NoDup s : NoDup (sorted_elements s).
Proof. unfold sorted_elements, sort_strings. rewrite merge_sort_Permutation. apply NoDup_elements. Qed.

(** Reading a [map[string][]T]: an absent key reads the nil slice. *)
Definition get_list {V} (m : gmap string (list V)) (k : string) : list V :=
  default [] (m !! k).

(** A linear scan of a slice for a string. *)
Definition slice_contains (l : list string) (x : string) : bool := bool_decide (x ∈ l).

Lemma slice_contains_true l x : slice_contains l x = true ↔ x ∈ l.
Proof. apply bool_decide_eq_true. Qed.
Lemma slice_contains_false l x : slice_contains l x = false ↔ x ∉ l.
Proof. apply bool_decide_eq_false. Qed.

#[export] Hint Rewrite eqs_true eqs_false eqs_refl in_set_true in_set_false
  slice_contains_true slice_contains_false @elem_of_sorted_keys : mk.
#[export] Hint Resolve sorted_keys_NoDup sorted_keys_sorted : mk.

(** [existsb] and [find] read as loops that return at the first hit. *)
Lemma existsb_true {A} (f : A → bool) l :
  existsb f l = true ↔ ∃ x, x ∈ l ∧ f x = true.
Proof.
  rewrite existsb_exists. setoid_rewrite <- list_elem_of_In. done.
Qed.

Lemma existsb_false {A} (f : A → bool) l :
  existsb f l = false ↔ ∀ x, x ∈ l → f x = false.
Proof.
  rewrite <- not_true_iff_false, existsb_true. split.
  - intros H x Hx. destruct (f x) eqn:E; [|done]. exfalso. eauto.
  - intros H (x & Hx & E). rewrite (H x Hx) in E. done.
Qed.

Lemma elem_of_map {A B} (f : A → B) l y : y ∈ map f l ↔ ∃ x, y = f x ∧ x ∈ l.
Proof. apply list_elem_of_fmap. Qed.

Lemma elem_of_flat_map {A B} (f : A → list B) l y :
  y ∈ flat_map f l ↔ ∃ x, x ∈ l ∧ y ∈ f x.
Proof. rewrite list_elem_of_In, in_flat_map. by setoid_rewrite list_elem_of_In. Qed.

(** * Decimal integers: [%d] *)

Definition Itoa (z : Z) : string := pretty z.

Lemma pretty_N_go_char_in c x s :
  (∀ d, c ≠ pretty_N_char d) → char_in c s = false → char_in c (pretty_N_go x s) = false.
Proof.
  intros Hc. revert s. induction (N.lt_wf_0 x) as [x _ IH]; intros s Hs.
  destruct (decide (x = 0)%N) as [->|Hx]; [done|].
  rewrite pretty_N_go_step by lia. apply IH; [apply N.div_lt; lia|]. simpl.
  by rewrite bool_decide_eq_false_2.
Qed.

(** A length is rendered in digits, so the first colon ends it. *)
Lemma pretty_nat_no_colon (n : nat) : char_in ":" (pretty n) = false.
Proof.
  unfold pretty, pretty_nat, pretty, pretty_N. case_decide; [done|].
  apply pretty_N_go_char_in; [|done]. intros d. unfold pretty_N_char. by repeat case_match.
Qed.

Lemma append_assoc (a b c : string) : (a +:+ b) +:+ c = a +:+ (b +:+ c).
Proof. induction a as [|x a IH]; [done|]. change (String x ((a +:+ b) +:+ c) = String x (a +:+ (b +:+ c))). by rewrite IH. Qed.

Lemma append_cancel_sep c (a b s t : string) :
  char_in c a = false → char_in c b = false →
  a +:+ String c s = b +:+ String c t → a = b ∧ s = t.
Proof.
  revert b. induction a as [|x a IH]; intros [|y b] Ha Hb H; simpl in *.
  - by injection H.
  - injection H as -> _. by rewrite bool_decide_eq_true_2 in Hb.
  - injection H as -> _. by rewrite bool_decide_eq_true_2 in Ha.
  - injection H as -> H. apply orb_false_iff in Ha as [_ Ha], Hb as [_ Hb].
    by destruct (IH b Ha Hb H) as [-> ->].
Qed.

Lemma append_same_length a b s t :
  slen a = slen b → a +:+ s = b +:+ t → a = b ∧ s = t.
Proof.
  revert b. induction a as [|x a IH]; intros [|y b] Hl H; simpl in *; try done.
  injection H as -> H. injection Hl as Hl. by destruct (IH b Hl H) as [-> ->].
Qed.

(** * Splitting, joining and trimming *)

Lemma SplitByte_no_sep c s : char_in c s = false → SplitByte c s = [s].
Proof.
  induction s as [|a s IH]; [done|]. simpl. rewrite orb_false_iff, bool_decide_eq_false.
  intros [Hne Hs]. rewrite (IH Hs). by rewrite bool_decide_eq_false_2 by congruence.
Qed.

Lemma SplitByte_app c a s :
  char_in c a = false → SplitByte c (a +:+ String c s) = a :: SplitByte c s.
Proof.
  induction a as [|b a IH]; [by simpl; rewrite bool_decide_eq_true_2|].
  simpl. rewrite orb_false_iff, bool_decide_eq_false. intros [Hne Ha]. rewrite (IH Ha).
  by rewrite bool_decide_eq_false_2 by congruence.
Qed.

Lemma rev_onto_app s acc t : rev_onto s (acc +:+ t) = rev_onto s acc +:+ t.
Proof. revert acc. induction s as [|c s IH]; intros acc; [done|]. apply (IH (String c acc)). Qed.
Lemma rev_onto_rev s acc t : rev_onto (rev_onto s acc) t = rev_onto acc (s +:+ t).
Proof. revert acc t. induction s as [|c s IH]; intros acc t; [done|]. simpl. by rewrite IH. Qed.
Lemma srev_involutive s : srev (srev s) = s.
Proof.
  unfold srev. rewrite rev_onto_rev. simpl. induction s as [|c s IH]; [done|].
  change (String c (s +:+ "") = String c s). by rewrite IH.
Qed.
Lemma srev_app a b : srev (a +:+ b) = srev b +:+ srev a.
Proof.
  unfold srev. assert (∀ acc, rev_onto (a +:+ b) acc = rev_onto b (rev_onto a acc)) as ->.
  { induction a as [|c a IH]; intros acc; [done|]. apply IH. }
  apply (rev_onto_app b "" (rev_onto a "")).
Qed.

(** A printable ASCII byte other than the space. *)
Definition graphic (c : ascii) : bool := let n := N_of_ascii c in (33 <=? n)%N && (n <=? 126)%N.
Definition starts_graphic (s : string) : bool := match s with EmptyString => false | String c _ => graphic c end.
(** A text that begins and ends with one: what trimming leaves alone. *)
Definition edged (s : string) : bool := starts_graphic s && starts_graphic (srev s).

Lemma trim_with_graphic n ps s :
  starts_graphic s = true → Forall (λ p, p ≠ "" ∧ starts_graphic p = false) ps → trim_with n ps s = s.
Proof.
  intros Hs Hps. destruct n; [done|]. simpl. destruct (cut_any ps s) eqn:E; [|done]. exfalso.
  unfold cut_any in E. apply bind_Some in E as ([i p] & Hf & _). apply list_find_Some in Hf as (Hi & Hpre & _).
  apply (list_elem_of_lookup_2 _ _ _) in Hi. rewrite Forall_forall in Hps. destruct (Hps _ Hi) as [Hne Hp].
  apply HasPrefix_spec in Hpre as [t ->]. destruct p as [|c p]; [done|]. simpl in Hs, Hp. congruence.
Qed.

Lemma TrimSpace_edged s : edged s = true → TrimSpace s = s.
Proof.
  unfold edged, TrimSpace. rewrite andb_true_iff. intros [H1 H2].
  assert (∀ l, forallb (λ p, negb (p =s? "") && negb (starts_graphic p)) l = true →
    Forall (λ p, p ≠ "" ∧ starts_graphic p = false) l) as Hl.
  { induction l as [|p l IH]; simpl; [constructor|]. rewrite !andb_true_iff, !negb_true_iff, eqs_false.
    intros [[? ?] ?]. constructor; auto. }
  rewrite (trim_with_graphic _ space_encodings s) by (done || by apply Hl; vm_compute).
  rewrite trim_with_graphic by (done || by apply Hl; vm_compute). apply srev_involutive.
Qed.

Lemma edged_nonempty s : edged s = true → s ≠ "".
Proof. by destruct s. Qed.

Lemma starts_graphic_app a b : starts_graphic a = true → starts_graphic (a +:+ b) = true.
Proof. by destruct a. Qed.

Lemma edged_Join sep l : l ≠ [] → Forall (λ x, edged x = true) l → edged (Join l sep) = true.
Proof.
  intros Hne H. induction H as [|x l Hx Hl IH]; [done|]. destruct l as [|y l]; [done|].
  assert (edged (Join (y :: l) sep) = true) as IH' by (by apply IH).
  change (Join (x :: y :: l) sep) with (x +:+ (sep +:+ Join (y :: l) sep)).
  apply andb_true_iff in Hx as [Hx _], IH' as [_ IH']. apply andb_true_iff. split; [by apply starts_graphic_app|].
  rewrite !srev_app. by apply starts_graphic_app, starts_graphic_app.
Qed.

Lemma SplitByte_Join sep l :
  l ≠ [] → Forall (λ x, char_in sep x = false) l → SplitByte sep (Join l (String sep "")) = l.
Proof.
  intros Hne H. induction H as [|x l Hx Hl IH]; [done|]. destruct l as [|y l]; [by apply SplitByte_no_sep|].
  change (Join (x :: y :: l) (String sep "")) with (x +:+ String sep (Join (y :: l) (String sep ""))).
  rewrite SplitByte_app by done. by rewrite IH.
Qed.

(** * Machine integers

    A Go [int] is 64 bits wide and wraps; [strconv.Atoi] refuses what does not fit. *)

Definition is_digit (c : ascii) : bool := (48 <=? N_of_ascii c)%N && (N_of_ascii c <=? 57)%N.
Fixpoint all_chars (f : ascii → bool) (s : string) : bool :=
  match s with EmptyString => true | String c s => f c && all_chars f s end.

Definition wrap64 (z : Z) : Z := ((z + 2 ^ 63) mod 2 ^ 64 - 2 ^ 63)%Z.

Definition digit_value (c : ascii) : Z := Z.of_N (N_of_ascii c) - 48.
Fixpoint digits_value (acc : Z) (s : string) : Z :=
  match s with
  | EmptyString => acc
  | String c s => digits_value (10 * acc + digit_value c) s
  end.

(** An optional sign and digits, within 64 bits. *)
Definition Atoi (s : string) : option Z :=
  let '(negative, digits) :=
    match s with
    | String "-" s => (true, s)
    | String "+" s => (false, s)
    | _ => (false, s)
    end in
  if (digits =s? "") || negb (all_chars is_digit digits) then None
  else
    let v := digits_value 0 digits in
    let v := (if negative : bool then - v else v)%Z in
    if (- 2 ^ 63 <=? v)%Z && (v <? 2 ^ 63)%Z then Some v else None.

Lemma wrap64_small z : (- 2 ^ 63 ≤ z < 2 ^ 63)%Z → wrap64 z = z.
Proof. intros Hz. unfold wrap64. rewrite Z.mod_small; lia. Qed.
