(* ===== verification/Utf8.v ===== *)
(** UTF-8 and the texts of [encoding/json]: what the standard library does with the bytes of
    a string. [ValidString] is [utf8.ValidString]; [coerced] is a string after
    [json.Marshal] and [json.Unmarshal], which replace every byte that is not part of a
    valid encoding by the replacement character U+FFFD. The codecs of records, entries,
    values and requests are arguments of the model; their round trips hold for valid
    texts, and these are the definitions that say which. *)
From S2P Require Import Prelude.

(** [utf8.ValidString] *)
Definition byte_in (lo hi : N) (c : ascii) : bool :=
  ((lo <=? N_of_ascii c) && (N_of_ascii c <=? hi))%N.
Definition second_of_three (a b : ascii) : bool :=
  match N_of_ascii a with
  | 224%N => byte_in 160 191 b
  | 237%N => byte_in 128 159 b
  | _ => byte_in 128 191 b
  end.
Definition second_of_four (a b : ascii) : bool :=
  match N_of_ascii a with
  | 240%N => byte_in 144 191 b
  | 244%N => byte_in 128 143 b
  | _ => byte_in 128 191 b
  end.
Fixpoint ValidString (s : string) : bool :=
  match s with
  | EmptyString => true
  | String a s =>
      if byte_in 0 127 a then ValidString s else
      match s with
      | EmptyString => false
      | String b s =>
          if byte_in 194 223 a then byte_in 128 191 b && ValidString s else
          match s with
          | EmptyString => false
          | String c s =>
              if byte_in 224 239 a then second_of_three a b && byte_in 128 191 c && ValidString s else
              match s with
              | EmptyString => false
              | String d s =>
                  byte_in 240 244 a && second_of_four a b && byte_in 128 191 c &&
                  byte_in 128 191 d && ValidString s
              end
          end
      end
  end.

(** The encoding of U+FFFD. *)
Definition replacement_text (rest : string) : string :=
  String (ascii_of_N 239) (String (ascii_of_N 191) (String (ascii_of_N 189) rest)).

Definition two_bytes (a b : ascii) : bool := byte_in 194 223 a && byte_in 128 191 b.
Definition three_bytes (a b c : ascii) : bool :=
  byte_in 224 239 a && second_of_three a b && byte_in 128 191 c.
Definition four_bytes (a b c d : ascii) : bool :=
  byte_in 240 244 a && second_of_four a b && byte_in 128 191 c && byte_in 128 191 d.

(** Every byte that starts no valid encoding is replaced. *)
Fixpoint coerced (s : string) : string :=
  match s with
  | EmptyString => EmptyString
  | String a s1 =>
      if byte_in 0 127 a then String a (coerced s1) else
      match s1 with
      | EmptyString => replacement_text (coerced s1)
      | String b s2 =>
          if two_bytes a b then String a (String b (coerced s2)) else
          match s2 with
          | EmptyString => replacement_text (coerced s1)
          | String c s3 =>
              if three_bytes a b c then String a (String b (String c (coerced s3))) else
              match s3 with
              | EmptyString => replacement_text (coerced s1)
              | String d s4 =>
                  if four_bytes a b c d
                  then String a (String b (String c (String d (coerced s4))))
                  else replacement_text (coerced s1)
              end
          end
      end
  end.

(** ** Lemmas *)

(** The ranges of the first bytes do not overlap. *)
Lemma byte_in_disjoint lo hi lo' hi' c :
  (hi < lo')%N → byte_in lo hi c = true → byte_in lo' hi' c = false.
Proof.
  unfold byte_in. rewrite andb_true_iff, andb_false_iff, !N.leb_le, !N.leb_gt. lia.
Qed.

Lemma ValidString_two a b s :
  two_bytes a b = true → ValidString (String a (String b s)) = ValidString s.
Proof.
  unfold two_bytes. rewrite andb_true_iff. intros [Ha Hb]. cbn [ValidString].
  assert (byte_in 0 127 a = false) as ->.
  { destruct (byte_in 0 127 a) eqn:E; [|done]. by rewrite (byte_in_disjoint 0 127 194 223) in Ha. }
  by rewrite Ha, Hb.
Qed.

Lemma ValidString_three a b c s :
  three_bytes a b c = true → ValidString (String a (String b (String c s))) = ValidString s.
Proof.
  unfold three_bytes. rewrite !andb_true_iff. intros [[Ha Hb] Hc]. cbn [ValidString].
  assert (byte_in 0 127 a = false) as ->.
  { destruct (byte_in 0 127 a) eqn:E; [|done]. by rewrite (byte_in_disjoint 0 127 224 239) in Ha. }
  assert (byte_in 194 223 a = false) as ->.
  { destruct (byte_in 194 223 a) eqn:E; [|done]. by rewrite (byte_in_disjoint 194 223 224 239) in Ha. }
  by rewrite Ha, Hb, Hc.
Qed.

Lemma ValidString_four a b c d s :
  four_bytes a b c d = true →
  ValidString (String a (String b (String c (String d s)))) = ValidString s.
Proof.
  unfold four_bytes. rewrite !andb_true_iff. intros [[[Ha Hb] Hc] Hd]. cbn [ValidString].
  assert (byte_in 0 127 a = false) as ->.
  { destruct (byte_in 0 127 a) eqn:E; [|done]. by rewrite (byte_in_disjoint 0 127 240 244) in Ha. }
  assert (byte_in 194 223 a = false) as ->.
  { destruct (byte_in 194 223 a) eqn:E; [|done]. by rewrite (byte_in_disjoint 194 223 240 244) in Ha. }
  assert (byte_in 224 239 a = false) as ->.
  { destruct (byte_in 224 239 a) eqn:E; [|done]. by rewrite (byte_in_disjoint 224 239 240 244) in Ha. }
  by rewrite Ha, Hb, Hc, Hd.
Qed.

Lemma ValidString_replacement s : ValidString (replacement_text s) = ValidString s.
Proof. by apply ValidString_three. Qed.

(** Induction on the bytes that are left. *)
Lemma string_bytes_ind (P : string → Prop) :
  (∀ s, (∀ t, slen t < slen s → P t) → P s) → ∀ s, P s.
Proof.
  intros H s. remember (slen s) as n eqn:Hn. revert s Hn.
  induction n as [n IH] using lt_wf_ind. intros s ->. apply H. intros t Ht. by eapply IH.
Qed.

(** What was read is valid. *)
Lemma ValidString_coerced s : ValidString (coerced s) = true.
Proof.
  induction s as [s IH] using string_bytes_ind.
  assert (∀ s1 a, s = String a s1 → ValidString (replacement_text (coerced s1)) = true) as Hrep.
  { intros s1 a ->. rewrite ValidString_replacement. apply IH. simpl. lia. }
  destruct s as [|a s1]; [done|]. cbn [coerced]. destruct (byte_in 0 127 a) eqn:E1.
  { cbn [ValidString]. rewrite E1. apply IH. simpl. lia. }
  destruct s1 as [|b s2]; [by eapply Hrep|]. destruct (two_bytes a b) eqn:E2.
  { rewrite ValidString_two by done. apply IH. simpl. lia. }
  destruct s2 as [|c s3]; [by eapply Hrep|]. destruct (three_bytes a b c) eqn:E3.
  { rewrite ValidString_three by done. apply IH. simpl. lia. }
  destruct s3 as [|d s4]; [by eapply Hrep|]. destruct (four_bytes a b c d) eqn:E4.
  { rewrite ValidString_four by done. apply IH. simpl. lia. }
  by eapply Hrep.
Qed.

(** A valid text comes back as it was. *)
Lemma coerced_valid s : ValidString s = true → coerced s = s.
Proof.
  induction s as [s IH] using string_bytes_ind.
  destruct s as [|a s1]; [done|]. cbn [coerced ValidString]. destruct (byte_in 0 127 a) eqn:E1.
  { intros Hv. f_equal. apply IH; [simpl; lia|done]. }
  destruct s1 as [|b s2]; [done|]. unfold two_bytes. destruct (byte_in 194 223 a) eqn:E2.
  { intros [Hb Hv]%andb_true_iff. rewrite Hb. cbn [andb]. f_equal. f_equal.
    apply IH; [simpl; lia|done]. }
  cbn [andb]. destruct s2 as [|c s3]; [done|]. unfold three_bytes.
  destruct (byte_in 224 239 a) eqn:E3.
  { intros [[Hb Hc]%andb_true_iff Hv]%andb_true_iff. rewrite Hb, Hc. cbn [andb].
    do 3 f_equal. apply IH; [simpl; lia|done]. }
  cbn [andb]. destruct s3 as [|d s4]; [done|]. unfold four_bytes.
  rewrite !andb_true_iff. intros [[[[Ha Hb] Hc] Hd] Hv]. rewrite Ha, Hb, Hc, Hd. cbn [andb].
  do 4 f_equal. apply IH; [simpl; lia|done].
Qed.

Lemma coerced_idemp s : coerced (coerced s) = coerced s.
Proof. apply coerced_valid, ValidString_coerced. Qed.

(** ASCII is valid. *)
Definition ascii_text (s : string) : bool := all_chars (byte_in 0 127) s.

Lemma ValidString_ascii a b : ascii_text a = true → ValidString (a +:+ b) = ValidString b.
Proof.
  induction a as [|c a IH]; [done|]. unfold ascii_text. cbn [all_chars]. intros [Hc Ha]%andb_true_iff.
  change (String c a +:+ b) with (String c (a +:+ b)). cbn [ValidString]. rewrite Hc. by apply IH.
Qed.

Lemma ascii_text_app a b : ascii_text (a +:+ b) = ascii_text a && ascii_text b.
Proof.
  induction a as [|c a IH]; [done|]. unfold ascii_text in *. change (String c a +:+ b) with (String c (a +:+ b)).
  cbn [all_chars]. by rewrite IH, andb_assoc.
Qed.

Lemma all_chars_rev_onto f s acc : all_chars f (rev_onto s acc) = all_chars f s && all_chars f acc.
Proof. revert acc. induction s as [|c s IH]; intros acc; [done|]. cbn [rev_onto all_chars]. rewrite IH. cbn [all_chars]. by destruct (f c), (all_chars f s). Qed.

Lemma ascii_text_srev s : ascii_text (srev s) = ascii_text s.
Proof. unfold ascii_text, srev. rewrite all_chars_rev_onto. apply andb_true_r. Qed.

(** ** Decimal numbers *)

Lemma pretty_N_char_digit d : (d < 10)%N → is_digit (pretty_N_char d) = true ∧ digit_value (pretty_N_char d) = Z.of_N d.
Proof. intros Hd. destruct d as [|p]; [done|]. do 4 (destruct p as [p|p|]; try done; try lia). Qed.

Lemma digits_value_go x s : digits_value 0 (pretty_N_go x s) = digits_value (Z.of_N x) s.
Proof.
  revert s. induction (N.lt_wf_0 x) as [x _ IH]; intros s. destruct (decide (x = 0)%N) as [->|Hx]; [done|].
  rewrite pretty_N_go_step by lia. rewrite IH by (apply N.div_lt; lia). cbn [digits_value]. f_equal.
  destruct (pretty_N_char_digit (x mod 10)) as [_ ->]; [apply N.mod_lt; lia|]. pose proof (N.div_mod x 10). lia.
Qed.

Lemma all_digits_go x s : all_chars is_digit s = true → all_chars is_digit (pretty_N_go x s) = true.
Proof.
  revert s. induction (N.lt_wf_0 x) as [x _ IH]; intros s Hs. destruct (decide (x = 0)%N) as [->|Hx]; [done|].
  rewrite pretty_N_go_step by lia. apply IH; [apply N.div_lt; lia|]. cbn [all_chars].
  by rewrite (proj1 (pretty_N_char_digit (x mod 10) ltac:(apply N.mod_lt; lia))).
Qed.

Lemma digits_Itoa n : (0 ≤ n)%Z → all_chars is_digit (Itoa n) = true ∧ digits_value 0 (Itoa n) = n ∧ Itoa n ≠ "".
Proof.
  intros Hn. assert (∀ x, all_chars is_digit (pretty x) = true ∧ digits_value 0 (pretty x) = Z.of_N x ∧ pretty x ≠ "") as Hp.
  { intros x. unfold pretty, pretty_N. case_decide as Hx; [by rewrite Hx|]. split; [by apply all_digits_go|]. split; [apply digits_value_go|].
    rewrite pretty_N_go_step by lia. intros E. assert (∀ y s, s ≠ "" → pretty_N_go y s ≠ "") as Hne; [|by eapply Hne in E].
    clear. intros y. induction (N.lt_wf_0 y) as [y _ IH]; intros s Hs. destruct (decide (y = 0)%N) as [->|Hy]; [done|].
    rewrite pretty_N_go_step by lia. apply IH; [apply N.div_lt; lia|done]. }
  unfold Itoa, pretty, pretty_Z. destruct n as [|q|q]; [done|exact (Hp (Npos q))|lia].
Qed.

(** The digits of a number are ASCII. *)
Lemma digits_ascii s : all_chars is_digit s = true → ascii_text s = true.
Proof.
  induction s as [|c s IH]; [done|]. cbn [all_chars]. intros [Hc Hs]%andb_true_iff.
  change (byte_in 0 127 c && ascii_text s = true). rewrite (IH Hs), andb_true_r.
  unfold is_digit, byte_in in *. apply andb_true_iff in Hc as [H1 H2]. apply N.leb_le in H1, H2.
  apply andb_true_iff. split; apply N.leb_le; lia.
Qed.

Lemma pretty_ascii n : ascii_text (pretty (n : N)) = true.
Proof.
  apply digits_ascii. unfold pretty, pretty_N. case_decide; [done|]. by apply all_digits_go.
Qed.

Lemma Itoa_ascii z : ascii_text (Itoa z) = true.
Proof.
  destruct z as [|q|q]; [done|by apply digits_ascii, digits_Itoa|].
  change (ascii_text ("-" +:+ pretty (Npos q)) = true). unfold ascii_text. cbn [all_chars].
  exact (pretty_ascii (Npos q)).
Qed.

Lemma ascii_valid a : ascii_text a = true → ValidString a = true.
Proof.
  induction a as [|c a IH]; [done|]. unfold ascii_text. cbn [all_chars ValidString].
  intros [-> Ha]%andb_true_iff. by apply IH.
Qed.
