(* ===== verification/Contracts.v ===== *)
(** The contracts of the control plane: [mantlekeep-control/contracts.go], with
    [decision.go] (recovering the door's decision from an error) and [policyinput.go]
    (the one construction of an evaluator's input).

    The string types whose values cross the wire ([Role], [DecisionAction],
    [DenialCategory], [Tier] ...) are strings here as they are in the code, with the
    code's constants, because the code converts arbitrary text into them.  A [time.Time]
    is the number of nanoseconds since Go's zero time, so [IsZero] is [= 0].  The values
    of a [map[string]any] are [value]: what [encoding/json] produces, and the typed maps
    Go callers pass. *)
From S2P Require Import Prelude.

(** ** Identity *)

Notation Role := string (only parsing).

Definition RoleSuperAdmin : Role := "L0-SuperAdmin".
Definition RoleArchitect : Role := "L1-Architect".
Definition RoleOperator : Role := "L2-Operator".
Definition RoleConsumer : Role := "L3-Consumer".
Definition RoleAIAgent : Role := "AI-Agent".

Record Subject := mkSubject {
  sub_ID : string;
  sub_Roles : list Role;
  sub_ADGroups : list string;
  sub_IsAI : bool;
  sub_Attrs : gmap string string;
}.

Record ExternalIdentity := mkExternalIdentity {
  ext_ID : string;
  ext_Groups : list string;
  ext_Attrs : gmap string string;
}.

(** ** Intent *)

Notation Time := Z (only parsing).
Notation Duration := Z (only parsing).

Inductive value :=
| VNil
| VBool (b : bool)
| VString (s : string)
| VNumber (z : Z)
| VList (l : list value)
| VMap (m : gmap string value)
| VStringMap (m : gmap string string).

Record IntentSpec := mkIntentSpec {
  spec_Goal : string;
  spec_AffectedSystems : list string;
  spec_RiskLevel : string;
  spec_Preconditions : list string;
  spec_Postconditions : list string;
  spec_RollbackPlan : string;
}.

Record Intent := mkIntent {
  int_ID : string;
  int_Subject : Subject;
  int_Action : string;
  int_Resource : string;
  int_Spec : IntentSpec;
  int_Params : gmap string value;
  int_SubmittedAt : Time;
  int_TTL : Duration;
  int_Via : string;
}.

(** [s, _ := params[key].(string)]: the empty string when absent or of another type. *)
Definition param_string (params : gmap string value) (key : string) : string :=
  match params !! key with Some (VString s) => s | _ => "" end.

(** ** Decision *)

Notation DecisionAction := string (only parsing).
Definition ActionAllow : DecisionAction := "allow".
Definition ActionDeny : DecisionAction := "deny".
Definition ActionRequireApproval : DecisionAction := "require_approval".

Notation DenialCategory := string (only parsing).
Definition DenialNone : DenialCategory := "".
Definition DenialFloor : DenialCategory := "floor".
Definition DenialSeparationOfDuties : DenialCategory := "separation_of_duties".
Definition DenialIdentity : DenialCategory := "identity".
Definition DenialActionNotAllowed : DenialCategory := "action_not_allowed".
Definition DenialValidation : DenialCategory := "validation".
Definition DenialPolicyError : DenialCategory := "policy_error".

Record Decision := mkDecision {
  dec_Action : DecisionAction;
  dec_Reason : string;
  dec_Category : DenialCategory;
  dec_RequiredApprovers : list Role;
  dec_PolicyID : string;
  dec_Warnings : list string;
  dec_Step : string;
}.

(** The zero [Decision{}]. *)
Definition zeroDecision : Decision := mkDecision "" "" "" [] "" [] "".

#[export] Instance Decision_eq_dec : EqDecision Decision.
Proof. solve_decision. Defined.

Record Refused := mkRefused {
  ref_Action : DecisionAction;
  ref_Reason : string;
  ref_RequiredApprovers : list Role;
  ref_PolicyID : string;
}.

Definition Refused_Pending (r : Refused) : bool := ref_Action r =s? ActionRequireApproval.

(** ** Errors *)

(** An [error]: a package variable made by [errors.New] and compared by identity (its
    message stands for the identity: the variables of the code have distinct messages);
    a text made by [fmt.Errorf]; the two types that carry a decision; and a text that
    wraps other errors with [%w]. *)
Inductive go_error :=
| ErrorVar (msg : string)
| ErrorText (msg : string)
| ErrorDecision (d : Decision)
| ErrorRefused (r : Refused)
| ErrorWrap (msg : string) (causes : list go_error).

(** [err.Error()] of the two typed errors is the action, a colon and the reason. *)
Definition Error (e : go_error) : string :=
  match e with
  | ErrorVar msg | ErrorText msg | ErrorWrap msg _ => msg
  | ErrorDecision d => dec_Action d +:+ ": " +:+ dec_Reason d
  | ErrorRefused r => ref_Action r +:+ ": " +:+ ref_Reason r
  end.

(** [errors.As]: a depth-first walk of the tree of wrapped errors. *)
Fixpoint errors_as {A} (target : go_error → option A) (e : go_error) : option A :=
  match target e with
  | Some a => Some a
  | None =>
      match e with
      | ErrorWrap _ causes =>
          (fix walk (l : list go_error) : option A :=
             match l with
             | [] => None
             | c :: l => match errors_as target c with Some a => Some a | None => walk l end
             end) causes
      | _ => None
      end
  end.

Definition as_DecisionError (e : go_error) : option Decision :=
  match e with ErrorDecision d => Some d | _ => None end.
Definition as_Refused (e : go_error) : option Refused :=
  match e with ErrorRefused r => Some r | _ => None end.
Definition as_var (msg : string) (e : go_error) : option unit :=
  match e with ErrorVar m => if m =s? msg then Some tt else None | _ => None end.

(** [errors.Is] against a package variable. *)
Definition errors_is (e : go_error) (msg : string) : bool :=
  if errors_as (as_var msg) e then true else false.

(** [DecisionFrom]; a nil error is [None]. *)
Definition DecisionFrom (err : option go_error) : Decision * bool :=
  match err with
  | None => (zeroDecision, false)
  | Some e =>
      match errors_as as_DecisionError e with
      | Some d => (d, true)
      | None =>
          match errors_as as_Refused e with
          | Some r => (mkDecision (ref_Action r) (ref_Reason r) "" (ref_RequiredApprovers r)
                         "" [] "", true)
          | None => (zeroDecision, false)
          end
      end
  end.

Definition AwaitingApproval (err : option go_error) : bool :=
  let '(decision, ok) := DecisionFrom err in
  ok && (dec_Action decision =s? ActionRequireApproval).

(** ** The policy port *)

Record PolicySubject := mkPolicySubject {
  ps_ID : string;
  ps_Roles : list Role;
  ps_IsAI : bool;
  ps_Attrs : gmap string string;
}.

Record PolicyIntent := mkPolicyIntent {
  pi_Action : string;
  pi_Resource : string;
  pi_Requester : string;
  pi_Env : string;
  pi_Goal : string;
  pi_Scope : string;
  pi_Params : gmap string value;
}.

Record PolicyInput := mkPolicyInput {
  in_Subject : PolicySubject;
  in_Intent : PolicyIntent;
}.

Definition PolicyInputFor (subject : Subject) (intent : Intent) : PolicyInput :=
  mkPolicyInput
    (mkPolicySubject (sub_ID subject) (sub_Roles subject) (sub_IsAI subject) (sub_Attrs subject))
    (mkPolicyIntent (int_Action intent) (int_Resource intent)
       (param_string (int_Params intent) "requester")
       (param_string (int_Params intent) "env")
       (spec_Goal (int_Spec intent))
       (param_string (int_Params intent) "scope")
       (int_Params intent)).

Definition SourceEngine : string := "engine".
Definition SourcePolicy : string := "policy".

Record EvaluationStep := mkEvaluationStep {
  es_Name : string;
  es_Outcome : DecisionAction;
  es_Source : string;
}.

Definition StepGoalStated : string := "goal is stated".
Definition StepAINotApproving : string := "an AI is not performing an approval".
Definition StepRolePermits : string := "a role permits the action".
Definition StepSeparationOfDuties : string := "the approver is not the requester".
Definition StepProductAdmits : string := "the owning product admits the request".
Definition StepAttributeFloor : string := "the attribute floor admits the request".
Definition StepApprovalGate : string := "does a second person have to sign off".

(** ** Execution token *)

Record ExecutionToken := mkExecutionToken {
  tok_Value : string;
  tok_IntentID : string;
  tok_Scope : string;
  tok_PolicyID : string;
  tok_IssuedAt : Time;
  tok_ExpiresAt : Time;
}.

Definition ExecutionToken_Valid (tk : ExecutionToken) (t : Time) : bool :=
  (t <? tok_ExpiresAt tk)%Z.

(** ** Workflow *)

Record Step := mkStep {
  step_Name : string;
  step_DependsOn : list string;
  step_Runtime : string;
  step_Image : string;
  step_Memory : string;
  step_Command : list string;
  step_Compensation : list string;
}.

#[export] Instance Step_eq_dec : EqDecision Step.
Proof. solve_decision. Defined.

Record DAG := mkDAG {
  dag_Name : string;
  dag_Steps : list Step;
}.

(** ** Audit *)

Record AuditRecord := mkAuditRecord {
  rec_Timestamp : Time;
  rec_IntentID : string;
  rec_SubjectID : string;
  rec_Action : string;
  rec_Decision : DecisionAction;
  rec_PolicyID : string;
  rec_IsAI : bool;
  rec_Via : string;
  rec_RunID : string;
  rec_ParentID : string;
  rec_StepID : string;
  rec_PrevHash : string;
  rec_Hash : string;
}.

#[export] Instance AuditRecord_eq_dec : EqDecision AuditRecord.
Proof. solve_decision. Defined.

(** ** What the error shapes preserve *)

(** Whatever wraps it, a decision the door returned is found again, whole. *)
Lemma DecisionFrom_decision e d :
  errors_as as_DecisionError e = Some d → DecisionFrom (Some e) = (d, true).
Proof. simpl. by intros ->. Qed.

Lemma AwaitingApproval_Refused r :
  AwaitingApproval (Some (ErrorRefused r)) = Refused_Pending r.
Proof. done. Qed.

Lemma AwaitingApproval_Decision d :
  AwaitingApproval (Some (ErrorDecision d)) = (dec_Action d =s? ActionRequireApproval).
Proof. done. Qed.

(** [%w] around one cause finds what the cause holds, for targets the wrapper is not. *)
Lemma errors_as_wrap {A} (target : go_error → option A) msg e :
  target (ErrorWrap msg [e]) = None →
  errors_as target (ErrorWrap msg [e]) = errors_as target e.
Proof. simpl. intros ->. by destruct (errors_as target e). Qed.

#[export] Hint Rewrite AwaitingApproval_Refused AwaitingApproval_Decision : mk.
