(* ===== verification/Cascade.v ===== *)
(** The role ladder and the layered policy cascade:
    [internal/policy/ladder.go], [resolve.go], [scope.go], [dynamic.go] and
    [validate.go] of [mantlekeep-control].

    A layer binds actions to the least role that may run them and seals some of those
    bindings; [Resolve] folds layers from the least to the most specific.  A
    [ScopeResolver] caches one cascade per scope, a [LiveResolver] holds the cascade in
    force and a [Watcher] replaces it when the layers change.  An [ActionAuthorizer] is
    the function its one method is. *)
From S2P Require Import Prelude Contracts.

(** ** ladder.go *)

Notation RoleLadder := (gmap string Z) (only parsing).

Definition DefaultRoleLadder : RoleLadder :=
  list_to_map [("L0-SuperAdmin", 0); ("L1-Architect", 1); ("L2-Operator", 2);
               ("L3-Consumer", 3); ("AI-Agent", 4)]%Z.

Definition holdsAtLeast (l : RoleLadder) (roles : list string) (need : Role) : bool :=
  match l !! need with
  | None => false
  | Some nr =>
      existsb (λ r, match l !! r with Some rk => (rk <=? nr)%Z | None => false end) roles
  end.

Definition atLeastAsSenior (l : RoleLadder) (a b : Role) : bool :=
  match l !! a, l !! b with
  | Some ra, Some rb => (ra <=? rb)%Z
  | _, _ => false
  end.

(** ** resolve.go *)

Record Layer := mkLayer {
  lay_Name : string;
  lay_ActionRoles : gmap string Role;
  lay_Sealed : list string;
  lay_Roles : gmap string Z;
}.

Fixpoint LadderFrom (layers : list Layer) : RoleLadder :=
  match layers with
  | [] => DefaultRoleLadder
  | l :: layers => if bool_decide (lay_Roles l = ∅) then LadderFrom layers else lay_Roles l
  end.

(** [RequiredRole(action) (Role, bool)] *)
Notation ActionAuthorizer := (string → option Role) (only parsing).

Record Resolved := mkResolved {
  res_actionRoles : gmap string Role;
  res_sealed : gset string;
  res_fallback : option ActionAuthorizer;
  res_ladder : RoleLadder;
}.

Definition apply_override (ladder : RoleLadder) (sealed : gset string)
    (m : gmap string Role) (key : string) (need : Role) (sealKey : string) : gmap string Role :=
  if in_set sealed sealKey then
    match m !! key with
    | Some cur => if atLeastAsSenior ladder need cur then <[key := need]> m else m
    | None => <[key := need]> m
    end
  else <[key := need]> m.

Definition seal_key (action : string) : string := "action:" +:+ action.

Definition resolve_layer (r : Resolved) (l : Layer) : Resolved :=
  mkResolved
    (map_fold (λ action need m,
       apply_override (res_ladder r) (res_sealed r) m action need (seal_key action))
       (res_actionRoles r) (lay_ActionRoles l))
    (res_sealed r ∪ list_to_set (lay_Sealed l))
    (res_fallback r) (res_ladder r).

Definition ladder_or_default (ladder : RoleLadder) : RoleLadder :=
  if bool_decide (ladder = ∅) then DefaultRoleLadder else ladder.

Definition Resolve (ladder : RoleLadder) (layers : list Layer) : Resolved :=
  foldl resolve_layer (mkResolved ∅ ∅ None (ladder_or_default ladder)) layers.

Definition Resolved_WithFallback (r : Resolved) (a : ActionAuthorizer) : Resolved :=
  mkResolved (res_actionRoles r) (res_sealed r) (Some a) (res_ladder r).

Definition RequiredRole (r : Resolved) (action : string) : option Role :=
  match res_actionRoles r !! action with
  | Some need => Some need
  | None => match res_fallback r with Some f => f action | None => None end
  end.

Definition DefaultLayer : Layer := mkLayer "mantlekeep" ∅ [] ∅.

Definition ScopeLayer (scope : string) (actionRoles : gmap string Role)
    (sealed : list string) : Layer :=
  mkLayer ("scope:" +:+ scope) actionRoles sealed ∅.

(** ** validate.go *)

Inductive layer_error :=
| UndefinedRole (layer action role : string)
| MalformedSeal (layer sealed : string).

Definition validateSealRef (layerName sealed : string) : result layer_error unit :=
  match CutPrefix sealed "action:" with
  | None => Err (MalformedSeal layerName sealed)
  | Some name => if TrimSpace name =s? "" then Err (MalformedSeal layerName sealed) else Ok tt
  end.

Definition validate_layer (ladder : RoleLadder) (layer : Layer) : result layer_error unit :=
  _ <-? first_err (λ '(action, required),
           match ladder !! required with
           | Some _ => Ok tt
           | None => Err (UndefinedRole (lay_Name layer) action required)
           end) (map_to_list (lay_ActionRoles layer)) ;
  first_err (validateSealRef (lay_Name layer)) (lay_Sealed layer).

Definition ValidateLayers (ladder : RoleLadder) (layers : list Layer) : result layer_error unit :=
  first_err (validate_layer (ladder_or_default ladder)) layers.

(** ** scope.go *)

Record ScopeResolver := mkScopeResolver {
  sr_base : list Layer;
  sr_scopes : gmap string Layer;
  sr_cache : gmap string Resolved;
  sr_fallback : option ActionAuthorizer;
  sr_ladder : RoleLadder;
}.

Definition NewScopeResolver (ladder : RoleLadder) (base : list Layer) : ScopeResolver :=
  mkScopeResolver base ∅ ∅ None ladder.

Definition ScopeResolver_WithFallback (p : ScopeResolver) (a : ActionAuthorizer) : ScopeResolver :=
  mkScopeResolver (sr_base p) (sr_scopes p) ∅ (Some a) (sr_ladder p).

Definition Has (p : ScopeResolver) (key : string) : bool :=
  if sr_scopes p !! key then true else false.

Definition SetScope (p : ScopeResolver) (key : string) (l : Layer) : ScopeResolver :=
  mkScopeResolver (sr_base p) (<[key := l]> (sr_scopes p)) (delete key (sr_cache p))
    (sr_fallback p) (sr_ladder p).

(** What a cache miss builds. *)
Definition resolve_scope (p : ScopeResolver) (scope : string) : Resolved :=
  let layers := sr_base p ++ match sr_scopes p !! scope with Some l => [l] | None => [] end in
  let res := Resolve (sr_ladder p) layers in
  match sr_fallback p with
  | Some f => Resolved_WithFallback res f
  | None => res
  end.

(** [For] returns the cascade and leaves it in the cache. *)
Definition For (p : ScopeResolver) (scope : string) : Resolved * ScopeResolver :=
  match sr_cache p !! scope with
  | Some r => (r, p)
  | None =>
      let res := resolve_scope p scope in
      (res, mkScopeResolver (sr_base p) (sr_scopes p) (<[scope := res]> (sr_cache p))
              (sr_fallback p) (sr_ladder p))
  end.

(** ** dynamic.go *)

Section dynamic.
  (** [hashLayers] is the SHA-256 of the JSON of the layers: the standard library's. *)
Context (hashLayers : list Layer → string).

  (** The live snapshot ([LiveResolver.cur]) and the watcher that swaps it. *)
Record Watcher := mkWatcher {
    w_cur : Resolved;
    w_fallback : option ActionAuthorizer;
    w_ladder : RoleLadder;
    w_lastHash : string;
  }.

Definition NewWatcher (live : Resolved) (fallback : option ActionAuthorizer)
      (ladder : RoleLadder) (initial : list Layer) : Watcher :=
    mkWatcher live fallback ladder (hashLayers initial).

Definition rebuild (w : Watcher) (layers : list Layer) : Resolved :=
    let res := Resolve (w_ladder w) layers in
    match w_fallback w with
    | Some f => Resolved_WithFallback res f
    | None => res
    end.

  (** One poll: what [src.Load] returned decides. The result is whether it swapped. *)
Definition Watcher_Reload (w : Watcher) (loaded : result go_error (list Layer)) :
      result go_error bool * Watcher :=
    match loaded with
    | Err e => (Err e, w)
    | Ok layers =>
        let h := hashLayers layers in
        if h =s? w_lastHash w then (Ok false, w)
        else (Ok true, mkWatcher (rebuild w layers) (w_fallback w) (w_ladder w) h)
    end.

Definition LiveResolver_RequiredRole (w : Watcher) (action : string) : option Role :=
    RequiredRole (w_cur w) action.
End dynamic.

(** * The ladder *)

Lemma atLeastAsSenior_spec l a b :
  atLeastAsSenior l a b = true ↔
  ∃ ra rb, l !! a = Some ra ∧ l !! b = Some rb ∧ (ra ≤ rb)%Z.
Proof.
  unfold atLeastAsSenior. split.
  - intros H. case_code. eauto 10 using Zle_bool_imp_le.
  - intros (ra & rb & -> & -> & Hle). by apply Z.leb_le.
Qed.

Lemma atLeastAsSenior_trans l a b c :
  atLeastAsSenior l a b = true → atLeastAsSenior l b c = true → atLeastAsSenior l a c = true.
Proof.
  rewrite !atLeastAsSenior_spec.
  intros (ra & rb & ? & ? & ?) (rb' & rc & ? & ? & ?). simplify_eq. eauto 10 using Z.le_trans.
Qed.

Lemma holdsAtLeast_spec l roles need :
  holdsAtLeast l roles need = true ↔
  ∃ nr r rk, l !! need = Some nr ∧ r ∈ roles ∧ l !! r = Some rk ∧ (rk ≤ nr)%Z.
Proof.
  unfold holdsAtLeast. split.
  - intros H. destruct (l !! need) as [nr|] eqn:E; [|done].
    apply existsb_true in H as (r & Hr & H). case_code. eauto 10 using Zle_bool_imp_le.
  - intros (nr & r & rk & -> & Hr & Hrk & Hle). apply existsb_true. exists r.
    rewrite Hrk. split; [done|]. by apply Z.leb_le.
Qed.

(** A stricter requirement admits nobody a looser one would not. *)
Lemma holdsAtLeast_weaken l roles need cur :
  atLeastAsSenior l need cur = true →
  holdsAtLeast l roles need = true → holdsAtLeast l roles cur = true.
Proof.
  rewrite atLeastAsSenior_spec, !holdsAtLeast_spec.
  intros (ra & rb & Ha & Hb & Hle) (nr & r & rk & Hn & Hr & Hrk & Hle').
  simplify_eq. exists rb, r, rk. repeat split; try done. lia.
Qed.

(** * The cascade *)

Section cascade.
  Implicit Types (r : Resolved) (l : Layer).

  (** What one layer leaves at an action: the map order does not show, because each
      action of a layer is applied once. *)
Lemma resolve_layer_lookup r l a :
    res_actionRoles (resolve_layer r l) !! a =
    match lay_ActionRoles l !! a with
    | None => res_actionRoles r !! a
    | Some need =>
        apply_override (res_ladder r) (res_sealed r) (res_actionRoles r) a need (seal_key a) !! a
    end.
Proof.
    simpl. apply (map_fold_weak_ind (λ m' m, m' !! a = match m !! a with
      | None => res_actionRoles r !! a
      | Some need => apply_override (res_ladder r) (res_sealed r)
                       (res_actionRoles r) a need (seal_key a) !! a
      end)); [by rewrite lookup_empty|].
    intros i x m acc Hi IH. destruct (decide (i = a)) as [->|Hne].
    - rewrite lookup_insert_eq. rewrite Hi in IH. unfold apply_override. rewrite IH.
      repeat case_match; rewrite ?lookup_insert_eq; congruence.
    - rewrite lookup_insert_ne by done. rewrite <- IH. unfold apply_override.
      repeat case_match; by rewrite ?lookup_insert_ne.
Qed.

Lemma Resolve_app ladder ls1 ls2 :
    Resolve ladder (ls1 ++ ls2) = foldl resolve_layer (Resolve ladder ls1) ls2.
Proof. unfold Resolve. by rewrite foldl_app. Qed.

Lemma foldl_ladder r ls : res_ladder (foldl resolve_layer r ls) = res_ladder r.
Proof. revert r. induction ls as [|l ls IH]; intros r; simpl; [done|]. by rewrite IH. Qed.

Lemma Resolve_ladder ladder ls : res_ladder (Resolve ladder ls) = ladder_or_default ladder.
Proof. apply foldl_ladder. Qed.

Lemma foldl_fallback r ls : res_fallback (foldl resolve_layer r ls) = res_fallback r.
Proof. revert r. induction ls as [|l ls IH]; intros r; simpl; [done|]. by rewrite IH. Qed.

  (** One layer under a seal: the binding stays, or becomes a stricter one. *)
Lemma resolve_layer_sealed r l a cur :
    seal_key a ∈ res_sealed r → res_actionRoles r !! a = Some cur →
    seal_key a ∈ res_sealed (resolve_layer r l) ∧
    ∃ need, res_actionRoles (resolve_layer r l) !! a = Some need ∧
      (need = cur ∨ atLeastAsSenior (res_ladder r) need cur = true).
Proof.
    intros Hs Hc. split; [simpl; set_solver|].
    rewrite resolve_layer_lookup. destruct (lay_ActionRoles l !! a) as [need|]; [|by eauto].
    unfold apply_override. rewrite (proj2 (in_set_true _ _) Hs), Hc.
    destruct (atLeastAsSenior (res_ladder r) need cur) eqn:E; [|by eauto].
    exists need. rewrite lookup_insert_eq. auto.
Qed.

Lemma foldl_sealed r ls a cur :
    seal_key a ∈ res_sealed r → res_actionRoles r !! a = Some cur →
    seal_key a ∈ res_sealed (foldl resolve_layer r ls) ∧
    ∃ need, res_actionRoles (foldl resolve_layer r ls) !! a = Some need ∧
      (need = cur ∨ atLeastAsSenior (res_ladder r) need cur = true).
Proof.
    revert r cur. induction ls as [|l ls IH]; intros r cur Hs Hc; simpl; [by eauto|].
    destruct (resolve_layer_sealed r l a cur Hs Hc) as (Hs' & need & Hn & Hor).
    destruct (IH _ _ Hs' Hn) as (Hs'' & need' & Hn' & Hor'). split; [done|].
    exists need'. split; [done|]. simpl in Hor'.
    destruct Hor' as [->|Hor']; [done|]. destruct Hor as [->|Hor]; [by right|].
    right. by eapply atLeastAsSenior_trans.
Qed.

Lemma RequiredRole_Resolve ladder ls a :
    RequiredRole (Resolve ladder ls) a = res_actionRoles (Resolve ladder ls) !! a.
Proof.
    unfold RequiredRole, Resolve. rewrite foldl_fallback. simpl. by case_match.
Qed.

Lemma Resolve_sealed ladder ls k :
    k ∈ res_sealed (Resolve ladder ls) ↔ ∃ l, l ∈ ls ∧ k ∈ lay_Sealed l.
Proof.
    induction ls as [|l ls IH] using rev_ind; [set_solver|].
    rewrite Resolve_app. simpl. set_solver.
Qed.

Lemma sealed_floor_step ladder upper lower a cur :
    seal_key a ∈ res_sealed (Resolve ladder upper) →
    RequiredRole (Resolve ladder upper) a = Some cur →
    ∃ need, RequiredRole (Resolve ladder (upper ++ lower)) a = Some need ∧
      ∀ roles, holdsAtLeast (ladder_or_default ladder) roles need = true →
               holdsAtLeast (ladder_or_default ladder) roles cur = true.
Proof.
    setoid_rewrite RequiredRole_Resolve. intros Hseal Hcur. rewrite Resolve_app.
    destruct (foldl_sealed (Resolve ladder upper) lower a cur Hseal Hcur)
      as (_ & need & Hn & Hor).
    exists need. split; [done|]. rewrite Resolve_ladder in Hor.
    intros roles. destruct Hor as [->|Hor]; [done|]. by apply holdsAtLeast_weaken.
Qed.

  (** C13: the sealed cascade.  Once the layers [upper] have bound an action and sealed
      it, no list of lower layers can lift the seal, unbind the action, or bind it to a
      role that would admit a subject the sealed role refuses. *)
Theorem sealed_floor_only_tightens ladder upper lower a cur
      (Hseal : seal_key a ∈ res_sealed (Resolve ladder upper))
      (Hcur : RequiredRole (Resolve ladder upper) a = Some cur) :
    seal_key a ∈ res_sealed (Resolve ladder (upper ++ lower)) ∧
    ∃ need, RequiredRole (Resolve ladder (upper ++ lower)) a = Some need ∧
      ∀ roles, holdsAtLeast (ladder_or_default ladder) roles need = true →
               holdsAtLeast (ladder_or_default ladder) roles cur = true.
Proof.
    split; [|by apply sealed_floor_step].
    rewrite Resolve_sealed in *. destruct Hseal as (l & Hl & Hk).
    exists l. rewrite elem_of_app. auto.
Qed.

  (** Precedence of layers.  For an action no layer above has sealed, the binding of
      the most specific layer that names the action wins, and a layer that does not name
      it leaves the binding as it was. *)
Theorem most_specific_layer_wins ladder upper l a
      (Hfree : seal_key a ∉ res_sealed (Resolve ladder upper)) :
    RequiredRole (Resolve ladder (upper ++ [l])) a =
    match lay_ActionRoles l !! a with
    | Some need => Some need
    | None => RequiredRole (Resolve ladder upper) a
    end.
Proof.
    rewrite !RequiredRole_Resolve, Resolve_app. simpl foldl. rewrite resolve_layer_lookup.
    case_match; [|done]. unfold apply_override.
    rewrite (proj2 (in_set_false _ _) Hfree). apply lookup_insert_eq.
Qed.

  (** A seal on an action that no layer above has bound holds nothing: the first
      lower layer to name the action binds it to any role at all. *)
Theorem unbound_seal_is_free ladder upper l a need
      (Hunbound : RequiredRole (Resolve ladder upper) a = None)
      (Hlower : lay_ActionRoles l !! a = Some need) :
    RequiredRole (Resolve ladder (upper ++ [l])) a = Some need.
Proof.
    rewrite RequiredRole_Resolve in Hunbound.
    rewrite RequiredRole_Resolve, Resolve_app. simpl foldl.
    rewrite resolve_layer_lookup, Hlower. unfold apply_override. rewrite Hunbound.
    case_match; apply lookup_insert_eq.
Qed.
End cascade.

(** * Validation *)

Lemma validate_layer_Ok ladder l :
  validate_layer ladder l = Ok tt →
  ∀ a need, lay_ActionRoles l !! a = Some need → is_Some (ladder !! need).
Proof.
  unfold validate_layer. intros H a need Ha. apply rbind_Ok in H as ([] & H & _).
  rewrite first_err_Ok, Forall_forall in H.
  specialize (H (a, need)). simpl in H. rewrite elem_of_map_to_list in H.
  specialize (H Ha). by destruct (ladder !! need).
Qed.

(** A deployment whose layers pass [ValidateLayers] has a cascade that refuses nobody
    by accident: every role it requires is one the ladder ranks, so a subject that holds
    the required role itself is admitted. *)
Theorem validated_cascade_is_ranked ladder layers a need
    (Hvalid : ValidateLayers ladder layers = Ok tt)
    (Hneed : RequiredRole (Resolve ladder layers) a = Some need) :
  is_Some (ladder_or_default ladder !! need) ∧
  holdsAtLeast (ladder_or_default ladder) [need] need = true.
Proof.
  assert (is_Some (ladder_or_default ladder !! need)) as Hrank.
  { rewrite RequiredRole_Resolve in Hneed. revert need Hneed.
    unfold ValidateLayers in Hvalid. rewrite first_err_Ok in Hvalid.
    induction layers as [|l ls IH] using rev_ind; [done|].
    apply Forall_app in Hvalid as [Hls Hl]. rewrite Forall_singleton in Hl.
    intros need. rewrite Resolve_app. simpl foldl. rewrite resolve_layer_lookup.
    destruct (lay_ActionRoles l !! a) as [x|] eqn:Ha; [|by apply IH].
    pose proof (validate_layer_Ok _ _ Hl a x Ha) as Hx.
    unfold apply_override. intros H. repeat case_match; simplify_map_eq; eauto. }
  split; [done|]. destruct Hrank as [rk Hrk]. apply holdsAtLeast_spec.
  exists rk, need, rk. repeat split; try done. by left.
Qed.

(** * Scopes: the cache is coherent *)

Section scopes.
  Implicit Types (p : ScopeResolver).

  (** Every cached cascade is what a miss would build now. *)
Definition coherent p : Prop :=
    ∀ k r, sr_cache p !! k = Some r → r = resolve_scope p k.

Inductive scope_op :=
  | OpWithFallback (a : ActionAuthorizer)
  | OpSetScope (key : string) (l : Layer)
  | OpFor (scope : string).

Definition run_scope_op p (op : scope_op) : ScopeResolver :=
    match op with
    | OpWithFallback a => ScopeResolver_WithFallback p a
    | OpSetScope key l => SetScope p key l
    | OpFor scope => (For p scope).2
    end.

Lemma resolve_scope_cache p cache k :
    resolve_scope (mkScopeResolver (sr_base p) (sr_scopes p) cache (sr_fallback p) (sr_ladder p)) k
    = resolve_scope p k.
Proof. done. Qed.

Lemma coherent_op p op : coherent p → coherent (run_scope_op p op).
Proof.
    intros Hp. destruct op as [a|key l|scope]; intros k r; simpl.
    - by rewrite lookup_empty.
    - rewrite lookup_delete_Some. intros [Hne Hk]. rewrite (Hp _ _ Hk).
      unfold resolve_scope. simpl. by rewrite lookup_insert_ne.
    - unfold For. destruct (sr_cache p !! scope) as [r'|] eqn:E; simpl; [by apply Hp|].
      rewrite lookup_insert_Some, resolve_scope_cache.
      intros [[<- <-]|[_ Hk]]; [done|by apply Hp].
Qed.

Lemma coherent_run p ops : coherent p → coherent (foldl run_scope_op p ops).
Proof.
    revert p. induction ops as [|op ops IH]; intros p Hp; simpl; [done|].
    by apply IH, coherent_op.
Qed.

Lemma coherent_For p scope : coherent p → (For p scope).1 = resolve_scope p scope.
Proof.
    intros Hp. unfold For. destruct (sr_cache p !! scope) as [r|] eqn:E; [|done].
    by apply Hp.
Qed.

  (** Per-scope resolution never serves a stale cascade: after any sequence of
      changes and lookups, [For] answers the cascade of the base layers and the scope's
      current layer, and leaves the answer of every scope as it was. *)
Theorem scope_lookup_is_current ladder base ops scope other :
    let p := foldl run_scope_op (NewScopeResolver ladder base) ops in
    (For p scope).1 = resolve_scope p scope ∧
    (For (For p scope).2 other).1 = resolve_scope p other.
Proof.
    intros p. assert (coherent p) as Hp.
    { apply coherent_run. intros k r. simpl. by rewrite lookup_empty. }
    split; [by apply coherent_For|].
    etrans; [apply (coherent_For (run_scope_op p (OpFor scope)) other), coherent_op, Hp|].
    simpl. unfold For. by destruct (sr_cache p !! scope).
Qed.

  (** A scope's own layer stands under the base's seals. *)
Lemma scope_cascade_tightens p scope a cur :
    sr_fallback p = None →
    seal_key a ∈ res_sealed (Resolve (sr_ladder p) (sr_base p)) →
    RequiredRole (Resolve (sr_ladder p) (sr_base p)) a = Some cur →
    ∃ need, RequiredRole (resolve_scope p scope) a = Some need ∧
      ∀ roles, holdsAtLeast (ladder_or_default (sr_ladder p)) roles need = true →
               holdsAtLeast (ladder_or_default (sr_ladder p)) roles cur = true.
Proof.
    intros Hf Hs Hc. unfold resolve_scope. rewrite Hf. by apply sealed_floor_step.
Qed.
End scopes.

(** * Live reload *)

Section live.
Context (hashLayers : list Layer → string).
  Implicit Types (w : Watcher).

  (** A run of polls, oldest first: what each [src.Load] returned. *)
Definition polls (w : Watcher) (loads : list (result go_error (list Layer))) : Watcher :=
    foldl (λ w loaded, (Watcher_Reload hashLayers w loaded).2) w loads.

  (** The layers the source last managed to deliver. *)
Definition last_loaded (initial : list Layer) (loads : list (result go_error (list Layer))) :
      list Layer :=
    foldl (λ cur loaded, match loaded with Ok ls => ls | Err _ => cur end) initial loads.

Lemma Watcher_Reload_error w e : Watcher_Reload hashLayers w (Err e) = (Err e, w).
Proof. done. Qed.

Lemma Watcher_Reload_config w loaded :
    w_fallback (Watcher_Reload hashLayers w loaded).2 = w_fallback w ∧
    w_ladder (Watcher_Reload hashLayers w loaded).2 = w_ladder w.
Proof. unfold Watcher_Reload. by repeat case_match. Qed.

Definition seen (initial : list Layer) (loads : list (result go_error (list Layer))) :
      list (list Layer) :=
    initial :: omap (λ loaded, match loaded with Ok ls => Some ls | Err _ => None end) loads.

  (** Hot reload tracks the source and fails static.  As long as no two of the layer
      sets seen share a content hash, the snapshot in force after any polls, failed ones
      included, is the cascade of the layers last delivered, under the watcher's own
      ladder and fallback. *)
Theorem watcher_tracks_source fallback ladder initial loads
      (Hhash : ∀ l1 l2, l1 ∈ seen initial loads → l2 ∈ seen initial loads →
                 hashLayers l1 = hashLayers l2 → l1 = l2) :
    let w0 := mkWatcher (Resolve ladder []) fallback ladder (hashLayers initial) in
    let w := polls (NewWatcher hashLayers (rebuild w0 initial) fallback ladder initial) loads in
    w_cur w = rebuild w0 (last_loaded initial loads).
Proof.
    intros w0. simpl.
    enough (∀ loads', loads' `prefix_of` loads →
      let w := polls (NewWatcher hashLayers (rebuild w0 initial) fallback ladder initial) loads' in
      let cur := last_loaded initial loads' in
      w_cur w = rebuild w0 cur ∧ w_lastHash w = hashLayers cur ∧ cur ∈ seen initial loads ∧
      w_fallback w = fallback ∧ w_ladder w = ladder) as H.
    { apply (H loads). done. }
    intros loads'. induction loads' as [|ld loads' IH] using rev_ind; intros Hpre; simpl.
    { repeat split; try done. by left. }
    assert (loads' `prefix_of` loads) as Hpre'.
    { etrans; [|exact Hpre]. by apply prefix_app_r. }
    specialize (IH Hpre'). simpl in IH.
    unfold polls, last_loaded in *. rewrite !foldl_app. simpl.
    set (w := foldl _ _ loads') in *. set (cur := foldl _ initial loads') in *.
    destruct IH as (Hcur & Hh & Hin & Hf & Hl).
    destruct ld as [ls|e]; [|done].
    assert (ls ∈ seen initial loads) as Hls.
    { right. destruct Hpre as [k ->]. rewrite list_elem_of_omap. exists (Ok ls).
      split; [|done]. rewrite !elem_of_app. left. right. by left. }
    unfold Watcher_Reload. destruct (hashLayers ls =s? w_lastHash w) eqn:E; simpl.
    - apply eqs_true in E. rewrite Hh in E. apply Hhash in E as ->; done.
    - repeat split; try done. unfold rebuild. by rewrite Hf, Hl.
Qed.
End live.

(** * Witnesses *)

Definition demo_platform : Layer :=
  mkLayer "platform" {["deploy.prod" := RoleArchitect]} ["action:deploy.prod"] ∅.
Definition demo_team : Layer :=
  mkLayer "team:payments" {["deploy.prod" := RoleConsumer; "job.run" := RoleOperator]} [] ∅.

Lemma sealed_floor_only_tightens_witness :
  RequiredRole (Resolve ∅ ([demo_platform] ++ [demo_team])) "deploy.prod" = Some RoleArchitect ∧
  seal_key "deploy.prod" ∈ res_sealed (Resolve ∅ ([demo_platform] ++ [demo_team])).
Proof.
  split; [by vm_compute|].
  apply (sealed_floor_only_tightens ∅ [demo_platform] [demo_team] "deploy.prod" RoleArchitect);
    [|by vm_compute].
  apply (bool_decide_unpack _). by vm_compute.
Defined.

Lemma most_specific_layer_wins_witness :
  RequiredRole (Resolve ∅ ([demo_platform] ++ [demo_team])) "job.run" = Some RoleOperator.
Proof.
  rewrite (most_specific_layer_wins ∅ [demo_platform] demo_team "job.run"); [by vm_compute|].
  apply (bool_decide_unpack _). by vm_compute.
Defined.

Definition demo_seal_only : Layer := mkLayer "platform" ∅ ["action:cluster.destroy"] ∅.
Definition demo_loose : Layer :=
  mkLayer "team:payments" {["cluster.destroy" := RoleConsumer]} [] ∅.

Lemma unbound_seal_is_free_witness :
  RequiredRole (Resolve ∅ ([demo_seal_only] ++ [demo_loose])) "cluster.destroy"
    = Some RoleConsumer.
Proof.
  apply (unbound_seal_is_free ∅ [demo_seal_only] demo_loose "cluster.destroy" RoleConsumer);
    by vm_compute.
Defined.

Lemma validated_cascade_is_ranked_witness :
  is_Some (ladder_or_default ∅ !! RoleArchitect).
Proof.
  apply (validated_cascade_is_ranked ∅ [demo_platform; demo_team] "deploy.prod" RoleArchitect);
    by vm_compute.
Defined.

(** A content hash that tells the demo layer sets apart: their names. *)
Definition demo_hash (ls : list Layer) : string := Join (map lay_Name ls) ",".

Definition demo_loads : list (result go_error (list Layer)) :=
  [Err (ErrorText "unreachable"); Ok [demo_platform; demo_team]; Err (ErrorText "down")].

Lemma watcher_tracks_source_witness :
  let w := polls demo_hash
    (NewWatcher demo_hash (Resolve ∅ [demo_platform]) None ∅ [demo_platform]) demo_loads in
  LiveResolver_RequiredRole w "job.run" = Some RoleOperator.
Proof.
  intros w. unfold LiveResolver_RequiredRole.
  assert (w_cur w = Resolve ∅ [demo_platform; demo_team]) as ->; [|by vm_compute].
  apply (watcher_tracks_source demo_hash None ∅ [demo_platform] demo_loads).
  intros l1 l2 H1 H2. unfold seen in *. simpl in *.
  assert (∀ l, l ∈ [[demo_platform]; [demo_platform; demo_team]] →
            l = [demo_platform] ∨ l = [demo_platform; demo_team]) as Hcases by set_solver.
  destruct (Hcases l1 H1) as [-> | ->], (Hcases l2 H2) as [-> | ->]; try done;
    intros Hh; by vm_compute in Hh.
Defined.
