(* ===== verification/Grants.v ===== *)
(** The policy documents: [mantlekeep-control/grants].

    [Load] folds a platform document and the product documents over the baseline; the
    platform's verbs are sealed against the products. [LoadFloors] appends their floors
    to the baseline's. [Govern] is the only way a permission changes, and [ChangesFrom]
    the difference of two documents as such changes. Reading a file and decoding its
    JSON are arguments: what is modelled starts at the decoded documents. *)
From S2P Require Import Prelude Contracts.

(** ** The documents (grants.go, floors.go, merge.go) *)

Record Grants := mkGrants {
  RoleActions : gmap string (list string);
  ApprovalActions : list string;
}.

Record FloorRule := mkFloorRule {
  fr_Kind : string;
  fr_Param : string;
  fr_Values : list string;
  fr_Caps : gmap string string;
  fr_WhenParam : string;
  fr_WhenIn : list string;
  fr_WhenValue : string;
  fr_Pattern : string;
  fr_Role : string;
  fr_Message : string;
}.

(** The one field of the [Floors] struct. *)
Notation Floors := (gmap string (list FloorRule)) (only parsing).

Record productDoc := mkProductDoc {
  doc_RoleActions : gmap string (list string);
  doc_ApprovalActions : list string;
  doc_Floors : Floors;
  doc_SealedActions : list string;
  doc_Source : string;
}.

(** ** merge.go *)

(** The loop of [unionStrings]: [seen] and [out] after each element. *)
Definition union_step (acc : gset string * list string) (s : string) : gset string * list string :=
  let '(seen, out) := acc in
  if in_set seen s then (seen, out) else ({[s]} ∪ seen, out ++ [s]).

Definition unionStrings (a b : list string) : list string :=
  (foldl union_step (foldl union_step (∅, []) a) b).2.

(** ** Load *)

Inductive load_error :=
| PolicyGrants (e : go_error)
| PolicyFloors (e : go_error)
| SealedGrant (source action role : string).

Definition refuseSealedActions (source role : string) (acts : list string)
    (sealed : gset string) : result load_error unit :=
  first_err (λ a, refuse in_set sealed a with SealedGrant source a role ; Ok tt) acts.

Definition grant_role (ra : gmap string (list string)) (role : string) (acts : list string) :
    gmap string (list string) :=
  <[role := unionStrings (get_list ra role) acts]> ra.

Definition applyPlatformLayer (plat : option productDoc) (g : Grants) : Grants * gset string :=
  match plat with
  | None => (g, ∅)
  | Some plat =>
      let '(ra, sealed) :=
        map_fold (λ role acts '(ra, sealed),
          (grant_role ra role acts, list_to_set acts ∪ sealed))
          (RoleActions g, ∅) (doc_RoleActions plat) in
      (mkGrants ra (unionStrings (ApprovalActions g) (doc_ApprovalActions plat)),
       list_to_set (doc_SealedActions plat) ∪ sealed)
  end.

(** One product document: its roles are visited in the order [visit] gives. *)
Fixpoint apply_roles (source : string) (sealed : gset string)
    (roles : list (string * list string)) (ra : gmap string (list string)) :
    result load_error (gmap string (list string)) :=
  match roles with
  | [] => Ok ra
  | (role, acts) :: roles =>
      _ <-? refuseSealedActions source role acts sealed ;
      apply_roles source sealed roles (grant_role ra role acts)
  end.

Fixpoint applyProductLayers (docs : list productDoc) (sealed : gset string) (g : Grants) :
    result load_error Grants :=
  match docs with
  | [] => Ok g
  | d :: docs =>
      ra <-? apply_roles (doc_Source d) sealed (map_to_list (doc_RoleActions d)) (RoleActions g) ;
      applyProductLayers docs sealed
        (mkGrants ra (unionStrings (ApprovalActions g) (doc_ApprovalActions d)))
  end.

(** [baseline], [plat] and [docs] are what [baselineGrants], [platformDoc] and
    [productDocs] return. *)
Definition Load (baseline : result go_error Grants)
    (plat : result go_error (option productDoc)) (docs : result go_error (list productDoc)) :
    result load_error Grants :=
  match baseline with
  | Err e => Err (PolicyGrants e)
  | Ok g =>
      match plat with
      | Err e => Err (PolicyGrants e)
      | Ok plat =>
          let '(g, sealed) := applyPlatformLayer plat g in
          match docs with
          | Err e => Err (PolicyGrants e)
          | Ok docs => applyProductLayers docs sealed g
          end
      end
  end.

(** ** LoadFloors *)

Definition mergeFloors (f rules : Floors) : Floors :=
  map_fold (λ action l f, <[action := get_list f action ++ l]> f) f rules.

Definition appendLayeredFloors (plat : option productDoc) (docs : list productDoc)
    (f : Floors) : Floors :=
  let f := match plat with Some plat => mergeFloors f (doc_Floors plat) | None => f end in
  foldl (λ f d, mergeFloors f (doc_Floors d)) f docs.

Definition LoadFloors (baseline : result go_error Floors)
    (plat : result go_error (option productDoc)) (docs : result go_error (list productDoc)) :
    result load_error Floors :=
  match baseline, plat, docs with
  | Err e, _, _ | Ok _, Err e, _ | Ok _, Ok _, Err e => Err (PolicyFloors e)
  | Ok f, Ok plat, Ok docs => Ok (appendLayeredFloors plat docs f)
  end.

(** ** Change *)

Record Change := mkChange {
  ch_Role : string;
  ch_Action : string;
  ch_Grant : bool;
  ch_Reason : string;
}.

Definition ActionGrantPolicy : string := "policy.grant".

Inductive change_error :=
| NoRoleNamed
| NoActionNamed
| NoReasonGiven (c : Change)
| NoDoor
| ReadOnlySource
| CannotReadPolicy (e : go_error)
| DoorRefused (e : go_error)
| DecisionExpired
| ApprovedNotApplied (e : go_error).

Definition verb (c : Change) : string := if ch_Grant c then "granting" else "revoking".

Definition Describe (c : Change) : string :=
  verb c +:+ " " +:+ Quote (ch_Action c) +:+ " " +:+ (if ch_Grant c then "to" else "from")
    +:+ " " +:+ Quote (ch_Role c) +:+ ": " +:+ ch_Reason c.

Definition Validate (c : Change) : result change_error unit :=
  refuse TrimSpace (ch_Role c) =s? "" with NoRoleNamed ;
  refuse TrimSpace (ch_Action c) =s? "" with NoActionNamed ;
  refuse TrimSpace (ch_Reason c) =s? "" with NoReasonGiven c ;
  Ok tt.

Definition grant_intent (actor : Subject) (change : Change) (before : string) : Intent :=
  {| int_ID := ""; int_Subject := actor; int_Action := ActionGrantPolicy; int_Resource := "";
     int_Spec := mkIntentSpec (Describe change) [] "" [] [] "";
     int_Params := list_to_map
       [("role", VString (ch_Role change)); ("target", VString (ch_Action change));
        ("grant", VBool (ch_Grant change)); ("reason", VString (ch_Reason change));
        ("revision", VString before)];
     int_SubmittedAt := 0%Z; int_TTL := 0%Z; int_Via := "" |}.

Section govern.
(** The world the door, the source and the writer act on. *)
Context {W : Type}.
Context (source_Load : W → result go_error (Grants * Floors * string)).
Context (nowFunc : W → Time).

(** A nil door or writer is [None]. *)
Definition Govern (door : option (Intent → W → result go_error ExecutionToken * W))
    (writer : option (Change → W → result go_error string * W))
    (actor : Subject) (change : Change) (w : W) : result change_error string * W :=
  match Validate change with
  | Err e => (Err e, w)
  | Ok _ =>
      match door, writer with
      | None, _ => (Err NoDoor, w)
      | Some _, None => (Err ReadOnlySource, w)
      | Some submit, Some write =>
          match source_Load w with
          | Err e => (Err (CannotReadPolicy e), w)
          | Ok (_, _, before) =>
              match submit (grant_intent actor change before) w with
              | (Err e, w) => (Err (DoorRefused e), w)
              | (Ok token, w) =>
                  if negb (ExecutionToken_Valid token (nowFunc w)) then (Err DecisionExpired, w)
                  else match write change w with
                       | (Err e, w) => (Err (ApprovedNotApplied e), w)
                       | (Ok after, w) => (Ok after, w)
                       end
              end
          end
      end
  end.
End govern.

(** ** ChangesFrom *)

Definition to_set (actions : list string) : gset string := list_to_set actions.

Definition unionRoles (before after : Grants) : list string :=
  sorted_elements (dom (RoleActions before) ∪ dom (RoleActions after)).

Definition role_changes (reason role : string) (had has : gset string) : list Change :=
  map (λ action, mkChange role action true reason)
      (filter (λ action, negb (in_set had action)) (sorted_elements has)) ++
  map (λ action, mkChange role action false reason)
      (filter (λ action, negb (in_set has action)) (sorted_elements had)).

Definition ChangesFrom (before after : Grants) (reason : string) : list Change :=
  flat_map (λ role, role_changes reason role
                      (to_set (get_list (RoleActions before) role))
                      (to_set (get_list (RoleActions after) role)))
           (unionRoles before after).

(** ** Revisions (loader.go) *)

(** What the digest is fed for one document: its length, a colon and its bytes. *)
Definition framed (document : string) : string :=
  pretty (slen document) +:+ String ":" document.

(** [sha256_hex] is the hex encoding of a SHA-256 digest. *)
Definition RevisionOf (sha256_hex : string → string) (documents : list string) : string :=
  take_bytes 16 (sha256_hex (foldr (λ d digest, framed d +:+ digest) "" documents)).

(** ** Lemmas *)

Lemma union_step_spec seen out l :
  NoDup out → (∀ x, x ∈ seen ↔ x ∈ out) →
  let r := foldl union_step (seen, out) l in
  NoDup r.2 ∧ (∀ x, x ∈ r.1 ↔ x ∈ r.2) ∧ (∀ x, x ∈ r.2 ↔ x ∈ out ∨ x ∈ l) ∧
  out `prefix_of` r.2.
Proof.
  revert seen out. induction l as [|s l IH]; intros seen out Hnd Hseen; cbn [foldl].
  { set_solver. }
  destruct (in_set seen s) eqn:E.
  - assert (union_step (seen, out) s = (seen, out)) as -> by (simpl; by rewrite E).
    autorewrite with mk in E.
    specialize (IH seen out Hnd Hseen). simpl in IH. destruct IH as (? & ? & H & ?).
    split_and!; [done..| |done]. set_solver.
  - assert (union_step (seen, out) s = ({[s]} ∪ seen, out ++ [s])) as ->
      by (simpl; by rewrite E).
    autorewrite with mk in E.
    destruct (IH ({[s]} ∪ seen) (out ++ [s])) as (? & ? & H & Hp).
    + apply NoDup_app. set_solver by eauto using NoDup_singleton.
    + set_solver.
    + split_and!; [done..| |].
      * set_solver.
      * etrans; [|exact Hp]. by apply prefix_app_r.
Qed.

Lemma unionStrings_spec a b :
  NoDup (unionStrings a b) ∧ (∀ x, x ∈ unionStrings a b ↔ x ∈ a ∨ x ∈ b).
Proof.
  unfold unionStrings.
  destruct (union_step_spec ∅ [] a) as (H1 & H2 & H3 & _); [constructor|set_solver|].
  destruct (foldl union_step (∅, []) a) as [seen out]. simpl in *.
  destruct (union_step_spec seen out b) as (H4 & H5 & H6 & _); [done..|].
  split; [done|]. set_solver.
Qed.

Lemma elem_of_unionStrings a b x : x ∈ unionStrings a b ↔ x ∈ a ∨ x ∈ b.
Proof. apply unionStrings_spec. Qed.
#[export] Hint Rewrite elem_of_unionStrings : mk.

(** The actions a [role_actions] map gives a role. *)
Definition grants_to (ra : gmap string (list string)) (role action : string) : Prop :=
  action ∈ get_list ra role.

#[export] Instance grants_to_dec ra role action : base.Decision (grants_to ra role action).
Proof. unfold grants_to. apply _. Defined.

Lemma grants_to_grant_role ra role acts r a :
  grants_to (grant_role ra role acts) r a ↔ grants_to ra r a ∨ (r = role ∧ a ∈ acts).
Proof.
  unfold grants_to, grant_role, get_list. destruct (decide (r = role)) as [->|Hne].
  - rewrite lookup_insert_eq. simpl. rewrite elem_of_unionStrings. naive_solver.
  - rewrite lookup_insert_ne by done. naive_solver.
Qed.

Lemma refuseSealedActions_Ok source role acts sealed :
  refuseSealedActions source role acts sealed = Ok tt ↔ ∀ a, a ∈ acts → a ∉ sealed.
Proof.
  unfold refuseSealedActions. rewrite first_err_Ok, Forall_forall.
  split; intros H a Ha; specialize (H a Ha); destruct (in_set sealed a) eqn:E;
    autorewrite with mk in *; done.
Qed.

Lemma grants_to_insert_fold (m : gmap string (list string)) r a :
  grants_to m r a ↔ ∃ acts, m !! r = Some acts ∧ a ∈ acts.
Proof. unfold grants_to, get_list. destruct (m !! r); set_solver. Qed.

(** The verbs a platform document owns. *)
Definition platform_owned (plat : option productDoc) (a : string) : Prop :=
  match plat with
  | None => False
  | Some plat => a ∈ doc_SealedActions plat ∨ ∃ role, grants_to (doc_RoleActions plat) role a
  end.

Definition platform_grants (plat : option productDoc) (role a : string) : Prop :=
  match plat with None => False | Some plat => grants_to (doc_RoleActions plat) role a end.

Lemma platform_fold ra0 (m : gmap string (list string)) :
  let r := map_fold (λ role acts '(ra, sealed),
             (grant_role ra role acts, list_to_set acts ∪ sealed)) (ra0, ∅ : gset string) m in
  (∀ role a, grants_to r.1 role a ↔ grants_to ra0 role a ∨ grants_to m role a) ∧
  (∀ a, a ∈ r.2 ↔ ∃ role, grants_to m role a).
Proof.
  apply (map_fold_weak_ind (λ r m,
    (∀ role a, grants_to r.1 role a ↔ grants_to ra0 role a ∨ grants_to m role a) ∧
    (∀ a, a ∈ r.2 ↔ ∃ role, grants_to m role a))); simpl.
  - unfold grants_to at 3 4, get_list. setoid_rewrite lookup_empty. set_solver.
  - intros role acts m' [ra sealed] Hm [IH1 IH2]. simpl in *.
    assert (∀ r a, grants_to (<[role:=acts]> m') r a ↔
              grants_to m' r a ∨ (r = role ∧ a ∈ acts)) as Hins.
    { intros r a. rewrite !grants_to_insert_fold. destruct (decide (r = role)) as [->|].
      - rewrite lookup_insert_eq, Hm. naive_solver.
      - rewrite lookup_insert_ne by done. naive_solver. }
    split.
    + intros r a. rewrite grants_to_grant_role, IH1, Hins. tauto.
    + intros a. rewrite elem_of_union, IH2, elem_of_list_to_set. setoid_rewrite Hins.
      naive_solver.
Qed.

Lemma applyPlatformLayer_spec plat g :
  (∀ role a, grants_to (RoleActions (applyPlatformLayer plat g).1) role a ↔
             grants_to (RoleActions g) role a ∨ platform_grants plat role a) ∧
  (∀ a, a ∈ (applyPlatformLayer plat g).2 ↔ platform_owned plat a).
Proof.
  destruct plat as [plat|]; simpl; [|set_solver].
  pose proof (platform_fold (RoleActions g) (doc_RoleActions plat)) as [H1 H2].
  destruct (map_fold _ _ (doc_RoleActions plat)) as [ra sealed]. simpl in *.
  split; [done|]. intros a. by rewrite elem_of_union, elem_of_list_to_set, H2.
Qed.

Lemma apply_roles_Ok source sealed roles ra ra' :
  apply_roles source sealed roles ra = Ok ra' →
  (∀ role acts a, (role, acts) ∈ roles → a ∈ acts → a ∉ sealed) ∧
  ∀ r a, grants_to ra' r a ↔ grants_to ra r a ∨ ∃ acts, (r, acts) ∈ roles ∧ a ∈ acts.
Proof.
  revert ra. induction roles as [|[role acts] roles IH]; intros ra; simpl.
  { intros [= <-]. set_solver. }
  rewrite rbind_Ok. intros ([] & Href & H). rewrite refuseSealedActions_Ok in Href.
  apply IH in H as [H1 H2]. split.
  - intros r acts' a [[= -> ->]|Hin]%elem_of_cons Ha; eauto.
  - intros r a. rewrite H2, grants_to_grant_role. setoid_rewrite elem_of_cons. naive_solver.
Qed.

Lemma apply_roles_total source sealed roles ra :
  (∀ role acts a, (role, acts) ∈ roles → a ∈ acts → a ∉ sealed) →
  is_ok (apply_roles source sealed roles ra) = true.
Proof.
  revert ra. induction roles as [|[role acts] roles IH]; intros ra H; simpl; [done|].
  assert (refuseSealedActions source role acts sealed = Ok tt) as ->.
  { apply refuseSealedActions_Ok. intros a Ha. eapply (H role acts); [by left|done]. }
  simpl. apply IH. intros r acts' a Hin. apply (H r acts'). by right.
Qed.

Lemma doc_roles_grants (m : gmap string (list string)) r a :
  (∃ acts, (r, acts) ∈ map_to_list m ∧ a ∈ acts) ↔ grants_to m r a.
Proof. rewrite grants_to_insert_fold. by setoid_rewrite elem_of_map_to_list. Qed.

Lemma applyProductLayers_Ok docs sealed g g' :
  applyProductLayers docs sealed g = Ok g' →
  (∀ d r a, d ∈ docs → grants_to (doc_RoleActions d) r a → a ∉ sealed) ∧
  ∀ r a, grants_to (RoleActions g') r a ↔
    grants_to (RoleActions g) r a ∨ ∃ d, d ∈ docs ∧ grants_to (doc_RoleActions d) r a.
Proof.
  revert g. induction docs as [|d docs IH]; intros g; simpl.
  { intros [= <-]. set_solver. }
  rewrite rbind_Ok. intros (ra & Hra & H). apply apply_roles_Ok in Hra as [H1 H2].
  apply IH in H as [H3 H4]. simpl in *. setoid_rewrite doc_roles_grants in H2. split.
  - intros d' r a [->|Hin]%elem_of_cons Hg; [|eauto].
    apply doc_roles_grants in Hg as (acts & ? & ?). eauto.
  - intros r a. rewrite H4, H2. setoid_rewrite elem_of_cons. naive_solver.
Qed.

Lemma applyProductLayers_total docs sealed g :
  (∀ d r a, d ∈ docs → grants_to (doc_RoleActions d) r a → a ∉ sealed) →
  is_ok (applyProductLayers docs sealed g) = true.
Proof.
  revert g. induction docs as [|d docs IH]; intros g H; simpl; [done|].
  pose proof (apply_roles_total (doc_Source d) sealed (map_to_list (doc_RoleActions d))
                (RoleActions g)) as Hok.
  destruct (apply_roles _ _ _ _) as [ra|e]; simpl in *.
  - apply IH. set_solver.
  - discriminate Hok. intros role acts a Hin Ha. apply (H d role); [by left|].
    apply doc_roles_grants. eauto.
Qed.

(** ** Properties of the load *)

(** A product cannot grant a platform verb. Loading succeeds exactly when no product
    document grants an action the platform document grants or seals; and when it does, a
    role holds a platform verb only from the baseline or from the platform itself, while
    any other action is held exactly where some document grants it. *)
Theorem load_seals_platform_verbs base plat docs :
  let outcome := Load (Ok base) (Ok plat) (Ok docs) in
  (is_ok outcome = true ↔
     ∀ d r a, d ∈ docs → grants_to (doc_RoleActions d) r a → ¬ platform_owned plat a) ∧
  ∀ g, outcome = Ok g → ∀ r a,
    (grants_to (RoleActions g) r a ↔
       grants_to (RoleActions base) r a ∨ platform_grants plat r a ∨
       ∃ d, d ∈ docs ∧ grants_to (doc_RoleActions d) r a) ∧
    (platform_owned plat a → grants_to (RoleActions g) r a →
       grants_to (RoleActions base) r a ∨ platform_grants plat r a).
Proof.
  simpl. pose proof (applyPlatformLayer_spec plat base) as [Hp Hs].
  destruct (applyPlatformLayer plat base) as [g0 sealed]. simpl in *.
  setoid_rewrite <- Hs. split.
  - split; [|apply applyProductLayers_total].
    destruct (applyProductLayers docs sealed g0) as [g|] eqn:E; [|done].
    by apply applyProductLayers_Ok in E as [H _].
  - intros g E r a. apply applyProductLayers_Ok in E as [H1 H2]. rewrite H2, Hp.
    split; [tauto|]. intros Hown [[?|?]|(d & Hd & Hg)]; [tauto..|].
    by destruct (H1 d r a Hd Hg).
Qed.

(** ** Floors only accumulate *)

(** [a] extended by [b]: each action keeps its rules, in order, and may gain more. *)
Definition floors_extend (a b : Floors) : Prop :=
  ∀ action, get_list a action `prefix_of` get_list b action.

#[export] Instance floors_extend_preorder : PreOrder floors_extend.
Proof.
  split; [by intros a action|]. intros a b c Hab Hbc action. trans (get_list b action); auto.
Qed.

Lemma mergeFloors_lookup f rules action :
  get_list (mergeFloors f rules) action = get_list f action ++ get_list rules action.
Proof.
  unfold mergeFloors.
  apply (map_fold_weak_ind (λ r m,
    get_list r action = get_list f action ++ get_list m action)).
  - unfold get_list at 3. rewrite lookup_empty. simpl. by rewrite app_nil_r.
  - intros a l m r Hm IH. unfold get_list in *. destruct (decide (action = a)) as [->|Hne].
    + rewrite !lookup_insert_eq. simpl. rewrite Hm in IH. simpl in IH.
      by rewrite IH, app_nil_r.
    + by rewrite !lookup_insert_ne.
Qed.

Lemma mergeFloors_extend f rules : floors_extend f (mergeFloors f rules).
Proof. intros action. rewrite mergeFloors_lookup. by apply prefix_app_r. Qed.

Lemma appendLayeredFloors_extend plat docs f :
  floors_extend f (appendLayeredFloors plat docs f).
Proof.
  unfold appendLayeredFloors.
  trans (match plat with Some p => mergeFloors f (doc_Floors p) | None => f end).
  { destruct plat; [apply mergeFloors_extend|done]. }
  generalize (match plat with Some p => mergeFloors f (doc_Floors p) | None => f end).
  induction docs as [|d docs IH]; intros g; simpl; [done|].
  etrans; [apply (mergeFloors_extend g (doc_Floors d))|apply IH].
Qed.

Lemma foldl_mergeFloors_lookup docs f action :
  get_list (foldl (λ f d, mergeFloors f (doc_Floors d)) f docs) action =
  get_list f action ++ flat_map (λ d, get_list (doc_Floors d) action) docs.
Proof.
  revert f. induction docs as [|d docs IH]; intros f; simpl; [by rewrite app_nil_r|].
  by rewrite IH, mergeFloors_lookup, <- app_assoc.
Qed.

(** An action's floors: the baseline's, then the platform's, then each product's. *)
Lemma LoadFloors_lookup base plat docs f action :
  LoadFloors (Ok base) (Ok plat) (Ok docs) = Ok f →
  get_list f action = get_list base action ++
    match plat with Some p => get_list (doc_Floors p) action | None => [] end ++
    flat_map (λ d, get_list (doc_Floors d) action) docs.
Proof.
  simpl. intros [= <-]. unfold appendLayeredFloors. rewrite foldl_mergeFloors_lookup.
  destruct plat; [|done]. by rewrite mergeFloors_lookup, <- app_assoc.
Qed.

(** ** A change to who may do what *)

Section govern_props.
Context {W : Type} (source_Load : W → result go_error (Grants * Floors * string)).
Context (nowFunc : W → Time).

(** C16: a permission changes only on a live decision about that very change. Whatever
    fact about the world the door's own call leaves standing still stands after [Govern],
    unless the change names a role, an action and a reason, the door returned a token for
    the intent naming it and the revision it was judged against, the token had not
    expired, and what happened after is the writer's one call. *)
Theorem govern_writes_only_on_a_decision door writer actor change w (P : W → Prop)
    (Hw : P w) (Hdoor : ∀ submit i w, door = Some submit → P w → P (submit i w).2) :
  let after := (Govern source_Load nowFunc door writer actor change w).2 in
  P after ∨
  ∃ submit write g f before token w1,
    door = Some submit ∧ writer = Some write ∧ Validate change = Ok tt ∧
    source_Load w = Ok (g, f, before) ∧
    submit (grant_intent actor change before) w = (Ok token, w1) ∧
    (nowFunc w1 < tok_ExpiresAt token)%Z ∧ after = (write change w1).2.
Proof.
  unfold Govern. destruct (Validate change) as [[]|e] eqn:Hv; [|by left].
  destruct door as [submit|]; [|by left]. destruct writer as [write|]; [|by left].
  destruct (source_Load w) as [[[g f] before]|e] eqn:Hl; [|by left].
  specialize (Hdoor submit (grant_intent actor change before) w eq_refl Hw).
  destruct (submit _ w) as [[token|e] w1] eqn:Hs; simpl in *; [|by left].
  destruct (ExecutionToken_Valid token (nowFunc w1)) eqn:Ht; [|by left].
  right. exists submit, write, g, f, before, token, w1.
  unfold ExecutionToken_Valid in Ht. apply Z.ltb_lt in Ht.
  split_and!; try done. by destruct (write change w1) as [[]].
Qed.
End govern_props.

(** ** A revision names its documents *)

Lemma framed_cancel d1 d2 s t :
  framed d1 +:+ s = framed d2 +:+ t → d1 = d2 ∧ s = t.
Proof.
  unfold framed. rewrite !append_assoc. intros H.
  apply (append_cancel_sep ":" _ _ (d1 +:+ s) (d2 +:+ t)) in H as [Hlen H]; [|apply pretty_nat_no_colon..].
  apply pretty_nat_inj in Hlen. by apply append_same_length.
Qed.

Lemma framed_not_nil d s : framed d +:+ s ≠ "".
Proof. unfold framed. by destruct (pretty (slen d)). Qed.

Lemma framing_inj ds1 ds2 :
  foldr (λ d digest, framed d +:+ digest) "" ds1 =
  foldr (λ d digest, framed d +:+ digest) "" ds2 → ds1 = ds2.
Proof.
  revert ds2. induction ds1 as [|d1 ds1 IH]; intros [|d2 ds2]; cbn [foldr]; intros H.
  - done.
  - symmetry in H. by apply framed_not_nil in H.
  - by apply framed_not_nil in H.
  - apply framed_cancel in H as [-> H]. f_equal. by apply IH.
Qed.

(** A revision names the documents it was derived from. If the truncated digest does
    not collide on the two inputs, equal revisions mean equal document lists: the length
    framing lets no two lists, of any lengths, run together. *)
Theorem revision_names_documents sha256_hex ds1 ds2
    (Hdigest : ∀ x y,
       x = foldr (λ d digest, framed d +:+ digest) "" ds1 →
       y = foldr (λ d digest, framed d +:+ digest) "" ds2 →
       take_bytes 16 (sha256_hex x) = take_bytes 16 (sha256_hex y) → x = y) :
  RevisionOf sha256_hex ds1 = RevisionOf sha256_hex ds2 ↔ ds1 = ds2.
Proof.
  split; [|by intros ->]. unfold RevisionOf. intros H%Hdigest; [|done..].
  by apply framing_inj.
Qed.

(** ** Witnesses *)

Definition demo_actor : Subject := mkSubject "u-17" [RoleSuperAdmin] [] false ∅.

Lemma govern_writes_only_on_a_decision_witness :
  let submit := λ (i : Intent) (w : list Change), (Ok (mkExecutionToken "t" "i" "" "" 0 100), w) in
  let write := λ c (w : list Change), (Ok "r2", w ++ [c]) in
  let load := λ _ : list Change, Ok (mkGrants ∅ [], ∅, "r1") in
  let change := mkChange "L2-Operator" "job.run" true "new starter" in
  let after := (Govern load (λ _, 7%Z) (Some submit) (Some write) demo_actor change []).2 in
  after = [change] ∧
  (after = [] ∨
   ∃ submit' write' g f before token w1,
    Some submit = Some submit' ∧ Some write = Some write' ∧ Validate change = Ok tt ∧
    load [] = Ok (g, f, before) ∧
    submit' (grant_intent demo_actor change before) [] = (Ok token, w1) ∧
    (7 < tok_ExpiresAt token)%Z ∧ after = (write' change w1).2).
Proof.
  intros submit write load change after. split; [by vm_compute|].
  apply (govern_writes_only_on_a_decision load (λ _, 7%Z) (Some submit) (Some write)
           demo_actor change [] (λ w, w = [])); [done|].
  intros s i w [= <-] ->. done.
Defined.

Lemma revision_names_documents_witness :
  RevisionOf id ["ab"; "c"] = RevisionOf id ["a"; "bc"] ↔ ["ab"; "c"] = ["a"; "bc"].
Proof.
  apply (revision_names_documents id ["ab"; "c"] ["a"; "bc"]).
  intros x y -> -> H. exfalso. by vm_compute in H.
Defined.
