(* ===== verification/Conformance.v ===== *)
(** Conformance suites: what [testing.T], goroutines and the clock do to a test that an
    adopter runs against an implementation of an interface.

    A test is a tree of the calls it makes; an implementation is a state and, for each call,
    the atomic steps it takes, so that a store which reads and then writes without a lock can
    be told from one that does both at once. A race runs its goroutines under any schedule.
    Two implementations in step with each other get the same verdict from every test that
    looks only at what the interface promises. *)
From S2P Require Import Prelude Contracts.

(** ** Tests *)

Section tests.
Context {Ev : Type} {An : Ev → Type}.

(** The body of a goroutine. *)
Inductive act (X : Type) : Type :=
| Return (x : X)
| Now (k : Time → act X)
| Call (e : Ev) (k : An e → act X).

(** The body of a test. [Race] starts its goroutines together and waits for all of them;
    what they leave behind is one value each. A report is the format string of its message. *)
Inductive test : Type :=
| Pass
| Clock (k : Time → test)
| Ask (e : Ev) (k : An e → test)
| Race {X : Type} (threads : list (act X)) (k : list X → test)
| Errorf (msg : string) (rest : test)
| Fatalf (msg : string)
| Skipf (msg : string).

Inductive verdict :=
| Passed
| Failed (reports : list string)
| Skipped (why : string).

(** [t.Run] of every case, on a fresh implementation each. *)
Definition suite : Type := list (string * test).
End tests.
Arguments act : clear implicits.
Arguments test : clear implicits.
Arguments suite : clear implicits.
Arguments Return {Ev An X}.
Arguments Now {Ev An X}.
Arguments Call {Ev An X}.

(** ** Implementations *)

(** An operation under way: over, or one atomic step and what follows it. *)
Inductive Op (St X : Type) : Type :=
| Done (x : X)
| Step (f : Time → St → St) (k : Time → St → Op St X).
Arguments Done {St X}.
Arguments Step {St X}.

Fixpoint op_bind {St X Y} (o : Op St X) (g : X → Op St Y) : Op St Y :=
  match o with
  | Done x => g x
  | Step f k => Step f (λ t s, op_bind (k t s) g)
  end.

(** Everything at once, under the lock. *)
Definition atomic {St X} (f : Time → St → X * St) : Op St X :=
  Step (λ t s, (f t s).2) (λ t s, Done (f t s).1).

Record Implementation (Ev : Type) (An : Ev → Type) := mkImplementation {
  State : Type;
  fresh : State;
  handle : ∀ e : Ev, Op State (An e);
}.
Arguments mkImplementation {Ev An}.
Arguments State {Ev An}.
Arguments fresh {Ev An}.
Arguments handle {Ev An}.

Definition count {A} (P : A → bool) (l : list A) : nat := length (List.filter P l).

Lemma count_of_cons {A} (P : A → bool) x l : count P (x :: l) = (if P x then 1 else 0) + count P l.
Proof. unfold count. cbn. by destruct (P x). Qed.

Lemma count_insert {A} (P : A → bool) l i x y :
  l !! i = Some x → count P (<[i := y]> l) + (if P x then 1 else 0) = count P l + (if P y then 1 else 0).
Proof.
  revert i. induction l as [|z l IH]; intros [|i] H; try done.
  - injection H as ->. change (<[0:=y]> (x :: l)) with (y :: l). rewrite !count_of_cons. lia.
  - change (<[S i:=y]> (z :: l)) with (z :: <[i:=y]> l). rewrite !count_of_cons. specialize (IH i H). lia.
Qed.

(** ** Running a test *)

Section running.
Context {Ev : Type} {An : Ev → Type} (I : Implementation Ev An).
(** The readings of the clock, in the order they are made. *)
Context (clock : nat → Time).

(** The state, and how many readings were made. *)
Notation world := (State I * nat)%type.

Fixpoint run_op {X} (o : Op (State I) X) (w : world) : X * world :=
  match o with
  | Done x => (x, w)
  | Step f k => run_op (k (clock w.2) w.1) (f (clock w.2) w.1, S w.2)
  end.

Fixpoint op_of {X} (a : act Ev An X) : Op (State I) X :=
  match a with
  | Return x => Done x
  | Now k => Step (λ _ s, s) (λ t _, op_of (k t))
  | Call e k => op_bind (handle I e) (λ x, op_of (k x))
  end.

(** One step of a goroutine; one that is over has none. *)
Definition schedule_one {X} (c : list (Op (State I) X) * world) (i : nat) : list (Op (State I) X) * world :=
  match c.1 !! i with
  | Some (Step f k) => (<[i := k (clock c.2.2) c.2.1]> c.1, (f (clock c.2.2) c.2.1, S c.2.2))
  | _ => c
  end.

(** Who is still running when the schedule ends finishes in turn. *)
Fixpoint finish {X} (pool : list (Op (State I) X)) (w : world) : list X * world :=
  match pool with
  | [] => ([], w)
  | o :: pool =>
      let '(x, w) := run_op o w in
      let '(xs, w) := finish pool w in (x :: xs, w)
  end.

Definition run_race {X} (schedule : list nat) (threads : list (act Ev An X)) (w : world) : list X * world :=
  let '(pool, w) := foldl schedule_one (map op_of threads, w) schedule in finish pool w.

(** [reports] are the errors so far, newest first; a skip does not undo them. *)
Fixpoint run (schedule : list nat) (t : test Ev An) (reports : list string) (w : world) : verdict :=
  match t with
  | Pass => match reports with [] => Passed | _ => Failed (rev reports) end
  | Clock k => run schedule (k (clock w.2)) reports (w.1, S w.2)
  | Ask e k => let '(a, w) := run_op (handle I e) w in run schedule (k a) reports w
  | Race threads k => let '(xs, w) := run_race schedule threads w in run schedule (k xs) reports w
  | Errorf msg rest => run schedule rest (msg :: reports) w
  | Fatalf msg => Failed (rev (msg :: reports))
  | Skipf msg => match reports with [] => Skipped msg | _ => Failed (rev reports) end
  end.

(** A test on a fresh implementation, from the [start]-th reading on. *)
Definition verdict_of (schedule : list nat) (start : nat) (t : test Ev An) : verdict :=
  run schedule t [] (fresh I, start).

Definition verdicts (schedule : list nat) (start : nat) (s : suite Ev An) : list (string * verdict) :=
  map (λ c, (c.1, verdict_of schedule start c.2)) s.

(** ** Lemmas on races *)

(** What every step of every goroutine keeps, holds when all are over. *)
Section race_invariant.
Context {X : Type} (Inv : list (Op (State I) X) → State I → Prop).
Context (Inv_step : ∀ pool s i f k n, Inv pool s → pool !! i = Some (Step f k) →
  Inv (<[i := k (clock n) s]> pool) (f (clock n) s)).

Lemma Inv_schedule schedule pool s n :
  Inv pool s → ∃ pool' s' n', foldl schedule_one (pool, (s, n)) schedule = (pool', (s', n')) ∧ Inv pool' s' ∧
    length pool' = length pool.
Proof.
  revert pool s n. induction schedule as [|i schedule IH]; intros pool s n H; [by eauto 10|].
  simpl. unfold schedule_one at 2. cbn [fst snd]. destruct (pool !! i) as [[x|f k]|] eqn:E; [by apply IH| |by apply IH].
  destruct (IH _ _ (S n) (Inv_step _ _ _ _ _ n H E)) as (pool' & s' & n' & ? & ? & Hl).
  exists pool', s', n'. rewrite length_insert in Hl. done.
Qed.

Lemma Inv_run_op pool o rest s n :
  Inv (pool ++ o :: rest) s → ∃ x s' n', run_op o (s, n) = (x, (s', n')) ∧ Inv (pool ++ Done x :: rest) s'.
Proof.
  revert s n. induction o as [x|f k IH]; intros s n H; [by eauto 10|]. cbn [run_op fst snd]. apply IH.
  specialize (Inv_step _ _ (length pool) f k n H). rewrite list_lookup_middle in Inv_step by done.
  specialize (Inv_step eq_refl). rewrite insert_app_r_alt, Nat.sub_diag in Inv_step by done. done.
Qed.

Lemma Inv_finish xs pool s n :
  Inv (map Done xs ++ pool) s → ∃ ys s' n', finish pool (s, n) = (ys, (s', n')) ∧ Inv (map Done (xs ++ ys)) s' ∧
    length ys = length pool.
Proof.
  revert xs s n. induction pool as [|o pool IH]; intros xs s n H.
  { exists [], s, n. rewrite !app_nil_r in *. done. }
  destruct (Inv_run_op _ _ _ _ n H) as (x & s1 & n1 & Hrun & H1). cbn [finish]. rewrite Hrun.
  destruct (IH (xs ++ [x]) s1 n1) as (ys & s2 & n2 & Hf & H2 & Hl).
  { rewrite map_app, <- app_assoc. done. }
  rewrite Hf. exists (x :: ys), s2, n2. rewrite <- app_assoc in H2. split; [done|]. split; [done|]. cbn. by rewrite Hl.
Qed.

Lemma race_invariant schedule (threads : list (act Ev An X)) s n :
  Inv (map op_of threads) s → ∃ xs s' n', run_race schedule threads (s, n) = (xs, (s', n')) ∧ Inv (map Done xs) s' ∧
    length xs = length threads.
Proof.
  intros H. destruct (Inv_schedule schedule _ _ n H) as (pool & s1 & n1 & Hs & H1 & Hl).
  destruct (Inv_finish [] pool s1 n1 H1) as (ys & s2 & n2 & Hf & H2 & Hl2).
  exists ys, s2, n2. unfold run_race. rewrite Hs, Hf. rewrite length_map in Hl. split; [done|]. split; [done|]. congruence.
Qed.
End race_invariant.

(** At most [N] goroutines are served, in the order [won] in which they get there; the rest
    are turned away, and only then. *)
Section first_come_first_served.
Context (N : nat) (served : State I → list nat → Prop) (waiting : nat → Op (State I) bool → Prop).
Context (not_over : ∀ i b, ¬ waiting i (Done b)).
Context (moves : ∀ i f k s won n, waiting i (Step f k) → served s won → i ∉ won → length won < N →
  served (f (clock n) s) won ∧ waiting i (k (clock n) s) ∨ served (f (clock n) s) (won ++ [i]) ∧ k (clock n) s = Done true).
Context (full : ∀ i f k s won n, waiting i (Step f k) → served s won → i ∉ won → length won = N →
  served (f (clock n) s) won ∧ (waiting i (k (clock n) s) ∨ k (clock n) s = Done false)).

Definition wins (o : Op (State I) bool) : bool := match o with Done b => b | _ => false end.

Inductive standing (won : list nat) (i : nat) (o : Op (State I) bool) : Prop :=
| standing_waiting : waiting i o → i ∉ won → standing won i o
| standing_served : o = Done true → i ∈ won → standing won i o
| standing_refused : o = Done false → i ∉ won → length won = N → standing won i o.

Definition queue (pool : list (Op (State I) bool)) (s : State I) : Prop :=
  ∃ won, served s won ∧ NoDup won ∧ length won ≤ N ∧ count wins pool = length won ∧
    (∀ i, i ∈ won → i < length pool) ∧ ∀ i o, pool !! i = Some o → standing won i o.

Lemma wins_waiting i o : waiting i o → wins o = false.
Proof. destruct o as [b|f k]; [|done]. by intros ?%not_over. Qed.

Lemma queue_step pool s i f k n :
  queue pool s → pool !! i = Some (Step f k) → queue (<[i := k (clock n) s]> pool) (f (clock n) s).
Proof.
  intros (won & Hs & Hnd & Hle & Hc & Hlt & Hall) Hi. pose proof (lookup_lt_Some _ _ _ Hi) as Hlti.
  destruct (Hall i _ Hi) as [Hw Hno|[=]|[=]]. pose proof (count_insert wins pool i _ (k (clock n) s) Hi) as Hcount. cbn in Hcount.
  assert (∀ won' o j, (∀ j o, pool !! j = Some o → j ≠ i → standing won' j o) → standing won' i (k (clock n) s) →
    <[i := k (clock n) s]> pool !! j = Some o → standing won' j o) as Hplace.
  { intros won' o j Hothers Hself Hj. apply list_lookup_insert_Some in Hj as [(-> & <- & _)|[Hne Hj]]; [done|]. by apply Hothers. }
  destruct (decide (length won = N)) as [Hfull|Hroom].
  - destruct (full _ _ _ _ _ n Hw Hs Hno Hfull) as [Hs' Hk]. exists won. split; [done|]. split; [done|]. split; [done|].
    assert (wins (k (clock n) s) = false) as Hk0 by (destruct Hk as [Hk| ->]; [by eapply wins_waiting|done]).
    rewrite Hk0 in Hcount. split; [lia|]. rewrite length_insert. split; [done|]. intros j o. apply Hplace; [intros; by apply Hall|].
    destruct Hk as [Hk|Hk]; [by apply standing_waiting|by apply standing_refused].
  - destruct (moves _ _ _ _ _ n Hw Hs Hno ltac:(lia)) as [[Hs' Hk]|[Hs' Hk]].
    + exists won. rewrite (wins_waiting _ _ Hk) in Hcount. rewrite length_insert. split_and!; try done; [lia|]. intros j o.
      apply Hplace; [intros; by apply Hall|by apply standing_waiting].
    + rewrite Hk in Hcount, Hplace |- *. exists (won ++ [i]). cbn in Hcount. rewrite length_app. cbn [length].
      split; [done|]. split; [apply NoDup_app; split; [done|]; split; [|apply NoDup_singleton]; intros j Hj ->%list_elem_of_singleton; done|].
      split; [lia|]. split; [lia|]. rewrite length_insert. split; [intros j [Hj| ->%list_elem_of_singleton]%elem_of_app; [by apply Hlt|done]|]. intros j o. apply Hplace; [|apply standing_served; [done|set_solver]].
      intros j' o' Hj Hne. destruct (Hall j' o' Hj) as [? ?|? ?|? ? ?]; [apply standing_waiting; set_solver|apply standing_served; set_solver|lia].
Qed.

(** When the race is over, as many were served as there was room for and people to serve. *)
Lemma race_served schedule (threads : list (act Ev An bool)) s n :
  served s [] → (∀ i a, threads !! i = Some a → waiting i (op_of a)) → ∃ xs s' n' won,
    run_race schedule threads (s, n) = (xs, (s', n')) ∧ served s' won ∧ NoDup won ∧
    length won = N `min` length threads ∧ count (λ b, b) xs = length won ∧ ∀ i, i ∈ won → i < length threads.
Proof.
  intros Hs Ht. destruct (race_invariant queue queue_step schedule threads s n) as (xs & s' & n' & Hrun & Hq & Hlen).
  { exists []. split_and!; try done; [constructor|cbn; lia| |by intros i ?%not_elem_of_nil|].
    - clear -Ht not_over. revert waiting not_over Ht. induction threads as [|a l IH]; intros waiting not_over Ht; [done|]. cbn [map].
      rewrite count_of_cons, (IH (λ i, waiting (S i))); [|intros; apply not_over|intros i b Hb; by apply (Ht (S i))].
      specialize (Ht 0 a eq_refl). destruct (op_of a) as [b|]; [by apply not_over in Ht|done].
    - intros i o Ho. rewrite list_lookup_fmap in Ho. destruct (threads !! i) as [a|] eqn:E; [|done].
      injection Ho as <-. apply standing_waiting; [by apply Ht|apply not_elem_of_nil]. }
  destruct Hq as (won & Hw & Hnd & Hle & Hc & Hlt & Hall). exists xs, s', n', won. split; [done|]. split; [done|]. split; [done|].
  assert (∀ l : list bool, count wins (map Done l) = count (λ b, b) l) as Hmap.
  { clear. induction l as [|x l IH]; [done|]. cbn [map]. by rewrite !count_of_cons, IH. }
  rewrite Hmap in Hc. rewrite length_map in Hlt. rewrite <- Hlen. split; [|done].
  destruct (decide (length won = N)) as [Heq|Hne].
  - enough (length won ≤ length xs) by lia. rewrite <- Hc. clear. induction xs as [|x l IH]; [done|]. rewrite count_of_cons. cbn. destruct x; lia.
  - enough (count (λ b, b) xs = length xs) by lia.
    assert (∀ x, x ∈ xs → x = true) as Htrue.
    { intros x Hx. apply list_elem_of_lookup_1 in Hx as [i Hi]. destruct (Hall i (Done x)) as [H|[= ->] _|[= ->] _ H]; [|by apply not_over in H|done|lia].
      by rewrite list_lookup_fmap, Hi. }
    clear -Htrue. induction xs as [|x l IH]; [done|]. rewrite count_of_cons, (Htrue x) by (by left). cbn. rewrite IH; [done|].
    intros y Hy. apply Htrue. by right.
Qed.
End first_come_first_served.
End running.

(** ** Implementations in step *)

(** The same steps at any [reading] of the clock, on states that [R] relates, to answers that
    [XR] relates. *)
Inductive op_sim (reading : Time → Prop) {S1 S2 X Y} (R : S1 → S2 → Prop) (XR : X → Y → Prop) : Op S1 X → Op S2 Y → Prop :=
| sim_Done x y : XR x y → op_sim reading R XR (Done x) (Done y)
| sim_Step f k g l :
    (∀ t s s', reading t → R s s' → R (f t s) (g t s')) →
    (∀ t s s', reading t → R s s' → op_sim reading R XR (k t s) (l t s')) →
    op_sim reading R XR (Step f k) (Step g l).

Lemma op_sim_bind reading {S1 S2 X Y X' Y'} (R : S1 → S2 → Prop) (XR : X → Y → Prop) (YR : X' → Y' → Prop) o o' g g' :
  op_sim reading R XR o o' → (∀ x y, XR x y → op_sim reading R YR (g x) (g' y)) → op_sim reading R YR (op_bind o g) (op_bind o' g').
Proof. intros H Hg. induction H as [x y H|f k f' k' Hf _ IH]; cbn [op_bind]; [by apply Hg|]. by constructor. Qed.

Lemma op_sim_atomic (reading : Time → Prop) {S1 S2 X Y} (R : S1 → S2 → Prop) (XR : X → Y → Prop) f g :
  (∀ t s s', reading t → R s s' → XR (f t s).1 (g t s').1 ∧ R (f t s).2 (g t s').2) → op_sim reading R XR (atomic f) (atomic g).
Proof. intros H. apply sim_Step; intros t s s' Ht Hs; [by apply H|]. constructor. by apply H. Qed.

Section simulation.
Context {Ev : Type} {An : Ev → Type}.
(** Which answers to a call the interface does not tell apart. *)
Context (same : ∀ e, An e → An e → Prop).
(** The times that are read, and the calls that are made. *)
Context (reading : Time → Prop) (allowed : Ev → Prop).

(** Tests that cannot tell such answers apart either. *)
Inductive act_rel {X} (XR : X → X → Prop) : act Ev An X → act Ev An X → Prop :=
| rel_Return x y : XR x y → act_rel XR (Return x) (Return y)
| rel_Now k l : (∀ t, reading t → act_rel XR (k t) (l t)) → act_rel XR (Now k) (Now l)
| rel_Call e k l : allowed e → (∀ a b, same e a b → act_rel XR (k a) (l b)) → act_rel XR (Call e k) (Call e l).

Inductive test_rel : test Ev An → test Ev An → Prop :=
| rel_Pass : test_rel Pass Pass
| rel_Clock k l : (∀ t, reading t → test_rel (k t) (l t)) → test_rel (Clock k) (Clock l)
| rel_Ask e k l : allowed e → (∀ a b, same e a b → test_rel (k a) (l b)) → test_rel (Ask e k) (Ask e l)
| rel_Race {X} (XR : X → X → Prop) threads threads' k l :
    Forall2 (act_rel XR) threads threads' → (∀ xs ys, Forall2 XR xs ys → test_rel (k xs) (l ys)) →
    test_rel (Race threads k) (Race threads' l)
| rel_Errorf msg t u : test_rel t u → test_rel (Errorf msg t) (Errorf msg u)
| rel_Fatalf msg : test_rel (Fatalf msg) (Fatalf msg)
| rel_Skipf msg : test_rel (Skipf msg) (Skipf msg).

(** [J] does what [I] does, as far as the interface goes. *)
Record in_step (I J : Implementation Ev An) (R : State I → State J → Prop) : Prop := {
  step_fresh : R (fresh I) (fresh J);
  step_handle e : allowed e → op_sim reading R (same e) (handle I e) (handle J e);
}.

Context {I J : Implementation Ev An} {R : State I → State J → Prop} (Hstep : in_step I J R) (clock : nat → Time) (clock_read : ∀ n, reading (clock n)).

Lemma op_of_sim {X} (XR : X → X → Prop) a b : act_rel XR a b → op_sim reading R XR (op_of I a) (op_of J b).
Proof.
  intros H. induction H as [x y H|k l _ IH|e k l He _ IH]; cbn [op_of]; [by apply sim_Done|apply sim_Step; auto|].
  eapply op_sim_bind; [by apply Hstep|done].
Qed.

Lemma run_op_sim {X Y} (XR : X → Y → Prop) o o' s s' n :
  op_sim reading R XR o o' → R s s' → ∃ x y s1 s1' m,
    run_op I clock o (s, n) = (x, (s1, m)) ∧ run_op J clock o' (s', n) = (y, (s1', m)) ∧ XR x y ∧ R s1 s1'.
Proof.
  intros H. revert s s' n. induction H as [x y H|f k g l Hf _ IH]; intros s s' n Hs; cbn [run_op fst snd]; [by eauto 10|].
  apply IH; [by apply clock_read|done|apply Hf; [by apply clock_read|done]].
Qed.

Lemma schedule_one_sim {X} (XR : X → X → Prop) pool pool' s s' n i :
  Forall2 (op_sim reading R XR) pool pool' → R s s' → ∃ p p' s1 s1' m,
    schedule_one I clock (pool, (s, n)) i = (p, (s1, m)) ∧ schedule_one J clock (pool', (s', n)) i = (p', (s1', m)) ∧
    Forall2 (op_sim reading R XR) p p' ∧ R s1 s1'.
Proof.
  intros H Hs. unfold schedule_one. cbn [fst snd]. pose proof (proj1 (Forall2_lookup _ _ _) H i) as Hi.
  destruct (pool !! i) as [o|], (pool' !! i) as [o'|]; inversion Hi as [? ? Ho|]; subst; [|by eauto 10].
  destruct Ho as [x y Hx|f k g l Hf Hk]; [by eauto 10|].
  exists (<[i:=k (clock n) s]> pool), (<[i:=l (clock n) s']> pool'), (f (clock n) s), (g (clock n) s'), (S n).
  split_and!; [done|done|apply Forall2_insert; [done|apply Hk; [by apply clock_read|done]]|apply Hf; [by apply clock_read|done]].
Qed.

Lemma finish_sim {X} (XR : X → X → Prop) pool pool' s s' n :
  Forall2 (op_sim reading R XR) pool pool' → R s s' → ∃ xs ys s1 s1' m,
    finish I clock pool (s, n) = (xs, (s1, m)) ∧ finish J clock pool' (s', n) = (ys, (s1', m)) ∧ Forall2 XR xs ys ∧ R s1 s1'.
Proof.
  intros H. revert s s' n. induction H as [|o o' pool pool' Ho _ IH]; intros s s' n Hs; [by eauto 10|]. cbn [finish].
  destruct (run_op_sim _ _ _ _ _ n Ho Hs) as (x & y & s1 & s1' & m & -> & -> & Hx & H1).
  destruct (IH _ _ m H1) as (xs & ys & s2 & s2' & m2 & -> & -> & Hxs & H2). eauto 15.
Qed.

Lemma run_race_sim {X} (XR : X → X → Prop) schedule threads threads' s s' n :
  Forall2 (act_rel XR) threads threads' → R s s' → ∃ xs ys s1 s1' m,
    run_race I clock schedule threads (s, n) = (xs, (s1, m)) ∧ run_race J clock schedule threads' (s', n) = (ys, (s1', m)) ∧
    Forall2 XR xs ys ∧ R s1 s1'.
Proof.
  intros H Hs. unfold run_race.
  assert (Forall2 (op_sim reading R XR) (map (op_of I) threads) (map (op_of J) threads')) as Hp.
  { apply Forall2_fmap. eapply Forall2_impl; [done|]. apply op_of_sim. }
  assert (∀ pool pool' s s' n, Forall2 (op_sim reading R XR) pool pool' → R s s' → ∃ p p' s1 s1' m,
    foldl (schedule_one I clock) (pool, (s, n)) schedule = (p, (s1, m)) ∧
    foldl (schedule_one J clock) (pool', (s', n)) schedule = (p', (s1', m)) ∧
    Forall2 (op_sim reading R XR) p p' ∧ R s1 s1') as Hfold.
  { clear -clock_read. induction schedule as [|i schedule IH]; intros pool pool' s s' n Hp Hs; [by eauto 10|]. cbn [foldl].
    destruct (schedule_one_sim _ _ _ _ _ n i Hp Hs) as (p & p' & s1 & s1' & m & -> & -> & H1 & H2). by apply IH. }
  destruct (Hfold _ _ _ _ n Hp Hs) as (p & p' & s1 & s1' & m & -> & -> & H1 & H2). by apply finish_sim.
Qed.

Lemma run_sim schedule t u reports s s' n :
  test_rel t u → R s s' → run I clock schedule t reports (s, n) = run J clock schedule u reports (s', n).
Proof.
  intros H. revert reports s s' n.
  induction H as [|k l _ IH|e k l He _ IH|X XR threads threads' k l Ht _ IH|msg t u _ IH|msg|msg]; intros reports s s' n Hs; cbn [run];
    try done.
  - apply IH; [by apply clock_read|done].
  - destruct (run_op_sim _ _ _ _ _ n (step_handle _ _ _ Hstep e He) Hs) as (x & y & s1 & s1' & m & -> & -> & Hx & H1). by apply IH.
  - destruct (run_race_sim _ schedule _ _ _ _ n Ht Hs) as (xs & ys & s1 & s1' & m & -> & -> & Hx & H1). by apply IH.
  - by apply IH.
Qed.

Lemma verdict_sim schedule start t : test_rel t t → verdict_of I clock schedule start t = verdict_of J clock schedule start t.
Proof. intros H. apply run_sim; [done|apply Hstep]. Qed.
End simulation.
