(* ===== verification/PolicyPg.v ===== *)
(** The policy kept in a database: [mantlekeep-policy-postgres] (change.go, document.go,
    loader.go, writer.go, store.go).

    The rows are behind the [Store] interface: [Head] reads the policy in force and
    [Update] is one atomic read-modify-write, which other operators' commits may precede.
    It may fail with a conflict, having written nothing; of any other error the interface
    only says that the new head and its history row land together or not at all. What the
    interface documents is the class below; the JSON codec is another. The writer's
    theorems are proved against both. *)
From S2P Require Import Prelude Contracts Grants.

(** ** change.go *)

Definition grantAction (ra : gmap string (list string)) (role action : string) :
    gmap string (list string) :=
  let actions := get_list ra role in
  if slice_contains actions action then ra else <[role := actions ++ [action]]> ra.

Definition revokeAction (ra : gmap string (list string)) (role action : string) :
    gmap string (list string) :=
  match ra !! role with
  | None => ra
  | Some actions =>
      let remaining := filter (λ candidate, candidate ≠ action) actions in
      if (length remaining =? length actions)%nat then ra
      else match remaining with
           | [] => delete role ra
           | _ => <[role := remaining]> ra
           end
  end.

Definition applyChange (document : Grants) (change : Change) : Grants :=
  mkGrants
    ((if ch_Grant change then grantAction else revokeAction)
       (RoleActions document) (ch_Role change) (ch_Action change))
    (ApprovalActions document).

(** ** store.go *)

Definition ErrNoPolicy : string := "pgpolicy: the store holds no policy".
Definition ErrRevisionConflict : string := "pgpolicy: the policy changed under this write".
Definition ErrCorruptDocument : string := "pgpolicy: stored policy document is not readable".

Record Snapshot := mkSnapshot {
  sn_GrantsDoc : string;
  sn_FloorsDoc : string;
  sn_StoredRevision : string;
}.

Record Entry := mkEntry {
  en_Snapshot : Snapshot;
  en_Change : Change;
  en_ParentRevision : string;
}.

(** [encoding/json] over the two documents. *)
Class PolicyCodec := {
  unmarshal_grants : string → result go_error Grants;
  unmarshal_floors : string → result go_error Floors;
  marshal_grants : Grants → result go_error string;
  marshal_floors : Floors → result go_error string;
}.

(** The store. [Update] also lists the heads it called [apply] on, oldest first: that is
    what a callback assigning a captured variable observes. [others s s'] says that other
    operators' commits, and no others, lead from [s] to [s']; [commit] is one of ours
    landing. *)
Class Store (St : Type) := {
  Head : St → result go_error Snapshot;
  Update : St → (Snapshot → result go_error Entry) → result go_error unit * St * list Snapshot;
  commit : St → Entry → St;
  others : relation St;
  others_preorder :: PreOrder others;
  Update_Ok s apply s' calls : Update s apply = (Ok tt, s', calls) →
    ∃ s1 head entry before, others s s1 ∧ Head s1 = Ok head ∧ apply head = Ok entry ∧
      calls = before ++ [head] ∧ s' = commit s1 entry;
  Update_Err s apply e s' calls : Update s apply = (Err e, s', calls) →
    others s s' ∨
    errors_is e ErrRevisionConflict = false ∧
      ∃ s1 head entry, others s s1 ∧ Head s1 = Ok head ∧ apply head = Ok entry ∧ s' = commit s1 entry;
}.

(** ** document.go, loader.go and writer.go *)

Record documents := mkDocuments {
  ds_grants : Grants;
  ds_floors : Floors;
}.

Section policy.
Context `{PolicyCodec} {St : Type} `{!Store St}.
Context (sha256_hex : string → string).

(** [fmt.Errorf("%w: grants: %v", ErrCorruptDocument, err)] wraps the variable only. *)
Definition corrupt (which : string) (e : go_error) : go_error :=
  ErrorWrap (ErrCorruptDocument +:+ ": " +:+ which +:+ ": " +:+ Error e)
    [ErrorVar ErrCorruptDocument].

Definition decode (snapshot : Snapshot) : result go_error documents :=
  match unmarshal_grants (sn_GrantsDoc snapshot) with
  | Err e => Err (corrupt "grants" e)
  | Ok g =>
      match unmarshal_floors (sn_FloorsDoc snapshot) with
      | Err e => Err (corrupt "floors" e)
      | Ok f => Ok (mkDocuments g f)
      end
  end.

Definition cannot_render (which : string) (e : go_error) : go_error :=
  ErrorWrap ("pgpolicy: cannot render the " +:+ which +:+ " document: " +:+ Error e) [e].

Definition encode (decoded : documents) : result go_error (Snapshot * string) :=
  match marshal_grants (ds_grants decoded) with
  | Err e => Err (cannot_render "grant" e)
  | Ok grantsDoc =>
      match marshal_floors (ds_floors decoded) with
      | Err e => Err (cannot_render "floor" e)
      | Ok floorsDoc =>
          let revision := RevisionOf sha256_hex [grantsDoc; floorsDoc] in
          Ok (mkSnapshot grantsDoc floorsDoc revision, revision)
      end
  end.

(** A nil document is [None]. *)
Definition Encode (policyGrants : option Grants) (policyFloors : option Floors) :
    result go_error (Snapshot * string) :=
  match policyGrants, policyFloors with
  | Some g, Some f =>
      rendered <-? encode (mkDocuments g f) ;
      normalised <-? decode rendered.1 ;
      encode normalised
  | _, _ =>
      Err (ErrorText "pgpolicy: Encode needs both documents; a missing one is not an empty one")
  end.

Definition Policy_Load (s : St) : result go_error (Grants * Floors * string) :=
  match Head s with
  | Err e =>
      Err (ErrorWrap ("pgpolicy: cannot read the policy in force: " +:+ Error e) [e])
  | Ok snapshot =>
      decoded <-? decode snapshot ;
      encoded <-? encode decoded ;
      Ok (ds_grants decoded, ds_floors decoded, encoded.2)
  end.

(** What [writeOnce] hands to [Update], and the entry and revision it computes. *)
Definition render_change (change : Change) (head : Snapshot) :
    result go_error (Entry * string) :=
  decoded <-? decode head ;
  next <-? encode (mkDocuments (applyChange (ds_grants decoded) change) (ds_floors decoded)) ;
  Ok (mkEntry next.1 change (sn_StoredRevision head), next.2).

Definition apply_to_head (change : Change) (head : Snapshot) : result go_error Entry :=
  r <-? render_change change head ; Ok r.1.

(** The captured variable [applied] after the callback ran on [calls]. *)
Definition applied_by (change : Change) (calls : list Snapshot) : string :=
  foldl (λ applied head, match render_change change head with
                         | Ok r => r.2
                         | Err _ => applied
                         end) "" calls.

Definition writeOnce (change : Change) (s : St) : result go_error string * St :=
  match Update s (apply_to_head change) with
  | (Err e, s, _) => (Err e, s)
  | (Ok _, s, calls) => (Ok (applied_by change calls), s)
  end.

Definition maxWriteAttempts : nat := 5.

(** The loop of [Write], with the attempts remaining and the last conflict. *)
Fixpoint write_attempts (remaining : nat) (change : Change) (lastConflict : option go_error) (s : St) :
    result go_error string * St :=
  match remaining with
  | 0 => (Err (ErrorWrap ("pgpolicy: gave up applying an approved policy change after 5 " +:+
            "attempts — the policy is being changed faster than this write can follow it: " +:+
            default "" (Error <$> lastConflict)) (option_list lastConflict)), s)
  | S remaining =>
      match writeOnce change s with
      | (Ok revision, s) => (Ok revision, s)
      | (Err e, s) =>
          if errors_is e ErrRevisionConflict then write_attempts remaining change (Some e) s
          else (Err e, s)
      end
  end.

Definition Write (change : Change) (s : St) : result go_error string * St :=
  write_attempts maxWriteAttempts change None s.

(** ** Lemmas *)

Lemma applied_by_snoc change before head :
  applied_by change (before ++ [head]) =
    match render_change change head with Ok r => r.2 | Err _ => applied_by change before end.
Proof. unfold applied_by. by rewrite foldl_app. Qed.

(** One landing of the change: on the head then in force, after commits of others only. *)
Definition lands (change : Change) (s : St) (revision : string) (s' : St) : Prop :=
  ∃ s1 head entry, others s s1 ∧ Head s1 = Ok head ∧
    render_change change head = Ok (entry, revision) ∧ s' = commit s1 entry.

Lemma lands_after change s s2 revision s' : others s s2 → lands change s2 revision s' → lands change s revision s'.
Proof. intros Ho (s1 & head & entry & ? & ?). exists s1, head, entry. split; [by etrans|done]. Qed.

Lemma writeOnce_Ok change s revision s' :
  writeOnce change s = (Ok revision, s') → lands change s revision s'.
Proof.
  unfold writeOnce.
  destruct (Update s _) as [[[[]|e] s2] calls] eqn:E; [|by intros [= ]].
  intros [= <- <-]. apply Update_Ok in E as (s1 & head & entry & before & Ho & Hh & Ha & -> & ->).
  unfold apply_to_head in Ha. rewrite applied_by_snoc. unfold lands.
  destruct (render_change change head) as [[en rev]|] eqn:Hr; simplify_eq/=. eauto 10.
Qed.

Lemma writeOnce_Err change s e s' :
  writeOnce change s = (Err e, s') →
  others s s' ∨ errors_is e ErrRevisionConflict = false ∧ ∃ revision, lands change s revision s'.
Proof.
  unfold writeOnce. destruct (Update s _) as [[[[]|e2] s2] calls] eqn:E; intros [= <- <-].
  apply Update_Err in E as [?|(He & s1 & head & entry & Ho & Hh & Ha & ->)]; [by left|]. right. split; [done|].
  unfold apply_to_head in Ha. apply rbind_Ok in Ha as ([en revision] & Hr & Ha). injection Ha as ->.
  exists revision, s1, head, entry. done.
Qed.

Lemma write_attempts_spec remaining change last s r s' :
  write_attempts remaining change last s = (r, s') →
  match r with
  | Err e => others s s' ∨ errors_is e ErrRevisionConflict = false ∧ ∃ revision, lands change s revision s'
  | Ok revision => lands change s revision s'
  end.
Proof.
  revert last s. induction remaining as [|remaining IH]; intros last s; simpl.
  { intros [= <- <-]. by left. }
  destruct (writeOnce change s) as [[rev|e] s2] eqn:E.
  - intros [= <- <-]. by apply writeOnce_Ok.
  - apply writeOnce_Err in E. destruct (errors_is e ErrRevisionConflict) eqn:He; [|by intros [= <- <-]; rewrite He].
    destruct E as [Ho|[? _]]; [|done]. intros H1%IH. destruct r as [rev|e']; [by eapply lands_after|].
    destruct H1 as [?|[? [rev ?]]]; [left; by etrans|]. right. split; [done|]. exists rev. by eapply lands_after.
Qed.

Lemma lands_spec change s revision s' :
  lands change s revision s' ↔
  ∃ s1 head decoded next,
    others s s1 ∧ Head s1 = Ok head ∧ decode head = Ok decoded ∧
    encode (mkDocuments (applyChange (ds_grants decoded) change) (ds_floors decoded)) = Ok (next, revision) ∧
    s' = commit s1 (mkEntry next change (sn_StoredRevision head)).
Proof.
  unfold lands, render_change. split.
  - intros (s1 & head & entry & ? & ? & Hr & ->). inv_ok. destruct (encode _) as [[next rv]|] eqn:E2 in *;
      simplify_eq/=. eauto 10.
  - intros (s1 & head & decoded & next & ? & ? & Hd & He & ->). exists s1, head. eexists. rewrite Hd. cbn [rbind].
    rewrite He. cbn [rbind]. eauto.
Qed.

(** C37: an approved change lands once or not at all, whatever conflicts were retried. A
    successful [Write] is other operators' commits followed by exactly one of ours: the
    change applied to the head then in force, rendered, linked to that head's revision and
    answered with its own. A failed one leaves only what other operators committed, or
    that one commit of ours: the latter only when its error is not a conflict, and the
    store did commit though it answered an error (such as a commit whose answer was
    lost). *)
Theorem write_lands_once_or_not_at_all change s :
  let landed revision s' := ∃ s1 head decoded next,
    others s s1 ∧ Head s1 = Ok head ∧ decode head = Ok decoded ∧
    encode (mkDocuments (applyChange (ds_grants decoded) change) (ds_floors decoded)) = Ok (next, revision) ∧
    s' = commit s1 (mkEntry next change (sn_StoredRevision head)) in
  match Write change s with
  | (Err e, s') => others s s' ∨ errors_is e ErrRevisionConflict = false ∧ ∃ revision, landed revision s'
  | (Ok revision, s') => landed revision s'
  end.
Proof.
  intros landed. assert (∀ revision s', lands change s revision s' → landed revision s') as Hl
    by (intros; by apply lands_spec).
  destruct (Write change s) as [r s'] eqn:E. apply write_attempts_spec in E.
  destruct r as [rev|e]; [by apply Hl|]. destruct E as [?|[? [rev ?%Hl]]]; [by left|]. right. eauto.
Qed.
End policy.

(** ** What a sequence of changes amounts to *)

Definition touches (c : Change) (role action : string) : Prop :=
  ch_Role c = role ∧ ch_Action c = action.

#[export] Instance touches_dec c role action : base.Decision (touches c role action).
Proof. unfold touches. apply _. Defined.

Lemma grantAction_spec ra role action r a :
  grants_to (grantAction ra role action) r a ↔ grants_to ra r a ∨ (r = role ∧ a = action).
Proof.
  unfold grantAction. destruct (slice_contains _ action) eqn:E; autorewrite with mk in E.
  - naive_solver.
  - unfold grants_to, get_list in *. destruct (decide (r = role)) as [->|].
    + rewrite lookup_insert_eq. simpl. set_solver.
    + rewrite lookup_insert_ne by done. naive_solver.
Qed.

Lemma filter_same_length {A} (P : A → Prop) `{∀ x, base.Decision (P x)} l :
  length (filter P l) = length l → filter P l = l.
Proof.
  induction l as [|x l IH]; [done|]. rewrite filter_cons. case_decide; simpl.
  - intros [= ?]. f_equal. by apply IH.
  - pose proof (length_filter P l). lia.
Qed.

Lemma revokeAction_spec ra role action r a :
  grants_to (revokeAction ra role action) r a ↔ grants_to ra r a ∧ ¬ (r = role ∧ a = action).
Proof.
  unfold revokeAction. rewrite !grants_to_insert_fold.
  destruct (ra !! role) as [acts|] eqn:Hra; [|naive_solver].
  destruct (length _ =? length acts)%nat eqn:E.
  - apply Nat.eqb_eq, filter_same_length in E.
    assert (action ∉ acts) by (rewrite <- E, list_elem_of_filter; naive_solver).
    naive_solver.
  - clear E. destruct (decide (r = role)) as [->|Hne].
    + assert (∀ x, x ∈ filter (λ c, c ≠ action) acts ↔ x ≠ action ∧ x ∈ acts) as Hf
        by (intros; by rewrite list_elem_of_filter).
      destruct (filter _ acts) as [|x rest]; rewrite ?lookup_delete_eq, ?lookup_insert_eq.
      * setoid_rewrite elem_of_nil in Hf. naive_solver.
      * naive_solver.
    + destruct (filter _ acts); rewrite ?lookup_delete_ne, ?lookup_insert_ne by done; naive_solver.
Qed.

Lemma applyChange_spec g c r a :
  grants_to (RoleActions (applyChange g c)) r a ↔
    if decide (touches c r a) then ch_Grant c = true else grants_to (RoleActions g) r a.
Proof.
  unfold applyChange, touches. simpl. destruct (ch_Grant c).
  - rewrite grantAction_spec. case_decide; naive_solver.
  - rewrite revokeAction_spec. case_decide; naive_solver.
Qed.

(** When the changes of a list that touch a permission agree, they decide it. *)
Lemma foldl_applyChange_spec b cs g r a :
  (∀ c, c ∈ cs → touches c r a → ch_Grant c = b) →
  grants_to (RoleActions (foldl applyChange g cs)) r a ↔
    (Exists (λ c, touches c r a) cs ∧ b = true) ∨
    (¬ Exists (λ c, touches c r a) cs ∧ grants_to (RoleActions g) r a).
Proof.
  revert g. induction cs as [|c cs IH]; intros g Hb; simpl.
  { rewrite Exists_nil. naive_solver. }
  rewrite IH by (intros; apply Hb; [by right|done]).
  rewrite applyChange_spec, Exists_cons.
  pose proof (Hb c (list_elem_of_here _ _)) as Hc.
  destruct (decide (Exists (λ c0, touches c0 r a) cs)); case_decide; naive_solver.
Qed.

Lemma elem_of_role_changes reason role had has c :
  c ∈ role_changes reason role had has ↔
    ch_Role c = role ∧ ch_Reason c = reason ∧
    (ch_Action c ∈ has ↔ ch_Grant c = true) ∧ (ch_Action c ∈ had ↔ ch_Grant c = false).
Proof.
  unfold role_changes. rewrite elem_of_app, !elem_of_map.
  assert (∀ s t x, x ∈ filter (λ a, negb (in_set s a)) (sorted_elements t) ↔ x ∉ s ∧ x ∈ t) as Hf.
  { intros s t x. rewrite list_elem_of_filter, elem_of_sorted_elements, Is_true_true, negb_true_iff.
    by autorewrite with mk. }
  setoid_rewrite Hf. destruct c as [r action grant why]; simpl. split.
  - intros [(x & [= -> -> -> ->] & ? & ?)|(x & [= -> -> -> ->] & ? & ?)]; naive_solver.
  - intros (-> & -> & ? & ?). destruct grant; [left|right]; exists action; naive_solver.
Qed.

Lemma elem_of_ChangesFrom before after reason c :
  c ∈ ChangesFrom before after reason ↔
    ch_Reason c = reason ∧
    (grants_to (RoleActions after) (ch_Role c) (ch_Action c) ↔ ch_Grant c = true) ∧
    (grants_to (RoleActions before) (ch_Role c) (ch_Action c) ↔ ch_Grant c = false).
Proof.
  unfold ChangesFrom, to_set, grants_to. rewrite elem_of_flat_map.
  setoid_rewrite elem_of_role_changes. setoid_rewrite elem_of_list_to_set.
  assert (∀ (m : gmap string (list string)) r x, x ∈ get_list m r → r ∈ dom m) as Hdom.
  { intros m r x Hx. apply elem_of_dom. unfold get_list in Hx.
    destruct (m !! r); [by eexists|]. by apply not_elem_of_nil in Hx. }
  split; [naive_solver|]. intros (Hw & Ha & Hb). exists (ch_Role c). split; [|done].
  unfold unionRoles. rewrite elem_of_sorted_elements, elem_of_union.
  destruct (ch_Grant c); [right|left]; apply (Hdom _ _ (ch_Action c)); naive_solver.
Qed.

(** A policy can be moved from one document to another by reviewed changes alone.
    Applying the changes [ChangesFrom before after] lists, one at a time and in order,
    to [before] gives a document under which every role holds exactly what [after] gives
    it; no change in the list is redundant, and each carries the reason. *)
Theorem changes_from_reach_after before after reason :
  let cs := ChangesFrom before after reason in
  (∀ r a, grants_to (RoleActions (foldl applyChange before cs)) r a ↔
          grants_to (RoleActions after) r a) ∧
  Forall (λ c, ch_Reason c = reason ∧
               (grants_to (RoleActions before) (ch_Role c) (ch_Action c) ↔ ch_Grant c = false)) cs.
Proof.
  intros cs. split; [|apply Forall_forall; intros c Hc%elem_of_ChangesFrom; naive_solver].
  intros r a.
  assert (∃ gain, gain = true ↔ grants_to (RoleActions after) r a) as [gain Hgain].
  { exists (bool_decide (grants_to (RoleActions after) r a)). by rewrite bool_decide_eq_true. }
  assert (∀ c, c ∈ cs → touches c r a → ch_Grant c = gain) as Hb.
  { intros c Hc%elem_of_ChangesFrom [<- <-]. destruct Hc as (_ & Ha & _).
    destruct (ch_Grant c), gain; naive_solver. }
  rewrite (foldl_applyChange_spec gain cs before r a Hb).
  assert (Exists (λ c, touches c r a) cs ↔
    ¬ (grants_to (RoleActions after) r a ↔ grants_to (RoleActions before) r a)) as ->.
  { rewrite Exists_exists. split.
    - intros (c & (_ & Ha & Hb')%elem_of_ChangesFrom & <- & <-). destruct (ch_Grant c); naive_solver.
    - intros Hne. exists (mkChange r a gain reason). split; [|done]. apply elem_of_ChangesFrom. simpl.
      destruct gain, (decide (grants_to (RoleActions before) r a)); naive_solver. }
  destruct gain, (decide (grants_to (RoleActions before) r a)); naive_solver.
Qed.

(** ** A store that holds the head under a lock, and witnesses *)

(** Rows, the head, and the commits of other operators waiting for the lock. *)
Record LockedStore := mkLocked {
  ls_head : Snapshot;
  ls_rows : list Entry;
  ls_waiting : list Entry;
}.

Definition land (s : LockedStore) (e : Entry) : LockedStore :=
  mkLocked (en_Snapshot e) (ls_rows s ++ [e]) (ls_waiting s).

Definition land_next (s s' : LockedStore) : Prop :=
  ∃ e rest, ls_waiting s = e :: rest ∧
    s' = mkLocked (en_Snapshot e) (ls_rows s ++ [e]) rest.

Definition land_waiting (s : LockedStore) : LockedStore :=
  foldl land (mkLocked (ls_head s) (ls_rows s) []) (ls_waiting s).

Lemma land_waiting_others s : rtc land_next s (land_waiting s).
Proof.
  destruct s as [h rows waiting]. unfold land_waiting. simpl. revert h rows.
  induction waiting as [|e rest IH]; intros h rows; simpl; [done|].
  eapply rtc_l; [|apply IH]. by exists e, rest.
Qed.

#[refine, export] Instance locked_store : Store LockedStore := {|
  Head := λ s, Ok (ls_head s);
  Update := λ s apply,
    let s := land_waiting s in
    match apply (ls_head s) with
    | Err e => (Err e, s, [ls_head s])
    | Ok entry => (Ok tt, land s entry, [ls_head s])
    end;
  commit := land;
  others := rtc land_next;
|}.
Proof.
  - intros s apply s' calls. cbv zeta.
    destruct (apply (ls_head (land_waiting s))) as [entry|] eqn:E; intros H; simplify_eq.
    exists (land_waiting s), (ls_head (land_waiting s)), entry, [].
    split_and!; try done. apply land_waiting_others.
  - intros s apply e s' calls. cbv zeta.
    destruct (apply (ls_head (land_waiting s))) as [entry|]; intros H; simplify_eq.
    left. apply land_waiting_others.
Defined.

(** A codec for the documents of one role, enough to run the writer. *)
#[export] Instance demo_codec : PolicyCodec := {|
  unmarshal_grants := λ s, Ok (mkGrants {["op" := SplitByte "," s]} []);
  unmarshal_floors := λ _, Ok ∅;
  marshal_grants := λ g, Ok (Join (get_list (RoleActions g) "op") ",");
  marshal_floors := λ _, Ok "";
|}.

(** A digest for the demo: the framed documents themselves. *)
Definition demo_digest (input : string) : string := input.

Definition demo_store : LockedStore :=
  mkLocked (mkSnapshot "read" "" "read|") []
    [mkEntry (mkSnapshot "read,list" "" "read,list|") (mkChange "op" "list" true "why") "read|"].

Definition demo_change : Change := mkChange "op" "deploy" true "why".

Lemma write_lands_once_or_not_at_all_witness :
  (Write demo_digest demo_change demo_store).1 = Ok "16:read,list,dep" ∧
  ∃ s1 head decoded next,
    others demo_store s1 ∧ Head s1 = Ok head ∧ decode head = Ok decoded ∧
    encode demo_digest (mkDocuments (applyChange (ds_grants decoded) demo_change) (ds_floors decoded))
      = Ok (next, "16:read,list,dep") ∧
    (Write demo_digest demo_change demo_store).2
      = commit s1 (mkEntry next demo_change (sn_StoredRevision head)).
Proof.
  split; [by vm_compute|].
  pose proof (write_lands_once_or_not_at_all demo_digest demo_change demo_store) as H.
  destruct (Write demo_digest demo_change demo_store) as [r s'] eqn:E.
  assert (r = Ok "16:read,list,dep") as ->; [|exact H].
  change r with (r, s').1. rewrite <- E. by vm_compute.
Defined.
