(* ===== verification/Floors.v ===== *)
(** The attribute floor and the approval gate: [internal/policy/floor.go].

    A floor rule is a [FloorRule] of a policy document. [admitFloor] denies with the
    reason of the first rule of the action that gives one; [approvalGate] asks for a
    second person. Numbers are IEEE doubles ([SpecFloat] at 53 and 1024);
    [strconv.ParseFloat] at 64 bits is an argument. A Go [range] over a map is in no
    fixed order: whether a request is denied does not depend on it. *)
From Stdlib Require Import Floats.SpecFloat.
From S2P Require Import Prelude Contracts Cascade Grants.

(** ** Request parameters *)

(** A nil map and an empty one read alike, so the code's nil checks are lookups. *)
Definition floorParamString (p : gmap string value) (key : string) : string :=
  match p !! key with Some (VString s) => s | _ => "" end.

Definition floorWhenMatches (p : gmap string value) (key want : string) : bool :=
  match p !! key with
  | Some (VBool v) => v && (want =s? "true")
  | Some (VString v) => v =s? want
  | _ => false
  end.

Definition floorParamRawMap (p : gmap string value) (key : string) : gmap string value :=
  match p !! key with
  | Some (VMap m) => m
  | Some (VStringMap m) => VString <$> m
  | _ => ∅
  end.

Definition floorContains (set : list string) (v : string) : bool :=
  existsb (λ s, s =s? v) set.

Definition floorHasPrefix (v : string) (prefixes : list string) : bool :=
  existsb (λ p, HasPrefix v p) prefixes.

(** ** Quantities *)

Notation float64 := spec_float (only parsing).

(** The double nearest to an integer. *)
Definition float_of (z : Z) : float64 := binary_normalize 53 1024 z 0 false.

Definition float_mul (a b : float64) : float64 := SFmul 53 1024 a b.

(** The double nearest to 0.001. *)
Definition milli : float64 := S754_finite false 4611686018427388 (-62).

Definition floorBinFactor : gmap string float64 :=
  list_to_map [("Ki", float_of (2 ^ 10)); ("Mi", float_of (2 ^ 20)); ("Gi", float_of (2 ^ 30));
               ("Ti", float_of (2 ^ 40)); ("Pi", float_of (2 ^ 50))].
Definition floorDecFactor : gmap string float64 :=
  list_to_map [("K", float_of (10 ^ 3)); ("M", float_of (10 ^ 6)); ("G", float_of (10 ^ 9));
               ("T", float_of (10 ^ 12)); ("P", float_of (10 ^ 15))].

Section floor.
(** [strconv.ParseFloat(s, 64)]: [None] is a non-nil error. *)
Context (ParseFloat : string → option float64).

(** [n] of the first [keep] bytes, times [f]. *)
Definition scaled (s : string) (keep : nat) (f : float64) : option float64 :=
  match ParseFloat (take_bytes keep s) with
  | None => None
  | Some n => Some (float_mul n f)
  end.

Definition parseQuantity (s : string) : option float64 :=
  let s := TrimSpace s in
  let len := slen s in
  if s =s? "" then None
  else if HasSuffix s "i" && (3 <=? len)%nat then
    match floorBinFactor !! drop_bytes (len - 2) s with
    | Some f => scaled s (len - 2) f
    | None => None
    end
  else if HasSuffix s "m" then scaled s (len - 1) milli
  else match floorDecFactor !! drop_bytes (len - 1) s with
       | Some f => scaled s (len - 1) f
       | None => ParseFloat s
       end.

(** [None] is [ok = false]. *)
Definition quantityLessOrEqual (a b : string) : option bool :=
  match parseQuantity a, parseQuantity b with
  | Some av, Some bv => Some (SFleb av bv)
  | _, _ => None
  end.

(** ** The rules: the reason to deny, or the empty string *)

Implicit Types (rule : FloorRule) (params : gmap string value).

Definition denyUnlessValueIsListed rule params : string :=
  if negb (floorContains (fr_Values rule) (floorParamString params (fr_Param rule)))
  then fr_Message rule else "".

Definition denyUnlessValueCarriesAnApprovedPrefix rule params : string :=
  let v := floorParamString params (fr_Param rule) in
  if negb (v =s? "") && negb (floorHasPrefix v (fr_Values rule)) then fr_Message rule else "".

Definition denyUnlessRequiredPatternIsPresent rule params : string :=
  let v := floorParamString params (fr_Param rule) in
  if negb (v =s? "") &&
     floorContains (fr_WhenIn rule) (floorParamString params (fr_WhenParam rule)) &&
     negb (Contains v (fr_Pattern rule))
  then fr_Message rule else "".

Definition denyUnlessEntryIsWithinItsCap rule (resource : string) (raw : value) : string :=
  match fr_Caps rule !! resource with
  | None => fr_Message rule +:+ " (" +:+ resource +:+ " has no configured cap)"
  | Some limit =>
      match raw with
      | VString want =>
          match quantityLessOrEqual want limit with
          | None => fr_Message rule +:+ " (unparseable quantity for " +:+ resource +:+ ")"
          | Some false => fr_Message rule +:+ " (" +:+ resource +:+ "=" +:+ want
              +:+ " exceeds cap " +:+ limit +:+ ")"
          | Some true => ""
          end
      | _ => fr_Message rule +:+ " (non-string quantity for " +:+ resource +:+ ")"
      end
  end.

(** The first reason that is not empty. *)
Fixpoint first_reason {A} (f : A → string) (l : list A) : string :=
  match l with
  | [] => ""
  | x :: l => if f x =s? "" then first_reason f l else f x
  end.

Definition denyUnlessEveryEntryIsWithinItsCap rule params : string :=
  first_reason (λ '(resource, raw), denyUnlessEntryIsWithinItsCap rule resource raw)
    (map_to_list (floorParamRawMap params (fr_Param rule))).

Definition denyUnlessCallerHoldsTheRequiredRole (ladder : RoleLadder) rule params
    (roles : list Role) : string :=
  if floorWhenMatches params (fr_WhenParam rule) (fr_WhenValue rule) &&
     negb (holdsAtLeast ladder roles (fr_Role rule))
  then fr_Message rule else "".

Definition evalFloorRule (ladder : RoleLadder) rule params (roles : list Role) : string :=
  let kind := fr_Kind rule in
  if kind =s? "allowlist" then denyUnlessValueIsListed rule params
  else if kind =s? "prefix_allowlist" then denyUnlessValueCarriesAnApprovedPrefix rule params
  else if kind =s? "required_pattern_when_in" then denyUnlessRequiredPatternIsPresent rule params
  else if kind =s? "capped_map" then denyUnlessEveryEntryIsWithinItsCap rule params
  else if kind =s? "require_approval_when" then ""
  else if kind =s? "required_role_when"
       then denyUnlessCallerHoldsTheRequiredRole ladder rule params roles
  else "".

(** [None] is [(false, "")]. *)
Definition admitFloor (floors : Floors) (ladder : RoleLadder) (action : string) params
    (roles : list Role) : option string :=
  let reason := first_reason (λ rule, evalFloorRule ladder rule params roles)
                  (get_list floors action) in
  if reason =s? "" then None else Some reason.
End floor.

(** ** The approval gate *)

Definition default_approval_message : string :=
  "this change requires approval by a second person".

(** [None] is [(false, "", nil)]. *)
Fixpoint approval_rules (rules : list FloorRule) (requester subjectID : string)
    (params : gmap string value) : option (string * list Role) :=
  match rules with
  | [] => None
  | rule :: rules =>
      if negb (fr_Kind rule =s? "require_approval_when") then
        approval_rules rules requester subjectID params
      else if negb (floorWhenMatches params (fr_WhenParam rule) (fr_WhenValue rule)) then
        approval_rules rules requester subjectID params
      else if negb (requester =s? "") && negb (requester =s? subjectID) then
        approval_rules rules requester subjectID params
      else
        Some (if fr_Message rule =s? "" then default_approval_message else fr_Message rule,
              if fr_Role rule =s? "" then [] else [fr_Role rule])
  end.

Definition approvalGate (floors : Floors) (action requester subjectID : string)
    (params : gmap string value) : option (string * list Role) :=
  approval_rules (get_list floors action) requester subjectID params.

(** ** Lemmas *)

Lemma first_reason_empty {A} (f : A → string) l :
  first_reason f l = "" ↔ ∀ x, x ∈ l → f x = "".
Proof.
  induction l as [|x l IH]; simpl; [by split; [intros _ y Hy%not_elem_of_nil|]|].
  setoid_rewrite elem_of_cons. destruct (f x =s? "") eqn:E; autorewrite with mk in E; naive_solver.
Qed.

(** A reason found in a prefix is found first in every extension. *)
Lemma first_reason_app {A} (f : A → string) l k :
  first_reason f l ≠ "" → first_reason f (l ++ k) = first_reason f l.
Proof.
  induction l as [|x l IH]; simpl; [done|]. destruct (f x =s? "") eqn:E; [done|].
  by autorewrite with mk in E.
Qed.

Lemma app_not_empty a b : b ≠ "" → a +:+ b ≠ "".
Proof. by destruct a. Qed.

Lemma floorContains_true l v : floorContains l v = true ↔ v ∈ l.
Proof.
  unfold floorContains. rewrite existsb_true. setoid_rewrite eqs_true. naive_solver.
Qed.

Lemma floorHasPrefix_true v l : floorHasPrefix v l = true ↔ ∃ p, p ∈ l ∧ HasPrefix v p = true.
Proof. unfold floorHasPrefix. by rewrite existsb_true. Qed.

#[export] Hint Rewrite floorContains_true floorHasPrefix_true : mk.

Section floor_props.
Context (ParseFloat : string → option spec_float).
Implicit Types (rule : FloorRule) (params : gmap string value).

Notation eval := (evalFloorRule ParseFloat).

(** *** What a rule forbids, stated without the evaluator *)

(** An entry of a capped map is within its cap: the resource has one, the value is a
    quantity that parses, and it is at most the cap. *)
Definition within_cap (caps : gmap string string) (resource : string) (raw : value) : Prop :=
  ∃ limit want a b,
    caps !! resource = Some limit ∧ raw = VString want ∧
    parseQuantity ParseFloat want = Some a ∧ parseQuantity ParseFloat limit = Some b ∧
    SFleb a b = true.

Definition forbids (ladder : RoleLadder) rule params (roles : list Role) : Prop :=
  let v := floorParamString params (fr_Param rule) in
  let kind := fr_Kind rule in
  (kind = "allowlist" ∧ v ∉ fr_Values rule) ∨
  (kind = "prefix_allowlist" ∧ v ≠ "" ∧ ∀ p, p ∈ fr_Values rule → HasPrefix v p = false) ∨
  (kind = "required_pattern_when_in" ∧ v ≠ "" ∧
     floorParamString params (fr_WhenParam rule) ∈ fr_WhenIn rule ∧
     Contains v (fr_Pattern rule) = false) ∨
  (kind = "capped_map" ∧ ∃ resource raw,
     floorParamRawMap params (fr_Param rule) !! resource = Some raw ∧
     ¬ within_cap (fr_Caps rule) resource raw) ∨
  (kind = "required_role_when" ∧
     floorWhenMatches params (fr_WhenParam rule) (fr_WhenValue rule) = true ∧
     holdsAtLeast ladder roles (fr_Role rule) = false).

(** A rule refuses a request it forbids, provided it has a reason to give: the reason of
    a rule is its message, so a rule whose message is empty refuses nothing, capped maps
    apart, whose reason always says which entry is at fault. *)
Definition has_reason rule : Prop := fr_Message rule ≠ "" ∨ fr_Kind rule = "capped_map".

Definition refuses (ladder : RoleLadder) rule params (roles : list Role) : Prop :=
  has_reason rule ∧ forbids ladder rule params roles.

Lemma quantityLessOrEqual_Some a b le :
  quantityLessOrEqual ParseFloat a b = Some le ↔
    ∃ av bv, parseQuantity ParseFloat a = Some av ∧ parseQuantity ParseFloat b = Some bv ∧
      SFleb av bv = le.
Proof.
  unfold quantityLessOrEqual.
  destruct (parseQuantity _ a), (parseQuantity _ b); naive_solver.
Qed.

Lemma denyUnlessEntryIsWithinItsCap_empty rule resource raw :
  denyUnlessEntryIsWithinItsCap ParseFloat rule resource raw = "" ↔
    within_cap (fr_Caps rule) resource raw.
Proof.
  unfold denyUnlessEntryIsWithinItsCap, within_cap. split.
  - destruct (fr_Caps rule !! resource) as [limit|] eqn:Hc;
      [|intros H; by apply app_not_empty in H].
    destruct raw; try (intros H; by apply app_not_empty in H).
    destruct (quantityLessOrEqual _ _ _) as [[]|] eqn:Hq;
      try (intros H; by apply app_not_empty in H).
    intros _. apply quantityLessOrEqual_Some in Hq. naive_solver.
  - intros (limit & want & a & b & -> & -> & Ha & Hb & Hle).
    assert (quantityLessOrEqual ParseFloat want limit = Some true) as ->; [|done].
    apply quantityLessOrEqual_Some. eauto.
Qed.

Lemma capped_map_empty rule params :
  denyUnlessEveryEntryIsWithinItsCap ParseFloat rule params = "" ↔
    ∀ resource raw, floorParamRawMap params (fr_Param rule) !! resource = Some raw →
      within_cap (fr_Caps rule) resource raw.
Proof.
  unfold denyUnlessEveryEntryIsWithinItsCap. rewrite first_reason_empty. split.
  - intros H resource raw Hin. apply denyUnlessEntryIsWithinItsCap_empty.
    by apply (H (resource, raw)), elem_of_map_to_list.
  - intros H [resource raw] Hin%elem_of_map_to_list.
    by apply denyUnlessEntryIsWithinItsCap_empty, H.
Qed.

Lemma first_reason_found {A} (f : A → string) l :
  first_reason f l ≠ "" → ∃ x, x ∈ l ∧ f x ≠ "" ∧ first_reason f l = f x.
Proof.
  induction l as [|x l IH]; simpl; [done|]. setoid_rewrite elem_of_cons.
  destruct (f x =s? "") eqn:E; autorewrite with mk in E; naive_solver.
Qed.

Lemma first_reason_denies {A} (f : A → string) l x :
  x ∈ l → f x ≠ "" → first_reason f l ≠ "".
Proof. intros Hx Hf H. by eapply first_reason_empty in H. Qed.

Lemma message_unless (b : bool) (message : string) : message ≠ "" → (if b then message else "") ≠ "" ↔ b = true.
Proof. by destruct b. Qed.

Lemma capped_map_denies rule params :
  denyUnlessEveryEntryIsWithinItsCap ParseFloat rule params ≠ "" ↔
    ∃ resource raw, floorParamRawMap params (fr_Param rule) !! resource = Some raw ∧
      ¬ within_cap (fr_Caps rule) resource raw.
Proof.
  split.
  - intros ([resource raw] & Hin & Hr & _)%first_reason_found.
    apply elem_of_map_to_list in Hin. exists resource, raw. split; [done|].
    by rewrite <- denyUnlessEntryIsWithinItsCap_empty.
  - intros (resource & raw & Hin & Hcap) H. destruct Hcap. by eapply capped_map_empty in H.
Qed.

(** A rule with a message denies exactly what it forbids. *)
Lemma worded_rule_denies ladder rule params roles :
  fr_Message rule ≠ "" →
  eval ladder rule params roles ≠ "" ↔ forbids ladder rule params roles.
Proof.
  intros Hm. unfold evalFloorRule, forbids. cbv zeta.
  destruct (fr_Kind rule =s? "allowlist") eqn:E1; autorewrite with mk in E1.
  { rewrite E1. unfold denyUnlessValueIsListed. rewrite message_unless by done.
    rewrite negb_true_iff, <- not_true_iff_false. autorewrite with mk. naive_solver. }
  destruct (fr_Kind rule =s? "prefix_allowlist") eqn:E2; autorewrite with mk in E2.
  { rewrite E2. unfold denyUnlessValueCarriesAnApprovedPrefix. rewrite message_unless by done.
    rewrite andb_true_iff, !negb_true_iff, eqs_false.
    unfold floorHasPrefix. rewrite existsb_false. naive_solver. }
  destruct (fr_Kind rule =s? "required_pattern_when_in") eqn:E3; autorewrite with mk in E3.
  { rewrite E3. unfold denyUnlessRequiredPatternIsPresent. rewrite message_unless by done.
    rewrite !andb_true_iff, !negb_true_iff, eqs_false, floorContains_true. naive_solver. }
  destruct (fr_Kind rule =s? "capped_map") eqn:E4; autorewrite with mk in E4.
  { rewrite E4, capped_map_denies. naive_solver. }
  destruct (fr_Kind rule =s? "require_approval_when") eqn:E5; autorewrite with mk in E5.
  { rewrite E5. naive_solver. }
  destruct (fr_Kind rule =s? "required_role_when") eqn:E6; autorewrite with mk in E6.
  { rewrite E6. unfold denyUnlessCallerHoldsTheRequiredRole. rewrite message_unless by done.
    rewrite andb_true_iff, negb_true_iff. naive_solver. }
  naive_solver.
Qed.

(** Every reason contains the rule's message. *)
Lemma silent_rule_never_denies ladder rule params roles :
  fr_Message rule = "" → fr_Kind rule ≠ "capped_map" → eval ladder rule params roles = "".
Proof.
  intros Hm Hk. unfold evalFloorRule. cbv zeta. apply eqs_false in Hk. rewrite Hk.
  unfold denyUnlessValueIsListed, denyUnlessValueCarriesAnApprovedPrefix,
    denyUnlessRequiredPatternIsPresent, denyUnlessCallerHoldsTheRequiredRole.
  rewrite Hm. by repeat case_match.
Qed.

(** A rule gives a reason exactly when it refuses. *)
Lemma evalFloorRule_denies ladder rule params roles :
  eval ladder rule params roles ≠ "" ↔ refuses ladder rule params roles.
Proof.
  unfold refuses, has_reason. destruct (decide (fr_Message rule = "")) as [Hm|Hm].
  - destruct (decide (fr_Kind rule = "capped_map")) as [Hk|Hk].
    + unfold evalFloorRule, forbids. cbv zeta. rewrite Hk. simpl.
      rewrite capped_map_denies. naive_solver.
    + rewrite silent_rule_never_denies by done. naive_solver.
  - rewrite worded_rule_denies by done. naive_solver.
Qed.

Lemma admitFloor_None floors ladder action params roles :
  admitFloor ParseFloat floors ladder action params roles = None ↔
    ∀ rule, rule ∈ get_list floors action → eval ladder rule params roles = "".
Proof.
  unfold admitFloor. cbv zeta. rewrite <- first_reason_empty.
  destruct (_ =s? "") eqn:E; autorewrite with mk in E; naive_solver.
Qed.

Lemma admitFloor_Some floors ladder action params roles reason :
  admitFloor ParseFloat floors ladder action params roles = Some reason →
  reason ≠ "" ∧ ∃ rule, rule ∈ get_list floors action ∧
    refuses ladder rule params roles ∧ reason = eval ladder rule params roles.
Proof.
  unfold admitFloor. cbv zeta.
  destruct (_ =s? "") eqn:E; [done|]. autorewrite with mk in E. intros [= <-].
  split; [done|]. apply first_reason_found in E as (rule & Hin & Hne & ->).
  exists rule. by rewrite <- evalFloorRule_denies.
Qed.

Lemma admitFloor_is_Some floors ladder action params roles :
  is_Some (admitFloor ParseFloat floors ladder action params roles) ↔
    ∃ rule, rule ∈ get_list floors action ∧ refuses ladder rule params roles.
Proof.
  split.
  - intros [reason Hr]. apply admitFloor_Some in Hr; naive_solver.
  - intros (rule & Hin & Hf). destruct (admitFloor ParseFloat _ _ _ _ _) eqn:E; [by eexists|].
    rewrite admitFloor_None in E. apply evalFloorRule_denies in Hf. by rewrite E in Hf.
Qed.

(** ** Properties of the floor *)

(** C31: the floor denies exactly the requests a rule refuses. [admitFloor] denies if and
    only if one of the action's rules forbids the request and has a reason to give: it
    forbids an unlisted value, an unapproved prefix, a missing pattern, a resource
    without a cap or over it (a quantity that is not text or does not parse is over), or
    a caller below the required role; it has a reason when it carries a message or is a
    capped map, whose reason names the entry (a rule of another kind without a message
    forbids and refuses nothing). The reason given is that of a rule that refuses. *)
Theorem floor_denies_exactly floors ladder action params roles :
  (is_Some (admitFloor ParseFloat floors ladder action params roles) ↔
     ∃ rule, rule ∈ get_list floors action ∧ refuses ladder rule params roles) ∧
  ∀ reason, admitFloor ParseFloat floors ladder action params roles = Some reason →
    reason ≠ "" ∧ ∃ rule, rule ∈ get_list floors action ∧
      refuses ladder rule params roles ∧ reason = eval ladder rule params roles.
Proof.
  split; [by apply admitFloor_is_Some|]. intros reason. by apply admitFloor_Some.
Qed.

(** A deny rule with no message denies nothing. Removing every rule whose message is
    empty, capped maps apart, leaves every verdict and every reason of the floor as they
    were: such a rule is loaded and evaluated and lets everything through. *)
Theorem silent_rules_are_inert floors ladder action params roles :
  admitFloor ParseFloat floors ladder action params roles =
  admitFloor ParseFloat (filter (λ rule, fr_Message rule ≠ "" ∨ fr_Kind rule = "capped_map") <$> floors)
    ladder action params roles.
Proof.
  unfold admitFloor, get_list. rewrite lookup_fmap.
  destruct (floors !! action) as [rules|]; simpl; [|done].
  assert (∀ l, first_reason (λ rule, eval ladder rule params roles)
      (filter (λ rule, fr_Message rule ≠ "" ∨ fr_Kind rule = "capped_map") l) =
    first_reason (λ rule, eval ladder rule params roles) l) as ->; [|done].
  induction l as [|rule l IH]; [done|]. rewrite filter_cons. case_decide as Hd; simpl.
  - by rewrite IH.
  - rewrite IH, silent_rule_never_denies, eqs_refl; [done| |].
    + destruct (decide (fr_Message rule = "")); naive_solver.
    + naive_solver.
Qed.

Lemma extended_floor_denies floors floors' ladder action params roles reason :
  floors_extend floors floors' →
  admitFloor ParseFloat floors ladder action params roles = Some reason →
  admitFloor ParseFloat floors' ladder action params roles = Some reason.
Proof.
  intros Hext. unfold admitFloor. cbv zeta. destruct (Hext action) as [k ->].
  destruct (first_reason _ (get_list floors action) =s? "") eqn:E; [done|].
  autorewrite with mk in E. intros [= <-]. rewrite first_reason_app by done.
  by destruct (_ =s? "") eqn:E2; autorewrite with mk in E2.
Qed.

(** A product can only tighten. What the baseline's floor denies, the floor of any
    platform and product documents loaded over it still denies, for the same reason. *)
Theorem layered_floors_only_tighten base plat docs floors ladder action params roles reason
    (Hload : LoadFloors (Ok base) (Ok plat) (Ok docs) = Ok floors)
    (Hdeny : admitFloor ParseFloat base ladder action params roles = Some reason) :
  admitFloor ParseFloat floors ladder action params roles = Some reason.
Proof.
  simpl in Hload. injection Hload as <-. eapply extended_floor_denies; [|done].
  apply appendLayeredFloors_extend.
Qed.
End floor_props.

Definition asks (params : gmap string value) (rule : FloorRule) : bool :=
  (fr_Kind rule =s? "require_approval_when") &&
  floorWhenMatches params (fr_WhenParam rule) (fr_WhenValue rule).

(** Who asked does not depend on the rule, so the gate is the first rule that asks. *)
Lemma approval_rules_find rules requester subjectID params :
  approval_rules rules requester subjectID params =
    if negb (requester =s? "") && negb (requester =s? subjectID) then None
    else (λ rule, (if fr_Message rule =s? "" then default_approval_message else fr_Message rule,
                   if fr_Role rule =s? "" then [] else [fr_Role rule]))
           <$> find (asks params) rules.
Proof.
  induction rules as [|rule rules IH]; simpl; [by case_match|].
  unfold asks at 1. rewrite !IH. destruct (fr_Kind rule =s? _); simpl; [|done].
  destruct (floorWhenMatches _ _ _); simpl; [|done]. by case_match.
Qed.

Lemma asks_true params rule :
  asks params rule = true ↔ fr_Kind rule = "require_approval_when" ∧
    floorWhenMatches params (fr_WhenParam rule) (fr_WhenValue rule) = true.
Proof. unfold asks. by rewrite andb_true_iff, eqs_true. Qed.

Lemma find_is_Some {A} (f : A → bool) l : is_Some (find f l) ↔ ∃ x, x ∈ l ∧ f x = true.
Proof.
  rewrite <- existsb_true. induction l as [|x l IH]; simpl; [by split; [intros []|]|].
  destruct (f x); simpl; [by split; [|by eexists]|done].
Qed.

Lemma find_Some_elem {A} (f : A → bool) l x : find f l = Some x → x ∈ l ∧ f x = true.
Proof. intros H%find_some. by rewrite list_elem_of_In. Qed.

Lemma approvalGate_is_Some floors action requester subjectID params :
  is_Some (approvalGate floors action requester subjectID params) ↔
    (requester = "" ∨ requester = subjectID) ∧
    ∃ rule, rule ∈ get_list floors action ∧ asks params rule = true.
Proof.
  unfold approvalGate. rewrite approval_rules_find.
  destruct (requester =s? "") eqn:H1, (requester =s? subjectID) eqn:H2;
    autorewrite with mk in H1, H2; cbn [negb andb].
  4: split; [by intros []|naive_solver].
  all: rewrite fmap_is_Some, find_is_Some; naive_solver.
Qed.

(** The approval gate. It asks for a second person exactly when some
    [require_approval_when] rule of the action matches the request and nobody else asked
    for it (no requester is named, or it is the caller); the message is never empty, and
    the approvers are that rule's role, if it names one. *)
Theorem approval_gate_exactly floors action requester subjectID params :
  (is_Some (approvalGate floors action requester subjectID params) ↔
     (requester = "" ∨ requester = subjectID) ∧
     ∃ rule, rule ∈ get_list floors action ∧ fr_Kind rule = "require_approval_when" ∧
       floorWhenMatches params (fr_WhenParam rule) (fr_WhenValue rule) = true) ∧
  ∀ reason approvers,
    approvalGate floors action requester subjectID params = Some (reason, approvers) →
    reason ≠ "" ∧ ∃ rule, rule ∈ get_list floors action ∧
      fr_Kind rule = "require_approval_when" ∧
      ∀ role, role ∈ approvers ↔ role = fr_Role rule ∧ role ≠ "".
Proof.
  setoid_rewrite <- asks_true. split; [apply approvalGate_is_Some|].
  intros reason approvers. unfold approvalGate. rewrite approval_rules_find.
  case_match; [done|]. intros (rule & Hf & [= -> ->])%fmap_Some.
  apply find_Some_elem in Hf as [Hin [Hk _]%asks_true].
  split; [destruct (fr_Message rule =s? "") eqn:E; autorewrite with mk in E; done|].
  exists rule. split_and!; [done..|]. intros role.
  destruct (fr_Role rule =s? "") eqn:E; autorewrite with mk in E; set_solver.
Qed.

(** ** Witnesses *)

(** Unsigned decimal integers, enough for the demo. *)
Fixpoint demo_digits (acc : Z) (s : string) : option Z :=
  match s with
  | EmptyString => Some acc
  | String c s =>
      let n := N_of_ascii c in
      if (48 <=? n)%N && (n <=? 57)%N then demo_digits (10 * acc + (Z.of_N n - 48)) s else None
  end.
Definition demo_ParseFloat (s : string) : option spec_float :=
  if s =s? "" then None else float_of <$> demo_digits 0 s.

Definition demo_cap : FloorRule :=
  mkFloorRule "capped_map" "quota" [] {["cpu" := "8"; "memory" := "16Gi"]} "" [] "" "" ""
    "over the team quota".
Definition demo_approval : FloorRule :=
  mkFloorRule "require_approval_when" "" [] ∅ "env" [] "prod" "" RoleArchitect "prod needs a second".
Definition demo_floors : Floors :=
  {["namespace.create" := [demo_cap; demo_approval]]}.

Definition demo_request (memory : string) : gmap string value :=
  {["quota" := VStringMap {["cpu" := "500m"; "memory" := memory]}; "env" := VString "prod"]}.

Lemma floor_denies_exactly_witness :
  admitFloor demo_ParseFloat demo_floors DefaultRoleLadder "namespace.create"
    (demo_request "16384Mi") [] = None ∧
  admitFloor demo_ParseFloat demo_floors DefaultRoleLadder "namespace.create"
    (demo_request "17Gi") [] = Some "over the team quota (memory=17Gi exceeds cap 16Gi)" ∧
  ∃ rule, rule ∈ get_list demo_floors "namespace.create" ∧
    refuses demo_ParseFloat DefaultRoleLadder rule (demo_request "17Gi") [].
Proof.
  split; [by vm_compute|]. split; [by vm_compute|].
  apply (floor_denies_exactly demo_ParseFloat demo_floors DefaultRoleLadder "namespace.create"
    (demo_request "17Gi") []).
  eexists. by vm_compute.
Defined.

Lemma layered_floors_only_tighten_witness :
  admitFloor demo_ParseFloat
    (appendLayeredFloors None [mkProductDoc ∅ [] demo_floors [] "team.json"] demo_floors)
    DefaultRoleLadder "namespace.create" (demo_request "17Gi") []
    = Some "over the team quota (memory=17Gi exceeds cap 16Gi)".
Proof.
  apply (layered_floors_only_tighten demo_ParseFloat demo_floors None
    [mkProductDoc ∅ [] demo_floors [] "team.json"]); [done|by vm_compute].
Defined.
