(* ===== verification/Engine.v ===== *)
(** The decision engine: [internal/policy] rbac.go, precedence.go, provider.go, order.go,
    grants_live.go, grants_load.go, inforce.go, namespace.go and failsafe.go.

    [Evaluate] is a fixed chain of checks against the policy snapshot in force, a role
    cascade and the registered product adapters. The engine loads the snapshot pointer
    once per check and not once per decision, so [Evaluate] takes the snapshot each of
    its loads saw; a decision no reload falls into is the case where all are the same. *)
From S2P Require Import Prelude Utf8 Contracts Cascade Grants Floors.

(** ** namespace.go *)

Definition NamespaceEnv : string := "MANTLEKEEP_POLICY_NAMESPACE".
Definition brandEnv : string := "MANTLEKEEP_BRAND_NAME".
Definition defaultNamespace : string := "mantlekeep".

Definition is_id_char (c : ascii) : bool :=
  let n := N_of_ascii c in
  ((97 <=? n) && (n <=? 122))%N || ((48 <=? n) && (n <=? 57))%N.

(** The builder [b] and [lastWasDash], over the bytes of the lowered name. *)
Fixpoint identifier_loop (s : string) (b : string) (lastWasDash : bool) : string :=
  match s with
  | EmptyString => b
  | String c s =>
      if is_id_char c then identifier_loop s (b +:+ String c "") false
      else if negb lastWasDash && (0 <? slen b)%nat then identifier_loop s (b +:+ "-") true
      else identifier_loop s b lastWasDash
  end.

(** [strings.Trim(s, "-")] *)
Fixpoint trim_left_dash (s : string) : string :=
  match s with
  | String "-" s => trim_left_dash s
  | _ => s
  end.
Definition trim_dash (s : string) : string := srev (trim_left_dash (srev (trim_left_dash s))).

Definition identifier (displayName : string) : string :=
  let out := trim_dash (identifier_loop (ToLower displayName) "" false) in
  if out =s? "" then defaultNamespace else out.

Definition namespace (Getenv : string → string) : string :=
  let explicit := TrimSpace (Getenv NamespaceEnv) in
  if negb (explicit =s? "") then identifier explicit
  else let brand := TrimSpace (Getenv brandEnv) in
       if negb (brand =s? "") then identifier brand else defaultNamespace.

Definition policyID (Getenv : string → string) (kind : string) : string :=
  namespace Getenv +:+ "." +:+ kind.

(** Whatever the environment holds, the id is ASCII. *)
Lemma identifier_loop_ascii s b dash :
  ascii_text b = true → ascii_text (identifier_loop s b dash) = true.
Proof.
  revert b dash. induction s as [|c s IH]; intros b dash Hb; [done|]. cbn [identifier_loop].
  destruct (is_id_char c) eqn:Hc; [|destruct (negb dash && _)]; apply IH; [| |done];
    rewrite ascii_text_app, Hb, andb_true_l; [|done].
  unfold ascii_text. cbn [all_chars]. unfold is_id_char, byte_in in *.
  cbv zeta in Hc. apply orb_true_iff in Hc as [[H1 H2]%andb_true_iff|[H1 H2]%andb_true_iff];
    apply N.leb_le in H1, H2; rewrite andb_true_r; apply andb_true_iff; split; apply N.leb_le; lia.
Qed.

Lemma trim_left_dash_ascii s : ascii_text s = true → ascii_text (trim_left_dash s) = true.
Proof.
  induction s as [|c s IH]; [done|]. intros H. assert (ascii_text s = true) as Hs
    by (unfold ascii_text in H; cbn [all_chars] in H; by apply andb_true_iff in H as [_ H]).
  destruct c as [[] [] [] [] [] [] [] []]; first [exact H|exact (IH Hs)].
Qed.

Lemma identifier_text s : ascii_text (identifier s) = true.
Proof.
  unfold identifier. cbv zeta. case_match; [done|]. unfold trim_dash.
  rewrite ascii_text_srev. apply trim_left_dash_ascii. rewrite ascii_text_srev.
  by apply trim_left_dash_ascii, identifier_loop_ascii.
Qed.

Lemma policyID_text Getenv kind : ascii_text kind = true → ValidString (policyID Getenv kind) = true.
Proof.
  intros Hk. apply ascii_valid. unfold policyID, namespace. cbv zeta.
  assert (∀ s, ascii_text s = true → ascii_text (s +:+ "." +:+ kind) = true) as Happ
    by (intros s Hs; by rewrite !ascii_text_app, Hs, Hk).
  repeat case_match; apply Happ; [apply identifier_text..|done].
Qed.

(** ** grants_live.go: the snapshot *)

Record grantsSnapshot := mkGrantsSnapshot {
  snap_roleActions : gmap string (gset string);
  snap_approvalActions : gset string;
  snap_floors : Floors;
  snap_revision : string;
}.

(** [RevisionOfDocuments] is an argument: the digest of the JSON of the two documents.
    A nil document is [None]. *)
Definition buildSnapshot (RevisionOfDocuments : Grants → Floors → string)
    (held : option Grants) (floors : option Floors) : result string grantsSnapshot :=
  match held, floors with
  | Some held, Some floors =>
      Ok (mkGrantsSnapshot
            ((to_set <$> RoleActions held) ∪ {["L0-SuperAdmin" := {["*"]}]})
            (to_set (ApprovalActions held)) floors (RevisionOfDocuments held floors))
  | _, _ => Err "policy snapshot: documents must not be nil"
  end.

(** [granted[action]] on a map of sets; an absent role holds nothing. *)
Definition set_at (m : gmap string (gset string)) (role : string) : gset string :=
  default ∅ (m !! role).

(** ** provider.go *)

Record PolicyProvider := mkPolicyProvider {
  prov_Name : string;
  prov_Actions : list string;
  prov_RoleActions : gmap string (list string);
  prov_Admit : PolicyIntent → list Role → option string;
}.

Definition HoldsAtLeast (roles : list Role) (need : Role) : bool :=
  holdsAtLeast DefaultRoleLadder roles need.

(** ** rbac.go *)

Record RBAC := mkRBAC {
  rb_dyn : option ActionAuthorizer;
  rb_scopes : option ScopeResolver;
  rb_providers : list PolicyProvider;
  rb_byAction : gmap string PolicyProvider;
  rb_providerRoleActions : gmap string (gset string);
  rb_ladder : RoleLadder;
}.

Definition NewRBAC : RBAC := mkRBAC None None [] ∅ ∅ DefaultRoleLadder.

Definition rankLadder (r : RBAC) : RoleLadder :=
  if bool_decide (rb_ladder r = ∅) then DefaultRoleLadder else rb_ladder r.

Definition WithRoleLadder (r : RBAC) (l : RoleLadder) : RBAC :=
  if bool_decide (l = ∅) then r
  else mkRBAC (rb_dyn r) (rb_scopes r) (rb_providers r) (rb_byAction r)
         (rb_providerRoleActions r) l.

Definition WithDynamic (r : RBAC) (a : option ActionAuthorizer) : RBAC :=
  mkRBAC a (rb_scopes r) (rb_providers r) (rb_byAction r) (rb_providerRoleActions r) (rb_ladder r).

Definition indexProviderActions (p : PolicyProvider) (byAction : gmap string PolicyProvider) :
    gmap string PolicyProvider :=
  foldl (λ m a, <[a := p]> m) byAction (prov_Actions p).

Definition foldInProviderRoleActions (p : PolicyProvider) (m : gmap string (gset string)) :
    gmap string (gset string) :=
  map_fold (λ role acts m, <[role := set_at m role ∪ to_set acts]> m) m (prov_RoleActions p).

(** A nil provider is [None]. *)
Definition WithProvider (r : RBAC) (p : option PolicyProvider) : RBAC :=
  match p with
  | None => r
  | Some p =>
      mkRBAC (rb_dyn r) (rb_scopes r) (rb_providers r ++ [p])
        (indexProviderActions p (rb_byAction r))
        (foldInProviderRoleActions p (rb_providerRoleActions r)) (rb_ladder r)
  end.

Definition WithProviders (r : RBAC) (ps : list (option PolicyProvider)) : RBAC :=
  foldl WithProvider r ps.

Definition WithScopes (r : RBAC) (sr : option ScopeResolver) : RBAC :=
  mkRBAC (rb_dyn r) sr (rb_providers r) (rb_byAction r) (rb_providerRoleActions r) (rb_ladder r).

(** [KnownActions]: every action of every role, the wildcard apart, sorted. *)
Definition KnownActions (s : grantsSnapshot) : list string :=
  sorted_elements
    (map_fold (λ _ actions seen, filter (λ a, a ≠ "*") actions ∪ seen) ∅ (snap_roleActions s)).

(** ** The snapshots one evaluation loads *)

(** The loads of the live pointer in one [Evaluate], in program order: the approval
    actions, the role grants (once per role of the subject), the floors for the attribute
    floor and the floors for the approval gate. *)
Inductive live_read :=
| ReadApprovalActions
| ReadRoleActions (i : nat)
| ReadFloors
| ReadApprovalGate.

Notation live_policy := (live_read → grantsSnapshot) (only parsing).

(** No reload falls into the evaluation. *)
Definition steady (s : grantsSnapshot) : live_policy := λ _, s.

(** ** precedence.go *)

Fixpoint grantedByDocument_from (i : nat) (live : live_policy) (r : RBAC) (roles : list string)
    (action : string) : bool :=
  match roles with
  | [] => false
  | role :: roles =>
      let granted := set_at (snap_roleActions (live (ReadRoleActions i))) role in
      if in_set granted "*" || in_set granted action then true
      else if in_set (set_at (rb_providerRoleActions r) role) action then true
      else grantedByDocument_from (S i) live r roles action
  end.

Definition grantedByDocument (live : live_policy) (r : RBAC) (roles : list string)
    (action : string) : bool :=
  grantedByDocument_from 0 live r roles action.

Definition actionAllowed (live : live_policy) (r : RBAC) (roles : list string)
    (action : string) (dyn : option ActionAuthorizer) : bool :=
  match dyn with
  | Some required =>
      match required action with
      | Some need => holdsAtLeast (rankLadder r) roles need
      | None => grantedByDocument live r roles action
      end
  | None => grantedByDocument live r roles action
  end.

Section engine.
Context (ParseFloat : string → option SpecFloat.spec_float) (Getenv : string → string).

Definition deny (category : DenialCategory) (step reason : string) : Decision :=
  mkDecision ActionDeny reason category [] (policyID Getenv "rbac") [reason] step.

Definition allowed : Decision := mkDecision ActionAllow "" "" [] (policyID Getenv "rbac") [] "".

(** Resolving a scope leaves its cascade in the resolver's cache. *)
Definition authorizerFor (r : RBAC) (input : PolicyInput) : option ActionAuthorizer * RBAC :=
  let scope := pi_Scope (in_Intent input) in
  match rb_scopes r with
  | Some scopes =>
      if negb (scope =s? "") && Has scopes scope then
        let '(res, scopes) := For scopes scope in
        (Some (RequiredRole res), WithScopes r (Some scopes))
      else (rb_dyn r, r)
  | None => (rb_dyn r, r)
  end.

(** What the adapter owning the action says, if one does. *)
Definition product_denies (r : RBAC) (input : PolicyInput) : option string :=
  match rb_byAction r !! pi_Action (in_Intent input) with
  | Some p => prov_Admit p (in_Intent input) (ps_Roles (in_Subject input))
  | None => None
  end.

Definition Evaluate (live : live_policy) (r : RBAC) (input : PolicyInput) : Decision * RBAC :=
  let roles := ps_Roles (in_Subject input) in
  let subjectID := ps_ID (in_Subject input) in
  let isAI := ps_IsAI (in_Subject input) in
  let action := pi_Action (in_Intent input) in
  let goal := pi_Goal (in_Intent input) in
  let requester := pi_Requester (in_Intent input) in
  let params := pi_Params (in_Intent input) in
  if goal =s? "" then
    (deny DenialValidation StepGoalStated "intent_spec.goal is required", r)
  else if isAI && in_set (snap_approvalActions (live ReadApprovalActions)) action then
    (deny DenialSeparationOfDuties StepAINotApproving
       ("AI agents cannot approve: " +:+ action), r)
  else
    let '(dyn, r) := authorizerFor r input in
    if negb (actionAllowed live r roles action dyn) then
      (deny DenialActionNotAllowed StepRolePermits ("no role permits action " +:+ action), r)
    else if negb (requester =s? "") && (requester =s? subjectID) then
      (deny DenialSeparationOfDuties StepSeparationOfDuties
         "separation of duties: the approver cannot be the requester", r)
    else match product_denies r input with
    | Some reason => (deny DenialFloor StepProductAdmits reason, r)
    | None =>
    match admitFloor ParseFloat (snap_floors (live ReadFloors)) (rankLadder r) action params roles with
    | Some reason => (deny DenialFloor StepAttributeFloor reason, r)
    | None =>
    match approvalGate (snap_floors (live ReadApprovalGate)) action requester subjectID params with
    | Some (reason, approvers) =>
        (mkDecision ActionRequireApproval reason "" approvers (policyID Getenv "rbac") []
           StepApprovalGate, r)
    | None => (allowed, r)
    end end end.

(** ** The per-step check *)

Record StepAuth := mkStepAuth {
  sa_Subject : PolicySubject;
  sa_Action : string;
  sa_Step : string;
  sa_RunAs : Role;
  sa_Author : string;
  sa_RequireApproval : bool;
}.

Definition EvaluateStep (r : RBAC) (i : StepAuth) : Decision :=
  let roles := ps_Roles (sa_Subject i) in
  if negb (sa_RunAs i =s? "") && negb (holdsAtLeast (rankLadder r) roles (sa_RunAs i)) then
    deny DenialActionNotAllowed StepRolePermits
      ("step " +:+ sa_Step i +:+ ": no role permits it (requires " +:+ sa_RunAs i +:+ ")")
  else if sa_RequireApproval i then
    if ps_IsAI (sa_Subject i) then
      deny DenialSeparationOfDuties StepAINotApproving
        ("step " +:+ sa_Step i +:+ ": AI agents cannot satisfy separation of duties")
    else if negb (sa_Author i =s? "") && (sa_Author i =s? ps_ID (sa_Subject i)) then
      deny DenialSeparationOfDuties StepSeparationOfDuties
        ("separation of duties: the author of step " +:+ sa_Step i +:+ " cannot trigger it")
    else allowed
  else allowed.

(** ** failsafe.go *)

Definition isRead (action : string) : bool :=
  if action =s? "" then false
  else existsb (HasSuffix action) [".read"; ".view"; ".list"; ".status"; ".get"].

Definition failsafe_warning : string := "policy degraded to cached read-only mode".

Definition readOnly (input : PolicyInput) : Decision :=
  if isRead (pi_Action (in_Intent input)) then
    mkDecision ActionAllow "failsafe: read-only mode — read permitted" "" []
      (policyID Getenv "failsafe") [failsafe_warning] ""
  else
    mkDecision ActionDeny "failsafe: read-only mode — writes are suspended" DenialFloor []
      (policyID Getenv "failsafe") [failsafe_warning] "".

(** A primary evaluator and the trip switch. *)
Record Failsafe := mkFailsafe {
  fs_primary : PolicyInput → result go_error Decision;
  fs_tripped : bool;
}.

Definition NewFailsafe (primary : PolicyInput → result go_error Decision) : Failsafe :=
  mkFailsafe primary false.
Definition Trip (f : Failsafe) : Failsafe := mkFailsafe (fs_primary f) true.
Definition Reset_ (f : Failsafe) : Failsafe := mkFailsafe (fs_primary f) false.

Definition Failsafe_Evaluate (f : Failsafe) (input : PolicyInput) : Decision :=
  if fs_tripped f then readOnly input
  else match fs_primary f input with
       | Err _ => readOnly input
       | Ok d => d
       end.
End engine.

(** ** order.go *)

Definition EvaluationOrder : list EvaluationStep :=
  [mkEvaluationStep StepGoalStated ActionDeny SourceEngine;
   mkEvaluationStep StepAINotApproving ActionDeny SourceEngine;
   mkEvaluationStep StepRolePermits ActionDeny SourcePolicy;
   mkEvaluationStep StepSeparationOfDuties ActionDeny SourceEngine;
   mkEvaluationStep StepProductAdmits ActionDeny SourcePolicy;
   mkEvaluationStep StepAttributeFloor ActionDeny SourcePolicy;
   mkEvaluationStep StepApprovalGate ActionRequireApproval SourcePolicy].

(** ** Lemmas *)

(** A document gives one of the roles the action: its own set, the wildcard, or a
    provider's grant. *)
Definition document_grants (live : live_policy) (r : RBAC) (roles : list string)
    (action : string) : Prop :=
  ∃ i role, roles !! i = Some role ∧
    let granted := set_at (snap_roleActions (live (ReadRoleActions i))) role in
    ("*" ∈ granted ∨ action ∈ granted ∨ action ∈ set_at (rb_providerRoleActions r) role).

Lemma grantedByDocument_from_true j live r roles action :
  grantedByDocument_from j live r roles action = true ↔
    ∃ i role, roles !! i = Some role ∧
      let granted := set_at (snap_roleActions (live (ReadRoleActions (j + i)))) role in
      ("*" ∈ granted ∨ action ∈ granted ∨ action ∈ set_at (rb_providerRoleActions r) role).
Proof.
  revert j. induction roles as [|role roles IH]; intros j; simpl.
  { split; [done|]. by intros (i & role & Hi & _). }
  rewrite <- !orb_lazy_alt, !orb_true_iff, !in_set_true, IH. split.
  - intros [[]|[|(i & role' & Hi & H)]].
    1-3: exists 0, role; rewrite Nat.add_0_r; naive_solver.
    exists (S i), role'. rewrite Nat.add_succ_r. done.
  - intros ([|i] & role' & Hi & H); simpl in Hi.
    + injection Hi as ->. rewrite Nat.add_0_r in H. naive_solver.
    + rewrite Nat.add_succ_r in H. right. right. by exists i, role'.
Qed.

Lemma grantedByDocument_true live r roles action :
  grantedByDocument live r roles action = true ↔ document_grants live r roles action.
Proof. apply (grantedByDocument_from_true 0). Qed.

(** The role the cascade requires for the action, if it names one. *)
Definition cascade_role (dyn : option ActionAuthorizer) (action : string) : option Role :=
  match dyn with Some required => required action | None => None end.

Lemma actionAllowed_eq live r roles action dyn :
  actionAllowed live r roles action dyn =
    match cascade_role dyn action with
    | Some need => holdsAtLeast (rankLadder r) roles need
    | None => grantedByDocument live r roles action
    end.
Proof. unfold actionAllowed, cascade_role. by destruct dyn. Qed.

Lemma actionAllowed_true live r roles action dyn :
  actionAllowed live r roles action dyn = true ↔
    match cascade_role dyn action with
    | Some need => holdsAtLeast (rankLadder r) roles need = true
    | None => document_grants live r roles action
    end.
Proof. rewrite actionAllowed_eq. by case_match; rewrite ?grantedByDocument_true. Qed.

Section engine_props.
Context (ParseFloat : string → option SpecFloat.spec_float) (Getenv : string → string).

(** Caching a scope changes nothing the checks read. *)
Lemma authorizerFor_same r input :
  rankLadder (authorizerFor r input).2 = rankLadder r ∧
  product_denies (authorizerFor r input).2 input = product_denies r input ∧
  ∀ live roles action dyn,
    actionAllowed live (authorizerFor r input).2 roles action dyn =
    actionAllowed live r roles action dyn.
Proof.
  unfold authorizerFor. destruct (rb_scopes r) as [sc|]; [|done].
  destruct (negb _ && _); [|done]. destruct (For _ _) as [res sc']. split_and!; [done..|].
  intros live roles action dyn. unfold actionAllowed.
  assert (∀ i rs, grantedByDocument_from i live (WithScopes r (Some sc')) rs action =
            grantedByDocument_from i live r rs action) as Hg.
  { intros i rs. revert i. induction rs as [|x rs IH]; intros i; simpl; [done|]. by rewrite IH. }
  unfold grantedByDocument. by rewrite Hg.
Qed.

(** The checks of the chain, by the name of the step each stamps: does it stop? *)
Definition stops (live : live_policy) (r : RBAC) (input : PolicyInput) (step : string) : bool :=
  let subject := in_Subject input in
  let intent := in_Intent input in
  if step =s? StepGoalStated then pi_Goal intent =s? ""
  else if step =s? StepAINotApproving then
    ps_IsAI subject && in_set (snap_approvalActions (live ReadApprovalActions)) (pi_Action intent)
  else if step =s? StepRolePermits then
    negb (actionAllowed live r (ps_Roles subject) (pi_Action intent) (authorizerFor r input).1)
  else if step =s? StepSeparationOfDuties then
    negb (pi_Requester intent =s? "") && (pi_Requester intent =s? ps_ID subject)
  else if step =s? StepProductAdmits then bool_decide (is_Some (product_denies r input))
  else if step =s? StepAttributeFloor then
    bool_decide (is_Some (admitFloor ParseFloat (snap_floors (live ReadFloors)) (rankLadder r)
                   (pi_Action intent) (pi_Params intent) (ps_Roles subject)))
  else if step =s? StepApprovalGate then
    bool_decide (is_Some (approvalGate (snap_floors (live ReadApprovalGate)) (pi_Action intent)
                   (pi_Requester intent) (ps_ID subject) (pi_Params intent)))
  else false.

(** The action and step a decision carries, for the first documented step that stops. *)
Definition ordered_outcome (live : live_policy) (r : RBAC) (input : PolicyInput) :
    DecisionAction * string :=
  match find (λ st, stops live r input (es_Name st)) EvaluationOrder with
  | Some st => (es_Outcome st, es_Name st)
  | None => (ActionAllow, "")
  end.

Lemma evaluate_outcome live r input :
  (dec_Action (Evaluate ParseFloat Getenv live r input).1, dec_Step (Evaluate ParseFloat Getenv live r input).1) =
    ordered_outcome live r input.
Proof.
  destruct (authorizerFor_same r input) as (Hl & Hp & Ha).
  unfold ordered_outcome, stops. simpl. unfold Evaluate.
  destruct (pi_Goal (in_Intent input) =s? "") eqn:E1; [done|].
  destruct (ps_IsAI (in_Subject input) && _) eqn:E2; [done|].
  destruct (authorizerFor r input) as [dyn r'] eqn:Er. simpl in *. rewrite Ha, Hl, Hp.
  destruct (actionAllowed _ _ _ _ _); simpl; [|done].
  destruct (negb _ && _) eqn:E4; [done|].
  destruct (product_denies r input); simpl; [done|].
  destruct (admitFloor _ _ _ _ _ _); simpl; [done|].
  by destruct (approvalGate _ _ _ _ _) as [[reason approvers]|].
Qed.

(** The engine does what its documented order says. Every decision carries the
    outcome and the name of the first step of [EvaluationOrder] that stops the request;
    when none does it is an allow that names no step. The order is the code's, not a
    description beside it: the approval gate is reached only when nothing denied. *)
Theorem evaluate_follows_the_order live r input :
  let d := (Evaluate ParseFloat Getenv live r input).1 in
  (dec_Action d, dec_Step d) = ordered_outcome live r input ∧
  (dec_Action d = ActionRequireApproval → dec_Step d = StepApprovalGate ∧
     ∀ step, step ∈ removelast EvaluationOrder → stops live r input (es_Name step) = false).
Proof.
  simpl. pose proof (evaluate_outcome live r input) as H. split; [done|].
  intros Ha. rewrite Ha in H. revert H. unfold ordered_outcome.
  assert (∀ l st, find (λ st, stops live r input (es_Name st)) (l ++ [st]) ≠ None →
    Forall (λ s, es_Outcome s = ActionDeny) l →
    match find (λ st, stops live r input (es_Name st)) (l ++ [st]) with
    | Some s => es_Outcome s = ActionRequireApproval →
        s = st ∧ ∀ s', s' ∈ l → stops live r input (es_Name s') = false
    | None => True
    end) as Hfind.
  { intros l st Hne. induction 1 as [|s l Hs Hl IH]; simpl in *.
    - destruct (stops _ _ _ _); [|done]. split; [done|]. intros s' Hs'. by apply not_elem_of_nil in Hs'.
    - destruct (stops _ _ _ (es_Name s)) eqn:E; [by rewrite Hs|].
      specialize (IH Hne). destruct (find _ _); [|done]. setoid_rewrite elem_of_cons. naive_solver. }
  change EvaluationOrder with (removelast EvaluationOrder ++
    [mkEvaluationStep StepApprovalGate ActionRequireApproval SourcePolicy]) at 1.
  specialize (Hfind (removelast EvaluationOrder)
    (mkEvaluationStep StepApprovalGate ActionRequireApproval SourcePolicy)).
  destruct (find _ _) as [s|]; [|done]. intros [= Hs Hn].
  destruct Hfind as [-> Hall]; [done|by repeat constructor|done|]. done.
Qed.

(** What a decision writes to the log is text: one of the three outcomes, under the
    policy's id. *)
Lemma Evaluate_texts live r input :
  let d := (Evaluate ParseFloat Getenv live r input).1 in
  dec_PolicyID d = policyID Getenv "rbac" ∧
  (dec_Action d = ActionAllow ∨ dec_Action d = ActionDeny ∨ dec_Action d = ActionRequireApproval).
Proof.
  cbv zeta. unfold Evaluate, deny, allowed. repeat case_match; simpl; auto.
Qed.

(** What an allowed request satisfies, in the terms of the policy. *)
Definition permitted (live : live_policy) (r : RBAC) (input : PolicyInput) : Prop :=
  let subject := in_Subject input in
  let intent := in_Intent input in
  let action := pi_Action intent in
  pi_Goal intent ≠ "" ∧
  (ps_IsAI subject = true → action ∉ snap_approvalActions (live ReadApprovalActions)) ∧
  match cascade_role (authorizerFor r input).1 action with
  | Some need => holdsAtLeast (rankLadder r) (ps_Roles subject) need = true
  | None => document_grants live r (ps_Roles subject) action
  end ∧
  (pi_Requester intent ≠ "" → pi_Requester intent ≠ ps_ID subject) ∧
  product_denies r input = None ∧
  (∀ rule, rule ∈ get_list (snap_floors (live ReadFloors)) action →
     ¬ refuses ParseFloat (rankLadder r) rule (pi_Params intent) (ps_Roles subject)) ∧
  (pi_Requester intent = "" → ∀ rule,
     rule ∈ get_list (snap_floors (live ReadApprovalGate)) action →
     asks (pi_Params intent) rule = false).

Lemma find_stops_None live r input :
  dec_Action (Evaluate ParseFloat Getenv live r input).1 = ActionAllow ↔
    Forall (λ st, stops live r input (es_Name st) = false) EvaluationOrder.
Proof.
  pose proof (evaluate_outcome live r input) as H. unfold ordered_outcome in H.
  assert (Forall (λ s, es_Outcome s ≠ ActionAllow) EvaluationOrder) as Hout
    by (by repeat constructor).
  destruct (find _ _) as [s|] eqn:E.
  - apply find_Some_elem in E as [Hin Hs]. injection H as -> _. rewrite Forall_forall in Hout.
    split; [by intros ?%Hout|]. rewrite Forall_forall. intros Hall. by rewrite (Hall s Hin) in Hs.
  - injection H as -> _. split; [|done]. intros _. apply Forall_forall. intros st Hst.
    destruct (stops _ _ _ (es_Name st)) eqn:Hs; [|done]. exfalso.
    assert (is_Some (find (λ st, stops live r input (es_Name st)) EvaluationOrder)) as [x Hx]
      by (apply find_is_Some; eauto).
    by rewrite E in Hx.
Qed.

Lemma bool_decide_is_Some_false {A} (o : option A) : bool_decide (is_Some o) = false ↔ o = None.
Proof. rewrite bool_decide_eq_false. by rewrite <- eq_None_not_Some. Qed.

Lemma none_asks params (rules : list FloorRule) :
  ¬ (∃ rule, rule ∈ rules ∧ asks params rule = true) ↔
    ∀ rule, rule ∈ rules → asks params rule = false.
Proof. setoid_rewrite <- not_true_iff_false. naive_solver. Qed.

Lemma none_refuses ladder params roles (rules : list FloorRule) :
  ¬ (∃ rule, rule ∈ rules ∧ refuses ParseFloat ladder rule params roles) ↔
    ∀ rule, rule ∈ rules → ¬ refuses ParseFloat ladder rule params roles.
Proof. naive_solver. Qed.

Lemma Evaluate_allow_permitted live r input :
  dec_Action (Evaluate ParseFloat Getenv live r input).1 = ActionAllow ↔ permitted live r input.
Proof.
  rewrite find_stops_None. unfold EvaluationOrder, stops. rewrite !Forall_cons, Forall_nil. simpl.
  rewrite eqs_false, negb_false_iff, actionAllowed_true, !bool_decide_is_Some_false.
  rewrite (eq_None_not_Some (admitFloor _ _ _ _ _ _)), admitFloor_is_Some.
  rewrite (eq_None_not_Some (approvalGate _ _ _ _ _)), approvalGate_is_Some.
  rewrite !andb_false_iff, negb_false_iff, in_set_false, !eqs_true, eqs_false.
  unfold permitted. rewrite <- none_asks, <- none_refuses.
  destruct (ps_IsAI _), (decide (pi_Requester (in_Intent input) = "")); tauto || naive_solver.
Qed.

(** C2: an allow means every rule was met, and nothing else does. For whichever snapshots
    the checks read, the engine allows exactly the requests that state a goal, are not an
    AI approving, hold the role the cascade names (or, where it names none, a document's
    grant), are not the requester approving, pass the owning product, are refused by no
    floor rule and need no second person. A floor rule refuses what it forbids when it has
    a message or is a capped map; a deny rule of another kind without a message lets every
    request through. *)
Theorem evaluate_allows_exactly live r input :
  dec_Action (Evaluate ParseFloat Getenv live r input).1 = ActionAllow ↔ permitted live r input.
Proof. by apply Evaluate_allow_permitted. Qed.

(** ** Precedence: the cascade over the documents *)

(** The rule this code replaced: a document's grant sufficed, the cascade was a fallback. *)
Definition actionAllowed_before (live : live_policy) (r : RBAC) (roles : list string)
    (action : string) (dyn : option ActionAuthorizer) : bool :=
  grantedByDocument live r roles action ||
  match cascade_role dyn action with
  | Some need => holdsAtLeast (rankLadder r) roles need
  | None => false
  end.

(** Nothing became more permissive. Whatever the check allows, the rule before it
    allowed; the two differ only on an action a document grants and a layer binds to a
    role the subject does not hold, which is now refused. *)
Theorem nothing_became_more_permissive live r roles action dyn :
  (actionAllowed live r roles action dyn = true →
   actionAllowed_before live r roles action dyn = true) ∧
  (actionAllowed live r roles action dyn ≠ actionAllowed_before live r roles action dyn ↔
   document_grants live r roles action ∧
   ∃ need, cascade_role dyn action = Some need ∧ holdsAtLeast (rankLadder r) roles need = false).
Proof.
  rewrite <- grantedByDocument_true, actionAllowed_eq. unfold actionAllowed_before.
  destruct (cascade_role dyn action) as [need|].
  - destruct (grantedByDocument _ _ _ _), (holdsAtLeast _ _ need) eqn:E; simpl;
      (split; [done|]); (split; [intros Hne; try done; eauto|]);
      intros (? & n & [= <-] & ?); congruence.
  - rewrite orb_false_r. split; [done|]. split; [done|]. by intros (_ & n & Hn & _).
Qed.

(** ** Two policies in one decision *)

(** The loads in program order, for a subject of [n] roles. *)
Definition read_position (n : nat) (x : live_read) : nat :=
  match x with
  | ReadApprovalActions => 0
  | ReadRoleActions i => S i
  | ReadFloors => S n
  | ReadApprovalGate => S (S n)
  end.

(** A reload that lands just before the load at position [k]. *)
Definition reload_at (n k : nat) (old new : grantsSnapshot) : live_policy :=
  λ x, if (read_position n x <? k)%nat then old else new.

(** A reload under an evaluation in flight can decide by a half of each policy. There
    are two policies, each of which denies a request on its own, and a point at which
    swapping one for the other during the evaluation makes the engine allow it: the role
    is checked against the grants before the reload and the parameters against the floor
    after it. *)
Theorem reload_can_mix_two_policies :
  ∃ old new r input k,
    dec_Action (Evaluate ParseFloat Getenv (steady old) r input).1 = ActionDeny ∧
    dec_Action (Evaluate ParseFloat Getenv (steady new) r input).1 = ActionDeny ∧
    dec_Action (Evaluate ParseFloat Getenv (reload_at (length (ps_Roles (in_Subject input))) k old new)
                  r input).1 = ActionAllow.
Proof.
  set (rule := mkFloorRule "allowlist" "app" ["ledger"] ∅ "" [] "" "" "" "unknown application").
  exists (mkGrantsSnapshot {["L3-Consumer" := {["service.deploy"]}]} ∅
            {["service.deploy" := [rule]]} "r1"),
    (mkGrantsSnapshot ∅ ∅ ∅ "r2"), NewRBAC,
    (mkPolicyInput (mkPolicySubject "u-1" ["L3-Consumer"] false ∅)
       (mkPolicyIntent "service.deploy" "" "" "" "ship it" "" ∅)), 2.
  split_and!; by vm_compute.
Qed.

(** The failsafe only ever narrows. Tripped, or with a policy source that fails, it
    allows a request if and only if its action ends in one of the read verbs; otherwise
    the primary's decision passes through as it is, and resetting undoes a trip. *)
Theorem failsafe_is_read_only f input :
  (fs_tripped f = true ∨ is_ok (fs_primary f input) = false →
     (dec_Action (Failsafe_Evaluate Getenv f input) = ActionAllow ↔
        ∃ verb, verb ∈ [".read"; ".view"; ".list"; ".status"; ".get"] ∧
          HasSuffix (pi_Action (in_Intent input)) verb = true) ∧
     (dec_Action (Failsafe_Evaluate Getenv f input) ≠ ActionAllow →
        dec_Action (Failsafe_Evaluate Getenv f input) = ActionDeny)) ∧
  (∀ d, fs_tripped f = false → fs_primary f input = Ok d →
     Failsafe_Evaluate Getenv f input = d) ∧
  (∀ d, fs_primary f input = Ok d → Failsafe_Evaluate Getenv (Reset_ (Trip f)) input = d).
Proof.
  assert (∀ i, (dec_Action (readOnly Getenv i) = ActionAllow ↔
      ∃ verb, verb ∈ [".read"; ".view"; ".list"; ".status"; ".get"] ∧
        HasSuffix (pi_Action (in_Intent i)) verb = true) ∧
     (dec_Action (readOnly Getenv i) ≠ ActionAllow →
        dec_Action (readOnly Getenv i) = ActionDeny)) as Hro.
  { intros i. rewrite <- existsb_true. unfold readOnly, isRead.
    destruct (pi_Action (in_Intent i) =s? "") eqn:E.
    - apply eqs_true in E. rewrite E. by vm_compute.
    - by destruct (existsb _ _). }
  unfold Failsafe_Evaluate. simpl. split_and!.
  - intros [->|Hp]; [done|]. destruct (fs_tripped f); [done|].
    by destruct (fs_primary f input).
  - by intros d -> ->.
  - by intros d ->.
Qed.

(** A step is authorised on its own. The per-step check allows exactly the subject who
    holds the step's role, when it names one, and who, for a step that requires approval,
    is a person other than its author. *)
Theorem step_allows_exactly r i :
  dec_Action (EvaluateStep Getenv r i) = ActionAllow ↔
    (sa_RunAs i ≠ "" → holdsAtLeast (rankLadder r) (ps_Roles (sa_Subject i)) (sa_RunAs i) = true) ∧
    (sa_RequireApproval i = true →
       ps_IsAI (sa_Subject i) = false ∧
       (sa_Author i ≠ "" → sa_Author i ≠ ps_ID (sa_Subject i))).
Proof.
  unfold EvaluateStep. cbv zeta.
  destruct (sa_RunAs i =s? "") eqn:E1, (holdsAtLeast _ _ _) eqn:E2,
    (sa_RequireApproval i), (ps_IsAI (sa_Subject i)), (sa_Author i =s? "") eqn:E3,
    (sa_Author i =s? ps_ID (sa_Subject i)) eqn:E4; autorewrite with mk in *; simpl; naive_solver.
Qed.
End engine_props.

(** ** Product adapters *)

Lemma indexProviderActions_lookup p m a :
  indexProviderActions p m !! a = if decide (a ∈ prov_Actions p) then Some p else m !! a.
Proof.
  unfold indexProviderActions. revert m. induction (prov_Actions p) as [|x l IH]; intros m; cbn [foldl].
  { by rewrite decide_False by apply not_elem_of_nil. }
  rewrite IH. destruct (decide (a ∈ l)) as [Hl|Hl].
  - by rewrite decide_True by by right.
  - destruct (decide (a = x)) as [->|Hne].
    + rewrite lookup_insert_eq, decide_True; [done|by left].
    + rewrite lookup_insert_ne, decide_False; [done|set_solver|done].
Qed.

Lemma foldInProviderRoleActions_spec p m role a :
  a ∈ set_at (foldInProviderRoleActions p m) role ↔
    a ∈ set_at m role ∨ grants_to (prov_RoleActions p) role a.
Proof.
  unfold foldInProviderRoleActions.
  apply (map_fold_weak_ind (λ r acts, a ∈ set_at r role ↔ a ∈ set_at m role ∨ grants_to acts role a)).
  - unfold grants_to, get_list. rewrite lookup_empty. set_solver.
  - intros role' acts m' r Hm IH. unfold set_at, grants_to, get_list, to_set in *.
    destruct (decide (role = role')) as [->|Hne].
    + rewrite !lookup_insert_eq. rewrite Hm in IH. simpl in *. set_solver.
    + by rewrite !lookup_insert_ne.
Qed.

Lemma or_assoc_ex {A} (P : Prop) (l : list A) (x : A) (Q : A → Prop) :
  (P ∨ ∃ y, y ∈ l ∧ Q y) ∨ Q x ↔ P ∨ ∃ y, (y ∈ l ∨ y = x) ∧ Q y.
Proof. naive_solver. Qed.

(** The adapters registered, in order. *)
Definition registered (ps : list (option PolicyProvider)) : list PolicyProvider := omap id ps.

(** Registering product adapters only adds. Every action listed by an adapter is ruled
    on by the last adapter registered that lists it, and by no other; the document check
    grants what it granted before or what an adapter grants one of the roles; the ladder
    and the cascades are left alone, and nil adapters count for nothing. *)
Theorem providers_only_add live r ps :
  let r' := WithProviders r ps in
  (∀ a, rb_byAction r' !! a =
     match last (filter (λ p, a ∈ prov_Actions p) (registered ps)) with
     | Some p => Some p
     | None => rb_byAction r !! a
     end) ∧
  (∀ roles a, document_grants live r' roles a ↔ document_grants live r roles a ∨
     ∃ p, p ∈ registered ps ∧ ∃ role, role ∈ roles ∧ grants_to (prov_RoleActions p) role a) ∧
  rankLadder r' = rankLadder r ∧ rb_dyn r' = rb_dyn r ∧ rb_scopes r' = rb_scopes r.
Proof.
  unfold WithProviders. induction ps as [|o ps IH] using rev_ind; simpl.
  { split_and!; try done. intros roles a. split; [by left|]. intros [|(p & H & _)]; [done|].
    by apply not_elem_of_nil in H. }
  rewrite foldl_app. simpl. unfold registered in *. rewrite omap_app. simpl.
  destruct IH as (IHa & IHg & IHl & IHd & IHs).
  destruct o as [p|]; simpl; [|by rewrite app_nil_r].
  set (rb := foldl WithProvider r ps) in *. split_and!; try done.
  - intros a. rewrite indexProviderActions_lookup, filter_app, filter_cons, filter_nil, IHa.
    case_decide; [by rewrite last_snoc|by rewrite app_nil_r].
  - intros roles a. setoid_rewrite elem_of_app. setoid_rewrite list_elem_of_singleton.
    rewrite <- or_assoc_ex, <- IHg. unfold document_grants. simpl.
    setoid_rewrite foldInProviderRoleActions_spec. split.
    + intros (i & role & Hi & H). assert (role ∈ roles) by by eapply list_elem_of_lookup_2.
      naive_solver.
    + intros [(i & role & Hi & H)|(role & Hr & H)]; [exists i, role; tauto|].
      apply list_elem_of_lookup_1 in Hr as [i Hi]. exists i, role. tauto.
Qed.

(** ** Witnesses *)

Definition demo_snapshot : grantsSnapshot :=
  mkGrantsSnapshot {["L2-Operator" := {["namespace.create"]}]} {["promote.approve"]} demo_floors "r1".

Definition demo_engine : RBAC :=
  WithScopes NewRBAC (Some (SetScope (NewScopeResolver ∅ []) "team:pay"
    (ScopeLayer "team:pay" {["namespace.create" := RoleArchitect]} []))).

Definition demo_input (scope requester : string) (role : Role) : PolicyInput :=
  mkPolicyInput (mkPolicySubject "u-1" [role] false ∅)
    (mkPolicyIntent "namespace.create" "" requester "" "a new team" scope (demo_request "16Gi")).

Lemma evaluate_allows_exactly_witness :
  dec_Action (Evaluate demo_ParseFloat (λ _, "") (steady demo_snapshot) demo_engine
    (demo_input "" "u-2" "L2-Operator")).1 = ActionAllow ∧
  permitted demo_ParseFloat (steady demo_snapshot) demo_engine (demo_input "" "u-2" "L2-Operator") ∧
  ¬ permitted demo_ParseFloat (steady demo_snapshot) demo_engine
      (demo_input "team:pay" "u-2" "L2-Operator").
Proof.
  split; [by vm_compute|]. split.
  - apply (evaluate_allows_exactly demo_ParseFloat (λ _, "") (steady demo_snapshot) demo_engine).
    by vm_compute.
  - rewrite <- (evaluate_allows_exactly demo_ParseFloat (λ _, "") (steady demo_snapshot)
      demo_engine (demo_input "team:pay" "u-2" "L2-Operator")). by vm_compute.
Defined.
