(* ===== verification/Snapshot.v ===== *)
(** The policy in force and its reload: [internal/policy] grants_reload.go, inforce.go and
    notices.go.

    The live pointer is the state; [ReloadGrants] replaces what it points to, whole, or
    leaves it. [InForce] hands out the documents being decided by, and
    [PrecedenceNotices] says at boot where a layer and a document disagree (each notice
    is a constructor: what it says, without its wording). *)
From S2P Require Import Prelude Contracts Cascade Grants Floors Engine.

(** ** grants_reload.go *)

Inductive reload_error :=
| ReloadSource (e : go_error)
| ReloadBuild (msg : string).

Section reload.
Context (RevisionOfDocuments : Grants → Floors → string).

(** What a [Loader] returns: the documents, nil or not, and their revision. *)
Notation loaded := (result go_error (option Grants * option Floors * string)) (only parsing).

(** The revision in force, whether it changed, the error if any; and the live pointer. *)
Definition ReloadGrants (load : loaded) (live : grantsSnapshot) :
    (string * bool * option reload_error) * grantsSnapshot :=
  match load with
  | Err e => ((snap_revision live, false, Some (ReloadSource e)), live)
  | Ok (held, floors, revision) =>
      if revision =s? snap_revision live then ((snap_revision live, false, None), live)
      else match buildSnapshot RevisionOfDocuments held floors with
           | Err e => ((snap_revision live, false, Some (ReloadBuild e)), live)
           | Ok snapshot => ((snap_revision snapshot, true, None), snapshot)
           end
  end.

(** What the watcher told its two hooks, in order. *)
Inductive reload_event :=
| Reloaded (revision : string)
| RefusedReload (inForce : string) (e : reload_error).

(** [onReload] and [onRefuse] say whether the hooks are set. *)
Definition GrantsWatcher_Reload (onReload onRefuse : bool) (load : loaded)
    (live : grantsSnapshot) : result reload_error bool * grantsSnapshot * list reload_event :=
  let '((inForce, changed, err), live) := ReloadGrants load live in
  match err with
  | Some e => (Err e, live, if onRefuse then [RefusedReload inForce e] else [])
  | None => (Ok changed, live, if changed && onReload then [Reloaded inForce] else [])
  end.

(** ** inforce.go *)

(** The deep copy, field by field, is the same value; that the caller may edit it without
    editing the policy is about sharing, which values do not have. *)
Definition copyRule (rule : FloorRule) : FloorRule := rule.

Definition InForce (s : grantsSnapshot) : Grants * Floors :=
  (mkGrants (sorted_elements <$> snap_roleActions s) (sorted_elements (snap_approvalActions s)),
   map copyRule <$> snap_floors s).

(** ** notices.go *)

Inductive notice :=
| KeptBySeal (path action : string) (asked need : Role)
| Unrankable (path action : string) (need : Role)
| Agrees (path action : string) (need : Role) (granted : list string)
| Tightens (path action : string) (need : Role) (refused : list string).

Definition documentGrants (s : grantsSnapshot) (action : string) : list string :=
  sorted_elements (dom (filter (λ '(_, granted), "*" ∉ granted ∧ action ∈ granted)
                          (snap_roleActions s))).

Definition rolesRefusedBy (s : grantsSnapshot) (ladder : RoleLadder) (action : string)
    (need : Role) : list string :=
  sorted_elements (list_to_set (filter (λ role, holdsAtLeast ladder [role] need = false)
                                  (documentGrants s action))).

Definition notices_for (s : grantsSnapshot) (ladder : RoleLadder) (path : string)
    (layer : Layer) (cascade : option ActionAuthorizer) (action : string) : list notice :=
  let asked := default "" (lay_ActionRoles layer !! action) in
  let need := match cascade with
              | Some required => default asked (required action)
              | None => asked
              end in
  (if need =s? asked then [] else [KeptBySeal path action asked need]) ++
  match ladder !! need with
  | None => [Unrankable path action need]
  | Some _ =>
      let granted := documentGrants s action in
      match granted with
      | [] => []
      | _ => match rolesRefusedBy s ladder action need with
             | [] => [Agrees path action need granted]
             | refused => [Tightens path action need refused]
             end
      end
  end.

Definition PrecedenceNotices (s : grantsSnapshot) (ladder : RoleLadder) (path : string)
    (layer : Layer) (cascade : option ActionAuthorizer) : list notice :=
  flat_map (notices_for s (ladder_or_default ladder) path layer cascade)
    (sorted_keys (lay_ActionRoles layer)).

(** ** Lemmas *)

(** The live pointer after a sequence of loads, oldest first. *)
Definition reloads (live : grantsSnapshot) (loads : list loaded) : grantsSnapshot :=
  foldl (λ live load, (ReloadGrants load live).2) live loads.

(** Whether a load delivers two documents, and which. *)
Definition delivered (load : loaded) : option (Grants * Floors) :=
  match load with Ok (Some g, Some f, _) => Some (g, f) | _ => None end.

Definition last_delivered (boot : Grants * Floors) (loads : list loaded) : Grants * Floors :=
  foldl (λ cur load, default cur (delivered load)) boot loads.

Definition snapshot_of (docs : Grants * Floors) : grantsSnapshot :=
  mkGrantsSnapshot ((to_set <$> RoleActions docs.1) ∪ {["L0-SuperAdmin" := {["*"]}]})
    (to_set (ApprovalActions docs.1)) docs.2 (RevisionOfDocuments docs.1 docs.2).

Lemma buildSnapshot_Some g f :
  buildSnapshot RevisionOfDocuments (Some g) (Some f) = Ok (snapshot_of (g, f)).
Proof. done. Qed.

(** A reload is all or nothing and fails static. Take any sequence of reloads of a
    source that stamps documents with their own revision, where two of the document pairs
    seen share a revision only if they decide alike. Whatever loads failed, handed back a
    missing document or repeated the policy in force, what is in force after them is the
    snapshot of the documents last delivered. *)
Theorem reload_tracks_source boot loads
    (Hrev : ∀ g f revision, Ok (Some g, Some f, revision) ∈ loads →
              revision = RevisionOfDocuments g f)
    (Hsame : ∀ d1 d2, d1 ∈ boot :: omap delivered loads → d2 ∈ boot :: omap delivered loads →
               RevisionOfDocuments d1.1 d1.2 = RevisionOfDocuments d2.1 d2.2 →
               snapshot_of d1 = snapshot_of d2) :
  reloads (snapshot_of boot) loads = snapshot_of (last_delivered boot loads).
Proof.
  enough (∀ l, l `prefix_of` loads →
    last_delivered boot l ∈ boot :: omap delivered loads ∧
    reloads (snapshot_of boot) l = snapshot_of (last_delivered boot l)) as H by by apply H.
  intros l. induction l as [|load l IH] using rev_ind; intros Hpre.
  { split; [by left|done]. }
  destruct IH as [Hin IH]; [etrans; [by apply prefix_app_r|exact Hpre]|].
  assert (load ∈ loads) as Hload.
  { destruct Hpre as [k ->]. rewrite !elem_of_app. left. right. by left. }
  unfold reloads, last_delivered in *. rewrite !foldl_app. simpl. rewrite IH. clear IH.
  set (cur := foldl _ boot l) in *.
  destruct load as [[[[g|] [f|]] revision]|e]; simpl; [|by case_match..|done].
  assert ((g, f) ∈ boot :: omap delivered loads) as Hgf.
  { right. apply list_elem_of_omap. by exists (Ok (Some g, Some f, revision)). }
  split; [done|]. rewrite (Hrev g f revision Hload).
  destruct (_ =s? _) eqn:E; [|done]. simpl. apply eqs_true in E. by apply Hsame.
Qed.

Lemma to_set_sorted_elements s : to_set (sorted_elements s) = s.
Proof.
  apply set_eq. intros x. unfold to_set. by rewrite elem_of_list_to_set, elem_of_sorted_elements.
Qed.

(** C40: what is shown is what decides. Loading the documents [InForce] hands out gives
    back the grants, the approval actions and the floors of the snapshot they were taken
    from, the engine's own wildcard included, whatever documents that snapshot came from. *)
Theorem in_force_round_trip docs :
  let s := snapshot_of docs in
  let shown := InForce s in
  ∃ s', buildSnapshot RevisionOfDocuments (Some shown.1) (Some shown.2) = Ok s' ∧
    snap_roleActions s' = snap_roleActions s ∧
    snap_approvalActions s' = snap_approvalActions s ∧
    snap_floors s' = snap_floors s.
Proof.
  intros s shown. eexists. split; [apply buildSnapshot_Some|]. simpl. split_and!.
  - apply map_eq. intros role.
    rewrite !lookup_union, !lookup_fmap, !lookup_union, lookup_fmap, lookup_singleton.
    by destruct (RoleActions docs.1 !! role), (decide ("L0-SuperAdmin" = role)); cbn;
      rewrite ?to_set_sorted_elements.
  - apply to_set_sorted_elements.
  - apply map_eq. intros a. rewrite lookup_fmap. destruct (docs.2 !! a); simpl; [|done].
    f_equal. unfold copyRule. by rewrite map_id.
Qed.

Lemma elem_of_documentGrants s action role :
  role ∈ documentGrants s action ↔
    "*" ∉ set_at (snap_roleActions s) role ∧ action ∈ set_at (snap_roleActions s) role.
Proof.
  unfold documentGrants, set_at. rewrite elem_of_sorted_elements, elem_of_dom.
  unfold is_Some. setoid_rewrite map_lookup_filter_Some.
  destruct (snap_roleActions s !! role) as [granted|]; set_solver.
Qed.

Lemma elem_of_rolesRefusedBy s ladder action need role :
  role ∈ rolesRefusedBy s ladder action need ↔
    role ∈ documentGrants s action ∧ holdsAtLeast ladder [role] need = false.
Proof.
  unfold rolesRefusedBy.
  rewrite elem_of_sorted_elements, elem_of_list_to_set, list_elem_of_filter. tauto.
Qed.

(** The role that decides an action a layer names. *)
Definition deciding_role (layer : Layer) (cascade : option ActionAuthorizer) (action : string) :
    Role :=
  let asked := default "" (lay_ActionRoles layer !! action) in
  match cascade with Some required => default asked (required action) | None => asked end.

(** The boot notices tell the truth about every action a layer names. An action is
    reported as tightened exactly when the role that decides it is ranked and refuses a
    role some document grants it to (the wildcard apart), and the roles listed are those;
    it is reported as unrankable exactly when that role is; and as kept by a seal exactly
    when the role that decides is not the one the layer asked for. *)
Theorem notices_are_exact s ladder path layer cascade action need :
  let lad := ladder_or_default ladder in
  let notices := PrecedenceNotices s ladder path layer cascade in
  let decides := is_Some (lay_ActionRoles layer !! action) ∧
                 need = deciding_role layer cascade action in
  (∀ refused, Tightens path action need refused ∈ notices ↔
     decides ∧ is_Some (lad !! need) ∧ refused ≠ [] ∧ refused = rolesRefusedBy s lad action need) ∧
  (∀ role, role ∈ rolesRefusedBy s lad action need ↔
     "*" ∉ set_at (snap_roleActions s) role ∧ action ∈ set_at (snap_roleActions s) role ∧
     holdsAtLeast lad [role] need = false) ∧
  (Unrankable path action need ∈ notices ↔ decides ∧ lad !! need = None) ∧
  (∀ asked, KeptBySeal path action asked need ∈ notices ↔
     decides ∧ lay_ActionRoles layer !! action = Some asked ∧ need ≠ asked).
Proof.
  intros lad notices decides.
  assert (∀ n, n ∈ notices ↔ ∃ a, is_Some (lay_ActionRoles layer !! a) ∧
    n ∈ notices_for s lad path layer cascade a) as Hin.
  { intros n. unfold notices, PrecedenceNotices. rewrite elem_of_flat_map.
    by setoid_rewrite elem_of_sorted_keys. }
  assert (∀ a n, n ∈ notices_for s lad path layer cascade a ↔
    (deciding_role layer cascade a ≠ default "" (lay_ActionRoles layer !! a) ∧
       n = KeptBySeal path a (default "" (lay_ActionRoles layer !! a)) (deciding_role layer cascade a)) ∨
    (lad !! deciding_role layer cascade a = None ∧ n = Unrankable path a (deciding_role layer cascade a)) ∨
    (is_Some (lad !! deciding_role layer cascade a) ∧
     ((rolesRefusedBy s lad a (deciding_role layer cascade a) = [] ∧ documentGrants s a ≠ [] ∧
         n = Agrees path a (deciding_role layer cascade a) (documentGrants s a)) ∨
      (rolesRefusedBy s lad a (deciding_role layer cascade a) ≠ [] ∧ documentGrants s a ≠ [] ∧
         n = Tightens path a (deciding_role layer cascade a)
               (rolesRefusedBy s lad a (deciding_role layer cascade a)))))) as Hfor.
  { intros a n. unfold notices_for. fold (deciding_role layer cascade a). rewrite elem_of_app.
    destruct (_ =s? _) eqn:E; autorewrite with mk in E;
      (destruct (lad !! _); [destruct (documentGrants s a) eqn:E1;
         [|destruct (rolesRefusedBy _ _ _ _) eqn:E2]|]); set_solver. }
  assert (∀ a n, rolesRefusedBy s lad a n ≠ [] → documentGrants s a ≠ []) as Hnil.
  { intros a n Hne He. apply Hne. apply elem_of_nil_inv. intros x [Hx _]%elem_of_rolesRefusedBy.
    rewrite He in Hx. by apply not_elem_of_nil in Hx. }
  setoid_rewrite Hin. setoid_rewrite Hfor. clear Hin Hfor. unfold decides. split_and!.
  - intros refused. split; [intros (a & ? & H); naive_solver|].
    intros ((? & ->) & ? & ? & ->). exists action. naive_solver.
  - intros role. rewrite elem_of_rolesRefusedBy, elem_of_documentGrants. tauto.
  - split; [intros (a & ? & H); naive_solver|]. intros ((? & ->) & ?). exists action. naive_solver.
  - intros asked. split.
    + intros (a & [x Hx] & H). rewrite Hx in H. simpl in H. naive_solver.
    + intros ((? & ->) & Ha & Hne). exists action. rewrite Ha in *. simpl. naive_solver.
Qed.
End reload.

(** ** Witnesses *)

(** A revision for the demo: the roles a document names. *)
Definition demo_revision_of (g : Grants) (f : Floors) : string :=
  Join (sorted_keys (RoleActions g)) ",".

Definition demo_boot : Grants * Floors := (mkGrants {["op" := ["read"]]} [], ∅).
Definition demo_next : Grants * Floors :=
  (mkGrants {["op" := ["read"]; "ops" := ["deploy"]]} [], ∅).

Definition demo_reloads : list (result go_error (option Grants * option Floors * string)) :=
  [Err (ErrorText "unreadable"); Ok (Some demo_next.1, Some demo_next.2, "op,ops");
   Ok (None, None, "?")].

Lemma reload_tracks_source_witness :
  reloads demo_revision_of (snapshot_of demo_revision_of demo_boot) demo_reloads
    = snapshot_of demo_revision_of demo_next.
Proof.
  apply (reload_tracks_source demo_revision_of demo_boot demo_reloads).
  - intros g f revision Hin. unfold demo_reloads in Hin. rewrite !elem_of_cons in Hin.
    destruct Hin as [Hin|[Hin|[Hin|Hin]]]; [done| |done|by apply not_elem_of_nil in Hin].
    injection Hin as -> -> ->. by vm_compute.
  - change (demo_boot :: omap delivered demo_reloads) with [demo_boot; demo_next].
    intros d1 d2 [->|[->|[]%elem_of_nil]%elem_of_cons]%elem_of_cons
      [->|[->|[]%elem_of_nil]%elem_of_cons]%elem_of_cons H.
    + reflexivity.
    + vm_compute in H. discriminate H.
    + vm_compute in H. discriminate H.
    + reflexivity.
Defined.
