(* ===== verification/Bucket.v ===== *)
(** The ordered key-value bucket under the durable logs: what [internal/audit] and
    [internal/store] rely on in bbolt.

    A bucket holds its pairs in the byte order of their keys and a sequence counter. One
    write transaction is atomic: it lands or leaves the bucket as it was. The class states
    the documented behaviour the code uses; a list-backed bucket implements it. The keys
    both logs use are sequence numbers in sixteen digits, whose byte order is the order of
    the numbers as long as they have at most sixteen digits. *)
From S2P Require Import Prelude.

(** ** Byte order of keys *)

Definition ascii_lt (a b : ascii) : Prop := (N_of_ascii a < N_of_ascii b)%N.

(** [bytes.Compare(a, b) < 0] *)
Fixpoint key_lt (a b : string) : Prop :=
  match a, b with
  | EmptyString, EmptyString => False
  | EmptyString, String _ _ => True
  | String _ _, EmptyString => False
  | String x a, String y b => ascii_lt x y ∨ (x = y ∧ key_lt a b)
  end.

#[export] Instance ascii_lt_dec a b : Decision (ascii_lt a b).
Proof. unfold ascii_lt. apply _. Defined.

#[export] Instance key_lt_dec a : ∀ b, Decision (key_lt a b).
Proof.
  induction a as [|x a IH]; intros [|y b]; simpl; apply _.
Defined.

(** ** [%016d] *)

Definition digit (n : Z) : ascii := ascii_of_N (48 + Z.to_N n).

(** The [w] low decimal digits of [n], most significant first. *)
Fixpoint digits (w : nat) (n : Z) : string :=
  match w with
  | 0 => ""
  | S w => String (digit ((n / 10 ^ Z.of_nat w) mod 10)%Z) (digits w n)
  end.

(** Below [10 ^ 16] the padded form has sixteen digits; from there on it has more. *)
Definition seq_key (n : Z) : string :=
  if (n <? 10 ^ 16)%Z then digits 16 n else Itoa n.

Lemma digit_lt a b : (0 ≤ a < b)%Z → (b < 10)%Z → ascii_lt (digit a) (digit b).
Proof.
  intros H1 H2. unfold ascii_lt, digit. rewrite !N_ascii_embedding; lia.
Qed.

Lemma digits_lt w a b :
  (0 ≤ a)%Z → (a < b)%Z → (a / 10 ^ Z.of_nat w = b / 10 ^ Z.of_nat w)%Z → key_lt (digits w a) (digits w b).
Proof.
  intros Ha Hab. induction w as [|w IH]; intros Heq; simpl.
  { rewrite !Z.div_1_r in Heq. lia. }
  assert (10 ^ Z.of_nat (S w) = 10 ^ Z.of_nat w * 10)%Z as Hp.
  { rewrite Nat2Z.inj_succ, Z.pow_succ_r by lia. lia. }
  assert (0 < 10 ^ Z.of_nat w)%Z as Hpos by (apply Z.pow_pos_nonneg; lia).
  rewrite Hp, <- !Z.div_div in Heq by lia.
  pose proof (Z.div_le_mono a b (10 ^ Z.of_nat w) Hpos ltac:(lia)) as Hle.
  set (qa := (a / 10 ^ Z.of_nat w)%Z) in *. set (qb := (b / 10 ^ Z.of_nat w)%Z) in *.
  pose proof (Z.div_pos a (10 ^ Z.of_nat w) Ha Hpos). fold qa in H.
  pose proof (Z.div_mod qa 10 ltac:(lia)). pose proof (Z.div_mod qb 10 ltac:(lia)).
  pose proof (Z.mod_pos_bound qa 10 ltac:(lia)). pose proof (Z.mod_pos_bound qb 10 ltac:(lia)).
  destruct (decide (qa = qb)) as [He|Hne].
  - right. split; [by rewrite He|]. by apply IH.
  - left. apply digit_lt; lia.
Qed.

(** The keys of consecutive records are in the order they were written. *)
Lemma seq_key_lt a b :
  (0 ≤ a)%Z → (a < b)%Z → (b < 10 ^ 16)%Z → key_lt (seq_key a) (seq_key b).
Proof.
  intros Ha Hab Hb. unfold seq_key.
  rewrite (proj2 (Z.ltb_lt a _)), (proj2 (Z.ltb_lt b _)) by lia.
  apply digits_lt; [done..|]. rewrite !Z.div_small; [done| |]; change (Z.of_nat 16) with 16%Z; lia.
Qed.

(** ** The bucket *)

Class Bucket (B : Type) := {
  entries : B → list (string * string);
  sequence : B → Z;
  NextSequence : B → Z * B;
  Put : B → string → string → result string B;
  NextSequence_spec b : NextSequence b = (sequence b + 1, (NextSequence b).2)%Z;
  NextSequence_sequence b : sequence (NextSequence b).2 = (sequence b + 1)%Z;
  NextSequence_entries b : entries (NextSequence b).2 = entries b;
  Put_last b k v b' : Put b k v = Ok b' → Forall (λ e, key_lt e.1 k) (entries b) →
    entries b' = entries b ++ [(k, v)];
  Put_sequence b k v b' : Put b k v = Ok b' → sequence b' = sequence b;
}.

(** [c.Last()]. *)
Definition last_entry {B} `{Bucket B} (b : B) : option (string * string) := last (entries b).

(** Every key was made from a sequence number already handed out. *)
Definition well_keyed {B} `{Bucket B} (b : B) : Prop :=
  (0 ≤ sequence b)%Z ∧ Forall (λ e, ∃ n, (1 ≤ n ≤ sequence b)%Z ∧ e.1 = seq_key n) (entries b).

(** Appending under the next sequence number: what both logs do in one transaction. *)
Definition append_next {B} `{Bucket B} (b : B) (val : Z → string) : result string B :=
  let '(seq, b) := NextSequence b in Put b (seq_key seq) (val seq).

Section bucket.
Context `{Bucket B}.
Implicit Type b : B.

Lemma append_next_Ok b val b' :
  well_keyed b → (sequence b + 1 < 10 ^ 16)%Z → append_next b val = Ok b' →
  entries b' = entries b ++ [(seq_key (sequence b + 1), val (sequence b + 1)%Z)] ∧
  sequence b' = (sequence b + 1)%Z ∧ well_keyed b'.
Proof.
  intros [Hpos Hk] Hmax. unfold append_next. rewrite NextSequence_spec. intros Hput.
  pose proof (NextSequence_entries b) as He. pose proof (NextSequence_sequence b) as Hs.
  apply Put_last in Hput as Hent.
  - rewrite He in Hent. apply Put_sequence in Hput. rewrite Hs in Hput.
    split_and!; [done..|]. split; [lia|]. rewrite Hent, Hput, Forall_app. split.
    + eapply Forall_impl; [exact Hk|]. intros e (n & ? & ?). exists n. split; [lia|done].
    + apply Forall_singleton. exists (sequence b + 1)%Z. split; [lia|done].
  - rewrite He. eapply Forall_impl; [exact Hk|]. intros e (n & Hn & ->). apply seq_key_lt; lia.
Qed.
End bucket.

(** ** A list-backed bucket *)

Record ListBucket := mkListBucket {
  lb_entries : list (string * string);
  lb_sequence : Z;
}.

Fixpoint insert_entry (k v : string) (l : list (string * string)) : list (string * string) :=
  match l with
  | [] => [(k, v)]
  | (k', v') :: l =>
      if decide (key_lt k' k) then (k', v') :: insert_entry k v l
      else if decide (k' = k) then (k, v) :: l
      else (k, v) :: (k', v') :: l
  end.

#[refine, export] Instance list_bucket : Bucket ListBucket := {|
  entries := lb_entries;
  sequence := lb_sequence;
  NextSequence := λ b, ((lb_sequence b + 1)%Z, mkListBucket (lb_entries b) (lb_sequence b + 1));
  Put := λ b k v, Ok (mkListBucket (insert_entry k v (lb_entries b)) (lb_sequence b));
|}.
Proof.
  - done.
  - done.
  - done.
  - intros b k v b' [= <-]. simpl. generalize (lb_entries b) as l.
    induction l as [|[k' v'] l IH]; simpl; [done|]. rewrite Forall_cons. intros [Hk Hl].
    rewrite decide_True by done. by rewrite IH.
  - by intros b k v b' [= <-].
Defined.

Definition empty_bucket : ListBucket := mkListBucket [] 0.
