(* ===== verification/AuditChain.v ===== *)
(** The audit chain: [internal/audit/audit.go].

    Records are appended under consecutive keys of a bucket; each carries the hash of the
    one before it and a hash of itself. The JSON codec and SHA-256 are arguments; what
    the chain's guarantees need of them is named by the hypotheses that use them. *)
From S2P Require Import Prelude Utf8 Contracts Bucket.

Definition with_hash (rec : AuditRecord) (h : string) : AuditRecord :=
  mkAuditRecord (rec_Timestamp rec) (rec_IntentID rec) (rec_SubjectID rec) (rec_Action rec)
    (rec_Decision rec) (rec_PolicyID rec) (rec_IsAI rec) (rec_Via rec) (rec_RunID rec)
    (rec_ParentID rec) (rec_StepID rec) (rec_PrevHash rec) h.

Definition with_prev (rec : AuditRecord) (h : string) : AuditRecord :=
  mkAuditRecord (rec_Timestamp rec) (rec_IntentID rec) (rec_SubjectID rec) (rec_Action rec)
    (rec_Decision rec) (rec_PolicyID rec) (rec_IsAI rec) (rec_Via rec) (rec_RunID rec)
    (rec_ParentID rec) (rec_StepID rec) h (rec_Hash rec).

(** The instants [time.Time] marshals: those of the years 0 to 9999. Stamps are taken in
    UTC, so an instant stands for its text. *)
Definition stampable (t : Time) : Prop := (- 366 * 86400 * 10 ^ 9 ≤ t < 3652059 * 86400 * 10 ^ 9)%Z.

(** The strings a record carries apart from the two hashes, and the record after every
    string of it went through JSON. *)
Definition record_strings (r : AuditRecord) : list string :=
  [rec_IntentID r; rec_SubjectID r; rec_Action r; rec_Decision r; rec_PolicyID r; rec_Via r;
   rec_RunID r; rec_ParentID r; rec_StepID r].
Definition valid_text (s : string) : Prop := ValidString s = true.
Definition record_text (r : AuditRecord) : Prop :=
  stampable (rec_Timestamp r) ∧ Forall valid_text (record_strings r).
Definition coerced_record (r : AuditRecord) : AuditRecord :=
  mkAuditRecord (rec_Timestamp r) (coerced (rec_IntentID r)) (coerced (rec_SubjectID r))
    (coerced (rec_Action r)) (coerced (rec_Decision r)) (coerced (rec_PolicyID r)) (rec_IsAI r)
    (coerced (rec_Via r)) (coerced (rec_RunID r)) (coerced (rec_ParentID r))
    (coerced (rec_StepID r)) (coerced (rec_PrevHash r)) (coerced (rec_Hash r)).

#[export] Instance record_text_dec r : base.Decision (record_text r).
Proof. unfold record_text, stampable, valid_text. apply _. Defined.

(** [encoding/json] on a record. [unmarshal] fails with [None]; a marshalling that fails
    writes nothing, the empty text. What was marshalled reads back with its texts
    coerced to UTF-8; what was read has valid texts and reads back as itself. *)
Class RecordCodec := {
  marshal_record : AuditRecord → string;
  unmarshal_record : string → option AuditRecord;
  unmarshal_marshal r :
    stampable (rec_Timestamp r) → unmarshal_record (marshal_record r) = Some (coerced_record r);
  unmarshal_again s r : unmarshal_record s = Some r →
    coerced_record r = r ∧ ∀ h, valid_text h → unmarshal_record (marshal_record (with_hash r h)) = Some (with_hash r h);
}.

(** [hex.EncodeToString] of a digest is text. *)
Class HexDigest (sha256_hex : string → string) := digest_text s : valid_text (sha256_hex s).

Lemma coerced_text r :
  record_text r → valid_text (rec_PrevHash r) → valid_text (rec_Hash r) → coerced_record r = r.
Proof.
  intros [_ Ht] Hp Hh. unfold record_strings in Ht. rewrite !Forall_cons in Ht.
  unfold coerced_record. unfold valid_text in *. rewrite !coerced_valid by tauto. by destruct r.
Qed.

Lemma coerced_hashes r : coerced_record r = r → valid_text (rec_PrevHash r) ∧ valid_text (rec_Hash r).
Proof.
  intros Hr. apply (f_equal (λ r, (rec_PrevHash r, rec_Hash r))) in Hr. injection Hr as Hp Hh.
  unfold valid_text. rewrite <- Hp, <- Hh. by rewrite !ValidString_coerced.
Qed.

Section audit.
Context `{RecordCodec} {B : Type} `{!Bucket B} (sha256_hex : string → string).
Context {digest : HexDigest sha256_hex}.
Implicit Types (b : B) (rec : AuditRecord).

Definition hashRecord rec : string := sha256_hex (marshal_record (with_hash rec "")).

(** The hash of the last record, if there is one that parses. *)
Definition last_hash b : string :=
  match last_entry b with
  | Some (_, last) =>
      match unmarshal_record last with Some prev => rec_Hash prev | None => "" end
  | None => ""
  end.

(** [rec] as it is stored. *)
Definition chained b rec : AuditRecord :=
  let rec := with_prev rec (last_hash b) in with_hash rec (hashRecord rec).

(** One write transaction: on an error nothing of it is kept. *)
Definition Log b rec : result string AuditRecord * B :=
  let rec := chained b rec in
  match append_next b (λ _, marshal_record rec) with
  | Ok b' => (Ok rec, b')
  | Err e => (Err e, b)
  end.

Definition Count b : nat := length (entries b).

(** Newest first, at most [limit] when it is positive; [None] at the first that does not
    parse. *)
Fixpoint records_from (limit : Z) (taken : Z) (newest_first : list string) :
    option (list AuditRecord) :=
  match newest_first with
  | [] => Some []
  | v :: rest =>
      match unmarshal_record v with
      | None => None
      | Some rec =>
          if (0 <? limit)%Z && (limit <=? taken + 1)%Z then Some [rec]
          else cons rec <$> records_from limit (taken + 1) rest
      end
  end.

Definition Records b (limit : Z) : option (list AuditRecord) :=
  records_from limit 0 (reverse (entries b).*2).

(** The walk of [Verify] over the stored values, oldest first. *)
Fixpoint verify_from (prevHash : string) (values : list string) : bool :=
  match values with
  | [] => true
  | v :: values =>
      match unmarshal_record v with
      | None => false
      | Some rec =>
          if negb (rec_PrevHash rec =s? prevHash) || negb (hashRecord rec =s? rec_Hash rec)
          then false else verify_from (rec_Hash rec) values
      end
  end.

Definition Verify b : bool := verify_from "" (entries b).*2.

(** ** Lemmas *)

(** The hash a verified walk ends on. *)
Fixpoint end_hash (prevHash : string) (values : list string) : string :=
  match values with
  | [] => prevHash
  | v :: values =>
      end_hash (match unmarshal_record v with Some r => rec_Hash r | None => "" end) values
  end.

Lemma end_hash_snoc p values v :
  end_hash p (values ++ [v]) = match unmarshal_record v with Some r => rec_Hash r | None => "" end.
Proof. revert p. induction values as [|x values IH]; intros p; simpl; [done|]. apply IH. Qed.

Lemma last_hash_end b : last_hash b = end_hash "" (entries b).*2.
Proof.
  unfold last_hash, last_entry. destruct (entries b) as [|e l _] using rev_ind; [done|].
  rewrite last_snoc, fmap_app. simpl. rewrite end_hash_snoc. by destruct e.
Qed.

Lemma verify_from_app p l k :
  verify_from p (l ++ k) = verify_from p l && verify_from (end_hash p l) k.
Proof.
  revert p. induction l as [|v l IH]; intros p; simpl; [done|].
  destruct (unmarshal_record v); [|done]. by destruct (negb _ || negb _).
Qed.

Lemma hashRecord_with_hash rec h : hashRecord (with_hash rec h) = hashRecord rec.
Proof. done. Qed.

(** The hash a log ends on is text: it was read. *)
Lemma last_hash_text b : valid_text (last_hash b).
Proof.
  unfold last_hash. destruct (last_entry b) as [[k v]|]; [|done].
  destruct (unmarshal_record v) as [r|] eqn:E; [|done].
  apply unmarshal_again in E as [Hr _]. by apply coerced_hashes.
Qed.

(** What is stored of a record of valid texts reads back as what was stored. *)
Lemma chained_read_back b rec :
  record_text rec → unmarshal_record (marshal_record (chained b rec)) = Some (chained b rec).
Proof.
  intros [Ht Hs]. rewrite unmarshal_marshal by done. f_equal.
  apply coerced_text; [done|apply last_hash_text|].
  exact (digest_text (sha256_hex := sha256_hex) _).
Qed.

Lemma chained_verifies b rec :
  record_text rec → verify_from (last_hash b) [marshal_record (chained b rec)] = true.
Proof.
  intros Ht. simpl. rewrite chained_read_back by done. unfold chained. cbv zeta.
  rewrite hashRecord_with_hash. simpl. by rewrite !eqs_refl.
Qed.

Lemma records_from_all taken values :
  records_from 0 taken values = mapM unmarshal_record values.
Proof.
  revert taken. induction values as [|v values IH]; intros taken; simpl; [done|].
  destruct (unmarshal_record v); simpl; [|done]. rewrite IH. by destruct (mapM _ _).
Qed.

(** Logging succeeds exactly when the bucket takes the pair, and then adds one value. *)
Lemma Log_Ok b rec rec' b' :
  well_keyed b → (sequence b + 1 < 10 ^ 16)%Z → Log b rec = (Ok rec', b') →
  rec' = chained b rec ∧ (entries b').*2 = (entries b).*2 ++ [marshal_record rec'] ∧ well_keyed b'.
Proof.
  intros Hk Hmax. unfold Log. cbv zeta. destruct (append_next b _) as [b2|e] eqn:E; [|done].
  intros [= <- <-]. apply append_next_Ok in E as (He & _ & Hk'); [|done..].
  split_and!; [done| |done]. by rewrite He, fmap_app.
Qed.

Lemma Log_Err b rec e b' : Log b rec = (Err e, b') → b' = b.
Proof. unfold Log. cbv zeta. destruct (append_next b _); [done|]. by intros [= _ <-]. Qed.

Lemma Log_verified b rec rec' b' :
  record_text rec → well_keyed b → (sequence b + 1 < 10 ^ 16)%Z → Verify b = true → Log b rec = (Ok rec', b') →
  Verify b' = true ∧ Count b' = S (Count b) ∧
  ∀ older, Records b 0 = Some older → Records b' 0 = Some (rec' :: older).
Proof.
  intros Ht Hk Hmax Hv Hlog. apply Log_Ok in Hlog as (-> & He & Hk'); [|done..]. split_and!.
  - unfold Verify. rewrite He, verify_from_app. unfold Verify in Hv. rewrite Hv.
    rewrite <- last_hash_end. by apply chained_verifies.
  - unfold Count. rewrite <- !(length_fmap snd), He, length_app. simpl. lia.
  - unfold Records. rewrite !records_from_all, He, reverse_app. simpl.
    rewrite chained_read_back by done. simpl. by intros older ->.
Qed.

(** A verified log parses, so its records can be listed. *)
Lemma Verify_Records b : Verify b = true → is_Some (Records b 0).
Proof.
  unfold Verify, Records. rewrite records_from_all. generalize "" as p.
  intros p Hv. apply mapM_is_Some, Forall_reverse. revert p Hv.
  induction (entries b).*2 as [|v l IH]; intros p; simpl; [by constructor|].
  destruct (unmarshal_record v) as [r|] eqn:E; [|done].
  destruct (negb _ || negb _); [done|]. intros Hv. constructor; [by eexists|by eapply IH].
Qed.

(** C14: logging keeps the chain. Appending a record whose strings are valid UTF-8 and
    whose stamp is of the years 0 to 9999 to a verified log leaves a verified log one
    record longer, whose newest record is the one returned: the caller's, with the hash
    of the previous record and its own filled in. A failed append leaves the log as it
    was. The bound on the sequence is that of the sixteen-digit keys; a record with other
    strings is [invalid_text_breaks_the_chain]. *)
Theorem log_extends_verified_chain b rec
    (Htext : record_text rec)
    (Hkeys : well_keyed b) (Hroom : (sequence b + 1 < 10 ^ 16)%Z) (Hv : Verify b = true) :
  match Log b rec with
  | (Err _, b') => b' = b
  | (Ok rec', b') =>
      Verify b' = true ∧ Count b' = S (Count b) ∧
      (∀ older, Records b 0 = Some older → Records b' 0 = Some (rec' :: older)) ∧
      rec' = with_hash (with_prev rec (last_hash b)) (hashRecord (with_prev rec (last_hash b))) ∧
      well_keyed b'
  end.
Proof.
  destruct (Log b rec) as [[rec'|e] b'] eqn:E; [|by eapply Log_Err].
  pose proof (Log_verified b rec rec' b' Htext Hkeys Hroom Hv E) as (Hv' & Hc & Hr).
  apply Log_Ok in E as (-> & _ & Hk'); done.
Qed.

(** A record with a string that is not UTF-8 breaks the chain for good. It is hashed as it
    was given and stored coerced, so what [Verify] hashes is not what [Log] hashed, unless
    the digest happens to collide: the record is written without an error, and the log,
    with whatever is appended to it later, no longer verifies. *)
Theorem invalid_text_breaks_the_chain b rec rec' b'
    (Hstamp : stampable (rec_Timestamp rec))
    (Hkeys : well_keyed b) (Hroom : (sequence b + 1 < 10 ^ 16)%Z)
    (Hother : hashRecord (coerced_record rec') ≠ hashRecord rec')
    (Hlog : Log b rec = (Ok rec', b')) :
  ∀ b'' later, (entries b'').*2 = (entries b').*2 ++ later → Verify b'' = false.
Proof.
  apply Log_Ok in Hlog as (-> & He & _); [|done..]. intros b'' later Hb.
  unfold Verify. rewrite Hb, He, <- app_assoc, verify_from_app. apply andb_false_iff. right.
  cbn [app verify_from]. rewrite unmarshal_marshal by done.
  assert ((hashRecord (coerced_record (chained b rec)) =s? rec_Hash (coerced_record (chained b rec))) = false) as ->;
    [|by rewrite orb_true_r].
  apply eqs_false. unfold coerced_record at 2. cbn [rec_Hash]. unfold chained at 2. cbv zeta. cbn [rec_Hash with_hash].
  rewrite coerced_valid by exact (digest_text (sha256_hex := sha256_hex) _). exact Hother.
Qed.

(** ** Tampering *)

(** The digest separates the payloads of two records. *)
Definition no_collision (r1 r2 : AuditRecord) : Prop :=
  hashRecord r1 = hashRecord r2 →
  marshal_record (with_hash r1 "") = marshal_record (with_hash r2 "").

Lemma with_own_hash r : r = with_hash (with_hash r "") (rec_Hash r).
Proof. by destruct r. Qed.

Lemma same_hash_same_record v1 v2 r1 r2 :
  unmarshal_record v1 = Some r1 → unmarshal_record v2 = Some r2 → no_collision r1 r2 → hashRecord r1 = rec_Hash r1 → hashRecord r2 = rec_Hash r2 →
  rec_Hash r1 = rec_Hash r2 → r1 = r2.
Proof.
  intros Hr1 Hr2 Hno H1 H2 Heq. unfold no_collision in Hno.
  apply unmarshal_again in Hr1 as [_ Hr1], Hr2 as [_ Hr2].
  assert (with_hash r1 "" = with_hash r2 "") as Hw.
  { apply (inj Some). rewrite <- Hr1, <- Hr2 by done. f_equal. apply Hno. congruence. }
  rewrite (with_own_hash r1), (with_own_hash r2). congruence.
Qed.

Lemma verify_snoc values v :
  verify_from "" (values ++ [v]) = true →
  ∃ r, unmarshal_record v = Some r ∧ rec_PrevHash r = end_hash "" values ∧
    hashRecord r = rec_Hash r ∧ verify_from "" values = true.
Proof.
  rewrite verify_from_app, andb_true_iff. intros [Hv Hl]. simpl in Hl.
  destruct (unmarshal_record v) as [r|]; [|done].
  destruct (_ =s? _) eqn:E1; [|done]. destruct (hashRecord r =s? _) eqn:E2; [|done].
  autorewrite with mk in E1, E2. eauto.
Qed.

(** C15: the newest hash pins the whole log. Two verified logs that end on the same hash
    hold the same records, in the same order and number, provided the digest does not
    collide on their records and is never empty: no record of the past can be changed,
    inserted, dropped or reordered while the newest hash stays what it was. *)
Theorem newest_hash_pins_the_log b1 b2
    (Hv1 : Verify b1 = true) (Hv2 : Verify b2 = true)
    (Hdigest : ∀ x, sha256_hex x ≠ "")
    (Hno : ∀ r1 r2, Some r1 ∈ map unmarshal_record (entries b1).*2 →
             Some r2 ∈ map unmarshal_record (entries b2).*2 → no_collision r1 r2)
    (Hlast : last_hash b1 = last_hash b2) :
  map unmarshal_record (entries b1).*2 = map unmarshal_record (entries b2).*2.
Proof.
  rewrite !last_hash_end in Hlast. unfold Verify in *.
  revert Hv1 Hno Hlast. generalize (entries b1).*2 as l1. revert Hv2.
  generalize (entries b2).*2 as l2. clear b1 b2. intros l2 Hv2 l1. revert l2 Hv2.
  induction l1 as [|v1 l1 IH] using rev_ind; intros l2; destruct l2 as [|v2 l2 _] using rev_ind.
  - done.
  - intros (r & Hr & _ & Hh & _)%verify_snoc _ _. rewrite end_hash_snoc, Hr, <- Hh. simpl.
    intros Heq. by destruct (Hdigest (marshal_record (with_hash r ""))).
  - intros _ (r & Hr & _ & Hh & _)%verify_snoc _. rewrite end_hash_snoc, Hr, <- Hh. simpl.
    intros Heq. by destruct (Hdigest (marshal_record (with_hash r ""))).
  - intros (r2 & Hr2 & Hp2 & Hh2 & Hv2)%verify_snoc (r1 & Hr1 & Hp1 & Hh1 & Hv1)%verify_snoc Hno.
    rewrite !end_hash_snoc, Hr1, Hr2. intros Heq. rewrite !map_app in *. simpl in *.
    rewrite Hr1, Hr2 in *.
    assert (r1 = r2) as ->.
    { eapply same_hash_same_record; [done|done| |done..]. apply Hno; apply elem_of_app; right; by left. }
    f_equal. apply IH; [done..| |congruence].
    intros x y Hx Hy. apply Hno; apply elem_of_app; by left.
Qed.

(** What the walk cannot see. Every log cut short, the empty one included, still
    verifies: only the count, or a hash kept elsewhere, shows that records are gone. *)
Theorem truncation_verifies b b' k
    (Hv : Verify b = true) (Hcut : entries b' = take k (entries b)) :
  Verify b' = true ∧ Count b' = Nat.min k (Count b).
Proof.
  unfold Verify, Count in *. rewrite Hcut, length_take. split; [|done].
  rewrite <- (take_drop k (entries b)), fmap_app, verify_from_app in Hv.
  by apply andb_true_iff in Hv as [Hv _].
Qed.
End audit.

(** ** A codec and a digest to run the chain with, and witnesses *)

(** A field: every byte marked, then an end mark. *)
Fixpoint put_field (s rest : string) : string :=
  match s with
  | EmptyString => String "." rest
  | String c s => String "+" (String c (put_field s rest))
  end.
Fixpoint get_field (s : string) : option (string * string) :=
  match s with
  | String "." rest => Some ("", rest)
  | String "+" (String c s) => '(f, rest) ← get_field s; Some (String c f, rest)
  | _ => None
  end.
Fixpoint get_fields (n : nat) (s : string) : option (list string) :=
  match n with
  | 0 => Some []
  | S n => '(f, rest) ← get_field s; cons f <$> get_fields n rest
  end.

Lemma get_put_field f rest : get_field (put_field f rest) = Some (f, rest).
Proof. induction f as [|c f IH]; simpl; [done|]. by rewrite IH. Qed.

Lemma get_put_fields l : get_fields (length l) (foldr put_field "" l) = Some l.
Proof. induction l as [|f l IH]; simpl; [done|]. by rewrite get_put_field; simpl; rewrite IH. Qed.

(** A positive as its binary digits. *)
Fixpoint bits (p : positive) : string :=
  match p with
  | xH => EmptyString
  | xO p => String "0" (bits p)
  | xI p => String "1" (bits p)
  end.
Fixpoint of_bits (s : string) : option positive :=
  match s with
  | EmptyString => Some xH
  | String c s =>
      p ← of_bits s; if bool_decide (c = "0"%char) then Some (xO p) else Some (xI p)
  end.

Lemma of_bits_bits p : of_bits (bits p) = Some p.
Proof. induction p as [p IH|p IH|]; simpl; [by rewrite IH..|done]. Qed.

Definition record_fields (r : AuditRecord) : list string :=
  [bits (encode (rec_Timestamp r)); rec_IntentID r; rec_SubjectID r; rec_Action r; rec_Decision r;
   rec_PolicyID r; bits (encode (rec_IsAI r)); rec_Via r; rec_RunID r; rec_ParentID r;
   rec_StepID r; rec_PrevHash r; rec_Hash r].

Definition fields_record (l : list string) : option AuditRecord :=
  match l with
  | [ts; i; s; a; d; p; ai; v; ru; pa; st; ph; h] =>
      ts ← (of_bits ts ≫= decode); ai ← (of_bits ai ≫= decode);
      Some (mkAuditRecord ts i s a d p ai v ru pa st ph h)
  | _ => None
  end.

Definition record_of_fields (s : string) : option AuditRecord :=
  coerced_record <$> (get_fields 13 s ≫= fields_record).

#[refine, export] Instance demo_record_codec : RecordCodec := {|
  marshal_record := λ r, foldr put_field "" (record_fields r);
  unmarshal_record := record_of_fields;
|}.
Proof.
  - intros r _. unfold record_of_fields. change 13 with (length (record_fields r)).
    rewrite get_put_fields. cbn -[encode decode of_bits bits]. rewrite !of_bits_bits.
    cbn -[encode decode]. rewrite !decode_encode. by destruct r.
  - intros s r. unfold record_of_fields. intros (r0 & _ & ->)%fmap_Some.
    assert (coerced_record (coerced_record r0) = coerced_record r0) as Hr.
    { unfold coerced_record. cbn. by rewrite !coerced_idemp. }
    split; [done|]. intros h Hh. change 13 with (length (record_fields (with_hash (coerced_record r0) h))).
    rewrite get_put_fields. cbn -[encode decode of_bits bits coerced]. rewrite !of_bits_bits.
    cbn -[encode decode coerced]. rewrite !decode_encode. cbn -[coerced]. unfold coerced_record, with_hash. cbn -[coerced].
    by rewrite !coerced_idemp, (coerced_valid h).
Defined.

(** A checksum: enough to tell the demo's records apart. *)
Fixpoint checksum (acc : N) (s : string) : N :=
  match s with
  | EmptyString => acc
  | String c s => checksum ((acc * 131 + N_of_ascii c) mod 1000000007)%N s
  end.
Definition demo_sha (s : string) : string := String "h" (pretty (checksum 7 s)).

#[export] Instance demo_digest : HexDigest demo_sha.
Proof. intros s. apply ascii_valid. exact (pretty_ascii (checksum 7 s)). Qed.

Definition demo_record (intent action decision : string) : AuditRecord :=
  mkAuditRecord 5 intent "u-17" action decision "mantlekeep.rbac" false "cli" "" "" "" "" "".

Definition demo_log1 : ListBucket :=
  (Log demo_sha empty_bucket (demo_record "i-1" "job.run" ActionAllow)).2.
Definition demo_log2 : ListBucket :=
  (Log demo_sha demo_log1 (demo_record "i-2" "deploy.prod" ActionDeny)).2.

(** The same records under other keys. *)
Definition demo_rekeyed : ListBucket :=
  mkListBucket (map (λ e, ("k" +:+ e.1, e.2)) (lb_entries demo_log2)) 2.

Lemma demo_log1_keyed : well_keyed demo_log1.
Proof.
  split; [by vm_compute|]. apply Forall_forall.
  assert (Forall (λ e : string * string, e.1 = seq_key 1) (entries demo_log1)) as Hf
    by (by apply (bool_decide_unpack _); vm_compute).
  rewrite Forall_forall in Hf. intros e He. exists 1%Z. split; [done|by apply Hf].
Qed.

Lemma log_extends_verified_chain_witness :
  Verify demo_sha demo_log2 = true ∧ Count demo_log2 = 2.
Proof.
  pose proof (log_extends_verified_chain demo_sha demo_log1
    (demo_record "i-2" "deploy.prod" ActionDeny)
    ltac:(by apply (bool_decide_unpack _); vm_compute) demo_log1_keyed) as H.
  specialize (H ltac:(by vm_compute) ltac:(by vm_compute)).
  unfold demo_log2. destruct (Log _ _ _) as [[rec'|e] b'] eqn:E.
  - destruct H as (Hv & Hc & _). split; [exact Hv|]. simpl. rewrite Hc. by vm_compute.
  - exfalso. assert (is_ok (Log demo_sha demo_log1
      (demo_record "i-2" "deploy.prod" ActionDeny)).1 = true) as Hok by (by vm_compute).
    by rewrite E in Hok.
Defined.

(** A subject whose id is the byte 0xFF: the record is written, and the log is broken. *)
Definition demo_bad_record : AuditRecord :=
  mkAuditRecord 5 "i-3" (bytes [255%N]) "job.run" ActionAllow "mantlekeep.rbac" false "cli" "" "" "" "" "".

Lemma a_byte_that_is_not_text_breaks_the_log :
  is_ok (Log demo_sha demo_log2 demo_bad_record).1 = true ∧
  Verify demo_sha demo_log2 = true ∧
  Verify demo_sha (Log demo_sha demo_log2 demo_bad_record).2 = false.
Proof. split_and!; by vm_compute. Qed.

Definition no_collisions_in (l : list (option AuditRecord)) : bool :=
  forallb (λ o1, forallb (λ o2,
    match o1, o2 with
    | Some r1, Some r2 =>
        negb (hashRecord demo_sha r1 =s? hashRecord demo_sha r2) ||
        (marshal_record (with_hash r1 "") =s? marshal_record (with_hash r2 ""))
    | _, _ => true
    end) l) l.

Lemma no_collisions_in_true l r1 r2 :
  no_collisions_in l = true → Some r1 ∈ l → Some r2 ∈ l → no_collision demo_sha r1 r2.
Proof.
  unfold no_collisions_in. rewrite forallb_forall. setoid_rewrite forallb_forall.
  intros H H1%list_elem_of_In H2%list_elem_of_In Heq. specialize (H _ H1 _ H2). simpl in H.
  rewrite Heq, eqs_refl in H. simpl in H. by apply eqs_true in H.
Qed.

Lemma newest_hash_pins_the_log_witness :
  map unmarshal_record (entries demo_log2).*2 = map unmarshal_record (entries demo_rekeyed).*2.
Proof.
  apply (newest_hash_pins_the_log demo_sha demo_log2 demo_rekeyed).
  - by vm_compute.
  - by vm_compute.
  - done.
  - intros r1 r2 H1 H2.
    assert (map unmarshal_record (entries demo_rekeyed).*2 =
            map unmarshal_record (entries demo_log2).*2) as Hm by (by vm_compute).
    rewrite Hm in H2. clear Hm.
    eapply no_collisions_in_true; [|exact H1|exact H2]. by vm_compute.
  - by vm_compute.
Defined.

Lemma truncation_verifies_witness :
  Verify demo_sha demo_log1 = true ∧ Count demo_log1 = Nat.min 1 (Count demo_log2).
Proof.
  apply (truncation_verifies demo_sha demo_log2 demo_log1 1); by vm_compute.
Defined.
