(* ===== verification/SqlStore.v ===== *)
(** The rows behind [PolicyPg]: [mantlekeep-policy-postgres/sqlstore] ([store.go],
    [seed.go]) over the two tables of [schema.sql].

    A transaction that was begun is one atomic step: [FOR UPDATE] holds the only row of the
    head from its reading to the commit, so the reading already sees every commit of
    others and none falls in between. What the database or the network does to each of the
    five calls of a transaction is an argument; the one that matters is a commit that
    landed though its answer was lost. *)
From S2P Require Import Prelude Utf8 Contracts AuditChain Grants PolicyPg.

(** ** The tables *)

Record HeadRow := mkHeadRow { hr_grants_doc : string; hr_floors_doc : string; hr_revision : string }.

Record HistoryRow := mkHistoryRow {
  hi_parent_revision : string;
  hi_revision : string;
  hi_grants_doc : string;
  hi_floors_doc : string;
  hi_change_role : string;
  hi_change_action : string;
  hi_change_grant : bool;
  hi_change_reason : string;
}.

(** At most one head, by its primary key; the history in the order of [seq]. *)
Record Tables := mkTables { tb_head : option HeadRow; tb_history : list HistoryRow }.

(** Grants whose strings are UTF-8. *)
Definition text_grants (g : Grants) : Prop :=
  map_Forall (λ role actions, ValidString role = true ∧ Forall (λ a, ValidString a = true) actions) (RoleActions g) ∧
  Forall (λ a, ValidString a = true) (ApprovalActions g).

(** The columns of type [jsonb]: what is no JSON is refused, the rest is stored in a normal
    form of the same meaning. What the codec reads is UTF-8, and what it writes of that is
    JSON that it reads back. *)
Class JsonColumns `{PolicyCodec} := {
  jsonb : string → option string;
  jsonb_same_grants d n : jsonb d = Some n → unmarshal_grants n = unmarshal_grants d;
  jsonb_same_floors d n : jsonb d = Some n → unmarshal_floors n = unmarshal_floors d;
  grants_are_text d g : unmarshal_grants d = Ok g → text_grants g;
  grants_read_back g d : text_grants g → marshal_grants g = Ok d → unmarshal_grants d = Ok g;
  floors_read_back f d0 d : unmarshal_floors d0 = Ok f → marshal_floors f = Ok d → unmarshal_floors d = Ok f;
}.

(** How a commit ends: in, out, or in without the client learning of it. *)
Inductive commit_result :=
| Committed
| NotCommitted (e : string)
| CommitLost (e : string).

(** What becomes of each call of a transaction: an error, or none. *)
Record Faults := mkFaults {
  fl_begin : option string;
  fl_query : option string;
  fl_write : option string;
  fl_rows : option string;
  fl_append : option string;
  fl_commit : commit_result;
}.
Definition faultless : Faults := mkFaults None None None None None Committed.

Definition failed (what e : string) : go_error := ErrorWrap ("sqlstore: " +:+ what +:+ ": " +:+ e) [ErrorText e].
Definition unless (fault : option string) (what : string) : result go_error unit :=
  match fault with Some e => Err (failed what e) | None => Ok tt end.
(** A statement the server refuses, with one of its texts. *)
Definition or_refused {A} (what : string) (r : option A) : result go_error A :=
  match r with Some a => Ok a | None => Err (failed what "invalid input syntax for type json") end.

Section statements.
Context `{JsonColumns}.

(** [updateHeadStatement]: the head with new documents, and how many rows changed. *)
Definition update_head (t : Tables) (grantsDoc floorsDoc revision old : string) : option (Z * Tables) :=
  match jsonb grantsDoc, jsonb floorsDoc with
  | Some g, Some f =>
      match tb_head t with
      | Some row => if hr_revision row =s? old then Some (1, mkTables (Some (mkHeadRow g f revision)) (tb_history t))%Z
                    else Some (0, t)%Z
      | None => Some (0, t)%Z
      end
  | _, _ => None
  end.

(** What columns of type [text] take, in a database whose encoding is UTF8. *)
Definition text_change (c : Change) : bool :=
  ValidString (ch_Role c) && ValidString (ch_Action c) && ValidString (ch_Reason c).

(** [appendHistoryStatement] *)
Definition append_history (t : Tables) (parent revision grantsDoc floorsDoc : string) (c : Change) : option Tables :=
  match jsonb grantsDoc, jsonb floorsDoc with
  | Some g, Some f =>
      if negb (text_change c) then None else Some (mkTables (tb_head t) (tb_history t ++
        [mkHistoryRow parent revision g f (ch_Role c) (ch_Action c) (ch_Grant c) (ch_Reason c)]))
  | _, _ => None
  end.

(** [seedHeadStatement]: [ON CONFLICT (id) DO NOTHING]. *)
Definition seed_head (t : Tables) (grantsDoc floorsDoc revision : string) : option (Z * Tables) :=
  match jsonb grantsDoc, jsonb floorsDoc with
  | Some g, Some f =>
      match tb_head t with
      | Some _ => Some (0, t)%Z
      | None => Some (1, mkTables (Some (mkHeadRow g f revision)) (tb_history t))%Z
      end
  | _, _ => None
  end.

(** ** store.go *)

Definition snapshot_of_row (row : HeadRow) : Snapshot := mkSnapshot (hr_grants_doc row) (hr_floors_doc row) (hr_revision row).

Definition sql_Head (fault : option string) (t : Tables) : result go_error Snapshot :=
  _ <-? unless fault "reading the policy in force" ;
  match tb_head t with
  | None => Err (ErrorVar ErrNoPolicy)
  | Some row => Ok (snapshot_of_row row)
  end.

(** The end of a transaction: what the client is told, and what the tables hold. *)
Definition sql_Commit (c : commit_result) (what : string) (t t' : Tables) : result go_error unit * Tables :=
  match c with
  | Committed => (Ok tt, t')
  | NotCommitted e => (Err (failed what e), t)
  | CommitLost e => (Err (failed what e), t')
  end.

Definition head_moved (revision : string) : go_error :=
  ErrorWrap (ErrRevisionConflict +:+ ": the head is no longer at " +:+ revision) [ErrorVar ErrRevisionConflict].

(** From the head under the lock to what is to be committed. *)
Definition sql_written (f : Faults) (t : Tables) (row : HeadRow) (entry : Entry) : result go_error Tables :=
  let next := en_Snapshot entry in
  _ <-? unless (fl_write f) "writing the new policy" ;
  updated <-? or_refused "writing the new policy"
    (update_head t (sn_GrantsDoc next) (sn_FloorsDoc next) (sn_StoredRevision next) (hr_revision row)) ;
  _ <-? unless (fl_rows f) "writing the new policy" ;
  refuse negb (updated.1 =? 1)%Z with head_moved (hr_revision row) ;
  _ <-? unless (fl_append f) "recording the policy change" ;
  or_refused "recording the policy change"
    (append_history updated.2 (en_ParentRevision entry) (sn_StoredRevision next) (sn_GrantsDoc next) (sn_FloorsDoc next)
       (en_Change entry)).

(** [Update], with the heads [apply] was called on. *)
Definition sql_Update (f : Faults) (t : Tables) (apply : Snapshot → result go_error Entry) :
    result go_error unit * Tables * list Snapshot :=
  match unless (fl_begin f) "starting the policy change transaction" with
  | Err e => (Err e, t, [])
  | Ok _ =>
  match unless (fl_query f) "reading the policy to change it" with
  | Err e => (Err e, t, [])
  | Ok _ =>
  match tb_head t with
  | None => (Err (ErrorVar ErrNoPolicy), t, [])
  | Some row =>
      let head := snapshot_of_row row in
      match apply head with
      | Err e => (Err e, t, [head])
      | Ok entry =>
          match sql_written f t row entry with
          | Err e => (Err e, t, [head])
          | Ok t' => (sql_Commit (fl_commit f) "committing the policy change" t t', [head])
          end
      end
  end end end.

(** ** seed.go *)

(** Whether one was created; the second component is the tables after it. *)
Definition sql_Seed (f : Faults) (t : Tables) (snapshot : Snapshot) (reason : string) : result go_error bool * Tables :=
  if (sn_GrantsDoc snapshot =s? "") || (sn_FloorsDoc snapshot =s? "")
  then (Err (ErrorText "sqlstore: seeding needs both documents; a missing one is not an empty one"), t)
  else if TrimSpace reason =s? ""
  then (Err (ErrorText ("sqlstore: seeding needs a reason — it is the only record of " +:+
                        "where this deployment's policy came from")), t)
  else
    let seeded :=
      _ <-? unless (fl_begin f) "starting the seed transaction" ;
      _ <-? unless (fl_write f) "seeding the policy" ;
      created <-? or_refused "seeding the policy"
        (seed_head t (sn_GrantsDoc snapshot) (sn_FloorsDoc snapshot) (sn_StoredRevision snapshot)) ;
      _ <-? unless (fl_rows f) "seeding the policy" ;
      if (created.1 =? 0)%Z then Ok None
      else
        _ <-? unless (fl_append f) "recording where the policy came from" ;
        t' <-? or_refused "recording where the policy came from"
          (append_history created.2 "" (sn_StoredRevision snapshot) (sn_GrantsDoc snapshot) (sn_FloorsDoc snapshot)
             (mkChange "" "" false reason)) ;
        Ok (Some t') in
    match seeded with
    | Err e => (Err e, t)
    | Ok None => (Ok false, t)
    | Ok (Some t') =>
        let '(r, t) := sql_Commit (fl_commit f) "committing the seed" t t' in
        (match r with Ok _ => Ok true | Err e => Err e end, t)
    end.
End statements.

(** ** open.go *)

(** The driver opens a pool and the pool answers, or not. *)
Definition sql_Open {Pool} (open : string → result string Pool) (ping : Pool → option string) (dsn : string) : result go_error Pool :=
  if TrimSpace dsn =s? "" then Err (ErrorText "sqlstore: Open needs a data source name") else
  match open dsn with
  | Err e => Err (failed "opening the policy database" e)
  | Ok db =>
      match ping db with
      | Some e => Err (failed "cannot reach the policy database" e)
      | None => Ok db
      end
  end.

(** A nil pool is [None]; the panic's text is the error. *)
Definition sql_New {Pool} (db : option Pool) : result string Pool :=
  match db with None => Err "sqlstore: New requires a non-nil *sql.DB" | Some db => Ok db end.

(** ** One transaction *)

Section sql_props.
Context `{JsonColumns} (sha256_hex : string → string).

Definition change_of (r : HistoryRow) : Change :=
  mkChange (hi_change_role r) (hi_change_action r) (hi_change_grant r) (hi_change_reason r).
Definition snapshot_of_history (r : HistoryRow) : Snapshot := mkSnapshot (hi_grants_doc r) (hi_floors_doc r) (hi_revision r).

(** The tables with a change on top of the head [row]. *)
Definition landed (t : Tables) (row : HeadRow) (revision g f : string) (c : Change) : Tables :=
  mkTables (Some (mkHeadRow g f revision))
    (tb_history t ++ [mkHistoryRow (hr_revision row) revision g f (ch_Role c) (ch_Action c) (ch_Grant c) (ch_Reason c)]).

(** The head is held: the compare-and-set of the update always finds it. *)
Lemma update_head_held t row g f revision :
  tb_head t = Some row →
  update_head t g f revision (hr_revision row) =
    match jsonb g, jsonb f with
    | Some g, Some f => Some (1, mkTables (Some (mkHeadRow g f revision)) (tb_history t))%Z
    | _, _ => None
    end.
Proof. intros Hrow. unfold update_head. rewrite Hrow, eqs_refl. by destruct (jsonb g), (jsonb f). Qed.

Lemma sql_written_Ok f t row entry t' :
  tb_head t = Some row → sql_written f t row entry = Ok t' →
  ∃ g fl, jsonb (sn_GrantsDoc (en_Snapshot entry)) = Some g ∧ jsonb (sn_FloorsDoc (en_Snapshot entry)) = Some fl ∧
    text_change (en_Change entry) = true ∧
    t' = mkTables (Some (mkHeadRow g fl (sn_StoredRevision (en_Snapshot entry))))
           (tb_history t ++ [mkHistoryRow (en_ParentRevision entry) (sn_StoredRevision (en_Snapshot entry)) g fl
              (ch_Role (en_Change entry)) (ch_Action (en_Change entry)) (ch_Grant (en_Change entry)) (ch_Reason (en_Change entry))]).
Proof.
  intros Hrow. unfold sql_written. rewrite (update_head_held _ _ _ _ _ Hrow). unfold append_history.
  destruct (unless (fl_write f) _); [|done]. cbn [rbind].
  destruct (jsonb (sn_GrantsDoc _)) as [g|]; [|done]. destruct (jsonb (sn_FloorsDoc _)) as [fl|]; [|done]. cbn [or_refused rbind].
  destruct (unless (fl_rows f) _); [|done]. cbn [rbind fst]. destruct (unless (fl_append f) _); [|done].
  destruct (text_change (en_Change entry)) eqn:Ht; [|done]. cbn. intros [= <-]. by exists g, fl.
Qed.

(** No writer loses a race: the store never answers with a conflict of its own. *)
Lemma sql_written_no_conflict f t row entry e :
  tb_head t = Some row → sql_written f t row entry = Err e → ∃ what why, e = failed what why.
Proof.
  intros Hrow. unfold sql_written. rewrite (update_head_held _ _ _ _ _ Hrow). unfold append_history, unless, or_refused.
  destruct (fl_write f); [intros [= <-]; by eexists _, _|]. cbn [rbind].
  destruct (jsonb (sn_GrantsDoc (en_Snapshot entry))), (jsonb (sn_FloorsDoc (en_Snapshot entry))); cbn [rbind]; try (intros [= <-]; by eexists _, _).
  destruct (fl_rows f); [intros [= <-]; by eexists _, _|]. cbn. destruct (fl_append f); [intros [= <-]; by eexists _, _|].
  destruct (text_change _); [done|]. cbn. intros [= <-]. by eexists _, _.
Qed.

(** [Update] lands the entry whole, or changes nothing; an error of anything but a lost
    commit means that it changed nothing. *)
Lemma sql_Update_spec f t apply r t' calls :
  sql_Update f t apply = (r, t', calls) →
  (t' = t ∧ is_ok r = false) ∨
  ∃ row entry g fl, tb_head t = Some row ∧ apply (snapshot_of_row row) = Ok entry ∧ calls = [snapshot_of_row row] ∧
    jsonb (sn_GrantsDoc (en_Snapshot entry)) = Some g ∧ jsonb (sn_FloorsDoc (en_Snapshot entry)) = Some fl ∧
    text_change (en_Change entry) = true ∧
    t' = mkTables (Some (mkHeadRow g fl (sn_StoredRevision (en_Snapshot entry))))
           (tb_history t ++ [mkHistoryRow (en_ParentRevision entry) (sn_StoredRevision (en_Snapshot entry)) g fl
              (ch_Role (en_Change entry)) (ch_Action (en_Change entry)) (ch_Grant (en_Change entry)) (ch_Reason (en_Change entry))]) ∧
    (∀ e, r = Err e → errors_is e ErrRevisionConflict = false ∧ ∃ e', fl_commit f = CommitLost e').
Proof.
  unfold sql_Update. destruct (unless (fl_begin f) _); [|intros [= <- <- <-]; by left].
  destruct (unless (fl_query f) _); [|intros [= <- <- <-]; by left].
  destruct (tb_head t) as [row|] eqn:Hrow; [|intros [= <- <- <-]; by left].
  destruct (apply _) as [entry|] eqn:Ha; [|intros [= <- <- <-]; by left].
  destruct (sql_written f t row entry) as [t1|] eqn:Hw; [|intros [= <- <- <-]; by left].
  apply (sql_written_Ok _ _ _ _ _ Hrow) in Hw as (g & fl & Hg & Hf & Htext & ->).
  unfold sql_Commit. destruct (fl_commit f) eqn:Hc; intros [= <- <- <-]; [|by left|]; right; exists row, entry, g, fl;
    split_and!; try done. intros e' [= <-]. split; [done|by eexists].
Qed.

(** ** The history *)

(** A transaction of the deployment: a governed change, or the seed. *)
Inductive transaction :=
| TxWrite (f : Faults) (change : Change)
| TxSeed (f : Faults) (snapshot : Snapshot) (reason : string).

Definition tx_write (f : Faults) (change : Change) (t : Tables) : result go_error unit * Tables :=
  let '(r, t, _) := sql_Update f t (apply_to_head sha256_hex change) in (r, t).
Definition transact (t : Tables) (tx : transaction) : Tables :=
  match tx with
  | TxWrite f change => (tx_write f change t).2
  | TxSeed f snapshot reason => (sql_Seed f t snapshot reason).2
  end.
Definition transacts (txs : list transaction) : Tables := foldl transact (mkTables None []) txs.

(** What the policy said after the first [k] rows: the genesis with the changes since. *)
Definition replayed (d0 : documents) (rest : list HistoryRow) : documents :=
  mkDocuments (foldl applyChange (ds_grants d0) (map change_of rest)) (ds_floors d0).

(** The genesis and what follows it. *)
Record explained (row : HeadRow) (genesis : HistoryRow) (rest : list HistoryRow) : Prop := {
  ex_genesis : hi_parent_revision genesis = "" ∧ hi_change_role genesis = "" ∧ hi_change_action genesis = "";
  ex_head r : last (genesis :: rest) = Some r → snapshot_of_history r = snapshot_of_row row;
  ex_linked k a b : (genesis :: rest) !! k = Some a → (genesis :: rest) !! S k = Some b → hi_parent_revision b = hi_revision a;
  ex_unread e : decode (snapshot_of_history genesis) = Err e → rest = [];
  ex_replays d0 k r : decode (snapshot_of_history genesis) = Ok d0 → (genesis :: rest) !! k = Some r →
    decode (snapshot_of_history r) = Ok (replayed d0 (take k rest));
}.
Definition explained_tables (t : Tables) : Prop :=
  match tb_head t with
  | None => tb_history t = []
  | Some row => ∃ genesis rest, tb_history t = genesis :: rest ∧ explained row genesis rest
  end.

(** A change of valid texts keeps the grants so. *)
Lemma text_applyChange g c : text_grants g → text_change c = true → text_grants (applyChange g c).
Proof.
  intros [Hg Ha] [[Hr Hc]%andb_true_iff _]%andb_true_iff. split; [|done]. unfold applyChange. cbn [RoleActions].
  unfold grantAction, revokeAction. intros role actions. destruct (ch_Grant c).
  - destruct (slice_contains _ _); [apply Hg|]. rewrite lookup_insert_Some. intros [[<- <-]|[_ Hl]]; [|by apply Hg].
    split; [done|]. apply Forall_app. split; [|by constructor]. unfold get_list.
    destruct (RoleActions g !! ch_Role c) as [l|] eqn:E; [by apply (Hg _ _ E)|constructor].
  - destruct (RoleActions g !! ch_Role c) as [l|] eqn:E; [|apply Hg]. destruct (_ =? _)%nat; [apply Hg|].
    assert (Forall (λ a, ValidString a = true) (filter (λ x, x ≠ ch_Action c) l)) as Hf.
    { pose proof (proj2 (Hg _ _ E)) as Hl. rewrite Forall_forall in Hl |- *. intros x [_ Hx]%list_elem_of_filter. by apply Hl. }
    destruct (filter _ l) as [|x rest]; [intros [_ Hl]%lookup_delete_Some; by apply Hg|].
    rewrite lookup_insert_Some. intros [[<- <-]|[_ Hl]]; [by split|by apply Hg].
Qed.

(** What a rendered change decodes to, once it is in the columns. *)
Lemma render_change_read_back change head entry revision g fl :
  render_change sha256_hex change head = Ok (entry, revision) →
  jsonb (sn_GrantsDoc (en_Snapshot entry)) = Some g → jsonb (sn_FloorsDoc (en_Snapshot entry)) = Some fl →
  text_change change = true →
  en_Change entry = change ∧ en_ParentRevision entry = sn_StoredRevision head ∧
  ∃ d, decode head = Ok d ∧
    ∀ rev, decode (mkSnapshot g fl rev) = Ok (mkDocuments (applyChange (ds_grants d) change) (ds_floors d)).
Proof.
  unfold render_change. intros Hr Hg Hf Ht. apply rbind_Ok in Hr as (d & Hd & Hr). apply rbind_Ok in Hr as ([next rev] & He & Hr).
  injection Hr as <- <-. split; [done|]. split; [done|]. exists d. split; [done|]. intros rev'. unfold encode in He.
  destruct (marshal_grants _) as [gd|] eqn:Hmg; [|done]. destruct (marshal_floors _) as [fd|] eqn:Hmf; [|done].
  injection He as <- <-. cbn in Hg, Hf. unfold decode in Hd |- *. cbn [sn_GrantsDoc sn_FloorsDoc].
  destruct (unmarshal_grants (sn_GrantsDoc head)) as [g0|] eqn:Hg0; [|done].
  destruct (unmarshal_floors (sn_FloorsDoc head)) as [f0|] eqn:Hf0; [|done]. injection Hd as <-. cbn [ds_grants ds_floors] in *.
  pose proof (text_applyChange _ change (grants_are_text _ _ Hg0) Ht) as Htext.
  rewrite (jsonb_same_grants _ _ Hg), (jsonb_same_floors _ _ Hf), (grants_read_back _ _ Htext Hmg), (floors_read_back _ _ _ Hf0 Hmf). done.
Qed.

Lemma last_is_there (x : HistoryRow) l : ∃ r, last (x :: l) = Some r ∧ (x :: l) !! length l = Some r.
Proof.
  destruct (last (x :: l)) as [r|] eqn:E.
  - exists r. split; [done|]. by rewrite <- E, last_lookup.
  - by apply last_None in E.
Qed.

(** One more row that was rendered from the head and names it. *)
Lemma explained_snoc row genesis rest b d :
  explained row genesis rest → decode (snapshot_of_row row) = Ok d → hi_parent_revision b = hr_revision row →
  decode (snapshot_of_history b) = Ok (mkDocuments (applyChange (ds_grants d) (change_of b)) (ds_floors d)) →
  explained (mkHeadRow (hi_grants_doc b) (hi_floors_doc b) (hi_revision b)) genesis (rest ++ [b]).
Proof.
  intros Hex Hd Hp Hb. destruct (last_is_there genesis rest) as (l & Hlast & Hl).
  pose proof (ex_head _ _ _ Hex l Hlast) as Hsnap. split.
  - apply Hex.
  - intros r. rewrite app_comm_cons, last_snoc. by intros [= <-].
  - intros k a r Ha Hr. rewrite app_comm_cons in Ha, Hr.
    apply lookup_app_Some in Hr as [Hr|[Hge Hr]].
    + apply lookup_app_Some in Ha as [Ha|[Hge _]]; [by eapply (ex_linked _ _ _ Hex)|]. apply lookup_lt_Some in Hr. simpl in *. lia.
    + apply list_lookup_singleton_Some in Hr as [Hk ->]. rewrite lookup_app_l in Ha by (simpl in *; lia).
      assert (k = length rest) as -> by (simpl in *; lia). rewrite Hl in Ha. injection Ha as ->.
      rewrite Hp. apply (f_equal sn_StoredRevision) in Hsnap. done.
  - intros e He. rewrite (ex_unread _ _ _ Hex e He) in *. injection Hlast as <-. congruence.
  - intros d0 k r Hd0 Hr. rewrite app_comm_cons in Hr. pose proof (ex_replays _ _ _ Hex d0 _ _ Hd0 Hl) as Hrow.
    rewrite firstn_all, Hsnap, Hd in Hrow. injection Hrow as ->. apply lookup_app_Some in Hr as [Hr|[Hge Hr]].
    + pose proof (lookup_lt_Some _ _ _ Hr) as Hlt. simpl in Hlt. rewrite take_app_le by lia. by apply (ex_replays _ _ _ Hex).
    + apply list_lookup_singleton_Some in Hr as [Hk ->]. simpl in *. rewrite firstn_all2 by (rewrite length_app; simpl; lia).
      rewrite Hb. unfold replayed. cbn. rewrite map_app, foldl_app. done.
Qed.

Lemma tx_write_spec f change t r t' :
  tx_write f change t = (r, t') →
  (t' = t ∧ is_ok r = false) ∨
  ∃ row d b, tb_head t = Some row ∧ decode (snapshot_of_row row) = Ok d ∧ change_of b = change ∧
    hi_parent_revision b = hr_revision row ∧
    decode (snapshot_of_history b) = Ok (mkDocuments (applyChange (ds_grants d) change) (ds_floors d)) ∧
    t' = mkTables (Some (mkHeadRow (hi_grants_doc b) (hi_floors_doc b) (hi_revision b))) (tb_history t ++ [b]) ∧
    (is_ok r = false → ∃ e, fl_commit f = CommitLost e).
Proof.
  unfold tx_write. destruct (sql_Update f t _) as [[r1 t1] calls] eqn:E. intros [= <- <-].
  apply sql_Update_spec in E as [?|(row & entry & g & fl & Hrow & Ha & _ & Hg & Hf & Htext & -> & Hlost)]; [by left|]. right.
  unfold apply_to_head in Ha. apply rbind_Ok in Ha as ([entry' revision] & Hr & Ha). injection Ha as ->.
  assert (en_Change entry = change) as Hch by (unfold render_change in Hr; by inv_ok).
  rewrite Hch in Htext. destruct (render_change_read_back _ _ _ _ _ _ Hr Hg Hf Htext) as (Hc & Hp & d & Hd & Hnext).
  exists row, d, (mkHistoryRow (en_ParentRevision entry) (sn_StoredRevision (en_Snapshot entry)) g fl (ch_Role (en_Change entry))
    (ch_Action (en_Change entry)) (ch_Grant (en_Change entry)) (ch_Reason (en_Change entry))).
  unfold change_of. cbn. rewrite Hc, Hp. destruct change. split_and!; try done; [apply Hnext|].
  destruct r1 as [|e]; [done|]. intros _. by apply (Hlost e).
Qed.

Lemma sql_Seed_spec f t snapshot reason r t' :
  sql_Seed f t snapshot reason = (r, t') →
  t' = t ∨
  tb_head t = None ∧ ∃ b, t' = mkTables (Some (mkHeadRow (hi_grants_doc b) (hi_floors_doc b) (hi_revision b))) (tb_history t ++ [b]) ∧
    hi_parent_revision b = "" ∧ hi_change_role b = "" ∧ hi_change_action b = "".
Proof.
  unfold sql_Seed. destruct (_ || _); [intros [= <- <-]; by left|]. destruct (TrimSpace reason =s? ""); [intros [= <- <-]; by left|].
  destruct (unless (fl_begin f) _); [|intros [= <- <-]; by left]. destruct (unless (fl_write f) _); [|intros [= <- <-]; by left].
  unfold seed_head, append_history. cbn [rbind].
  destruct (jsonb (sn_GrantsDoc _)) as [g|]; [|intros [= <- <-]; by left].
  destruct (jsonb (sn_FloorsDoc _)) as [fl|]; [|intros [= <- <-]; by left].
  destruct (unless (fl_rows f) _); [|destruct (tb_head t); intros [= <- <-]; by left].
  destruct (tb_head t) as [row|]; [intros [= <- <-]; by left|]. cbn.
  destruct (unless (fl_append f) _); [|intros [= <- <-]; by left].
  destruct (ValidString reason); [|intros [= <- <-]; by left]. cbn. unfold sql_Commit.
  destruct (fl_commit f); intros [= <- <-]; [|by left|]; right; (split; [done|]);
    by exists (mkHistoryRow "" (sn_StoredRevision snapshot) g fl "" "" false reason).
Qed.

Lemma transact_explained t tx : explained_tables t → explained_tables (transact t tx).
Proof.
  intros Ht. destruct tx as [f change|f snapshot reason]; cbn [transact].
  - destruct (tx_write f change t) as [r t'] eqn:E. cbn [snd].
    apply tx_write_spec in E as [[-> _]|(row & d & b & Hrow & Hd & <- & Hp & Hb & -> & _)]; [done|].
    unfold explained_tables in Ht. rewrite Hrow in Ht. destruct Ht as (genesis & rest & Hh & Hex).
    exists genesis, (rest ++ [b]). split; [cbn; by rewrite Hh|]. by eapply explained_snoc.
  - destruct (sql_Seed f t snapshot reason) as [r t'] eqn:E. cbn [snd].
    apply sql_Seed_spec in E as [->|(Hn & b & -> & H1 & H2 & H3)]; [done|].
    unfold explained_tables in Ht. rewrite Hn in Ht. rewrite Ht. exists b, []. split; [done|]. split.
    + done.
    + by intros r0 [= <-].
    + intros k x y _ Hy. by destruct k.
    + done.
    + intros d0 k r0 Hd0 Hr. destruct k; [|done]. injection Hr as <-. rewrite Hd0. by destruct d0.
Qed.

Lemma transacts_explained txs : explained_tables (transacts txs).
Proof.
  unfold transacts. induction txs as [|tx txs IH] using rev_ind; [done|]. rewrite foldl_app. by apply transact_explained.
Qed.

(** ** The store the writer was proved against *)

(** The database between calls: the transactions of others that get the lock before us, and
    what will become of the calls of ours. *)
Record SqlDb := mkSqlDb { db_tables : Tables; db_waiting : list transaction; db_script : list Faults }.

(** Another operator's transaction ends, or one of our calls is over. *)
Definition db_step (s s' : SqlDb) : Prop :=
  (∃ tx rest, db_waiting s = tx :: rest ∧ s' = mkSqlDb (transact (db_tables s) tx) rest (db_script s)) ∨
  (∃ f rest, db_script s = f :: rest ∧ s' = mkSqlDb (db_tables s) (db_waiting s) rest).

(** We have the lock. *)
Definition locked (s : SqlDb) : SqlDb :=
  mkSqlDb (foldl transact (db_tables s) (db_waiting s)) [] (drop 1 (db_script s)).

Lemma locked_others s : rtc db_step s (locked s).
Proof.
  destruct s as [t waiting script]. unfold locked. cbn [db_tables db_waiting db_script].
  trans (mkSqlDb (foldl transact t waiting) [] script).
  - revert t. induction waiting as [|tx rest IH]; intros t; [done|]. eapply rtc_l; [|apply IH]. left. by exists tx, rest.
  - destruct script as [|f rest]; [done|]. apply rtc_once. right. by exists f, rest.
Qed.

Definition db_Update (s : SqlDb) (apply : Snapshot → result go_error Entry) : result go_error unit * SqlDb * list Snapshot :=
  let '(r, t, calls) := sql_Update (default faultless (head (db_script s))) (db_tables (locked s)) apply in
  (r, mkSqlDb t [] (drop 1 (db_script s)), calls).

Definition stored (doc : string) : string := default doc (jsonb doc).
Definition db_commit (s : SqlDb) (e : Entry) : SqlDb :=
  let next := en_Snapshot e in
  let g := stored (sn_GrantsDoc next) in
  let fl := stored (sn_FloorsDoc next) in
  let c := en_Change e in
  mkSqlDb
    (mkTables (Some (mkHeadRow g fl (sn_StoredRevision next)))
       (tb_history (db_tables s) ++
         [mkHistoryRow (en_ParentRevision e) (sn_StoredRevision next) g fl (ch_Role c) (ch_Action c) (ch_Grant c) (ch_Reason c)]))
    (db_waiting s) (db_script s).

Lemma db_Update_spec s apply r s' calls :
  db_Update s apply = (r, s', calls) →
  (s' = locked s ∧ is_ok r = false) ∨
  ∃ row entry, (∀ e, r = Err e → errors_is e ErrRevisionConflict = false) ∧
    sql_Head None (db_tables (locked s)) = Ok (snapshot_of_row row) ∧ apply (snapshot_of_row row) = Ok entry ∧
    calls = [snapshot_of_row row] ∧ s' = db_commit (locked s) entry.
Proof.
  unfold db_Update. destruct (sql_Update _ _ _) as [[r1 t1] cs] eqn:E. intros [= <- <- <-].
  apply sql_Update_spec in E as [[-> Hr]|(row & entry & g & fl & Hrow & Ha & -> & Hg & Hf & _ & -> & Hlost)]; [by left|].
  right. exists row, entry. split_and!; try done.
  - intros e He. by apply (Hlost e He).
  - unfold sql_Head. cbn [unless rbind]. by rewrite Hrow.
  - unfold db_commit, stored. cbn [locked db_tables]. by rewrite Hg, Hf.
Qed.

(** Lost commits included. *)
#[refine, global] Instance sql_store : PolicyPg.Store SqlDb := {|
  PolicyPg.Head s := sql_Head None (db_tables s);
  Update := db_Update;
  commit := db_commit;
  others := rtc db_step;
|}.
Proof.
  - intros s apply s' calls E. apply db_Update_spec in E as [[_ [=]]|(row & entry & _ & Hh & Ha & -> & ->)].
    exists (locked s), (snapshot_of_row row), entry, []. split_and!; try done. apply locked_others.
  - intros s apply e s' calls E. apply db_Update_spec in E as [[-> _]|(row & entry & He & Hh & Ha & _ & ->)].
    + left. apply locked_others.
    + right. split; [by apply He|]. exists (locked s), (snapshot_of_row row), entry. split_and!; try done. apply locked_others.
Defined.

(** C17: the history is the policy. After any transactions on fresh tables, whoever made
    them and whatever failed in them, lost commits included: without a head there is no
    history; a head is the last row of it. The first row is the seed; every other names
    the revision of the row before it; and every row holds exactly the seeded documents
    with the changes recorded up to it, so what the policy said at any moment can be read
    from one row and recomputed from the rest. A write adds one row, with its change, or
    nothing at all; it adds nothing when it answers an error, unless its commit landed and
    the answer was lost. *)
Theorem history_replays_to_the_head txs :
  let t := transacts txs in
  match tb_head t with
  | None => tb_history t = []
  | Some row => ∃ genesis rest, tb_history t = genesis :: rest ∧ explained row genesis rest
  end ∧
  ∀ f change r t', tx_write f change t = (r, t') →
    (t' = t ∧ is_ok r = false) ∨
    ∃ b, tb_history t' = tb_history t ++ [b] ∧ change_of b = change ∧
      (is_ok r = false → ∃ e, fl_commit f = CommitLost e).
Proof.
  intros t. split; [apply transacts_explained|]. intros f change r t' Hw.
  apply tx_write_spec in Hw as [?|(row & d & b & _ & _ & ? & _ & _ & -> & ?)]; [by left|]. right. by exists b.
Qed.
End sql_props.


(** ** Witnesses *)

#[local] Instance text_grants_dec g : base.Decision (text_grants g).
Proof. unfold text_grants. apply _. Defined.

(** Floors are always empty here; a document is what the codec wrote. *)
#[local] Instance demo_sql_codec : PolicyCodec := {|
  unmarshal_grants d :=
    match of_bits d ≫= countable.decode with
    | Some (ra, aa) =>
        if bool_decide (text_grants (mkGrants (list_to_map ra) aa)) then Ok (mkGrants (list_to_map ra) aa)
        else Err (ErrorText "invalid character")
    | None => Err (ErrorText "unexpected end of JSON input")
    end;
  unmarshal_floors d := if d =s? "{}" then Ok ∅ else Err (ErrorText "unexpected end of JSON input");
  marshal_grants g := Ok (bits (countable.encode (map_to_list (RoleActions g), ApprovalActions g)));
  marshal_floors f := if bool_decide (f = ∅) then Ok "{}" else Err (ErrorText "unsupported");
|}.

#[refine, local] Instance demo_columns : JsonColumns := {| jsonb d := if d =s? "no json" then None else Some d |}.
Proof.
  - intros d n. by destruct (d =s? "no json"); intros [= <-].
  - intros d n. by destruct (d =s? "no json"); intros [= <-].
  - intros d g. cbn. destruct (of_bits d ≫= _) as [[ra aa]|]; [|done]. case_bool_decide; [|done]. by intros [= <-].
  - intros g d Ht [= <-]. cbn. rewrite of_bits_bits. cbn. rewrite countable.decode_encode, list_to_map_to_list.
    destruct g. by rewrite bool_decide_true.
  - intros f d0 d _. cbn. case_bool_decide; [|done]. by intros [= <-]; subst.
Defined.

Definition demo_sha (s : string) : string := s.
Definition demo_seed : Snapshot :=
  match PolicyPg.encode demo_sha (mkDocuments (mkGrants {["op" := ["read"]]} []) ∅) with Ok r => r.1 | Err _ => mkSnapshot "" "" "" end.
Definition demo_grant (action : string) : Change := mkChange "op" action true "ticket".
Definition lost_answer : Faults := mkFaults None None None None None (CommitLost "unexpected EOF").

(** Seeded, seeded again, changed, and changed with the answer lost. *)
Definition demo_transactions : list transaction :=
  [TxSeed faultless demo_seed "from the files"; TxSeed faultless demo_seed "again";
   TxWrite faultless (demo_grant "list"); TxWrite lost_answer (demo_grant "deploy")].

Definition demo_tables : Tables := transacts demo_sha demo_transactions.
Definition actions_of (doc : string) : list string :=
  match unmarshal_grants doc with Ok g => get_list (RoleActions g) "op" | Err _ => [] end.

(** The second seed changed nothing; the last change is in force though its writer was told
    that it failed. *)
Example demo_history :
  map (λ r, (hi_change_action r, actions_of (hi_grants_doc r))) (tb_history demo_tables) =
    [("", ["read"]); ("list", ["read"; "list"]); ("deploy", ["read"; "list"; "deploy"])] ∧
  (actions_of ∘ hr_grants_doc <$> tb_head demo_tables) = Some ["read"; "list"; "deploy"].
Proof. split; vm_compute; reflexivity. Qed.

(** A write whose answer was lost is reported as a failure, and the permission is given. *)
Example lost_answer_is_in_force :
  let t := transacts demo_sha (take 3 demo_transactions) in
  let '(r, t') := tx_write demo_sha lost_answer (demo_grant "deploy") t in
  r = Err (failed "committing the policy change" "unexpected EOF") ∧
  (actions_of ∘ hr_grants_doc <$> tb_head t') = Some ["read"; "list"; "deploy"].
Proof. vm_compute. split; reflexivity. Qed.

(** What the door's writer is told of it, through [PolicyPg.Write]: with two others ahead
    in the queue it still needs one attempt. *)
Example nobody_loses_the_race :
  let db := mkSqlDb demo_tables [TxWrite faultless (demo_grant "drain"); TxWrite faultless (demo_grant "cordon")] [] in
  let '(r, db') := @PolicyPg.Write _ _ (sql_store demo_sha) demo_sha (demo_grant "stop") db in
  is_ok r = true ∧ (actions_of ∘ hr_grants_doc <$> tb_head (db_tables db')) =
    Some ["read"; "list"; "deploy"; "drain"; "cordon"; "stop"].
Proof. vm_compute. split; reflexivity. Qed.

(** A document the server does not take as JSON leaves everything as it was. *)
Example not_json_writes_nothing :
  sql_Seed faultless (mkTables None []) (mkSnapshot "no json" "{}" "r") "why" =
    (Err (failed "seeding the policy" "invalid input syntax for type json"), mkTables None []).
Proof. reflexivity. Qed.

Lemma history_replays_to_the_head_witness :
  length (tb_history demo_tables) = 3 ∧
  ∃ b, tb_history (tx_write demo_sha faultless (demo_grant "stop") demo_tables).2 = tb_history demo_tables ++ [b] ∧
    change_of b = demo_grant "stop".
Proof.
  split; [by vm_compute|].
  assert (is_ok (tx_write demo_sha faultless (demo_grant "stop") demo_tables).1 = true) as Hok by by vm_compute.
  pose proof (proj2 (history_replays_to_the_head demo_sha demo_transactions)) as H. cbv zeta in H. fold demo_tables in H.
  generalize dependent demo_tables. intros t Hok H.
  destruct (H faultless (demo_grant "stop") _ _ (surjective_pairing _)) as [[_ Hno]|(b & Hb & Hc & _)].
  - rewrite Hok in Hno. discriminate Hno.
  - exists b. exact (conj Hb Hc).
Defined.
