(* ===== verification/ChainTest.v ===== *)
(** The conformance suite of an audit chain: [mantlekeep-control/chaintest/conformance.go].

    The chain of [AuditChain] passes the race of the writers under every schedule, whichever
    appends its bucket turns down, unless the digest collides on two records of the chain the
    race left; the first two cases are lost to a bucket that turns a write down. A chain that
    reads its tail in one transaction and writes in another fails the race. *)
From S2P Require Import Prelude Utf8 Contracts Bucket AuditChain Conformance.

(** ** What a test calls *)

Inductive chain_call :=
| CLog (rec : AuditRecord)
| CVerify.
Definition chain_answer (c : chain_call) : Type :=
  match c with CLog _ => result string AuditRecord | CVerify => result string bool end.
Notation chain_test := (test chain_call chain_answer).

(** ** conformance.go *)

Definition record (now : Time) (intentID : string) : AuditRecord :=
  mkAuditRecord now intentID "root" "job.run" ActionAllow "test.rbac" false "" "" "" "" "" "".

(** [if ok, err := chain.Verify(ctx); err != nil || !ok] *)
Definition must_verify (msg : string) : chain_test :=
  Ask CVerify (λ r, match r with Ok true => Pass | _ => Fatalf msg end).

Definition hashSet : chain_test :=
  Clock (λ now, Ask (CLog (record now "INT-1")) (λ r, match r with
  | Err _ => Fatalf "appending: %v"
  | Ok stored =>
      if rec_Hash stored =s? "" then Fatalf "a stored record must carry its hash, or nothing downstream can cite it" else Pass
  end)).

Definition linked : chain_test :=
  Clock (λ now, Ask (CLog (record now "INT-1")) (λ r, match r with
  | Err _ => Fatalf "appending the first: %v"
  | Ok first =>
      Clock (λ now, Ask (CLog (record now "INT-2")) (λ r, match r with
      | Err _ => Fatalf "appending the second: %v"
      | Ok second =>
          if negb (rec_PrevHash second =s? rec_Hash first) then
            Fatalf ("the second record must link the first: prev=%q first=%q — an unlinked record " +:+ "can be removed without trace")
          else must_verify "a chain of two honest records must verify: ok=%v err=%v"
      end))
  end)).

Definition writers : nat := 24.

(** A goroutine leaves its entries of [hashes] and [prevs]. *)
Definition writer (n : nat) : act chain_call chain_answer (string * string) :=
  Now (λ now, Call (CLog (record now ("INT-" +:+ Itoa (Z.of_nat n)))) (λ r, match r with
  | Ok stored => Return (rec_Hash stored, rec_PrevHash stored)
  | Err _ => Return ("", "")
  end)).

(** Does any predecessor come up twice? [seen] are those that have come up. *)
Fixpoint forked (seen : gset string) (left_behind : list (string * string)) : bool :=
  match left_behind with
  | [] => false
  | (hash, prev) :: rest =>
      if hash =s? "" then forked seen rest
      else bool_decide (prev ∈ seen) || forked ({[prev]} ∪ seen) rest
  end.

Definition fork_found : string :=
  "two records claim the same predecessor %q — the chain forked, and each " +:+ "half verifies on its own while one silently replaced the other".

Definition noFork : chain_test :=
  Race (map writer (seq 0 writers)) (λ left_behind,
    if forked ∅ left_behind then Fatalf fork_found
    else must_verify "the chain must verify after concurrent appends: ok=%v err=%v").

Definition emptyVerifies : chain_test := must_verify "an empty chain must verify: ok=%v err=%v".

Definition Run : suite chain_call chain_answer :=
  [("a record comes back with its hash set", hashSet); ("each record links the one before it", linked);
   ("concurrent appends do not fork the chain", noFork); ("an empty chain verifies", emptyVerifies)].

(** ** The chain of the door *)

Section reference.
Context `{RecordCodec} {B : Type} `{!Bucket B} (sha256_hex : string → string).
Context {digest : HexDigest sha256_hex}.
(** The bucket of a new database. *)
Context (opened : B) (opened_empty : entries opened = []) (opened_sequence : sequence opened = 0%Z).
(** A digest is sixty-four characters. *)
Context (digest_stated : ∀ x, sha256_hex x ≠ "").
(** The clock shows instants a record can carry. *)
Context (clock : nat → Time) (clock_stamps : ∀ n, stampable (clock n)) (schedule : list nat) (start : nat).

Definition chain_handle (c : chain_call) (now : Time) (b : B) : chain_answer c * B :=
  match c with
  | CLog rec => Log sha256_hex b rec
  | CVerify => (Ok (Verify sha256_hex b), b)
  end.
Definition audit_chain : Implementation chain_call chain_answer :=
  mkImplementation B opened (λ c, atomic (chain_handle c)).

(** *** Positions of a verified chain *)

(** The record the value at a position holds. *)
Definition holds (values : list string) (k : nat) (r : AuditRecord) : Prop :=
  values !! k ≫= unmarshal_record = Some r.

Lemma holds_value values k r : holds values k r → ∃ v, values !! k = Some v ∧ unmarshal_record v = Some r.
Proof. by intros (v & Hv & Hr)%bind_Some; exists v. Qed.

Lemma holds_lt values k r : holds values k r → k < length values.
Proof. intros (v & Hv & _)%holds_value. by eapply lookup_lt_Some. Qed.

(** A record of the test can be written down, and reads back once chained. *)
Lemma record_is_text n id : ascii_text id = true → record_text (record (clock n) id).
Proof.
  intros Hid. split; [apply clock_stamps|]. unfold record_strings, record. cbn. unfold valid_text.
  repeat constructor. by apply ascii_valid.
Qed.

Lemma end_hash_last values prev : end_hash prev values =
  match last values with Some v => match unmarshal_record v with Some r => rec_Hash r | None => "" end | None => prev end.
Proof. destruct values as [|v values _] using rev_ind; [done|]. by rewrite end_hash_snoc, last_snoc. Qed.

(** Each record carries the hash of the one before it, and its own. *)
Lemma verified_position values k r :
  verify_from sha256_hex "" values = true → holds values k r →
  hashRecord sha256_hex r = rec_Hash r ∧ rec_PrevHash r = end_hash "" (take k values).
Proof.
  intros Hv (v & Hk & Hr)%holds_value. rewrite <- (take_drop_middle values k v Hk), verify_from_app in Hv.
  apply andb_true_iff in Hv as [_ Hv]. cbn [verify_from] in Hv. rewrite Hr in Hv.
  destruct (rec_PrevHash r =s? _) eqn:E1; [|done]. destruct (hashRecord sha256_hex r =s? _) eqn:E2; [|done].
  by apply eqs_true in E1, E2.
Qed.

(** Every value of a verified chain holds a record. *)
Lemma verified_holds values k :
  verify_from sha256_hex "" values = true → k < length values → ∃ r, holds values k r.
Proof.
  intros Hv Hk. destruct (lookup_lt_is_Some_2 values k Hk) as [v Hl].
  rewrite <- (take_drop_middle values k v Hl), verify_from_app in Hv.
  apply andb_true_iff in Hv as [_ Hv]. cbn [verify_from] in Hv. destruct (unmarshal_record v) as [r|] eqn:Hr; [|done].
  exists r. unfold holds. by rewrite Hl.
Qed.

Lemma position_before values k r : holds values k r → end_hash "" (take (S k) values) = rec_Hash r.
Proof. intros (v & Hk & Hr)%holds_value. by rewrite (take_S_r _ _ _ Hk), end_hash_snoc, Hr. Qed.

(** In a verified chain of records on which the digest does not collide, no two have one
    hash, and no two claim one predecessor. *)
Section positions.
Context (values : list string) (verified : verify_from sha256_hex "" values = true).
Context (apart : ∀ k l r1 r2, holds values k r1 → holds values l r2 → no_collision sha256_hex r1 r2).

Lemma hash_stated k r : holds values k r → rec_Hash r ≠ "".
Proof. intros Hk. destruct (verified_position _ _ _ verified Hk) as [<- _]. apply digest_stated. Qed.

Lemma prevs_from_hashes k l r1 r2 :
  holds values k r1 → holds values l r2 → rec_PrevHash r1 = rec_PrevHash r2 →
  k = l ∨ ∃ k' l' q1 q2, k = S k' ∧ l = S l' ∧ holds values k' q1 ∧ holds values l' q2 ∧ rec_Hash q1 = rec_Hash q2.
Proof.
  intros Hk Hl Heq. destruct (verified_position _ _ _ verified Hk) as [_ H1]. destruct (verified_position _ _ _ verified Hl) as [_ H2].
  rewrite H1, H2 in Heq. clear H1 H2.
  assert (∀ j r, holds values (S j) r → ∃ q, holds values j q ∧ end_hash "" (take (S j) values) = rec_Hash q) as Hpred.
  { intros j r Hj%holds_lt. destruct (verified_holds values j verified) as [q Hq]; [lia|].
    exists q. split; [done|]. by apply position_before. }
  destruct k as [|k], l as [|l]; [by left| | |].
  - destruct (Hpred _ _ Hl) as (q & Hq & E). cbn [take end_hash] in Heq. rewrite E in Heq. by destruct (hash_stated _ _ Hq).
  - destruct (Hpred _ _ Hk) as (q & Hq & E). rewrite E in Heq. by destruct (hash_stated _ _ Hq).
  - destruct (Hpred _ _ Hk) as (q1 & Hq1 & E1). destruct (Hpred _ _ Hl) as (q2 & Hq2 & E2). rewrite E1, E2 in Heq.
    right. by exists k, l, q1, q2.
Qed.

Lemma hashes_apart k l r1 r2 : holds values k r1 → holds values l r2 → rec_Hash r1 = rec_Hash r2 → k = l.
Proof.
  revert l r1 r2. induction k as [|k IH]; intros l r1 r2 Hk Hl Heq.
  all: assert (r1 = r2) as -> by
    (destruct (holds_value _ _ _ Hk) as (v1 & _ & Hv1); destruct (holds_value _ _ _ Hl) as (v2 & _ & Hv2);
     eapply (same_hash_same_record sha256_hex); [exact Hv1|exact Hv2|by eapply apart|by eapply verified_position|by eapply verified_position|done]).
  all: destruct (prevs_from_hashes _ _ _ _ Hk Hl eq_refl) as [->|(k' & l' & q1 & q2 & [= <-] & -> & H1 & H2 & Hq)]; [done|..].
  f_equal. by eapply IH.
Qed.

Lemma prevs_apart k l r1 r2 : holds values k r1 → holds values l r2 → rec_PrevHash r1 = rec_PrevHash r2 → k = l.
Proof.
  intros Hk Hl Heq. destruct (prevs_from_hashes _ _ _ _ Hk Hl Heq) as [->|(k' & l' & q1 & q2 & -> & -> & H1 & H2 & Hq)]; [done|].
  f_equal. by eapply hashes_apart.
Qed.
End positions.

(** *** The race *)

Notation pool_type := (list (Op B (string * string))).

(** A write not yet made. *)
Inductive writing : Op B (string * string) → Prop :=
| writing_start n : writing (op_of audit_chain (writer n))
| writing_log rec : record_text rec → writing (op_bind (handle audit_chain (CLog rec)) (λ r, op_of audit_chain
    (match r with Ok stored => Return (rec_Hash stored, rec_PrevHash stored) | Err _ => Return ("", "") end))).

(** Each value of the chain is one writer's, in the order [own] in which they got there. *)
Record consistent (own : list nat) (pool : pool_type) (b : B) : Prop := {
  con_keyed : well_keyed b;
  con_sequence : sequence b = Z.of_nat (length own);
  con_values : length (entries b).*2 = length own;
  con_verified : Verify sha256_hex b = true;
  con_once : NoDup own;
  con_owner k i : own !! k = Some i → ∃ r, holds (entries b).*2 k r ∧ pool !! i = Some (Done (rec_Hash r, rec_PrevHash r));
  con_rest i o : pool !! i = Some o → i ∈ own ∨ writing o ∨ o = Done ("", "");
}.

Definition racing (pool : pool_type) (b : B) : Prop := length pool = writers ∧ ∃ own, consistent own pool b.

(** A writer that is not an owner moves without a write. *)
Lemma consistent_other own pool b i o o' :
  consistent own pool b → pool !! i = Some o → i ∉ own → writing o' ∨ o' = Done ("", "") → consistent own (<[i := o']> pool) b.
Proof.
  intros C Hi Hno Ho'. split; try apply C.
  - intros k j Hk. destruct (con_owner _ _ _ C _ _ Hk) as (r & Hr & Hj). exists r. split; [done|].
    rewrite list_lookup_insert_ne; [done|]. intros ->. apply Hno. by eapply list_elem_of_lookup_2.
  - intros j o1 Hj. apply list_lookup_insert_Some in Hj as [(-> & <- & _)|[_ Hj]]; [by right|by apply (con_rest _ _ _ C)].
Qed.

Lemma Log_sequence b rec r b' :
  well_keyed b → (sequence b + 1 < 10 ^ 16)%Z → Log sha256_hex b rec = (Ok r, b') → sequence b' = (sequence b + 1)%Z.
Proof.
  intros Hk Hroom. unfold Log. cbv zeta. destruct (append_next b _) eqn:E; [|done]. intros [= _ <-].
  by apply append_next_Ok in E as (_ & ? & _).
Qed.

Lemma consistent_append own pool b i o rec r b' :
  record_text rec → consistent own pool b → pool !! i = Some o → i ∉ own → (Z.of_nat (length own) + 1 < 10 ^ 16)%Z →
  Log sha256_hex b rec = (Ok r, b') → consistent (own ++ [i]) (<[i := Done (rec_Hash r, rec_PrevHash r)]> pool) b'.
Proof.
  intros Htext C Hi Hno Hmax HLog. destruct C as [Hk Hs Hv Hver Hnd Hown Hrest]. pose proof (lookup_lt_Some _ _ _ Hi) as Hlt.
  assert (sequence b + 1 < 10 ^ 16)%Z as Hroom by lia.
  destruct (Log_verified _ _ _ _ _ Htext Hk Hroom Hver HLog) as (Hver' & _ & _).
  pose proof (Log_Ok _ _ _ _ _ Hk Hroom HLog) as (Hr & He & Hk').
  pose proof (Log_sequence _ _ _ _ Hk Hroom HLog) as Hs'.
  split; [done|rewrite length_app; cbn [length]; lia|rewrite He, !length_app, Hv; done|done| | |].
  - apply NoDup_app. split; [done|]. split; [|apply NoDup_singleton]. by intros j Hj ->%list_elem_of_singleton.
  - intros k j Hj. rewrite He. apply lookup_app_Some in Hj as [Hj|[Hge Hj]].
    + destruct (Hown _ _ Hj) as (r1 & Hr1 & Hp). exists r1. split.
      { apply holds_value in Hr1 as (v & Hv1 & Hu). unfold holds. by rewrite (lookup_app_l_Some _ _ _ _ Hv1). }
      rewrite list_lookup_insert_ne; [done|]. intros ->. apply Hno. by eapply list_elem_of_lookup_2.
    + apply list_lookup_singleton_Some in Hj as [Hj <-]. assert (k = length (entries b).*2) as -> by lia.
      exists r. split; [|by apply list_lookup_insert_eq]. unfold holds. rewrite list_lookup_middle by done.
      subst r. by apply chained_read_back.
  - intros j o1 Hj. apply list_lookup_insert_Some in Hj as [(<- & _ & _)|[_ Hj]]; [left; set_solver|].
    destruct (Hrest _ _ Hj) as [?|?]; [left; set_solver|by right].
Qed.

Lemma racing_step pool b i f k n : racing pool b → pool !! i = Some (Step f k) → racing (<[i := k (clock n) b]> pool) (f (clock n) b).
Proof.
  intros [Hlen [own C]] Hi. split; [by rewrite length_insert|].
  assert (i ∉ own) as Hno.
  { intros Hown. apply list_elem_of_lookup_1 in Hown as [j Hj]. destruct (con_owner _ _ _ C _ _ Hj) as (r & _ & Hr). congruence. }
  destruct (con_rest _ _ _ C _ _ Hi) as [?|[Hw|?]]; [done| |done]. inversion Hw as [m [Hf Hk]|rec Htext [Hf Hk]]; clear Hw.
  - exists own. eapply consistent_other; [done..|]. left. constructor. apply record_is_text.
    rewrite ascii_text_app. apply Itoa_ascii.
  - destruct (Log sha256_hex b rec) as [[r|e] b'] eqn:E; cbn [chain_handle fst snd]; rewrite ?E; cbn [op_bind op_of fst snd].
    + exists (own ++ [i]). eapply consistent_append; [done..| |done].
      enough (length own ≤ writers) by (unfold writers in *; lia). rewrite <- (length_seq writers 0). apply submseteq_length, NoDup_submseteq.
      { apply C. }
      intros j [l Hj]%list_elem_of_lookup_1. destruct (con_owner _ _ _ C _ _ Hj) as (r' & _ & Hp). apply lookup_lt_Some in Hp.
      apply elem_of_seq. lia.
    + apply Log_Err in E as ->. exists own. eapply consistent_other; [done..|]. by right.
Qed.

Lemma racing_start : racing (map (op_of audit_chain) (map writer (seq 0 writers))) opened.
Proof.
  split; [done|]. exists []. split; try done.
  - split; [lia|]. rewrite opened_empty. constructor.
  - by rewrite opened_empty.
  - unfold Verify. by rewrite opened_empty.
  - constructor.
  - intros i o Hi. right. left. rewrite map_map in Hi. apply list_lookup_fmap_Some in Hi as (m & -> & _). constructor.
Qed.

Lemma forked_false seen xs :
  (∀ i h p, xs !! i = Some (h, p) → h ≠ "" → p ∉ seen) →
  (∀ i j h1 h2 p, xs !! i = Some (h1, p) → xs !! j = Some (h2, p) → h1 ≠ "" → h2 ≠ "" → i = j) → forked seen xs = false.
Proof.
  revert seen. induction xs as [|[h p] xs IH]; intros seen Hseen Hone; [done|]. cbn [forked].
  assert (∀ i j h1 h2 p, xs !! i = Some (h1, p) → xs !! j = Some (h2, p) → h1 ≠ "" → h2 ≠ "" → i = j) as Hone'.
  { intros i j h1 h2 q Hi Hj Hn1 Hn2. by injection (Hone (S i) (S j) _ _ _ Hi Hj Hn1 Hn2). }
  destruct (h =s? "") eqn:E.
  - apply IH; [|done]. intros i. apply (Hseen (S i)).
  - apply eqs_false in E. rewrite bool_decide_false by by apply (Hseen 0 h). apply IH; [|done]. intros i h1 q Hi Hne.
    rewrite elem_of_union, elem_of_singleton. intros [->|Hq]; [|by eapply (Hseen (S i))]. by specialize (Hone 0 (S i) _ _ _ eq_refl Hi E Hne).
Qed.

(** Two records of a chain on which the digest collides. *)
Definition collision (b : B) : Prop :=
  ∃ k l r1 r2, holds (entries b).*2 k r1 ∧ holds (entries b).*2 l r2 ∧ ¬ no_collision sha256_hex r1 r2.

#[local] Instance no_collision_dec r1 r2 : base.Decision (no_collision sha256_hex r1 r2).
Proof. unfold no_collision. apply _. Defined.

(** The records of a chain: the digest tells them apart, or two are a collision. *)
Lemma apart_or_collision (b : B) :
  (∀ (k l : nat) r1 r2, holds (entries b).*2 k r1 → holds (entries b).*2 l r2 → no_collision sha256_hex r1 r2) ∨ collision b.
Proof.
  unfold collision. generalize (entries b).*2 as values. intros values. set (records := omap unmarshal_record values).
  assert (∀ r, r ∈ records ↔ ∃ k, holds values k r) as Hin.
  { intros r. unfold records. rewrite list_elem_of_omap. split.
    - intros (v & [k Hk]%list_elem_of_lookup_1 & Hr). exists k. unfold holds. by rewrite Hk.
    - intros (k & (v & Hk & Hr)%holds_value). exists v. split; [by eapply list_elem_of_lookup_2|done]. }
  destruct (decide (Forall (λ r1, Forall (no_collision sha256_hex r1) records) records)) as [Hall|Hnot].
  - left. intros k l r1 r2 Hk Hl. rewrite Forall_forall in Hall. specialize (Hall r1 ltac:(apply Hin; eauto)).
    rewrite Forall_forall in Hall. apply Hall, Hin. eauto.
  - right. apply not_Forall_Exists in Hnot; [|apply _]. apply Exists_exists in Hnot as (r1 & [k Hk]%Hin & Hnot). cbn in Hnot.
    apply not_Forall_Exists in Hnot; [|apply _]. apply Exists_exists in Hnot as (r2 & [l Hl]%Hin & Hnot). by exists k, l, r1, r2.
Qed.

(** The chain the race leaves. *)
Definition chain_left : B :=
  (run_race audit_chain clock schedule (map writer (seq 0 writers)) (fresh audit_chain, start)).2.1.

Lemma race_outcome : ∃ xs (b : B) n own,
  run_race audit_chain clock schedule (map writer (seq 0 writers)) (fresh audit_chain, start) = (xs, (b, n)) ∧ consistent own (map Done xs) b.
Proof.
  destruct (race_invariant audit_chain clock racing racing_step schedule (map writer (seq 0 writers)) opened start racing_start)
    as (xs & b & n & Hrun & [_ [own C]] & _). by exists xs, b, n, own.
Qed.

(** Under any schedule the writers leave a chain that did not fork. *)
Lemma noFork_verdict : verdict_of audit_chain clock schedule start noFork = Passed ∨ collision chain_left.
Proof.
  destruct race_outcome as (xs & b & n & own & Hrun & C).
  assert (chain_left = b) as -> by (unfold chain_left; by rewrite Hrun).
  assert (verdict_of audit_chain clock schedule start noFork = if forked ∅ xs then Failed [fork_found] else Passed) as ->.
  { unfold verdict_of, noFork. cbn [run]. rewrite Hrun. destruct (forked ∅ xs); [done|].
    cbn. by rewrite (con_verified _ _ _ C). }
  destruct (apart_or_collision b) as [Hapart|?]; [left|by right].
  rewrite forked_false; [done|by intros; apply not_elem_of_empty|].
  assert (∀ i h p, xs !! i = Some (h, p) → h ≠ "" → ∃ k r, own !! k = Some i ∧ holds (entries b).*2 k r ∧ p = rec_PrevHash r) as Hat.
  { intros i h p Hi Hne. assert ((map Done xs : pool_type) !! i = Some (Done (h, p))) as Hp by (by rewrite list_lookup_fmap, Hi).
    destruct (con_rest _ _ _ C _ _ Hp) as [Hown|[Hw|[= -> _]]]; [|by inversion Hw|done].
    apply list_elem_of_lookup_1 in Hown as [k Hk]. destruct (con_owner _ _ _ C _ _ Hk) as (r & Hr & Hd). exists k, r. split; [done|]. split; [done|].
    pose proof (eq_trans (eq_sym Hp) Hd) as E. by injection E. }
  intros i j h1 h2 p Hi Hj Hn1 Hn2. destruct (Hat _ _ _ Hi Hn1) as (k & r1 & Hk & Hr1 & ->). destruct (Hat _ _ _ Hj Hn2) as (l & r2 & Hl & Hr2 & Heq).
  assert (k = l) as <-; [|congruence]. eapply (prevs_apart (entries b).*2); [exact (con_verified _ _ _ C)|exact Hapart|done..].
Qed.

(** A write transaction that the file takes. *)
Definition takes_writes : Prop := ∀ (b : B) k v, is_Some (match Put b k v with Ok b' => Some b' | Err _ => None end).

Lemma Log_taken b rec : takes_writes → ∃ b', Log sha256_hex b rec = (Ok (chained sha256_hex b rec), b').
Proof.
  intros Ht. unfold Log. cbv zeta. unfold append_next. destruct (NextSequence b) as [s b1]. specialize (Ht b1 (seq_key s) (marshal_record (chained sha256_hex b rec))).
  destruct (Put _ _ _); [eauto|by destruct Ht].
Qed.

Lemma chained_stated b rec : rec_Hash (chained sha256_hex b rec) =s? "" = false.
Proof. apply eqs_false, digest_stated. Qed.

Lemma hashSet_verdict : takes_writes → verdict_of audit_chain clock schedule start hashSet = Passed.
Proof.
  intros Ht. unfold verdict_of, hashSet. cbn [run fresh audit_chain handle fst snd run_op atomic chain_handle].
  destruct (Log_taken opened (record (clock start) "INT-1") Ht) as [b' ->]. cbn [fst snd]. by rewrite chained_stated.
Qed.

Lemma linked_verdict : takes_writes → verdict_of audit_chain clock schedule start linked = Passed.
Proof.
  intros Ht. unfold verdict_of, linked. cbn [run fresh audit_chain handle fst snd run_op atomic chain_handle].
  destruct (Log_taken opened (record (clock start) "INT-1") Ht) as [b1 E1]. rewrite E1. cbn [fst snd].
  destruct (Log_taken b1 (record (clock (S (S start))) "INT-2") Ht) as [b2 E2].
  cbn [run handle fst snd run_op atomic chain_handle audit_chain].
  rewrite E2. cbn [fst snd].
  destruct racing_start as [_ [own C]]. destruct C as [K0 _ _ V0 _ _ _].
  assert (sequence opened + 1 < 10 ^ 16)%Z as Hroom by (by rewrite opened_sequence).
  pose proof (Log_Ok _ _ _ _ _ K0 Hroom E1) as (_ & He & K1). pose proof (Log_sequence _ _ _ _ K0 Hroom E1) as S1.
  destruct (Log_verified _ _ _ _ _ (record_is_text start "INT-1" eq_refl) K0 Hroom V0 E1) as (V1 & _).
  destruct (Log_verified _ _ _ _ _ (record_is_text (S (S start)) "INT-2" eq_refl) K1 ltac:(by rewrite S1, opened_sequence) V1 E2) as (V2 & _).
  change (rec_PrevHash (chained sha256_hex b1 _)) with (last_hash b1).
  rewrite last_hash_end, He, end_hash_snoc.
  rewrite (chained_read_back sha256_hex opened _ (record_is_text start "INT-1" eq_refl)), eqs_refl. cbn. by rewrite V2.
Qed.

(** C34: The chain of the door passes its conformance suite. Whatever the order in which
    twenty-four writers get through, and whichever of their appends the file refuses, no two
    records of the race claim the same predecessor and the chain verifies afterwards, unless
    the digest collides on two records of the chain that race left. An empty chain verifies.
    On a file that takes every write a record comes back with its hash and links the one
    before it, and the two verify; a refused write fails those two cases, as it should. The
    clock shows years 0 to 9999, the database is new, and no digest is empty. *)
Theorem audit_chain_never_forks : ∃ v1 v2 v3,
  verdicts audit_chain clock schedule start Run =
    [("a record comes back with its hash set", v1); ("each record links the one before it", v2);
     ("concurrent appends do not fork the chain", v3); ("an empty chain verifies", Passed)] ∧
  (v3 = Passed ∨ collision chain_left) ∧ (takes_writes → v1 = Passed ∧ v2 = Passed).
Proof.
  do 3 eexists. split; [|split; [exact noFork_verdict|intros Ht; split; [by apply hashSet_verdict|by apply linked_verdict]]].
  unfold verdicts, Run. cbn [map fst snd]. do 3 f_equal. unfold verdict_of, emptyVerifies, must_verify. cbn.
  destruct racing_start as [_ [own C]]. by rewrite (con_verified _ _ _ C).
Qed.
End reference.

(** ** Examples *)

(** The tail is read in one transaction and the record written in another. *)
Definition racy_chain : Implementation chain_call chain_answer :=
  mkImplementation ListBucket empty_bucket (λ c, match c return Op ListBucket (chain_answer c) with
  | CLog rec => Step (λ _ b, b) (λ _ tail, Step
      (λ _ b, match append_next b (λ _, marshal_record (chained demo_sha tail rec)) with Ok b' => b' | Err _ => b end)
      (λ _ _, Done (Ok (chained demo_sha tail rec))))
  | CVerify => atomic (λ _ b, (Ok (Verify demo_sha b), b))
  end).

(** A chain that keeps the hash of its last record, and nothing else, and says that it
    verifies. *)
Definition forgetful_chain : Implementation chain_call chain_answer :=
  mkImplementation string "" (λ c, match c return Op string (chain_answer c) with
  | CLog rec => atomic (λ _ last,
      let rec := with_prev rec last in let rec := with_hash rec (hashRecord demo_sha rec) in (Ok rec, rec_Hash rec))
  | CVerify => atomic (λ _ last, (Ok true, last))
  end).

(** Two writers that read the tail together fork the racy chain; under a schedule that lets
    each writer finish it passes every case. *)
Example racy_chain_is_caught_if_they_meet :
  verdict_of racy_chain Z.of_nat [0; 1; 0; 1; 0; 1] 0 noFork = Failed [fork_found] ∧
  forallb (λ p, match p.2 with Passed => true | _ => false end) (verdicts racy_chain Z.of_nat [] 0 Run) = true.
Proof. by vm_compute. Qed.

(** No case shows [Verify] a chain that should not verify, or reads a record back. *)
Example forgetful_chain_passes :
  forallb (λ p, match p.2 with Passed => true | _ => false end) (verdicts forgetful_chain Z.of_nat [0; 1; 0; 1; 0; 1] 0 Run) = true.
Proof. by vm_compute. Qed.

(** A clock that shows the first seconds of the era, again and again. *)
Definition demo_clock (n : nat) : Time := (Z.of_nat n mod 60)%Z.
Lemma demo_clock_stamps n : stampable (demo_clock n).
Proof. unfold stampable, demo_clock. pose proof (Z.mod_pos_bound (Z.of_nat n) 60). lia. Qed.

Lemma demo_takes_writes : takes_writes (B := ListBucket).
Proof. intros b k v. by eexists. Qed.

Lemma audit_chain_never_forks_witness :
  takes_writes (B := ListBucket) ∧ ∃ v,
    verdicts (audit_chain demo_sha empty_bucket) demo_clock [3; 1; 3; 0; 1; 2] 0 Run =
      [("a record comes back with its hash set", Passed); ("each record links the one before it", Passed);
       ("concurrent appends do not fork the chain", v); ("an empty chain verifies", Passed)] ∧
    (v = Passed ∨ collision demo_sha (chain_left demo_sha empty_bucket demo_clock [3; 1; 3; 0; 1; 2] 0)).
Proof.
  split; [exact demo_takes_writes|].
  destruct (audit_chain_never_forks demo_sha empty_bucket ltac:(done) ltac:(done) ltac:(done) demo_clock demo_clock_stamps [3; 1; 3; 0; 1; 2] 0)
    as (v1 & v2 & v3 & Hv & H3 & H12).
  destruct (H12 demo_takes_writes) as [-> ->]. exists v3. exact (conj Hv H3).
Defined.
