(* ===== verification/Sdk.v ===== *)
(** The one door: [internal/sdk/sdk.go], with the identity resolvers of
    [internal/identity] behind it.

    [Submit] resolves the caller, evaluates policy, records the decision and issues a
    token. Its three collaborators are an interface; the door's theorems are proved
    against it, and the kernel that wires the directory, the engine and the audit chain
    together implements it. The two clock readings and the random token are arguments. *)
From S2P Require Import Prelude Utf8 Contracts Cascade Grants Floors Engine Bucket AuditChain.

(** ** identity.go *)

(** [m.subjects]; the origin text is not modelled. *)
Notation Mock := (gmap string Subject) (only parsing).

Definition plain_subject (id : string) (roles : list Role) (isAI : bool) : Subject :=
  mkSubject id roles [] isAI ∅.

Definition NewMock : Mock :=
  list_to_map
    [("root", plain_subject "root" [RoleSuperAdmin] false);
     ("arch-carol", plain_subject "arch-carol" [RoleArchitect] false);
     ("lead-bob", plain_subject "lead-bob" [RoleOperator] false);
     ("dev-alice", plain_subject "dev-alice" [RoleConsumer] false);
     ("ci-agent", plain_subject "ci-agent" [RoleAIAgent] true);
     ("ai-agent", plain_subject "ai-agent" [RoleAIAgent] true)].

Definition NewMockFrom (table : gmap string (list Role)) : Mock :=
  map_imap (λ id roles, Some (plain_subject id roles (slice_contains roles RoleAIAgent))) table.

Definition Mock_Resolve (m : Mock) (ext : ExternalIdentity) : result string Subject :=
  match m !! ext_ID ext with
  | None => Err ("unknown subject " +:+ Quote (ext_ID ext))
  | Some s => Ok s
  end.

(** ** gateway.go *)

Record Gateway := mkGateway {
  gw_table : gmap string (list Role);
  gw_aiGroups : gset string;
}.

Definition NewGateway (table : gmap string (list Role)) (aiGroups : list string) : Gateway :=
  mkGateway table (list_to_set aiGroups).

(** The inner loop: [seen], [roles] and [isAI] after one role of a group. *)
Definition gateway_role (acc : gset string * list Role * bool) (r : Role) :
    gset string * list Role * bool :=
  let '(seen, roles, isAI) := acc in
  let isAI := if r =s? RoleAIAgent then true else isAI in
  if in_set seen r then (seen, roles, isAI) else ({[r]} ∪ seen, roles ++ [r], isAI).

Definition gateway_group (g : Gateway) (acc : gset string * list Role * bool) (grp : string) :
    gset string * list Role * bool :=
  let '(seen, roles, isAI) := acc in
  let isAI := if in_set (gw_aiGroups g) grp then true else isAI in
  foldl gateway_role (seen, roles, isAI) (get_list (gw_table g) grp).

Definition Gateway_Resolve (g : Gateway) (ext : ExternalIdentity) : result string Subject :=
  let '(_, roles, isAI) := foldl (gateway_group g) (∅, [], false) (ext_Groups ext) in
  match roles with
  | [] => Err ("identity " +:+ Quote (ext_ID ext) +:+ " has no MantleKeep role for its groups ["
                 +:+ Join (ext_Groups ext) " " +:+ "]")
  | _ => Ok (mkSubject (ext_ID ext) roles (ext_Groups ext) isAI ∅)
  end.

(** ** sdk.go *)

(** The ports the door calls: [IdentityResolver], [PolicyEvaluator], [AuditLogger]. *)
Class Ports (W : Type) := {
  port_Resolve : W → ExternalIdentity → result string Subject;
  port_Evaluate : W → PolicyInput → result go_error Decision * W;
  port_Log : W → AuditRecord → result go_error AuditRecord * W;
}.

Definition two_hours : Duration := (2 * 3600 * 1000000000)%Z.

(** The deny the door itself gives, without asking the policy. *)
Definition door_denies (reason : string) (category : DenialCategory) : go_error :=
  ErrorDecision (mkDecision ActionDeny reason category [] "" [] "").

(** The input [Submit] builds by hand. *)
Definition submit_input (subject : Subject) (intent : Intent) : PolicyInput :=
  let requester := param_string (int_Params intent) "requester" in
  let env := param_string (int_Params intent) "env" in
  let scope := param_string (int_Params intent) "scope" in
  {| in_Subject := {| ps_ID := sub_ID subject; ps_Roles := sub_Roles subject;
                      ps_IsAI := sub_IsAI subject; ps_Attrs := sub_Attrs subject |};
     in_Intent := {| pi_Action := int_Action intent; pi_Resource := int_Resource intent;
                     pi_Requester := requester; pi_Env := env;
                     pi_Goal := spec_Goal (int_Spec intent); pi_Scope := scope;
                     pi_Params := int_Params intent |} |}.

Definition decision_record (t : Time) (subject : Subject) (intent : Intent) (d : Decision) :
    AuditRecord :=
  {| rec_Timestamp := t; rec_IntentID := int_ID intent; rec_SubjectID := sub_ID subject;
     rec_Action := int_Action intent; rec_Decision := dec_Action d; rec_PolicyID := dec_PolicyID d;
     rec_IsAI := sub_IsAI subject; rec_Via := int_Via intent; rec_RunID := "";
     rec_ParentID := ""; rec_StepID := ""; rec_PrevHash := ""; rec_Hash := "" |}.

Definition external_of (intent : Intent) : ExternalIdentity :=
  mkExternalIdentity (sub_ID (int_Subject intent)) (sub_ADGroups (int_Subject intent)) ∅.

Section sdk.
Context {W : Type} `{!Ports W}.

Definition Submit (t_log t_issue : Time) (token : string) (intent : Intent) (w : W) :
    result go_error ExecutionToken * W :=
  if spec_Goal (int_Spec intent) =s? "" then
    (Err (door_denies "intent rejected: intent_spec.goal is required" DenialValidation), w)
  else match port_Resolve w (external_of intent) with
  | Err err =>
      (Err (door_denies ("intent rejected: unknown subject " +:+
              Quote (sub_ID (int_Subject intent)) +:+ ": " +:+ err) DenialIdentity), w)
  | Ok subject =>
  match port_Evaluate w (submit_input subject intent) with
  | (Err err, w) => (Err (ErrorWrap ("policy error: " +:+ Error err) [err]), w)
  | (Ok decision, w) =>
  match port_Log w (decision_record t_log subject intent decision) with
  | (Err aerr, w) => (Err (ErrorWrap ("audit error: " +:+ Error aerr) [aerr]), w)
  | (Ok _, w) =>
      if negb (dec_Action decision =s? ActionAllow) then (Err (ErrorDecision decision), w)
      else (Ok {| tok_Value := token; tok_IntentID := int_ID intent;
                  tok_Scope := int_Resource intent; tok_PolicyID := dec_PolicyID decision;
                  tok_IssuedAt := t_issue; tok_ExpiresAt := (t_issue + two_hours)%Z |}, w)
  end end end.
End sdk.

(** ** The kernel behind the door *)

Section kernel.
Context (ParseFloat : string → option SpecFloat.spec_float) (Getenv : string → string).
Context `{RecordCodec} {B : Type} `{!Bucket B} (sha256_hex : string → string).

(** What the process holds: the directory, the engine, the policy snapshots its checks
    read, and the audit log. *)
Record Kernel := mkKernel {
  k_directory : ExternalIdentity → result string Subject;
  k_engine : RBAC;
  k_live : live_read → grantsSnapshot;
  k_audit : B;
}.

#[export] Instance kernel_ports : Ports Kernel := {|
  port_Resolve := k_directory;
  port_Evaluate := λ k input,
    let '(d, engine) := Evaluate ParseFloat Getenv (k_live k) (k_engine k) input in
    (Ok d, mkKernel (k_directory k) engine (k_live k) (k_audit k));
  port_Log := λ k rec,
    match Log sha256_hex (k_audit k) rec with
    | (Ok rec, b) => (Ok rec, mkKernel (k_directory k) (k_engine k) (k_live k) b)
    | (Err e, b) => (Err (ErrorText e), mkKernel (k_directory k) (k_engine k) (k_live k) b)
    end;
|}.
End kernel.
Arguments Kernel B : clear implicits.

(** ** Lemmas *)

(** The hand-built input is the one construction [policyinput.go] gives. *)
Lemma submit_input_eq subject intent : submit_input subject intent = PolicyInputFor subject intent.
Proof. done. Qed.

Section sdk_props.
Context {W : Type} `{!Ports W}.

(** How [Submit] can end, each case with the calls that led there. *)
Inductive submitted (t_log t_issue : Time) (token : string) (intent : Intent) (w : W) :
    result go_error ExecutionToken → W → Prop :=
| NoGoal : spec_Goal (int_Spec intent) = "" →
    submitted t_log t_issue token intent w
      (Err (door_denies "intent rejected: intent_spec.goal is required" DenialValidation)) w
| Unknown err : spec_Goal (int_Spec intent) ≠ "" →
    port_Resolve w (external_of intent) = Err err →
    submitted t_log t_issue token intent w
      (Err (door_denies ("intent rejected: unknown subject " +:+
              Quote (sub_ID (int_Subject intent)) +:+ ": " +:+ err) DenialIdentity)) w
| PolicyFailed subject err w1 : spec_Goal (int_Spec intent) ≠ "" →
    port_Resolve w (external_of intent) = Ok subject →
    port_Evaluate w (PolicyInputFor subject intent) = (Err err, w1) →
    submitted t_log t_issue token intent w
      (Err (ErrorWrap ("policy error: " +:+ Error err) [err])) w1
| AuditFailed subject d err w1 w2 : spec_Goal (int_Spec intent) ≠ "" →
    port_Resolve w (external_of intent) = Ok subject →
    port_Evaluate w (PolicyInputFor subject intent) = (Ok d, w1) →
    port_Log w1 (decision_record t_log subject intent d) = (Err err, w2) →
    submitted t_log t_issue token intent w
      (Err (ErrorWrap ("audit error: " +:+ Error err) [err])) w2
| Decided subject d rec w1 w2 : spec_Goal (int_Spec intent) ≠ "" →
    port_Resolve w (external_of intent) = Ok subject →
    port_Evaluate w (PolicyInputFor subject intent) = (Ok d, w1) →
    port_Log w1 (decision_record t_log subject intent d) = (Ok rec, w2) →
    submitted t_log t_issue token intent w
      (if decide (dec_Action d = ActionAllow)
       then Ok (mkExecutionToken token (int_ID intent) (int_Resource intent) (dec_PolicyID d)
                  t_issue (t_issue + two_hours)%Z)
       else Err (ErrorDecision d)) w2.

Lemma Submit_submitted t_log t_issue token intent w :
  let r := Submit t_log t_issue token intent w in
  submitted t_log t_issue token intent w r.1 r.2.
Proof.
  simpl. unfold Submit. destruct (_ =s? "") eqn:E1; autorewrite with mk in E1; [by constructor|].
  destruct (port_Resolve _ _) as [subject|err] eqn:E2; [|by eapply Unknown].
  rewrite submit_input_eq.
  destruct (port_Evaluate _ _) as [[d|err] w1] eqn:E3; [|by eapply PolicyFailed].
  destruct (port_Log _ _) as [[rec|err] w2] eqn:E4; [|by eapply AuditFailed].
  pose proof (Decided t_log t_issue token intent w subject d rec w1 w2 E1 E2 E3 E4) as H.
  unfold eqs. by destruct (decide (dec_Action d = ActionAllow)) as [->|Hne];
    [|rewrite bool_decide_eq_false_2 by done].
Qed.

(** A token means a recorded allow. The door issues a token only when the resolved
    subject's request was evaluated, the decision is an allow and the record of that
    decision was logged first; the token is for that intent and resource, under that
    policy, and lives two hours. Otherwise the error is a deny of the door's own, a
    failure of the policy or the log, or the policy's decision, whole, which
    [DecisionFrom] finds again. *)
Theorem token_means_recorded_allow t_log t_issue token intent w :
  match Submit t_log t_issue token intent w with
  | (Ok tok, w') => ∃ subject d w1 rec,
      port_Resolve w (external_of intent) = Ok subject ∧
      port_Evaluate w (PolicyInputFor subject intent) = (Ok d, w1) ∧
      dec_Action d = ActionAllow ∧
      port_Log w1 (decision_record t_log subject intent d) = (Ok rec, w') ∧
      tok = mkExecutionToken token (int_ID intent) (int_Resource intent) (dec_PolicyID d)
              t_issue (t_issue + 7200000000000)%Z ∧
      (∀ t, ExecutionToken_Valid tok t = true ↔ (t < t_issue + 7200000000000)%Z)
  | (Err e, w') =>
      (∃ reason category, e = door_denies reason category ∧ w' = w) ∨
      (∃ subject err, port_Evaluate w (PolicyInputFor subject intent) = (Err err, w') ∧
         e = ErrorWrap ("policy error: " +:+ Error err) [err]) ∨
      (∃ subject d w1 err, port_Evaluate w (PolicyInputFor subject intent) = (Ok d, w1) ∧
         port_Log w1 (decision_record t_log subject intent d) = (Err err, w') ∧
         e = ErrorWrap ("audit error: " +:+ Error err) [err]) ∨
      (∃ subject d w1 rec, port_Evaluate w (PolicyInputFor subject intent) = (Ok d, w1) ∧
         dec_Action d ≠ ActionAllow ∧
         port_Log w1 (decision_record t_log subject intent d) = (Ok rec, w') ∧
         DecisionFrom (Some e) = (d, true))
  end.
Proof.
  pose proof (Submit_submitted t_log t_issue token intent w) as H. cbv zeta in H.
  destruct (Submit _ _ _ _ _) as [r w']. simpl in H. inversion H; subst; clear H.
  - left. by eexists _, _.
  - left. by eexists _, _.
  - right. left. by eexists subject, err.
  - right. right. left. by eexists subject, d, w1, err.
  - case_decide as Hd.
    + exists subject, d, w1, rec. split_and!; try done. intros t.
      unfold ExecutionToken_Valid. by rewrite Z.ltb_lt.
    + right. right. right. by exists subject, d, w1, rec.
Qed.

(** The claims about itself a caller can make beside its id and groups. *)
Definition claim (s : Subject) (roles : list Role) (isAI : bool) (attrs : gmap string string) :
    Subject :=
  mkSubject (sub_ID s) roles (sub_ADGroups s) isAI attrs.

Definition with_subject (i : Intent) (s : Subject) : Intent :=
  mkIntent (int_ID i) s (int_Action i) (int_Resource i) (int_Spec i) (int_Params i)
    (int_SubmittedAt i) (int_TTL i) (int_Via i).

(** Roles cannot be claimed. Whatever roles, AI flag and attributes the caller writes
    into the intent, the door's answer and everything it does are the same. *)
Lemma claimed_roles_are_ignored t_log t_issue token intent roles isAI attrs w :
  Submit t_log t_issue token (with_subject intent (claim (int_Subject intent) roles isAI attrs)) w
  = Submit t_log t_issue token intent w.
Proof. done. Qed.
End sdk_props.

(** ** The gateway's roles *)

Lemma ex_elem_cons {A} (P : A → Prop) x l :
  (∃ y, y ∈ x :: l ∧ P y) ↔ P x ∨ ∃ y, y ∈ l ∧ P y.
Proof. setoid_rewrite elem_of_cons. naive_solver. Qed.

Lemma gateway_role_fold rs seen roles isAI :
  (∀ x, x ∈ seen ↔ x ∈ roles) → NoDup roles →
  let r := foldl gateway_role (seen, roles, isAI) rs in
  (∀ x, x ∈ r.1.1 ↔ x ∈ r.1.2) ∧ NoDup r.1.2 ∧
  (∀ x, x ∈ r.1.2 ↔ x ∈ roles ∨ x ∈ rs) ∧
  (r.2 = true ↔ isAI = true ∨ RoleAIAgent ∈ rs).
Proof.
  revert seen roles isAI. induction rs as [|x rs IH]; intros seen roles isAI Hs Hnd; cbn [foldl].
  { set_solver. }
  set (isAI' := if x =s? RoleAIAgent then true else isAI).
  assert (isAI' = true ↔ isAI = true ∨ x = RoleAIAgent) as Hai.
  { unfold isAI'. destruct (x =s? RoleAIAgent) eqn:E; autorewrite with mk in E; naive_solver. }
  destruct (in_set seen x) eqn:E.
  - assert (gateway_role (seen, roles, isAI) x = (seen, roles, isAI')) as ->
      by (simpl; by rewrite E).
    autorewrite with mk in E. specialize (IH seen roles isAI' Hs Hnd). simpl in IH.
    destruct IH as (H1 & H2 & H3 & H4).
    split_and!; [done..| |].
    + intros y. rewrite H3, elem_of_cons. apply Hs in E. naive_solver.
    + rewrite H4, Hai, elem_of_cons. naive_solver.
  - assert (gateway_role (seen, roles, isAI) x = ({[x]} ∪ seen, roles ++ [x], isAI')) as ->
      by (simpl; by rewrite E).
    autorewrite with mk in E.
    destruct (IH ({[x]} ∪ seen) (roles ++ [x]) isAI') as (H1 & H2 & H3 & H4).
    + set_solver.
    + apply NoDup_app. split_and!; [done| |apply NoDup_singleton]. set_solver.
    + split_and!; [done..| |].
      * intros y. rewrite H3, elem_of_app, list_elem_of_singleton, elem_of_cons. tauto.
      * rewrite H4, Hai, elem_of_cons. naive_solver.
Qed.

Lemma gateway_groups_fold g grps seen roles isAI :
  (∀ x, x ∈ seen ↔ x ∈ roles) → NoDup roles →
  let r := foldl (gateway_group g) (seen, roles, isAI) grps in
  NoDup r.1.2 ∧
  (∀ x, x ∈ r.1.2 ↔ x ∈ roles ∨ ∃ grp, grp ∈ grps ∧ x ∈ get_list (gw_table g) grp) ∧
  (r.2 = true ↔ isAI = true ∨ ∃ grp, grp ∈ grps ∧
     (grp ∈ gw_aiGroups g ∨ RoleAIAgent ∈ get_list (gw_table g) grp)).
Proof.
  revert seen roles isAI. induction grps as [|grp grps IH]; intros seen roles isAI Hs Hnd;
    cbn [foldl].
  { set_solver. }
  set (isAI' := if in_set (gw_aiGroups g) grp then true else isAI).
  assert (isAI' = true ↔ isAI = true ∨ grp ∈ gw_aiGroups g) as Hai.
  { unfold isAI'. destruct (in_set _ grp) eqn:E; autorewrite with mk in E; naive_solver. }
  change (gateway_group g (seen, roles, isAI) grp)
    with (foldl gateway_role (seen, roles, isAI') (get_list (gw_table g) grp)).
  destruct (gateway_role_fold (get_list (gw_table g) grp) seen roles isAI' Hs Hnd)
    as (H1 & H2 & H3 & H4).
  destruct (foldl gateway_role _ _) as [[seen1 roles1] isAI1]. simpl in H1, H2, H3, H4.
  destruct (IH seen1 roles1 isAI1 H1 H2) as (H5 & H6 & H7).
  split_and!; [done| |].
  - intros x. rewrite H6, H3, ex_elem_cons. tauto.
  - rewrite H7, H4, Hai, ex_elem_cons. tauto.
Qed.

(** The gateway decides the roles, the groups only select them. A person is refused
    exactly when none of their groups maps to a role; otherwise they hold exactly the
    roles their groups map to, each once, and are an AI exactly when a group is one of
    the AI groups or maps to the AI role. *)
Theorem gateway_resolves_exactly g ext :
  let maps := λ role, ∃ grp, grp ∈ ext_Groups ext ∧ role ∈ get_list (gw_table g) grp in
  match Gateway_Resolve g ext with
  | Err _ => ∀ role, ¬ maps role
  | Ok s =>
      sub_ID s = ext_ID ext ∧ NoDup (sub_Roles s) ∧ sub_Roles s ≠ [] ∧
      (∀ role, role ∈ sub_Roles s ↔ maps role) ∧
      (sub_IsAI s = true ↔ maps RoleAIAgent ∨ ∃ grp, grp ∈ ext_Groups ext ∧ grp ∈ gw_aiGroups g)
  end.
Proof.
  intros maps. unfold Gateway_Resolve.
  destruct (gateway_groups_fold g (ext_Groups ext) ∅ [] false) as (H1 & H2 & H3);
    [set_solver|constructor|].
  destruct (foldl _ _ _) as [[seen roles] isAI]. simpl in *.
  assert (∀ role, role ∈ roles ↔ maps role) as Hm.
  { intros role. rewrite H2. unfold maps. set_solver. }
  destruct roles as [|r roles]; [intros role; rewrite <- Hm; apply not_elem_of_nil|].
  simpl. split_and!; [done..|]. rewrite H3. unfold maps. split.
  - intros [|(grp & Hg & [Ha|Ha])]; [done|right; by exists grp|left; by exists grp].
  - intros [(grp & Hg & Ha)|(grp & Hg & Ha)]; right; exists grp; tauto.
Qed.

(** ** The whole kernel *)

Section kernel_props.
Context (ParseFloat : string → option SpecFloat.spec_float) (Getenv : string → string).
Context `{RecordCodec} {B : Type} `{!Bucket B} (sha256_hex : string → string).
Context {digest : HexDigest sha256_hex}.
Implicit Type k : Kernel B.

#[local] Existing Instance kernel_ports.

(** An audit log that verifies and has room for a record. *)
Definition sound_log (b : B) : Prop :=
  well_keyed b ∧ (sequence b + 1 < 10 ^ 16)%Z ∧ Verify sha256_hex b = true.

(** The decision the engine takes about a resolved subject. *)
Definition engine_decision k (subject : Subject) (intent : Intent) : Decision :=
  (Evaluate ParseFloat Getenv (k_live k) (k_engine k) (PolicyInputFor subject intent)).1.

Lemma kernel_evaluate k input d k1 :
  @port_Evaluate _ (kernel_ports ParseFloat Getenv sha256_hex) k input = (Ok d, k1) →
  d = (Evaluate ParseFloat Getenv (k_live k) (k_engine k) input).1 ∧
  k_audit k1 = k_audit k ∧ k_live k1 = k_live k.
Proof.
  simpl. destruct (Evaluate _ _ _ _ _) as [d' engine]. by intros [= <- <-].
Qed.

Lemma kernel_evaluate_total k input e k1 :
  @port_Evaluate _ (kernel_ports ParseFloat Getenv sha256_hex) k input ≠ (Err e, k1).
Proof. simpl. by destruct (Evaluate _ _ _ _ _) as [d' engine]. Qed.

Lemma kernel_log k rec r k1 :
  @port_Log _ (kernel_ports ParseFloat Getenv sha256_hex) k rec = (r, k1) →
  match r with
  | Ok rec' => Log sha256_hex (k_audit k) rec = (Ok rec', k_audit k1)
  | Err _ => k_audit k1 = k_audit k
  end.
Proof.
  simpl. destruct (Log _ _ _) as [[rec'|e] b] eqn:E; intros [= <- <-]; simpl; [done|].
  by eapply Log_Err.
Qed.

(** What a submission that reached the log left there. *)
Definition decided_and_recorded k (t_log : Time) (intent : Intent) (k' : Kernel B) (d : Decision) : Prop :=
  ∃ subject rec older,
    k_directory k (external_of intent) = Ok subject ∧ d = engine_decision k subject intent ∧
    Records (k_audit k) 0 = Some older ∧ Records (k_audit k') 0 = Some (rec :: older) ∧
    rec = chained sha256_hex (k_audit k) (decision_record t_log subject intent d) ∧
    rec_Decision rec = dec_Action d ∧ rec_SubjectID rec = sub_ID subject ∧
    rec_IntentID rec = int_ID intent.

(** Every string the record of a submission takes is valid UTF-8: the intent's id, action
    and route, and the id of the subject the directory resolves; the stamp is of the years 0 to 9999. *)
Definition submission_text k (t_log : Time) (intent : Intent) : Prop :=
  stampable t_log ∧ Forall valid_text [int_ID intent; int_Action intent; int_Via intent] ∧
  ∀ subject, k_directory k (external_of intent) = Ok subject → valid_text (sub_ID subject).

Lemma decision_record_text k t_log subject intent :
  submission_text k t_log intent → k_directory k (external_of intent) = Ok subject →
  record_text (decision_record t_log subject intent (engine_decision k subject intent)).
Proof.
  intros (Ht & Hi & Hs) Hres. rewrite !Forall_cons in Hi.
  destruct (Evaluate_texts ParseFloat Getenv (k_live k) (k_engine k) (PolicyInputFor subject intent))
    as [Hid Hact].
  split; [done|]. unfold record_strings. cbn. unfold engine_decision. rewrite Hid.
  rewrite !Forall_cons, Forall_nil. split_and!; try done; try tauto; [by apply Hs| |by apply policyID_text].
  unfold valid_text. by destruct Hact as [-> | [-> | ->]].
Qed.

(** C1: the door, end to end. Over a sound audit log (verified, its keys the sequence
    numbers, with room for a record), whatever is submitted, the log verifies afterwards,
    provided the strings the record takes are valid UTF-8 and the stamp can be written.
    A token is issued only to a request every rule of the policy permits, for the subject
    the directory resolves, and then the newest record is that allow; a refusal by the
    policy is recorded in the same way before it is returned; and every other refusal (no
    goal, an unknown subject, a log that cannot be written) leaves the log exactly as it
    was. A floor rule permits what it does not forbid, and everything when it has no
    message and is no capped map. *)
Theorem submit_end_to_end k t_log t_issue token intent
    (Hlog : sound_log (k_audit k)) (Htext : submission_text k t_log intent) :
  let '(r, k') := Submit (Ports0 := kernel_ports ParseFloat Getenv sha256_hex)
                    t_log t_issue token intent k in
  Verify sha256_hex (k_audit k') = true ∧
  match r with
  | Ok tok => ∃ d, decided_and_recorded k t_log intent k' d ∧ dec_Action d = ActionAllow ∧
      ∃ subject, k_directory k (external_of intent) = Ok subject ∧
        permitted ParseFloat (k_live k) (k_engine k) (PolicyInputFor subject intent)
  | Err e =>
      (∃ d, decided_and_recorded k t_log intent k' d ∧ dec_Action d ≠ ActionAllow ∧
         e = ErrorDecision d) ∨
      k_audit k' = k_audit k
  end.
Proof.
  pose proof (Submit_submitted (Ports0 := kernel_ports ParseFloat Getenv sha256_hex)
    t_log t_issue token intent k) as H1. cbv zeta in H1.
  destruct Hlog as (Hk & Hroom & Hv). destruct (Submit _ _ _ _ _) as [r k']. simpl in H1.
  inversion H1; subst; clear H1.
  - split; [done|by right].
  - split; [done|by right].
  - by destruct (kernel_evaluate_total k (PolicyInputFor subject intent) err k').
  - match goal with E : port_Evaluate _ _ = _ |- _ => apply kernel_evaluate in E as (_ & Ha & _) end.
    match goal with E : port_Log _ _ = _ |- _ => apply kernel_log in E; rewrite Ha in E end.
    split; [congruence|by right].
  - match goal with E : port_Evaluate _ _ = _ |- _ => apply kernel_evaluate in E as (Hd & Ha & _) end.
    match goal with E : port_Log _ _ = _ |- _ => apply kernel_log in E as Hl; rewrite Ha in Hl end.
    assert (d = engine_decision k subject intent) as -> by done.
    pose proof (decision_record_text k t_log subject intent Htext ltac:(done)) as Hrt.
    pose proof (Log_verified sha256_hex _ _ _ _ Hrt Hk Hroom Hv Hl) as (Hv' & _ & Hr).
    destruct (Verify_Records sha256_hex _ Hv) as [older Hold].
    apply Log_Ok in Hl as (-> & _ & _); [|done..].
    set (d := engine_decision k subject intent) in *.
    assert (decided_and_recorded k t_log intent k' d) as Hrec.
    { exists subject, (chained sha256_hex (k_audit k) (decision_record t_log subject intent d)), older.
      split_and!; try done. by apply Hr. }
    split; [done|]. case_decide as Hallow; [|left; by exists d].
    exists d. split_and!; [done..|]. exists subject. split; [done|].
    by apply (Evaluate_allow_permitted ParseFloat Getenv).
Qed.
End kernel_props.

(** ** Witnesses *)

Definition demo_kernel : Kernel ListBucket :=
  mkKernel (Mock_Resolve NewMock) demo_engine (steady demo_snapshot) demo_log1.

Definition demo_intent (who : string) : Intent :=
  {| int_ID := "i-7"; int_Subject := plain_subject who [RoleSuperAdmin] false;
     int_Action := "namespace.create"; int_Resource := "ns/ledger";
     int_Spec := mkIntentSpec "a namespace for the ledger" [] "low" [] [] "";
     int_Params := <["requester" := VString "dev-alice"]> (demo_request "16Gi");
     int_SubmittedAt := 1; int_TTL := 0; int_Via := "cli" |}.

Definition demo_submit (who : string) : result go_error ExecutionToken * Kernel ListBucket :=
  Submit (Ports0 := kernel_ports demo_ParseFloat (λ _, "") demo_sha) 10 11 "tok" (demo_intent who)
    demo_kernel.

(** An operator is allowed; the consumer who claims to be a super admin is not. *)
Lemma submit_end_to_end_witness :
  is_ok (demo_submit "lead-bob").1 = true ∧ is_ok (demo_submit "dev-alice").1 = false ∧
  Verify demo_sha (k_audit (demo_submit "lead-bob").2) = true ∧
  Verify demo_sha (k_audit (demo_submit "dev-alice").2) = true.
Proof.
  assert (sound_log demo_sha (k_audit demo_kernel)) as Hlog.
  { split; [exact demo_log1_keyed|]. split; [by vm_compute|by vm_compute]. }
  assert (∀ who, who = "lead-bob" ∨ who = "dev-alice" →
    submission_text demo_kernel 10 (demo_intent who)) as Htext.
  { intros who Hwho. split; [done|]. split; [by repeat constructor|].
    intros subject Hs. destruct Hwho as [-> | ->]; vm_compute in Hs; by injection Hs as <-. }
  split; [by vm_compute|]. split; [by vm_compute|]. split.
  - pose proof (submit_end_to_end demo_ParseFloat (λ _, "") demo_sha demo_kernel 10 11 "tok"
      (demo_intent "lead-bob") Hlog (Htext _ (or_introl eq_refl))) as H.
    fold (demo_submit "lead-bob") in H. destruct (demo_submit "lead-bob"). apply H.
  - pose proof (submit_end_to_end demo_ParseFloat (λ _, "") demo_sha demo_kernel 10 11 "tok"
      (demo_intent "dev-alice") Hlog (Htext _ (or_intror eq_refl))) as H.
    fold (demo_submit "dev-alice") in H. destruct (demo_submit "dev-alice"). apply H.
Defined.
