(* ===== verification/GovernanceTest.v ===== *)
(** The conformance suite a deployment must pass: [mantlekeep-control/governancetest].

    The checks of the documents read the grants and the floors; the behavioural ones probe
    the assembled door. The probe counter of the package is a call, since it is shared by
    every run of the process. What a report says of the reference door is proved against
    [Sdk.Submit] over the engine, whatever the engine's adapters and layers. *)
From S2P Require Import Prelude Contracts Cascade Grants Floors Engine Bucket AuditChain Sdk Conformance.

(** ** What a test calls *)

Inductive door_call :=
| CCount
| CSubmit (i : Intent).
Definition door_answer (c : door_call) : Type :=
  match c with CCount => N | CSubmit _ => result go_error ExecutionToken end.
Notation door_test := (test door_call door_answer).

(** ** conformance.go *)

Record Action := mkAction {
  act_Name : string;
  act_Params : gmap string value;
  act_Gated : bool;
}.

(** The door is the implementation a test runs against; whether there is one is a field. *)
Record Deployment := mkDeployment {
  dp_Door : bool;
  dp_Subjects : list Subject;
  dp_Actions : list Action;
}.

Definition refuseUnusableDeployment (deployment : Deployment) : option string :=
  if negb (dp_Door deployment) then
    Some ("governancetest: no Door — pass the assembled door from this process, because " +:+
          "every behavioural check is that door's own answer and nothing else can stand in for it")
  else match dp_Actions deployment with
  | [] => Some ("governancetest: no Actions — pass the product's actions and the params its " +:+
                "intents carry, or the suite can only confirm that an unused engine is idle")
  | _ =>
    if existsb (λ s, sub_ID s =s? "") (dp_Subjects deployment) then
      Some ("governancetest: a Subject has no ID — the door resolves subjects by id, so " +:+
            "an empty one cannot be resolved and its refusal would prove nothing")
    else if (size (list_to_set (map sub_ID (dp_Subjects deployment)) : gset string) <? 2)%nat then
      Some ("governancetest: %d distinct Subject id(s) — separation of duties needs a " +:+
            "SECOND person to be separate from, and with one id every approval looks like a " +:+
            "self-approval whether the floor works or not")
    else if negb (existsb (λ s, negb (sub_IsAI s)) (dp_Subjects deployment)) then
      Some ("governancetest: every Subject is marked IsAI — an AI can never satisfy an " +:+
            "approval gate, so no gate check could distinguish a working floor from a broken one")
    else None
  end.

Definition loading_failed : string :=
  "loading %s: %v — the door will not start on a document that does not parse, " +:+
  "so fix this before reading anything else here".
Definition not_in_force : string :=
  "the policy documents in the environment (revision %s) are NOT the documents " +:+
  "this door is deciding against (revision %s): the engine read its policy once, at " +:+
  "the first governed call, and holds it for the life of the process. Set the " +:+
  "MANTLEKEEP_POLICY_* environment in TestMain BEFORE anything submits, and use a " +:+
  "separate test package for each policy variant".

(** The documents of the environment now, their revision, and the one in force. *)
Definition documentsInForce (load : result string Grants) (loadFloors : result string Floors)
    (RevisionOfDocuments : Grants → Floors → string) (inForce : string) : result string (Grants * Floors) :=
  match load with
  | Err _ => Err loading_failed
  | Ok held =>
      match loadFloors with
      | Err _ => Err loading_failed
      | Ok floors => if negb (RevisionOfDocuments held floors =s? inForce) then Err not_in_force else Ok (held, floors)
      end
  end.

(** ** reading.go *)

Definition grantedActions (held : Grants) : gset string :=
  list_to_set (map_to_list (RoleActions held) ≫= snd).

Definition rulesOfKind (rules : list FloorRule) (kind : string) : list FloorRule :=
  List.filter (λ rule, fr_Kind rule =s? kind) rules.

Definition whenMatches (params : gmap string value) (key want : string) : bool :=
  match params !! key with
  | Some (VBool v) => v && (want =s? "true")
  | Some (VString v) => v =s? want
  | _ => false
  end.

(** ** probe.go *)

Record outcome := mkOutcome { oc_allowed : bool; oc_decision : Decision }.

Definition refusedForNoGrant (v : outcome) : bool := dec_Category (oc_decision v) =s? DenialActionNotAllowed.
Definition awaitingAPerson (v : outcome) : bool := dec_Action (oc_decision v) =s? ActionRequireApproval.
Definition describe (v : outcome) : string :=
  if oc_allowed v then "ALLOWED (a token was issued)"
  else dec_Action (oc_decision v) +:+ " at " +:+ Quote (dec_Step (oc_decision v)) +:+ " (" +:+
       dec_Category (oc_decision v) +:+ "): " +:+ dec_Reason (oc_decision v).

Definition paramsWith (base overrides : gmap string value) : gmap string value := overrides ∪ base.

Definition probe_intent (count : N) (now : Time) (subject : Subject) (action : Action) (extraParams : gmap string value) : Intent :=
  mkIntent ("INT-GOVTEST-" +:+ Itoa (Z.of_N count)) (mkSubject (sub_ID subject) [] [] false ∅) (act_Name action)
    ("governancetest/" +:+ act_Name action)
    (mkIntentSpec ("governance conformance probe: " +:+ act_Name action) [] "" [] [] "")
    (paramsWith (act_Params action) extraParams) now 0 "".

Definition empty_token : string :=
  "the door allowed %q for %q and issued an EMPTY token — an allow that " +:+
  "grants no capability cannot be acted on, and this is a door defect rather " +:+ "than a policy one".
Definition no_decision : string :=
  "submitting %q as %q did not produce a decision: %v — the door itself failed, " +:+
  "so nothing below this can be read as a policy finding".

Definition probe (subject : Subject) (action : Action) (extraParams : gmap string value) (rest : outcome → door_test) : door_test :=
  Ask CCount (λ count, Clock (λ now,
  Ask (CSubmit (probe_intent count now subject action extraParams)) (λ r,
  match r with
  | Ok token => if tok_Value token =s? "" then Fatalf empty_token else rest (mkOutcome true zeroDecision)
  | Err e =>
      match errors_as as_DecisionError e with
      | None => Fatalf no_decision
      | Some refused => rest (mkOutcome false refused)
      end
  end))).

Definition humanSubjects (deployment : Deployment) : list Subject := List.filter (λ s, negb (sub_IsAI s)) (dp_Subjects deployment).
Definition aiSubjects (deployment : Deployment) : list Subject := List.filter sub_IsAI (dp_Subjects deployment).
Definition gatedActions (deployment : Deployment) : list Action := List.filter act_Gated (dp_Actions deployment).
Definition gatedActionsFirst (deployment : Deployment) : list Action :=
  gatedActions deployment ++ List.filter (λ a, negb (act_Gated a)) (dp_Actions deployment).

Definition arrow (subject : Subject) (action : Action) : string := sub_ID subject +:+ "→" +:+ act_Name action.
Definition noRequester : gmap string value := {["requester" := VString ""]}.

(** ** documents.go *)

Definition requireApprovalWhen : string := "require_approval_when".

Definition nothing_granted : string :=
  "role_actions in %s grants nothing (%d role(s) listed, 0 actions between " +:+
  "them). MantleKeep ships this document EMPTY on purpose, so an unconfigured " +:+
  "deployment denies every action at " +:+ Quote "a role permits the action" +:+ " and only the " +:+
  "engine's built-in L0-SuperAdmin wildcard still works. Add the product's actions " +:+
  "under the roles that may issue them".
Definition someRoleIsGrantedSomeAction (held : Grants) : door_test :=
  if bool_decide (grantedActions held = ∅) then Fatalf nothing_granted else Pass.

Definition theAISealHasAmmunition (held : Grants) : door_test :=
  if bool_decide (grantedActions held = ∅) then
    Skipf ("nothing is granted yet, so the seal has nothing to guard — see the " +:+
           "role_actions check, which names the same document")
  else match ApprovalActions held with
  | [] => Fatalf
      ("approval_actions in %s is empty while role_actions grants %d action(s) (%s). " +:+
       "The " +:+ Quote "an AI may never approve" +:+ " seal is real code matching against an empty set, " +:+
       "so it can never fire: an AI subject holding a granted role may perform any of " +:+
       "those actions, including the ones a person is supposed to sign. List the " +:+
       "approval-shaped actions there")
  | _ => Pass
  end.

Definition no_gate_rule : string :=
  "action %q is declared GATED but floors[%q] in %s holds no %q rule (%d rule(s) " +:+
  "of other kinds). Its gate param is computed, carried on the intent and written to " +:+
  "the hash chain, and nothing reads it: the door allows the change on one person's " +:+
  "say-so and the audit record says it was governed. This fails OPEN — add a %q rule " +:+
  "naming the param that carries the gate (this intent carries %s)".
Definition no_gate_matches : string :=
  "action %q is declared GATED and floors[%q] in %s holds %d %q rule(s), but none of " +:+
  "them MATCHES the params its intents carry: the rules read %s, the intent carries %s. " +:+
  "A rule that never matches is the same outcome as no rule at all — the change is allowed " +:+
  "and recorded as governed — with the added cost that the document looks correct. Correct " +:+
  "the whenParam/whenValue to the param the product actually sends".

Definition reportGateFor (action : Action) (rules : list FloorRule) (rest : door_test) : door_test :=
  match rulesOfKind rules requireApprovalWhen with
  | [] => Errorf no_gate_rule rest
  | approvalRules =>
      if existsb (λ rule, whenMatches (act_Params action) (fr_WhenParam rule) (fr_WhenValue rule)) approvalRules
      then rest else Errorf no_gate_matches rest
  end.

Definition everyGatedActionHasARuleThatFires (deployment : Deployment) (floors : Floors) : door_test :=
  foldr (λ action rest, reportGateFor action (get_list floors (act_Name action)) rest)
    (match gatedActions deployment with
     | [] => Skipf ("no declared action asserts Gated — set Gated on the actions that must not " +:+
                    "proceed on one person's say-so, or this suite cannot tell an ungated deployment " +:+
                    "from an unenforced gate")
     | _ => Pass
     end) (gatedActions deployment).

Definition unreachable_rules : string :=
  "floors in %s holds rules for action(s) that role_actions in %s grants to no role: " +:+
  "%s. The grant check runs BEFORE the floor, so every request for those actions is " +:+
  "refused at " +:+ Quote "a role permits the action" +:+ " and these rules are never evaluated — " +:+
  "unreachable code in a policy document, which reviews as a control and enforces " +:+
  "nothing. Either grant the action to the roles that may issue it, or delete the rules. " +:+
  "(A super-admin still reaches them via the engine's L0-SuperAdmin wildcard, and a " +:+
  "registered provider or config layer can grant an action this document does not — see " +:+
  "the reachability check for the engine's own answer.)".
Definition unreachable (held : Grants) (floors : Floors) : list string :=
  List.filter (λ action, (0 <? length (get_list floors action))%nat && negb (in_set (grantedActions held) action))
    (sorted_elements (dom floors)).
Definition noFloorRuleIsUnreachable (held : Grants) (floors : Floors) : door_test :=
  match unreachable held floors with [] => Pass | _ => Errorf unreachable_rules Pass end.

(** ** reachability.go *)

Definition nothing_reachable : string :=
  "every subject was refused every declared action at " +:+ Quote "a role permits the action" +:+ " " +:+
  "(%s). Nothing in this deployment is reachable, so every floor rule, approval gate and " +:+
  "seal below is code that has never been asked. Grant the product's actions to the roles " +:+
  "that may issue them in role_actions in %s — and check that the subject ids resolve to " +:+
  "the roles you granted, because the door reads roles from its own directory and ignores " +:+
  "whatever a caller claims".

(** The nested loops are one loop over the pairs, in their order. *)
Definition pairs_of {A B} (l : list A) (k : list B) : list (A * B) := l ≫= (λ x, (λ y, (x, y)) <$> k).

Definition someSubjectCanReachSomeAction (deployment : Deployment) : door_test :=
  foldr (λ p rest, probe p.1 p.2 noRequester (λ outcome, if negb (refusedForNoGrant outcome) then Pass else rest))
    (Fatalf nothing_reachable) (pairs_of (dp_Subjects deployment) (dp_Actions deployment)).

(** ** seals.go *)

Definition gated_allowed : string :=
  "the door ALLOWED an action this deployment declared gated (%s): it issued an " +:+
  "execution token and wrote an allow to the hash chain, so the change proceeded on " +:+
  "one person's say-so and the audit record cannot be told apart from one a second " +:+
  "person signed. This fails OPEN. Add a %q rule for the action in floors in %s, " +:+
  "reading the param its intents carry".
Definition gate_not_reached : string :=
  "no gated action reached the approval gate — every attempt was refused earlier " +:+
  "(%s). The gate is asked LAST, after every deny rule, so these params can never " +:+
  "prove it fires. Supply Params that clear the deny rules for the action, or the " +:+
  "gate stays a rule nobody has ever seen run".
Definition gate_not_granted : string :=
  "no supplied subject is granted any gated action, so the approval gate was never " +:+
  "reached — see the reachability check, which names the same cause".

(** [allowed] and [deniedElsewhere] so far. *)
Fixpoint gate_loop (pairs : list (Action * Subject)) (allowed deniedElsewhere : list string)
    (after : list string → list string → door_test) : door_test :=
  match pairs with
  | [] => after allowed deniedElsewhere
  | (action, subject) :: pairs =>
      probe subject action noRequester (λ outcome,
        if awaitingAPerson outcome then Pass
        else if oc_allowed outcome then gate_loop pairs (allowed ++ [arrow subject action]) deniedElsewhere after
        else if refusedForNoGrant outcome then gate_loop pairs allowed deniedElsewhere after
        else gate_loop pairs allowed (deniedElsewhere ++ [arrow subject action +:+ ": " +:+ describe outcome]) after)
  end.

Definition gate_verdict (deployment : Deployment) (allowed deniedElsewhere : list string) : door_test :=
  match gatedActions deployment, allowed, deniedElsewhere with
  | [], _, _ => Skipf ("no declared action asserts Gated, so there is no gate to fire — see the " +:+ "gated-action document check")
  | _, _ :: _, _ => Fatalf gated_allowed
  | _, [], _ :: _ => Fatalf gate_not_reached
  | _, [], [] => Fatalf gate_not_granted
  end.

Definition aGatedActionWaitsForASecondPerson (deployment : Deployment) : door_test :=
  gate_loop (pairs_of (gatedActions deployment) (humanSubjects deployment)) [] [] (gate_verdict deployment).

Definition approved_its_own : string :=
  "%q approved its own change to %q: the door issued an execution token " +:+
  "for an intent naming that same id as the requester. Separation of duties " +:+
  "is not being enforced for this action, and the chain records a " +:+
  "second-person approval that never happened. The engine's clause is " +:+
  "unconditional, so check that the product really sends the original " +:+
  "requester in params[" +:+ Quote "requester" +:+ "] — a gate nobody passes the requester to " +:+
  "cannot tell one person from two".
Definition duties_not_reached : string :=
  "no supplied subject is granted any declared action, so the " +:+
  "separation-of-duties refusal was never reached — see the reachability check, " +:+ "which names the same cause".
Definition refused_otherwise : string :=
  "a self-approval was refused, but never for separation of duties (%s). The refusal " +:+
  "an operator gets sends them somewhere else entirely, and if the earlier rule is ever " +:+
  "relaxed the self-approval becomes an allow with nothing behind it. Expected category " +:+ "%q at %q".

Fixpoint duties_loop (pairs : list (Action * Subject)) (reached : list string) : door_test :=
  match pairs with
  | [] => match reached with [] => Fatalf duties_not_reached | _ => Fatalf refused_otherwise end
  | (action, subject) :: pairs =>
      probe subject action noRequester (λ opened,
      if refusedForNoGrant opened then duties_loop pairs reached else
      probe subject action {["requester" := VString (sub_ID subject)]} (λ approval,
      if dec_Category (oc_decision approval) =s? DenialSeparationOfDuties then Pass
      else if oc_allowed approval then Fatalf approved_its_own
      else duties_loop pairs (reached ++ [arrow subject action +:+ ": " +:+ describe approval])))
  end.

Definition nobodyApprovesTheirOwnChange (deployment : Deployment) : door_test :=
  duties_loop (pairs_of (gatedActionsFirst deployment) (humanSubjects deployment)) [].

Definition declaredAction (deployment : Deployment) (name : string) : Action :=
  default (mkAction name ∅ false) (find (λ action, act_Name action =s? name) (dp_Actions deployment)).

Definition ai_not_stopped : string :=
  "AI subject %q was not stopped by the sealed floor on approval action %q: " +:+
  "the door answered %s. The seal fires on approval_actions in %s BEFORE any role " +:+
  "check, so either that list does not name this action or the door's directory " +:+
  "does not flag %q as an AI — and the door reads IsAI from its own directory, " +:+
  "never from what a caller passed here. Until it fires, an AI service account " +:+
  "can be the second person on its own work".

Definition ai_probe (deployment : Deployment) (p : Subject * string) (rest : door_test) : door_test :=
  probe p.1 (declaredAction deployment p.2) noRequester (λ outcome,
    if dec_Step (oc_decision outcome) =s? StepAINotApproving then rest else Errorf ai_not_stopped rest).

Definition anAIIsNeverTheApprover (deployment : Deployment) (held : Grants) : door_test :=
  match aiSubjects deployment, ApprovalActions held with
  | [], _ => Skipf ("no Subject is marked IsAI, so the sealed floor was not fired. Add the " +:+
                    "deployment's AI service-account id to Subjects: an untested seal is a claim about " +:+
                    "the engine, not about this deployment")
  | _, [] => Skipf ("approval_actions in %s is empty, so the seal has no action to match and this " +:+
                    "check would pass without firing anything — see the approval_actions check")
  | agents, approvalActions =>
      foldr (ai_probe deployment) Pass (pairs_of agents approvalActions)
  end.

(** The cases of [Run]. *)
Definition cases_of (deployment : Deployment) (held : Grants) (floors : Floors) : suite door_call door_answer :=
  [("some role is granted some action", someRoleIsGrantedSomeAction held);
   ("the AI-cannot-approve seal has something to fire on", theAISealHasAmmunition held);
   ("every gated action has a rule that gates it", everyGatedActionHasARuleThatFires deployment floors);
   ("no floor rule is unreachable", noFloorRuleIsUnreachable held floors);
   ("some supplied subject can reach some declared action", someSubjectCanReachSomeAction deployment);
   ("a gated action waits for a second person", aGatedActionWaitsForASecondPerson deployment);
   ("nobody approves their own change", nobodyApprovesTheirOwnChange deployment);
   ("an AI is never the approver", anAIIsNeverTheApprover deployment held)].

(** [Run]: what stops it before any case, or the cases. *)
Definition Run (deployment : Deployment) (load : result string Grants) (loadFloors : result string Floors)
    (RevisionOfDocuments : Grants → Floors → string) (inForce : string) : result string (suite door_call door_answer) :=
  match refuseUnusableDeployment deployment with
  | Some why => Err why
  | None =>
      match documentsInForce load loadFloors RevisionOfDocuments inForce with
      | Err why => Err why
      | Ok (held, floors) => Ok (cases_of deployment held floors)
      end
  end.

Lemma elem_of_cases deployment held floors name t :
  (name, t) ∈ cases_of deployment held floors ↔
    (name, t) = ("some role is granted some action", someRoleIsGrantedSomeAction held) ∨
    (name, t) = ("the AI-cannot-approve seal has something to fire on", theAISealHasAmmunition held) ∨
    (name, t) = ("every gated action has a rule that gates it", everyGatedActionHasARuleThatFires deployment floors) ∨
    (name, t) = ("no floor rule is unreachable", noFloorRuleIsUnreachable held floors) ∨
    (name, t) = ("some supplied subject can reach some declared action", someSubjectCanReachSomeAction deployment) ∨
    (name, t) = ("a gated action waits for a second person", aGatedActionWaitsForASecondPerson deployment) ∨
    (name, t) = ("nobody approves their own change", nobodyApprovesTheirOwnChange deployment) ∨
    (name, t) = ("an AI is never the approver", anAIIsNeverTheApprover deployment held).
Proof. unfold cases_of. rewrite !elem_of_cons, elem_of_nil. tauto. Qed.

Lemma cases_distinct deployment held floors : NoDup (map fst (cases_of deployment held floors)).
Proof. cbn [cases_of map fst]. apply (bool_decide_unpack _). by vm_compute. Qed.

(** ** The reference door *)

(** An action a rule gates as it is declared is allowed to nobody on their own word: whatever
    the subject's roles, the adapters, the layers and the role ladder. *)
Lemma gated_never_allowed ParseFloat Getenv live r input action floors :
  snap_floors (live ReadApprovalGate) = floors →
  existsb (λ rule, whenMatches (act_Params action) (fr_WhenParam rule) (fr_WhenValue rule))
    (rulesOfKind (get_list floors (act_Name action)) requireApprovalWhen) = true →
  pi_Action (in_Intent input) = act_Name action →
  (∀ key v, act_Params action !! key = Some v → pi_Params (in_Intent input) !! key = Some v) →
  pi_Requester (in_Intent input) = "" ∨ pi_Requester (in_Intent input) = ps_ID (in_Subject input) →
  dec_Action (Evaluate ParseFloat Getenv live r input).1 ≠ ActionAllow.
Proof.
  intros Hfloors Hrule Ha Hparams Hreq.
  assert (is_Some (approvalGate (snap_floors (live ReadApprovalGate)) (pi_Action (in_Intent input)) (pi_Requester (in_Intent input))
            (ps_ID (in_Subject input)) (pi_Params (in_Intent input)))) as [[reason who] Hgate].
  { apply approvalGate_is_Some. split; [done|]. apply existsb_true in Hrule as (rule & Hin & Hm).
    unfold rulesOfKind in Hin. apply list_elem_of_In, filter_In in Hin as [Hin Hk]. apply list_elem_of_In in Hin.
    exists rule. rewrite Hfloors, Ha. split; [done|]. apply asks_true. split; [by apply eqs_true in Hk|].
    unfold whenMatches in Hm. unfold floorWhenMatches. destruct (act_Params action !! fr_WhenParam rule) as [v|] eqn:E; [|done].
    by rewrite (Hparams _ _ E). }
  unfold Evaluate. rewrite Hgate. cbn zeta.
  repeat first [case_match; try done | progress simplify_eq/=].
Qed.

(** Nothing takes a report back. *)
Lemma passed_reports_nothing {Ev An} (I : Implementation Ev An) clock schedule t reports w :
  run I clock schedule t reports w = Passed → reports = [].
Proof.
  revert reports w. induction t as [|k IH|e k IH|X threads k IH|msg t IH|msg|msg]; intros reports w H; cbn [run] in H.
  - by destruct reports.
  - by eapply IH.
  - destruct (run_op _ _ _ _). by eapply IH.
  - destruct (run_race _ _ _ _ _). by eapply IH.
  - by apply IH in H.
  - done.
  - by destruct reports.
Qed.

Section reference.
Context (ParseFloat : string → option SpecFloat.spec_float) (Getenv : string → string).
Context `{RecordCodec} {B : Type} `{!Bucket B} (sha256_hex : string → string).
(** The token the door issues, which is not empty. *)
Context (token : string) (token_stated : token ≠ "").
Context (clock : nat → Time) (schedule : list nat).

#[local] Existing Instance kernel_ports.

(** The counter of the package, and the door. *)
Notation probed := (N * Kernel B)%type.
Definition kernel_handle (c : door_call) (now : Time) (s : probed) : door_answer c * probed :=
  match c with
  | CCount => ((s.1 + 1)%N, ((s.1 + 1)%N, s.2))
  | CSubmit i => let '(r, k) := @Submit _ (kernel_ports ParseFloat Getenv sha256_hex) now now token i s.2 in (r, (s.1, k))
  end.
Definition kernel_door (k : Kernel B) : Implementation door_call door_answer :=
  mkImplementation probed (0%N, k) (λ c, atomic (kernel_handle c)).

(** What a door in operation keeps. *)
Context (directory : ExternalIdentity → result string Subject) (snap : grantsSnapshot).
Definition in_operation (s : probed) : Prop := k_directory s.2 = directory ∧ k_live s.2 = steady snap.

Definition known (subject : Subject) : result string Subject := directory (mkExternalIdentity (sub_ID subject) [] ∅).

(** What a probe learns: a decision of the engine about the directory's subject, or that
    there is none. *)
Inductive learned (subject : Subject) (action : Action) (extra : gmap string value) : outcome → Prop :=
| learned_unknown err reason : known subject = Err err →
    learned subject action extra (mkOutcome false (mkDecision ActionDeny reason DenialIdentity [] "" [] ""))
| learned_decision who r count now d : known subject = Ok who →
    d = (Evaluate ParseFloat Getenv (steady snap) r (PolicyInputFor who (probe_intent count now subject action extra))).1 →
    learned subject action extra (if decide (dec_Action d = ActionAllow) then mkOutcome true zeroDecision else mkOutcome false d).

Lemma door_call_run k0 c k reports s n :
  run (kernel_door k0) clock schedule (Ask c k) reports (s, n) =
    run (kernel_door k0) clock schedule (k (kernel_handle c (clock n) s).1) reports ((kernel_handle c (clock n) s).2, S n).
Proof. done. Qed.
Lemma door_clock_run k0 k reports (s : State (kernel_door k0)) n :
  run (kernel_door k0) clock schedule (Clock k) reports (s, n) = run (kernel_door k0) clock schedule (k (clock n)) reports (s, S n).
Proof. done. Qed.

Lemma probe_spec k0 subject action extra rest reports s n :
  in_operation s →
  ∃ s' n', in_operation s' ∧
    (run (kernel_door k0) clock schedule (probe subject action extra rest) reports (s, n) = Failed (rev (no_decision :: reports)) ∨
     ∃ o, learned subject action extra o ∧
       run (kernel_door k0) clock schedule (probe subject action extra rest) reports (s, n) =
       run (kernel_door k0) clock schedule (rest o) reports (s', n')).
Proof.
  intros [Hd Hl]. destruct s as [c k]. cbn in Hd, Hl. unfold probe. rewrite door_call_run. cbn [kernel_handle fst snd].
  rewrite door_clock_run, door_call_run. cbn [kernel_handle fst snd].
  set (i := probe_intent (c + 1) (clock (S n)) subject action extra). set (t := clock (S (S n))).
  pose proof (@Submit_submitted _ (kernel_ports ParseFloat Getenv sha256_hex) t t token i k) as Hs. cbv zeta in Hs.
  destruct (Submit t t token i k) as [r k'] eqn:E. cbn [fst snd] in Hs |- *. exists ((c + 1)%N, k'), (S (S (S n))). clear E.
  inversion Hs as [Hg|err Hg Hr|who err k1 Hg Hr He|who d err k1 k2 Hg Hr He Hlog|who d rec k1 k2 Hg Hr He Hlog]; subst; clear Hs.
  - discriminate Hg.
  - split; [done|]. right. eexists. split; [apply (learned_unknown _ _ _ err); unfold known; rewrite <- Hd; exact Hr|]. reflexivity.
  - cbn in He. by destruct (Evaluate _ _ _ _ _).
  - cbn in He. destruct (Evaluate _ _ _ _ _) as [d' e'] eqn:Ev. injection He as <- <-. cbn in Hlog.
    destruct (AuditChain.Log _ _ _) as [[rec|e] b]; [done|]. injection Hlog as <- <-. split; [done|]. left. reflexivity.
  - cbn in He. destruct (Evaluate _ _ _ _ _) as [d' e'] eqn:Ev. injection He as <- <-. cbn in Hlog.
    destruct (AuditChain.Log _ _ _) as [[rec'|e] b]; [|done]. injection Hlog as <- <-. split; [done|]. right. eexists. split.
    + eapply (learned_decision subject action extra who (k_engine k) (c + 1) (clock (S n)) d'); [unfold known; rewrite <- Hd; exact Hr|]. rewrite <- Hl. unfold i in Ev. by rewrite Ev.
    + destruct (decide (dec_Action d' = ActionAllow)); [|done]. cbn [tok_Value]. rewrite (proj2 (eqs_false _ _) token_stated). done.
Qed.

(** The verdict of a case that may end without a decision of the door. *)
Definition never_reports (msg : string) (v : verdict) : Prop := ∀ reports, v = Failed reports → msg ∉ reports.

Lemma declaredAction_name deployment name : act_Name (declaredAction deployment name) = name.
Proof.
  unfold declaredAction. destruct (find _ _) as [a|] eqn:E; [|done]. apply find_some in E as [_ E]. by apply eqs_true in E.
Qed.

Lemma probe_goal count now subject action extra : spec_Goal (int_Spec (probe_intent count now subject action extra)) =s? "" = false.
Proof. by apply eqs_false. Qed.

Lemma requester_of_probe who count now subject action requester :
  pi_Requester (in_Intent (PolicyInputFor who (probe_intent count now subject action {["requester" := VString requester]}))) = requester.
Proof.
  cbn [in_Intent PolicyInputFor pi_Requester probe_intent int_Params]. unfold param_string, paramsWith.
  rewrite lookup_union, lookup_singleton_eq. by destruct (act_Params action !! "requester").
Qed.

(** *** The seal on AI subjects *)

Lemma ai_probe_sealed subject action who o held :
  known subject = Ok who → sub_IsAI who = true → snap_approvalActions snap = to_set (ApprovalActions held) →
  act_Name action ∈ ApprovalActions held → learned subject action noRequester o → dec_Step (oc_decision o) = StepAINotApproving.
Proof.
  intros Hk Hai Hsnap Hact Ho. destruct Ho as [err reason Hu|who' r count now d Hk' Hd]; [congruence|].
  assert (who' = who) as -> by congruence.
  assert (in_set (snap_approvalActions (steady snap ReadApprovalActions)) (act_Name action) = true) as E.
  { change (steady snap ReadApprovalActions) with snap. rewrite Hsnap. apply in_set_true. by apply elem_of_list_to_set. }
  unfold Evaluate in Hd. cbn [in_Intent in_Subject PolicyInputFor pi_Goal ps_IsAI pi_Action] in Hd.
  rewrite probe_goal, Hai in Hd. cbn [probe_intent int_Action andb] in Hd.
  rewrite E in Hd. subst d. done.
Qed.

Lemma pairs_of_elem {A B'} (l : list A) (k : list B') p : p ∈ pairs_of l k → p.1 ∈ l ∧ p.2 ∈ k.
Proof. unfold pairs_of. intros (x & Hin & Hx)%list_elem_of_bind. apply list_elem_of_fmap in Hin as (y & -> & Hy). done. Qed.

(** What a case may end with short of its charge. *)
Definition only (msgs : list string) (v : verdict) : Prop :=
  match v with Failed reports => ∃ msg, msg ∈ msgs ∧ reports = [msg] | _ => True end.

Lemma ai_loop_only k0 deployment held pairs s n :
  (∀ p, p ∈ pairs → p.2 ∈ ApprovalActions held ∧ ∃ who, known p.1 = Ok who ∧ sub_IsAI who = true) →
  snap_approvalActions snap = to_set (ApprovalActions held) → in_operation s →
  only [no_decision] (run (kernel_door k0) clock schedule (foldr (ai_probe deployment) Pass pairs) [] (s, n)).
Proof.
  intros Hp Hsnap Hs. revert s n Hs Hp. induction pairs as [|[agent a] pairs IH]; intros s n Hs Hp; [done|].
  cbn [foldr]. unfold ai_probe at 1. cbn [fst snd].
  destruct (probe_spec k0 agent (declaredAction deployment a) noRequester (λ outcome, if dec_Step (oc_decision outcome) =s? StepAINotApproving
      then foldr (ai_probe deployment) Pass pairs else Errorf ai_not_stopped (foldr (ai_probe deployment) Pass pairs)) [] s n Hs)
    as (s' & n' & Hs' & [->|(o & Ho & ->)]); [exists no_decision; split; [set_solver|done]|].
  destruct (Hp (agent, a) ltac:(by left)) as [Hina (who & Hk & Hai)]. cbn [fst snd] in *.
  rewrite (ai_probe_sealed agent (declaredAction deployment a) who o held Hk Hai Hsnap) by (rewrite ?declaredAction_name; done). rewrite eqs_refl. apply IH; [done|].
  intros p Hin'. apply Hp. by right.
Qed.

(** *** Separation of duties *)

Lemma allowed_stops_nothing live r input step :
  dec_Action (Evaluate ParseFloat Getenv live r input).1 = ActionAllow → step ∈ map es_Name EvaluationOrder →
  stops ParseFloat live r input step = false.
Proof.
  intros Ha Hin. pose proof (evaluate_outcome ParseFloat Getenv live r input) as Hout. rewrite Ha in Hout. unfold ordered_outcome in Hout.
  apply list_elem_of_fmap in Hin as (st & -> & Hst). destruct (find _ _) as [st'|] eqn:E.
  - apply find_some in E as [Hin _]. apply list_elem_of_In in Hin. exfalso. injection Hout as Hout _. revert Hout. clear -Hin.
    repeat (apply elem_of_cons in Hin as [->|Hin]; [done|]). by apply not_elem_of_nil in Hin.
  - by apply (find_none _ _ E), list_elem_of_In.
Qed.

Lemma own_change_refused subject action who o :
  known subject = Ok who → sub_ID who = sub_ID subject → sub_ID subject ≠ "" →
  learned subject action {["requester" := VString (sub_ID subject)]} o → oc_allowed o = false.
Proof.
  intros Hk Hid Hne Ho. destruct Ho as [err reason Hu|who' r count now d Hk' Hd]; [done|].
  assert (who' = who) as -> by congruence. destruct (decide (dec_Action d = ActionAllow)) as [Ha|]; [|done]. exfalso.
  rewrite Hd in Ha. apply allowed_stops_nothing with (step := StepSeparationOfDuties) in Ha; [|apply (bool_decide_unpack _); by vm_compute].
  set (i := probe_intent count now subject action _) in Ha.
  assert (pi_Requester (in_Intent (PolicyInputFor who i)) = sub_ID subject) as Hreq by apply requester_of_probe.
  change (negb (pi_Requester (in_Intent (PolicyInputFor who i)) =s? "") &&
    (pi_Requester (in_Intent (PolicyInputFor who i)) =s? sub_ID who) = false) in Ha.
  rewrite Hreq, Hid, eqs_refl in Ha. by rewrite (proj2 (eqs_false _ _) Hne) in Ha.
Qed.

Lemma duties_loop_only k0 pairs reached s n :
  (∀ p, p ∈ pairs → sub_ID p.2 ≠ "" ∧ ∀ who, known p.2 = Ok who → sub_ID who = sub_ID p.2) → in_operation s →
  only [no_decision; duties_not_reached; refused_otherwise] (run (kernel_door k0) clock schedule (duties_loop pairs reached) [] (s, n)).
Proof.
  intros Hp Hs. revert reached s n Hs. induction pairs as [|[action subject] pairs IH]; intros reached s n Hs.
  { destruct reached; eexists; (split; [|reflexivity]); set_solver. }
  assert (∀ p, p ∈ pairs → sub_ID p.2 ≠ "" ∧ ∀ who, known p.2 = Ok who → sub_ID who = sub_ID p.2) as Hp' by (intros p Hin; apply Hp; by right).
  specialize (IH Hp'). destruct (Hp (action, subject) ltac:(by left)) as [Hne Hid]. cbn [snd] in Hne, Hid. cbn [duties_loop].
  destruct (probe_spec k0 subject action noRequester (λ opened, if refusedForNoGrant opened then duties_loop pairs reached else
      probe subject action {["requester" := VString (sub_ID subject)]} (λ approval,
      if dec_Category (oc_decision approval) =s? DenialSeparationOfDuties then Pass
      else if oc_allowed approval then Fatalf approved_its_own
      else duties_loop pairs (reached ++ [arrow subject action +:+ ": " +:+ describe approval]))) [] s n Hs)
    as (s1 & n1 & Hs1 & [->|(o & _ & ->)]); [exists no_decision; split; [set_solver|done]|].
  destruct (refusedForNoGrant o); [by apply IH|].
  destruct (probe_spec k0 subject action {["requester" := VString (sub_ID subject)]} (λ approval,
      if dec_Category (oc_decision approval) =s? DenialSeparationOfDuties then Pass
      else if oc_allowed approval then Fatalf approved_its_own
      else duties_loop pairs (reached ++ [arrow subject action +:+ ": " +:+ describe approval])) [] s1 n1 Hs1)
    as (s2 & n2 & Hs2 & [->|(o2 & Ho2 & ->)]); [exists no_decision; split; [set_solver|done]|].
  destruct (dec_Category (oc_decision o2) =s? DenialSeparationOfDuties); [done|].
  destruct (known subject) as [who|e] eqn:Hk.
  - rewrite (own_change_refused subject action who o2 Hk (Hid _ eq_refl) Hne Ho2). by apply IH.
  - assert (oc_allowed o2 = false) as -> by (destruct Ho2 as [|who r count now d Hk' _]; [done|congruence]). by apply IH.
Qed.

(** *** The approval gate *)

(** A rule of the documents asks for a second person when the action is sent as declared. *)
Definition gate_fires (floors : Floors) (action : Action) : bool :=
  existsb (λ rule, whenMatches (act_Params action) (fr_WhenParam rule) (fr_WhenValue rule))
    (rulesOfKind (get_list floors (act_Name action)) requireApprovalWhen).

Lemma gated_not_allowed floors subject action o :
  snap_floors snap = floors → gate_fires floors action = true → act_Params action !! "requester" = None →
  learned subject action noRequester o → oc_allowed o = false.
Proof.
  intros Hf Hg Hr Ho. destruct Ho as [err reason Hu|who r count now d Hk Hd]; [done|].
  destruct (decide (dec_Action d = ActionAllow)) as [Ha|]; [|done]. exfalso. rewrite Hd in Ha.
  refine (gated_never_allowed ParseFloat Getenv _ r _ action floors Hf Hg _ _ _ Ha); [done| |left; apply requester_of_probe].
  intros key v Hkey. cbn [in_Intent PolicyInputFor pi_Params probe_intent int_Params]. unfold paramsWith, noRequester.
  rewrite lookup_union, lookup_singleton_ne by congruence. by rewrite Hkey.
Qed.

Lemma gate_loop_only k0 deployment floors pairs denied s n :
  snap_floors snap = floors →
  (∀ p, p ∈ pairs → gate_fires floors p.1 = true ∧ act_Params p.1 !! "requester" = None) → in_operation s →
  only [no_decision; gate_not_reached; gate_not_granted]
    (run (kernel_door k0) clock schedule (gate_loop pairs [] denied (gate_verdict deployment)) [] (s, n)).
Proof.
  intros Hf Hp Hs. revert denied s n Hs. induction pairs as [|[action subject] pairs IH]; intros denied s n Hs.
  { cbn [gate_loop]. unfold gate_verdict. destruct (gatedActions deployment); [done|]. destruct denied; eexists; (split; [|reflexivity]); set_solver. }
  assert (∀ p, p ∈ pairs → gate_fires floors p.1 = true ∧ act_Params p.1 !! "requester" = None) as Hp' by (intros p Hin; apply Hp; by right).
  specialize (IH Hp'). destruct (Hp (action, subject) ltac:(by left)) as [Hg Hr]. cbn [fst] in Hg, Hr. cbn [gate_loop].
  destruct (probe_spec k0 subject action noRequester (λ outcome,
        if awaitingAPerson outcome then Pass
        else if oc_allowed outcome then gate_loop pairs [arrow subject action] denied (gate_verdict deployment)
        else if refusedForNoGrant outcome then gate_loop pairs [] denied (gate_verdict deployment)
        else gate_loop pairs [] (denied ++ [arrow subject action +:+ ": " +:+ describe outcome]) (gate_verdict deployment)) [] s n Hs)
    as (s1 & n1 & Hs1 & [E|(o & Ho & E)]); cbn [app]; rewrite E; [exists no_decision; split; [set_solver|done]|].
  rewrite (gated_not_allowed floors subject action o Hf Hg Hr Ho).
  destruct (awaitingAPerson o); [done|]. destruct (refusedForNoGrant o); by apply IH.
Qed.

(** *** What the documents check establishes *)

Lemma every_gate_fires I deployment floors schedule' start :
  verdict_of I clock schedule' start (everyGatedActionHasARuleThatFires deployment floors) = Passed →
  ∀ action, action ∈ gatedActions deployment → gate_fires floors action = true.
Proof.
  unfold verdict_of, everyGatedActionHasARuleThatFires.
  generalize (match gatedActions deployment with
     | [] => Skipf ("no declared action asserts Gated — set Gated on the actions that must not " +:+
                    "proceed on one person's say-so, or this suite cannot tell an ungated deployment " +:+
                    "from an unenforced gate")
     | _ => Pass
     end : door_test) as last. intros last.
  induction (gatedActions deployment) as [|action actions IH]; intros Hrun; [by intros ? ?%not_elem_of_nil|].
  cbn [foldr] in Hrun. unfold reportGateFor in Hrun at 1.
  assert (gate_fires floors action = true ∧ run I clock schedule'
    (foldr (λ action rest, reportGateFor action (get_list floors (act_Name action)) rest) last actions) [] (fresh I, start) = Passed) as [Hg Hrest].
  { unfold gate_fires. destruct (rulesOfKind _ _) as [|rule rules]; [cbn [run] in Hrun; by apply passed_reports_nothing in Hrun|].
    destruct (existsb _ _); [done|]. cbn [run] in Hrun; by apply passed_reports_nothing in Hrun. }
  intros a [->|Hin]%elem_of_cons; [done|]. by apply IH.
Qed.

Lemma gated_something I deployment floors schedule' start :
  verdict_of I clock schedule' start (everyGatedActionHasARuleThatFires deployment floors) = Passed → ∃ action, action ∈ gatedActions deployment.
Proof. unfold everyGatedActionHasARuleThatFires. destruct (gatedActions deployment) as [|a l]; [by cbn|]. intros _. exists a. by left. Qed.

Lemma every_gate_passes I deployment floors schedule' start :
  (∃ action, action ∈ gatedActions deployment) → (∀ action, action ∈ gatedActions deployment → gate_fires floors action = true) →
  verdict_of I clock schedule' start (everyGatedActionHasARuleThatFires deployment floors) = Passed.
Proof.
  unfold everyGatedActionHasARuleThatFires. intros [a Ha] Hall. destruct (gatedActions deployment) as [|a' l] eqn:E; [by apply not_elem_of_nil in Ha|].
  clear a Ha E. unfold verdict_of. revert Hall. generalize (a' :: l) as actions. induction actions as [|action actions IH]; intros Hall; [done|].
  cbn [foldr]. unfold reportGateFor at 1. specialize (Hall action ltac:(by left)) as Hg. unfold gate_fires in Hg. revert Hg.
  destruct (rulesOfKind _ _); [by cbn|]. intros ->. apply IH. intros b Hb. apply Hall. by right.
Qed.

(** The cases, by their names. *)
Lemma case_of {Ev An} (I : Implementation Ev An) (s : suite Ev An) start name v :
  NoDup (map fst s) → (name, v) ∈ verdicts I clock schedule start s → ∀ t, (name, t) ∈ s → v = verdict_of I clock schedule start t.
Proof.
  intros Hnd Hv t Ht. unfold verdicts in Hv. apply list_elem_of_fmap in Hv as ([name' t'] & [= -> ->] & Hin).
  enough (t' = t) as -> by done. clear -Hnd Hin Ht. induction s as [|[n u] s IH]; [by apply not_elem_of_nil in Hin|].
  cbn [map fst] in Hnd. apply NoDup_cons in Hnd as [Hn Hnd].
  assert (∀ x, (n, x) ∉ s) as Hno by (intros x Hx; apply Hn, list_elem_of_fmap; by exists (n, x)).
  apply elem_of_cons in Hin as [Hin|Hin]; apply elem_of_cons in Ht as [Ht|Ht]; [congruence| | |by apply IH].
  - injection Hin as -> _. by apply Hno in Ht.
  - injection Ht as -> _. by apply Hno in Hin.
Qed.

Lemma run_is_ok deployment load loadFloors RevisionOfDocuments inForce cases :
  Run deployment load loadFloors RevisionOfDocuments inForce = Ok cases → ∃ held floors,
    RevisionOfDocuments held floors = inForce ∧ cases = cases_of deployment held floors ∧
    ∀ subject, subject ∈ dp_Subjects deployment → sub_ID subject ≠ "".
Proof.
  unfold Run. destruct (refuseUnusableDeployment deployment) eqn:Hu; [done|].
  unfold documentsInForce. destruct load as [held|]; [|done]. destruct loadFloors as [floors|]; [|done].
  destruct (RevisionOfDocuments held floors =s? inForce) eqn:Hrev; [|done]. cbn [negb]. intros [= <-].
  exists held, floors. split; [by apply eqs_true in Hrev|]. split; [done|]. intros subject Hin Hid. revert Hu. unfold refuseUnusableDeployment.
  destruct (negb _); [done|]. destruct (dp_Actions deployment); [done|].
  rewrite (proj2 (existsb_true _ _)); [done|]. exists subject. split; [done|]. by apply eqs_true.
Qed.

(** C33: A suite that a deployment passes says what the deployment's door does, where no other
    documents have the revision in force. The documents it read are then those the door
    decides on. The case on gated actions passes exactly when something is gated and each
    gated action has a rule that fires. If it passes, then whoever asks for a gated action as
    it was declared, on their own word, is not allowed it, with any engine over those
    documents; and if no gated action declares a parameter [requester], the case that fires
    the gate never finds one allowed. The other two charges are never laid against this door
    on a condition of its directory: where it answers with the id it is asked for, nobody
    approves their own change, and where it knows the AI subjects and flags them none gets
    past the seal. What is left is a door that does not decide, or whose decision is another
    refusal. *)
Theorem a_passing_deployment_is_gated deployment load loadFloors RevisionOfDocuments held0 floors0 cases (k0 : Kernel B) start :
  buildSnapshot RevisionOfDocuments (Some held0) (Some floors0) = Ok snap →
  (∀ held floors, RevisionOfDocuments held floors = RevisionOfDocuments held0 floors0 → held = held0 ∧ floors = floors0) →
  Run deployment load loadFloors RevisionOfDocuments (snap_revision snap) = Ok cases →
  k_directory k0 = directory → k_live k0 = steady snap →
  let reported name v := (name, v) ∈ verdicts (kernel_door k0) clock schedule start cases in
  (reported "every gated action has a rule that gates it" Passed ↔
     (∃ action, action ∈ gatedActions deployment) ∧ ∀ action, action ∈ gatedActions deployment → gate_fires floors0 action = true) ∧
  (reported "every gated action has a rule that gates it" Passed →
     (∀ action r input, action ∈ gatedActions deployment → pi_Action (in_Intent input) = act_Name action →
        (∀ key v, act_Params action !! key = Some v → pi_Params (in_Intent input) !! key = Some v) →
        pi_Requester (in_Intent input) = "" ∨ pi_Requester (in_Intent input) = ps_ID (in_Subject input) →
        dec_Action (Evaluate ParseFloat Getenv (steady snap) r input).1 ≠ ActionAllow) ∧
     ((∀ action, action ∈ gatedActions deployment → act_Params action !! "requester" = None) →
        ∀ v, reported "a gated action waits for a second person" v → only [no_decision; gate_not_reached; gate_not_granted] v)) ∧
  ((∀ subject who, subject ∈ dp_Subjects deployment → known subject = Ok who → sub_ID who = sub_ID subject) →
     ∀ v, reported "nobody approves their own change" v → only [no_decision; duties_not_reached; refused_otherwise] v) ∧
  ((∀ agent, agent ∈ aiSubjects deployment → ∃ who, known agent = Ok who ∧ sub_IsAI who = true) →
     ∀ v, reported "an AI is never the approver" v → only [no_decision] v).
Proof.
  intros Hsnap Hdigest HRun Hdir Hlive reported.
  destruct (run_is_ok _ _ _ _ _ _ HRun) as (held & floors & Hrev & -> & Hids).
  assert (snap_revision snap = RevisionOfDocuments held0 floors0 ∧ snap_approvalActions snap = to_set (ApprovalActions held0) ∧
    snap_floors snap = floors0) as (Hr & Ha & Hf) by (cbn in Hsnap; by injection Hsnap as <-).
  rewrite Hr in Hrev. destruct (Hdigest _ _ Hrev) as [-> ->]. clear Hdigest Hrev Hr HRun.
  assert (in_operation (fresh (kernel_door k0))) as Hop by (split; [exact Hdir|exact Hlive]).
  assert (∀ name v t, reported name v → (name, t) ∈ cases_of deployment held0 floors0 → v = verdict_of (kernel_door k0) clock schedule start t) as Hcase.
  { intros name v t Hv. apply (case_of _ _ _ _ _ (cases_distinct _ _ _) Hv). }
  assert (reported "every gated action has a rule that gates it" Passed →
    ∀ action, action ∈ gatedActions deployment → gate_fires floors0 action = true) as Hfires.
  { intros Hv. eapply every_gate_fires. symmetry. eapply Hcase; [exact Hv|]. apply elem_of_cases. by right; right; left. }
  split; [|split; [|split]].
  - split.
    + intros Hv. split; [|by apply Hfires]. eapply gated_something. symmetry. eapply Hcase; [exact Hv|]. apply elem_of_cases. by right; right; left.
    + intros [Hsome Hall]. apply list_elem_of_fmap. exists ("every gated action has a rule that gates it", everyGatedActionHasARuleThatFires deployment floors0).
      split; [|apply elem_of_cases; by right; right; left]. cbn [fst snd]. by rewrite every_gate_passes.
  - intros Hv. specialize (Hfires Hv). split.
    + intros action r input Hin Hname Hparams Hreq. eapply gated_never_allowed; [exact Hf|by apply Hfires|done..].
    + intros Hnone v Hg. rewrite (Hcase _ _ (aGatedActionWaitsForASecondPerson deployment) Hg) by (apply elem_of_cases; tauto).
      apply (gate_loop_only k0 deployment floors0 _ [] _ start Hf); [|done]. intros p [Hp _]%pairs_of_elem. auto.
  - intros Hid v Hg. rewrite (Hcase _ _ (nobodyApprovesTheirOwnChange deployment) Hg) by (apply elem_of_cases; tauto).
    apply duties_loop_only; [|done]. intros p [_ Hp]%pairs_of_elem. unfold humanSubjects in Hp. apply list_elem_of_In, filter_In in Hp as [Hp _].
    apply list_elem_of_In in Hp. split; [by apply Hids|]. intros who. by apply Hid.
  - intros Hai v Hg. rewrite (Hcase _ _ (anAIIsNeverTheApprover deployment held0) Hg) by (apply elem_of_cases; tauto).
    unfold verdict_of, anAIIsNeverTheApprover. destruct (aiSubjects deployment) as [|a agents] eqn:Eai; [done|].
    destruct (ApprovalActions held0) as [|act acts] eqn:Eacts; [done|]. rewrite <- Eacts in Ha |- *.
    apply (ai_loop_only _ _ held0); [|exact Ha|exact Hop]. intros p [Hp1 Hp2]%pairs_of_elem. split; [done|]. apply Hai. done.
Qed.
End reference.

(** ** Examples *)

Definition demo_gate (param value : string) : FloorRule :=
  mkFloorRule "require_approval_when" "" [] ∅ param [] value "" "" "production needs a second person".

Definition demo_person (id : string) (role : Role) (isAI : bool) : Subject := mkSubject id [role] [] isAI ∅.
Definition demo_people : list Subject :=
  [demo_person "alice" "L3-Consumer" false; demo_person "bob" "L3-Consumer" false; demo_person "bot" "L3-Consumer" true].
Definition demo_roles (e : ExternalIdentity) : result string Subject :=
  match find (λ s, sub_ID s =s? ext_ID e) demo_people with Some s => Ok s | None => Err "unknown identity" end.
Definition demo_deploy : Action := mkAction "deploy" {["env" := VString "prod"]} true.
Definition demo_purge : Action := mkAction "purge" {["env" := VString "prod"]} true.
Definition demo_approve : Action := mkAction "change.approve" ∅ false.
Definition demo_deployment : Deployment := mkDeployment true demo_people [demo_deploy; demo_approve].
Definition demo_held : Grants := mkGrants {["L3-Consumer" := ["deploy"; "purge"; "change.approve"]]} ["change.approve"].
Definition demo_floors : Floors := {["deploy" := [demo_gate "env" "prod"]]}.
#[local] Instance FloorRule_eq_dec : EqDecision FloorRule.
Proof. solve_decision. Defined.
Definition demo_revision (held : Grants) (floors : Floors) : string :=
  if bool_decide (RoleActions held = RoleActions demo_held ∧ ApprovalActions held = ApprovalActions demo_held ∧ floors = demo_floors) then "r1" else "r2".
Definition demo_snap : grantsSnapshot :=
  match buildSnapshot demo_revision (Some demo_held) (Some demo_floors) with Ok s => s | Err _ => mkGrantsSnapshot ∅ ∅ ∅ "" end.
Definition demo_kernel : Kernel ListBucket := mkKernel demo_roles NewRBAC (steady demo_snap) empty_bucket.
Definition demo_verdicts (deployment : Deployment) : result string (list (string * verdict)) :=
  match Run deployment (Ok demo_held) (Ok demo_floors) demo_revision (snap_revision demo_snap) with
  | Ok cases => Ok (verdicts (kernel_door demo_ParseFloat (λ _, "") demo_sha "tok" demo_kernel) Z.of_nat [] 0 cases)
  | Err why => Err why
  end.

(** The demonstration deployment passes every case. *)
Example demo_deployment_passes : match demo_verdicts demo_deployment with Ok vs => forallb (λ p, match p.2 with Passed => true | _ => false end) vs = true | Err _ => False end.
Proof. by vm_compute. Qed.

(** The first gate that holds ends the case: a gated action that comes later and is allowed
    to anybody goes unmentioned by it. *)
Example a_held_gate_hides_an_allowed_one :
  verdict_of (kernel_door demo_ParseFloat (λ _, "") demo_sha "tok" demo_kernel) Z.of_nat [] 0
    (aGatedActionWaitsForASecondPerson (mkDeployment true demo_people [demo_deploy; demo_purge])) = Passed ∧
  verdict_of (kernel_door demo_ParseFloat (λ _, "") demo_sha "tok" demo_kernel) Z.of_nat [] 0
    (aGatedActionWaitsForASecondPerson (mkDeployment true demo_people [demo_purge])) = Failed [gated_allowed].
Proof. by vm_compute. Qed.

(** Two ids are enough, also when one of them is an agent's. *)
Example one_person_and_an_agent_are_accepted :
  refuseUnusableDeployment (mkDeployment true [demo_person "alice" "L3-Consumer" false; demo_person "bot" "L3-Consumer" true] [demo_deploy]) = None.
Proof. by vm_compute. Qed.

Lemma demo_snap_built : buildSnapshot demo_revision (Some demo_held) (Some demo_floors) = Ok demo_snap.
Proof. unfold demo_snap, buildSnapshot. reflexivity. Qed.

Lemma demo_revision_tells held floors :
  demo_revision held floors = demo_revision demo_held demo_floors → held = demo_held ∧ floors = demo_floors.
Proof.
  unfold demo_revision. rewrite (bool_decide_true (_ ∧ _ ∧ demo_floors = demo_floors)) by done.
  case_bool_decide as Hb; [|discriminate]. intros _. destruct Hb as (H1 & H2 & H3). split; [|done]. destruct held. simpl in H1, H2. by rewrite H1, H2.
Qed.

Lemma demo_run_ok :
  Run demo_deployment (Ok demo_held) (Ok demo_floors) demo_revision (snap_revision demo_snap) = Ok (cases_of demo_deployment demo_held demo_floors).
Proof.
  unfold Run. assert (refuseUnusableDeployment demo_deployment = None) as -> by by vm_compute.
  assert (snap_revision demo_snap = demo_revision demo_held demo_floors) as -> by (unfold demo_snap, buildSnapshot; reflexivity).
  unfold documentsInForce. by rewrite eqs_refl.
Qed.

Lemma demo_some_gated : ∃ action, action ∈ gatedActions demo_deployment.
Proof. exists demo_deploy. by left. Qed.
Lemma demo_all_gated action : action ∈ gatedActions demo_deployment → gate_fires demo_floors action = true.
Proof. intros ->%list_elem_of_singleton. by vm_compute. Qed.

Lemma a_passing_deployment_is_gated_witness :
  gatedActions demo_deployment = [demo_deploy] ∧
  ∀ r input, pi_Action (in_Intent input) = "deploy" → pi_Params (in_Intent input) !! "env" = Some (VString "prod") →
    pi_Requester (in_Intent input) = "" →
    dec_Action (Evaluate demo_ParseFloat (λ _, "") (steady demo_snap) r input).1 ≠ ActionAllow.
Proof.
  split; [done|]. intros r input Ha Hp Hr.
  destruct (a_passing_deployment_is_gated demo_ParseFloat (λ _, "") demo_sha "tok" ltac:(done) Z.of_nat [] demo_roles demo_snap
    demo_deployment (Ok demo_held) (Ok demo_floors) demo_revision demo_held demo_floors
    (cases_of demo_deployment demo_held demo_floors) demo_kernel 0 demo_snap_built demo_revision_tells demo_run_ok eq_refl eq_refl) as [Hiff [H _]].
  apply (H (proj2 Hiff (conj demo_some_gated demo_all_gated))) with demo_deploy.
  - by left.
  - done.
  - intros key v Hk. change (({["env" := VString "prod"]} : gmap string value) !! key = Some v) in Hk.
    apply lookup_singleton_Some in Hk as [<- <-]. exact Hp.
  - by left.
Defined.
