(* ===== verification/Startup.v ===== *)
(** What a door reads before it serves: [mantlekeep-control/app] ([brand.go], [identity.go],
    [policyconfig.go], [policyscopes.go]), with the listing and description of the
    directories of [internal/identity].

    The environment is a map; the files are functions from a path to a content or an error,
    and the JSON decoder of a layer file is an argument. Standard output is not modelled,
    except the notices about the layers' precedence, which are values. *)
From S2P Require Import Prelude Contracts Cascade Grants Floors Engine Snapshot Sdk.

(** ** The environment *)

Notation Environment := (gmap string string) (only parsing).

Definition os_Getenv (env : Environment) (key : string) : string := default "" (env !! key).

Definition nul : string := String Ascii.zero "".

(** [os.Setenv]; the callers drop its error. *)
Definition Setenv (env : Environment) (key value : string) : Environment :=
  if (key =s? "") || ContainsAny key "=" || ContainsAny key nul || ContainsAny value nul then env
  else <[key := value]> env.

(** [strings.Cut] at a one-byte separator. *)
Fixpoint Cut (s : string) (sep : ascii) : option (string * string) :=
  match s with
  | EmptyString => None
  | String c s =>
      if bool_decide (c = sep) then Some ("", s)
      else match Cut s sep with Some (before, after) => Some (String c before, after) | None => None end
  end.

(** [os.Environ]: one [key=value] for each variable. *)
Definition Environ (env : Environment) : list string :=
  map (λ kv : string * string, kv.1 +:+ String "=" kv.2) (map_to_list env).

(** ** brand.go *)

Definition envPrefix : string := "MANTLEKEEP".

(** One entry of the loop of [RemapEnvPrefix]. *)
Definition remap_entry (fp tp : string) (env : Environment) (kv : string) : Environment :=
  match Cut kv "=" with
  | None => env
  | Some (key, val) =>
      match CutPrefix key fp with
      | None => env
      | Some suffix =>
          let target := tp +:+ suffix in
          if os_Getenv env target =s? "" then Setenv env target val else env
      end
  end.

Definition RemapEnvPrefix (from to : string) (env : Environment) : Environment :=
  foldl (remap_entry (from +:+ "_") (to +:+ "_")) env (Environ env).

Record BrandOptions := mkBrandOptions {
  bo_Prefix : string;
  bo_Name : string;
  bo_Mark : string;
  bo_Kicker : string;
  bo_Tagline : string;
}.

Definition setDefault (suffix value : string) (env : Environment) : Environment :=
  if value =s? "" then env
  else let key := envPrefix +:+ "_" +:+ suffix in
       if os_Getenv env key =s? "" then Setenv env key value else env.

Definition Brand (options : BrandOptions) (env : Environment) : Environment :=
  let env := if negb (bo_Prefix options =s? "") then RemapEnvPrefix (bo_Prefix options) envPrefix env else env in
  setDefault "BRAND_TAGLINE" (bo_Tagline options)
    (setDefault "BRAND_KICKER" (bo_Kicker options)
       (setDefault "BRAND_MARK" (bo_Mark options) (setDefault "BRAND_NAME" (bo_Name options) env))).

Definition brand_get (env : Environment) (suffix : string) : string := os_Getenv env (envPrefix +:+ "_" +:+ suffix).

Definition CurrentBrand (env : Environment) : BrandOptions :=
  mkBrandOptions "" (brand_get env "BRAND_NAME") (brand_get env "BRAND_MARK") (brand_get env "BRAND_KICKER")
    (brand_get env "BRAND_TAGLINE").

(** ** identity.go *)

Definition splitList (s : string) : list string :=
  filter (λ x, x ≠ "") (map TrimSpace (SplitByte "," s)).

Definition group_pair (out : gmap string (list Role)) (pair : string) : gmap string (list Role) :=
  let pair := TrimSpace pair in
  if pair =s? "" then out
  else match Cut pair "=" with
       | None => out
       | Some (key, roles) => <[TrimSpace key := splitList roles]> out
       end.

Definition parseGroupRoles (s : string) : gmap string (list Role) := foldl group_pair ∅ (SplitByte ";" s).

Record DirectoryDescription := mkDirectoryDescription {
  dd_Name : string;
  dd_Authoritative : bool;
  dd_Note : string;
}.

(** An [IdentityResolver] with its optional capabilities: [SubjectLister] and
    [DirectoryDescriber]. *)
Record Resolver := mkResolver {
  rv_Resolve : ExternalIdentity → result string Subject;
  rv_Subjects : option (result string (list Subject));
  rv_Describe : option DirectoryDescription;
}.

(** [internal/identity]: the listing of a dev directory, sorted by id, and what the two
    directories say about themselves. *)
Definition Mock_Subjects (m : gmap string Subject) : list Subject := omap (λ id, m !! id) (sorted_keys m).

Definition mock_note : string :=
  "These identities are ASSERTED, not looked up: nothing here was read from a " +:+
  "directory of record, so this is who this deployment was told about and not who " +:+
  "your organisation employs. Do not read it as a list of who has access.".
Definition builtin_origin : string := "the built-in dev directory (a fixed demo set compiled into this binary)".
Definition configured_origin : string := "a dev directory asserted by this deployment's configuration".

Definition Mock_Resolver (origin : string) (m : gmap string Subject) : Resolver :=
  mkResolver (Mock_Resolve m) (Some (Ok (Mock_Subjects m))) (Some (mkDirectoryDescription origin false mock_note)).

Definition Gateway_Describe : DirectoryDescription :=
  mkDirectoryDescription "your SSO gateway's verified groups, mapped to roles by this deployment's configuration" true
    ("The people live in the identity provider behind the gateway and cannot be " +:+
     "listed from here; roles are decided from the groups it asserts. Ask about one " +:+ "person by id.").

Definition Gateway_Resolver (g : Gateway) : Resolver :=
  mkResolver (Gateway_Resolve g) None (Some Gateway_Describe).

(** [chainResolver]: the loop of [Resolve], with [lastErr]. *)
Fixpoint chain_from (c : list Resolver) (ext : ExternalIdentity) (lastErr : string) : result string Subject :=
  match c with
  | [] => Err lastErr
  | r :: c =>
      match rv_Resolve r ext with
      | Ok s => if bool_decide (sub_Roles s = []) then chain_from c ext lastErr else Ok s
      | Err err => chain_from c ext err
      end
  end.

Definition chain_Resolve (c : list Resolver) (ext : ExternalIdentity) : result string Subject :=
  chain_from c ext ("no resolver produced a subject for " +:+ Quote (ext_ID ext)).

Fixpoint chain_Subjects (n position : nat) (c : list Resolver) : result string (list Subject) :=
  match c with
  | [] => Ok []
  | r :: c =>
      match rv_Subjects r with
      | None => Err ("this deployment resolves identities through " +:+ pretty n +:+ " layered directories and layer " +:+
                     pretty (S position) +:+ " of them cannot be listed, so no complete list of subjects exists here")
      | Some listed => listed <-? listed ; rest <-? chain_Subjects n (S position) c ; Ok (listed ++ rest)
      end
  end.

Definition undescribed : DirectoryDescription :=
  mkDirectoryDescription "several layered resolvers, at least one of which cannot say what it is" false
    ("One layer of this deployment's identity chain does not describe itself, " +:+
     "so nothing here can tell you whether the roles below came from a directory of record.").

Fixpoint chain_Describe (c : list Resolver) (described : DirectoryDescription) : DirectoryDescription :=
  match c with
  | [] => described
  | r :: c =>
      match rv_Describe r with
      | None => undescribed
      | Some layer =>
          let name := dd_Name described +:+
            (if dd_Name described =s? "" then "" else ", layered in front of ") +:+ dd_Name layer in
          let note := if dd_Note layer =s? "" then dd_Note described
                      else TrimSpace (dd_Note described +:+ " " +:+ dd_Note layer) in
          chain_Describe c (mkDirectoryDescription name (dd_Authoritative described && dd_Authoritative layer) note)
      end
  end.

Definition chainResolver (c : list Resolver) : Resolver :=
  mkResolver (chain_Resolve c) (Some (chain_Subjects (length c) 0 c))
    (Some (chain_Describe c (mkDirectoryDescription "" true ""))).

Definition DevSubjectsEnv : string := "MANTLEKEEP_DEV_SUBJECTS".

(** [must] ends the process: [Err] is its message. *)
Definition buildHumanIdentity (env : Environment) : result string Resolver :=
  if os_Getenv env "MANTLEKEEP_AUTH" =s? "proxy" then
    let table := parseGroupRoles (os_Getenv env "MANTLEKEEP_GROUP_ROLES") in
    refuse bool_decide (table = ∅) with "MANTLEKEEP_AUTH=proxy needs MANTLEKEEP_GROUP_ROLES" ;
    let s := os_Getenv env "MANTLEKEEP_AI_GROUPS" in
    Ok (Gateway_Resolver (NewGateway table (if s =s? "" then [] else splitList s)))
  else
    let configured := os_Getenv env DevSubjectsEnv in
    if negb (configured =s? "") then
      let table := parseGroupRoles configured in
      refuse bool_decide (table = ∅) with (DevSubjectsEnv +:+ " is set but names no subject") ;
      Ok (Mock_Resolver configured_origin (NewMockFrom table))
    else Ok (Mock_Resolver builtin_origin NewMock).

Definition machine_transport (env : Environment) : bool :=
  let transport := os_Getenv env "MANTLEKEEP_TRANSPORT" in (transport =s? "mesh") || (transport =s? "native").

Definition BuildIdentity (env : Environment) : result string Resolver :=
  human <-? buildHumanIdentity env ;
  if machine_transport env then
    let svc := Gateway_Resolver (NewGateway (parseGroupRoles (os_Getenv env "MANTLEKEEP_SERVICE_ROLES")) []) in
    Ok (chainResolver [svc; human])
  else Ok human.

(** ** policyconfig.go *)

Record layerFile := mkLayerFile {
  lf_Roles : gmap string Z;
  lf_ActionRoles : gmap string string;
  lf_Sealed : list string;
}.

Definition toRoleMap (m : gmap string string) : gmap string Role := m.

(** [filepath.Base] on a slash-separated path. *)
Fixpoint drop_slashes (s : string) : string :=
  match s with
  | String c t => if bool_decide (c = "/"%char) then drop_slashes t else s
  | EmptyString => EmptyString
  end.
Definition Base (path : string) : string :=
  if path =s? "" then "."
  else let stripped := srev (drop_slashes (srev path)) in
       if stripped =s? "" then "/" else default "" (last (SplitByte "/" stripped)).

Inductive layer_file_error :=
| ELayerRead (name path e : string)
| ELayerDecode (name path e : string).

Section files.
Context (env : Environment) (ReadConfigFile : string → result string string).
(** The strict decoder of a layer file, [DisallowUnknownFields], and the plain one. *)
Context (decodeLayerFile : string → result string layerFile) (Unmarshal : string → option layerFile).

Definition loadLayer (envVar name : string) : result layer_file_error (option Layer) :=
  let path := os_Getenv env envVar in
  if path =s? "" then Ok None
  else match ReadConfigFile path with
  | Err err => Err (ELayerRead name path err)
  | Ok data =>
      match decodeLayerFile data with
      | Err err => Err (ELayerDecode name path err)
      | Ok raw =>
          Ok (Some (mkLayer (name +:+ ":" +:+ Base path) (toRoleMap (lf_ActionRoles raw)) (lf_Sealed raw) (lf_Roles raw)))
      end
  end.

Definition PlatformConfig : string := "MANTLEKEEP_PLATFORM_CONFIG".
Definition TeamConfig : string := "MANTLEKEEP_TEAM_CONFIG".

(** The layers, least specific first, and the paths of the configured ones. *)
Definition layers_and_paths : result layer_file_error (list Layer * list string) :=
  platform <-? loadLayer PlatformConfig "platform" ;
  team <-? loadLayer TeamConfig "team" ;
  let add (l : option Layer) (envVar : string) (acc : list Layer * list string) :=
    match l with Some l => (acc.1 ++ [l], acc.2 ++ [os_Getenv env envVar]) | None => acc end in
  Ok (add team TeamConfig (add platform PlatformConfig ([DefaultLayer], []))).

Definition currentLayers : result layer_file_error (list Layer) := acc <-? layers_and_paths ; Ok acc.1.

(** What the boot prints about precedence, over the documents in force. *)
Definition reportPrecedence (s : grantsSnapshot) (layers : list Layer) (paths : list string) : list notice :=
  let ladder := LadderFrom layers in
  if is_ok (ValidateLayers ladder layers) then
    concat (imap (λ i path,
      match layers !! S i with
      | Some layer => PrecedenceNotices s ladder path layer (Some (RequiredRole (Resolve ladder (take (i + 2) layers))))
      | None => []
      end) paths)
  else [].

(** ** policyscopes.go *)

(** A directory: the names of its entries and whether each is a directory, or an error.
    [filepath.Join] is the argument [Join]. *)
Context (ReadDir : string → result string (list (string * bool))) (path_Join : string → string → string).

Record scopeLayerFile := mkScopeLayerFile { sc_path : string; sc_layer : Layer }.

Definition ScopeConfig : string := "MANTLEKEEP_SCOPE_CONFIG".

Definition TrimSuffix (s suffix : string) : string :=
  if HasSuffix s suffix then take_bytes (slen s - slen suffix) s else s.

Definition load_scope (dir : string) (out : gmap string scopeLayerFile) (e : string * bool) :
    gmap string scopeLayerFile :=
  let '(entry, isDir) := e in
  if isDir || negb (HasSuffix entry ".json") then out
  else
    let name := TrimSuffix entry ".json" in
    let path := path_Join dir entry in
    match ReadConfigFile path with
    | Err _ => out
    | Ok data =>
        match Unmarshal data with
        | None => out
        | Some raw => <[name := mkScopeLayerFile path (mkLayer ("scope:" +:+ name) (toRoleMap (lf_ActionRoles raw)) (lf_Sealed raw) ∅)]> out
        end
    end.

Definition loadScopes (envVar : string) : gmap string scopeLayerFile :=
  let dir := os_Getenv env envVar in
  if dir =s? "" then ∅
  else match ReadDir dir with
       | Err _ => ∅
       | Ok entries => foldl (load_scope dir) ∅ entries
       end.

Definition attachScopes (eng : RBAC) (base : list Layer) (fallback : option ActionAuthorizer) (ladder : gmap string Z) : RBAC :=
  let scopes := loadScopes ScopeConfig in
  if bool_decide (scopes = ∅) then eng
  else
    let sr := NewScopeResolver ladder base in
    let sr := match fallback with Some f => ScopeResolver_WithFallback sr f | None => sr end in
    WithScopes eng (Some (map_fold (λ name scoped sr, SetScope sr name (sc_layer scoped)) sr scopes)).
End files.

(** ** The environment *)

Lemma ContainsAny_char s c : ContainsAny s (String c "") = false ↔ char_in c s = false.
Proof.
  induction s as [|d s IH]; [done|]. cbn [ContainsAny char_in]. rewrite !orb_false_iff, IH, !bool_decide_eq_false.
  naive_solver.
Qed.

Lemma Cut_app a s c : char_in c a = false → Cut (a +:+ String c s) c = Some (a, s).
Proof.
  induction a as [|d a IH]; intros H.
  - simpl. by rewrite bool_decide_eq_true_2.
  - cbn [char_in] in H. apply orb_false_iff in H as [Hd Ha]. rewrite bool_decide_eq_false in Hd.
    change (String d a +:+ String c s) with (String d (a +:+ String c s)). cbn [Cut].
    rewrite bool_decide_eq_false_2 by congruence. by rewrite IH.
Qed.

Lemma drop_bytes_app p s : drop_bytes (slen p) (p +:+ s) = s.
Proof. induction p as [|c p IH]; [by destruct s|]. apply IH. Qed.

Lemma Cut_Some s c a b : Cut s c = Some (a, b) → s = a +:+ String c b ∧ char_in c a = false.
Proof.
  revert a. induction s as [|d s IH]; intros a; simpl; [done|]. case_bool_decide as Hd.
  - intros [= <- <-]. by subst.
  - destruct (Cut s c) as [[x y]|]; [|done]. intros [= <- <-]. destruct (IH x eq_refl) as [-> Hx].
    split; [done|]. simpl. by rewrite Hx, bool_decide_eq_false_2 by congruence.
Qed.

Lemma CutPrefix_Some s p t : CutPrefix s p = Some t ↔ s = p +:+ t.
Proof.
  unfold CutPrefix. destruct (HasPrefix s p) eqn:E.
  - apply HasPrefix_spec in E as [u ->]. rewrite drop_bytes_app. split; [by intros [= ->]|].
    intros H. by destruct (append_same_length p p u t eq_refl H) as [_ ->].
  - split; [done|]. intros H. assert (HasPrefix s p = true) by (apply HasPrefix_spec; by exists t). congruence.
Qed.

(** A text that can be the name of a variable, or its value, in a process. *)
Definition plain (s : string) : Prop := ContainsAny s nul = false.
Definition plain_key (s : string) : Prop := ContainsAny s "=" = false ∧ plain s.
Definition plain_env (env : Environment) : Prop := ∀ k v, env !! k = Some v → plain_key k ∧ plain v.

Lemma ContainsAny_app a b cs : ContainsAny (a +:+ b) cs = ContainsAny a cs || ContainsAny b cs.
Proof. induction a as [|c a IH]; [done|]. change (String c a +:+ b) with (String c (a +:+ b)). cbn [ContainsAny]. by rewrite IH, orb_assoc. Qed.

Lemma plain_key_app a b : plain_key (a +:+ b) ↔ plain_key a ∧ plain_key b.
Proof. unfold plain_key, plain. rewrite !ContainsAny_app, !orb_false_iff. naive_solver. Qed.

Lemma Setenv_plain env k v : k ≠ "" → plain_key k → plain v → Setenv env k v = <[k := v]> env.
Proof. unfold Setenv. intros Hk [H1 H2] H3. rewrite (proj2 (eqs_false k "") Hk), H1, H2, H3. done. Qed.

(** One entry: the target of its name is set when it held nothing. *)
Lemma remap_entry_lookup fp tp env key v k :
  plain_key key → plain v → tp ≠ "" → plain_key tp →
  remap_entry fp tp env (key +:+ String "=" v) !! k =
  match CutPrefix key fp with
  | Some x => if (k =s? tp +:+ x) && (os_Getenv env k =s? "") then Some v else env !! k
  | None => env !! k
  end.
Proof.
  intros Hk Hv Hne Ht. unfold remap_entry. rewrite Cut_app by (apply ContainsAny_char, Hk).
  destruct (CutPrefix key fp) as [x|] eqn:Hx; [|done]. apply CutPrefix_Some in Hx as ->.
  apply plain_key_app in Hk as [_ Hx]. destruct (k =s? tp +:+ x) eqn:Ek; autorewrite with mk in Ek.
  - subst k. destruct (os_Getenv env (tp +:+ x) =s? "") eqn:E; [|done].
    rewrite Setenv_plain; [apply lookup_insert_eq|by destruct tp|by apply plain_key_app|done].
  - destruct (os_Getenv env (tp +:+ x) =s? ""); [|done].
    rewrite Setenv_plain; [|by destruct tp|by apply plain_key_app|done]. by apply lookup_insert_ne.
Qed.

Lemma remap_fold fp tp (l : list (string * string)) env k :
  Forall (λ kv, plain_key kv.1 ∧ plain kv.2) l → NoDup l.*1 → tp ≠ "" → plain_key tp →
  foldl (remap_entry fp tp) env (map (λ kv, kv.1 +:+ String "=" kv.2) l) !! k =
  match CutPrefix k tp with
  | Some x => if os_Getenv env k =s? "" then
                match (list_to_map l : gmap string string) !! (fp +:+ x) with Some v => Some v | None => env !! k end
              else env !! k
  | None => env !! k
  end.
Proof.
  intros Hl Hnd Hne Ht. revert env. induction Hl as [|[key v] l [Hk Hv] Hl IH]; intros env; cbn [map foldl].
  { destruct (CutPrefix k tp); [|done]. change (list_to_map [] : gmap string string) with (∅ : gmap string string). rewrite lookup_empty. by case_match. }
  simpl in Hk, Hv. apply NoDup_cons in Hnd as [Hnot Hnd]. rewrite IH by done. cbn [list_to_map foldr fst snd].
  pose proof (remap_entry_lookup fp tp env key v k Hk Hv Hne Ht) as Hstep.
  set (env' := remap_entry _ _ _ _) in *. unfold os_Getenv at 1.
  change (uncurry insert (key, v) (list_to_map l : gmap string string)) with (<[key := v]> (list_to_map l : gmap string string)).
  destruct (CutPrefix k tp) as [x|] eqn:Hx.
  - apply CutPrefix_Some in Hx as ->. destruct (decide (key = fp +:+ x)) as [->|Hkey].
    + rewrite (proj2 (CutPrefix_Some (fp +:+ x) fp x) eq_refl), eqs_refl in Hstep. rewrite lookup_insert_eq.
      rewrite (not_elem_of_list_to_map_1 l (fp +:+ x)) by done. cbn [andb] in Hstep. rewrite Hstep.
      by destruct (default "" _ =s? "").
    + rewrite lookup_insert_ne by done. assert (env' !! (tp +:+ x) = env !! (tp +:+ x)) as ->; [|done].
      rewrite Hstep. destruct (CutPrefix key fp) as [y|] eqn:Hy; [|done]. apply CutPrefix_Some in Hy as ->.
      rewrite (proj2 (eqs_false (tp +:+ x) (tp +:+ y))); [done|].
      intros H. by destruct (append_same_length tp tp x y eq_refl H) as [_ ->].
  - rewrite Hstep. destruct (CutPrefix key fp) as [y|] eqn:Hy; [|done].
    rewrite (proj2 (eqs_false k (tp +:+ y))); [done|].
    intros ->. by rewrite (proj2 (CutPrefix_Some (tp +:+ y) tp y)) in Hx.
Qed.

(** A brand's own variable never overrides the engine's. After the copy a variable that
    held something holds what it held; an empty engine variable holds what the brand's
    variable of the same suffix held, whatever order the environment is read in; no other
    variable changes. *)
Theorem remap_exactly from to env k :
  plain_env env → plain_key to →
  RemapEnvPrefix from to env !! k =
  match CutPrefix k (to +:+ "_") with
  | Some x => if os_Getenv env k =s? "" then
                match env !! (from +:+ "_" +:+ x) with Some v => Some v | None => env !! k end
              else env !! k
  | None => env !! k
  end.
Proof.
  intros He Ht. unfold RemapEnvPrefix, Environ. rewrite remap_fold.
  - rewrite list_to_map_to_list. destruct (CutPrefix k (to +:+ "_")) as [x|]; [|done]. by rewrite append_assoc.
  - apply Forall_forall. intros [k' v'] Hin. apply elem_of_map_to_list in Hin. by apply He.
  - apply NoDup_fst_map_to_list.
  - by destruct to.
  - apply plain_key_app. split; [done|by split].
Qed.

(** The first text that is not empty. *)
Fixpoint first_set (l : list string) : string :=
  match l with [] => "" | x :: l => if x =s? "" then first_set l else x end.

Lemma setDefault_lookup suffix value env k : plain_key suffix → plain value →
  os_Getenv (setDefault suffix value env) k =
  if k =s? envPrefix +:+ "_" +:+ suffix then first_set [os_Getenv env k; value] else os_Getenv env k.
Proof.
  intros Hs Hv. unfold setDefault. cbn [first_set]. destruct (value =s? "") eqn:E; autorewrite with mk in E.
  { subst. destruct (k =s? _); [|done]. by destruct (os_Getenv env k =s? "") eqn:E; autorewrite with mk in E. }
  destruct (k =s? _) eqn:Ek; autorewrite with mk in Ek.
  - subst k. destruct (os_Getenv env _ =s? "") eqn:E'; [|done]. rewrite Setenv_plain; [|done|by apply plain_key_app|done].
    unfold os_Getenv. by rewrite lookup_insert_eq.
  - destruct (os_Getenv env _ =s? ""); [|done]. rewrite Setenv_plain; [|done|by apply plain_key_app|done].
    unfold os_Getenv. by rewrite lookup_insert_ne by done.
Qed.

(** The face of a branded binary: each of its four texts is the engine's variable when the
    operator set it, else the brand's variable, else the product's default. *)
Theorem brand_precedence options env :
  plain_env env →
  plain (bo_Name options) → plain (bo_Mark options) → plain (bo_Kicker options) → plain (bo_Tagline options) →
  let shown (suffix value : string) :=
    first_set [os_Getenv env (envPrefix +:+ "_" +:+ suffix);
               if bo_Prefix options =s? "" then "" else os_Getenv env (bo_Prefix options +:+ "_" +:+ suffix); value] in
  CurrentBrand (Brand options env) =
  mkBrandOptions "" (shown "BRAND_NAME" (bo_Name options)) (shown "BRAND_MARK" (bo_Mark options))
    (shown "BRAND_KICKER" (bo_Kicker options)) (shown "BRAND_TAGLINE" (bo_Tagline options)).
Proof.
  intros He H1 H2 H3 H4 shown. unfold CurrentBrand, Brand, brand_get.
  set (env1 := if negb (bo_Prefix options =s? "") then _ else env).
  assert (∀ suffix value, first_set [os_Getenv env1 (envPrefix +:+ "_" +:+ suffix); value] = shown suffix value) as Hshown.
  { intros suffix value. unfold shown, env1. cbn [first_set]. destruct (bo_Prefix options =s? "") eqn:Ep; cbn [negb].
    { by destruct (_ =s? ""). }
    assert (os_Getenv (RemapEnvPrefix (bo_Prefix options) envPrefix env) (envPrefix +:+ "_" +:+ suffix) =
            first_set [os_Getenv env (envPrefix +:+ "_" +:+ suffix); os_Getenv env (bo_Prefix options +:+ "_" +:+ suffix)]) as ->.
    { unfold os_Getenv at 1. rewrite remap_exactly by done.
      rewrite (proj2 (CutPrefix_Some (envPrefix +:+ "_" +:+ suffix) (envPrefix +:+ "_") suffix)) by done.
      cbn [first_set]. destruct (os_Getenv env (envPrefix +:+ "_" +:+ suffix) =s? "") eqn:Hd; [|done].
      unfold os_Getenv in *. destruct (env !! (bo_Prefix options +:+ "_" +:+ suffix)) as [v|]; simpl; [|by autorewrite with mk in Hd].
      by destruct (v =s? "") eqn:E; autorewrite with mk in E. }
    cbn [first_set]. repeat case_match; autorewrite with mk in *; congruence. }
  rewrite !setDefault_lookup by done. rewrite <- !Hshown. done.
Qed.

(** ** Tables of roles *)

(** A table as an operator writes it. *)
Definition render_pair (kv : string * list Role) : string := kv.1 +:+ String "=" (Join kv.2 ",").
Definition render_table (t : gmap string (list Role)) : string := Join (map render_pair (map_to_list t)) ";".

(** Names the format can carry: printable at both ends, without its separators. *)
Definition clean_role (s : string) : Prop := edged s = true ∧ char_in "," s = false ∧ char_in ";" s = false.
Definition clean_group (s : string) : Prop := edged s = true ∧ char_in "=" s = false ∧ char_in ";" s = false.
Definition clean_pair (kv : string * list Role) : Prop := clean_group kv.1 ∧ Forall clean_role kv.2.

Lemma splitList_Join l : Forall clean_role l → splitList (Join l ",") = l.
Proof.
  intros H. unfold splitList. destruct (decide (l = [])) as [->|Hne]; [done|].
  rewrite SplitByte_Join by (done || (eapply Forall_impl; [exact H|]; intros ? Hr; apply Hr)). clear Hne.
  induction H as [|r l Hr _ IH]; [done|]. cbn [map]. rewrite TrimSpace_edged by apply Hr.
  rewrite filter_cons_True by (apply edged_nonempty, Hr). by rewrite IH.
Qed.

Lemma char_in_app c a b : char_in c (a +:+ b) = char_in c a || char_in c b.
Proof.
  induction a as [|d a IH]; [done|]. change (String d a +:+ b) with (String d (a +:+ b)). cbn [char_in].
  by rewrite IH, orb_assoc.
Qed.

Lemma char_in_Join c sep l : char_in c sep = false → Forall (λ x, char_in c x = false) l → char_in c (Join l sep) = false.
Proof.
  intros Hs H. induction H as [|x l Hx Hl IH]; [done|]. destruct l as [|y l]; [done|].
  change (Join (x :: y :: l) sep) with (x +:+ (sep +:+ Join (y :: l) sep)). by rewrite !char_in_app, Hx, Hs, IH.
Qed.

Lemma render_pair_clean kv : clean_pair kv → edged (render_pair kv) = true ∧ char_in ";" (render_pair kv) = false.
Proof.
  destruct kv as [k v]. intros [(Hk & _ & Hsemi) Hv]. simpl in *. unfold render_pair. simpl.
  assert (char_in ";" (Join v ",") = false) as Hj.
  { apply char_in_Join; [done|]. eapply Forall_impl; [exact Hv|]. intros ? Hr. apply Hr. }
  split; [|by rewrite char_in_app, Hsemi; simpl].
  unfold edged in *. apply andb_true_iff in Hk as [Hk _]. apply andb_true_iff. split; [by apply starts_graphic_app|].
  change (String "=" (Join v ",")) with ("=" +:+ Join v ","). rewrite !srev_app. apply starts_graphic_app.
  destruct (decide (v = [])) as [->|Hne]; [done|]. apply starts_graphic_app.
  assert (edged (Join v ",") = true) as [_ ?]%andb_true_iff; [|done].
  apply edged_Join; [done|]. eapply Forall_impl; [exact Hv|]. intros ? Hr. apply Hr.
Qed.

Lemma group_pair_render acc kv : clean_pair kv → group_pair acc (render_pair kv) = <[kv.1 := kv.2]> acc.
Proof.
  intros Hc. destruct (render_pair_clean kv Hc) as [He _]. destruct kv as [k v]. destruct Hc as [(Hk & Heq & _) Hv].
  unfold group_pair. rewrite TrimSpace_edged by done. rewrite (proj2 (eqs_false _ "")) by (by apply edged_nonempty).
  unfold render_pair. simpl in *. rewrite Cut_app by done. by rewrite TrimSpace_edged, splitList_Join by done.
Qed.

Lemma group_pairs_render l acc k : Forall clean_pair l → NoDup l.*1 →
  foldl group_pair acc (map render_pair l) !! k =
  match (list_to_map l : gmap string (list Role)) !! k with Some v => Some v | None => acc !! k end.
Proof.
  intros H. revert acc. induction H as [|[x v] l Hx Hl IH]; intros acc Hnd; cbn [map foldl].
  { change (list_to_map [] : gmap string (list Role)) with (∅ : gmap string (list Role)). by rewrite lookup_empty. }
  cbn [fmap list_fmap fst] in Hnd. apply NoDup_cons in Hnd as [Hnot Hnd]. rewrite IH by done. rewrite group_pair_render by done.
  change (list_to_map ((x, v) :: l) : gmap string (list Role)) with (<[x := v]> (list_to_map l : gmap string (list Role))).
  cbn [fst snd]. destruct (decide (k = x)) as [->|Hne].
  - rewrite (not_elem_of_list_to_map_1 l x) by done. by rewrite !lookup_insert_eq.
  - by rewrite !lookup_insert_ne by done.
Qed.

(** Reading back a table of roles. A table of groups (or subjects) and their roles,
    written as [group=Role,Role;group=Role] in any order and read by [parseGroupRoles], is
    the same table, groups without roles and the empty table included, as long as the names
    are printable at both ends and hold none of the separators of their place. *)
Theorem group_roles_round_trip (t : gmap string (list Role)) l
    (Hl : l ≡ₚ map_to_list t) (Hclean : Forall clean_pair l) :
  parseGroupRoles (Join (map render_pair l) ";") = t.
Proof.
  assert (NoDup l.*1) as Hnd by (rewrite Hl; apply NoDup_fst_map_to_list).
  assert (parseGroupRoles (Join (map render_pair l) ";") = foldl group_pair ∅ (map render_pair l)) as ->.
  { unfold parseGroupRoles. destruct (decide (l = [])) as [->|Hne]; [done|].
    rewrite SplitByte_Join; [done|by destruct l|]. apply Forall_map. eapply Forall_impl; [exact Hclean|].
    intros kv Hkv. by apply render_pair_clean. }
  apply map_eq. intros k. rewrite group_pairs_render by done. rewrite lookup_empty.
  rewrite (list_to_map_proper l (map_to_list t)) by done. rewrite list_to_map_to_list. by destruct (t !! k).
Qed.

(** ** Who a request is *)

(** What the tables of a variable give the caller's groups. *)
Definition of_groups (env : Environment) (table : string) (ext : ExternalIdentity) (role : Role) : Prop :=
  ∃ grp, grp ∈ ext_Groups ext ∧ role ∈ get_list (parseGroupRoles (os_Getenv env table)) grp.

(** What the configuration says a person may hold, and any caller. *)
Definition human_role (env : Environment) (ext : ExternalIdentity) (role : Role) : Prop :=
  if os_Getenv env "MANTLEKEEP_AUTH" =s? "proxy" then of_groups env "MANTLEKEEP_GROUP_ROLES" ext role
  else if os_Getenv env DevSubjectsEnv =s? "" then
    ∃ s, NewMock !! ext_ID ext = Some s ∧ role ∈ sub_Roles s
  else role ∈ get_list (parseGroupRoles (os_Getenv env DevSubjectsEnv)) (ext_ID ext).
Definition configured_role (env : Environment) (ext : ExternalIdentity) (role : Role) : Prop :=
  (machine_transport env = true ∧ of_groups env "MANTLEKEEP_SERVICE_ROLES" ext role) ∨ human_role env ext role.

(** A subject that is who the caller said, holds no attribute, is an AI when it holds the
    role of one, and whose roles all satisfy [P]. *)
Definition well_resolved (ext : ExternalIdentity) (P : Role → Prop) (s : Subject) : Prop :=
  sub_ID s = ext_ID ext ∧ sub_Attrs s = ∅ ∧ (RoleAIAgent ∈ sub_Roles s → sub_IsAI s = true) ∧
  ∀ role, role ∈ sub_Roles s → P role.

Lemma Gateway_well_resolved g ext s : Gateway_Resolve g ext = Ok s →
  well_resolved ext (λ role, ∃ grp, grp ∈ ext_Groups ext ∧ role ∈ get_list (gw_table g) grp) s ∧ sub_Roles s ≠ [].
Proof.
  intros H. pose proof (gateway_resolves_exactly g ext) as Hg. cbv zeta in Hg. rewrite H in Hg.
  destruct Hg as (Hid & _ & Hne & Hroles & Hai). split; [|done]. split_and!; [done| | |by intros role ?%Hroles].
  - unfold Gateway_Resolve in H. destruct (foldl _ _ _) as [[? roles] ?]. by destruct roles; [|injection H as <-].
  - intros Hr. apply Hai. left. by apply Hroles.
Qed.

Lemma NewMockFrom_well_resolved table ext s : Mock_Resolve (NewMockFrom table) ext = Ok s →
  well_resolved ext (λ role, role ∈ get_list table (ext_ID ext)) s.
Proof.
  unfold Mock_Resolve, NewMockFrom. rewrite map_lookup_imap. unfold get_list, well_resolved.
  destruct (table !! ext_ID ext) as [roles|]; simpl; [|done]. intros [= <-]. simpl. by rewrite slice_contains_true.
Qed.

Lemma NewMock_well_resolved ext s : Mock_Resolve NewMock ext = Ok s →
  well_resolved ext (λ role, ∃ s', NewMock !! ext_ID ext = Some s' ∧ role ∈ sub_Roles s') s.
Proof.
  unfold Mock_Resolve. destruct (NewMock !! ext_ID ext) as [s'|] eqn:E; [|done]. intros [= ->].
  assert (Forall (λ kv : string * Subject, sub_ID kv.2 = kv.1 ∧ sub_Attrs kv.2 = ∅ ∧
    (RoleAIAgent ∈ sub_Roles kv.2 → sub_IsAI kv.2 = true)) (map_to_list NewMock)) as H.
  { eapply Forall_impl; [apply (bool_decide_unpack (Forall (λ kv : string * Subject, sub_ID kv.2 = kv.1 ∧ sub_Attrs kv.2 = ∅ ∧
      (RoleAIAgent ∉ sub_Roles kv.2 ∨ sub_IsAI kv.2 = true)) (map_to_list NewMock))); by vm_compute|].
    intros kv (? & ? & Hai). split_and!; [done..|]. by destruct Hai. }
  rewrite Forall_forall in H. apply elem_of_map_to_list, H in E as (? & ? & ?). split_and!; [done..|]. by exists s.
Qed.

Lemma chain_two a b ext s : rv_Resolve (chainResolver [a; b]) ext = Ok s ↔
  sub_Roles s ≠ [] ∧
  (rv_Resolve a ext = Ok s ∨
   (∀ s', rv_Resolve a ext = Ok s' → sub_Roles s' = []) ∧ rv_Resolve b ext = Ok s).
Proof.
  simpl. unfold chain_Resolve. cbn [chain_from].
  destruct (rv_Resolve a ext) as [sa|ea], (rv_Resolve b ext) as [sb|eb];
    repeat case_bool_decide; naive_solver.
Qed.

Lemma well_resolved_mono ext P Q s : well_resolved ext P s → (∀ role, P role → Q role) → well_resolved ext Q s.
Proof. unfold well_resolved. naive_solver. Qed.

(** The table of people that must name somebody. *)
Definition nobody_named (env : Environment) : Prop :=
  parseGroupRoles (os_Getenv env (if os_Getenv env "MANTLEKEEP_AUTH" =s? "proxy"
                                  then "MANTLEKEEP_GROUP_ROLES" else DevSubjectsEnv)) = ∅ ∧
  (os_Getenv env "MANTLEKEEP_AUTH" = "proxy" ∨ os_Getenv env DevSubjectsEnv ≠ "").

Lemma human_identity env :
  match buildHumanIdentity env with
  | Err _ => nobody_named env
  | Ok human => ¬ nobody_named env ∧ ∀ ext s, rv_Resolve human ext = Ok s → well_resolved ext (human_role env ext) s
  end.
Proof.
  unfold buildHumanIdentity, human_role, nobody_named, of_groups.
  destruct (os_Getenv env "MANTLEKEEP_AUTH" =s? "proxy") eqn:Ep; [|destruct (os_Getenv env DevSubjectsEnv =s? "") eqn:Ed];
    autorewrite with mk in *; cbn [negb]; try case_bool_decide as Ht.
  - by split; [|left].
  - split; [tauto|]. intros ext s Hs. by apply Gateway_well_resolved in Hs as [? _].
  - split; [intros [_ [?|?]]; congruence|]. intros ext s. apply NewMock_well_resolved.
  - by split; [|right].
  - split; [tauto|]. intros ext s. apply NewMockFrom_well_resolved.
Qed.

(** C28: who a request is, is decided by the deployment. Whatever the environment selects
    (the dev directory, a configured one, the gateway's groups, with or without the service
    table in front), a subject the built resolver returns has the id of the caller and no
    attribute, is marked an AI if it holds the AI role, and holds only roles the selected
    tables give it; a caller the service table knows gets exactly what that table says, and
    only a caller it does not know is looked up among the people. The process refuses to
    start exactly when the selected table of people names nobody. *)
Theorem identity_is_configured env :
  (is_ok (BuildIdentity env) = false ↔ nobody_named env) ∧
  ∀ r, BuildIdentity env = Ok r →
    (∀ ext s, rv_Resolve r ext = Ok s → well_resolved ext (configured_role env ext) s) ∧
    (machine_transport env = true → ∀ ext s,
       Gateway_Resolve (NewGateway (parseGroupRoles (os_Getenv env "MANTLEKEEP_SERVICE_ROLES")) []) ext = Ok s →
       rv_Resolve r ext = Ok s).
Proof.
  pose proof (human_identity env) as Hh. unfold BuildIdentity.
  destruct (buildHumanIdentity env) as [human|e]; cbn [rbind]; [|done]. destruct Hh as [Hnamed Hh].
  split; [by destruct (machine_transport env)|]. intros r. destruct (machine_transport env) eqn:Em; intros [= <-].
  - split; [intros ext s|intros _ ext s Hs].
    + intros Hs. apply chain_two in Hs as [_ [Hs|[_ Hs]]].
      * apply Gateway_well_resolved in Hs as [Hs _]. eapply well_resolved_mono; [exact Hs|]. by left.
      * eapply well_resolved_mono; [by apply Hh|]. by right.
    + apply chain_two. apply Gateway_well_resolved in Hs as Hw. split; [apply Hw|by left].
  - split; [|done]. intros ext s Hs. eapply well_resolved_mono; [by apply Hh|]. by right.
Qed.

(** ** Layers *)

Section layers.
Context (env : Environment) (ReadConfigFile : string → result string string).
Context (decodeLayerFile : string → result string layerFile).

(** The layer a variable names: nothing when the variable is empty; else the content of its
    file, or no start at all. *)
Lemma loadLayer_Ok envVar name l :
  loadLayer env ReadConfigFile decodeLayerFile envVar name = Ok l ↔
  (os_Getenv env envVar = "" ∧ l = None) ∨
  (os_Getenv env envVar ≠ "" ∧ ∃ data raw, ReadConfigFile (os_Getenv env envVar) = Ok data ∧ decodeLayerFile data = Ok raw ∧
     l = Some (mkLayer (name +:+ ":" +:+ Base (os_Getenv env envVar)) (lf_ActionRoles raw) (lf_Sealed raw) (lf_Roles raw))).
Proof.
  unfold loadLayer, toRoleMap. destruct (_ =s? "") eqn:E; autorewrite with mk in E.
  { split; [intros [= <-]; by left|by intros [[_ ->]|[? _]]]. }
  split.
  - intros H. right. split; [done|]. destruct (ReadConfigFile _) as [data|]; [|done].
    destruct (decodeLayerFile data) as [raw|] eqn:Ed; [|done]. injection H as <-. by exists data, raw.
  - by intros [[? _]|(_ & data & raw & -> & -> & ->)].
Qed.

(** A configured layer is never dropped: the cascade is the default layer, the platform's
    when it is configured and then the team's, or there is none. *)
Theorem configured_layers_are_all_in_force ls :
  currentLayers env ReadConfigFile decodeLayerFile = Ok ls ↔
  ∃ platform team, loadLayer env ReadConfigFile decodeLayerFile PlatformConfig "platform" = Ok platform ∧
    loadLayer env ReadConfigFile decodeLayerFile TeamConfig "team" = Ok team ∧
    ls = [DefaultLayer] ++ option_list platform ++ option_list team.
Proof.
  unfold currentLayers, layers_and_paths. rewrite rbind_Ok. setoid_rewrite rbind_Ok. setoid_rewrite rbind_Ok. split.
  - intros (acc & (platform & Hp & team & Ht & [= <-]) & [= <-]). exists platform, team. by destruct platform, team.
  - intros (platform & team & Hp & Ht & ->). eexists. split; [by exists platform; split; [|exists team]|].
    by destruct platform, team.
Qed.
End layers.

(** ** Witnesses *)

Definition demo_table : gmap string (list Role) :=
  {["platform-architects" := [RoleArchitect; RoleOperator]; "empty" := []]}.

Lemma group_roles_round_trip_witness :
  parseGroupRoles "platform-architects=L1-Architect,L2-Operator;empty=" = demo_table ∧
  parseGroupRoles (Join (map render_pair (reverse (map_to_list demo_table))) ";") = demo_table.
Proof.
  split; [apply (bool_decide_unpack _); by vm_compute|]. apply group_roles_round_trip; [apply reverse_Permutation|].
  apply (bool_decide_unpack (Forall clean_pair _)). by vm_compute.
Defined.

Example brand_in_force :
  CurrentBrand (Brand (mkBrandOptions "ACME" "Acme Control" "*" "beta" "")
    {["ACME_BRAND_MARK" := "#"; "MANTLEKEEP_BRAND_KICKER" := "prod"; "ACME_BRAND_KICKER" := "dev"]}) =
  mkBrandOptions "" "Acme Control" "#" "prod" "".
Proof. by vm_compute. Qed.

(** A mesh caller is resolved by the service table, a person by the gateway behind it. *)
Definition demo_env : gmap string string :=
  {["MANTLEKEEP_TRANSPORT" := "mesh"; "MANTLEKEEP_SERVICE_ROLES" := "spiffe://demo/svc-a=L3-Consumer";
    "MANTLEKEEP_AUTH" := "proxy"; "MANTLEKEEP_GROUP_ROLES" := " ops=L2-Operator ; bots=AI-Agent"]}.

Example demo_resolved :
  map (λ groups, match BuildIdentity demo_env with
                 | Ok r => (λ s, (sub_Roles s, sub_IsAI s)) <$> (match rv_Resolve r (mkExternalIdentity "x" groups ∅) with Ok s => Some s | _ => None end)
                 | Err _ => None
                 end)
    [["spiffe://demo/svc-a"; "ops"]; ["ops"]; ["bots"]; ["nobody"]] =
  [Some (["L3-Consumer"], false); Some (["L2-Operator"], false); Some (["AI-Agent"], true); None] ∧
  is_ok (BuildIdentity {["MANTLEKEEP_AUTH" := "proxy"]}) = false.
Proof. by vm_compute. Qed.

Lemma identity_is_configured_witness :
  is_ok (BuildIdentity demo_env) = true ∧
  ∀ r, BuildIdentity demo_env = Ok r →
    ∀ ext s, rv_Resolve r ext = Ok s → well_resolved ext (configured_role demo_env ext) s.
Proof.
  split; [by vm_compute|]. intros r Hr. destruct (identity_is_configured demo_env) as [_ H]. by apply H.
Defined.
