(* ===== verification/DoorAssembly.v ===== *)
(** The door as a process: [mantlekeep-control/app/door.go] wires the directory, the live
    cascade, the policy documents, the fail-safe and the audit chain together;
    [app/explain.go] asks the same collaborators what the door would decide.

    The files read at start and on every poll, the opening of the audit chain and the hash
    of a set of layers are arguments; an evaluation takes what its reads of the policy
    documents returned, so a reload may fall anywhere in it. *)
From S2P Require Import Prelude Contracts Cascade Grants Floors Engine Bucket AuditChain Sdk Startup.

(** ** door.go *)

Inductive startup_error :=
| ELayers (e : layer_file_error)
| EInvalidLayers (e : layer_error)
| EPolicyDocuments (e : string)
| EAuditChain (e : string).

Definition layer_file_text (e : layer_file_error) : string :=
  match e with
  | ELayerRead name path err | ELayerDecode name path err => "policy layer " +:+ name +:+ " (" +:+ path +:+ "): " +:+ err
  end.

Definition second : Z := 1000000000.

(** [reloadInterval]: a [time.Duration] is 64 bits of nanoseconds, and the product wraps. *)
Definition reloadInterval (env : gmap string string) : Z :=
  let s := os_Getenv env "MANTLEKEEP_POLICY_RELOAD" in
  if s =s? "" then 2 * second
  else match Atoi (TrimSpace s) with
       | Some n => if (0 <? n)%Z then wrap64 (n * second) else 2 * second
       | None => 2 * second
       end.

(** [dyn[0]] when there is one and it is not nil. *)
Definition first_dynamic (dyn : list (option ActionAuthorizer)) : option ActionAuthorizer :=
  match dyn with d :: _ => d | [] => None end.

Definition with_fallback (fallback : option ActionAuthorizer) (res : Resolved) : Resolved :=
  match fallback with Some f => Resolved_WithFallback res f | None => res end.

(** The engine with the live cascade behind it, and whether its files are polled. *)
Record LiveEngine := mkLiveEngine {
  le_rbac : RBAC;
  le_watcher : Watcher;
  le_watching : bool;
}.

(** What an evaluation sees: the cascade of the moment ([WithLive]). *)
Definition engine_now (e : LiveEngine) : RBAC :=
  WithDynamic (le_rbac e) (Some (LiveResolver_RequiredRole (le_watcher e))).

Section assembly.
Context (ParseFloat : string → option SpecFloat.spec_float) (env : gmap string string).
Context (hashLayers : list Layer → string).
Context (decodeLayerFile : string → result string layerFile) (Unmarshal : string → option layerFile).
Context (ReadDir : string → result string (list (string * bool))) (path_Join : string → string → string).

Definition layers_now (files : string → result string string) : result layer_file_error (list Layer) :=
  currentLayers env files decodeLayerFile.
Definition attach (files : string → result string string) := attachScopes env files Unmarshal ReadDir path_Join.

(** The layers of the start: read, and refused unless they validate. *)
Definition boot_layers (files : string → result string string) : result startup_error (list Layer) :=
  match layers_now files with
  | Err e => Err (ELayers e)
  | Ok layers =>
      match ValidateLayers (LadderFrom layers) layers with
      | Err e => Err (EInvalidLayers e)
      | Ok _ => Ok layers
      end
  end.

Definition configuredRBAC (files : string → result string string) (dyn : list (option ActionAuthorizer)) :
    result startup_error RBAC :=
  base <-? boot_layers files ;
  let ladder := LadderFrom base in
  let fb := first_dynamic dyn in
  let resolved := with_fallback fb (Resolve ladder base) in
  Ok (attach files (WithDynamic (WithRoleLadder NewRBAC ladder) (Some (RequiredRole resolved))) base fb ladder).

Definition watches : bool :=
  negb (os_Getenv env PlatformConfig =s? "") || negb (os_Getenv env TeamConfig =s? "") ||
  negb (os_Getenv env "MANTLEKEEP_POLICY_RELOAD" =s? "").

Definition liveRBAC (files : string → result string string) (dyn : list (option ActionAuthorizer)) :
    result startup_error LiveEngine :=
  layers <-? boot_layers files ;
  let ladder := LadderFrom layers in
  let fallback := first_dynamic dyn in
  let live := with_fallback fallback (Resolve ladder layers) in
  let w := NewWatcher hashLayers live fallback ladder layers in
  Ok (mkLiveEngine (attach files (WithRoleLadder NewRBAC ladder) layers fallback ladder) w watches).

(** One tick of the watcher, over the files of the moment. *)
Definition poll (e : LiveEngine) (files : string → result string string) : LiveEngine :=
  if le_watching e then
    let loaded := match layers_now files with
                  | Ok layers => Ok layers
                  | Err err => Err (ErrorText (layer_file_text err))
                  end in
    mkLiveEngine (le_rbac e) (Watcher_Reload hashLayers (le_watcher e) loaded).2 (le_watching e)
  else e.

Context `{RecordCodec} {B : Type} `{!Bucket B} (sha256_hex : string → string).

(** The process: [BuildDoor]'s locals. *)
Record Door := mkDoor {
  door_ids : Resolver;
  door_engine : LiveEngine;
  door_override : option (PolicyInput → result go_error Decision);
  door_tripped : bool;
  door_live : live_read → grantsSnapshot;
  door_audit : B;
}.

Definition with_engine (d : Door) (e : LiveEngine) : Door :=
  mkDoor (door_ids d) e (door_override d) (door_tripped d) (door_live d) (door_audit d).
Definition with_tripped (d : Door) (b : bool) : Door :=
  mkDoor (door_ids d) (door_engine d) (door_override d) b (door_live d) (door_audit d).
Definition with_live (d : Door) (live : live_read → grantsSnapshot) : Door :=
  mkDoor (door_ids d) (door_engine d) (door_override d) (door_tripped d) live (door_audit d).
Definition with_audit (d : Door) (b : B) : Door :=
  mkDoor (door_ids d) (door_engine d) (door_override d) (door_tripped d) (door_live d) b.

(** The documents are loaded once ([EnsureLoaded]), then the chain is opened. *)
Definition BuildDoor (files : string → result string string) (ids : Resolver)
    (override : option (PolicyInput → result go_error Decision)) (dyn : list (option ActionAuthorizer))
    (EnsureLoaded : result string grantsSnapshot) (audit_Open : result string B) : result startup_error Door :=
  engine <-? liveRBAC files dyn ;
  match EnsureLoaded with
  | Err e => Err (EPolicyDocuments e)
  | Ok snapshot =>
      match audit_Open with
      | Err e => Err (EAuditChain e)
      | Ok aud => Ok (mkDoor ids engine override false (λ _, snapshot) aud)
      end
  end.

(** The evaluator behind the fail-safe: the override, or the live engine. *)
Definition rbac_evaluates (d : Door) (input : PolicyInput) : Decision * RBAC :=
  Evaluate ParseFloat (os_Getenv env) (door_live d) (engine_now (door_engine d)) input.
Definition base_policy (d : Door) (input : PolicyInput) : result go_error Decision :=
  match door_override d with
  | Some evaluator => evaluator input
  | None => Ok (rbac_evaluates d input).1
  end.

(** An evaluation by the engine leaves the cascades it resolved in its cache. *)
Definition door_evaluates (d : Door) (input : PolicyInput) : Decision * Door :=
  (Failsafe_Evaluate (os_Getenv env) (mkFailsafe (base_policy d) (door_tripped d)) input,
   if door_tripped d || bool_decide (is_Some (door_override d)) then d
   else with_engine d (mkLiveEngine (rbac_evaluates d input).2 (le_watcher (door_engine d)) (le_watching (door_engine d)))).

#[export] Instance door_ports : Ports Door := {|
  port_Resolve d := rv_Resolve (door_ids d);
  port_Evaluate := λ d input, let '(decision, d) := door_evaluates d input in (Ok decision, d);
  port_Log := λ d rec,
    match Log sha256_hex (door_audit d) rec with
    | (Ok rec, b) => (Ok rec, with_audit d b)
    | (Err e, b) => (Err (ErrorText e), with_audit d b)
    end;
|}.

(** ** The process, step by step *)

Inductive door_op :=
| OpSubmit (live : live_read → grantsSnapshot) (t_log t_issue : Time) (token : string) (intent : Intent)
| OpPoll (files : string → result string string)
| OpTrip
| OpReset.

Definition submit (live : live_read → grantsSnapshot) (t_log t_issue : Time) (token : string) (intent : Intent) (d : Door) :
    result go_error ExecutionToken * Door :=
  Submit (Ports0 := door_ports) t_log t_issue token intent (with_live d live).

Definition run_door_op (d : Door) (op : door_op) : Door :=
  match op with
  | OpSubmit live t_log t_issue token intent => (submit live t_log t_issue token intent d).2
  | OpPoll files => with_engine d (poll (door_engine d) files)
  | OpTrip => with_tripped d true
  | OpReset => with_tripped d false
  end.

Definition run_door (d : Door) (ops : list door_op) : Door := foldl run_door_op d ops.
End assembly.
Arguments Door B : clear implicits.
Arguments mkDoor {B}.

(** ** explain.go *)

Inductive explain_error :=
| ENotWired
| EUnknownSubject (id e : string)
| EPolicy (subject : Subject) (e : go_error).

Section explain.
Context {W : Type} `{!Ports W}.

(** [wired] is false when the explainer was built over a nil collaborator. The answer
    carries the resolved subject. *)
Definition Explain (wired : bool) (intent : Intent) (w : W) : result explain_error (Subject * Decision) * W :=
  if negb wired then (Err ENotWired, w)
  else match port_Resolve w (external_of intent) with
       | Err err => (Err (EUnknownSubject (sub_ID (int_Subject intent)) err), w)
       | Ok subject =>
           match port_Evaluate w (PolicyInputFor subject intent) with
           | (Err err, w) => (Err (EPolicy subject err), w)
           | (Ok decision, w) => (Ok (subject, decision), w)
           end
       end.
End explain.

(** ** The poll interval *)

(** The interval is the configured number of seconds as long as it fits 64 bits of
    nanoseconds, and two seconds when the text is no positive number. *)
Theorem reload_interval_is_the_configured_one env n :
  (Atoi (TrimSpace (os_Getenv env "MANTLEKEEP_POLICY_RELOAD")) = Some n → os_Getenv env "MANTLEKEEP_POLICY_RELOAD" ≠ "" →
   (0 < n ≤ 9223372036)%Z → reloadInterval env = (n * second)%Z) ∧
  ((os_Getenv env "MANTLEKEEP_POLICY_RELOAD" = "" ∨
    Atoi (TrimSpace (os_Getenv env "MANTLEKEEP_POLICY_RELOAD")) = None ∨
    Atoi (TrimSpace (os_Getenv env "MANTLEKEEP_POLICY_RELOAD")) = Some n ∧ (n ≤ 0)%Z) →
   reloadInterval env = (2 * second)%Z).
Proof.
  unfold reloadInterval, second. split.
  - intros Ha Hs [Hlo Hhi]. rewrite (proj2 (eqs_false _ "") Hs), Ha, (proj2 (Z.ltb_lt 0 n) Hlo). apply wrap64_small. lia.
  - intros H. destruct (_ =s? "") eqn:E; [done|]. autorewrite with mk in E.
    destruct H as [?|[->|[-> Hn]]]; [done..|]. by rewrite (proj2 (Z.ltb_ge 0 n) Hn).
Qed.

(** ** Engines that differ in their cache only *)

Definition same_scopes (p q : ScopeResolver) : Prop :=
  sr_base p = sr_base q ∧ sr_scopes p = sr_scopes q ∧ sr_fallback p = sr_fallback q ∧ sr_ladder p = sr_ladder q.

(** [r] is [r0] with other cascades in the cache, each of them current. *)
Definition cached_from (r0 r : RBAC) : Prop :=
  rb_ladder r = rb_ladder r0 ∧ rb_providers r = rb_providers r0 ∧ rb_byAction r = rb_byAction r0 ∧
  rb_providerRoleActions r = rb_providerRoleActions r0 ∧
  match rb_scopes r0, rb_scopes r with
  | None, None => True
  | Some p0, Some p => same_scopes p0 p ∧ coherent p
  | _, _ => False
  end.

Lemma For_spec p scope : coherent p →
  (For p scope).1 = resolve_scope p scope ∧ same_scopes p (For p scope).2 ∧ coherent (For p scope).2.
Proof.
  intros Hp. split; [by apply coherent_For|]. split; [|apply (coherent_op p (OpFor scope) Hp)].
  unfold For. by destruct (sr_cache p !! scope).
Qed.

Lemma cached_from_WithDynamic r0 r dyn : cached_from r0 r → cached_from r0 (WithDynamic r dyn).
Proof. done. Qed.

(** The engine an evaluation starts from and the one it leaves. *)
Lemma Evaluate_engine PF env live r input :
  (Evaluate PF env live r input).2 = r ∨ (Evaluate PF env live r input).2 = (authorizerFor r input).2.
Proof.
  unfold Evaluate. destruct (_ =s? ""); [by left|]. destruct (_ && _); [by left|]. right.
  destruct (authorizerFor r input) as [dyn r']. repeat case_match; done.
Qed.

Lemma same_scopes_trans p q s : same_scopes p q → same_scopes q s → same_scopes p s.
Proof. unfold same_scopes. intros (-> & -> & -> & ->) (-> & -> & -> & ->). done. Qed.

Lemma cached_from_authorizer r0 r input : cached_from r0 r → cached_from r0 (authorizerFor r input).2.
Proof.
  unfold authorizerFor. destruct (rb_scopes r) as [p|] eqn:Ep; [|done]. destruct (_ && _) eqn:E; [|done].
  intros (H1 & H2 & H3 & H4 & H5). rewrite Ep in H5. destruct (rb_scopes r0) as [p0|] eqn:E0; [|done].
  destruct H5 as [Hs Hc]. destruct (For_spec p (pi_Scope (in_Intent input)) Hc) as (_ & Hs' & Hc').
  destruct (For p _) as [res p']. split_and!; try done. rewrite E0. simpl. split; [by eapply same_scopes_trans|done].
Qed.

Lemma cached_from_Evaluate PF env live r0 r input : cached_from r0 r → cached_from r0 (Evaluate PF env live r input).2.
Proof. intros H. destruct (Evaluate_engine PF env live r input) as [->| ->]; [done|by apply cached_from_authorizer]. Qed.

(** What the cascade requires does not depend on the cache. *)
Lemma cached_authorizer r0 r input : cached_from r0 r →
  (authorizerFor r input).1 =
  match rb_scopes r0 with
  | Some p => if negb (pi_Scope (in_Intent input) =s? "") && Has p (pi_Scope (in_Intent input))
              then Some (RequiredRole (resolve_scope p (pi_Scope (in_Intent input)))) else rb_dyn r
  | None => rb_dyn r
  end.
Proof.
  unfold authorizerFor. intros (_ & _ & _ & _ & H). destruct (rb_scopes r0) as [p0|], (rb_scopes r) as [p|]; try done.
  destruct H as [(Hb & Hs & Hf & Hl) Hc]. unfold Has. rewrite Hs. destruct (_ && _); [|done].
  pose proof (For_spec p (pi_Scope (in_Intent input)) Hc) as (H1 & _). destruct (For p _) as [res p'].
  simpl in *. subst res. unfold resolve_scope. by rewrite Hb, Hs, Hf, Hl.
Qed.

(** Two such engines decide alike. *)
Lemma Evaluate_cached PF env live r0 r input : cached_from r0 r0 → cached_from r0 r → rb_dyn r = rb_dyn r0 →
  (Evaluate PF env live r input).1 = (Evaluate PF env live r0 input).1.
Proof.
  intros H0 H Hd. pose proof (cached_authorizer r0 r input H) as Ha. pose proof (cached_authorizer r0 r0 input H0) as Ha0.
  rewrite Hd, <- Ha0 in Ha. pose proof (cached_from_authorizer r0 r input H) as (H1 & _ & H3 & H4 & _).
  pose proof (cached_from_authorizer r0 r0 input H0) as (K1 & _ & K3 & K4 & _).
  unfold Evaluate. destruct (pi_Goal (in_Intent input) =s? ""); [done|]. destruct (ps_IsAI (in_Subject input) && _); [done|].
  destruct (authorizerFor r input) as [dyn r1], (authorizerFor r0 input) as [dyn0 r2]. simpl in *. subst dyn.
  assert (rankLadder r1 = rankLadder r2) as Hl by (unfold rankLadder; by rewrite H1, K1).
  assert (product_denies r1 input = product_denies r2 input) as Hp by (unfold product_denies; by rewrite H3, K3).
  assert (∀ i rs a, grantedByDocument_from i live r1 rs a = grantedByDocument_from i live r2 rs a) as Hg.
  { intros i rs a. revert i. induction rs as [|x rs IH]; intros i; simpl; [done|]. by rewrite H4, K4, IH. }
  assert (∀ rs a, actionAllowed live r1 rs a dyn0 = actionAllowed live r2 rs a dyn0) as Haa
    by (intros; unfold actionAllowed, grantedByDocument; by rewrite Hl, Hg).
  rewrite Haa, Hp, Hl. repeat case_match; done.
Qed.

(** An allow went through the role check. *)
Lemma Evaluate_allow_role PF env live r input :
  dec_Action (Evaluate PF env live r input).1 = ActionAllow →
  actionAllowed live r (ps_Roles (in_Subject input)) (pi_Action (in_Intent input)) (authorizerFor r input).1 = true.
Proof.
  destruct (authorizerFor_same r input) as (_ & _ & Hsame). unfold Evaluate.
  destruct (_ =s? ""); [done|]. destruct (_ && _); [done|]. destruct (authorizerFor r input) as [dyn r']. simpl in *.
  rewrite Hsame. by destruct (actionAllowed _ _ _ _ _).
Qed.

(** ** The cascade of a running door *)

Lemma LadderFrom_nonempty layers : LadderFrom layers ≠ ∅.
Proof. induction layers as [|l layers IH]; simpl; [done|]. by case_bool_decide. Qed.

Lemma ladder_or_default_boot layers : ladder_or_default (LadderFrom layers) = LadderFrom layers.
Proof. unfold ladder_or_default. rewrite bool_decide_eq_false_2; [done|apply LadderFrom_nonempty]. Qed.

(** A sealed binding of the upper layers, seen through the fallback and the layers below. *)
Lemma sealed_with_fallback fb ladder upper lower a cur :
  seal_key a ∈ res_sealed (Resolve ladder upper) → RequiredRole (Resolve ladder upper) a = Some cur →
  ∃ need, RequiredRole (with_fallback fb (Resolve ladder (upper ++ lower))) a = Some need ∧
    ∀ roles, holdsAtLeast (ladder_or_default ladder) roles need = true →
             holdsAtLeast (ladder_or_default ladder) roles cur = true.
Proof.
  intros Hs Hc. destruct (sealed_floor_step ladder upper lower a cur Hs Hc) as (need & Hn & Hr).
  exists need. split; [|done]. rewrite RequiredRole_Resolve in Hn. destruct fb as [f|]; simpl; [|by rewrite RequiredRole_Resolve].
  unfold RequiredRole. simpl. by rewrite Hn.
Qed.

Section running.
Context (ParseFloat : string → option SpecFloat.spec_float) (env : gmap string string).
Context (hashLayers : list Layer → string).
Context (decodeLayerFile : string → result string layerFile) (Unmarshal : string → option layerFile).
Context (ReadDir : string → result string (list (string * bool))) (path_Join : string → string → string).
Context `{RecordCodec} {B : Type} `{!Bucket B} (sha256_hex : string → string).
Implicit Types (d : Door B) (ops : list door_op).

Let reads := layers_now env decodeLayerFile.
Let run := run_door ParseFloat env hashLayers decodeLayerFile sha256_hex (B := B).

(** What the watcher was given. *)
Definition loads (ops : list door_op) : list (result go_error (list Layer)) :=
  omap (λ op, match op with
              | OpPoll files => if watches env then
                  Some match reads files with
                       | Ok layers => Ok layers
                       | Err err => Err (ErrorText (layer_file_text err))
                       end else None
              | _ => None
              end) ops.

Lemma loads_app ops1 ops2 : loads (ops1 ++ ops2) = loads ops1 ++ loads ops2.
Proof. apply omap_app. Qed.

(** What a door built over [layers] is, at any time: its engine, up to the cache, its
    cascade after the polls so far, and the collaborators it was given. *)
Definition assembled (layers : list Layer) (fb : option ActionAuthorizer) (r0 : RBAC) (ids : Resolver)
    (override : option (PolicyInput → result go_error Decision)) (so_far : list door_op) d : Prop :=
  door_ids d = ids ∧ door_override d = override ∧ le_watching (door_engine d) = watches env ∧
  cached_from r0 (le_rbac (door_engine d)) ∧
  le_watcher (door_engine d) =
    polls hashLayers (NewWatcher hashLayers (with_fallback fb (Resolve (LadderFrom layers) layers)) fb (LadderFrom layers) layers)
      (loads so_far).

Lemma door_evaluates_engine d input :
  let d' := (door_evaluates ParseFloat env d input).2 in
  door_ids d' = door_ids d ∧ door_override d' = door_override d ∧ door_tripped d' = door_tripped d ∧
  door_live d' = door_live d ∧ door_audit d' = door_audit d ∧
  le_watching (door_engine d') = le_watching (door_engine d) ∧ le_watcher (door_engine d') = le_watcher (door_engine d) ∧
  ∀ r0, cached_from r0 (le_rbac (door_engine d)) → cached_from r0 (le_rbac (door_engine d')).
Proof.
  cbv zeta. unfold door_evaluates. simpl. destruct (door_tripped d || _); [done|]. split_and!; [done..|].
  intros r0 Hr. simpl. by apply cached_from_Evaluate.
Qed.

Lemma door_port_evaluate d input x d' :
  @port_Evaluate _ (door_ports ParseFloat env sha256_hex) d input = (x, d') →
  x = Ok (door_evaluates ParseFloat env d input).1 ∧ d' = (door_evaluates ParseFloat env d input).2.
Proof. unfold port_Evaluate, door_ports. destruct (door_evaluates _ _ _ _) as [dec dx]. by intros [= <- <-]. Qed.

Lemma submit_keeps d live t_log t_issue token intent layers fb r0 ids override ops :
  assembled layers fb r0 ids override ops d →
  assembled layers fb r0 ids override ops (submit ParseFloat env sha256_hex live t_log t_issue token intent d).2.
Proof.
  intros (H1 & H2 & H3 & H4 & H5). unfold submit.
  pose proof (Submit_submitted (Ports0 := door_ports ParseFloat env sha256_hex) t_log t_issue token intent (with_live d live)) as Hs.
  cbv zeta in Hs. destruct (Submit _ _ _ _ _) as [r d']. simpl in Hs.
  assert (∀ input x dx, @port_Evaluate _ (door_ports ParseFloat env sha256_hex) (with_live d live) input = (x, dx) → assembled layers fb r0 ids override ops dx) as Heval.
  { intros input x dx [_ ->]%door_port_evaluate. pose proof (door_evaluates_engine (with_live d live) input) as Hd. cbv zeta in Hd.
    destruct Hd as (E1 & E2 & _ & _ & _ & E3 & E4 & E5). unfold assembled. rewrite E1, E2, E3, E4. by split_and!; [..|apply E5|]. }
  assert (∀ dx rec x dy, @port_Log _ (door_ports ParseFloat env sha256_hex) dx rec = (x, dy) → assembled layers fb r0 ids override ops dx → assembled layers fb r0 ids override ops dy) as Hlog.
  { intros dx rec x dy Hx Ha. simpl in Hx. destruct (Log _ _ _) as [[?|?] b]; injection Hx as _ <-; done. }
  inversion Hs; subst; simpl; try done; eauto.
Qed.

Lemma run_assembled layers fb r0 ids override ops d :
  assembled layers fb r0 ids override [] d → assembled layers fb r0 ids override ops (run d ops).
Proof.
  intros H0. unfold run. induction ops as [|op ops IH] using rev_ind; [done|].
  unfold run_door in *. rewrite foldl_app. simpl. set (dn := foldl _ d ops) in *.
  assert (∀ dx, assembled layers fb r0 ids override ops dx → loads [op] = [] →
    assembled layers fb r0 ids override (ops ++ [op]) dx) as Hskip.
  { intros dx Hdx Hl. unfold assembled. by rewrite loads_app, Hl, app_nil_r. }
  destruct op as [live t_log t_issue token intent|files| |]; simpl.
  - apply Hskip; [|done]. by apply submit_keeps.
  - destruct IH as (Hi & Ho & Hwatch & Hr & Hw). unfold poll. rewrite Hwatch. destruct (watches env) eqn:E.
    + unfold assembled. rewrite loads_app. unfold loads at 2. cbn [omap list_omap]. rewrite E. split_and!; try done.
      simpl. rewrite Hw. unfold polls. by rewrite foldl_app.
    + apply Hskip; [|unfold loads; simpl; by rewrite E]. by rewrite <- E in Hwatch.
  - by apply Hskip.
  - by apply Hskip.
Qed.

(** A fresh engine: the scopes are configured, nothing is cached. *)
Lemma attach_cached files base fb ladder :
  let eng := attach env Unmarshal ReadDir path_Join files (WithRoleLadder NewRBAC ladder) base fb ladder in
  cached_from eng eng ∧ rb_ladder eng = rb_ladder (WithRoleLadder NewRBAC ladder) ∧
  ∀ p, rb_scopes eng = Some p → sr_base p = base ∧ sr_ladder p = ladder ∧ sr_fallback p = fb.
Proof.
  cbv zeta. unfold attach, attachScopes. case_bool_decide; simpl.
  { unfold WithRoleLadder. by case_bool_decide; split_and!; try done. }
  set (sr0 := match fb with Some f => _ | None => _ end).
  assert (∀ (m : gmap string scopeLayerFile), let p := map_fold (λ name scoped sr, SetScope sr name (sc_layer scoped)) sr0 m in
    coherent p ∧ sr_base p = base ∧ sr_ladder p = ladder ∧ sr_fallback p = fb) as Hm.
  { intros m. apply (map_fold_weak_ind (λ p _, coherent p ∧ sr_base p = base ∧ sr_ladder p = ladder ∧ sr_fallback p = fb)).
    - unfold sr0. destruct fb; (split; [intros ? ?; simpl; by rewrite lookup_empty|done]).
    - intros i x m' p _ (Hp & ? & ? & ?). split; [|done]. apply (coherent_op p (OpSetScope i (sc_layer x)) Hp). }
  specialize (Hm (loadScopes env files Unmarshal ReadDir path_Join ScopeConfig)). cbv zeta in Hm. destruct Hm as (Hc & Hb & Hl & Hf).
  unfold cached_from, same_scopes. simpl. split_and!; try done. by intros p [= <-].
Qed.

(** A door that was built is one over layers that validate. *)
Lemma BuildDoor_Ok files ids override dyn loaded aud d :
  BuildDoor env hashLayers decodeLayerFile Unmarshal ReadDir path_Join files ids override dyn loaded aud = Ok d →
  ∃ layers, reads files = Ok layers ∧ ValidateLayers (LadderFrom layers) layers = Ok tt ∧
    assembled layers (first_dynamic dyn)
      (attach env Unmarshal ReadDir path_Join files (WithRoleLadder NewRBAC (LadderFrom layers)) layers (first_dynamic dyn) (LadderFrom layers))
      ids override [] d ∧ door_tripped d = false.
Proof.
  unfold BuildDoor, liveRBAC, boot_layers. rewrite rbind_Ok. intros (engine & He & Hd). apply rbind_Ok in He as (layers & Hl & [= <-]).
  fold (reads files) in Hl.
  destruct (reads files) as [ls|]; [|done]. destruct (ValidateLayers _ _) as [[]|] eqn:Hv; [|done]. injection Hl as ->.
  destruct loaded; [|done]. destruct aud; [|done]. injection Hd as <-. exists layers. split_and!; try done.
  split_and!; try done. apply (attach_cached files layers (first_dynamic dyn) (LadderFrom layers)).
Qed.

(** Whether the deployment configured the scope an intent names. *)
Definition scoped (r : RBAC) (scope : string) : bool :=
  match rb_scopes r with Some p => negb (scope =s? "") && Has p scope | None => false end.

(** The shared layers a request is judged by: a scope's own layer stands on those of the
    start, every other request on those last delivered. *)
Definition cascade_layers d0 (layers : list Layer) (ops : list door_op) (intent : Intent) : list Layer :=
  if scoped (le_rbac (door_engine d0)) (param_string (int_Params intent) "scope") then layers
  else last_loaded layers (loads ops).

Lemma scoped_cached r0 r scope : cached_from r0 r → scoped r scope = scoped r0 scope.
Proof.
  unfold scoped. intros (_ & _ & _ & _ & Hp). destruct (rb_scopes r0) as [p0|], (rb_scopes r) as [p|]; try done.
  destruct Hp as [(_ & Hs & _) _]. unfold Has. by rewrite Hs.
Qed.

(** The role the assembled engine asks for, under a seal of the upper layers. *)
Lemma assembled_sealed files layers fb ids override ops d0 d input upper lower cur :
  let r0 := attach env Unmarshal ReadDir path_Join files (WithRoleLadder NewRBAC (LadderFrom layers)) layers fb (LadderFrom layers) in
  assembled layers fb r0 ids override [] d0 → assembled layers fb r0 ids override ops d →
  (∀ l1 l2, l1 ∈ seen layers (loads ops) → l2 ∈ seen layers (loads ops) → hashLayers l1 = hashLayers l2 → l1 = l2) →
  (if scoped (le_rbac (door_engine d0)) (pi_Scope (in_Intent input)) then layers else last_loaded layers (loads ops)) = upper ++ lower →
  seal_key (pi_Action (in_Intent input)) ∈ res_sealed (Resolve (LadderFrom layers) upper) →
  RequiredRole (Resolve (LadderFrom layers) upper) (pi_Action (in_Intent input)) = Some cur →
  ∃ required need, (authorizerFor (engine_now (door_engine d)) input).1 = Some required ∧
    required (pi_Action (in_Intent input)) = Some need ∧
    ∀ roles, holdsAtLeast (LadderFrom layers) roles need = true → holdsAtLeast (LadderFrom layers) roles cur = true.
Proof.
  intros r0 (_ & _ & _ & Hc0 & _) (_ & _ & _ & Hc & Hw) Hhash Hls Hseal Hcur.
  destruct (attach_cached files layers fb (LadderFrom layers)) as (_ & _ & Hscopes). fold r0 in Hscopes.
  rewrite (scoped_cached _ _ _ Hc0) in Hls.
  pose proof (cached_authorizer r0 (engine_now (door_engine d)) input (cached_from_WithDynamic _ _ _ Hc)) as Ha.
  assert (∀ extra, ∃ need, RequiredRole (with_fallback fb (Resolve (LadderFrom layers) ((upper ++ lower) ++ extra)))
      (pi_Action (in_Intent input)) = Some need ∧
    ∀ roles, holdsAtLeast (LadderFrom layers) roles need = true → holdsAtLeast (LadderFrom layers) roles cur = true) as Hneed.
  { intros extra. rewrite <- app_assoc.
    destruct (sealed_with_fallback fb (LadderFrom layers) upper (lower ++ extra) (pi_Action (in_Intent input)) cur Hseal Hcur)
      as (need & Hn & Hr). rewrite ladder_or_default_boot in Hr. by exists need. }
  assert (scoped r0 (pi_Scope (in_Intent input)) = false → rb_dyn (engine_now (door_engine d)) =
    Some (LiveResolver_RequiredRole (le_watcher (door_engine d))) ∧
    w_cur (le_watcher (door_engine d)) = with_fallback fb (Resolve (LadderFrom layers) (upper ++ lower))) as Hlive.
  { intros Hsc. rewrite Hsc in Hls. split; [done|]. rewrite Hw.
    etrans; [apply (watcher_tracks_source hashLayers fb (LadderFrom layers) layers (loads ops) Hhash)|]. by rewrite Hls. }
  unfold scoped in Hls, Hlive. destruct (rb_scopes r0) as [p|] eqn:Ep; [destruct (_ && _) eqn:Esc|].
  - destruct (Hscopes p eq_refl) as (Hb & Hl & Hf). rewrite Ha. subst layers.
    destruct (Hneed match sr_scopes p !! pi_Scope (in_Intent input) with Some l => [l] | None => [] end) as (need & Hn & Hr).
    eexists _, need. split; [done|]. split; [|done]. unfold resolve_scope. rewrite Hb, Hl, Hf. exact Hn.
  - destruct (Hlive eq_refl) as [Hd Hcw]. destruct (Hneed []) as (need & Hn & Hr). rewrite app_nil_r in Hn.
    eexists _, need. split; [by rewrite Ha|]. split; [|done]. unfold LiveResolver_RequiredRole. by rewrite Hcw.
  - destruct (Hlive eq_refl) as [Hd Hcw]. destruct (Hneed []) as (need & Hn & Hr). rewrite app_nil_r in Hn.
    eexists _, need. split; [by rewrite Ha|]. split; [|done]. unfold LiveResolver_RequiredRole. by rewrite Hcw.
Qed.

(** C3: the platform's floor holds while the door runs. Take a door that started without
    an evaluator of the deployment's own, and any sequence of submissions, polls of the
    layer files (failed ones included), trips and resets of the fail-safe; the hash of the
    layers tells apart those that were delivered. If the layers a request is judged by
    begin with layers that bind its action to a role and seal it, then whatever the layers
    below say, the scope's layer and the product's registry included, a token means that
    the subject the directory resolves holds a role at least as senior as the sealed one
    (by the ladder of the start), or that the fail-safe is tripped and the action is a
    read, which it lets every resolved subject do. *)
Theorem sealed_floor_holds_while_running files ids dyn loaded aud d0 layers ops live t_log t_issue token intent tok upper lower cur
    (Hboot : BuildDoor env hashLayers decodeLayerFile Unmarshal ReadDir path_Join files ids None dyn loaded aud = Ok d0)
    (Hlayers : reads files = Ok layers)
    (Hhash : ∀ l1 l2, l1 ∈ seen layers (loads ops) → l2 ∈ seen layers (loads ops) → hashLayers l1 = hashLayers l2 → l1 = l2)
    (Hcascade : cascade_layers d0 layers ops intent = upper ++ lower)
    (Hseal : seal_key (int_Action intent) ∈ res_sealed (Resolve (LadderFrom layers) upper))
    (Hcur : RequiredRole (Resolve (LadderFrom layers) upper) (int_Action intent) = Some cur)
    (Htoken : (submit ParseFloat env sha256_hex live t_log t_issue token intent (run d0 ops)).1 = Ok tok) :
  ∃ subject, rv_Resolve ids (external_of intent) = Ok subject ∧
    (holdsAtLeast (LadderFrom layers) (sub_Roles subject) cur = true ∨
     door_tripped (run d0 ops) = true ∧ isRead (int_Action intent) = true).
Proof.
  destruct (BuildDoor_Ok _ _ _ _ _ _ _ Hboot) as (ls & Hls & _ & Hinit & _). rewrite Hls in Hlayers. injection Hlayers as ->.
  destruct (attach_cached files layers (first_dynamic dyn) (LadderFrom layers)) as (_ & Hladder & _).
  pose proof (run_assembled layers (first_dynamic dyn) _ ids None ops d0 Hinit) as Hrun.
  set (d := run d0 ops) in *. pose proof Hrun as (Hids & Hover & _ & Hcached & _). unfold submit in Htoken.
  pose proof (Submit_submitted (Ports0 := door_ports ParseFloat env sha256_hex) t_log t_issue token intent (with_live d live)) as Hs.
  cbv zeta in Hs. rewrite Htoken in Hs. inversion Hs as [| | | |subject decision rec w1 w2 _ Hresolve Heval _ Hfinal]; clear Hs.
  exists subject. simpl in Hresolve. rewrite Hids in Hresolve. split; [done|].
  case_decide as Hallow; [|done]. apply door_port_evaluate in Heval as [[= ->] _].
  unfold door_evaluates, Failsafe_Evaluate, base_policy in Hallow. simpl in Hallow. fold d.
  destruct (door_tripped d) eqn:Htripped.
  { right. split; [done|]. unfold readOnly in Hallow. simpl in Hallow. by destruct (isRead (int_Action intent)). }
  left. rewrite Hover in Hallow.
  apply Evaluate_allow_role in Hallow. simpl in Hallow.
  destruct (assembled_sealed files layers (first_dynamic dyn) ids None ops d0 d (PolicyInputFor subject intent) upper lower cur
    Hinit Hrun Hhash Hcascade Hseal Hcur) as (required & need & Hreq & Hneed & Hroles).
  apply Hroles. rewrite Hreq in Hallow. unfold actionAllowed in Hallow. simpl in Hneed. rewrite Hneed in Hallow.
  assert (rankLadder (engine_now (door_engine d)) = LadderFrom layers) as <-; [|done].
  destruct Hcached as (Hl & _). unfold rankLadder, engine_now. simpl. rewrite Hl, Hladder. unfold WithRoleLadder.
  rewrite (bool_decide_eq_false_2 (LadderFrom layers = ∅)) by apply LadderFrom_nonempty. simpl.
  by rewrite bool_decide_eq_false_2 by apply LadderFrom_nonempty.
Qed.
End running.

(** ** What an explanation is worth *)

Section explaining.
Context (ParseFloat : string → option SpecFloat.spec_float) (env : gmap string string).
Context `{RecordCodec} {B : Type} `{!Bucket B} (sha256_hex : string → string).
Implicit Types (d : Door B).

Let explain (intent : Intent) (d : Door B) := Explain (Ports0 := door_ports ParseFloat env sha256_hex) true intent d.
Let submits t_log t_issue token intent (d : Door B) :=
  Submit (Ports0 := door_ports ParseFloat env sha256_hex) t_log t_issue token intent d.

(** A door whose caches hold nothing but current cascades. *)
Definition settled d : Prop := cached_from (le_rbac (door_engine d)) (le_rbac (door_engine d)).

Lemma cached_from_self r0 r : cached_from r0 r → cached_from r r.
Proof. unfold cached_from. intros (_ & _ & _ & _ & Hp). destruct (rb_scopes r0), (rb_scopes r); [|done..]. by destruct Hp. Qed.

(** Every door that was built and run is settled. *)
Lemma run_settled hashLayers decodeLayerFile Unmarshal ReadDir path_Join files ids override dyn loaded aud d ops :
  BuildDoor env hashLayers decodeLayerFile Unmarshal ReadDir path_Join files ids override dyn loaded aud = Ok d →
  settled (run_door ParseFloat env hashLayers decodeLayerFile sha256_hex d ops).
Proof.
  intros Hb. apply (BuildDoor_Ok env hashLayers decodeLayerFile Unmarshal ReadDir path_Join) in Hb as (layers & _ & _ & Hinit & _).
  apply (run_assembled ParseFloat env hashLayers decodeLayerFile sha256_hex _ _ _ _ _ ops) in Hinit as (_ & _ & _ & Hc & _).
  by eapply cached_from_self.
Qed.

Lemma door_evaluates_again d input : settled d →
  (door_evaluates ParseFloat env (door_evaluates ParseFloat env d input).2 input).1 = (door_evaluates ParseFloat env d input).1.
Proof.
  intros Hset. pose proof (door_evaluates_engine ParseFloat env d input) as Hd. cbv zeta in Hd.
  destruct Hd as (_ & Ho & Ht & Hlive & _ & _ & Hw & Hc). specialize (Hc _ Hset).
  set (d' := (door_evaluates ParseFloat env d input).2) in *. unfold door_evaluates at 1 2. cbn [fst].
  unfold Failsafe_Evaluate. simpl. rewrite Ht. destruct (door_tripped d); [done|].
  unfold base_policy. rewrite Ho. destruct (door_override d); [done|]. unfold rbac_evaluates. rewrite Hlive.
  apply Evaluate_cached; [by apply cached_from_WithDynamic|by apply cached_from_WithDynamic|].
  unfold engine_now. simpl. by rewrite Hw.
Qed.

#[local] Opaque door_evaluates.

(** C5: an explanation is what the door decides, and does nothing. For an intent that
    states a goal, asking why changes neither the audit chain nor the answer that a
    submission of the intent would get, before or after; when the directory does not know
    the subject the submission is refused as that, with nothing recorded; otherwise the
    explained subject and decision are the ones the submission records, and it answers a
    token exactly when the explained decision is an allow. *)
Theorem explain_agrees_with_the_door d intent t_log t_issue token x d'
    (Hset : settled d) (Hgoal : spec_Goal (int_Spec intent) ≠ "")
    (Hx : explain intent d = (x, d')) :
  let submitted := submits t_log t_issue token intent d in
  door_audit d' = door_audit d ∧
  (submits t_log t_issue token intent d').1 = submitted.1 ∧
  door_audit (submits t_log t_issue token intent d').2 = door_audit submitted.2 ∧
  match x with
  | Ok (subject, decision) =>
      match Log sha256_hex (door_audit d) (decision_record t_log subject intent decision) with
      | (Ok _, b) =>
          door_audit submitted.2 = b ∧
          ((∃ tok, submitted.1 = Ok tok) ↔ dec_Action decision = ActionAllow) ∧
          (dec_Action decision ≠ ActionAllow → submitted.1 = Err (ErrorDecision decision))
      | (Err e, b) => door_audit submitted.2 = b ∧ is_ok submitted.1 = false
      end
  | Err (EUnknownSubject id e) =>
      id = sub_ID (int_Subject intent) ∧ submitted.2 = d ∧
      submitted.1 = Err (door_denies ("intent rejected: unknown subject " +:+ Quote id +:+ ": " +:+ e) DenialIdentity)
  | Err _ => False
  end.
Proof.
  pose proof (door_evaluates_engine ParseFloat env d) as Heng. pose proof (door_evaluates_again d) as Hagain.
  unfold explain, Explain in Hx. unfold submits, Submit. rewrite (proj2 (eqs_false _ "") Hgoal).
  simpl in *. destruct (rv_Resolve (door_ids d) (external_of intent)) as [subject|e] eqn:Hres.
  2: { injection Hx as <- <-. rewrite Hres. done. }
  rewrite submit_input_eq. set (input := PolicyInputFor subject intent) in *. specialize (Heng input). specialize (Hagain input Hset).
  destruct (door_evaluates ParseFloat env d input) as [decision d1] eqn:Ed. injection Hx as <- <-. cbn [fst snd] in *.
  destruct Heng as (Hids & _ & _ & _ & Haud & _). rewrite Hids, Hres, submit_input_eq. fold input.
  destruct (door_evaluates ParseFloat env d1 input) as [decision' d2] eqn:Ed2. simpl in Hagain. subst decision'.
  pose proof (door_evaluates_engine ParseFloat env d1 input) as Heng. cbv zeta in Heng. rewrite Ed2 in Heng. cbn [snd] in Heng.
  destruct Heng as (_ & _ & _ & _ & Haud2 & _). simpl. rewrite Haud2, Haud.
  destruct (Log _ _ _) as [[rec|e] b]; simpl; [|done].
  unfold eqs. case_bool_decide as Hallow; simpl; (split_and!; try done).
  - split; [done|by eexists].
  - split; [by intros [? ?]|done].
Qed.
End explaining.

(** Texts that tell the elements of a list apart. *)
Lemma NoDup_map_inj {A} (f : A → string) l x y : NoDup (map f l) → x ∈ l → y ∈ l → f x = f y → x = y.
Proof.
  intros Hnd [i Hi]%list_elem_of_lookup [j Hj]%list_elem_of_lookup Hf.
  assert (i = j) as ->; [|congruence].
  apply (NoDup_lookup (f <$> l) i j (f x)); [exact Hnd| |]; rewrite list_lookup_fmap, ?Hi, ?Hj; simpl; congruence.
Qed.

(** ** Witnesses and examples *)

Definition demo_boot_env : gmap string string :=
  {["MANTLEKEEP_PLATFORM_CONFIG" := "etc/platform.json"; "MANTLEKEEP_TEAM_CONFIG" := "etc/team.json"]}.

(** The contents of the two files, by a word. *)
Definition demo_layer_file (content : string) : result string layerFile :=
  let bind role sealed := Ok (mkLayerFile ∅ {["deploy.prod" := role]} sealed) in
  if content =s? "seal" then bind RoleArchitect ["action:deploy.prod"]
  else if content =s? "typo" then bind RoleArchitect ["deploy.prod"]
  else if content =s? "loose" then bind RoleConsumer []
  else if content =s? "strict" then bind RoleSuperAdmin []
  else Err "unexpected end of JSON input".
Definition demo_files (platform team path : string) : result string string :=
  if path =s? "etc/platform.json" then Ok platform else Ok team.
Definition demo_layers_hash (ls : list Layer) : string :=
  Join (flat_map (λ l, lay_Name l :: lay_Sealed l ++ flat_map (λ kv : string * Role, [kv.1; kv.2]) (map_to_list (lay_ActionRoles l))) ls) ",".
Definition demo_documents : grantsSnapshot := mkGrantsSnapshot ∅ ∅ ∅ "r1".

Definition demo_build (platform team : string) : result startup_error (Door ListBucket) :=
  BuildDoor demo_boot_env demo_layers_hash demo_layer_file (λ _, None) (λ _, Err "no such directory") (λ dir name, dir +:+ "/" +:+ name)
    (demo_files platform team) (Mock_Resolver builtin_origin NewMock) None [] (Ok demo_documents) (Ok demo_log1).

Definition demo_deploy (who : string) : Intent :=
  {| int_ID := "i-9"; int_Subject := plain_subject who [RoleSuperAdmin] false; int_Action := "deploy.prod";
     int_Resource := "app/ledger"; int_Spec := mkIntentSpec "release 1.4" [] "low" [] [] ""; int_Params := ∅;
     int_SubmittedAt := 1; int_TTL := 0; int_Via := "cli" |}.

Definition demo_run (ops : list door_op) (d : Door ListBucket) : Door ListBucket :=
  run_door demo_ParseFloat demo_boot_env demo_layers_hash demo_layer_file demo_sha d ops.
Definition demo_ask (who : string) (d : Door ListBucket) : result go_error ExecutionToken * Door ListBucket :=
  submit demo_ParseFloat demo_boot_env demo_sha (λ _, demo_documents) 10 11 "tok" (demo_deploy who) d.
Definition demo_allowed (built : result startup_error (Door ListBucket)) (ops : list door_op) (who : string) : bool :=
  match built with Ok d => is_ok (demo_ask who (demo_run ops d)).1 | Err _ => false end.

Definition demo_ops : list door_op :=
  [OpPoll (demo_files "" "loose"); OpSubmit (λ _, demo_documents) 5 6 "t0" (demo_deploy "root");
   OpTrip; OpPoll (demo_files "seal" "strict"); OpReset].

(** Under the sealed floor a consumer is refused whatever the team's file says, and the
    team can still ask for more. *)
Example demo_floor :
  map (demo_allowed (demo_build "seal" "loose") []) ["root"; "arch-carol"; "dev-alice"] = [true; true; false] ∧
  map (demo_allowed (demo_build "seal" "loose") demo_ops) ["root"; "arch-carol"; "dev-alice"] = [true; false; false].
Proof. by vm_compute. Qed.

(** A reload is not validated: a layer the process refuses to start with is put in force by
    the next poll. Here the platform's seal lost its prefix, so it seals nothing, and the
    team's file opens the action to every consumer. *)
Example hot_reload_accepts_what_the_start_refuses :
  is_ok (demo_build "typo" "loose") = false ∧
  map (demo_allowed (demo_build "seal" "loose") [OpPoll (demo_files "typo" "loose")]) ["arch-carol"; "dev-alice"] = [true; true].
Proof. by vm_compute. Qed.

(** A poll interval of three hundred years is a negative one. *)
Example a_long_interval_is_negative :
  (reloadInterval {["MANTLEKEEP_POLICY_RELOAD" := "9300000000"]} < 0)%Z.
Proof. by vm_compute. Qed.

(** Without a goal the two part: over a tripped fail-safe a read is explained as allowed
    and refused by the door. *)
Definition demo_goalless : Intent :=
  {| int_ID := "i-10"; int_Subject := plain_subject "dev-alice" [] false; int_Action := "estate.read";
     int_Resource := "team/payments"; int_Spec := mkIntentSpec "" [] "low" [] [] ""; int_Params := ∅;
     int_SubmittedAt := 1; int_TTL := 0; int_Via := "cli" |}.
Example explained_without_a_goal :
  match demo_build "seal" "loose" with
  | Ok d =>
      let d := with_tripped d true in
      match (Explain (Ports0 := door_ports demo_ParseFloat demo_boot_env demo_sha) true demo_goalless d).1,
            (Submit (Ports0 := door_ports demo_ParseFloat demo_boot_env demo_sha) 1 2 "t" demo_goalless d).1 with
      | Ok (_, decision), Err (ErrorDecision refused) => dec_Action decision = ActionAllow ∧ dec_Action refused = ActionDeny
      | _, _ => False
      end
  | Err _ => False
  end.
Proof. by vm_compute. Qed.

Definition demo_door : Door ListBucket :=
  match demo_build "seal" "loose" with
  | Ok d => d
  | Err _ => mkDoor (Mock_Resolver builtin_origin NewMock) (mkLiveEngine NewRBAC (NewWatcher demo_layers_hash (Resolve ∅ []) None ∅ []) false)
               None false (λ _, demo_documents) demo_log1
  end.
Definition demo_layers : list Layer :=
  match layers_now demo_boot_env demo_layer_file (demo_files "seal" "loose") with Ok ls => ls | Err _ => [] end.

Lemma demo_door_built : demo_build "seal" "loose" = Ok demo_door.
Proof.
  unfold demo_door. destruct (demo_build "seal" "loose") eqn:E; [done|].
  apply (f_equal is_ok) in E. vm_compute in E. discriminate E.
Qed.
Lemma demo_layers_read : layers_now demo_boot_env demo_layer_file (demo_files "seal" "loose") = Ok demo_layers.
Proof.
  unfold demo_layers. destruct (layers_now _ _ _) eqn:E; [done|].
  apply (f_equal is_ok) in E. vm_compute in E. discriminate E.
Qed.

(** The super admin's token under the strict team file, after the polls of [demo_ops]. *)
Lemma sealed_floor_holds_while_running_witness :
  is_ok (demo_ask "root" (demo_run demo_ops demo_door)).1 = true ∧
  ∃ subject, rv_Resolve (Mock_Resolver builtin_origin NewMock) (external_of (demo_deploy "root")) = Ok subject ∧
    (holdsAtLeast (LadderFrom demo_layers) (sub_Roles subject) RoleArchitect = true ∨
     door_tripped (demo_run demo_ops demo_door) = true ∧ isRead (int_Action (demo_deploy "root")) = true).
Proof.
  split; [by vm_compute|].
  destruct (demo_ask "root" (demo_run demo_ops demo_door)).1 as [tok|e] eqn:Htok.
  2: { exfalso. apply (f_equal is_ok) in Htok. vm_compute in Htok. discriminate Htok. }
  apply (sealed_floor_holds_while_running demo_ParseFloat demo_boot_env demo_layers_hash demo_layer_file (λ _, None)
    (λ _, Err "no such directory") (λ dir name, dir +:+ "/" +:+ name) demo_sha (demo_files "seal" "loose")
    (Mock_Resolver builtin_origin NewMock) [] (Ok demo_documents) (Ok demo_log1) demo_door demo_layers demo_ops
    (λ _, demo_documents) 10 11 "tok" (demo_deploy "root") tok
    (take 2 (cascade_layers demo_boot_env demo_layer_file demo_door demo_layers demo_ops (demo_deploy "root")))
    (drop 2 (cascade_layers demo_boot_env demo_layer_file demo_door demo_layers demo_ops (demo_deploy "root"))) RoleArchitect).
  - exact demo_door_built.
  - exact demo_layers_read.
  - assert (NoDup (map demo_layers_hash (seen demo_layers (loads demo_boot_env demo_layer_file demo_ops)))) as Hnd
      by (apply (bool_decide_unpack _); by vm_compute).
    intros l1 l2 H1 H2 Hh. exact (NoDup_map_inj demo_layers_hash _ l1 l2 Hnd H1 H2 Hh).
  - by rewrite take_drop.
  - apply (bool_decide_unpack _). by vm_compute.
  - by vm_compute.
  - exact Htok.
Defined.

Lemma explain_agrees_with_the_door_witness :
  (match (Explain (Ports0 := door_ports demo_ParseFloat demo_boot_env demo_sha) true (demo_deploy "arch-carol") demo_door).1 with
   | Ok (subject, decision) => sub_Roles subject = [RoleArchitect] ∧ dec_Action decision = ActionAllow
   | Err _ => False
   end) ∧
  ∃ x d', Explain (Ports0 := door_ports demo_ParseFloat demo_boot_env demo_sha) true (demo_deploy "arch-carol") demo_door = (x, d') ∧
    door_audit d' = door_audit demo_door.
Proof.
  split; [by vm_compute|]. destruct (Explain true (demo_deploy "arch-carol") demo_door) as [x d'] eqn:Hx. exists x, d'. split; [done|].
  assert (settled (demo_run [] demo_door)) as Hset by (eapply run_settled, demo_door_built).
  apply (explain_agrees_with_the_door demo_ParseFloat demo_boot_env demo_sha demo_door (demo_deploy "arch-carol") 1 2 "t" x d').
  - exact Hset.
  - done.
  - exact Hx.
Defined.
