(* ===== verification/PolicySources.v ===== *)
(** Where the policy documents are read from: [mantlekeep-control/grants] (the readers of
    [grants.go], [floors.go], [merge.go], and [EnvSource] of [loader.go]) and
    [internal/safeio].

    The environment is a map; the file system is a record of what the three calls the code
    makes return at one moment. [filepath.Clean], the lenient JSON decoders, the encoders of
    the canonical form and SHA-256 are arguments. [Grants] says what the documents, once
    read, amount to. *)
From S2P Require Import Prelude Contracts Grants Startup.

(** ** internal/safeio *)

(** The files at one moment: what [os.ReadFile], [os.Stat] (is it a directory) and
    [os.ReadDir] (the names, and which are directories) return. *)
Record FileSystem := mkFileSystem {
  fs_ReadFile : string → result string string;
  fs_IsDir : string → result string bool;
  fs_ReadDir : string → result string (list (string * bool));
}.

Section safeio.
Context (filepath_Clean : string → string).

Definition CleanConfigPath (path : string) : result string string :=
  refuse path =s? "" with "config path is empty" ;
  let clean := filepath_Clean path in
  refuse (clean =s? "..") || HasPrefix clean "../" || Contains clean "/../" || HasSuffix clean "/.."
    with "config path " +:+ Quote path +:+ " escapes upward via " +:+ Quote ".." ;
  Ok clean.

Definition ReadConfigFile (fs : FileSystem) (path : string) : result string string :=
  clean <-? CleanConfigPath path ; fs_ReadFile fs clean.
Definition StatConfigPath (fs : FileSystem) (path : string) : result string bool :=
  clean <-? CleanConfigPath path ; fs_IsDir fs clean.
End safeio.

(** ** The variables *)

Definition EnvOverride : string := "MANTLEKEEP_POLICY_GRANTS".
Definition FloorsEnvOverride : string := "MANTLEKEEP_POLICY_FLOORS".
Definition PolicyDirEnv : string := "MANTLEKEEP_POLICY_DIR".
Definition PlatformPolicyEnv : string := "MANTLEKEEP_PLATFORM_POLICY".

(** [fmt.Errorf] with [%w] around an error that is only text. *)
Definition wrapped {A} (what : string) (r : result string A) : result go_error A :=
  match r with Ok a => Ok a | Err e => Err (ErrorText (what +:+ ": " +:+ e)) end.

Definition with_source (source : string) (d : productDoc) : productDoc :=
  mkProductDoc (doc_RoleActions d) (doc_ApprovalActions d) (doc_Floors d) (doc_SealedActions d) source.

Section sources.
Context (filepath_Clean : string → string).
Context (DecodeGrants : string → result string Grants) (DecodeFloors : string → result string Floors).
Context (DecodeDoc : string → result string productDoc) (defaultDoc defaultFloorsDoc : string).
Context (env : gmap string string).

Definition readOverride (fs : FileSystem) (v : string) : result string string :=
  if HasPrefix v "{" then Ok v else ReadConfigFile filepath_Clean fs v.

Definition baselineGrants (fs : FileSystem) : result go_error Grants :=
  let v := os_Getenv env EnvOverride in
  doc <-? (if v =s? "" then Ok defaultDoc else wrapped "policy grants override" (readOverride fs v)) ;
  wrapped "policy grants" (DecodeGrants doc).

(** The document [LoadFloors] starts from. *)
Definition baselineFloors (fs : FileSystem) : result go_error Floors :=
  let v := os_Getenv env FloorsEnvOverride in
  doc <-? (if v =s? "" then Ok defaultFloorsDoc else wrapped "policy floors override" (readOverride fs v)) ;
  wrapped "policy floors" (DecodeFloors doc).

Definition platformDoc (fs : FileSystem) : result go_error (option productDoc) :=
  let v := os_Getenv env PlatformPolicyEnv in
  if v =s? "" then Ok None
  else let what := "platform policy " +:+ Quote v in
       b <-? wrapped what (readOverride fs v) ;
       d <-? wrapped what (DecodeDoc b) ;
       Ok (Some (with_source v d)).

(** [filepath.Join] of a directory and a name. *)
Definition filepath_Join (dir name : string) : string := filepath_Clean (dir +:+ "/" +:+ name).

Definition is_json_file (entry : string * bool) : bool := negb entry.2 && HasSuffix entry.1 ".json".
Definition jsonFilesIn (fs : FileSystem) (dir : string) : result string (list string) :=
  match fs_ReadDir fs dir with
  | Err e => Err e
  | Ok ents => Ok (map (λ entry, filepath_Join dir entry.1) (List.filter is_json_file ents))
  end.

(** The loop of [policyDocPaths], before the sort. *)
Fixpoint doc_paths (fs : FileSystem) (sources : list string) : result go_error (list string) :=
  match sources with
  | [] => Ok []
  | p :: sources =>
      if p =s? "" then doc_paths fs sources
      else
        isDir <-? wrapped ("policy source " +:+ Quote p) (StatConfigPath filepath_Clean fs p) ;
        files <-? (if (isDir : bool) then match jsonFilesIn fs p with Ok files => Ok files | Err e => Err (ErrorText e) end
                   else Ok [p]) ;
        rest <-? doc_paths fs sources ;
        Ok (files ++ rest)
  end.
Definition policyDocPaths (fs : FileSystem) (pathList : string) : result go_error (list string) :=
  files <-? doc_paths fs (SplitByte ":" pathList) ; Ok (sort_strings files).

Definition readPolicyDoc (fs : FileSystem) (path : string) : result go_error productDoc :=
  match ReadConfigFile filepath_Clean fs path with
  | Err e => Err (ErrorText e)
  | Ok b => d <-? wrapped ("policy doc " +:+ Quote path) (DecodeDoc b) ; Ok (with_source path d)
  end.

Definition productDocs (fs : FileSystem) : result go_error (list productDoc) :=
  let v := os_Getenv env PolicyDirEnv in
  if v =s? "" then Ok []
  else files <-? policyDocPaths fs v ; mapM_err (readPolicyDoc fs) files.

(** The documents of the environment. *)
Definition Load_env (fs : FileSystem) : result load_error Grants :=
  Load (baselineGrants fs) (platformDoc fs) (productDocs fs).
Definition LoadFloors_env (fs : FileSystem) : result load_error Floors :=
  LoadFloors (baselineFloors fs) (platformDoc fs) (productDocs fs).

Context (EncodeGrants : Grants → string) (EncodeFloors : Floors → string) (sha256_hex : string → string).

Definition RevisionOfDocuments (held : Grants) (floors : Floors) : string :=
  RevisionOf sha256_hex [EncodeGrants held; EncodeFloors floors].

(** [EnvSource.Load]: the files are read for the grants, and again for the floors. *)
Definition EnvSource_Load (first second : FileSystem) : result load_error (Grants * Floors * string) :=
  g <-? Load_env first ;
  f <-? LoadFloors_env second ;
  Ok (g, f, RevisionOfDocuments g f).

(** [MustLoad]: [None] is the panic. *)
Definition MustLoad (fs : FileSystem) : option Grants := match Load_env fs with Ok g => Some g | Err _ => None end.
Definition MustLoadFloors (fs : FileSystem) : option Floors := match LoadFloors_env fs with Ok f => Some f | Err _ => None end.

(** ** Which files are policy *)

(** A source is read as itself, or, when it is a directory, as the JSON files in it. *)
Definition policy_file (fs : FileSystem) (source file : string) : Prop :=
  (StatConfigPath filepath_Clean fs source = Ok false ∧ file = source) ∨
  (StatConfigPath filepath_Clean fs source = Ok true ∧ ∃ ents name,
     fs_ReadDir fs source = Ok ents ∧ (name, false) ∈ ents ∧ HasSuffix name ".json" = true ∧ file = filepath_Join source name).

Lemma doc_paths_exactly fs sources files : doc_paths fs sources = Ok files →
  ∀ file, file ∈ files ↔ ∃ source, source ∈ sources ∧ source ≠ "" ∧ policy_file fs source file.
Proof.
  revert files. induction sources as [|p sources IH]; intros files; cbn [doc_paths].
  { intros [= <-] file. split; [by intros ?%not_elem_of_nil|]. intros (? & []%not_elem_of_nil & _). }
  destruct (p =s? "") eqn:Ep; autorewrite with mk in Ep.
  { intros H file. rewrite (IH _ H). set_solver. }
  rewrite rbind_Ok. intros (isDir & Hs & H). apply rbind_Ok in H as (mine & Hm & H). apply rbind_Ok in H as (rest & Hr & [= <-]).
  assert (StatConfigPath filepath_Clean fs p = Ok isDir) as Hst by (unfold wrapped in Hs; destruct (StatConfigPath _ _ _); by simplify_eq).
  intros file. rewrite elem_of_app, (IH _ Hr). setoid_rewrite elem_of_cons.
  assert (file ∈ mine ↔ policy_file fs p file) as ->; [|set_solver].
  unfold policy_file. rewrite Hst. destruct isDir.
  - unfold jsonFilesIn in Hm. destruct (fs_ReadDir fs p) as [ents|]; [|done]. injection Hm as <-. rewrite elem_of_map. split.
    + intros ([name dir] & -> & Hin). right. split; [done|]. apply list_elem_of_In, filter_In in Hin as [Hin%list_elem_of_In Hj].
      unfold is_json_file in Hj. apply andb_true_iff in Hj as [Hd Hj]. destruct dir; [done|]. by exists ents, name.
    + intros [[? _]|(_ & ents' & name & [= <-] & Hin & Hj & ->)]; [done|]. exists (name, false). split; [done|].
      apply list_elem_of_In, filter_In. split; [by apply list_elem_of_In|done].
  - injection Hm as <-. rewrite list_elem_of_singleton. split; [intros ->; by left|]. intros [[_ ?]|[? _]]; done.
Qed.
Lemma productDocs_Ok fs docs : productDocs fs = Ok docs →
  ∃ files, Sorted String.le files ∧ Forall2 (λ file d, readPolicyDoc fs file = Ok d) files docs ∧
    ∀ file, file ∈ files ↔
      ∃ source, source ∈ SplitByte ":" (os_Getenv env PolicyDirEnv) ∧ source ≠ "" ∧ policy_file fs source file.
Proof.
  unfold productDocs. destruct (os_Getenv env PolicyDirEnv =s? "") eqn:E; autorewrite with mk in E.
  { intros [= <-]. rewrite E. exists []. split; [constructor|]. split; [constructor|]. intros file.
    split; [by intros ?%not_elem_of_nil|]. intros (? & ->%list_elem_of_singleton & ? & _). done. }
  rewrite rbind_Ok. unfold policyDocPaths. intros (files & Hf & Hd). apply rbind_Ok in Hf as (unsorted & Hu & [= <-]).
  exists (sort_strings unsorted). split; [apply Sorted_merge_sort, _|]. split; [by apply mapM_err_Ok|].
  intros file. rewrite elem_of_sort_strings. by apply doc_paths_exactly.
Qed.

(** The documents of the environment, and how they combine. *)
Definition layered (fs : FileSystem) (g : Grants) (f : Floors) : Prop :=
  ∃ base floors plat files docs,
    baselineGrants fs = Ok base ∧ baselineFloors fs = Ok floors ∧ platformDoc fs = Ok plat ∧
    Sorted String.le files ∧ Forall2 (λ file d, readPolicyDoc fs file = Ok d) files docs ∧
    (∀ file, file ∈ files ↔
       ∃ source, source ∈ SplitByte ":" (os_Getenv env PolicyDirEnv) ∧ source ≠ "" ∧ policy_file fs source file) ∧
    (∀ r a, grants_to (RoleActions g) r a ↔
       grants_to (RoleActions base) r a ∨ platform_grants plat r a ∨ ∃ d, d ∈ docs ∧ grants_to (doc_RoleActions d) r a) ∧
    (∀ d r a, d ∈ docs → grants_to (doc_RoleActions d) r a → ¬ platform_owned plat a) ∧
    (∀ action, get_list f action = get_list floors action ++
       match plat with Some p => get_list (doc_Floors p) action | None => [] end ++
       flat_map (λ d, get_list (doc_Floors d) action) docs).

(** C24: the policy a process reads is what its environment names. While the files stand
    still, a successful load holds the permissions of exactly the baseline (or the document
    that overrides it), the platform's document and the product documents, which are
    the files listed in the policy path and the JSON files directly in its directories, in
    the order of their paths; no product document of them grants a verb the platform owns;
    an action's floors are the baseline's, then the platform's, then each product's in that
    order; and the revision is the digest of the two documents that resulted. *)
Theorem environment_policy_is_its_documents fs g f revision :
  EnvSource_Load fs fs = Ok (g, f, revision) → layered fs g f ∧ revision = RevisionOfDocuments g f.
Proof.
  unfold EnvSource_Load. rewrite rbind_Ok. intros (g' & Hg & H). apply rbind_Ok in H as (f' & Hf & [= <- <- <-]).
  split; [|done]. unfold Load_env, LoadFloors_env in *.
  destruct (baselineGrants fs) as [base|] eqn:Hb; [|done]. destruct (platformDoc fs) as [plat|] eqn:Hp; [|done].
  destruct (productDocs fs) as [docs|] eqn:Hd.
  2: { simpl in Hg. by destruct (applyPlatformLayer plat base). }
  destruct (baselineFloors fs) as [floors|] eqn:Hfl; [|done].
  destruct (productDocs_Ok fs docs Hd) as (files & Hs & Hr & Hin).
  destruct (load_seals_platform_verbs base plat docs) as [Hok Hload]. rewrite Hg in Hok.
  exists base, floors, plat, files, docs. split_and!; try done.
  - intros r a. apply (Hload g' Hg r a).
  - by apply Hok.
  - intros action. by apply LoadFloors_lookup.
Qed.
End sources.

(** ** Examples and witnesses *)

Definition demo_clean (path : string) : string := path.
Definition demo_rule : FloorRule := mkFloorRule "allowlist" "app" ["payments"] ∅ "" [] "" "" "" "only payments".
(** Product documents: one of an old release, and one that adds a permission together with
    the floor that bounds it. *)
Definition demo_decode_doc (b : string) : result string productDoc :=
  if b =s? "old" then Ok (mkProductDoc ∅ [] ∅ [] "")
  else if b =s? "new" then Ok (mkProductDoc {["L2-Operator" := ["deploy.prod"]]} [] {["deploy.prod" := [demo_rule]]} [] "")
  else if b =s? "platform" then Ok (mkProductDoc {["L0-SuperAdmin" := ["policy.grant"]]} [] ∅ ["audit.erase"] "")
  else Err "invalid character".
Definition demo_env : gmap string string :=
  {[PolicyDirEnv := "policies:"; PlatformPolicyEnv := "platform.json"]}.
Definition demo_fs (content : string) : FileSystem := mkFileSystem
  (λ p, if p =s? "policies/b.json" then Ok content else if p =s? "policies/a.json" then Ok "old"
        else if p =s? "platform.json" then Ok "platform" else Err "no such file")
  (λ p, if p =s? "policies" then Ok true else Err "no such file")
  (λ p, Ok [("b.json", false); ("notes.txt", false); ("sub.json", true); ("a.json", false)]).
Definition demo_load (first second : FileSystem) : result load_error (Grants * Floors * string) :=
  EnvSource_Load demo_clean (λ _, Ok (mkGrants ∅ [])) (λ _, Ok ∅) demo_decode_doc "{}" "{}" demo_env
    (λ _, "grants") (λ _, "floors") id first second.

(** The files are read once for the grants and once for the floors. A release that retires
    a permission together with its floor, landing between the two readings, leaves the
    permission in force without the floor until the next load. *)
Example a_torn_load_grants_without_its_floor :
  match demo_load (demo_fs "new") (demo_fs "old") with
  | Ok (g, f, _) => get_list (RoleActions g) "L2-Operator" = ["deploy.prod"] ∧ get_list f "deploy.prod" = []
  | Err _ => False
  end.
Proof. by vm_compute. Qed.

Definition demo_loaded : Grants * Floors * string :=
  match demo_load (demo_fs "new") (demo_fs "new") with Ok d => d | Err _ => (mkGrants ∅ [], ∅, "") end.

Lemma environment_policy_is_its_documents_witness :
  get_list (RoleActions demo_loaded.1.1) "L2-Operator" = ["deploy.prod"] ∧
  get_list demo_loaded.1.2 "deploy.prod" = [demo_rule] ∧
  layered demo_clean (λ _, Ok (mkGrants ∅ [])) (λ _, Ok ∅) demo_decode_doc "{}" "{}" demo_env (demo_fs "new")
    demo_loaded.1.1 demo_loaded.1.2 ∧
  demo_loaded.2 = RevisionOfDocuments (λ _, "grants") (λ _, "floors") id demo_loaded.1.1 demo_loaded.1.2.
Proof.
  split; [by vm_compute|]. split; [by vm_compute|].
  apply (environment_policy_is_its_documents demo_clean (λ _, Ok (mkGrants ∅ [])) (λ _, Ok ∅) demo_decode_doc "{}" "{}" demo_env
    (λ _, "grants") (λ _, "floors") id (demo_fs "new") demo_loaded.1.1 demo_loaded.1.2 demo_loaded.2).
  by vm_compute.
Defined.
