(* ===== verification/PolicyReload.v ===== *)
(** Reloads of the policy under way at the same time: the loops of
    [internal/policy/grants_reload.go], what starts them ([app/policyreload.go]) and the call
    a product makes itself ([doorkit.ReloadPolicy]).

    A reload reads the live pointer, loads its source and stores a snapshot, and no lock holds
    the three together: they are separate steps here, and reloads and changes of the sources
    interleave in any order. *)
From S2P Require Import Prelude Contracts Cascade Grants Floors Engine Startup DoorAssembly PolicySources Snapshot.

Section reloading.
Context (RevisionOfDocuments : Grants → Floors → string).

(** What a [grants.Loader] returns at one moment. *)
Definition loaded : Type := result go_error (option Grants * option Floors * string).

(** ** The state *)

(** Where a reloader is: waiting for its ticker, past the read of the live pointer, past the
    load, or gone. *)
Inductive phase :=
| Waiting
| Entered (current : grantsSnapshot)
| Loaded (current : grantsSnapshot) (load : loaded)
| Ended.

(** A watcher: its source, and whether its hooks are set. *)
Record GrantsWatcher := mkGrantsWatcher {
  gw_source : nat;
  gw_onReload : bool;
  gw_onRefuse : bool;
  gw_phase : phase;
}.

Definition NewGrantsWatcher (source : nat) : GrantsWatcher := mkGrantsWatcher source false false Waiting.
Definition OnReload (w : GrantsWatcher) : GrantsWatcher := mkGrantsWatcher (gw_source w) true (gw_onRefuse w) (gw_phase w).
Definition OnRefuse (w : GrantsWatcher) : GrantsWatcher := mkGrantsWatcher (gw_source w) (gw_onReload w) true (gw_phase w).
Definition at_phase (w : GrantsWatcher) (p : phase) : GrantsWatcher := mkGrantsWatcher (gw_source w) (gw_onReload w) (gw_onRefuse w) p.

(** What each source holds, the live pointer, the reloaders, what the hooks were told, and how
    many reloads each reloader has finished. *)
Record Reloading := mkReloading {
  ry_sources : list loaded;
  ry_live : grantsSnapshot;
  ry_watchers : list GrantsWatcher;
  ry_told : list reload_event;
  ry_finished : nat → nat;
}.

Definition RevisionInForce (s : Reloading) : string := snap_revision (ry_live s).

(** ** The steps *)

Inductive event :=
| Publish (source : nat) (l : loaded)
| Tick (i : nat)
| LoadDocs (i : nat)
| Install (i : nat)
| Cancel (i : nat).

Definition set_phase (s : Reloading) (i : nat) (w : GrantsWatcher) (p : phase) : Reloading :=
  mkReloading (ry_sources s) (ry_live s) (<[i := at_phase w p]> (ry_watchers s)) (ry_told s) (ry_finished s).

(** The rest of [Reload] once the documents are there. *)
Definition installed (s : Reloading) (i : nat) (w : GrantsWatcher) (current : grantsSnapshot) (load : loaded) : Reloading :=
  let '((_, changed, _), snapshot) := ReloadGrants RevisionOfDocuments load current in
  let '(_, told) := GrantsWatcher_Reload RevisionOfDocuments (gw_onReload w) (gw_onRefuse w) load current in
  mkReloading (ry_sources s) (if changed : bool then snapshot else ry_live s) (<[i := at_phase w Waiting]> (ry_watchers s))
    (ry_told s ++ told) (λ j, if decide (j = i) then S (ry_finished s j) else ry_finished s j).

(** One step of the loop of [Start], or a source that changes. An event that is not possible
    changes nothing. *)
Definition step (s : Reloading) (e : event) : Reloading :=
  match e with
  | Publish source l => mkReloading (<[source := l]> (ry_sources s)) (ry_live s) (ry_watchers s) (ry_told s) (ry_finished s)
  | Tick i =>
      match ry_watchers s !! i with
      | Some w => match gw_phase w with Waiting => set_phase s i w (Entered (ry_live s)) | _ => s end
      | None => s
      end
  | LoadDocs i =>
      match ry_watchers s !! i with
      | Some w =>
          match gw_phase w, ry_sources s !! gw_source w with
          | Entered current, Some l => set_phase s i w (Loaded current l)
          | _, _ => s
          end
      | None => s
      end
  | Install i =>
      match ry_watchers s !! i with
      | Some w => match gw_phase w with Loaded current l => installed s i w current l | _ => s end
      | None => s
      end
  | Cancel i =>
      match ry_watchers s !! i with
      | Some w => match gw_phase w with Waiting => set_phase s i w Ended | _ => s end
      | None => s
      end
  end.

Definition run (s : Reloading) (es : list event) : Reloading := foldl step s es.

Lemma step_Tick s i w :
  ry_watchers s !! i = Some w → gw_phase w = Waiting → step s (Tick i) = set_phase s i w (Entered (ry_live s)).
Proof. intros Hi Hw. unfold step. by rewrite Hi, Hw. Qed.
Lemma step_LoadDocs s i w current l :
  ry_watchers s !! i = Some w → gw_phase w = Entered current → ry_sources s !! gw_source w = Some l →
  step s (LoadDocs i) = set_phase s i w (Loaded current l).
Proof. intros Hi Hw Hl. unfold step. by rewrite Hi, Hw, Hl. Qed.
Lemma step_Install s i w current l :
  ry_watchers s !! i = Some w → gw_phase w = Loaded current l → step s (Install i) = installed s i w current l.
Proof. intros Hi Hw. unfold step. by rewrite Hi, Hw. Qed.
Lemma set_phase_lookup s i w p w' : ry_watchers s !! i = Some w' → ry_watchers (set_phase s i w p) !! i = Some (at_phase w p).
Proof. intros Hi. apply list_lookup_insert_eq. by eapply lookup_lt_Some. Qed.

(** Undisturbed, a reload is [GrantsWatcher_Reload]. *)
Lemma undisturbed s i w l :
  ry_watchers s !! i = Some w → gw_phase w = Waiting → ry_sources s !! gw_source w = Some l →
  let '(_, live, told) := GrantsWatcher_Reload RevisionOfDocuments (gw_onReload w) (gw_onRefuse w) l (ry_live s) in
  let s' := run s [Tick i; LoadDocs i; Install i] in
  ry_live s' = live ∧ ry_told s' = ry_told s ++ told ∧ ry_watchers s' = ry_watchers s.
Proof.
  intros Hi Hw Hl. unfold run. cbn [foldl]. rewrite (step_Tick s i w) by done.
  rewrite (step_LoadDocs _ i (at_phase w (Entered (ry_live s))) (ry_live s) l); [|by eapply set_phase_lookup|done|done].
  rewrite (step_Install _ i (at_phase (at_phase w (Entered (ry_live s))) (Loaded (ry_live s) l)) (ry_live s) l); [|eapply set_phase_lookup; by eapply set_phase_lookup|done].
  unfold installed, GrantsWatcher_Reload. cbn [at_phase gw_onReload gw_onRefuse set_phase ry_watchers ry_live ry_told].
  destruct (ReloadGrants RevisionOfDocuments l (ry_live s)) as [[[inForce changed] err] live] eqn:E.
  assert (live = if changed then live else ry_live s) as Hlive.
  { unfold ReloadGrants in E. destruct l as [[[g f] rev]|]; [|by simplify_eq]. destruct (rev =s? _); [by simplify_eq|].
    destruct (buildSnapshot _ _ _); by simplify_eq. }
  assert (<[i := at_phase (at_phase w (Loaded (ry_live s) l)) Waiting]> (<[i := at_phase w (Loaded (ry_live s) l)]>
    (<[i := at_phase w (Entered (ry_live s))]> (ry_watchers s))) = ry_watchers s) as Hws.
  { rewrite !list_insert_insert_eq. apply list_insert_id. rewrite Hi. destruct w. cbn in Hw. by subst. }
  destruct err as [e|]; cbn [ry_live ry_told ry_watchers]; by rewrite <- Hlive.
Qed.

Lemma ReloadGrants_changed (l : loaded) current inForce err snapshot :
  ReloadGrants RevisionOfDocuments l current = (inForce, true, err, snapshot) →
  ∃ g f revision, l = Ok (Some g, Some f, revision) ∧ snapshot = snapshot_of RevisionOfDocuments (g, f).
Proof.
  unfold ReloadGrants. destruct l as [[[g f] revision]|]; [|done]. destruct (revision =s? _); [done|].
  destruct g as [g|], f as [f|]; try done. cbn [buildSnapshot]. intros [= _ _ <-]. by exists g, f, revision.
Qed.

Lemma installed_live s i w current l :
  ry_live (installed s i w current l) =
    (let '((_, changed, _), snapshot) := ReloadGrants RevisionOfDocuments l current in if changed then snapshot else ry_live s).
Proof. unfold installed. destruct (ReloadGrants _ _ _) as [[[? ?] ?] ?]. by destruct (GrantsWatcher_Reload _ _ _ _ _) as [[? ?] ?]. Qed.
Lemma installed_watchers s i w current l : ry_watchers (installed s i w current l) = <[i := at_phase w Waiting]> (ry_watchers s).
Proof. unfold installed. destruct (ReloadGrants _ _ _) as [[[? ?] ?] ?]. by destruct (GrantsWatcher_Reload _ _ _ _ _) as [[? ?] ?]. Qed.
Lemma installed_sources s i w current l : ry_sources (installed s i w current l) = ry_sources s.
Proof. unfold installed. destruct (ReloadGrants _ _ _) as [[[? ?] ?] ?]. by destruct (GrantsWatcher_Reload _ _ _ _ _) as [[? ?] ?]. Qed.
Lemma installed_told s i w current l :
  ry_told (installed s i w current l) = ry_told s ++ (GrantsWatcher_Reload RevisionOfDocuments (gw_onReload w) (gw_onRefuse w) l current).2.
Proof. unfold installed. destruct (ReloadGrants _ _ _) as [[[? ?] ?] ?]. by destruct (GrantsWatcher_Reload _ _ _ _ _) as [[? ?] ?]. Qed.
Lemma installed_finished s i w current l :
  ry_finished (installed s i w current l) = λ j, if decide (j = i) then S (ry_finished s j) else ry_finished s j.
Proof. unfold installed. destruct (ReloadGrants _ _ _) as [[[? ?] ?] ?]. by destruct (GrantsWatcher_Reload _ _ _ _ _) as [[? ?] ?]. Qed.

(** ** What is in force *)

(** The documents a source has handed out, and those of the boot. *)
Definition published (es : list event) : list loaded := omap (λ e, match e with Publish _ l => Some l | _ => None end) es.

Definition from_documents (seen : list loaded) (s : grantsSnapshot) : Prop :=
  ∃ g f revision, Ok (Some g, Some f, revision) ∈ seen ∧ s = snapshot_of RevisionOfDocuments (g, f).

Record sound (seen : list loaded) (s : Reloading) : Prop := {
  so_live : from_documents seen (ry_live s);
  so_sources l : l ∈ ry_sources s → l ∈ seen;
  so_loaded i w current l : ry_watchers s !! i = Some w → gw_phase w = Loaded current l → l ∈ seen;
}.

Lemma sound_step seen s e :
  sound seen s → (∀ source l, e = Publish source l → l ∈ seen) → sound seen (step s e).
Proof.
  intros [H1 H2 H3] He.
  assert (∀ i w p, (∀ current l, p = Loaded current l → l ∈ seen) → sound seen (set_phase s i w p)) as Hphase.
  { intros i w p Hp. split; [done|done|]. intros j w' current l Hj Hw. apply list_lookup_insert_Some in Hj as [(-> & <- & _)|[_ Hj]];
      [by eapply Hp|by eapply H3]. }
  destruct e as [source l|i|i|i|i]; unfold step.
  - split; [done| |done]. cbn. intros l' Hl'. apply list_elem_of_lookup_1 in Hl' as [j Hj].
    apply list_lookup_insert_Some in Hj as [(_ & <- & _)|[_ Hj]]; [by eapply He|by eapply H2, list_elem_of_lookup_2].
  - destruct (ry_watchers s !! i) as [w|] eqn:Hi; [|done]. destruct (gw_phase w); try done. by apply Hphase.
  - destruct (ry_watchers s !! i) as [w|] eqn:Hi; [|done]. destruct (gw_phase w); try done.
    destruct (ry_sources s !! gw_source w) as [l|] eqn:Hl; [|done]. apply Hphase. intros ? ? [= _ <-]. by eapply H2, list_elem_of_lookup_2.
  - destruct (ry_watchers s !! i) as [w|] eqn:Hi; [|done]. destruct (gw_phase w) as [| |current l|] eqn:Hw; try done.
    pose proof (H3 _ _ _ _ Hi Hw) as Hl. split; [| |].
    + rewrite installed_live. destruct (ReloadGrants _ l current) as [[[inForce changed] err] snapshot] eqn:E. destruct changed; [|done].
      apply ReloadGrants_changed in E as (g & f & revision & -> & ->). by exists g, f, revision.
    + by rewrite installed_sources.
    + intros j w' c l' Hj Hw'. rewrite installed_watchers in Hj. apply list_lookup_insert_Some in Hj as [(_ & <- & _)|[_ Hj]]; [done|by eapply H3].
  - destruct (ry_watchers s !! i) as [w|] eqn:Hi; [|done]. destruct (gw_phase w); try done. by apply Hphase.
Qed.

(** Nothing but documents that some source handed out, whole, is ever in force, however many
    reloads overlap and however their sources change under them. *)
Lemma in_force_was_published s es :
  (∀ i w, ry_watchers s !! i = Some w → gw_phase w = Waiting) →
  from_documents (ry_sources s) (ry_live s) → from_documents (ry_sources s ++ published es) (ry_live (run s es)).
Proof.
  intros Hw Hlive. set (seen := ry_sources s ++ published es).
  assert (sound seen s) as Hs.
  { split; [|set_solver|intros i w current l Hi Hp; by rewrite (Hw _ _ Hi) in Hp].
    destruct Hlive as (g & f & r & Hin & ->). exists g, f, r. split; [apply elem_of_app; by left|done]. }
  assert (∀ source l, Publish source l ∈ es → l ∈ seen) as Hes.
  { intros source l Hin. apply elem_of_app. right. apply list_elem_of_omap. by exists (Publish source l). }
  clear Hw Hlive. clearbody seen. unfold run. revert s Hs. induction es as [|e es IH]; intros s Hs; [apply Hs|]. cbn [foldl]. apply IH.
  - intros source l Hin. apply (Hes source). by right.
  - apply sound_step; [done|]. intros source l ->. apply (Hes source). by left.
Qed.

(** ** Settling *)

Section settling.
Context (g : Grants) (f : Floors).
Definition source_now : loaded := Ok (Some g, Some f, RevisionOfDocuments g f).
Notation wanted := (snapshot_of RevisionOfDocuments (g, f)).

(** From [before] on the sources all hold the one pair of documents. *)
Context (before : Reloading) (alike : snap_revision (ry_live before) = RevisionOfDocuments g f → ry_live before = wanted).

(** What a reload has read of the live pointer. *)
Definition read (s : Reloading) (current : grantsSnapshot) : Prop :=
  current = ry_live before ∨ current = wanted ∧ ry_live s = wanted.

Record settling (s : Reloading) : Prop := {
  se_sources l : l ∈ ry_sources s → l = source_now;
  se_enough i w : ry_watchers s !! i = Some w → gw_source w < length (ry_sources s);
  se_live : ry_live s = ry_live before ∨ ry_live s = wanted;
  se_phase i w : ry_watchers s !! i = Some w →
    match gw_phase w with Entered current => read s current | Loaded current l => read s current ∧ l = source_now | _ => True end;
  se_finished i : ry_finished before i < ry_finished s i → ry_live s = wanted;
  se_told : ∃ told, ry_told s = ry_told before ++ told ∧ ∀ e, e ∈ told → e = Reloaded (RevisionOfDocuments g f);
}.

(** A reload of those documents installs them, or finds them in force. *)
Lemma reload_wanted s current :
  (ry_live s = ry_live before ∨ ry_live s = wanted) → read s current →
  let '((_, changed, err), snapshot) := ReloadGrants RevisionOfDocuments source_now current in
  err = None ∧ (if changed then snapshot else ry_live s) = wanted ∧ (changed = true → snap_revision snapshot = RevisionOfDocuments g f).
Proof.
  intros Hlive Hread. unfold ReloadGrants, source_now. destruct (RevisionOfDocuments g f =s? snap_revision current) eqn:E.
  - apply eqs_true in E. split; [done|]. split; [|done]. destruct Hread as [->|[_ ?]]; [|done].
    specialize (alike (eq_sym E)). destruct Hlive as [->| ->]; done.
  - cbn. by split_and!.
Qed.

Lemma settling_set_phase s i w p :
  settling s → ry_watchers s !! i = Some w →
  match p with Entered current => read s current | Loaded current l => read s current ∧ l = source_now | _ => True end →
  settling (set_phase s i w p).
Proof.
  intros S Hi Hp. destruct S as [H1 H2 H3 H4 H5 H6]. split; try done.
  - intros j w' Hj. apply list_lookup_insert_Some in Hj as [(-> & <- & _)|[_ Hj]]; [by apply (H2 _ _ Hi)|by eapply H2].
  - intros j w' Hj. apply list_lookup_insert_Some in Hj as [(-> & <- & _)|[_ Hj]]; [exact Hp|by apply (H4 _ _ Hj)].
Qed.

Lemma settling_step s e : settling s → (∀ source l, e ≠ Publish source l) → settling (step s e).
Proof.
  intros S He. destruct e as [source l|i|i|i|i]; unfold step; [by destruct (He source l)|..];
    (destruct (ry_watchers s !! i) as [w|] eqn:Hi; [|done]); pose proof (se_phase _ S _ _ Hi) as Hp; destruct (gw_phase w) as [|current|current l|] eqn:Hw; try done.
  - apply settling_set_phase; [done..|]. destruct (se_live _ S) as [E|E]; [by left|by right].
  - destruct (ry_sources s !! gw_source w) as [l|] eqn:Hl; [|done]. apply settling_set_phase; [done..|]. split; [done|].
    apply (se_sources _ S). by eapply list_elem_of_lookup_2.
  - destruct Hp as [Hread ->]. pose proof (reload_wanted s current (se_live _ S) Hread) as Hr.
    destruct S as [H1 H2 H3 H4 H5 H6]. set (s' := installed s i w current source_now).
    assert (ry_live s' = wanted) as Hlive.
    { unfold s'. rewrite installed_live. destruct (ReloadGrants _ _ _) as [[[? ?] ?] ?]. by destruct Hr as (_ & ? & _). }
    split.
    + unfold s'. by rewrite installed_sources.
    + unfold s'. rewrite installed_sources, installed_watchers. intros j w' Hj.
      apply list_lookup_insert_Some in Hj as [(-> & <- & _)|[_ Hj]]; [by apply (H2 _ _ Hi)|by eapply H2].
    + by right.
    + intros j w' Hj. unfold s' in Hj. rewrite installed_watchers in Hj. apply list_lookup_insert_Some in Hj as [(-> & <- & _)|[_ Hj]]; [done|].
      specialize (H4 _ _ Hj). unfold read in *. destruct (gw_phase w') as [|c|c l|]; [done| | |done]; rewrite Hlive; naive_solver.
    + done.
    + destruct H6 as (told & Ht & Hall). unfold s'. rewrite installed_told, Ht. eexists. split; [by rewrite <- app_assoc|].
      intros e [He'|He']%elem_of_app; [by apply Hall|]. unfold GrantsWatcher_Reload in He'.
      destruct (ReloadGrants _ _ _) as [[[inForce changed] err] snapshot] eqn:E. destruct Hr as (-> & _ & Hrev). cbn [snd] in He'.
      destruct changed, (gw_onReload w); try (by apply not_elem_of_nil in He'). apply list_elem_of_singleton in He' as ->.
      f_equal. rewrite <- (Hrev eq_refl). unfold ReloadGrants, source_now in E. destruct (_ =s? _); [done|]. cbn in E. by injection E as <- <-.
  - by apply settling_set_phase.
Qed.

Lemma settling_run s es : settling s → (∀ source l, Publish source l ∉ es) → settling (run s es).
Proof.
  revert s. induction es as [|e es IH]; intros s S Hes; [done|]. unfold run. cbn [foldl]. apply IH; [|set_solver].
  apply settling_step; [done|]. intros source l ->. apply (Hes source l). by left.
Qed.

(** *** Progress *)

(** How far reloader [i] has come since [before]: three for each reload it has finished, and
    where it is in the one under way. *)
Definition progress (i : nat) (s : Reloading) : nat :=
  3 * (ry_finished s i - ry_finished before i) +
  match gw_phase <$> ry_watchers s !! i with Some (Entered _) => 1 | Some (Loaded _ _) => 2 | _ => 0 end.

Definition phase_index (p : phase) : nat := match p with Entered _ => 1 | Loaded _ _ => 2 | _ => 0 end.

Lemma progress_at i s w :
  ry_watchers s !! i = Some w → progress i s = 3 * (ry_finished s i - ry_finished before i) + phase_index (gw_phase w).
Proof. unfold progress. intros ->. cbn. by destruct (gw_phase w). Qed.

Lemma watchers_set_phase s i j w p w' :
  ry_watchers s !! j = Some w → ry_watchers s !! i = Some w' →
  ry_watchers (set_phase s j w p) !! i = Some (if decide (i = j) then at_phase w p else w').
Proof.
  intros Hj Hi. cbn [set_phase ry_watchers]. destruct (decide (i = j)) as [->|Hne].
  - rewrite list_lookup_insert_eq by (by eapply lookup_lt_Some). done.
  - by rewrite list_lookup_insert_ne.
Qed.

(** The reloader an event is of. *)
Definition event_of (e : event) : option nat :=
  match e with Tick i | LoadDocs i | Install i | Cancel i => Some i | Publish _ _ => None end.

Lemma step_other i s e :
  event_of e ≠ Some i → ry_watchers (step s e) !! i = ry_watchers s !! i ∧ ry_finished (step s e) i = ry_finished s i.
Proof.
  intros He. destruct e as [source l|j|j|j|j]; cbn [event_of] in He; unfold step; [done|..]; assert (j ≠ i) as Hne by congruence;
    (destruct (ry_watchers s !! j) as [w|] eqn:Hj; [|done]); destruct (gw_phase w) as [|current|current l|]; try done.
  - cbn. by rewrite list_lookup_insert_ne.
  - destruct (ry_sources s !! gw_source w); [|done]. cbn. by rewrite list_lookup_insert_ne.
  - rewrite installed_watchers, installed_finished, list_lookup_insert_ne by done. by rewrite decide_False.
  - cbn. by rewrite list_lookup_insert_ne.
Qed.

(** A reloader that is there and not cancelled, and how far it has come at least. *)
Definition reached (i k : nat) (s : Reloading) : Prop :=
  settling s ∧ ry_finished before i ≤ ry_finished s i ∧ (∃ w, ry_watchers s !! i = Some w ∧ gw_phase w ≠ Ended) ∧ k ≤ progress i s.

(** The event a reloader waits for takes it on; the other events do not take it back. *)
Definition wakes (i k : nat) (e : event) : Prop :=
  e = Tick i ∧ k = 0 ∨ e = LoadDocs i ∧ k = 1 ∨ e = Install i ∧ k = 2.

(** An event that comes at the wrong moment. *)
#[local] Ltac no_move :=
  match goal with Hi : ry_watchers ?s !! ?i = Some ?w, Hw : gw_phase ?w = _, Hreach : context [step ?s ?e] |- _ =>
    let E := fresh in
    assert (step s e = s) as E by (unfold step; by rewrite Hi, Hw);
    rewrite E in Hreach |- *; eapply Hreach; [done|by rewrite Hw|done|by rewrite Hw|];
    rewrite Hw; cbn in *; intros [[??]|[[??]|[??]]]; simplify_eq; lia
  end.

Lemma reached_step i k s e :
  reached i k s → (∀ source l, e ≠ Publish source l) → e ≠ Cancel i →
  reached i k (step s e) ∧ (wakes i k e → reached i (S k) (step s e)).
Proof.
  intros (Hs & Hf & (w & Hi & Hne) & Hk) He Hc. pose proof (settling_step s e Hs He) as Hs'.
  destruct (decide (event_of e = Some i)) as [Hof|Hof].
  2: { destruct (step_other i s e Hof) as [Hw Hfin]. unfold reached, progress. rewrite Hw, Hfin. split; [split_and!; eauto|].
    intros [[-> _]|[[-> _]|[-> _]]]; by destruct Hof. }
  rewrite (progress_at _ _ _ Hi) in Hk.
  assert (∀ w', ry_watchers (step s e) !! i = Some w' → gw_phase w' ≠ Ended → ry_finished s i ≤ ry_finished (step s e) i →
    k ≤ 3 * (ry_finished (step s e) i - ry_finished before i) + phase_index (gw_phase w') →
    (wakes i k e → S k ≤ 3 * (ry_finished (step s e) i - ry_finished before i) + phase_index (gw_phase w')) →
    reached i k (step s e) ∧ (wakes i k e → reached i (S k) (step s e))) as Hreach.
  { intros w' Hw' Hne' Hfin H1 H2. unfold reached. rewrite (progress_at _ _ _ Hw'). split; [|intros Hwake]; (split; [done|]); (split; [lia|]); (split; [by exists w'|]); auto. }
  destruct e as [source l|j|j|j|j]; cbn [event_of] in Hof; try done; injection Hof as ->; [..|by destruct Hc];
    (destruct (gw_phase w) as [|current|current l|] eqn:Hw; try done).
  all: try by no_move.
  - rewrite (step_Tick s i w Hi Hw) in Hreach |- *. eapply Hreach; [by eapply set_phase_lookup|done|done|cbn in *; lia|cbn in *; lia].
  - destruct (lookup_lt_is_Some_2 (ry_sources s) (gw_source w) (se_enough _ Hs _ _ Hi)) as [l Hl].
    rewrite (step_LoadDocs s i w current l Hi Hw Hl) in Hreach |- *. eapply Hreach; [by eapply set_phase_lookup|done|done|cbn in *; lia|cbn in *; lia].
  - rewrite (step_Install s i w current l Hi Hw) in Hreach |- *.
    eapply Hreach; [rewrite installed_watchers; apply list_lookup_insert_eq; by eapply lookup_lt_Some|done|..];
      rewrite installed_finished, decide_True by done; cbn in *; lia.
Qed.

Lemma reached_run i k s es :
  reached i k s → (∀ source l, Publish source l ∉ es) → Cancel i ∉ es → reached i k (run s es).
Proof.
  revert s. induction es as [|e es IH]; intros s Hs Hes Hc; [done|]. unfold run. cbn [foldl]. apply IH; [|set_solver..].
  apply reached_step; [done| |set_solver]. intros source l ->. apply (Hes source l). by left.
Qed.

Lemma reached_along i k s e rest es :
  reached i k s → (∀ source l, Publish source l ∉ es) → Cancel i ∉ es → wakes i k e → e :: rest `sublist_of` es →
  ∃ done_ left_, es = done_ ++ left_ ∧ rest `sublist_of` left_ ∧ reached i (S k) (run s done_).
Proof.
  intros Hs Hes Hc Hw (l1 & l2 & -> & Hsub)%sublist_cons_l. exists (l1 ++ [e]), l2. rewrite <- app_assoc. split; [done|]. split; [done|].
  unfold run. rewrite foldl_app. cbn [foldl]. apply reached_step; [|intros source l ->; apply (Hes source l); set_solver|set_solver|done].
  apply reached_run; [done|set_solver|set_solver].
Qed.

Lemma settling_start :
  (∀ l, l ∈ ry_sources before → l = source_now) →
  (∀ i w, ry_watchers before !! i = Some w → gw_source w < length (ry_sources before) ∧ (gw_phase w = Waiting ∨ gw_phase w = Ended)) →
  settling before.
Proof.
  intros H1 H2. split; [done|intros i w Hi; by apply (H2 i)|by left| |intros; lia|exists []; rewrite app_nil_r; split; [done|by intros ? ?%not_elem_of_nil]].
  intros i w Hi. destruct (H2 _ _ Hi) as [_ [->| ->]]; done.
Qed.
End settling.

(** C8: Reloads settle on the source. Say the sources hold one pair of documents, no reload
    is under way, and the policy in force has their revision only if it is theirs. Then, however the reloads of any number of watchers interleave from there,
    as soon as one of them has ticked, loaded and installed in that order, those documents
    are the policy in force. On the way there the policy is the one from before or the new
    one, nothing else; no reload is refused, and the revision the hooks are told is theirs. *)
Theorem reload_settles_on_the_source s g f i w es :
  (∀ l, l ∈ ry_sources s → l = source_now g f) →
  (∀ i w, ry_watchers s !! i = Some w → gw_source w < length (ry_sources s) ∧ (gw_phase w = Waiting ∨ gw_phase w = Ended)) →
  (snap_revision (ry_live s) = RevisionOfDocuments g f → ry_live s = snapshot_of RevisionOfDocuments (g, f)) →
  (∀ source l, Publish source l ∉ es) →
  (∀ es', es' `prefix_of` es → ry_live (run s es') = ry_live s ∨ ry_live (run s es') = snapshot_of RevisionOfDocuments (g, f)) ∧
  (∃ told, ry_told (run s es) = ry_told s ++ told ∧ ∀ e, e ∈ told → e = Reloaded (RevisionOfDocuments g f)) ∧
  (ry_watchers s !! i = Some w → gw_phase w = Waiting → Cancel i ∉ es → [Tick i; LoadDocs i; Install i] `sublist_of` es →
     ry_live (run s es) = snapshot_of RevisionOfDocuments (g, f) ∧ RevisionInForce (run s es) = RevisionOfDocuments g f).
Proof.
  intros Hsrc Hws Halike Hes. pose proof (settling_start g f s Hsrc Hws) as Hs0.
  pose proof (settling_run g f s Halike s es Hs0 Hes) as Hs. split; [|split].
  - intros es' [k ->]. apply (settling_run g f s Halike s es' Hs0). set_solver.
  - apply Hs.
  - intros Hi Hw Hc Hsub. enough (ry_live (run s es) = snapshot_of RevisionOfDocuments (g, f)) as E by (split; [done|]; unfold RevisionInForce; by rewrite E).
    assert (reached g f s i 0 s) as R0 by (split; [done|]; split; [done|]; split; [exists w; split; [done|by rewrite Hw]|lia]).
    destruct (reached_along g f s Halike i 0 s _ _ es R0 Hes Hc ltac:(by left) Hsub) as (d1 & l1 & -> & Hsub1 & R1).
    destruct (reached_along g f s Halike i 1 _ _ _ l1 R1 ltac:(set_solver) ltac:(set_solver) ltac:(by right; left) Hsub1) as (d2 & l2 & -> & Hsub2 & R2).
    destruct (reached_along g f s Halike i 2 _ _ _ l2 R2 ltac:(set_solver) ltac:(set_solver) ltac:(by right; right) Hsub2) as (d3 & l3 & -> & _ & R3).
    apply (reached_run g f s Halike i 3 _ l3) in R3; [|set_solver..]. unfold run in *. rewrite !foldl_app.
    destruct R3 as (_ & _ & (w' & Hi' & _) & Hp). rewrite (progress_at s i _ w') in Hp by done.
    rewrite !foldl_app in Hs. apply (se_finished _ _ _ _ Hs i). destruct (gw_phase w'); cbn in Hp; lia.
Qed.
End reloading.

(** ** app/policyreload.go *)

Definition policySourceIsConfigured (env : gmap string string) : bool :=
  existsb (λ name, negb (os_Getenv env name =s? "")) [PolicyDirEnv; PlatformPolicyEnv; EnvOverride; FloorsEnvOverride].

(** The watcher the door starts over its environment, source 0 here, and how often it ticks. *)
Definition startGrantsWatcher (env : gmap string string) : option (Z * GrantsWatcher) :=
  if policySourceIsConfigured env then Some (reloadInterval env, OnRefuse (OnReload (NewGrantsWatcher 0))) else None.

(** ** The watcher of the layers: what its hash is *)

Definition hashLayers (Marshal : list Layer → option string) (sha256_hex : string → string) (layers : list Layer) : string :=
  match Marshal layers with Some b => sha256_hex b | None => "unhashable" end.

(** Layers that cannot be hashed are not told from others that could not be either. *)
Lemma unhashable_is_kept Marshal sha256_hex w old new :
  w_lastHash w = hashLayers Marshal sha256_hex old → Marshal old = None → Marshal new = None →
  Watcher_Reload (hashLayers Marshal sha256_hex) w (Ok new) = (Ok false, w).
Proof. unfold Watcher_Reload, hashLayers. intros -> -> ->. by rewrite eqs_refl. Qed.

(** ** Examples *)

(** Documents told apart by the one approval action they name. *)
Definition demo_docs (name : string) : Grants := mkGrants {["dev" := ["deploy"]]} [name].
Definition demo_revision (g : Grants) (_ : Floors) : string := Join (ApprovalActions g) ",".
Definition demo_load (name : string) : loaded := Ok (Some (demo_docs name), Some ∅, name).
Definition demo_watchers : list GrantsWatcher := [OnRefuse (OnReload (NewGrantsWatcher 0)); NewGrantsWatcher 0].
Definition demo_boot (sources : list loaded) : Reloading :=
  mkReloading sources (snapshot_of demo_revision (demo_docs "v0", ∅)) demo_watchers [] (λ _, 0).

(** No lock is held from the load to the store: a reload that read the documents before they
    changed again stores them after one that read the newer ones, and what is in force is not
    what the source holds. Nothing puts it right until something reloads once more. *)
Example stale_reload_wins :
  let s := run demo_revision (demo_boot [demo_load "v1"])
    [Tick 0; LoadDocs 0; Publish 0 (demo_load "v2"); Tick 1; LoadDocs 1; Install 1; Install 0] in
  ry_sources s = [demo_load "v2"] ∧ RevisionInForce s = "v1" ∧ map gw_phase (ry_watchers s) = [Waiting; Waiting].
Proof. by vm_compute. Qed.

(** A product that loads its policy from a store of its own, in a process whose environment
    names policy documents too: the next tick of the door's watcher puts those back. *)
Example watcher_undoes_a_products_reload :
  let product := NewGrantsWatcher 1 in
  let s0 := mkReloading [demo_load "v0"; demo_load "product"] (snapshot_of demo_revision (demo_docs "v0", ∅)) [OnRefuse (OnReload (NewGrantsWatcher 0)); product] [] (λ _, 0) in
  let s1 := run demo_revision s0 [Tick 1; LoadDocs 1; Install 1] in
  let s2 := run demo_revision s1 [Tick 0; LoadDocs 0; Install 0] in
  RevisionInForce s1 = "product" ∧ RevisionInForce s2 = "v0" ∧ ry_told s2 = [Reloaded "v0"].
Proof. by vm_compute. Qed.

Definition demo_events : list event := [Tick 1; Tick 0; LoadDocs 0; LoadDocs 1; Install 1; Tick 1; Install 0].

Lemma reload_settles_on_the_source_witness :
  RevisionInForce (demo_boot [demo_load "v1"]) = "v0" ∧
  ry_live (run demo_revision (demo_boot [demo_load "v1"]) demo_events) = snapshot_of demo_revision (demo_docs "v1", ∅).
Proof.
  split; [done|].
  destruct (reload_settles_on_the_source demo_revision (demo_boot [demo_load "v1"]) (demo_docs "v1") ∅ 0 (OnRefuse (OnReload (NewGrantsWatcher 0))) demo_events)
    as (_ & _ & H).
  - by intros l ->%list_elem_of_singleton.
  - intros [|[|i]] w Hi; simplify_eq/=; (split; [lia|by left]).
  - discriminate.
  - intros source l Hin. unfold demo_events in Hin. repeat (apply elem_of_cons in Hin as [Hin|Hin]; [discriminate|]). by apply not_elem_of_nil in Hin.
  - apply H; [done|done| |].
    + intros Hin. unfold demo_events in Hin. repeat (apply elem_of_cons in Hin as [Hin|Hin]; [discriminate|]). by apply not_elem_of_nil in Hin.
    + unfold demo_events. apply sublist_cons, sublist_skip, sublist_skip, sublist_cons, sublist_cons, sublist_cons, sublist_skip, sublist_nil.
Defined.
