(* ===== verification/Wiring.v ===== *)
(** Which backend serves which purpose: [mantlekeep-control/internal/config] (the selection
    read from a file and the environment), [internal/provider] (the registry of named
    implementations), and the stores [cmd/mantlekeep/wiring.go] routes with them.

    A provider is a pointer, so a registry maps names to locations of a heap: two names may
    be one backend. Names are folded to lower case in ASCII. What the demonstration prints
    is left out. *)
From S2P Require Import Prelude Contracts Startup PolicySources.

(** ** internal/config *)

Record Config := mkConfig {
  cfg_Selections : gmap string string;
  cfg_Bindings : gmap string (gmap string string);
  cfg_Drivers : gmap string string;
}.

Definition selectPrefix : string := "MANTLEKEEP_SELECT_".
Definition bindPrefix : string := "MANTLEKEEP_BIND_".
Definition driverPrefix : string := "MANTLEKEEP_DRIVER_".

(** [c.Bindings[capability][role] = v], the inner map made when it is not there. *)
Definition bind_role (b : gmap string (gmap string string)) (capability role v : string) : gmap string (gmap string string) :=
  <[capability := <[role := v]> (default ∅ (b !! capability))]> b.

(** One turn of the loop of [parse]. *)
Definition parse_pair (c : Config) (e : string) : Config :=
  match Cut e "=" with
  | None => c
  | Some (k, v) =>
      if v =s? "" then c
      else if HasPrefix k selectPrefix then
        mkConfig (<[ToLower (TrimPrefix k selectPrefix) := v]> (cfg_Selections c)) (cfg_Bindings c) (cfg_Drivers c)
      else if HasPrefix k bindPrefix then
        match Cut (TrimPrefix k bindPrefix) "_" with
        | None => c
        | Some (capability, role) =>
            mkConfig (cfg_Selections c) (bind_role (cfg_Bindings c) (ToLower capability) (ToLower role) v) (cfg_Drivers c)
        end
      else if HasPrefix k driverPrefix then
        mkConfig (cfg_Selections c) (cfg_Bindings c) (<[ToLower (TrimPrefix k driverPrefix) := v]> (cfg_Drivers c))
      else c
  end.
Definition parse (pairs : list string) : Config := foldl parse_pair (mkConfig ∅ ∅ ∅) pairs.

Definition configPath (env : gmap string string) : string :=
  let p := os_Getenv env "MANTLEKEEP_CONFIG" in if p =s? "" then ".mantlekeep.conf" else p.

Definition newline : ascii := "010"%char.
(** The lines of a file that say something. *)
Definition config_lines (data : string) : list string :=
  filter (λ line, line ≠ "" ∧ HasPrefix line "#" = false) (map TrimSpace (SplitByte newline data)).

Section config.
Context (filepath_Clean : string → string).

Definition readFile (fs : FileSystem) (path : string) : result string (list string) :=
  data <-? ReadConfigFile filepath_Clean fs path ; Ok (config_lines data).

(** The file, when it can be read, and then the environment. *)
Definition config_pairs (fs : FileSystem) (env : gmap string string) : list string :=
  match readFile fs (configPath env) with Ok fv => fv | Err _ => [] end ++ Environ env.
Definition Config_Load (fs : FileSystem) (env : gmap string string) : Config := parse (config_pairs fs env).
End config.

Definition Select (c : Config) (capability : string) : string := default "" (cfg_Selections c !! capability).

(** The bindings over the defaults. *)
Definition Routes (c : Config) (capability : string) (defaults : gmap string string) : gmap string string :=
  default ∅ (cfg_Bindings c !! capability) ∪ defaults.

(** ** internal/provider *)

Record ProviderRegistry (T : Type) := mkProviderRegistry { pr_kind : string; pr_providers : gmap string T }.
Arguments mkProviderRegistry {T}.
Arguments pr_kind {T}.
Arguments pr_providers {T}.

Section provider.
Context {T : Type}.

Definition Provider_New (kind : string) : ProviderRegistry T := mkProviderRegistry kind ∅.
Definition Provider_Register (r : ProviderRegistry T) (name : string) (impl : T) : ProviderRegistry T :=
  mkProviderRegistry (pr_kind r) (<[name := impl]> (pr_providers r)).
Definition Provider_Names (r : ProviderRegistry T) : list string := sorted_keys (pr_providers r).
Definition Provider_Get (r : ProviderRegistry T) (name : string) : result string T :=
  match pr_providers r !! name with
  | Some impl => Ok impl
  | None => Err ("no " +:+ pr_kind r +:+ " provider " +:+ Quote name +:+ " registered (have [" +:+
                 Join (Provider_Names r) " " +:+ "])")
  end.
Definition Provider_For (r : ProviderRegistry T) (b : gmap string string) (role : string) : result string T :=
  match b !! role with
  | Some name => Provider_Get r name
  | None => Err ("no " +:+ pr_kind r +:+ " binding for role " +:+ Quote role)
  end.
End provider.

(** ** cmd/mantlekeep/wiring.go *)

Record labeledStore := mkLabeledStore { ls_backend : string; ls_data : gmap string string }.

Definition newLabeledStore (backend : string) : labeledStore := mkLabeledStore backend ∅.
Definition labeledStore_Put (s : labeledStore) (key value : string) : labeledStore :=
  mkLabeledStore (ls_backend s) (<[key := value]> (ls_data s)).
Definition labeledStore_Get (s : labeledStore) (key : string) : result string string :=
  match ls_data s !! key with
  | Some v => Ok v
  | None => Err (ls_backend s +:+ ": key " +:+ Quote key +:+ " not found")
  end.
Definition labeledStore_List (s : labeledStore) (prefix : string) : list string :=
  filter (λ k, HasPrefix k prefix = true) (map_to_list (ls_data s)).*1.

(** The stores in memory, by address. *)
Notation Heap := (gmap nat labeledStore) (only parsing).

Section purposes.
Context (stores : ProviderRegistry nat) (bindings : gmap string string).

(** [stores.For(bindings, role)] and the call on what it answers. *)
Definition role_Put (h : Heap) (role key value : string) : Heap * result string unit :=
  match Provider_For stores bindings role with
  | Err e => (h, Err e)
  | Ok loc => (alter (λ s, labeledStore_Put s key value) loc h, Ok tt)
  end.
Definition role_Get (h : Heap) (role key : string) : result string string :=
  match Provider_For stores bindings role with
  | Err e => Err e
  | Ok loc => match h !! loc with Some s => labeledStore_Get s key | None => Err "nil pointer" end
  end.

(** Writes, each through the role that needs it: role, key and value. *)
Definition role_write (h : Heap) (w : string * string * string) : Heap := (role_Put h w.1.1 w.1.2 w.2).1.
Definition role_writes (h : Heap) (ws : list (string * string * string)) : Heap := foldl role_write h ws.
End purposes.

(** ** internal/app *)

(** The plugins, as types; what a nil interface field would hold is [None]. *)
Section app.
Context {Identity Policy Audit Store : Type}.
Context (NewMem : Store) (NewMock : Identity) (default_policy : Policy).

Inductive AppOption :=
| WithIdentity (r : Identity)
| WithPolicy (p : Policy)
| WithAudit (l : Audit)
| WithStore (name : string) (s : Store).

Record App := mkApp {
  app_identity : option Identity;
  app_policy : option Policy;
  app_audit : option Audit;
  app_stores : ProviderRegistry Store;
}.

Definition apply_option (a : App) (o : AppOption) : App :=
  match o with
  | WithIdentity r => mkApp (Some r) (app_policy a) (app_audit a) (app_stores a)
  | WithPolicy p => mkApp (app_identity a) (Some p) (app_audit a) (app_stores a)
  | WithAudit l => mkApp (app_identity a) (app_policy a) (Some l) (app_stores a)
  | WithStore name s => mkApp (app_identity a) (app_policy a) (app_audit a) (Provider_Register (app_stores a) name s)
  end.

Definition app_dataDir (env : gmap string string) : string :=
  let d := TrimSpace (os_Getenv env "MANTLEKEEP_DATA_DIR") in if negb (d =s? "") then d else "mantlekeep-data".

(** [New]: the ports of the door, and the stores. Making a directory and opening the chain
    are calls on the outside. *)
Definition App_New (EnsureConfigDir : string → result string string) (audit_Open : string → result string Audit)
    (filepath_Join : string → string → string) (env : gmap string string) (opts : list AppOption) :
    result string (Identity * Policy * Audit * ProviderRegistry Store) :=
  let a := foldl apply_option (mkApp None None None (Provider_Register (Provider_New "store") "mem" NewMem)) opts in
  aud <-? match app_audit a with
          | Some l => Ok l
          | None =>
              match EnsureConfigDir (app_dataDir env) with
              | Err e => Err ("app: preparing the data directory for the audit chain: " +:+ e)
              | Ok dir => audit_Open (filepath_Join dir "audit.db")
              end
          end ;
  Ok (default NewMock (app_identity a), default default_policy (app_policy a), aud, app_stores a).
End app.
Arguments App : clear implicits.
Arguments AppOption : clear implicits.

(** ** What is in force is what was said last *)

(** The last element of [l] that says anything says [v]. *)
Definition said_last {A V} (says : A → V → Prop) (l : list A) (v : V) : Prop :=
  ∃ before x after, l = before ++ x :: after ∧ says x v ∧ ∀ y v', y ∈ after → ¬ says y v'.
Definition never_said {A V} (says : A → V → Prop) (l : list A) : Prop := ∀ x v, x ∈ l → ¬ says x v.

(** A loop each step of which overwrites what its element says. *)
Section overwriting.
Context {A S V : Type} (step : S → A → S) (get : S → option V) (says : A → V → Prop) (I : S → Prop).
Hypothesis step_I : ∀ s x, I s → I (step s x).
Hypothesis step_get : ∀ s x v, I s → get (step s x) = Some v ↔ says x v ∨ (∀ v', ¬ says x v') ∧ get s = Some v.

Lemma foldl_said_last l s v : I s →
  get (foldl step s l) = Some v ↔ said_last says l v ∨ never_said says l ∧ get s = Some v.
Proof.
  revert s. induction l as [|x l IH]; intros s Hs; cbn [foldl].
  - split; [intros H; right; split; [|done]; by intros ? ? ?%not_elem_of_nil|].
    by intros [([|] & ? & ? & [=] & _)|[_ ?]].
  - rewrite IH, step_get by auto. split.
    + intros [(b & y & a & -> & Hy & Ha)|[Hn [Hx|[Hx Hg]]]].
      * left. by exists (x :: b), y, a.
      * left. exists [], x, l. split_and!; [done..|]. intros y v'. apply Hn.
      * right. split; [|done]. intros y v' [->|Hy]%elem_of_cons; [apply Hx|by apply Hn].
    + intros [([|x' b] & y & a & [= -> ->] & Hy & Ha)|[Hn Hg]].
      * right. split; [intros y' v'; apply Ha|by left].
      * left. by exists b, y, a.
      * right. split; [intros y v' Hy; apply Hn; by right|]. right. split; [|done]. intros v'. apply Hn. by left.
Qed.

Lemma foldl_never_said l s : I s → get (foldl step s l) = None ↔ never_said says l ∧ get s = None.
Proof.
  assert (∀ s x, I s → get (step s x) = None ↔ (∀ v, ¬ says x v) ∧ get s = None) as Hnone.
  { intros s' x Hs. rewrite !eq_None_not_Some. unfold is_Some. setoid_rewrite step_get; [|done]. naive_solver. }
  revert s. induction l as [|x l IH]; intros s Hs; cbn [foldl].
  - split; [intros H; split; [|done]; by intros ? ? ?%not_elem_of_nil|by intros [_ ?]].
  - rewrite IH, Hnone by auto. unfold never_said. setoid_rewrite elem_of_cons. naive_solver.
Qed.
End overwriting.

(** The plugin of a kind, and the store of a name, are the ones given last. *)
Lemma App_options_last {Identity Policy Audit Store} (opts : list (AppOption Identity Policy Audit Store)) a :
  (∀ r, app_identity (foldl apply_option a opts) = Some r ↔
     said_last (λ o r, o = WithIdentity r) opts r ∨ never_said (λ o r, o = WithIdentity r) opts ∧ app_identity a = Some r) ∧
  (∀ p, app_policy (foldl apply_option a opts) = Some p ↔
     said_last (λ o p, o = WithPolicy p) opts p ∨ never_said (λ o p, o = WithPolicy p) opts ∧ app_policy a = Some p) ∧
  (∀ name s, pr_providers (app_stores (foldl apply_option a opts)) !! name = Some s ↔
     said_last (λ o s, o = WithStore name s) opts s ∨
     never_said (λ o s, o = WithStore name s) opts ∧ pr_providers (app_stores a) !! name = Some s).
Proof.
  split_and!.
  - intros r. apply (foldl_said_last apply_option app_identity _ (λ _, True)); [done| |done].
    intros s [] v _; simpl; naive_solver.
  - intros r. apply (foldl_said_last apply_option app_policy _ (λ _, True)); [done| |done].
    intros s [] v _; simpl; naive_solver.
  - intros name r. apply (foldl_said_last apply_option (λ a, pr_providers (app_stores a) !! name) _ (λ _, True)); [done| |done].
    intros s [| | |n x] v _; simpl; [naive_solver..|]. destruct (decide (n = name)) as [->|].
    + rewrite lookup_insert_eq. naive_solver.
    + rewrite lookup_insert_ne by done. naive_solver.
Qed.

(** ** The selection *)

(** An entry of the file or of the environment that binds a role of a capability. *)
Definition binds (cap role e p : string) : Prop :=
  ∃ c r, e = "MANTLEKEEP_BIND_" +:+ c +:+ String "_" (r +:+ String "=" p) ∧ p ≠ "" ∧
    char_in "_" c = false ∧ char_in "=" c = false ∧ char_in "=" r = false ∧ ToLower c = cap ∧ ToLower r = role.

Lemma binds_Cut cap role e p : binds cap role e p ↔
  ∃ k c r, Cut e "=" = Some (k, p) ∧ p ≠ "" ∧ HasPrefix k bindPrefix = true ∧
    Cut (TrimPrefix k bindPrefix) "_" = Some (c, r) ∧ ToLower c = cap ∧ ToLower r = role.
Proof.
  unfold binds, TrimPrefix. split.
  - intros (c & r & -> & Hp & Hc & Hce & Hre & H1 & H2). exists (bindPrefix +:+ c +:+ String "_" r), c, r.
    rewrite (proj2 (CutPrefix_Some _ bindPrefix (c +:+ String "_" r)) eq_refl). cbn [default]. unfold id.
    split_and!; [|done|apply HasPrefix_spec; by eexists|by apply Cut_app|done|done].
    rewrite <- (Cut_app (bindPrefix +:+ c +:+ String "_" r) p "=").
    + f_equal. change (String "_" (r +:+ String "=" p)) with (String "_" r +:+ String "=" p). unfold bindPrefix.
      by rewrite !append_assoc.
    + by rewrite !char_in_app, Hce; cbn [char_in]; rewrite Hre.
  - intros (k & c & r & He & Hp & Hk & Hcr & H1 & H2). apply Cut_Some in He as [-> Hk'].
    apply HasPrefix_spec in Hk as [t ->]. rewrite (proj2 (CutPrefix_Some _ bindPrefix t) eq_refl) in Hcr.
    cbn in Hcr. apply Cut_Some in Hcr as [-> Hc]. rewrite !char_in_app in Hk'. cbn [char_in] in Hk'.
    exists c, r. rewrite !orb_false_iff in Hk'. destruct Hk' as (_ & Hce & _ & Hre). split_and!; [|done..].
    unfold bindPrefix. by rewrite !append_assoc.
Qed.

Definition binding (cap role : string) (c : Config) : option string := cfg_Bindings c !! cap ≫= λ roles, roles !! role.

Lemma bind_role_lookup b cap role v cap' role' :
  bind_role b cap role v !! cap' ≫= (λ roles, roles !! role') =
  if decide (cap = cap' ∧ role = role') then Some v else b !! cap' ≫= λ roles, roles !! role'.
Proof.
  unfold bind_role. destruct (decide (cap = cap')) as [->|Hc].
  - rewrite lookup_insert_eq. simpl. destruct (decide (role = role')) as [->|Hr].
    + rewrite lookup_insert_eq. by rewrite decide_True.
    + rewrite lookup_insert_ne by done. rewrite decide_False by naive_solver. by destruct (b !! cap').
  - rewrite lookup_insert_ne by done. by rewrite decide_False by naive_solver.
Qed.

(** A select or a driver entry is no binding. *)
Lemma prefixes_apart k : HasPrefix k bindPrefix = true → HasPrefix k selectPrefix = false.
Proof.
  intros [t ->]%HasPrefix_spec. destruct (HasPrefix _ selectPrefix) eqn:E; [|done].
  apply HasPrefix_spec in E as [u E]. discriminate E.
Qed.

Lemma parse_pair_binding cap role c e p :
  binding cap role (parse_pair c e) = Some p ↔
  binds cap role e p ∨ (∀ p', ¬ binds cap role e p') ∧ binding cap role c = Some p.
Proof.
  assert (∀ x : option string, (∀ p', ¬ binds cap role e p') → (x = Some p ↔ binds cap role e p ∨ (∀ p', ¬ binds cap role e p') ∧ x = Some p))
    as silent by (intros x Hn; specialize (Hn p) as Hp; tauto).
  unfold parse_pair. destruct (Cut e "=") as [[k v]|] eqn:He.
  2: { apply silent. intros p' (k & c' & r & Hk & _)%binds_Cut. by simplify_eq. }
  destruct (v =s? "") eqn:Hv; autorewrite with mk in Hv.
  { apply silent. intros p' (k' & c' & r & Hk & Hp & _)%binds_Cut. by simplify_eq. }
  destruct (HasPrefix k bindPrefix) eqn:Hb.
  - rewrite (prefixes_apart _ Hb). destruct (Cut (TrimPrefix k bindPrefix) "_") as [[cp r]|] eqn:Hc.
    2: { apply silent. intros p' (k' & c' & r & Hk & _ & _ & Hc' & _)%binds_Cut. by simplify_eq. }
    unfold binding at 1. cbn [cfg_Bindings]. rewrite bind_role_lookup. case_decide as Hd.
    + destruct Hd as [<- <-]. assert (binds (ToLower cp) (ToLower r) e v) as Hsays by (apply binds_Cut; by eexists _, _, _).
      split; [intros [= <-]; by left|]. intros [(k' & c' & r' & Hk & _)%binds_Cut|[Hno _]]; [by simplify_eq|by destruct (Hno v)].
    + apply silent. intros p' (k' & c' & r' & Hk & _ & _ & Hc' & H1 & H2)%binds_Cut. simplify_eq. by apply Hd.
  - assert (∀ p', ¬ binds cap role e p') as Hno.
    { intros p' (k' & c' & r & Hk & _ & Hb' & _)%binds_Cut. simplify_eq. congruence. }
    destruct (HasPrefix k selectPrefix); [|destruct (HasPrefix k driverPrefix)]; by apply silent.
Qed.

Lemma parse_binding cap role pairs p :
  binding cap role (parse pairs) = Some p ↔ said_last (binds cap role) pairs p.
Proof.
  unfold parse. rewrite (foldl_said_last parse_pair (binding cap role) (binds cap role) (λ _, True));
    [|done|intros; apply parse_pair_binding|done].
  unfold binding. cbn. rewrite lookup_empty. naive_solver.
Qed.

Lemma parse_unbound cap role pairs : binding cap role (parse pairs) = None ↔ never_said (binds cap role) pairs.
Proof.
  unfold parse. rewrite (foldl_never_said parse_pair (binding cap role) (binds cap role) (λ _, True));
    [|done|intros; apply parse_pair_binding|done].
  unfold binding. cbn. rewrite lookup_empty. naive_solver.
Qed.

(** The provider of a role: the one bound last, or the default one. *)
Definition provider_of (pairs : list string) (cap : string) (defaults : gmap string string) (role p : string) : Prop :=
  said_last (binds cap role) pairs p ∨ never_said (binds cap role) pairs ∧ defaults !! role = Some p.

Lemma Routes_lookup pairs cap defaults role p :
  Routes (parse pairs) cap defaults !! role = Some p ↔ provider_of pairs cap defaults role p.
Proof.
  unfold provider_of. rewrite <- parse_binding, <- parse_unbound. unfold Routes, binding. rewrite lookup_union.
  destruct (cfg_Bindings (parse pairs) !! cap) as [roles|]; simpl.
  - destruct (roles !! role), (defaults !! role); simpl; naive_solver.
  - rewrite lookup_empty. destruct (defaults !! role); simpl; naive_solver.
Qed.

Lemma Provider_For_Ok {T} (r : ProviderRegistry T) b role loc :
  Provider_For r b role = Ok loc ↔ ∃ p, b !! role = Some p ∧ pr_providers r !! p = Some loc.
Proof.
  unfold Provider_For, Provider_Get. destruct (b !! role) as [p|]; [destruct (pr_providers r !! p) eqn:E|]; naive_solver.
Qed.

(** ** The purposes *)

Section shared.
Context (stores : ProviderRegistry nat) (bindings : gmap string string).

(** Every registered store is there. *)
Definition allocated (h : gmap nat labeledStore) : Prop := map_Forall (λ _ loc, is_Some (h !! loc)) (pr_providers stores).

(** A write that lands in a store. *)
Definition written (loc : nat) (key : string) (w : string * string * string) (v : string) : Prop :=
  Provider_For stores bindings w.1.1 = Ok loc ∧ w.1.2 = key ∧ w.2 = v.
Definition held (loc : nat) (key : string) (h : gmap nat labeledStore) : option string := h !! loc ≫= λ s, ls_data s !! key.

Lemma role_write_allocated h w : allocated h → allocated (role_write stores bindings h w).
Proof.
  intros Ha p loc Hp. specialize (Ha p loc Hp). unfold role_write, role_Put. destruct (Provider_For _ _ _); [|done].
  cbn [fst]. rewrite lookup_alter. case_decide; [subst|done]. destruct Ha as [s ->]. by eexists.
Qed.

Lemma role_write_held loc key h w v : allocated h →
  held loc key (role_write stores bindings h w) = Some v ↔
  written loc key w v ∨ (∀ v', ¬ written loc key w v') ∧ held loc key h = Some v.
Proof.
  intros Ha. destruct w as [[role k] x]. unfold role_write, role_Put, written, held. cbn [fst snd].
  destruct (Provider_For stores bindings role) as [l|] eqn:Hf; [|naive_solver]. cbn [fst].
  apply Provider_For_Ok in Hf as (p & _ & Hp). destruct (Ha p l Hp) as [s Hs].
  rewrite lookup_alter. case_decide as Hl; [|naive_solver]. subst l. rewrite Hs. cbn.
  destruct (decide (k = key)) as [->|Hk]; [rewrite lookup_insert_eq|rewrite lookup_insert_ne by done]; naive_solver.
Qed.
End shared.

(** A purpose is served by the backend the deployment named last, and by nothing else.
    Read a configuration file and the environment. A role of a capability gets a backend
    exactly when the last entry that binds it (the file's lines first, then the variables)
    names a registered one; when no entry binds it, exactly when its default is
    registered; otherwise the lookup is an error. Of stores that started empty, after any
    writes through any roles, a role reads under a key exactly the value that was last
    written there through a role of the same backend: another backend's data is invisible,
    a role that no backend serves neither writes nor reads. *)
Theorem purposes_are_served_as_configured filepath_Clean fs env cap defaults stores heap writes role key v :
  let pairs := config_pairs filepath_Clean fs env in
  let bindings := Routes (Config_Load filepath_Clean fs env) cap defaults in
  map_Forall (λ _ loc, ls_data <$> heap !! loc = Some ∅) (pr_providers stores) →
  (∀ loc, Provider_For stores bindings role = Ok loc ↔
     ∃ p, provider_of pairs cap defaults role p ∧ pr_providers stores !! p = Some loc) ∧
  (role_Get stores bindings (role_writes stores bindings heap writes) role key = Ok v ↔
     ∃ loc, Provider_For stores bindings role = Ok loc ∧ said_last (written stores bindings loc key) writes v).
Proof.
  intros pairs bindings Hnew. split.
  { intros loc. rewrite Provider_For_Ok. unfold bindings, Config_Load. by setoid_rewrite Routes_lookup. }
  unfold role_Get. destruct (Provider_For stores bindings role) as [loc|] eqn:Hf; [|split; [done|by intros (? & ? & _)]].
  assert (allocated stores heap) as Ha by (intros p l Hp; specialize (Hnew p l Hp); cbn in Hnew |- *; destruct (heap !! l); [by eexists|done]).
  assert (held loc key heap = None) as Hempty.
  { apply Provider_For_Ok in Hf as (p & _ & Hp). specialize (Hnew p loc Hp). cbn in Hnew.
    unfold held. destruct (heap !! loc) as [s|]; [|done]. injection Hnew as Hnew. simpl. by rewrite Hnew. }
  transitivity (held loc key (role_writes stores bindings heap writes) = Some v).
  - unfold held, labeledStore_Get. destruct (_ !! loc) as [s|]; simpl; [|done]. destruct (ls_data s !! key); naive_solver.
  - unfold role_writes. rewrite (foldl_said_last _ (held loc key) (written stores bindings loc key) (allocated stores)).
    + rewrite Hempty. naive_solver.
    + intros s x. apply role_write_allocated.
    + intros s x v'. apply role_write_held.
    + done.
Qed.

(** ** Examples and witness *)

Definition demo_stores : ProviderRegistry nat :=
  Provider_Register (Provider_Register (Provider_Register (Provider_New "store") "postgres" 0) "mysql" 1) "mariadb" 2.
Definition demo_heap : gmap nat labeledStore :=
  {[0 := newLabeledStore "postgres"; 1 := newLabeledStore "mysql"; 2 := newLabeledStore "mariadb"]}.
Definition demo_defaults : gmap string string := {["audit" := "postgres"; "events" := "mysql"; "cache" := "mariadb"]}.
(** A file that binds two roles and says one thing more, and a variable over one of them. *)
Definition demo_conf : string :=
  "# purposes" +:+ String newline ("MANTLEKEEP_BIND_STORE_EVENTS=mariadb" +:+ String newline
  ("  MANTLEKEEP_BIND_STORE_CACHE=nowhere" +:+ String newline "MANTLEKEEP_SELECT_FORGE=github")).
Definition demo_fs : FileSystem :=
  mkFileSystem (λ p, if p =s? ".mantlekeep.conf" then Ok demo_conf else Err "no such file") (λ _, Ok false) (λ _, Ok []).
Definition demo_environment : gmap string string := {["MANTLEKEEP_BIND_STORE_CACHE" := "postgres"; "PATH" := "/bin"]}.
Definition demo_config : Config := Config_Load (λ p, p) demo_fs demo_environment.
Definition demo_bindings : gmap string string := Routes demo_config "store" demo_defaults.
Definition demo_writes : list (string * string * string) :=
  [("audit", "k", "first"); ("cache", "k", "second"); ("events", "k", "other"); ("nobody", "k", "lost")].

Example demo_routes :
  map (λ r, demo_bindings !! r) ["audit"; "events"; "cache"; "nobody"] = [Some "postgres"; Some "mariadb"; Some "postgres"; None] ∧
  Select demo_config "forge" = "github" ∧ Select demo_config "policy" = "".
Proof. by vm_compute. Qed.

(** A value in the environment cannot take a binding of the file back: an empty one is
    skipped. *)
Example an_empty_variable_overrides_nothing :
  Routes (parse ["MANTLEKEEP_BIND_STORE_CACHE=mysql"; "MANTLEKEEP_BIND_STORE_CACHE="]) "store" ∅ !! "cache" = Some "mysql".
Proof. by vm_compute. Qed.

Lemma purposes_are_served_as_configured_witness :
  role_Get demo_stores demo_bindings (role_writes demo_stores demo_bindings demo_heap demo_writes) "audit" "k" = Ok "second" ∧
  (∀ loc, Provider_For demo_stores demo_bindings "audit" = Ok loc ↔
     ∃ p, provider_of (config_pairs (λ p, p) demo_fs demo_environment) "store" demo_defaults "audit" p ∧
       pr_providers demo_stores !! p = Some loc) ∧
  (role_Get demo_stores demo_bindings (role_writes demo_stores demo_bindings demo_heap demo_writes) "audit" "k" = Ok "second" ↔
     ∃ loc, Provider_For demo_stores demo_bindings "audit" = Ok loc ∧
       said_last (written demo_stores demo_bindings loc "k") demo_writes "second").
Proof.
  split; [by vm_compute|].
  apply (purposes_are_served_as_configured (λ p, p) demo_fs demo_environment "store" demo_defaults demo_stores demo_heap
           demo_writes "audit" "k" "second").
  apply (bool_decide_unpack _). by vm_compute.
Defined.
