(* ===== verification/Layers.v ===== *)
(** Dependency levels of a workflow: [orchestrator/dag.go].

    Kahn's algorithm one whole frontier at a time, over the graph indexed by step name.
    The loop takes at least one step per round, so the number of steps is enough fuel; the
    theorems say which workflows it accepts and what the levels are. *)
From S2P Require Import Prelude Contracts.

Inductive layers_error :=
| DuplicateStep (name : string)
| UnknownDependency (step dep : string)
| Cycle (remaining : nat).

Record dependencyGraph := mkGraph {
  byName : gmap string Step;
  waitingOn : gmap string Z;
  unblocks : gmap string (list string);
}.

(** Reading an absent key of [waitingOn] gives 0. *)
Definition waits (g : dependencyGraph) (name : string) : Z := default 0%Z (waitingOn g !! name).

(** The first loop of [newDependencyGraph]. *)
Fixpoint index_steps (steps : list Step) (g : dependencyGraph) :
    result layers_error dependencyGraph :=
  match steps with
  | [] => Ok g
  | s :: steps =>
      match byName g !! step_Name s with
      | Some _ => Err (DuplicateStep (step_Name s))
      | None =>
          index_steps steps
            (mkGraph (<[step_Name s := s]> (byName g)) (<[step_Name s := 0%Z]> (waitingOn g))
               (unblocks g))
      end
  end.

Fixpoint index_deps (s : Step) (deps : list string) (g : dependencyGraph) :
    result layers_error dependencyGraph :=
  match deps with
  | [] => Ok g
  | dep :: deps =>
      match byName g !! dep with
      | None => Err (UnknownDependency (step_Name s) dep)
      | Some _ =>
          index_deps s deps
            (mkGraph (byName g) (<[step_Name s := (waits g (step_Name s) + 1)%Z]> (waitingOn g))
               (<[dep := get_list (unblocks g) dep ++ [step_Name s]]> (unblocks g)))
      end
  end.

(** The second loop. *)
Fixpoint index_all_deps (steps : list Step) (g : dependencyGraph) :
    result layers_error dependencyGraph :=
  match steps with
  | [] => Ok g
  | s :: steps => g <-? index_deps s (step_DependsOn s) g ; index_all_deps steps g
  end.

Definition newDependencyGraph (dag : DAG) : result layers_error dependencyGraph :=
  g <-? index_steps (dag_Steps dag) (mkGraph ∅ ∅ ∅) ;
  index_all_deps (dag_Steps dag) g.

Definition readyNow (g : dependencyGraph) (steps : list Step) : list string :=
  map step_Name (filter (λ s, waits g (step_Name s) = 0%Z) steps).

(** The two passes of [consume] over [waitingOn]. *)
Definition mark_consumed (w : gmap string Z) (frontier : list string) : gmap string Z :=
  foldl (λ w name, <[name := (-1)%Z]> w) w frontier.

Definition release_one (w : gmap string Z) (dependant : string) : gmap string Z :=
  let n := default 0%Z (w !! dependant) in
  if (0 <? n)%Z then <[dependant := (n - 1)%Z]> w else w.

Definition release (g : dependencyGraph) (frontier : list string) (w : gmap string Z) :
    gmap string Z :=
  foldl (λ w name, foldl release_one w (get_list (unblocks g) name)) w frontier.

(** The zero [Step{}], which a missing name would read. *)
Definition zeroStep : Step := mkStep "" [] "" "" "" [] [].

Definition consume (g : dependencyGraph) (frontier : list string) :
    list Step * dependencyGraph :=
  (map (λ name, default zeroStep (byName g !! name)) frontier,
   mkGraph (byName g) (release g frontier (mark_consumed (waitingOn g) frontier)) (unblocks g)).

Fixpoint layers_loop (fuel : nat) (steps : list Step) (remaining : nat) (g : dependencyGraph) :
    result layers_error (list (list Step)) :=
  if (remaining =? 0)%nat then Ok []
  else match fuel with
  | 0 => Err (Cycle remaining)
  | S fuel =>
      let frontier := readyNow g steps in
      match frontier with
      | [] => Err (Cycle remaining)
      | _ =>
          let '(level, g) := consume g frontier in
          levels <-? layers_loop fuel steps (remaining - length frontier) g ;
          Ok (level :: levels)
      end
  end.

Definition Layers (dag : DAG) : result layers_error (list (list Step)) :=
  g <-? newDependencyGraph dag ;
  layers_loop (length (dag_Steps dag)) (dag_Steps dag) (length (dag_Steps dag)) g.

(** ** Counting dependencies *)

Definition count (x : string) (l : list string) : nat := length (filter (λ y, y = x) l).

(** The dependencies not yet consumed, with repetitions. *)
Definition undone (done_ : gset string) (deps : list string) : nat :=
  length (filter (λ d, d ∉ done_) deps).

Definition sum_counts (F deps : list string) : nat :=
  foldr (λ d acc, count d deps + acc) 0 F.

Lemma count_app x l k : count x (l ++ k) = count x l + count x k.
Proof. unfold count. by rewrite filter_app, length_app. Qed.

Lemma count_cons x y l : count x (y :: l) = (if decide (y = x) then 1 else 0) + count x l.
Proof. unfold count. rewrite filter_cons. by case_decide. Qed.

Lemma count_zero x l : count x l = 0 ↔ x ∉ l.
Proof.
  induction l as [|y l IH]; [split; [intros _ H%not_elem_of_nil; done|done]|].
  rewrite count_cons, not_elem_of_cons, <- IH. case_decide; naive_solver lia.
Qed.

Lemma undone_cons D d deps :
  undone D (d :: deps) = (if decide (d ∉ D) then 1 else 0) + undone D deps.
Proof. unfold undone. rewrite filter_cons. by case_decide. Qed.

Lemma sum_counts_cons F d deps : NoDup F →
  sum_counts F (d :: deps) = (if decide (d ∈ F) then 1 else 0) + sum_counts F deps.
Proof.
  induction 1 as [|x F Hx HF IH]; cbn [sum_counts foldr]; [by rewrite decide_False by apply not_elem_of_nil|].
  fold (sum_counts F (d :: deps)) (sum_counts F deps). rewrite IH, count_cons.
  destruct (decide (d = x)) as [->|Hne].
  - rewrite (decide_False (P := x ∈ F)), (decide_True (P := x ∈ x :: F)) by (done || by left). lia.
  - destruct (decide (d ∈ F)).
    + rewrite decide_True by by right. lia.
    + rewrite decide_False by set_solver. lia.
Qed.

(** Consuming a frontier lowers what is undone by its share. *)
Lemma undone_union D F deps : NoDup F → (∀ x, x ∈ F → x ∉ D) →
  undone (D ∪ list_to_set F) deps + sum_counts F deps = undone D deps.
Proof.
  intros HF Hdis. induction deps as [|d deps IH].
  - unfold undone. simpl. clear. induction F as [|x F IH]; [done|]. exact IH.
  - rewrite !undone_cons, sum_counts_cons by done.
    destruct (decide (d ∉ D)) as [Hd|Hd].
    + destruct (decide (d ∈ F)) as [Hf|Hf].
      * rewrite decide_False by set_solver. lia.
      * rewrite decide_True by set_solver. lia.
    + assert (d ∉ F) by (intros Hf; apply Hd; by apply Hdis).
      rewrite (decide_False (P := d ∈ F)), decide_False by set_solver. lia.
Qed.

(** ** The index *)

Notation names steps := (map step_Name steps).

Lemma index_steps_spec steps g :
  match index_steps steps g with
  | Ok g1 =>
      NoDup (names steps) ∧ (∀ n, n ∈ names steps → byName g !! n = None) ∧
      (∀ s, s ∈ steps → byName g1 !! step_Name s = Some s) ∧
      (∀ n, n ∉ names steps → byName g1 !! n = byName g !! n) ∧
      (∀ n, waits g1 n = if decide (n ∈ names steps) then 0%Z else waits g n) ∧
      unblocks g1 = unblocks g
  | Err _ => ¬ (NoDup (names steps) ∧ ∀ n, n ∈ names steps → byName g !! n = None)
  end.
Proof.
  revert g. induction steps as [|s steps IH]; intros g; cbn [index_steps map].
  { split_and!; [constructor|by intros ? ?%not_elem_of_nil|by intros ? ?%not_elem_of_nil|done| |done].
    intros n. by rewrite decide_False by apply not_elem_of_nil. }
  destruct (byName g !! step_Name s) as [s'|] eqn:Hs.
  { intros [_ H]. specialize (H (step_Name s) ltac:(by left)). congruence. }
  set (g0 := mkGraph _ _ _). specialize (IH g0). destruct (index_steps steps g0) as [g1|e].
  - destruct IH as (Hnd & Hfresh & Hin & Hout & Hw & Hu).
    assert (step_Name s ∉ names steps) as Hns.
    { intros Hin'. apply Hfresh in Hin'. simpl in Hin'. by rewrite lookup_insert_eq in Hin'. }
    split_and!.
    + by constructor.
    + intros n [->|Hn]%elem_of_cons; [done|]. pose proof (Hfresh n Hn) as Hf. simpl in Hf.
      by apply lookup_insert_None in Hf as [? _].
    + intros s' [->|Hs']%elem_of_cons; [|by apply Hin].
      rewrite Hout by done. simpl. by rewrite lookup_insert_eq.
    + intros n [? Hn]%not_elem_of_cons. rewrite Hout by done. simpl. by rewrite lookup_insert_ne.
    + intros n. rewrite Hw.
      change (waits g0 n) with (default 0%Z (<[step_Name s := 0%Z]> (waitingOn g) !! n)).
      destruct (decide (n = step_Name s)) as [->|].
      * rewrite decide_False, decide_True by (done || by left). by rewrite lookup_insert_eq.
      * rewrite lookup_insert_ne by done. fold (waits g n).
        destruct (decide (n ∈ names steps)); [by rewrite decide_True by by right|].
        by rewrite decide_False by set_solver.
    + done.
  - intros [Hnd Hfresh]. apply NoDup_cons in Hnd as [Hns Hnd]. apply IH. split; [done|].
    intros n Hn. simpl. rewrite lookup_insert_ne by (by intros <-). apply Hfresh. by right.
Qed.

Lemma index_deps_spec s deps g :
  match index_deps s deps g with
  | Ok g1 =>
      (∀ d, d ∈ deps → is_Some (byName g !! d)) ∧ byName g1 = byName g ∧
      (∀ n, waits g1 n = (waits g n + if decide (n = step_Name s) then Z.of_nat (length deps) else 0)%Z) ∧
      (∀ n d, count n (get_list (unblocks g1) d) =
                count n (get_list (unblocks g) d) +
                if decide (n = step_Name s) then count d deps else 0)
  | Err _ => ¬ ∀ d, d ∈ deps → is_Some (byName g !! d)
  end.
Proof.
  revert g. induction deps as [|dep deps IH]; intros g; cbn [index_deps].
  { split_and!; [by intros d Hd%not_elem_of_nil|done| |].
    - intros n. case_decide; simpl; lia.
    - intros n d. unfold count at 3. simpl. case_decide; lia. }
  destruct (byName g !! dep) as [t|] eqn:Hd.
  2: { intros H. specialize (H dep ltac:(by left)). rewrite Hd in H. by destruct H. }
  set (g0 := mkGraph _ _ _). specialize (IH g0). destruct (index_deps s deps g0) as [g1|e].
  - destruct IH as (Hk & Hb & Hw & Hu). split_and!.
    + intros d [->|Hin]%elem_of_cons; [by eexists|by apply Hk].
    + done.
    + intros n. rewrite Hw. unfold waits at 1. simpl. case_decide as Hn.
      * rewrite Hn, lookup_insert_eq. simpl. lia.
      * by rewrite lookup_insert_ne.
    + intros n d. rewrite Hu. simpl. rewrite count_cons. unfold get_list.
      destruct (decide (dep = d)) as [->|Hne].
      * rewrite lookup_insert_eq. simpl. rewrite count_app, count_cons.
        assert (count n [] = 0) as -> by done. repeat case_decide; simplify_eq; lia.
      * rewrite lookup_insert_ne by done. case_decide; lia.
  - intros H. apply IH. intros d Hin. apply H. by right.
Qed.

(** What a step contributes to the sums below. *)
Definition of_step {A} (zero : A) (plus : A → A → A) (f : Step → A) (n : string)
    (steps : list Step) : A :=
  foldr (λ s acc, plus (if decide (n = step_Name s) then f s else zero) acc) zero steps.

Lemma of_step_once {A} (zero : A) plus f steps s :
  (∀ a, plus zero a = a) → (∀ a, plus a zero = a) →
  NoDup (names steps) → s ∈ steps → of_step zero plus f (step_Name s) steps = f s.
Proof.
  intros H0 H1. unfold of_step. induction steps as [|t steps IH]; simpl; [by intros _ ?%not_elem_of_nil|].
  intros [Ht Hnd]%NoDup_cons [->|Hs]%elem_of_cons.
  - rewrite decide_True by done.
    assert (foldr (λ s acc, plus (if decide (step_Name t = step_Name s) then f s else zero) acc)
              zero steps = zero) as ->; [|by rewrite H1].
    clear IH Hnd. induction steps as [|u steps IH]; simpl; [done|].
    simpl in Ht. apply not_elem_of_cons in Ht as [Hu Ht]. rewrite decide_False by done.
    by rewrite H0, IH.
  - rewrite decide_False, H0; [by apply IH|]. intros Heq. apply Ht. rewrite <- Heq.
    apply elem_of_map. by exists s.
Qed.

Lemma index_all_deps_spec steps g :
  match index_all_deps steps g with
  | Ok g1 =>
      (∀ s d, s ∈ steps → d ∈ step_DependsOn s → is_Some (byName g !! d)) ∧ byName g1 = byName g ∧
      (∀ n, waits g1 n = (waits g n +
         of_step 0 Z.add (λ s, Z.of_nat (length (step_DependsOn s))) n steps)%Z) ∧
      (∀ n d, count n (get_list (unblocks g1) d) =
         count n (get_list (unblocks g) d) +
         of_step 0 Nat.add (λ s, count d (step_DependsOn s)) n steps)
  | Err _ => ¬ ∀ s d, s ∈ steps → d ∈ step_DependsOn s → is_Some (byName g !! d)
  end.
Proof.
  revert g. induction steps as [|s steps IH]; intros g; cbn [index_all_deps].
  { split_and!; [by intros s d ?%not_elem_of_nil|done| |]; intros; simpl; lia. }
  pose proof (index_deps_spec s (step_DependsOn s) g) as Hs.
  destruct (index_deps s (step_DependsOn s) g) as [g0|e]; simpl.
  2: { intros H. apply Hs. intros d Hd. by eapply H; [left|]. }
  destruct Hs as (Hk & Hb & Hw & Hu). specialize (IH g0).
  destruct (index_all_deps steps g0) as [g1|e].
  - destruct IH as (Hk' & Hb' & Hw' & Hu'). split_and!.
    + intros t d [->|Ht]%elem_of_cons Hd; [by apply Hk|]. rewrite <- Hb. by eapply Hk'.
    + congruence.
    + intros n. rewrite Hw', Hw. case_decide; lia.
    + intros n d. rewrite Hu', Hu. case_decide; lia.
  - intros H. apply IH. intros t d Ht Hd. rewrite Hb. eapply H; [by right|done].
Qed.

(** ** The invariant of the loop *)

(** [Done] are the steps consumed so far. *)
Record graph_ok (steps : list Step) (Done : gset string) (g : dependencyGraph) : Prop := {
  ok_byName s : s ∈ steps → byName g !! step_Name s = Some s;
  ok_waits s : s ∈ steps → waits g (step_Name s) =
    if decide (step_Name s ∈ Done) then (-1)%Z else Z.of_nat (undone Done (step_DependsOn s));
  ok_unblocks s d : s ∈ steps →
    count (step_Name s) (get_list (unblocks g) d) = count d (step_DependsOn s);
}.

Lemma undone_empty deps : undone ∅ deps = length deps.
Proof. induction deps as [|d deps IH]; [done|]. rewrite undone_cons, decide_True by set_solver. simpl. lia. Qed.

Lemma undone_zero D deps : undone D deps = 0 ↔ ∀ d, d ∈ deps → d ∈ D.
Proof.
  induction deps as [|d deps IH]; [split; [by intros _ d ?%not_elem_of_nil|done]|].
  rewrite undone_cons. setoid_rewrite elem_of_cons. case_decide as Hd.
  - split; [lia|]. intros H. destruct Hd. apply H. by left.
  - rewrite Nat.add_0_l, IH. naive_solver.
Qed.

Definition known_deps (steps : list Step) : Prop :=
  ∀ s d, s ∈ steps → d ∈ step_DependsOn s → d ∈ names steps.

Lemma newDependencyGraph_spec dag :
  match newDependencyGraph dag with
  | Ok g => NoDup (names (dag_Steps dag)) ∧ known_deps (dag_Steps dag) ∧
            graph_ok (dag_Steps dag) ∅ g
  | Err _ => ¬ (NoDup (names (dag_Steps dag)) ∧ known_deps (dag_Steps dag))
  end.
Proof.
  unfold newDependencyGraph. set (steps := dag_Steps dag).
  pose proof (index_steps_spec steps (mkGraph ∅ ∅ ∅)) as H1.
  destruct (index_steps _ _) as [g0|e]; simpl; [|intros [Hnd _]; by apply H1].
  destruct H1 as (Hnd & _ & Hin & Hout & Hw & Hu).
  assert (∀ n, is_Some (byName g0 !! n) ↔ n ∈ names steps) as Hsome.
  { intros n. destruct (decide (n ∈ names steps)) as [Hn|Hn].
    - split; [done|]. intros _. apply elem_of_map in Hn as (s & -> & Hs). rewrite Hin; eauto.
    - rewrite (Hout n Hn). simpl. rewrite lookup_empty. split; [by intros []|done]. }
  pose proof (index_all_deps_spec steps g0) as H2.
  destruct (index_all_deps steps g0) as [g|e].
  2: { intros [_ Hk]. apply H2. intros s d Hs Hd. apply Hsome. by eapply Hk. }
  destruct H2 as (Hk & Hb & Hw' & Hu'). split_and!; [done| |].
  { intros s d Hs Hd. apply Hsome. by eapply Hk. }
  constructor.
  - intros s Hs. rewrite Hb. by apply Hin.
  - intros s Hs. rewrite decide_False by set_solver. rewrite Hw', Hw, undone_empty.
    rewrite decide_True by (apply elem_of_map; eauto).
    rewrite (of_step_once 0%Z Z.add); [done|apply Z.add_0_l|apply Z.add_0_r|done..].
  - intros s d Hs. rewrite Hu', Hu. simpl. unfold get_list at 1. rewrite lookup_empty. simpl.
    rewrite (of_step_once 0 Nat.add); [done|apply Nat.add_0_l|apply Nat.add_0_r|done..].
Qed.

Lemma mark_consumed_lookup w F n :
  default 0%Z (mark_consumed w F !! n) = if decide (n ∈ F) then (-1)%Z else default 0%Z (w !! n).
Proof.
  unfold mark_consumed. revert w. induction F as [|x F IH]; intros w; cbn [foldl].
  { by rewrite decide_False by apply not_elem_of_nil. }
  rewrite IH. destruct (decide (n ∈ F)) as [Hn|Hn]; [by rewrite decide_True by by right|].
  destruct (decide (n = x)) as [->|Hne].
  - by rewrite lookup_insert_eq, decide_True by by left.
  - by rewrite lookup_insert_ne, decide_False by set_solver.
Qed.

Lemma release_one_lookup L w n :
  default 0%Z (foldl release_one w L !! n) =
    let v := default 0%Z (w !! n) in
    if (0 <? v)%Z then Z.max 0 (v - Z.of_nat (count n L)) else v.
Proof.
  cbv zeta. revert w. induction L as [|x L IH]; intros w; cbn [foldl].
  { unfold count. simpl. destruct (Z.ltb_spec 0 (default 0%Z (w !! n))); lia. }
  rewrite IH, count_cons. unfold release_one.
  destruct (decide (x = n)) as [->|Hne].
  - destruct (Z.ltb_spec 0 (default 0%Z (w !! n))) as [Hp|Hp].
    + rewrite lookup_insert_eq. simpl.
      destruct (Z.ltb_spec 0 (default 0%Z (w !! n) - 1)); lia.
    + destruct (Z.ltb_spec 0 (default 0%Z (w !! n))); lia.
  - destruct (0 <? default 0%Z (w !! x))%Z; [rewrite lookup_insert_ne by done|];
      by rewrite Nat.add_0_l.
Qed.

Lemma release_flat g F w :
  release g F w = foldl release_one w (flat_map (get_list (unblocks g)) F).
Proof.
  unfold release. revert w. induction F as [|x F IH]; intros w; simpl; [done|].
  by rewrite foldl_app, IH.
Qed.

Lemma count_unblocked steps D g F s :
  graph_ok steps D g → s ∈ steps →
  count (step_Name s) (flat_map (get_list (unblocks g)) F) = sum_counts F (step_DependsOn s).
Proof.
  intros Hg Hs. induction F as [|d F IH]; simpl; [done|].
  rewrite count_app, IH. by rewrite (ok_unblocks _ _ _ Hg s d Hs).
Qed.

Definition ready_steps (g : dependencyGraph) (steps : list Step) : list Step :=
  filter (λ s, waits g (step_Name s) = 0%Z) steps.

Lemma NoDup_names_sub steps sub : sub `sublist_of` steps → NoDup (names steps) → NoDup (names sub).
Proof.
  intros Hsub Hnd. eapply sublist_NoDup; [exact Hnd|].
  by apply (fmap_sublist step_Name).
Qed.

Lemma ready_spec steps D g s :
  graph_ok steps D g → s ∈ ready_steps g steps →
  s ∈ steps ∧ step_Name s ∉ D ∧ ∀ d, d ∈ step_DependsOn s → d ∈ D.
Proof.
  intros Hg [Hw Hs]%list_elem_of_filter. rewrite (ok_waits _ _ _ Hg s Hs) in Hw.
  case_decide; [lia|]. split_and!; [done..|]. apply undone_zero. lia.
Qed.

Lemma consume_ok steps D g :
  NoDup (names steps) → graph_ok steps D g →
  let F := readyNow g steps in
  (consume g F).1 = ready_steps g steps ∧
  graph_ok steps (D ∪ list_to_set F) (consume g F).2.
Proof.
  intros Hnd Hg F. assert (F = names (ready_steps g steps)) as HF by done.
  assert (ready_steps g steps `sublist_of` steps) as Hsub by apply sublist_filter.
  assert (NoDup F) as HndF by (rewrite HF; by eapply NoDup_names_sub).
  assert (∀ x, x ∈ F → x ∉ D) as Hdis.
  { intros x. rewrite HF. intros (s & -> & Hs)%elem_of_map. by eapply ready_spec. }
  split.
  - simpl. rewrite HF, map_map. rewrite <- (map_id (ready_steps g steps)) at 2.
    apply map_ext_in. intros s Hs%list_elem_of_In. apply ready_spec with (D := D) in Hs; [|done].
    by rewrite (ok_byName _ _ _ Hg s) by apply Hs.
  - constructor; simpl; [apply Hg| |apply Hg].
    intros s Hs. unfold waits. simpl. rewrite release_flat, release_one_lookup, mark_consumed_lookup.
    cbv zeta. fold (waits g (step_Name s)).
    rewrite (count_unblocked _ _ _ _ _ Hg Hs), (ok_waits _ _ _ Hg s Hs).
    pose proof (undone_union D F (step_DependsOn s) HndF Hdis) as Hsum.
    destruct (decide (step_Name s ∈ F)) as [HinF|HinF].
    + by rewrite decide_True by set_solver.
    + destruct (decide (step_Name s ∈ D)) as [HinD|HinD].
      * by rewrite decide_True by set_solver.
      * rewrite decide_False by set_solver. destruct (Z.ltb_spec 0 (Z.of_nat (undone D (step_DependsOn s)))); lia.
Qed.

(** ** What the levels are *)

(** Each level is non-empty, in input order, and depends only on earlier levels. *)
Fixpoint levels_ok (steps : list Step) (Done : gset string) (levels : list (list Step)) : Prop :=
  match levels with
  | [] => True
  | l :: ls =>
      l ≠ [] ∧ l `sublist_of` steps ∧
      (∀ s, s ∈ l → step_Name s ∉ Done ∧ ∀ d, d ∈ step_DependsOn s → d ∈ Done) ∧
      levels_ok steps (Done ∪ list_to_set (names l)) ls
  end.

Definition pending (Done : gset string) (steps : list Step) : list Step :=
  filter (λ s, step_Name s ∉ Done) steps.

Lemma filter_partition {A} (P Q R : A → Prop) `{∀ x, base.Decision (P x)}
    `{∀ x, base.Decision (Q x)} `{∀ x, base.Decision (R x)} l :
  (∀ x, x ∈ l → P x ↔ Q x ∨ R x) → (∀ x, x ∈ l → Q x → R x → False) →
  filter P l ≡ₚ filter Q l ++ filter R l.
Proof.
  induction l as [|x l IH]; intros Hiff Hdis; [done|].
  rewrite !filter_cons.
  assert (filter P l ≡ₚ filter Q l ++ filter R l) as Hl
    by (apply IH; intros y Hy; [apply Hiff|apply Hdis]; by right).
  pose proof (Hiff x ltac:(by left)) as Hx. pose proof (Hdis x ltac:(by left)) as Hd.
  destruct (decide (P x)), (decide (Q x)), (decide (R x)); try tauto; simpl; rewrite Hl; [done|].
  apply Permutation_middle.
Qed.

Lemma pending_split steps D g :
  NoDup (names steps) → graph_ok steps D g →
  pending D steps ≡ₚ ready_steps g steps ++
    pending (D ∪ list_to_set (readyNow g steps)) steps.
Proof.
  intros Hnd Hg. apply filter_partition.
  - intros s Hs. rewrite not_elem_of_union, elem_of_list_to_set.
    assert (waits g (step_Name s) = 0%Z ↔ step_Name s ∈ readyNow g steps) as ->.
    { unfold readyNow. rewrite elem_of_map. split.
      - intros Hw. exists s. split; [done|]. by apply list_elem_of_filter.
      - intros (t & Heq & [Hw Ht]%list_elem_of_filter). by rewrite Heq. }
    destruct (decide (step_Name s ∈ readyNow g steps)) as [Hin|]; [|tauto].
    split; [tauto|]. intros _. apply elem_of_map in Hin as (t & Heq & Ht).
    rewrite Heq. by eapply ready_spec.
  - intros s Hs Hw. rewrite not_elem_of_union, elem_of_list_to_set. intros [_ Hn]. apply Hn.
    unfold readyNow. apply elem_of_map. exists s. split; [done|]. by apply list_elem_of_filter.
Qed.

Lemma length_readyNow g steps : length (readyNow g steps) = length (ready_steps g steps).
Proof. apply length_map. Qed.

(** One productive round of the loop. *)
Lemma layers_loop_round fuel steps remaining g :
  remaining ≠ 0 → readyNow g steps ≠ [] →
  layers_loop (S fuel) steps remaining g =
    rbind (layers_loop fuel steps (remaining - length (readyNow g steps))
             (consume g (readyNow g steps)).2)
      (λ levels, Ok ((consume g (readyNow g steps)).1 :: levels)).
Proof.
  intros H1%Nat.eqb_neq H2. cbn [layers_loop]. rewrite H1.
  destruct (readyNow g steps) eqn:E; [done|]. by rewrite <- E; destruct (consume _ _).
Qed.

Lemma layers_loop_spec fuel steps D g levels :
  NoDup (names steps) → graph_ok steps D g →
  layers_loop fuel steps (length (pending D steps)) g = Ok levels →
  levels_ok steps D levels ∧ concat levels ≡ₚ pending D steps.
Proof.
  intros Hnd. revert D g levels. induction fuel as [|fuel IH]; intros D g levels Hg;
    destruct (decide (length (pending D steps) = 0)) as [Hz|Hz].
  1, 3: cbn [layers_loop]; rewrite Hz; simpl; intros [= <-]; split; [done|];
    by apply length_zero_iff_nil in Hz as ->.
  { apply Nat.eqb_neq in Hz. cbn [layers_loop]. by rewrite Hz. }
  destruct (decide (readyNow g steps = [])) as [He|He].
  { apply Nat.eqb_neq in Hz. cbn [layers_loop]. by rewrite Hz, He. }
  pose proof (pending_split steps D g Hnd Hg) as Hsplit.
  destruct (consume_ok steps D g Hnd Hg) as [Hlevel Hg'].
  rewrite layers_loop_round, Hlevel, rbind_Ok by done. intros (ls & Hls & Heq).
  injection Heq as <-.
  assert (length (pending D steps) - length (readyNow g steps) =
    length (pending (D ∪ list_to_set (readyNow g steps)) steps)) as Hlen.
  { rewrite Hsplit, length_app, length_readyNow. lia. }
  rewrite Hlen in Hls. apply IH in Hls as [Hok Hperm]; [|done]. split.
  - split_and!; [|apply sublist_filter| |done].
    + intros Hnil. apply He. unfold readyNow. unfold ready_steps in Hnil. by rewrite Hnil.
    + intros s Hs. by eapply ready_spec.
  - simpl. by rewrite Hsplit, Hperm.
Qed.

(** A step with the least rank among those pending is ready. *)
Lemma min_rank_ready steps D g (rank : string → nat) :
  known_deps steps → graph_ok steps D g → pending D steps ≠ [] →
  (∀ s d, s ∈ steps → d ∈ step_DependsOn s → rank d < rank (step_Name s)) →
  readyNow g steps ≠ [].
Proof.
  intros Hk Hg Hne Hrank Hnil.
  assert (∀ n s, rank (step_Name s) < n → s ∉ pending D steps) as Hno.
  { induction n as [|n IHn]; [lia|]. intros s Hlt Hs.
    apply list_elem_of_filter in Hs as [HsD Hs].
    assert (step_Name s ∈ readyNow g steps) as Hr; [|rewrite Hnil in Hr; by apply not_elem_of_nil in Hr].
    unfold readyNow. apply elem_of_map. exists s. split; [done|]. apply list_elem_of_filter.
    split; [|done]. rewrite (ok_waits _ _ _ Hg s Hs), decide_False by done.
    enough (undone D (step_DependsOn s) = 0) as -> by done. apply undone_zero.
    intros d Hd. destruct (decide (d ∈ D)) as [|HdD]; [done|]. exfalso.
    pose proof (Hk s d Hs Hd) as Hdn. apply elem_of_map in Hdn as (t & -> & Ht).
    apply (IHn t); [specialize (Hrank s (step_Name t) Hs Hd); lia|]. by apply list_elem_of_filter. }
  destruct (pending D steps) as [|s l] eqn:E; [done|].
  apply (Hno (S (rank (step_Name s))) s); [lia|]. by left.
Qed.

Lemma layers_loop_total fuel steps D g rank :
  NoDup (names steps) → known_deps steps → graph_ok steps D g →
  (∀ s d, s ∈ steps → d ∈ step_DependsOn s → rank d < rank (step_Name s)) →
  length (pending D steps) ≤ fuel →
  is_ok (layers_loop fuel steps (length (pending D steps)) g) = true.
Proof.
  intros Hnd Hk Hg Hrank. revert D g Hg. induction fuel as [|fuel IH]; intros D g Hg Hlen;
    destruct (decide (length (pending D steps) = 0)) as [Hz|Hz]; [|lia| |].
  1, 2: cbn [layers_loop]; by rewrite Hz.
  assert (readyNow g steps ≠ []) as He.
  { eapply min_rank_ready; [done..| |done]. by intros Hnil; rewrite Hnil in Hz. }
  rewrite layers_loop_round by done.
  destruct (consume_ok steps D g Hnd Hg) as [_ Hg'].
  pose proof (pending_split steps D g Hnd Hg) as Hsplit.
  assert (length (pending D steps) - length (readyNow g steps) =
    length (pending (D ∪ list_to_set (readyNow g steps)) steps)) as Hlen'.
  { rewrite Hsplit, length_app, length_readyNow. lia. }
  assert (0 < length (readyNow g steps)) by (destruct (readyNow g steps); [done|simpl; lia]).
  rewrite Hlen'. specialize (IH _ _ Hg' ltac:(lia)).
  destruct (layers_loop _ _ _ _); done.
Qed.

(** The steps can be ranked so that every dependency ranks lower: there is no cycle. *)
Definition acyclic (steps : list Step) : Prop :=
  ∃ rank : string → nat, ∀ s d, s ∈ steps → d ∈ step_DependsOn s → rank d < rank (step_Name s).

(** Levels give such a rank: the number of the level. *)
Lemma levels_rank steps Done levels :
  levels_ok steps Done levels →
  ∃ rank : string → nat, (∀ d, d ∈ Done → rank d = 0) ∧
    ∀ s, s ∈ concat levels → 0 < rank (step_Name s) ∧
      ∀ d, d ∈ step_DependsOn s → rank d < rank (step_Name s).
Proof.
  revert Done. induction levels as [|l ls IH]; intros Done; cbn [levels_ok concat].
  { intros _. exists (λ _, 0). split; [done|]. by intros s ?%not_elem_of_nil. }
  intros (_ & _ & Hl & Hls). destruct (IH _ Hls) as (rank & H0 & Hrank).
  exists (λ n, if decide (n ∈ Done) then 0 else S (rank n)). split.
  { intros d Hd. by rewrite decide_True. }
  intros s [Hs|Hs]%elem_of_app.
  - destruct (Hl s Hs) as [HsD Hdeps]. rewrite (decide_False (P := step_Name s ∈ Done)) by done.
    split; [lia|]. intros d Hd. rewrite decide_True by by apply Hdeps. lia.
  - destruct (Hrank s Hs) as [Hpos Hdeps].
    assert (step_Name s ∉ Done) as HsD.
    { intros HsD. rewrite (H0 (step_Name s)) in Hpos by set_solver. lia. }
    rewrite (decide_False (P := step_Name s ∈ Done)) by done. split; [lia|].
    intros d Hd. specialize (Hdeps d Hd). case_decide; lia.
Qed.

Lemma pending_all steps : pending ∅ steps = steps.
Proof.
  unfold pending. induction steps as [|s l IH]; [done|].
  rewrite filter_cons, decide_True, IH by set_solver. done.
Qed.

Lemma layers_spec dag levels :
  Layers dag = Ok levels → concat levels ≡ₚ dag_Steps dag ∧ levels_ok (dag_Steps dag) ∅ levels.
Proof.
  unfold Layers. pose proof (newDependencyGraph_spec dag) as Hg.
  set (steps := dag_Steps dag) in *. destruct (newDependencyGraph dag) as [g|e]; [|done].
  destruct Hg as (Hnd & Hk & Hg). simpl. intros Hl.
  rewrite <- (pending_all steps) in Hl at 3.
  apply layers_loop_spec in Hl as [Hok Hp]; [|done..]. by rewrite pending_all in Hp.
Qed.

Lemma layers_nodup dag levels : Layers dag = Ok levels → NoDup (names (dag_Steps dag)).
Proof.
  unfold Layers. pose proof (newDependencyGraph_spec dag) as Hg.
  destruct (newDependencyGraph dag) as [g|e]; [|done]. by destruct Hg as (Hnd & _).
Qed.

(** C32: a workflow is accepted exactly when it can be ordered, and its levels order it.
    [Layers] succeeds if and only if step names are unique, every dependency names a step
    and there is no cycle; the levels then hold every step exactly once, each level is
    non-empty and in input order, and a step's dependencies are all in earlier levels. *)
Theorem layers_exactly dag :
  (is_ok (Layers dag) = true ↔
     NoDup (names (dag_Steps dag)) ∧ known_deps (dag_Steps dag) ∧ acyclic (dag_Steps dag)) ∧
  ∀ levels, Layers dag = Ok levels →
    concat levels ≡ₚ dag_Steps dag ∧ levels_ok (dag_Steps dag) ∅ levels.
Proof.
  split; [|apply layers_spec]. split.
  - destruct (Layers dag) as [levels|] eqn:E; [|done]. intros _.
    pose proof (layers_spec dag levels E) as [Hp Hlev]. unfold Layers in E.
    pose proof (newDependencyGraph_spec dag) as Hg.
    destruct (newDependencyGraph dag) as [g|e]; [|done]. destruct Hg as (Hnd & Hk & _).
    split_and!; [done..|]. destruct (levels_rank _ _ _ Hlev) as (rank & _ & Hrank).
    exists rank. intros s d Hs. apply Hrank. by rewrite Hp.
  - intros (Hnd & Hk & rank & Hrank). unfold Layers.
    pose proof (newDependencyGraph_spec dag) as Hg.
    destruct (newDependencyGraph dag) as [g|e]; simpl; [|by destruct Hg].
    destruct Hg as (_ & _ & Hg).
    pose proof (layers_loop_total (length (dag_Steps dag)) _ ∅ g rank Hnd Hk Hg Hrank) as Ht.
    rewrite pending_all in Ht. by apply Ht.
Qed.
