(* ===== verification/Orchestrator.v ===== *)
(** The workflow engine: [orchestrator/orchestrator.go] and [events.go].

    The steps of a level run as goroutines. Each is two atomic moves on the shared run
    and event log: it starts, and, once its runner has answered, it folds its outcome in
    under the lock. [level_step] is that relation; the scheduler is free. What the runner
    answers for a step, and what undoing it answers, are functions of the step, because
    the engine calls each at most once. *)
From S2P Require Import Prelude Contracts Layers.

(** ** events.go *)

Notation EventKind := string (only parsing).
Definition RunStarted : EventKind := "run.started".
Definition StepStarted : EventKind := "step.started".
Definition StepSucceeded : EventKind := "step.succeeded".
Definition StepFailed : EventKind := "step.failed".
Definition StepCompensated : EventKind := "step.compensated".
Definition RunFailed : EventKind := "run.failed".
Definition RunSucceeded : EventKind := "run.succeeded".

Record Event := mkEvent {
  ev_Seq : Z;
  ev_Run : string;
  ev_Step : string;
  ev_Kind : EventKind;
  ev_Detail : string;
}.

(** [MemStore]; the [At] stamp the engine puts on an event is not modelled. *)
Record MemStore := mkMemStore {
  ms_seq : Z;
  ms_all : list Event;
}.

Definition NewMemStore : MemStore := mkMemStore 0 [].

Definition Append (m : MemStore) (e : Event) : Event * MemStore :=
  let seq := (ms_seq m + 1)%Z in
  let e := mkEvent seq (ev_Run e) (ev_Step e) (ev_Kind e) (ev_Detail e) in
  (e, mkMemStore seq (ms_all m ++ [e])).

Definition Events (m : MemStore) (run : string) : list Event :=
  filter (λ e, run = "" ∨ ev_Run e = run) (ms_all m).

(** ** orchestrator.go *)

(** [emit] ignores the result of [Append]. *)
Definition emit (run step : string) (kind : EventKind) (detail : string) (m : MemStore) : MemStore :=
  (Append m (mkEvent 0 run step kind detail)).2.

Record levelRun := mkLevelRun {
  lr_completed : list Step;
  lr_failed : string;
  lr_failErr : string;
}.

Definition new_run : levelRun := mkLevelRun [] "" "".

Section engine.
(** [runner.Run] and [runner.Compensate]: the detail, or the error's text. *)
Context (runner_Run runner_Compensate : Step → result string string).
Context (dagName : string).

(** The second half of [runStep], under the lock. *)
Definition fold_outcome (step : Step) (run : levelRun) (m : MemStore) : levelRun * MemStore :=
  match runner_Run step with
  | Err rerr =>
      (if lr_failed run =s? ""
       then mkLevelRun (lr_completed run) (step_Name step) rerr else run,
       emit dagName (step_Name step) StepFailed rerr m)
  | Ok detail =>
      (mkLevelRun (lr_completed run ++ [step]) (lr_failed run) (lr_failErr run),
       emit dagName (step_Name step) StepSucceeded detail m)
  end.

(** The goroutines of a level: those not started, those whose runner is at work. *)
Record level_state := mkLevelState {
  lv_waiting : list Step;
  lv_running : list Step;
  lv_run : levelRun;
  lv_log : MemStore;
}.

Inductive level_step : relation level_state :=
| goroutine_starts w1 step w2 running run m :
    level_step (mkLevelState (w1 ++ step :: w2) running run m)
      (mkLevelState (w1 ++ w2) (running ++ [step]) run
         (emit dagName (step_Name step) StepStarted (step_Runtime step) m))
| goroutine_ends waiting r1 step r2 run m :
    level_step (mkLevelState waiting (r1 ++ step :: r2) run m)
      (mkLevelState waiting (r1 ++ r2) (fold_outcome step run m).1 (fold_outcome step run m).2).

(** [wg.Wait] returns when every goroutine of the level has ended. *)
Definition level_runs (level : list Step) (run : levelRun) (m : MemStore) (run' : levelRun)
    (m' : MemStore) : Prop :=
  rtc level_step (mkLevelState level [] run m) (mkLevelState [] [] run' m').

Inductive runLevels : list (list Step) → levelRun → MemStore → levelRun → MemStore → Prop :=
| no_more_levels run m : runLevels [] run m run m
| level_stops level levels run m run' m' :
    level_runs level run m run' m' → lr_failed run' ≠ "" →
    runLevels (level :: levels) run m run' m'
| level_goes_on level levels run m run1 m1 run' m' :
    level_runs level run m run1 m1 → lr_failed run1 = "" →
    runLevels levels run1 m1 run' m' →
    runLevels (level :: levels) run m run' m'.

(** The saga: newest first, past compensations that fail. *)
Definition compensate_step (m : MemStore) (step : Step) : MemStore :=
  match runner_Compensate step with
  | Err cerr => emit dagName (step_Name step) StepCompensated ("compensation error: " +:+ cerr) m
  | Ok detail => emit dagName (step_Name step) StepCompensated detail m
  end.
Definition compensate (completed : list Step) (m : MemStore) : MemStore :=
  foldl compensate_step m (reverse completed).
End engine.

Inductive run_error :=
| TokenRefused
| WorkflowRejected (e : layers_error)
| FailedAt (step err : string).

Record RunResult := mkRunResult {
  rr_DAGName : string;
  rr_Success : bool;
  rr_FailedStep : string;
}.

(** [Run], as a relation: the two clock readings of the token check apart, everything
    that varies is the schedule. [t] is the time of the check. *)
Inductive Run (runner_Run runner_Compensate : Step → result string string) (t : Time)
    (token : ExecutionToken) (dag : DAG) (m : MemStore) :
    RunResult * option run_error → MemStore → Prop :=
| token_refused :
    (tok_Value token =s? "") || negb (ExecutionToken_Valid token t) = true →
    Run runner_Run runner_Compensate t token dag m
      (mkRunResult (dag_Name dag) false "", Some TokenRefused) m
| workflow_rejected e :
    (tok_Value token =s? "") || negb (ExecutionToken_Valid token t) = false →
    Layers dag = Err e →
    Run runner_Run runner_Compensate t token dag m
      (mkRunResult (dag_Name dag) false "", Some (WorkflowRejected e)) m
| run_failed levels run m1 :
    (tok_Value token =s? "") || negb (ExecutionToken_Valid token t) = false →
    Layers dag = Ok levels →
    runLevels runner_Run (dag_Name dag) levels new_run
      (emit (dag_Name dag) "" RunStarted ("intent " +:+ tok_IntentID token) m) run m1 →
    lr_failed run ≠ "" →
    Run runner_Run runner_Compensate t token dag m
      (mkRunResult (dag_Name dag) false (lr_failed run),
       Some (FailedAt (lr_failed run) (lr_failErr run)))
      (emit (dag_Name dag) (lr_failed run) RunFailed (lr_failErr run)
         (compensate runner_Compensate (dag_Name dag) (lr_completed run) m1))
| run_succeeded levels run m1 :
    (tok_Value token =s? "") || negb (ExecutionToken_Valid token t) = false →
    Layers dag = Ok levels →
    runLevels runner_Run (dag_Name dag) levels new_run
      (emit (dag_Name dag) "" RunStarted ("intent " +:+ tok_IntentID token) m) run m1 →
    lr_failed run = "" →
    Run runner_Run runner_Compensate t token dag m
      (mkRunResult (dag_Name dag) true "", None)
      (emit (dag_Name dag) "" RunSucceeded "" m1).

(** ** Reading the log *)

(** The steps of the events of a kind, oldest first. *)
Definition steps_of (kind : EventKind) (evs : list Event) : list string :=
  map ev_Step (filter (λ e, ev_Kind e = kind) evs).

Lemma steps_of_app kind l k : steps_of kind (l ++ k) = steps_of kind l ++ steps_of kind k.
Proof. unfold steps_of. by rewrite filter_app, map_app. Qed.

Lemma steps_of_one kind e :
  steps_of kind [e] = if decide (ev_Kind e = kind) then [ev_Step e] else [].
Proof. unfold steps_of. rewrite filter_cons. by case_decide. Qed.

Lemma elem_of_steps_of kind evs n :
  n ∈ steps_of kind evs ↔ ∃ e, e ∈ evs ∧ ev_Kind e = kind ∧ ev_Step e = n.
Proof.
  unfold steps_of. rewrite elem_of_map. setoid_rewrite list_elem_of_filter. naive_solver.
Qed.

Definition emitted (m : MemStore) (run step : string) (kind : EventKind) (detail : string) : Event :=
  mkEvent (ms_seq m + 1) run step kind detail.

Lemma ms_all_emit run step kind detail m :
  ms_all (emit run step kind detail m) = ms_all m ++ [emitted m run step kind detail].
Proof. done. Qed.

(** Every step that starts is one of [steps] whose dependencies have all succeeded. *)
Definition started_after_deps (steps : list Step) (evs : list Event) : Prop :=
  ∀ pre e post, evs = pre ++ e :: post → ev_Kind e = StepStarted →
    ∃ s, s ∈ steps ∧ step_Name s = ev_Step e ∧
      ∀ d, d ∈ step_DependsOn s → d ∈ steps_of StepSucceeded pre.

Lemma started_after_deps_app steps l k :
  started_after_deps steps l →
  (∀ e, e ∈ k → ev_Kind e = StepStarted → ∃ s, s ∈ steps ∧ step_Name s = ev_Step e ∧
     ∀ d, d ∈ step_DependsOn s → d ∈ steps_of StepSucceeded l) →
  started_after_deps steps (l ++ k).
Proof.
  intros Hl Hk pre e post Heq He.
  apply app_eq_app in Heq as (mid & [[-> Hm]|[-> Hm]]).
  - destruct mid as [|e' mid]; simpl in Hm.
    + destruct (Hk e) as (s & ? & ? & Hd); [rewrite <- Hm; by left|done|].
      exists s. by rewrite app_nil_r in Hd.
    + injection Hm as -> ->. by eapply Hl.
  - destruct (Hk e) as (s & ? & ? & Hd); [rewrite Hm; apply elem_of_app; right; by left|done|].
    exists s. split_and!; [done..|]. intros d Hd'. rewrite steps_of_app. apply elem_of_app. left. auto.
Qed.

(** ** One level *)

Section level.
Context (runner_Run : Step → result string string) (dagName : string).

(** Where a level stands: who ended well, who did not, and what the log says of it. *)
Record level_inv (level : list Step) (run0 : levelRun) (m0 : MemStore) (st : level_state)
    (ok bad : list Step) (evs : list Event) : Prop := {
  li_perm : level ≡ₚ lv_waiting st ++ lv_running st ++ ok ++ bad;
  li_log : ms_all (lv_log st) = ms_all m0 ++ evs;
  li_ok : steps_of StepSucceeded evs = names ok;
  li_bad : steps_of StepFailed evs = names bad;
  li_comp : steps_of StepCompensated evs = [];
  li_started : steps_of StepStarted evs ≡ₚ names (lv_running st ++ ok ++ bad);
  li_completed : lr_completed (lv_run st) = lr_completed run0 ++ ok;
  li_failed : match bad with
              | [] => lr_failed (lv_run st) = "" ∧ lr_failErr (lv_run st) = lr_failErr run0
              | s :: _ => lr_failed (lv_run st) = step_Name s ∧
                          runner_Run s = Err (lr_failErr (lv_run st))
              end;
}.

Lemma level_inv_start level run0 m0 : lr_failed run0 = "" →
  level_inv level run0 m0 (mkLevelState level [] run0 m0) [] [] [].
Proof. intros Hf. constructor; simpl; rewrite ?app_nil_r; done. Qed.

Lemma level_inv_step level run0 m0 st st' ok bad evs :
  (∀ s, s ∈ level → step_Name s ≠ "") →
  level_step runner_Run dagName st st' → level_inv level run0 m0 st ok bad evs →
  ∃ ok' bad' evs', level_inv level run0 m0 st' ok' bad' evs'.
Proof.
  intros Hnames Hstep [Hp Hl Hok Hbad Hc Hs Hd Hf].
  inversion Hstep as [w1 step w2 running run m|waiting r1 step r2 run m]; subst; simpl in *.
  - exists ok, bad, (evs ++ [emitted m dagName (step_Name step) StepStarted (step_Runtime step)]).
    constructor; simpl; rewrite ?steps_of_app, ?steps_of_one; simpl; rewrite ?app_nil_r; try done.
    + rewrite Hp. solve_Permutation.
    + by rewrite Hl, <- app_assoc.
    + rewrite Hs, !map_app. simpl. solve_Permutation.
  - assert (step ∈ level) as Hin by (rewrite Hp; set_solver).
    unfold fold_outcome. destruct (runner_Run step) as [detail|rerr] eqn:Hr; simpl.
    + exists (ok ++ [step]), bad, (evs ++ [emitted m dagName (step_Name step) StepSucceeded detail]).
      constructor; simpl; rewrite ?steps_of_app, ?steps_of_one; simpl; rewrite ?app_nil_r; try done.
      * rewrite Hp. solve_Permutation.
      * by rewrite Hl, <- app_assoc.
      * by rewrite Hok, map_app.
      * rewrite Hs, !map_app. simpl. solve_Permutation.
      * by rewrite Hd, <- app_assoc.
    + exists ok, (bad ++ [step]), (evs ++ [emitted m dagName (step_Name step) StepFailed rerr]).
      constructor; simpl; rewrite ?steps_of_app, ?steps_of_one; simpl; rewrite ?app_nil_r; try done.
      * rewrite Hp. solve_Permutation.
      * by rewrite Hl, <- app_assoc.
      * by rewrite Hbad, map_app.
      * rewrite Hs, !map_app. simpl. solve_Permutation.
      * by destruct (_ =s? _).
      * destruct bad as [|b bad]; simpl.
        -- destruct Hf as [-> _]. rewrite eqs_refl. done.
        -- destruct Hf as [Hb He]. destruct (lr_failed run =s? "") eqn:E; [|done].
           apply eqs_true in E. exfalso. apply (Hnames b); [|congruence].
           rewrite Hp. set_solver.
Qed.
End level.

(** ** The levels in order *)

Section levels.
Context (runner_Run : Step → result string string) (dagName : string).

Lemma level_runs_spec level run0 m0 run' m' :
  (∀ s, s ∈ level → step_Name s ≠ "") → lr_failed run0 = "" →
  level_runs runner_Run dagName level run0 m0 run' m' →
  ∃ ok bad evs, level_inv runner_Run level run0 m0 (mkLevelState [] [] run' m') ok bad evs.
Proof.
  intros Hnames Hf Hrun. unfold level_runs in Hrun.
  assert (∀ st st', rtc (level_step runner_Run dagName) st st' →
    (∃ ok bad evs, level_inv runner_Run level run0 m0 st ok bad evs) →
    ∃ ok bad evs, level_inv runner_Run level run0 m0 st' ok bad evs) as Hrtc.
  { induction 1 as [|x y z Hstep _ IH]; [done|]. intros (ok & bad & evs & Hinv).
    apply IH. by eapply level_inv_step. }
  eapply Hrtc; [exact Hrun|]. do 3 eexists. by apply level_inv_start.
Qed.

(** Between levels: nothing failed, and the log tells the completion order. *)
Record run_inv (steps : list Step) (base : list Event) (run : levelRun) (m : MemStore)
    (evs : list Event) : Prop := {
  ri_log : ms_all m = base ++ evs;
  ri_deps : started_after_deps steps evs;
  ri_ok : steps_of StepSucceeded evs = names (lr_completed run);
  ri_comp : steps_of StepCompensated evs = [];
  ri_started : steps_of StepStarted evs ≡ₚ steps_of StepSucceeded evs ++ steps_of StepFailed evs;
  ri_failed : match steps_of StepFailed evs with
              | [] => lr_failed run = ""
              | n :: _ => lr_failed run = n ∧ n ≠ "" ∧
                  ∃ s, s ∈ steps ∧ step_Name s = n ∧ runner_Run s = Err (lr_failErr run)
              end;
}.

Lemma run_inv_level steps base run0 m0 evs0 (Done : gset string) level run' m' :
  (∀ s, s ∈ steps → step_Name s ≠ "") →
  run_inv steps base run0 m0 evs0 → lr_failed run0 = "" →
  (∀ d, d ∈ Done → d ∈ steps_of StepSucceeded evs0) →
  (∀ s, s ∈ level → s ∈ steps ∧ ∀ d, d ∈ step_DependsOn s → d ∈ Done) →
  level_runs runner_Run dagName level run0 m0 run' m' →
  ∃ evs, run_inv steps base run' m' evs ∧
    steps_of StepStarted evs ≡ₚ steps_of StepStarted evs0 ++ names level ∧
    (lr_failed run' = "" → lr_completed run' ≡ₚ lr_completed run0 ++ level ∧
       ∀ d, d ∈ Done ∪ list_to_set (names level) → d ∈ steps_of StepSucceeded evs).
Proof.
  intros Hnames Hinv Hf HDone Hlevel Hrun.
  apply level_runs_spec in Hrun as (ok & bad & k & [Hp Hl Hok Hbad Hc Hs Hd Hfl]);
    [|intros s Hs; by apply Hnames, Hlevel|done].
  destruct Hinv as [Il Id Io Ic Is If]. simpl in *.
  assert (steps_of StepFailed evs0 = []) as Hnone.
  { destruct (steps_of StepFailed evs0) as [|n l]; [done|]. destruct If as (Hn & Hne & _). congruence. }
  assert (∀ s, s ∈ ok ++ bad → s ∈ level) as Hsub by (intros s; by rewrite Hp).
  exists (evs0 ++ k). split; [constructor|split].
  - by rewrite Hl, Il, <- app_assoc.
  - apply started_after_deps_app; [done|]. intros e He Hk.
    assert (ev_Step e ∈ names (ok ++ bad)) as Hin.
    { rewrite <- Hs. apply elem_of_steps_of. eauto. }
    apply elem_of_map in Hin as (s & Heq & Hin%Hsub). exists s.
    destruct (Hlevel s Hin) as [Hst Hdeps]. split_and!; [done..|]. intros d Hd'. auto.
  - by rewrite steps_of_app, Io, Hok, Hd, map_app.
  - by rewrite steps_of_app, Ic, Hc.
  - rewrite !steps_of_app, Is, Hs, Hok, Hbad, Hnone, map_app. by rewrite app_nil_r, app_assoc.
  - rewrite steps_of_app, Hnone, Hbad. simpl. destruct bad as [|s bad]; simpl; [by destruct Hfl|].
    assert (s ∈ level) as Hin by (apply Hsub; set_solver).
    destruct Hfl as [-> He]. split_and!; [done|by apply Hnames, Hlevel|].
    exists s. split_and!; [by apply Hlevel|done..].
  - by rewrite steps_of_app, Hs, Hp.
  - intros Hf'. assert (bad = []) as ->.
    { destruct bad as [|s bad]; [done|]. destruct Hfl as [Hn _].
      destruct (Hnames s); [apply Hlevel, Hsub; set_solver|congruence]. }
    rewrite app_nil_r in Hp. split; [by rewrite Hd, Hp|].
    intros d. rewrite elem_of_union, elem_of_list_to_set, steps_of_app, elem_of_app, Hok.
    intros [|Hd']; [left; auto|right]. by rewrite <- Hp.
Qed.

Lemma runLevels_spec steps base levels run m run' m' (Done : gset string) evs :
  (∀ s, s ∈ steps → step_Name s ≠ "") →
  runLevels runner_Run dagName levels run m run' m' →
  levels_ok steps Done levels → run_inv steps base run m evs → lr_failed run = "" →
  (∀ d, d ∈ Done → d ∈ steps_of StepSucceeded evs) →
  ∃ evs', run_inv steps base run' m' evs' ∧
    steps_of StepStarted evs' ⊆+ steps_of StepStarted evs ++ names (concat levels) ∧
    (lr_failed run' = "" → lr_completed run' ≡ₚ lr_completed run ++ concat levels).
Proof.
  intros Hnames Hrun. revert Done evs.
  induction Hrun as [run m|level levels run m run' m' Hlev Hf'|level levels run m run1 m1 run' m'
    Hlev Hf1 Hrun IH]; intros Done evs Hok Hinv Hf HDone.
  - exists evs. simpl. by rewrite !app_nil_r.
  - destruct Hok as (_ & Hsub & Hdeps & _).
    edestruct run_inv_level as (evs' & Hinv' & Hst & _); [done..| |exact Hlev|].
    { intros s Hs. split; [by eapply elem_of_sublist|]. by apply Hdeps. }
    exists evs'. split; [done|]. split; [|intros H; by destruct Hf'].
    rewrite Hst. simpl. rewrite map_app, app_assoc. by apply submseteq_inserts_r.
  - destruct Hok as (_ & Hsub & Hdeps & Hok).
    edestruct run_inv_level as (evs1 & Hinv1 & Hst1 & Hdone1); [done..| |exact Hlev|].
    { intros s Hs. split; [by eapply elem_of_sublist|]. by apply Hdeps. }
    destruct (Hdone1 Hf1) as [Hp Hd1].
    destruct (IH _ evs1 Hok Hinv1 Hf1 Hd1) as (evs' & Hinv' & Hst' & Hall).
    exists evs'. split; [done|]. split.
    { rewrite Hst', Hst1. simpl. by rewrite map_app, app_assoc. }
    intros H. rewrite (Hall H), Hp. simpl. by rewrite <- app_assoc.
Qed.
End levels.

(** ** Compensation *)

Lemma compensate_events runner_Compensate dagName completed m :
  ∃ evs, ms_all (compensate runner_Compensate dagName completed m) = ms_all m ++ evs ∧
    Forall (λ e, ev_Kind e = StepCompensated) evs ∧
    map ev_Step evs = reverse (names completed).
Proof.
  assert (names (reverse completed) = reverse (names completed)) as <-
    by apply (fmap_reverse step_Name).
  unfold compensate. generalize (reverse completed) as l.
  intros l. revert m. induction l as [|s l IH]; intros m; cbn [foldl].
  { exists []. by rewrite app_nil_r. }
  assert (∃ d, compensate_step runner_Compensate dagName m s =
    emit dagName (step_Name s) StepCompensated d m) as [d ->].
  { unfold compensate_step. destruct (runner_Compensate s); by eexists. }
  destruct (IH (emit dagName (step_Name s) StepCompensated d m)) as (evs & Hl & Hk & Hn).
  exists (emitted m dagName (step_Name s) StepCompensated d :: evs). split_and!.
  - by rewrite Hl, ms_all_emit, <- app_assoc.
  - by constructor.
  - simpl. by rewrite Hn.
Qed.

Lemma steps_of_all kind evs : Forall (λ e, ev_Kind e = kind) evs → steps_of kind evs = map ev_Step evs.
Proof.
  induction 1 as [|e evs He Hevs IH]; [done|].
  unfold steps_of in *. rewrite filter_cons, decide_True by done. simpl. by rewrite IH.
Qed.

Lemma steps_of_other kind kind' evs :
  kind ≠ kind' → Forall (λ e, ev_Kind e = kind) evs → steps_of kind' evs = [].
Proof.
  intros Hne. induction 1 as [|e evs He Hevs IH]; [done|].
  unfold steps_of in *. rewrite filter_cons, decide_False; [done|congruence].
Qed.

Lemma NoDup_submseteq_inv {A} (l k : list A) : NoDup k → l ⊆+ k → NoDup l.
Proof.
  intros Hk [rest Hp]%submseteq_Permutation. rewrite Hp in Hk. by apply NoDup_app in Hk as [? _].
Qed.

(** What the engine knows when the levels are through, whatever the schedule. *)
Lemma runLevels_of_dag runner_Run dag levels intent m run m1 :
  (∀ s, s ∈ dag_Steps dag → step_Name s ≠ "") → Layers dag = Ok levels →
  runLevels runner_Run (dag_Name dag) levels new_run
    (emit (dag_Name dag) "" RunStarted intent m) run m1 →
  ∃ evs, run_inv runner_Run (dag_Steps dag) (ms_all m) run m1 evs ∧
    NoDup (steps_of StepStarted evs) ∧
    (lr_failed run = "" → names (lr_completed run) ≡ₚ names (dag_Steps dag)).
Proof.
  intros Hnames Hl Hr. pose proof (layers_spec dag levels Hl) as [Hperm Hlev].
  destruct (runLevels_spec runner_Run (dag_Name dag) (dag_Steps dag) (ms_all m) levels _ _ _ _ ∅
    [emitted m (dag_Name dag) "" RunStarted intent] Hnames Hr Hlev) as (evs & Hinv & Hst & Hall).
  - constructor; try done. intros pre e post Heq He.
    destruct pre as [|? [|]]; [|done..]. injection Heq as <- <-. by simpl in He.
  - done.
  - set_solver.
  - exists evs. split; [done|]. split; [|intros Hf; rewrite (Hall Hf); simpl; by rewrite Hperm].
    eapply NoDup_submseteq_inv; [|exact Hst]. simpl. unfold names. rewrite Hperm. by eapply layers_nodup.
Qed.

(** What the end of a failed run adds: the saga and the closing event. *)
Lemma failed_end steps runner_Run runner_Compensate dagName base run m1 evs :
  run_inv runner_Run steps base run m1 evs →
  ∃ k, ms_all (emit dagName (lr_failed run) RunFailed (lr_failErr run)
                 (compensate runner_Compensate dagName (lr_completed run) m1)) = base ++ evs ++ k ∧
    (∀ kind, RunFailed ≠ kind → StepCompensated ≠ kind → steps_of kind (evs ++ k) = steps_of kind evs) ∧
    steps_of StepCompensated (evs ++ k) = reverse (steps_of StepSucceeded evs) ∧
    started_after_deps steps (evs ++ k).
Proof.
  intros [Il Id Io Ic Is If].
  destruct (compensate_events runner_Compensate dagName (lr_completed run) m1) as (cs & Hcl & Hck & Hcn).
  set (e := emitted (compensate runner_Compensate dagName (lr_completed run) m1) dagName
              (lr_failed run) RunFailed (lr_failErr run)).
  exists (cs ++ [e]). split_and!.
  - rewrite ms_all_emit, Hcl, Il. by rewrite <- !app_assoc.
  - intros kind H1 H2. rewrite !steps_of_app, steps_of_one, decide_False by done.
    by rewrite (steps_of_other StepCompensated _ cs), !app_nil_r.
  - rewrite !steps_of_app, steps_of_one, decide_False, Ic, (steps_of_all StepCompensated cs), Hcn, Io by done.
    simpl. by rewrite app_nil_r.
  - apply started_after_deps_app; [done|]. rewrite Forall_forall in Hck.
    intros x [Hx|[->|[]%not_elem_of_nil]%elem_of_cons]%elem_of_app Hk; [|done].
    by rewrite (Hck x Hx) in Hk.
Qed.

(** ** Properties of a run *)

(** C12: a workflow runs in order or is undone. Whatever the schedule, a run of a workflow
    whose steps are all named does one of three things. Refused (no valid token, or no
    order), it runs nothing. Otherwise no step starts more than once, and every step that
    starts has had all its dependencies succeed before; a successful run has succeeded at every
    step and compensated none; a failed one names the first step that failed with its
    error, and has compensated exactly the steps that succeeded, in the reverse of the
    order they did. *)
Theorem run_in_order_or_undone runner_Run runner_Compensate t token dag m res err m'
    (Hnames : ∀ s, s ∈ dag_Steps dag → step_Name s ≠ "")
    (Hrun : Run runner_Run runner_Compensate t token dag m (res, err) m') :
  (m' = m ∧ rr_Success res = false ∧
     (tok_Value token = "" ∨ (tok_ExpiresAt token ≤ t)%Z ∨ is_ok (Layers dag) = false)) ∨
  tok_Value token ≠ "" ∧ (t < tok_ExpiresAt token)%Z ∧
  ∃ evs, ms_all m' = ms_all m ++ evs ∧ started_after_deps (dag_Steps dag) evs ∧
    NoDup (steps_of StepStarted evs) ∧
    steps_of StepStarted evs ≡ₚ steps_of StepSucceeded evs ++ steps_of StepFailed evs ∧
    (err = None → rr_Success res = true ∧
       steps_of StepSucceeded evs ≡ₚ names (dag_Steps dag) ∧
       steps_of StepFailed evs = [] ∧ steps_of StepCompensated evs = []) ∧
    (∀ e, err = Some e → rr_Success res = false ∧
       ∃ s why rest, s ∈ dag_Steps dag ∧ runner_Run s = Err why ∧
         e = FailedAt (step_Name s) why ∧ rr_FailedStep res = step_Name s ∧
         steps_of StepFailed evs = step_Name s :: rest ∧
         steps_of StepCompensated evs = reverse (steps_of StepSucceeded evs)).
Proof.
  inversion Hrun as [Ht|e Ht Hl|levels run m1 Ht Hl Hr Hf|levels run m1 Ht Hl Hr Hf]; subst.
  { left. split_and!; [done..|]. apply orb_true_iff in Ht as [Hv|Hv].
    - left. by apply eqs_true.
    - right. left. unfold ExecutionToken_Valid in Hv. apply negb_true_iff, Z.ltb_ge in Hv. lia. }
  { left. split_and!; [done..|]. right. right. by rewrite Hl. }
  all: right; apply orb_false_iff in Ht as [Hv Ht]; apply eqs_false in Hv;
    unfold ExecutionToken_Valid in Ht; apply negb_false_iff, Z.ltb_lt in Ht;
    split; [done|]; split; [done|].
  all: destruct (runLevels_of_dag _ _ _ _ _ _ _ Hnames Hl Hr) as (evs & Hinv & Hnd & Hall).
  - destruct (failed_end _ _ runner_Compensate (dag_Name dag) _ _ _ _ Hinv)
      as (k & Hlog & Hkeep & Hcomp & Hdeps).
    destruct Hinv as [_ _ _ _ Is If].
    exists (evs ++ k). rewrite !Hkeep by done. split_and!; [done..| |].
    + done.
    + intros e [= <-]. split; [done|]. destruct (steps_of StepFailed evs) as [|n rest]; [done|].
      destruct If as (Hn & _ & s & Hs & <- & Herr).
      exists s, (lr_failErr run), rest. by rewrite Hn.
  - destruct Hinv as [Il Id Io Ic Is If].
    set (e := emitted m1 (dag_Name dag) "" RunSucceeded "").
    assert (∀ kind, RunSucceeded ≠ kind → steps_of kind (evs ++ [e]) = steps_of kind evs) as Hkeep.
    { intros kind H1. by rewrite steps_of_app, steps_of_one, decide_False, app_nil_r. }
    exists (evs ++ [e]). rewrite !Hkeep by done.
    split_and!; [by rewrite ms_all_emit, Il, <- app_assoc| |done|done| |done].
    + apply started_after_deps_app; [done|]. by intros x [->|[]%not_elem_of_nil]%elem_of_cons.
    + intros _. rewrite Io, (Hall Hf). split_and!; [done..| |done].
      destruct (steps_of StepFailed evs); [done|]. destruct If as (? & ? & _). congruence.
Qed.

(** ** A step without a name *)

Definition unnamed : Step := mkStep "" [] "oci" "image" "" [] [].

(** The failure of an unnamed step is reported as success. The engine keeps the name
    of the first failed step and reads the empty name as "nothing failed"; [Layers]
    accepts a step whose name is empty, so when it fails the run is logged as succeeded
    and nothing is compensated. *)
Theorem unnamed_failure_is_success runner_Run runner_Compensate t token m why
    (Hfails : runner_Run unnamed = Err why)
    (Htoken : tok_Value token ≠ "") (Hlive : (t < tok_ExpiresAt token)%Z) :
  ∃ m', Run runner_Run runner_Compensate t token (mkDAG "w" [unnamed]) m
          (mkRunResult "w" true "", None) m' ∧
    ∃ evs, ms_all m' = ms_all m ++ evs ∧
      steps_of StepFailed evs = [""] ∧ steps_of StepSucceeded evs = [] ∧
      steps_of RunSucceeded evs = [""].
Proof.
  eexists. split.
  - eapply (run_succeeded _ _ _ _ (mkDAG "w" [unnamed])).
    + apply orb_false_iff. split; [by apply eqs_false|].
      unfold ExecutionToken_Valid. by rewrite (proj2 (Z.ltb_lt _ _)).
    + by vm_compute.
    + eapply level_goes_on; [| |constructor].
      * eapply rtc_l; [by apply (goroutine_starts _ _ [] unnamed [] [])|].
        eapply rtc_l; [by apply (goroutine_ends _ _ [] [] unnamed [])|]. constructor.
      * unfold fold_outcome. by rewrite Hfails.
    + unfold fold_outcome. by rewrite Hfails.
  - unfold fold_outcome. rewrite Hfails. simpl. rewrite <- !app_assoc. by eexists.
Qed.

(** ** Witnesses *)

Definition demo_step (name : string) (deps : list string) : Step := mkStep name deps "oci" "" "" [] [].

(** build, then two tests side by side, then deploy; the second test fails. *)
Definition demo_dag : DAG :=
  mkDAG "release" [demo_step "deploy" ["unit"; "e2e"]; demo_step "build" [];
                   demo_step "unit" ["build"]; demo_step "e2e" ["build"]].
Definition demo_token : ExecutionToken := mkExecutionToken "tok" "i-1" "" "" 0 100.
Definition demo_run (s : Step) : result string string :=
  if step_Name s =s? "e2e" then Err "timed out" else Ok "done".
Definition demo_undo (s : Step) : result string string := Ok "undone".

Example demo_levels :
  Layers demo_dag = Ok [[demo_step "build" []]; [demo_step "unit" ["build"]; demo_step "e2e" ["build"]];
                        [demo_step "deploy" ["unit"; "e2e"]]].
Proof. by vm_compute. Qed.

(** A schedule in which both tests are in flight together. *)
Lemma run_in_order_or_undone_witness :
  ∃ res err m', Run demo_run demo_undo 5 demo_token demo_dag NewMemStore (res, err) m' ∧
    rr_Success res = false ∧
    map (λ e, (ev_Kind e, ev_Step e)) (ms_all m') =
      [(RunStarted, ""); (StepStarted, "build"); (StepSucceeded, "build"); (StepStarted, "unit");
       (StepStarted, "e2e"); (StepSucceeded, "unit"); (StepFailed, "e2e");
       (StepCompensated, "unit"); (StepCompensated, "build"); (RunFailed, "e2e")] ∧
    (∀ e, err = Some e → ∃ s why, s ∈ dag_Steps demo_dag ∧ demo_run s = Err why ∧
       e = FailedAt (step_Name s) why).
Proof.
  assert (∃ res err m', Run demo_run demo_undo 5 demo_token demo_dag NewMemStore (res, err) m' ∧
    rr_Success res = false ∧
    map (λ e, (ev_Kind e, ev_Step e)) (ms_all m') =
      [(RunStarted, ""); (StepStarted, "build"); (StepSucceeded, "build"); (StepStarted, "unit");
       (StepStarted, "e2e"); (StepSucceeded, "unit"); (StepFailed, "e2e");
       (StepCompensated, "unit"); (StepCompensated, "build"); (RunFailed, "e2e")])
    as (res & err & m' & Hrun & Hs & Hevs).
  { do 3 eexists. split.
    - eapply run_failed; [done|exact demo_levels| |].
      + eapply level_goes_on.
        * eapply rtc_l; [by apply (goroutine_starts _ _ [])|]. simpl.
          eapply rtc_l; [by apply (goroutine_ends _ _ _ [])|]. simpl. constructor.
        * done.
        * eapply level_stops.
          -- eapply rtc_l; [by apply (goroutine_starts _ _ [])|]. simpl.
             eapply rtc_l; [by apply (goroutine_starts _ _ [])|]. simpl.
             eapply rtc_l; [by apply (goroutine_ends _ _ _ [])|]. simpl.
             eapply rtc_l; [by apply (goroutine_ends _ _ _ [])|]. simpl. constructor.
          -- done.
      + done.
    - split; [done|]. by vm_compute. }
  exists res, err, m'. split_and!; [done..|]. intros e ->.
  destruct (run_in_order_or_undone demo_run demo_undo 5 demo_token demo_dag NewMemStore res (Some e) m')
    as [(-> & _)|(_ & _ & evs & _ & _ & _ & _ & _ & Hfail)]; [|exact Hrun|done|].
  - intros s Hs'. unfold demo_dag in Hs'. simpl in Hs'.
    by repeat (apply elem_of_cons in Hs' as [->|Hs']; [by vm_compute|]);
      apply not_elem_of_nil in Hs'.
  - destruct (Hfail e eq_refl) as (_ & s & why & rest & ? & ? & ? & _). eauto.
Defined.

Lemma unnamed_failure_is_success_witness :
  ∃ m', Run (λ _, Err "boom") demo_undo 5 demo_token (mkDAG "w" [unnamed]) NewMemStore
          (mkRunResult "w" true "", None) m'.
Proof.
  destruct (unnamed_failure_is_success (λ _, Err "boom") demo_undo 5 demo_token NewMemStore "boom")
    as (m' & Hrun & _); [done|done|by vm_compute|]. by exists m'.
Defined.
