(* ===== verification/Goroutines.v ===== *)
(** The goroutines of a workflow run, move by move: [orchestrator/orchestrator.go].

    [Orchestrator] lets a step start and fold its outcome in as two atomic moves and lets
    [wg.Wait] return when both are made. Here the run is the code's own machinery: the
    goroutine that spawns ([wg.Add], [go], [wg.Wait], the break, the saga), the goroutine of
    each step with the mutex it takes and gives back by a deferred call and the deferred
    [wg.Done], and runners that may never return. A move of either kind is a function of
    the state; the scheduler picks who moves. What is shown is that the machinery neither
    blocks nor runs for ever of itself, and that whatever it ends on is a run of
    [Orchestrator]. *)
From S2P Require Import Prelude Contracts Layers Orchestrator.

(** ** The state *)

(** Where the goroutine of a step stands. *)
Inductive goroutine :=
| Spawned    (* about to emit [StepStarted] *)
| AtRunner   (* in [runner.Run] *)
| Returned   (* about to lock *)
| Locked     (* about to emit the outcome *)
| Emitted    (* about to fold the outcome into the run *)
| Folded     (* the deferred [Unlock] is next *)
| Unlocked   (* the deferred [wg.Done] is next *)
| Ended.

(** Where the goroutine of [Run] stands. The lists are what its loops have left. *)
Inductive runner_goroutine :=
| NextLevel (levels : list (list Step))
| Adding (level : list Step) (levels : list (list Step))                (* [wg.Add(1)] is next *)
| Going (step : Step) (level : list Step) (levels : list (list Step))   (* [go] is next *)
| Waiting (levels : list (list Step))                                   (* in [wg.Wait] *)
| Reporting                                                             (* [runLevels] returned *)
| Undoing (completed : list Step)
| Finished (out : RunResult * option run_error).

Record run_state := mkRunState {
  rs_main : runner_goroutine;
  rs_steps : list (Step * goroutine);
  rs_wg : nat;                   (* the counter of the level's [wg] *)
  rs_mu : option nat;            (* who holds [run.mu] *)
  rs_run : levelRun;
  rs_events : MemStore;
  rs_fatal : bool;               (* a negative counter, or an unlock of an unlocked mutex *)
}.

Section machine.
Context (runner_Run runner_Compensate : Step → result string string).
(** Whether the runner's calls for a step ever return. *)
Context (returns undoes : Step → bool).
Context (dagName : string).
Implicit Types (st : run_state).

(** ** orchestrator.go *)

(** The outcome as an event, and as the run keeps it: the two halves of [runStep] under
    the lock. *)
Definition emit_outcome (step : Step) (m : MemStore) : MemStore :=
  match runner_Run step with
  | Err rerr => emit dagName (step_Name step) StepFailed rerr m
  | Ok detail => emit dagName (step_Name step) StepSucceeded detail m
  end.
Definition keep_outcome (step : Step) (run : levelRun) : levelRun :=
  match runner_Run step with
  | Err rerr =>
      if lr_failed run =s? "" then mkLevelRun (lr_completed run) (step_Name step) rerr else run
  | Ok _ => mkLevelRun (lr_completed run ++ [step]) (lr_failed run) (lr_failErr run)
  end.

Definition with_main st (main : runner_goroutine) : run_state :=
  mkRunState main (rs_steps st) (rs_wg st) (rs_mu st) (rs_run st) (rs_events st) (rs_fatal st).

(** A goroutine of a step moves on; [None] is a goroutine that is blocked or has ended. *)
Definition step_moves (i : nat) st : option run_state :=
  '(step, at_) ← rs_steps st !! i;
  let moved (to : goroutine) := <[i := (step, to)]> (rs_steps st) in
  match at_ with
  | Spawned =>
      Some (mkRunState (rs_main st) (moved AtRunner) (rs_wg st) (rs_mu st) (rs_run st)
              (emit dagName (step_Name step) StepStarted (step_Runtime step) (rs_events st)) (rs_fatal st))
  | AtRunner =>
      if returns step
      then Some (mkRunState (rs_main st) (moved Returned) (rs_wg st) (rs_mu st) (rs_run st) (rs_events st) (rs_fatal st))
      else None
  | Returned =>
      match rs_mu st with
      | None => Some (mkRunState (rs_main st) (moved Locked) (rs_wg st) (Some i) (rs_run st) (rs_events st) (rs_fatal st))
      | Some _ => None
      end
  | Locked =>
      Some (mkRunState (rs_main st) (moved Emitted) (rs_wg st) (rs_mu st) (rs_run st)
              (emit_outcome step (rs_events st)) (rs_fatal st))
  | Emitted =>
      Some (mkRunState (rs_main st) (moved Folded) (rs_wg st) (rs_mu st)
              (keep_outcome step (rs_run st)) (rs_events st) (rs_fatal st))
  | Folded =>
      Some (mkRunState (rs_main st) (moved Unlocked) (rs_wg st) None (rs_run st) (rs_events st)
              (rs_fatal st || bool_decide (rs_mu st = None)))
  | Unlocked =>
      Some (mkRunState (rs_main st) (moved Ended) (rs_wg st - 1) (rs_mu st) (rs_run st) (rs_events st)
              (rs_fatal st || (rs_wg st =? 0)))
  | Ended => None
  end.

(** The goroutine of [Run] moves on. *)
Definition main_moves st : option run_state :=
  match rs_main st with
  | NextLevel [] => Some (with_main st Reporting)
  | NextLevel (level :: levels) =>
      Some (mkRunState (Adding level levels) (rs_steps st) 0 (rs_mu st) (rs_run st) (rs_events st) (rs_fatal st))
  | Adding [] levels => Some (with_main st (Waiting levels))
  | Adding (step :: level) levels =>
      Some (mkRunState (Going step level levels) (rs_steps st) (S (rs_wg st)) (rs_mu st) (rs_run st) (rs_events st) (rs_fatal st))
  | Going step level levels =>
      Some (mkRunState (Adding level levels) (rs_steps st ++ [(step, Spawned)]) (rs_wg st) (rs_mu st) (rs_run st) (rs_events st) (rs_fatal st))
  | Waiting levels =>
      if rs_wg st =? 0
      then Some (with_main st (if negb (lr_failed (rs_run st) =s? "") then Reporting else NextLevel levels))
      else None
  | Reporting =>
      if negb (lr_failed (rs_run st) =s? "")
      then Some (with_main st (Undoing (reverse (lr_completed (rs_run st)))))
      else Some (mkRunState (Finished (mkRunResult dagName true "", None)) (rs_steps st) (rs_wg st) (rs_mu st) (rs_run st)
                   (emit dagName "" RunSucceeded "" (rs_events st)) (rs_fatal st))
  | Undoing (step :: rest) =>
      if undoes step
      then Some (mkRunState (Undoing rest) (rs_steps st) (rs_wg st) (rs_mu st) (rs_run st)
                   (compensate_step runner_Compensate dagName (rs_events st) step) (rs_fatal st))
      else None
  | Undoing [] =>
      Some (mkRunState
              (Finished (mkRunResult dagName false (lr_failed (rs_run st)),
                         Some (FailedAt (lr_failed (rs_run st)) (lr_failErr (rs_run st)))))
              (rs_steps st) (rs_wg st) (rs_mu st) (rs_run st)
              (emit dagName (lr_failed (rs_run st)) RunFailed (lr_failErr (rs_run st)) (rs_events st)) (rs_fatal st))
  | Finished _ => None
  end.

(** Who moves: the goroutine of [Run], or that of a step. *)
Definition moves (who : option nat) st : option run_state :=
  match who with None => main_moves st | Some i => step_moves i st end.

Definition go_step st st' : Prop := ∃ who, moves who st = Some st'.

(** [runLevels] begins, the first event logged. *)
Definition begun (intentID : string) (levels : list (list Step)) (m : MemStore) : run_state :=
  mkRunState (NextLevel levels) [] 0 None new_run (emit dagName "" RunStarted ("intent " +:+ intentID) m) false.

(** ** Every move uses something up *)

Definition moves_of (g : goroutine) : nat :=
  match g with
  | Spawned => 8 | AtRunner => 7 | Returned => 6 | Locked => 5 | Emitted => 4
  | Folded => 2 | Unlocked => 1 | Ended => 0
  end.

Definition moves_of_levels (levels : list (list Step)) : nat :=
  4 + sum_list_with (λ level, 10 * length level + 3) levels.

(** Each completed step may have to be undone. *)
Definition moves_of_main (run : levelRun) (main : runner_goroutine) : nat :=
  match main with
  | NextLevel levels => moves_of_levels levels + length (lr_completed run)
  | Adding level levels => 10 * length level + 2 + moves_of_levels levels + length (lr_completed run)
  | Going _ level levels => 10 * length level + 11 + moves_of_levels levels + length (lr_completed run)
  | Waiting levels => 1 + moves_of_levels levels + length (lr_completed run)
  | Reporting => 3 + length (lr_completed run)
  | Undoing rest => 1 + length rest
  | Finished _ => 0
  end.

Definition moves_left st : nat :=
  moves_of_main (rs_run st) (rs_main st) + sum_list_with (λ p, moves_of p.2) (rs_steps st).

Lemma sum_list_with_insert {A} (f : A → nat) l i x y :
  l !! i = Some x → sum_list_with f (<[i := y]> l) + f x = sum_list_with f l + f y.
Proof.
  revert i. induction l as [|z l IH]; intros [|i]; simpl; [done..|intros [= ->]; lia|].
  intros Hx%IH. lia.
Qed.

Lemma length_keep_outcome step run : length (lr_completed (keep_outcome step run)) ≤ S (length (lr_completed run)).
Proof. unfold keep_outcome. destruct (runner_Run step); [cbn; rewrite length_app; cbn; lia|]. case_match; cbn; lia. Qed.

Lemma moves_of_main_keep step run main :
  moves_of_main (keep_outcome step run) main ≤ S (moves_of_main run main).
Proof. pose proof (length_keep_outcome step run). destruct main; cbn; lia. Qed.

Lemma go_step_decreases st st' : go_step st st' → moves_left st' < moves_left st.
Proof.
  intros [[i|] Hm]; cbn [moves] in Hm.
  - unfold step_moves in Hm. apply bind_Some in Hm as ([step g] & Hi & Hm).
    assert (∀ to, sum_list_with (λ p, moves_of p.2) (<[i := (step, to)]> (rs_steps st)) + moves_of g =
      sum_list_with (λ p : Step * goroutine, moves_of p.2) (rs_steps st) + moves_of to) as Hsum
      by (intros to; exact (sum_list_with_insert (λ p, moves_of p.2) _ _ _ (step, to) Hi)).
    unfold moves_left. destruct g; repeat case_match; simplify_eq; cbn [rs_run rs_main rs_steps];
      match goal with |- context [<[i := (step, ?to)]> _] => specialize (Hsum to) end; cbn [moves_of] in Hsum; try lia.
    pose proof (moves_of_main_keep step (rs_run st) (rs_main st)). lia.
  - unfold main_moves in Hm. unfold moves_left.
    destruct (rs_main st) as [[|level levels]|[|step level] levels|step level levels|levels| |[|step rest]|out];
      repeat case_match; simplify_eq; cbn [rs_run rs_main rs_steps with_main moves_of_main length sum_list_with] in *;
      rewrite ?sum_list_with_app, ?length_reverse; unfold moves_of_levels; cbn [sum_list_with moves_of snd length]; try lia.
Qed.

(** ** The mutex and the counter *)

Definition in_lock (g : goroutine) : bool :=
  match g with Locked | Emitted | Folded => true | _ => false end.
Definition alive (g : goroutine) : nat := match g with Ended => 0 | _ => 1 end.
Definition alive_steps st : nat := sum_list_with (λ p, alive p.2) (rs_steps st).
Definition between_add_and_go (main : runner_goroutine) : nat := match main with Going _ _ _ => 1 | _ => 0 end.
(** The goroutine of [Run] is in the loop over a level. *)
Definition in_level (main : runner_goroutine) : bool :=
  match main with Adding _ _ | Going _ _ _ | Waiting _ => true | _ => false end.

(** The mutex is held by the goroutine between its [Lock] and its [Unlock], the counter
    counts the goroutines that have not called [Done], and outside a level there are none. *)
Record sane st : Prop := {
  sane_mu i : rs_mu st = Some i ↔ ∃ step g, rs_steps st !! i = Some (step, g) ∧ in_lock g = true;
  sane_wg : rs_wg st = alive_steps st + between_add_and_go (rs_main st);
  sane_main : in_level (rs_main st) = false → rs_wg st = 0;
  sane_fatal : rs_fatal st = false;
}.

Lemma sane_begun intentID levels m : sane (begun intentID levels m).
Proof. split; try done. intros i. split; [done|]. by intros (? & ? & ? & _). Qed.

(** A goroutine that moves without the mutex leaves it with whoever holds it. *)
Lemma mu_kept st i step g to :
  (∀ j, rs_mu st = Some j ↔ ∃ step g, rs_steps st !! j = Some (step, g) ∧ in_lock g = true) →
  rs_steps st !! i = Some (step, g) → in_lock g = in_lock to →
  ∀ j, rs_mu st = Some j ↔ ∃ step' g', <[i := (step, to)]> (rs_steps st) !! j = Some (step', g') ∧ in_lock g' = true.
Proof.
  intros Hmu Hi Hg j. rewrite Hmu. pose proof (lookup_lt_Some _ _ _ Hi) as Hlt. destruct (decide (i = j)) as [<-|Hne].
  - rewrite list_lookup_insert_eq, Hi by done. naive_solver.
  - by rewrite list_lookup_insert_ne.
Qed.

Lemma alive_moved st i step g to :
  rs_steps st !! i = Some (step, g) →
  sum_list_with (λ p, alive p.2) (<[i := (step, to)]> (rs_steps st)) + alive g = alive_steps st + alive to.
Proof. intros Hi. exact (sum_list_with_insert (λ p, alive p.2) _ _ _ (step, to) Hi). Qed.

Lemma sane_step_moves i st st' : sane st → step_moves i st = Some st' → sane st'.
Proof.
  intros [Hmu Hwg Hmain Hfatal] Hm. unfold step_moves in Hm. apply bind_Some in Hm as ([step g] & Hi & Hm).
  pose proof (lookup_lt_Some _ _ _ Hi) as Hlt. pose proof (λ to, alive_moved st i step g to Hi) as Hal.
  pose proof (λ to, mu_kept st i step g to Hmu Hi) as Hk.
  assert (alive g = 1 → rs_wg st ≠ 0 ∧ in_level (rs_main st) = true) as Halive.
  { intros Hg. assert (rs_wg st ≠ 0) as Hne.
    { rewrite Hwg. specialize (Hal Ended). rewrite Hg in Hal. cbn in Hal. lia. }
    split; [done|]. destruct (in_level _); [done|]. by destruct (Hne (Hmain eq_refl)). }
  destruct g; repeat case_match; simplify_eq; cbn [alive] in *;
    match goal with |- context [<[i := (step, ?to)]> _] => specialize (Hal to); specialize (Hk to) end;
    cbn [alive in_lock] in *.
  1, 2, 4, 5: split; cbn [rs_mu rs_steps rs_wg rs_main rs_fatal]; try done; [by apply Hk|unfold alive_steps in *; cbn [rs_steps]; lia].
  - split; cbn [rs_mu rs_steps rs_wg rs_main rs_fatal]; try done; [|unfold alive_steps in *; cbn [rs_steps]; lia].
    intros j. split.
    + intros [= <-]. exists step, Locked. by rewrite list_lookup_insert_eq.
    + intros (step' & g' & Hj & Hg). destruct (decide (i = j)) as [->|Hne]; [done|].
      rewrite list_lookup_insert_ne in Hj by done. assert (None = Some j :> option nat) by (apply Hmu; eauto). done.
  - split; cbn [rs_mu rs_steps rs_wg rs_main rs_fatal]; try done; [|unfold alive_steps in *; cbn [rs_steps]; lia|].
    + intros j. split; [done|]. intros (step' & g' & Hj & Hg). exfalso.
      assert (rs_mu st = Some i) as Hii by (apply Hmu; eauto).
      destruct (decide (i = j)) as [<-|Hne].
      { rewrite list_lookup_insert_eq in Hj by done. by injection Hj as _ <-. }
      rewrite list_lookup_insert_ne in Hj by done. assert (rs_mu st = Some j) by (apply Hmu; eauto). congruence.
    + assert (rs_mu st = Some i) as -> by (apply Hmu; eauto). by rewrite Hfatal.
  - destruct (Halive eq_refl) as [Hne Hin].
    split; cbn [rs_mu rs_steps rs_wg rs_main rs_fatal]; try done; [by apply Hk|unfold alive_steps in *; cbn [rs_steps]; lia|by rewrite Hin|].
    rewrite Hfatal. cbn. by apply Nat.eqb_neq.
Qed.

Lemma sane_main_moves st st' : sane st → main_moves st = Some st' → sane st'.
Proof.
  intros [Hmu Hwg Hmain Hfatal] Hm. unfold main_moves in Hm.
  destruct (rs_main st) as [[|level levels]|[|step level] levels|step level levels|levels| |[|step rest]|out] eqn:Em;
    repeat case_match; simplify_eq; unfold alive_steps in *; cbn [between_add_and_go in_level] in *;
    try specialize (Hmain eq_refl);
    split; unfold alive_steps; cbn [rs_mu rs_steps rs_wg rs_main rs_fatal with_main between_add_and_go in_level];
    try done; try lia.
  all: try (match goal with H : (_ =? 0) = true |- _ => apply Nat.eqb_eq in H end; try intros _; try lia).
  - intros i. rewrite Hmu. split; intros (step' & g & Hi & Hg); exists step', g.
    + by rewrite (lookup_app_l_Some _ _ _ _ Hi).
    + apply lookup_app_Some in Hi as [Hi|[_ Hi]]; [done|]. by apply list_lookup_singleton_Some in Hi as [_ [= <- <-]].
  - rewrite sum_list_with_app. cbn [sum_list_with snd alive]. lia.
Qed.

Lemma sane_step st st' : sane st → go_step st st' → sane st'.
Proof. intros H [[i|] Hm]; [by eapply sane_step_moves|by eapply sane_main_moves]. Qed.

Lemma sane_reachable intentID levels m st : rtc go_step (begun intentID levels m) st → sane st.
Proof. intros H. eapply (rtc_ind_r sane); [apply sane_begun| |exact H]. intros ? ? _ Hs Hst. by eapply sane_step. Qed.

(** ** Nothing blocks but a runner that does not return *)

(** The run waits for a runner: for some of the level, every other goroutine having ended
    (or been at the same point), or for the one whose step is being undone. *)
Definition hangs st : Prop :=
  ((∃ i step, rs_steps st !! i = Some (step, AtRunner) ∧ returns step = false) ∧
   ∀ i step g, rs_steps st !! i = Some (step, g) → g = Ended ∨ g = AtRunner ∧ returns step = false) ∨
  ∃ step rest, rs_main st = Undoing (step :: rest) ∧ undoes step = false.

(** The run is over: every goroutine has ended and the mutex is free. *)
Definition run_over st (out : RunResult * option run_error) : Prop :=
  rs_main st = Finished out ∧ rs_mu st = None ∧
  ∀ i step g, rs_steps st !! i = Some (step, g) → g = Ended.

Lemma alive_none l : sum_list_with (λ p : Step * goroutine, alive p.2) l = 0 →
  ∀ i step g, l !! i = Some (step, g) → g = Ended.
Proof.
  induction l as [|[s x] l IH]; intros H [|i] step g; cbn in *; [done..|intros [= -> ->]; by destruct g|].
  apply IH. lia.
Qed.

Lemma alive_some l : sum_list_with (λ p : Step * goroutine, alive p.2) l ≠ 0 →
  ∃ i step g, l !! i = Some (step, g) ∧ g ≠ Ended.
Proof.
  induction l as [|[s g] l IH]; intros H; [done|]. cbn in H. destruct (decide (alive g = 0)) as [Hg|Hg].
  - destruct IH as (i & step & x & Hi & Hx); [lia|]. by exists (S i), step, x.
  - exists 0, s, g. split; [done|]. by intros ->.
Qed.

Lemma stuck_steps st i step g : sane st → (∀ st', ¬ go_step st st') →
  rs_steps st !! i = Some (step, g) → g = Ended ∨ g = AtRunner ∧ returns step = false.
Proof.
  intros Hs Hstuck Hi.
  assert (∀ j s x, rs_steps st !! j = Some (s, x) → is_Some (step_moves j st) → False) as Hno.
  { intros j s x _ [st' Hm]. apply (Hstuck st'). by exists (Some j). }
  specialize (Hno i step g Hi) as Hi'. unfold step_moves in Hi'. rewrite Hi in Hi'. cbn in Hi'.
  destruct g; try (by destruct Hi'; eexists); [| |by left].
  - destruct (returns step) eqn:E; [by destruct Hi'; eexists|]. by right.
  - destruct (rs_mu st) as [j|] eqn:Emu; [|by destruct Hi'; eexists]. exfalso.
    apply Hs in Emu as (s & x & Hj & Hx). apply (Hno j s x Hj). unfold step_moves. rewrite Hj. cbn.
    destruct x; try done; eauto.
Qed.

Lemma stuck_means st : sane st → (∀ st', ¬ go_step st st') → (∃ out, run_over st out) ∨ hangs st.
Proof.
  intros Hs Hstuck. pose proof (λ i step g, stuck_steps st i step g Hs Hstuck) as Hsteps.
  assert (∀ st', main_moves st ≠ Some st') as Hmain by (intros st' Hm; apply (Hstuck st'); by exists None).
  destruct (decide (alive_steps st = 0)) as [Hz|Hz].
  - assert (∀ i step g, rs_steps st !! i = Some (step, g) → g = Ended) as Hended by by apply alive_none.
    assert (rs_mu st = None) as Hmu.
    { destruct (rs_mu st) as [i|] eqn:E; [|done]. apply Hs in E as (step & g & Hi & Hg). apply Hended in Hi. by subst g. }
    unfold main_moves in Hmain. pose proof (sane_wg _ Hs) as Hwg.
    destruct (rs_main st) as [[|level levels]|[|step level] levels|step level levels|levels| |[|step rest]|out] eqn:Em;
      try (by edestruct Hmain).
    + rewrite Hwg, Hz in Hmain. by edestruct Hmain.
    + case_match; by edestruct Hmain.
    + right. right. exists step, rest. split; [done|]. destruct (undoes step); [by edestruct Hmain|done].
    + left. by exists out.
  - right. left. split; [|done]. destruct (alive_some _ Hz) as (i & step & g & Hi & Hg).
    exists i, step. destruct (Hsteps i step g Hi) as [->|[-> Hr]]; done.
Qed.

(** ** Whatever the machinery ends on is a run *)

Definition one_if (b : bool) (step : Step) : list Step := if b then [step] else [].

(** The steps whose goroutines stand at points of a kind. *)
Fixpoint steps_at (f : goroutine → bool) (l : list (Step * goroutine)) : list Step :=
  match l with
  | [] => []
  | (step, g) :: l => one_if (f g) step ++ steps_at f l
  end.

Definition at_start (g : goroutine) : bool := match g with Spawned => true | _ => false end.
Definition at_work (g : goroutine) : bool :=
  match g with AtRunner | Returned | Locked => true | _ => false end.

Lemma steps_at_moved f l i step g to :
  l !! i = Some (step, g) →
  one_if (f g) step ++ steps_at f (<[i := (step, to)]> l) ≡ₚ one_if (f to) step ++ steps_at f l.
Proof.
  revert i. induction l as [|[s x] l IH]; intros [|i]; [done..| |].
  - intros [= -> ->]. cbn. by rewrite !app_assoc, (Permutation_app_comm (one_if (f g) step)).
  - intros Hi. cbn. specialize (IH i Hi). rewrite !(Permutation_app_swap_app _ (one_if (f x) s)). by rewrite IH.
Qed.

Lemma steps_at_app f l k : steps_at f (l ++ k) = steps_at f l ++ steps_at f k.
Proof. induction l as [|[s g] l IH]; [done|]. cbn. by rewrite IH, app_assoc. Qed.

Lemma steps_at_none f l : (∀ i step g, l !! i = Some (step, g) → f g = false) → steps_at f l = [].
Proof.
  induction l as [|[s g] l IH]; intros H; [done|]. cbn. rewrite (H 0 s g eq_refl). apply IH. intros i. exact (H (S i)).
Qed.

(** The run with the outcome that is emitted and not yet folded in. *)
Definition pending_run st : levelRun :=
  match rs_mu st with
  | Some i => match rs_steps st !! i with Some (step, Emitted) => keep_outcome step (rs_run st) | _ => rs_run st end
  | None => rs_run st
  end.

Lemma fold_outcome_halves step run m :
  fold_outcome runner_Run dagName step run m = (keep_outcome step run, emit_outcome step m).
Proof. unfold fold_outcome, keep_outcome, emit_outcome. by destruct (runner_Run step). Qed.

Section simulation.
Context (all : list (list Step)) (start : MemStore).

(** What is left to show of a run whose levels so far are done: the rest of it. *)
Definition completes (levels : list (list Step)) (run : levelRun) (m : MemStore) : Prop :=
  ∀ run' m', runLevels runner_Run dagName levels run m run' m' → runLevels runner_Run dagName all new_run start run' m'.

(** A level under way is a level of atomic moves under way: those not yet started, those
    whose outcome is not yet emitted, the run as it will be, the log as it is. *)
Definition level_under_way (todo : list Step) (levels : list (list Step)) st : Prop :=
  ∃ level run0 m0 ls, lr_failed run0 = "" ∧ completes (level :: levels) run0 m0 ∧
    rtc (level_step runner_Run dagName) (mkLevelState level [] run0 m0) ls ∧
    lv_waiting ls ≡ₚ todo ++ steps_at at_start (rs_steps st) ∧
    lv_running ls ≡ₚ steps_at at_work (rs_steps st) ∧
    lv_run ls = pending_run st ∧ lv_log ls = rs_events st.

Definition simulated st : Prop :=
  match rs_main st with
  | NextLevel levels => lr_failed (rs_run st) = "" ∧ completes levels (rs_run st) (rs_events st)
  | Adding level levels => level_under_way level levels st
  | Going step level levels => level_under_way (step :: level) levels st
  | Waiting levels => level_under_way [] levels st
  | Reporting => runLevels runner_Run dagName all new_run start (rs_run st) (rs_events st)
  | Undoing rest => lr_failed (rs_run st) ≠ "" ∧ ∃ m1 undone,
      runLevels runner_Run dagName all new_run start (rs_run st) m1 ∧
      reverse (lr_completed (rs_run st)) = undone ++ rest ∧
      rs_events st = foldl (compensate_step runner_Compensate dagName) m1 undone
  | Finished out => ∃ run m1, runLevels runner_Run dagName all new_run start run m1 ∧
      if decide (lr_failed run = "")
      then out = (mkRunResult dagName true "", None) ∧ rs_events st = emit dagName "" RunSucceeded "" m1
      else out = (mkRunResult dagName false (lr_failed run), Some (FailedAt (lr_failed run) (lr_failErr run))) ∧
        rs_events st = emit dagName (lr_failed run) RunFailed (lr_failErr run)
          (compensate runner_Compensate dagName (lr_completed run) m1)
  end.

(** The steps a level has not spawned. *)
Definition not_spawned (main : runner_goroutine) : option (list Step * list (list Step)) :=
  match main with
  | Adding level levels => Some (level, levels)
  | Going step level levels => Some (step :: level, levels)
  | Waiting levels => Some ([], levels)
  | _ => None
  end.

Lemma simulated_in_level st todo levels :
  not_spawned (rs_main st) = Some (todo, levels) → simulated st ↔ level_under_way todo levels st.
Proof. unfold simulated. by destruct (rs_main st); intros [= <- <-]. Qed.

Lemma pending_same st st' i step g to :
  rs_steps st !! i = Some (step, g) → rs_steps st' = <[i := (step, to)]> (rs_steps st) →
  rs_mu st' = rs_mu st → rs_run st' = rs_run st → g ≠ Emitted → to ≠ Emitted → pending_run st' = pending_run st.
Proof.
  intros Hi Hsteps Hmu Hrun Hg Hto. unfold pending_run. rewrite Hmu, Hrun, Hsteps. destruct (rs_mu st) as [j|]; [|done].
  pose proof (lookup_lt_Some _ _ _ Hi). destruct (decide (i = j)) as [<-|Hne]; [|by rewrite list_lookup_insert_ne].
  rewrite list_lookup_insert_eq, Hi by done. by destruct g, to.
Qed.

Lemma starts_atomically ls step rest :
  lv_waiting ls ≡ₚ step :: rest → ∃ ls', level_step runner_Run dagName ls ls' ∧
    lv_waiting ls' ≡ₚ rest ∧ lv_running ls' ≡ₚ step :: lv_running ls ∧ lv_run ls' = lv_run ls ∧
    lv_log ls' = emit dagName (step_Name step) StepStarted (step_Runtime step) (lv_log ls).
Proof.
  destruct ls as [waiting running run m]. cbn. intros Hp.
  assert (step ∈ waiting) as (w1 & w2 & ->)%list_elem_of_split by (rewrite Hp; by left).
  eexists. split; [by apply goroutine_starts|]. cbn. split_and!; [|by rewrite Permutation_app_comm|done..].
  rewrite <- Permutation_middle in Hp. by apply Permutation_cons_inv in Hp.
Qed.

Lemma ends_atomically ls step rest :
  lv_running ls ≡ₚ step :: rest → ∃ ls', level_step runner_Run dagName ls ls' ∧
    lv_waiting ls' = lv_waiting ls ∧ lv_running ls' ≡ₚ rest ∧ lv_run ls' = keep_outcome step (lv_run ls) ∧
    lv_log ls' = emit_outcome step (lv_log ls).
Proof.
  destruct ls as [waiting running run m]. cbn. intros Hp.
  assert (step ∈ running) as (w1 & w2 & ->)%list_elem_of_split by (rewrite Hp; by left).
  eexists. split; [by apply goroutine_ends|]. rewrite fold_outcome_halves. cbn. split_and!; [done| |done..].
  rewrite <- Permutation_middle in Hp. by apply Permutation_cons_inv in Hp.
Qed.

Lemma simulated_step_moves i st st' : sane st → simulated st → step_moves i st = Some st' → simulated st'.
Proof.
  intros Hs Hsim Hm. unfold step_moves in Hm. apply bind_Some in Hm as ([step g] & Hi & Hm).
  pose proof (lookup_lt_Some _ _ _ Hi) as Hlt.
  assert (g ≠ Ended) as Hg by (by intros ->).
  assert (∃ todo levels, not_spawned (rs_main st) = Some (todo, levels)) as (todo & levels & Hlev).
  { destruct (in_level (rs_main st)) eqn:Hin; [destruct (rs_main st); eauto; done|]. exfalso.
    pose proof (sane_main _ Hs Hin) as Hwg. rewrite (sane_wg _ Hs) in Hwg. apply Hg.
    eapply (alive_none (rs_steps st)); [unfold alive_steps in Hwg; lia|exact Hi]. }
  assert (in_lock g = true → rs_mu st = Some i) as Hheld by (intros H; apply (sane_mu _ Hs); eauto).
  apply (simulated_in_level st _ _ Hlev) in Hsim as (level & run0 & m0 & ls & Hf0 & Hcompletes & Hrtc & Hw & Hr & Hrun & Hlog).
  pose proof (λ f to, steps_at_moved f (rs_steps st) i step g to Hi) as Hmoved.
  assert (∀ to (st1 : run_state), rs_main st1 = rs_main st → rs_steps st1 = <[i := (step, to)]> (rs_steps st) →
    at_start g = at_start to → at_work g = at_work to → pending_run st1 = pending_run st → rs_events st1 = rs_events st →
    simulated st1) as Hsilent.
  { intros to st1 Hm1 Hs1 Ha Hb Hp1 He1. apply (simulated_in_level st1 todo levels); [congruence|].
    exists level, run0, m0, ls. rewrite Hs1, Hp1, He1. split_and!; try done.
    - rewrite Hw. specialize (Hmoved at_start to). rewrite Ha in Hmoved. apply Permutation_app_inv_l in Hmoved. by rewrite Hmoved.
    - rewrite Hr. specialize (Hmoved at_work to). rewrite Hb in Hmoved. apply Permutation_app_inv_l in Hmoved. by rewrite Hmoved. }
  destruct g; cbn [in_lock] in Hheld.
  - injection Hm as <-. apply (simulated_in_level _ todo levels); [done|].
    pose proof (Hmoved at_start AtRunner) as M1. pose proof (Hmoved at_work AtRunner) as M2. cbn in M1, M2.
    destruct (starts_atomically ls step (todo ++ steps_at at_start (<[i := (step, AtRunner)]> (rs_steps st))))
      as (ls' & Hstep & H1 & H2 & H3 & H4).
    { rewrite Hw, <- M1. by rewrite Permutation_middle. }
    exists level, run0, m0, ls'. cbn [rs_steps rs_events]. split_and!; try done.
    + by eapply rtc_r.
    + by rewrite H2, Hr, M2.
    + rewrite H3, Hrun. symmetry. by apply (pending_same st _ i step Spawned AtRunner).
    + by rewrite H4, Hlog.
  - destruct (returns step); [|done]. injection Hm as <-. apply (Hsilent Returned); try done.
    by apply (pending_same st _ i step AtRunner Returned).
  - destruct (rs_mu st) eqn:Emu; [done|]. injection Hm as <-. apply (Hsilent Locked); try done.
    unfold pending_run. cbn. by rewrite Emu, list_lookup_insert_eq.
  - injection Hm as <-. apply (simulated_in_level _ todo levels); [done|]. specialize (Hheld eq_refl).
    pose proof (Hmoved at_start Emitted) as M1. pose proof (Hmoved at_work Emitted) as M2. cbn in M1, M2.
    destruct (ends_atomically ls step (steps_at at_work (<[i := (step, Emitted)]> (rs_steps st))))
      as (ls' & Hstep & H1 & H2 & H3 & H4).
    { by rewrite Hr, <- M2. }
    exists level, run0, m0, ls'. cbn [rs_steps rs_events]. split_and!; try done.
    + by eapply rtc_r.
    + by rewrite H1, Hw, M1.
    + rewrite H3, Hrun. unfold pending_run. cbn. by rewrite Hheld, Hi, list_lookup_insert_eq.
    + by rewrite H4, Hlog.
  - injection Hm as <-. specialize (Hheld eq_refl). apply (Hsilent Folded); try done.
    unfold pending_run. cbn. by rewrite Hheld, Hi, list_lookup_insert_eq.
  - injection Hm as <-. specialize (Hheld eq_refl). apply (Hsilent Unlocked); try done.
    unfold pending_run. cbn. by rewrite Hheld, Hi.
  - injection Hm as <-. apply (Hsilent Ended); try done. by apply (pending_same st _ i step Unlocked Ended).
  - done.
Qed.

(** Outside a level the mutex is free and no outcome is pending. *)
Lemma all_ended st : sane st → rs_wg st = 0 →
  rs_mu st = None ∧ ∀ i step g, rs_steps st !! i = Some (step, g) → g = Ended.
Proof.
  intros Hs Hwg. pose proof (sane_wg _ Hs) as H. unfold alive_steps in H.
  assert (∀ i step g, rs_steps st !! i = Some (step, g) → g = Ended) as Hended by (apply alive_none; lia).
  split; [|done]. destruct (rs_mu st) as [i|] eqn:E; [|done].
  apply Hs in E as (step & g & Hi & Hg). apply Hended in Hi. by subst g.
Qed.

Lemma simulated_main_moves st st' : sane st → simulated st → main_moves st = Some st' → simulated st'.
Proof.
  intros Hs Hsim Hm. unfold main_moves in Hm. unfold simulated in Hsim.
  destruct (rs_main st) as [[|level levels]|[|step level] levels|step level levels|levels| |[|step rest]|out] eqn:Em; [..|done].
  - injection Hm as <-. destruct Hsim as [Hf Hc]. apply Hc. constructor.
  - injection Hm as <-. destruct Hsim as [Hf Hc]. destruct (all_ended st Hs) as [Hmu Hended].
    { apply (sane_main _ Hs). by rewrite Em. }
    exists level, (rs_run st), (rs_events st), (mkLevelState level [] (rs_run st) (rs_events st)). split_and!; try done.
    + cbn. rewrite steps_at_none; [by rewrite app_nil_r|]. by intros i step g ->%Hended.
    + cbn. rewrite steps_at_none; [done|]. by intros i step g ->%Hended.
    + unfold pending_run. cbn. by rewrite Hmu.
  - injection Hm as <-. exact Hsim.
  - injection Hm as <-. exact Hsim.
  - injection Hm as <-. destruct Hsim as (lv & run0 & m0 & ls & Hf0 & Hc & Hrtc & Hw & Hr & Hrun & Hlog).
    exists lv, run0, m0, ls. cbn [rs_steps rs_events]. rewrite !steps_at_app. split_and!; try done.
    + rewrite Hw. cbn. solve_Permutation.
    + cbn. by rewrite app_nil_r.
    + rewrite Hrun. unfold pending_run. cbn. destruct (rs_mu st) as [i|] eqn:E; [|done].
      apply Hs in E as (s & g & Hi & _). by rewrite (lookup_app_l_Some _ _ _ _ Hi), Hi.
  - destruct (_ =? 0) eqn:Ewg; [|done]. apply Nat.eqb_eq in Ewg. injection Hm as <-.
    destruct (all_ended st Hs Ewg) as [Hmu Hended].
    destruct Hsim as (lv & run0 & m0 & [w r run m] & Hf0 & Hc & Hrtc & Hw & Hr & Hrun & Hlog). cbn in *.
    rewrite steps_at_none in Hw by (by intros i step g ->%Hended). rewrite steps_at_none in Hr by (by intros i step g ->%Hended).
    apply Permutation_nil_r in Hw, Hr. subst w r m. unfold pending_run in Hrun. rewrite Hmu in Hrun. subst run.
    destruct (lr_failed (rs_run st) =s? "") eqn:Ef; cbn.
    + apply eqs_true in Ef. split; [done|]. intros run' m' H. apply Hc. by eapply level_goes_on.
    + apply eqs_false in Ef. apply Hc. by apply level_stops.
  - destruct (lr_failed (rs_run st) =s? "") eqn:Ef; cbn in Hm; injection Hm as <-.
    + apply eqs_true in Ef. exists (rs_run st), (rs_events st). split; [done|]. by rewrite decide_True.
    + apply eqs_false in Ef. split; [done|]. by exists (rs_events st), [].
  - injection Hm as <-. destruct Hsim as (Hf & m1 & undone & Hl & Hu & He). rewrite app_nil_r in Hu.
    exists (rs_run st), m1. split; [done|]. rewrite decide_False by done. split; [done|]. cbn.
    unfold compensate. by rewrite Hu, He.
  - destruct (undoes step); [|done]. injection Hm as <-. destruct Hsim as (Hf & m1 & undone & Hl & Hu & He).
    split; [done|]. exists m1, (undone ++ [step]). rewrite <- app_assoc, foldl_app. cbn. by rewrite He.
Qed.

Lemma simulated_step st st' : sane st → simulated st → go_step st st' → simulated st'.
Proof. intros Hs Hsim [[i|] Hm]; [by eapply simulated_step_moves|by eapply simulated_main_moves]. Qed.
End simulation.

Lemma simulated_reachable intentID levels m st :
  rtc go_step (begun intentID levels m) st →
  simulated levels (emit dagName "" RunStarted ("intent " +:+ intentID) m) st.
Proof.
  intros H. eapply (rtc_ind_r (λ st, sane st ∧ simulated levels _ st) (begun intentID levels m)); [| |exact H].
  - split; [apply sane_begun|]. split; [done|]. by intros run' m'.
  - intros x y _ Hst [Hs Hsim]. split; [by eapply sane_step|by eapply simulated_step].
Qed.
End machine.

(** ** The property of the machinery *)

Lemma nsteps_moves runner_Run runner_Compensate returns undoes dagName n st st' :
  nsteps (go_step runner_Run runner_Compensate returns undoes dagName) n st st' → n + moves_left st' ≤ moves_left st.
Proof.
  induction 1 as [st|n x y z Hxy _ IH]; [done|]. apply go_step_decreases in Hxy. lia.
Qed.

Lemma moves_left_begun dagName intentID levels m :
  moves_left (begun dagName intentID levels m) = 10 * length (concat levels) + 3 * length levels + 4.
Proof.
  change (4 + sum_list_with (λ level : list Step, 10 * length level + 3) levels + 0 + 0 =
    10 * length (concat levels) + 3 * length levels + 4).
  induction levels as [|level levels IH]; [done|]. cbn [sum_list_with concat length]. rewrite length_app. lia.
Qed.

(** C39: a run ends unless a runner hangs. Of a workflow with a live token and an order,
    however the scheduler picks among the goroutines: the run makes a bounded number of
    moves; it never unlocks a mutex that is not held nor takes the wait group below zero;
    where nobody can move, either the run has finished, every goroutine ended and the mutex
    free, or a call to the runner (to run a step, or to undo one) does not return, and then
    every other goroutine of the level has ended and only the wait is left. Whatever it
    finishes on, result and event log, is a run of [Orchestrator.Run], in which starting a
    step and recording its outcome are each one atomic move. *)
Theorem run_ends_unless_a_runner_hangs runner_Run runner_Compensate returns undoes t token dag levels m
    (Htoken : tok_Value token ≠ "") (Hlive : (t < tok_ExpiresAt token)%Z)
    (Hlevels : Layers dag = Ok levels) :
  let go := go_step runner_Run runner_Compensate returns undoes (dag_Name dag) in
  let st0 := begun (dag_Name dag) (tok_IntentID token) levels m in
  (∀ n st, nsteps go n st0 st → n ≤ 10 * length (dag_Steps dag) + 3 * length levels + 4) ∧
  ∀ st, rtc go st0 st →
    rs_fatal st = false ∧
    (∀ out, rs_main st = Finished out →
       run_over st out ∧ Run runner_Run runner_Compensate t token dag m out (rs_events st)) ∧
    ((∀ st', ¬ go st st') → (∃ out, rs_main st = Finished out) ∨ hangs returns undoes st).
Proof.
  intros go st0. split.
  - intros n st H%nsteps_moves. unfold st0 in H. rewrite moves_left_begun in H.
    destruct (layers_spec dag levels Hlevels) as [Hp%Permutation_length _]. lia.
  - intros st Hst. pose proof (sane_reachable _ _ _ _ _ _ _ _ _ Hst) as Hs.
    pose proof (simulated_reachable _ _ _ _ _ _ _ _ _ Hst) as Hsim. split; [by apply Hs|]. split.
    + intros out Hout. split.
      { destruct (all_ended st Hs) as [Hmu Hended]; [apply Hs; by rewrite Hout|done]. }
      unfold simulated in Hsim. rewrite Hout in Hsim. destruct Hsim as (run & m1 & Hr & Hend).
      assert ((tok_Value token =s? "") || negb (ExecutionToken_Valid token t) = false) as Hgate.
      { apply orb_false_iff. split; [by apply eqs_false|]. unfold ExecutionToken_Valid. by rewrite (proj2 (Z.ltb_lt _ _)). }
      case_decide as Hf; destruct Hend as [-> ->]; [by eapply run_succeeded|by eapply run_failed].
    + intros Hstuck. destruct (stuck_means _ _ _ _ _ _ Hs Hstuck) as [(out & Hout & _)|H]; [left; by exists out|by right].
Qed.

(** ** Examples *)

Definition after (returns : Step → bool) (schedule : list (option nat)) : option run_state :=
  foldl (λ st who, st ≫= moves demo_run demo_undo returns (λ _, true) (dag_Name demo_dag) who)
    (Some (begun (dag_Name demo_dag) (tok_IntentID demo_token)
       [[demo_step "build" []]; [demo_step "unit" ["build"]; demo_step "e2e" ["build"]]; [demo_step "deploy" ["unit"; "e2e"]]] NewMemStore))
    schedule.

Lemma after_reached returns schedule st :
  after returns schedule = Some st →
  rtc (go_step demo_run demo_undo returns (λ _, true) (dag_Name demo_dag))
    (begun (dag_Name demo_dag) (tok_IntentID demo_token)
       [[demo_step "build" []]; [demo_step "unit" ["build"]; demo_step "e2e" ["build"]]; [demo_step "deploy" ["unit"; "e2e"]]] NewMemStore) st.
Proof.
  unfold after. generalize (begun (dag_Name demo_dag) (tok_IntentID demo_token)
    [[demo_step "build" []]; [demo_step "unit" ["build"]; demo_step "e2e" ["build"]]; [demo_step "deploy" ["unit"; "e2e"]]] NewMemStore) as st0.
  induction schedule as [|who schedule IH]; intros st0; cbn [foldl]; [intros [= ->]; constructor|].
  change (Some st0 ≫= moves demo_run demo_undo returns (λ _, true) (dag_Name demo_dag) who)
    with (moves demo_run demo_undo returns (λ _, true) (dag_Name demo_dag) who st0).
  destruct (moves _ _ _ _ _ who st0) as [st1|] eqn:E.
  - intros H. eapply rtc_l; [by exists who|by apply IH].
  - assert (∀ l, foldl (λ st who, st ≫= moves demo_run demo_undo returns (λ _, true) (dag_Name demo_dag) who) None l = None) as ->
      by (by induction l). done.
Qed.

Definition spawned (n : nat) : list (option nat) := replicate (2 + 2 * n) None.
(** The two tests overlap: the second starts and blocks on the mutex while the first folds. *)
Definition demo_schedule : list (option nat) :=
  spawned 1 ++ replicate 7 (Some 0) ++ [None] ++ spawned 2 ++
  [Some 2; Some 1; Some 1; Some 2; Some 1; Some 1; Some 1; Some 1; Some 2; Some 2; Some 1; Some 2; Some 2; Some 2] ++
  replicate 5 None.

(** The schedule as far as the failing test, with a test that never returns. *)
Definition demo_hang (s : Step) : bool := negb (step_Name s =s? "unit").

Example a_hanging_test :
  match after demo_hang (spawned 1 ++ replicate 7 (Some 0) ++ [None] ++ spawned 2 ++ [Some 1] ++ replicate 7 (Some 2)) with
  | Some st =>
      rs_steps st = [(demo_step "build" [], Ended); (demo_step "unit" ["build"], AtRunner); (demo_step "e2e" ["build"], Ended)] ∧
      rs_main st = Waiting [[demo_step "deploy" ["unit"; "e2e"]]] ∧
      map (λ who, moves demo_run demo_undo demo_hang (λ _, true) "release" who st) [None; Some 0; Some 1; Some 2] = [None; None; None; None]
  | None => False
  end.
Proof. vm_compute. done. Qed.

Lemma run_ends_unless_a_runner_hangs_witness :
  rs_main <$> after (λ _, true) demo_schedule =
    Some (Finished (mkRunResult "release" false "e2e", Some (FailedAt "e2e" "timed out"))) ∧
  ∃ st, after (λ _, true) demo_schedule = Some st ∧
    Run demo_run demo_undo 5 demo_token demo_dag NewMemStore
      (mkRunResult "release" false "e2e", Some (FailedAt "e2e" "timed out")) (rs_events st).
Proof.
  assert (rs_main <$> after (λ _, true) demo_schedule =
    Some (Finished (mkRunResult "release" false "e2e", Some (FailedAt "e2e" "timed out")))) as Hm by (by vm_compute).
  split; [exact Hm|]. apply fmap_Some in Hm as (st & E & Hm). exists st. split; [exact E|].
  destruct (run_ends_unless_a_runner_hangs demo_run demo_undo (λ _, true) (λ _, true) 5 demo_token demo_dag _ NewMemStore
    ltac:(done) eq_refl demo_levels) as [_ H].
  destruct (H st (after_reached _ _ _ E)) as (_ & Hout & _). by apply Hout.
Defined.
