(* ===== verification/EventLog.v ===== *)
(** The durable event log: [BoltEvents] of [mantlekeep-control/internal/store/events.go],
    the twin of the in-memory [MemStore] of [Orchestrator], over the bucket of [Bucket].

    Opening and closing the file are left out: what a committed transaction wrote is there
    when the file is opened again, so a restart is no step. The JSON codec is a class. *)
From S2P Require Import Prelude Contracts Bucket AuditChain Layers Orchestrator.

(** [encoding/json] of an [Event]. A text is a string the codec gives back. *)
Class EventJSON := {
  event_Marshal : Event → result string string;
  event_Unmarshal : string → result string Event;
  textual : Event → Prop;
  textual_stamp e n : textual e → textual (mkEvent n (ev_Run e) (ev_Step e) (ev_Kind e) (ev_Detail e));
  event_round_trip e : textual e → ∃ v, event_Marshal e = Ok v ∧ event_Unmarshal v = Ok e;
}.

Definition MaxInt : Z := 2 ^ 63 - 1.

(** [e.Seq = int(seq)]. *)
Definition stamp (seq : Z) (e : Event) : Event := mkEvent seq (ev_Run e) (ev_Step e) (ev_Kind e) (ev_Detail e).

Section log.
Context {B : Type} `{!Bucket B, !EventJSON}.

(** [Append]: one transaction, which an error rolls back. *)
Definition BoltEvents_Append (b : B) (e : Event) : result string Event * B :=
  let '(seq, b') := NextSequence b in
  if (MaxInt <? seq)%Z then (Err ("event sequence " +:+ Itoa seq +:+ " exceeds max int"), b)
  else
    let e := stamp seq e in
    match event_Marshal e with
    | Err err => (Err err, b)
    | Ok val =>
        match Put b' (seq_key seq) val with
        | Err err => (Err err, b)
        | Ok b' => (Ok e, b')
        end
    end.

(** The cursor's loop: what it appended to [out], and the error it stopped at. *)
Fixpoint collect_events (run : string) (entries : list (string * string)) : list Event * option string :=
  match entries with
  | [] => ([], None)
  | (_, v) :: entries =>
      match event_Unmarshal v with
      | Err err => ([], Some err)
      | Ok e =>
          let '(out, err) := collect_events run entries in
          (if (run =s? "") || (ev_Run e =s? run) then e :: out else out, err)
      end
  end.
Definition BoltEvents_Events (b : B) (run : string) : list Event * option string := collect_events run (entries b).

(** ** The two logs are twins *)

(** The bucket holds the events of the memory, in its order, under their numbers. *)
Record twin (b : B) (m : MemStore) : Prop := {
  twin_sequence : sequence b = ms_seq m;
  twin_nonneg : (0 ≤ ms_seq m)%Z;
  twin_entries : Forall2 (λ entry e, entry.1 = seq_key (ev_Seq e) ∧ event_Unmarshal entry.2 = Ok e ∧ (1 ≤ ev_Seq e ≤ ms_seq m)%Z)
                   (entries b) (ms_all m);
}.

Lemma twin_empty b : entries b = [] → sequence b = 0%Z → twin b NewMemStore.
Proof. intros He Hs. split; [done|done|]. rewrite He. constructor. Qed.

Lemma twin_well_keyed b m : twin b m → well_keyed b.
Proof.
  intros [Hs Hn He]. split; [lia|]. rewrite Hs. clear Hs. induction He as [|[k v] e es ms (Hk & _ & Hb) _ IH]; [constructor|].
  constructor; [by exists (ev_Seq e)|done].
Qed.

(** Appending: refused and rolled back, or what the memory does. *)
Lemma twin_Append b m e r b' :
  twin b m → textual e → (ms_seq m + 1 < 10 ^ 16)%Z → BoltEvents_Append b e = (r, b') →
  (is_ok r = false ∧ b' = b) ∨ (r = Ok (Append m e).1 ∧ twin b' (Append m e).2).
Proof.
  intros Ht He Hmax. pose proof (twin_well_keyed _ _ Ht) as Hk. destruct Ht as [Hs Hn Hf].
  unfold BoltEvents_Append. destruct (NextSequence b) as [seq b1] eqn:Hnext.
  assert (seq = ms_seq m + 1)%Z as ->.
  { pose proof (NextSequence_spec b) as Hspec. rewrite Hnext in Hspec. injection Hspec as Hspec. lia. }
  rewrite (proj2 (Z.ltb_ge MaxInt (ms_seq m + 1))) by (unfold MaxInt; lia).
  destruct (event_round_trip _ (textual_stamp e (ms_seq m + 1) He)) as (v & Hm & Hu). fold (stamp (ms_seq m + 1) e) in Hm, Hu.
  rewrite Hm. destruct (Put b1 (seq_key (ms_seq m + 1)) v) as [b2|err] eqn:Hput; intros [= <- <-]; [|by left]. right. split; [done|].
  assert (append_next b (λ _, v) = Ok b2) as Ha by (unfold append_next; rewrite Hnext; done).
  apply append_next_Ok in Ha as (Hent & Hseq & _); [|done|rewrite Hs; lia].
  split; [simpl; by rewrite Hseq, Hs|simpl; lia|]. rewrite Hent, Hs. cbn [Append ms_all ms_seq snd]. apply Forall2_app.
  - eapply Forall2_impl; [exact Hf|]. intros entry x (? & ? & ? & ?). split_and!; [done..|lia].
  - repeat constructor; simpl; [done|lia|lia].
Qed.

Lemma twin_Events b m run : twin b m → BoltEvents_Events b run = (Events m run, None).
Proof.
  intros [_ _ Hf]. unfold BoltEvents_Events, Events. induction Hf as [|[k v] e es ms (_ & Hv & _) _ IH]; [done|].
  cbn [collect_events]. cbn in Hv. rewrite Hv, IH. destruct (run =s? "") eqn:E1; autorewrite with mk in E1; simpl.
  - by rewrite filter_cons_True by (by left).
  - destruct (ev_Run e =s? run) eqn:E2; autorewrite with mk in E2.
    + by rewrite filter_cons_True by (by right).
    + by rewrite filter_cons_False by (by intros [?|?]).
Qed.

(** Any appends, with the answers. *)
Fixpoint appends (b : B) (es : list Event) : list (result string Event) * B :=
  match es with
  | [] => ([], b)
  | e :: es => let '(r, b) := BoltEvents_Append b e in let '(rs, b) := appends b es in (r :: rs, b)
  end.

(** The memory, given only the events the log took. *)
Fixpoint took (m : MemStore) (es : list Event) (rs : list (result string Event)) : MemStore :=
  match es, rs with
  | e :: es, r :: rs => took (if is_ok r then (Append m e).2 else m) es rs
  | _, _ => m
  end.
(** What the memory would have answered them. *)
Fixpoint answered (m : MemStore) (es : list Event) (rs : list (result string Event)) : Prop :=
  match es, rs with
  | [], [] => True
  | e :: es, r :: rs =>
      match r with
      | Ok e' => e' = (Append m e).1 ∧ answered (Append m e).2 es rs
      | Err _ => answered m es rs
      end
  | _, _ => False
  end.

Lemma twin_appends es : ∀ b m rs b',
  twin b m → Forall textual es → (ms_seq m + Z.of_nat (length es) < 10 ^ 16)%Z → appends b es = (rs, b') →
  twin b' (took m es rs) ∧ answered m es rs.
Proof.
  induction es as [|e es IH]; intros b m rs b' Ht Hes Hlen Happ; cbn [appends] in Happ; [by injection Happ as <- <-|].
  destruct (BoltEvents_Append b e) as [r b1] eqn:Hr. destruct (appends b1 es) as [rs1 b2] eqn:Ha. injection Happ as <- <-.
  apply Forall_cons in Hes as [He Hes]. cbn [length] in Hlen.
  destruct (twin_Append b m e r b1 Ht He ltac:(lia) Hr) as [[Hok ->]|[-> Ht']].
  - destruct r as [|err]; [done|]. destruct (IH b m rs1 b2) as [? ?]; [done..|lia|done|]. by split.
  - destruct (IH b1 (Append m e).2 rs1 b2) as [? ?]; [done..|cbn [Append ms_seq snd]; lia|done|]. by split.
Qed.

(** The durable log is the memory's log. Start both empty and append any events that
    are text, fewer than ten to the sixteenth: every append the durable log accepts is
    answered with the very event, under the number, that the in-memory log answers; one it
    refuses leaves no trace; and at any time the events it reports, of a run or of all, are
    those the in-memory log reports that was given the accepted ones, in their order. *)
Theorem durable_log_is_the_memorys b es rs b' run :
  entries b = [] → sequence b = 0%Z → Forall textual es → (Z.of_nat (length es) < 10 ^ 16)%Z →
  appends b es = (rs, b') →
  answered NewMemStore es rs ∧ BoltEvents_Events b' run = (Events (took NewMemStore es rs) run, None).
Proof.
  intros He Hs Htext Hlen Ha. destruct (twin_appends es b NewMemStore rs b') as [Ht Hans]; [by apply twin_empty|done|simpl; lia|done|].
  split; [done|]. by apply twin_Events.
Qed.
End log.

(** ** Examples and witnesses *)

(** A disk on which the keys after some sequence numbers cannot be written. *)
Record Disk := mkDisk { dk_bucket : ListBucket; dk_full : list Z }.
#[refine, local] Instance disk_bucket : Bucket Disk := {|
  entries b := lb_entries (dk_bucket b);
  sequence b := lb_sequence (dk_bucket b);
  NextSequence b := ((lb_sequence (dk_bucket b) + 1)%Z, mkDisk (NextSequence (dk_bucket b)).2 (dk_full b));
  Put b k v := if bool_decide (lb_sequence (dk_bucket b) ∈ dk_full b) then Err "no space left on device"
               else match Put (dk_bucket b) k v with Ok b' => Ok (mkDisk b' (dk_full b)) | Err e => Err e end;
|}.
Proof.
  - done.
  - done.
  - done.
  - intros b k v b' H. case_bool_decide; [done|]. injection H as <-. intros Hk.
    exact (Put_last (dk_bucket b) k v (mkListBucket (insert_entry k v (lb_entries (dk_bucket b))) _) eq_refl Hk).
  - intros b k v b' H. case_bool_decide; [done|]. by injection H as <-.
Defined.

#[refine, local] Instance demo_event_json : EventJSON := {|
  event_Marshal e := Ok (bits (encode (ev_Seq e, ev_Run e, ev_Step e, ev_Kind e, ev_Detail e)));
  event_Unmarshal s :=
    match of_bits s ≫= decode with
    | Some (n, run, step, kind, detail) => Ok (mkEvent n run step kind detail)
    | None => Err "unexpected end of JSON input"
    end;
  textual _ := True;
|}.
Proof.
  - done.
  - intros e _. eexists. split; [done|]. rewrite of_bits_bits. simpl. rewrite decode_encode. by destruct e.
Defined.

(** Two runs write to one log; the disk is full for a moment. *)
Definition demo_events : list Event :=
  [mkEvent 0 "release" "" RunStarted "2 steps"; mkEvent 0 "backup" "" RunStarted "1 step";
   mkEvent 0 "release" "build" StepStarted "container"; mkEvent 0 "release" "build" StepSucceeded "did build"].
Definition demo_disk : Disk := mkDisk empty_bucket [].
Definition demo_full : Disk := mkDisk empty_bucket [2%Z].
Definition demo_logged := appends demo_disk demo_events.

(** Once the second number cannot be written no later event is, and none is reported. *)
Example demo_full_disk :
  map is_ok (appends demo_full demo_events).1 = [true; false; false; false] ∧
  map ev_Kind (BoltEvents_Events (appends demo_full demo_events).2 "").1 = [RunStarted].
Proof. by vm_compute. Qed.

Lemma durable_log_is_the_memorys_witness :
  map ev_Seq (BoltEvents_Events demo_logged.2 "release").1 = [1; 3; 4]%Z ∧
  answered NewMemStore demo_events demo_logged.1 ∧
  BoltEvents_Events demo_logged.2 "release" = (Events (took NewMemStore demo_events demo_logged.1) "release", None).
Proof.
  split; [by vm_compute|].
  apply (durable_log_is_the_memorys demo_disk demo_events demo_logged.1 demo_logged.2 "release"); [done|done|by repeat constructor|done|].
  exact (surjective_pairing demo_logged).
Defined.
