(* ===== verification/DoorDemos.v ===== *)
(** The two demonstrations the door comes with: the smoke run of [cmd/mantlekeep/main.go]
    (five intents and two workflows) and [cmd/acme-govern/main.go] (a branded binary).

    Both run on the kernel of [Sdk] with the documents the core ships, which grant nothing;
    what they print is left out. *)
From S2P Require Import Prelude Contracts Cascade Grants Floors Engine Bucket AuditChain Sdk Layers Orchestrator Startup.

(** ** main.go: the door *)

Definition demoResource : string := "project/demo".
Definition actionJobRun : string := "job.run".
Definition actionChangePropose : string := "change.propose".
Definition actionChangeApprove : string := "change.approve".

Definition exampleGrants : PolicyProvider := {|
  prov_Name := "example";
  prov_Actions := [actionJobRun; actionChangePropose];
  prov_RoleActions := {[RoleConsumer := [actionJobRun]; RoleAIAgent := [actionChangePropose]]};
  prov_Admit := λ _ _, None;
|}.

Definition smoke_intent (id action resource who : string) (role : Role) (isAI : bool) (goal : string) : Intent :=
  mkIntent id (plain_subject who [role] isAI) action resource (mkIntentSpec goal [] "" [] [] "") ∅ 0 0 "".
Definition smoke_cases : list Intent :=
  [smoke_intent "INT-001" actionJobRun demoResource "root" RoleSuperAdmin false "run anything — superadmin wildcard";
   smoke_intent "INT-002" actionJobRun demoResource "dev-alice" RoleConsumer false "run the build";
   smoke_intent "INT-003" actionChangePropose demoResource "ci-agent" RoleAIAgent true "propose a dependency bump";
   smoke_intent "INT-004" actionJobRun demoResource "dev-alice" RoleConsumer false "";
   smoke_intent "INT-005" actionChangeApprove demoResource "ci-agent" RoleAIAgent true "approve the change"].
Definition spine_intent : Intent :=
  smoke_intent "INT-100" "spine.run" "demo" "root" RoleSuperAdmin false "run the generic spine demo".

(** [baselineDefault]: what the embedded documents hold. *)
Definition shipped_snapshot : grantsSnapshot :=
  match buildSnapshot (λ _ _, "shipped") (Some (mkGrants ∅ [])) (Some ∅) with Ok s => s | Err _ => mkGrantsSnapshot ∅ ∅ ∅ "" end.

Section demonstration.
Context (ParseFloat : string → option SpecFloat.spec_float) (Getenv : string → string).
Context `{RecordCodec} {B : Type} `{!Bucket B} (sha256_hex : string → string).

(** [sdk.New(identity.NewMock(), policy.NewRBAC().WithProviders(...), aud)] *)
Definition smoke_door (providers : list (option PolicyProvider)) (aud : B) : Kernel B :=
  mkKernel (Mock_Resolve NewMock) (WithProviders NewRBAC providers) (steady shipped_snapshot) aud.

(** The loop over the intents: a verdict each, and the door after them. The clock ticks and
    the tokens are drawn. *)
Fixpoint smoke_submits (clock : nat → Time) (draw : nat → string) (n : nat) (intents : list Intent) (k : Kernel B) :
    list (result go_error ExecutionToken) * Kernel B :=
  match intents with
  | [] => ([], k)
  | i :: intents =>
      let '(r, k) := Submit (Ports0 := kernel_ports ParseFloat Getenv sha256_hex) (clock n) (clock (S n)) (draw n) i k in
      let '(rs, k) := smoke_submits clock draw (S (S n)) intents k in (r :: rs, k)
  end.
End demonstration.

(** ** main.go: the spine *)

Definition demo_step_named (name : string) (deps command : list string) : Step :=
  mkStep name deps "builtin" "" "" command ["undo"].
Definition demoDAG (fail : bool) : DAG :=
  mkDAG "spine-demo" [demo_step_named "step-a" [] ["work"]; demo_step_named "step-b" ["step-a"] [if fail then "boom" else "work"]].

Definition demoRunner_Run (step : Step) : result string string :=
  match step_Command step with
  | c :: _ => if c =s? "boom" then Err ("step " +:+ Quote (step_Name step) +:+ " failed") else Ok ("did " +:+ step_Name step)
  | [] => Ok ("did " +:+ step_Name step)
  end.
Definition demoRunner_Compensate (step : Step) : result string string :=
  match step_Compensation step with
  | [] => Ok "nothing to undo"
  | _ => Ok ("undid " +:+ step_Name step)
  end.

(** ** acme-govern *)

Definition acme_brand : BrandOptions := mkBrandOptions "ACME" "Acme Control" "◆" "governed delivery" "every action through one door".
Definition acme_intents : list Intent :=
  [smoke_intent "ACME-001" actionJobRun demoResource "root" RoleSuperAdmin false "prove the branded binary uses the real door";
   smoke_intent "ACME-002" actionJobRun demoResource "dev-alice" RoleConsumer false ""].

(** ** What the demonstrations show *)

Lemma app_cons_singleton {A} (l1 l2 : list A) x y : l1 ++ x :: l2 = [y] → l1 = [] ∧ x = y ∧ l2 = [].
Proof. destruct l1 as [|z [|]]; simpl; intros H; simplify_eq; done. Qed.

Lemma level_step_inv R name st st' : level_step R name st st' →
  (∃ w1 s w2, lv_waiting st = w1 ++ s :: w2 ∧
     st' = mkLevelState (w1 ++ w2) (lv_running st ++ [s]) (lv_run st) (emit name (step_Name s) StepStarted (step_Runtime s) (lv_log st))) ∨
  (∃ r1 s r2, lv_running st = r1 ++ s :: r2 ∧
     st' = mkLevelState (lv_waiting st) (r1 ++ r2) (fold_outcome R name s (lv_run st) (lv_log st)).1
             (fold_outcome R name s (lv_run st) (lv_log st)).2).
Proof. destruct 1; [left|right]; by do 3 eexists. Qed.

(** A level of one step has one schedule. *)
Lemma level_runs_one R name s run m run' m' :
  level_runs R name [s] run m run' m' →
  (run', m') = fold_outcome R name s run (emit name (step_Name s) StepStarted (step_Runtime s) m).
Proof.
  unfold level_runs. intros H. apply rtc_inv in H as [H|(st1 & H1 & H)]; [done|].
  apply level_step_inv in H1 as [(w1 & s1 & w2 & Hw & ->)|(r1 & s1 & r2 & Hw & _)]; [|by destruct r1].
  apply eq_sym, app_cons_singleton in Hw as (-> & -> & ->). cbn in H.
  apply rtc_inv in H as [H|(st2 & H2 & H)]; [done|].
  apply level_step_inv in H2 as [(w1 & s2 & w2 & Hw & _)|(r1 & s2 & r2 & Hw & ->)]; [by destruct w1|].
  apply eq_sym, app_cons_singleton in Hw as (-> & -> & ->). cbn [app lv_waiting lv_run lv_log] in H.
  apply rtc_inv in H as [H|(st3 & H3 & _)].
  - injection H as <- <-. symmetry. apply surjective_pairing.
  - apply level_step_inv in H3 as [(w1 & s3 & w2 & Hw & _)|(r1 & s3 & r2 & Hw & _)]; [by destruct w1|by destruct r1].
Qed.

(** A level of one step, and the levels after it. *)
Lemma runLevels_cons_one R name s levels run m run' m' :
  runLevels R name ([s] :: levels) run m run' m' →
  let out := fold_outcome R name s run (emit name (step_Name s) StepStarted (step_Runtime s) m) in
  (lr_failed out.1 ≠ "" ∧ run' = out.1 ∧ m' = out.2) ∨ (lr_failed out.1 = "" ∧ runLevels R name levels out.1 out.2 run' m').
Proof.
  intros H out. inversion H as [|? ? ? ? ? ? Hlev Hne|? ? ? ? run1 m2 ? ? Hlev He Hr1]; subst;
    apply level_runs_one in Hlev; symmetry in Hlev; fold out in Hlev; clearbody out; subst out;
    [left; split; [exact Hne|split; reflexivity]|right; split; [exact He|exact Hr1]].
Qed.

Definition event_kinds (m : MemStore) : list (EventKind * string) := map (λ e, (ev_Kind e, ev_Step e)) (ms_all m).

Example demoDAG_levels fail :
  Layers (demoDAG fail) = Ok [[demo_step_named "step-a" [] ["work"]];
                              [demo_step_named "step-b" ["step-a"] [if fail then "boom" else "work"]]].
Proof. by destruct fail; vm_compute. Qed.

(** Every run of the demonstration, with a live token: the clean one succeeds at both steps,
    the other fails at its second and undoes its first. *)
Lemma demonstration_runs t token fail res err m' :
  tok_Value token ≠ "" → (t < tok_ExpiresAt token)%Z →
  Run demoRunner_Run demoRunner_Compensate t token (demoDAG fail) NewMemStore (res, err) m' →
  rr_Success res = negb fail ∧ (err = None ↔ fail = false) ∧
  event_kinds m' = [(RunStarted, ""); (StepStarted, "step-a"); (StepSucceeded, "step-a"); (StepStarted, "step-b")] ++
    (if fail then [(StepFailed, "step-b"); (StepCompensated, "step-a"); (RunFailed, "step-b")]
     else [(StepSucceeded, "step-b"); (RunSucceeded, "")]).
Proof.
  intros Htok Hlive Hrun.
  assert ((tok_Value token =s? "") || negb (ExecutionToken_Valid token t) = false) as Hvalid.
  { apply orb_false_iff. split; [by apply eqs_false|]. unfold ExecutionToken_Valid. by rewrite (proj2 (Z.ltb_lt _ _)). }
  assert (∃ levels run m1, Layers (demoDAG fail) = Ok levels ∧
    runLevels demoRunner_Run (dag_Name (demoDAG fail)) levels new_run
      (emit (dag_Name (demoDAG fail)) "" RunStarted ("intent " +:+ tok_IntentID token) NewMemStore) run m1 ∧
    (lr_failed run ≠ "" ∧ rr_Success res = false ∧ err ≠ None ∧
       m' = emit "spine-demo" (lr_failed run) RunFailed (lr_failErr run)
              (compensate demoRunner_Compensate "spine-demo" (lr_completed run) m1) ∨
     lr_failed run = "" ∧ rr_Success res = true ∧ err = None ∧ m' = emit "spine-demo" "" RunSucceeded "" m1))
    as (levels & run & m1 & Hl & Hr & Hend).
  { inversion Hrun as [Ht|e Ht Hl|levels run m1 Ht Hl Hr Hf|levels run m1 Ht Hl Hr Hf]; subst; [congruence| | |].
    - by rewrite demoDAG_levels in Hl.
    - exists levels, run, m1. split; [done|]. split; [exact Hr|]. left. split; [exact Hf|by split_and!].
    - exists levels, run, m1. split; [done|]. split; [exact Hr|]. right. split; [exact Hf|by split_and!]. }
  rewrite demoDAG_levels in Hl. injection Hl as <-.
  apply runLevels_cons_one in Hr as [(Ha & -> & ->)|(Ha & Hr)]; [by vm_compute in Ha|].
  apply runLevels_cons_one in Hr as [(Hb & -> & ->)|(Hb & Hr)]; destruct fail; try by vm_compute in Hb.
  - destruct Hend as [(_ & -> & He & ->)|(Hf & _)]; [|by vm_compute in Hf]. split; [done|]. split; [by split|]. by vm_compute.
  - inversion Hr; subst. destruct Hend as [(Hf & _)|(_ & -> & -> & ->)]; [by vm_compute in Hf|].
    split; [done|]. split; [done|]. by vm_compute.
Qed.

(** ** The smoke run and the branded binary *)

Definition demo_clock (n : nat) : Time := Z.of_nat n.
Definition demo_tokens (n : nat) : string := "tok-" +:+ pretty n.
Definition demo_smoke := smoke_submits demo_ParseFloat (λ _, "") demo_sha demo_clock demo_tokens 0 (smoke_cases ++ [spine_intent])
  (smoke_door [Some exampleGrants] empty_bucket).
Definition demo_acme := smoke_submits demo_ParseFloat (λ _, "") demo_sha demo_clock demo_tokens 0 acme_intents
  (smoke_door [] empty_bucket).

(** The smoke run: three intents and the workflow's are allowed, the intent without a goal
    and the AI's approval are refused. The refusal for want of a goal leaves no record. *)
Example smoke_verdicts :
  map is_ok demo_smoke.1 = [true; true; true; false; false; true] ∧
  option_map (map rec_IntentID) (Records (k_audit demo_smoke.2) 0) = Some ["INT-100"; "INT-005"; "INT-003"; "INT-002"; "INT-001"] ∧
  Verify demo_sha (k_audit demo_smoke.2) = true.
Proof. by vm_compute. Qed.

(** The branded binary says that both of its records are on the chain; the refused intent
    has none. *)
Example acme_records_one_of_two :
  map is_ok demo_acme.1 = [true; false] ∧
  option_map (map rec_IntentID) (Records (k_audit demo_acme.2) 0) = Some ["ACME-001"].
Proof. by vm_compute. Qed.

(** Under its brand an operator's own name wins. *)
Example acme_brand_wins :
  bo_Name (CurrentBrand (Brand acme_brand {["ACME_BRAND_NAME" := "Northwind"]})) = "Northwind" ∧
  bo_Name (CurrentBrand (Brand acme_brand ∅)) = "Acme Control".
Proof. by vm_compute. Qed.
