(* ===== verification/EstateFloor.v ===== *)
(** The estate's vocabulary and its floor: [mantlekeep-estate/floor.go], with the tiers and
    runtimes of [manifest.go] and the slots of [slot.go].

    Tiers, gates and runtimes are strings, as in the code: a floor document may hold any.
    A duration is its nanoseconds. The cluster limits of [fleet.go] are here too, because
    they are part of the floor. *)
From S2P Require Import Prelude Contracts.

(** ** Tiers, gates and runtimes *)

Notation Tier := string (only parsing).
Definition TierDev : Tier := "dev".
Definition TierShared : Tier := "shared".
Definition TierProd : Tier := "prod".

Definition Tier_valid (t : Tier) : bool :=
  (t =s? TierDev) || (t =s? TierShared) || (t =s? TierProd).

Definition rank (t : Tier) : nat :=
  if t =s? TierShared then 1 else if t =s? TierProd then 2 else 0.

Definition Tier_Strength (t : Tier) : nat :=
  if t =s? TierDev then 1 else if t =s? TierShared then 2 else if t =s? TierProd then 3 else 0.

Notation Gate := string (only parsing).
Definition GateNone : Gate := "none".
Definition GateOwningTeam : Gate := "owning-team".
Definition GatePlatform : Gate := "platform".

Definition Gate_Strength (g : Gate) : nat :=
  if g =s? GateNone then 1 else if g =s? GateOwningTeam then 2
  else if g =s? GatePlatform then 3 else 0.

Notation Runtime := string (only parsing).
Definition RuntimeEnterprise : Runtime := "enterprise".
Definition RuntimeAnalytics : Runtime := "analytics".

(** ** Limits *)

Record KafkaLimits := mkKafkaLimits {
  kl_ProducerBytesPerSec : Z;
  kl_ConsumerBytesPerSec : Z;
  kl_Retention : Duration;
}.

Record PostgresLimits := mkPostgresLimits {
  pl_ConnectionLimit : Z;
  pl_StatementTimeout : Duration;
  pl_IdleInTransactionTimeout : Duration;
}.

Record HarborLimits := mkHarborLimits { hl_RobotExpiry : Duration }.

Record AppLimits := mkAppLimits {
  al_Replicas : Z;
  al_CPULimit : string;
  al_MemoryMiB : Z;
}.

(** Cluster limits: [fleet.go]. *)
Record NodePoolLimits := mkNodePoolLimits {
  npl_MinNodes : Z;
  npl_MaxNodes : Z;
  npl_AllowedInstanceTypes : list string;
}.

Record ControlPlaneLimits := mkControlPlaneLimits { cpl_AllowedKubernetesVersions : list string }.

(** The [Limits any] of an item: one of the structs, or something else (nil, or the map a
    JSON decoder makes). *)
Inductive limits :=
| LKafka (l : KafkaLimits)
| LPostgres (l : PostgresLimits)
| LHarbor (l : HarborLimits)
| LApp (l : AppLimits)
| LNodePool (l : NodePoolLimits)
| LControlPlane (l : ControlPlaneLimits)
| LOther.

(** ** Slots *)

Record Slot := mkSlot {
  slot_Cluster : string;
  slot_Namespace : string;
  slot_Name : string;
}.

Definition Slot_Key (s : Slot) : string :=
  slot_Cluster s +:+ "/" +:+ slot_Namespace s +:+ "/" +:+ slot_Name s.
Definition Slot_Empty (s : Slot) : bool :=
  (slot_Cluster s =s? "") && (slot_Namespace s =s? "") && (slot_Name s =s? "").

(** ** The floor *)

Record AppRule := mkAppRule {
  ar_Gate : Gate;
  ar_Prefer : list string;
}.

Record FleetFloor := mkFleetFloor {
  ff_NodePool : gmap string NodePoolLimits;
  ff_KubernetesVersions : list string;
}.

Record Floor := mkFloor {
  fl_Kafka : gmap string KafkaLimits;
  fl_Postgres : gmap string PostgresLimits;
  fl_Harbor : gmap string HarborLimits;
  fl_App : gmap string (gmap string AppLimits);
  fl_EnvTiers : gmap string Tier;
  fl_Gates : gmap string Gate;
  fl_Signatures : gmap string Z;
  fl_Apps : gmap string AppRule;
  fl_Fleet : FleetFloor;
  fl_Revision : string;
}.

Definition second : Duration := 1000000000%Z.
Definition minute : Duration := (60 * second)%Z.
Definition hour : Duration := (60 * minute)%Z.

(** [t.UnixNano()]: the zero time is 62135596800 seconds before the Unix epoch. *)
Definition UnixNano (t : Time) : Z := (t - 62135596800 * second)%Z.

Definition DefaultGates : gmap string Gate :=
  list_to_map [(TierDev, GateNone); (TierShared, GateOwningTeam); (TierProd, GatePlatform)].

Definition DefaultSignatures : gmap string Z :=
  list_to_map [(GateNone, 0); (GateOwningTeam, 1); (GatePlatform, 1)]%Z.

Definition DefaultEnvTiers : gmap string Tier :=
  list_to_map [("dev", TierDev); ("sit", TierShared); ("prod", TierProd)].

Definition instanceStandard2 : string := "standard-2".
Definition instanceStandard4 : string := "standard-4".
Definition instanceStandard8 : string := "standard-8".

Definition DefaultFleetFloor : FleetFloor := {|
  ff_NodePool := list_to_map
    [(TierDev, mkNodePoolLimits 0 5 [instanceStandard2; instanceStandard4]);
     (TierShared, mkNodePoolLimits 1 20 [instanceStandard2; instanceStandard4; instanceStandard8]);
     (TierProd, mkNodePoolLimits 3 50 [instanceStandard4; instanceStandard8; "standard-16"])]%Z;
  ff_KubernetesVersions := ["1.28"; "1.29"];
|}.

Definition DefaultFloor : Floor := {|
  fl_Kafka := list_to_map
    [(TierDev, mkKafkaLimits (Z.shiftl 10 20) (Z.shiftl 10 20) (7 * 24 * hour));
     (TierShared, mkKafkaLimits (Z.shiftl 50 20) (Z.shiftl 50 20) (30 * 24 * hour));
     (TierProd, mkKafkaLimits (Z.shiftl 100 20) (Z.shiftl 100 20) (30 * 24 * hour))]%Z;
  fl_Postgres := list_to_map
    [(TierDev, mkPostgresLimits 20 (30 * second) minute);
     (TierShared, mkPostgresLimits 50 (2 * minute) (5 * minute));
     (TierProd, mkPostgresLimits 100 (2 * minute) (5 * minute))]%Z;
  fl_Harbor := list_to_map
    [(TierDev, mkHarborLimits (90 * 24 * hour)); (TierShared, mkHarborLimits (90 * 24 * hour));
     (TierProd, mkHarborLimits (90 * 24 * hour))]%Z;
  fl_App := list_to_map
    [(RuntimeEnterprise, list_to_map
        [(TierDev, mkAppLimits 1 "500m" 512); (TierShared, mkAppLimits 2 "1" 1024);
         (TierProd, mkAppLimits 3 "2" 2048)]%Z);
     (RuntimeAnalytics, list_to_map
        [(TierDev, mkAppLimits 1 "1" 2048); (TierShared, mkAppLimits 1 "2" 4096);
         (TierProd, mkAppLimits 2 "2" 8192)]%Z)];
  fl_EnvTiers := ∅;
  fl_Gates := DefaultGates;
  fl_Signatures := ∅;
  fl_Apps := ∅;
  fl_Fleet := DefaultFleetFloor;
  fl_Revision := "";
|}.

Definition SignaturesFor (f : Floor) (gate : Gate) : Z :=
  let required := default 1%Z (DefaultSignatures !! gate) in
  match fl_Signatures f !! gate with
  | Some configured => if (required <? configured)%Z then configured else required
  | None => required
  end.

(** [None] is [ok = false]. *)
Definition MinTierFor (f : Floor) (env : string) : option Tier :=
  match fl_EnvTiers f !! env with
  | Some tier => Some tier
  | None => DefaultEnvTiers !! env
  end.

Definition AtLeast (declared minimum : Tier) : Tier :=
  if (Tier_Strength declared <? Tier_Strength minimum)%nat then minimum else declared.

(** An unknown tier with no configured gate gets the empty gate. *)
Definition GateFor (f : Floor) (tier : Tier) : Gate :=
  match fl_Gates f !! tier with
  | Some gate => gate
  | None => default "" (DefaultGates !! tier)
  end.

Definition PreferredClustersFor (f : Floor) (name : string) : list string :=
  match fl_Apps f !! name with Some rule => ar_Prefer rule | None => [] end.

Definition GateForApp (f : Floor) (tier : Tier) (name : string) : Gate :=
  let fromTier := GateFor f tier in
  match fl_Apps f !! name with
  | None => fromTier
  | Some rule =>
      if ar_Gate rule =s? "" then fromTier
      else if (Gate_Strength (ar_Gate rule) <=? Gate_Strength fromTier)%nat then fromTier
      else ar_Gate rule
  end.

(** ** Lemmas *)

Lemma AtLeast_strength declared minimum :
  Tier_Strength declared ≤ Tier_Strength (AtLeast declared minimum) ∧
  Tier_Strength minimum ≤ Tier_Strength (AtLeast declared minimum).
Proof. unfold AtLeast. destruct (Nat.ltb_spec (Tier_Strength declared) (Tier_Strength minimum)); lia. Qed.

Lemma AtLeast_one_of declared minimum : AtLeast declared minimum = declared ∨ AtLeast declared minimum = minimum.
Proof. unfold AtLeast. case_match; auto. Qed.

(** A rule for an app can raise the gate its tier gives, never lower it. *)
Lemma GateForApp_raises f tier name :
  Gate_Strength (GateFor f tier) ≤ Gate_Strength (GateForApp f tier name).
Proof.
  unfold GateForApp. destruct (fl_Apps f !! name) as [rule|]; [|done].
  destruct (ar_Gate rule =s? ""); [done|].
  destruct (Nat.leb_spec (Gate_Strength (ar_Gate rule)) (Gate_Strength (GateFor f tier))); lia.
Qed.

Lemma rank_strength t : Tier_valid t = true → Tier_Strength t = S (rank t).
Proof.
  unfold Tier_valid. rewrite !orb_true_iff, !eqs_true. by intros [[->| ->]| ->].
Qed.
