(* ===== verification/Placement.v ===== *)
(** Clusters, namespaces and placement: [mantlekeep-estate/placement.go] and
    [namespace.go].

    A placement claim is a hard constraint; among the clusters it admits the placer keeps
    the current one, else takes the first preferred one with room, else the emptiest.
    Free shares are IEEE doubles ([SpecFloat], whose order is the numbers' on the doubles
    of 53-bit mantissas). Go ranges over the [Requires] map in any
    order; the loop only conjoins its tests, so the model's order does not matter. *)
From S2P Require Import Prelude.
From Stdlib Require Import Floats.SpecFloat.

Notation Residency := string (only parsing).
Notation NamespacePattern := string (only parsing).
Notation float64 := spec_float (only parsing).

(** ** Data *)

Record Cluster := mkCluster {
  cl_Name : string;
  cl_Provider : string;
  cl_Region : string;
  cl_Env : string;
  cl_Purpose : string;
  cl_Residency : Residency;
  cl_Labels : gmap string string;
  cl_Namespace : NamespacePattern;
  cl_Reachable : bool;
}.

Record Placement := mkPlacement {
  pm_Env : string;
  pm_Purpose : string;
  pm_Residency : Residency;
  pm_Requires : gmap string string;
}.

Record Capacity := mkCapacity {
  cap_Cluster : string;
  cap_AllocatablePct : float64;
}.

Record Placer := mkPlacer {
  pr_clusters : list Cluster;
  pr_capacity : gmap string float64;
  pr_minFree : float64;
}.

(** The double nearest 0.10. *)
Definition tenth : float64 := S754_finite false 7205759403792794 (-56).
Definition minus_one : float64 := S754_finite true 4503599627370496 (-52).

Definition NewPlacer (clusters : list Cluster) : Placer := mkPlacer clusters ∅ tenth.

(** [WithCapacity] writes the reports into the placer's own map and returns the placer. *)
Definition WithCapacity (p : Placer) (reports : list Capacity) : Placer :=
  mkPlacer (pr_clusters p)
    (foldl (λ m r, <[cap_Cluster r := cap_AllocatablePct r]> m) (pr_capacity p) reports)
    (pr_minFree p).

Record PlacementDecision := mkPlacementDecision {
  pd_Cluster : string;
  pd_Env : string;
  pd_Reason : string;
  pd_Considered : list string;
  pd_Sticky : bool;
}.

(** ** Namespaces *)

Definition placeholderOwns : string := "{owns}".
Definition placeholderEnv : string := "{env}".
Definition maxNamespace : nat := 63.

(** [strings.NewReplacer] of the two placeholders: at each position the one that is there
    is replaced, and no replacement is scanned again. Neither placeholder is a prefix of
    the other, so the order of the pairs does not matter. Every round consumes a byte. *)
Fixpoint replace_placeholders (fuel : nat) (owns env s : string) : string :=
  match fuel with
  | 0 => s
  | S fuel =>
      match CutPrefix s placeholderOwns with
      | Some rest => owns +:+ replace_placeholders fuel owns env rest
      | None =>
          match CutPrefix s placeholderEnv with
          | Some rest => env +:+ replace_placeholders fuel owns env rest
          | None =>
              match s with
              | EmptyString => EmptyString
              | String c s => String c (replace_placeholders fuel owns env s)
              end
          end
      end
  end.
Definition Replacer (owns env s : string) : string := replace_placeholders (slen s) owns env s.

Definition is_lower (c : ascii) : bool := (97 <=? N_of_ascii c)%N && (N_of_ascii c <=? 122)%N.
Definition is_hyphen (c : ascii) : bool := (N_of_ascii c =? 45)%N.

Definition first_char (s : string) : option ascii :=
  match s with EmptyString => None | String c _ => Some c end.
Definition last_char (s : string) : option ascii := first_char (srev s).

(** [^[a-z0-9]([-a-z0-9]*[a-z0-9])?$]: every byte is a letter, a digit or a hyphen, and
    neither the first nor the last one is a hyphen. *)
Definition namespaceLabel (s : string) : bool :=
  let alnum c := is_lower c || is_digit c in
  all_chars (λ c, alnum c || is_hyphen c) s &&
  match first_char s, last_char s with
  | Some a, Some z => alnum a && alnum z
  | _, _ => false
  end.

Inductive placement_error :=
| EUnknownPlaceholder (p : NamespacePattern)
| ENotANamespace (p : NamespacePattern) (namespace : string)
| EClaimSaysNothing
| ENoClusterSatisfies (claim : Placement)
| EEveryClusterFull (claim : Placement).

Definition NamespacePattern_Validate (p : NamespacePattern) : result placement_error unit :=
  if ContainsAny (Replacer "" "" p) "{}" then Err (EUnknownPlaceholder p) else Ok tt.

Definition Render (p : NamespacePattern) (owns env : string) : result placement_error string :=
  if p =s? "" then Ok owns
  else
    _ <-? NamespacePattern_Validate p ;
    let namespace := Replacer owns env p in
    refuse (maxNamespace <? slen namespace) || negb (namespaceLabel namespace)
      with ENotANamespace p namespace ;
    Ok namespace.

(** ** Placement *)

Definition namespaceOf (p : Placer) (cluster : string) : NamespacePattern :=
  match list_find (λ c, cl_Name c = cluster) (pr_clusters p) with
  | Some (_, candidate) => cl_Namespace candidate
  | None => ""
  end.

Definition labelled (c : Cluster) (key : string) : string :=
  match cl_Labels c !! key with
  | Some value => value
  | None =>
      let k := ToLower (TrimSpace key) in
      if (k =s? "env") || (k =s? "environment") then cl_Env c
      else if k =s? "purpose" then cl_Purpose c
      else if k =s? "region" then cl_Region c
      else if k =s? "provider" then cl_Provider c
      else if k =s? "residency" then cl_Residency c
      else ""
  end.

(** The body of the loop over [claim.Requires]. *)
Definition requirement_met (cluster : Cluster) (kv : string * string) : bool :=
  negb ((kv.2 =s? "") || negb (EqualFold (labelled cluster kv.1) kv.2)).

Definition legalFor (claim : Placement) (cluster : Cluster) : bool :=
  if negb (pm_Env claim =s? "") && negb (EqualFold (cl_Env cluster) (pm_Env claim)) then false
  else if negb (forallb (requirement_met cluster) (map_to_list (pm_Requires claim))) then false
  else if negb (pm_Purpose claim =s? "") && negb (EqualFold (cl_Purpose cluster) (pm_Purpose claim))
  then false
  else if pm_Residency claim =s? "" then false
  else if negb (EqualFold (cl_Residency cluster) (pm_Residency claim)) then false
  else cl_Reachable cluster.

Definition legalClusters (p : Placer) (claim : Placement) : list Cluster :=
  List.filter (legalFor claim) (pr_clusters p).

Definition namesOf (clusters : list Cluster) : list string := sort_strings (map cl_Name clusters).

Definition staysPut (legal : list Cluster) (current : string) (considered : list string)
    : option PlacementDecision :=
  if current =s? "" then None
  else match list_find (λ c, cl_Name c = current) legal with
       | Some (_, cluster) =>
           Some (mkPlacementDecision current (cl_Env cluster)
                   "already placed here and still permitted" considered true)
       | None => None
       end.

(** [free, known := p.capacity[name]; known && free < p.minFree] *)
Definition too_full (p : Placer) (name : string) : bool :=
  match pr_capacity p !! name with
  | Some free => SFltb free (pr_minFree p)
  | None => false
  end.

(** The inner loop of [firstPreferred]: the first legal cluster of that name, unless it
    is too full ([break]). *)
Definition preferred_named (p : Placer) (legal : list Cluster) (name : string) : option Cluster :=
  match list_find (λ c, cl_Name c = name) legal with
  | Some (_, cluster) => if too_full p (cl_Name cluster) then None else Some cluster
  | None => None
  end.

Fixpoint firstPreferred (p : Placer) (legal : list Cluster) (prefer : list string) : option Cluster :=
  match prefer with
  | [] => None
  | name :: prefer =>
      match preferred_named p legal name with
      | Some cluster => Some cluster
      | None => firstPreferred p legal prefer
      end
  end.

Definition free_of (p : Placer) (c : Cluster) : float64 :=
  default (S754_zero false) (pr_capacity p !! cl_Name c).

(** One round of [emptiest]: [best] and [found] are one option, [bestFree] is the second
    component. *)
Definition emptiest_step (p : Placer) (acc : option Cluster * float64) (cluster : Cluster)
    : option Cluster * float64 :=
  if too_full p (cl_Name cluster) then acc
  else
    let free := free_of p cluster in
    if SFltb acc.2 free then (Some cluster, free) else acc.

Definition emptiest (p : Placer) (legal : list Cluster) : option Cluster :=
  (foldl (emptiest_step p) (None, minus_one) legal).1.

Definition reasonFor (p : Placer) (best : Cluster) (current : string) : string :=
  let reason := match pr_capacity p !! cl_Name best with
                | Some _ => "the emptiest permitted cluster"
                | None => "permitted; no capacity reported, so chosen by name"
                end in
  if negb (current =s? "")
  then "moved: " +:+ reason +:+ " (the previous cluster is no longer permitted)"
  else reason.

(** The rest of [PlaceWith] once no legal cluster stays put or is preferred. *)
Definition place_emptiest (p : Placer) (claim : Placement) (current : string)
    (prefer : list string) (legal : list Cluster) (considered : list string)
    : result placement_error PlacementDecision :=
  match emptiest p legal with
  | None => Err (EEveryClusterFull claim)
  | Some best =>
      let reason := reasonFor p best current in
      let reason := match prefer with
                    | [] => reason
                    | _ => "no preferred cluster (" +:+ Join prefer ", " +:+
                           ") could take this workload — " +:+ reason
                    end in
      Ok (mkPlacementDecision (cl_Name best) (cl_Env best) reason considered false)
  end.

Definition PlaceWith (p : Placer) (claim : Placement) (current : string) (prefer : list string)
    : result placement_error PlacementDecision :=
  refuse (pm_Env claim =s? "") && bool_decide (pm_Requires claim = ∅) with EClaimSaysNothing ;
  let legal := legalClusters p claim in
  match legal with
  | [] => Err (ENoClusterSatisfies claim)
  | _ =>
      let considered := namesOf legal in
      match staysPut legal current considered with
      | Some stayed => Ok stayed
      | None =>
          match firstPreferred p legal prefer with
          | Some chosen =>
              Ok (mkPlacementDecision (cl_Name chosen) (cl_Env chosen)
                    "preferred by the platform for this workload" considered false)
          | None => place_emptiest p claim current prefer legal considered
          end
      end
  end.

Definition Place (p : Placer) (claim : Placement) (current : string)
    : result placement_error PlacementDecision :=
  PlaceWith p claim current [].

(** ** Lemmas *)

Lemma replace_placeholders_fuel owns env n m s :
  slen s ≤ n → slen s ≤ m →
  replace_placeholders n owns env s = replace_placeholders m owns env s.
Proof.
  assert (Hdrop : ∀ k t, slen (drop_bytes k t) ≤ slen t - k).
  { intros k. induction k as [|k IH]; intros [|c t]; simpl; try lia. apply IH. }
  assert (Hcut : ∀ p t rest, p ≠ "" → CutPrefix t p = Some rest → slen rest < slen t ∨ t = "").
  { intros p t rest Hp. unfold CutPrefix. destruct (HasPrefix t p); [|done]. intros [= <-].
    destruct p as [|a p]; [done|]. destruct t as [|c t]; [by right|left]. simpl.
    specialize (Hdrop (slen p) t). lia. }
  revert m s. induction n as [|n IH]; intros m s Hn Hm.
  { destruct s; [|simpl in Hn; lia]. by destruct m. }
  destruct m as [|m]; [destruct s; [done|simpl in Hm; lia]|].
  destruct s as [|c s]; [done|]. cbn [replace_placeholders].
  destruct (CutPrefix (String c s) placeholderOwns) as [rest|] eqn:E.
  { f_equal. apply Hcut in E as [E|E]; try done. simpl in *. apply IH; lia. }
  destruct (CutPrefix (String c s) placeholderEnv) as [rest|] eqn:E'.
  { f_equal. apply Hcut in E' as [E'|E']; try done. simpl in *. apply IH; lia. }
  f_equal. simpl in *. apply IH; lia.
Qed.

(** What Kubernetes accepts as a namespace name. *)
Definition namespace_name (s : string) : Prop :=
  slen s ≤ maxNamespace ∧ namespaceLabel s = true.

Lemma Render_ok p owns env namespace :
  Render p owns env = Ok namespace →
  (p = "" ∧ namespace = owns) ∨ (p ≠ "" ∧ namespace = Replacer owns env p ∧ namespace_name namespace).
Proof.
  unfold Render. destruct (p =s? "") eqn:E.
  { apply eqs_true in E. intros [= <-]. by left. }
  apply eqs_false in E. destruct (NamespacePattern_Validate p); [|done]. simpl.
  destruct ((maxNamespace <? slen (Replacer owns env p)) || _) eqn:Hc; [done|].
  apply orb_false_iff in Hc as [Hl Hn]. apply Nat.ltb_ge in Hl. apply negb_false_iff in Hn.
  intros [= <-]. by right.
Qed.

(** What a claim asks of a cluster. *)
Record satisfies (claim : Placement) (c : Cluster) : Prop := {
  sat_env : pm_Env claim = "" ∨ EqualFold (cl_Env c) (pm_Env claim) = true;
  sat_requires : ∀ k want, pm_Requires claim !! k = Some want →
    want ≠ "" ∧ EqualFold (labelled c k) want = true;
  sat_purpose : pm_Purpose claim = "" ∨ EqualFold (cl_Purpose c) (pm_Purpose claim) = true;
  sat_residency_named : pm_Residency claim ≠ "";
  sat_residency : EqualFold (cl_Residency c) (pm_Residency claim) = true;
  sat_reachable : cl_Reachable c = true;
}.

Lemma optional_fold_true a b :
  negb (a =s? "") && negb (EqualFold b a) = false ↔ a = "" ∨ EqualFold b a = true.
Proof. rewrite andb_false_iff, !negb_false_iff, eqs_true. done. Qed.

Lemma requires_met_true claim c :
  forallb (requirement_met c) (map_to_list (pm_Requires claim)) = true ↔
  ∀ k want, pm_Requires claim !! k = Some want →
    want ≠ "" ∧ EqualFold (labelled c k) want = true.
Proof.
  rewrite forallb_forall. split.
  - intros H k want Hk. apply elem_of_map_to_list, list_elem_of_In in Hk.
    specialize (H _ Hk). unfold requirement_met in H. cbn [fst snd] in H.
    apply negb_true_iff, orb_false_iff in H as [H1 H2].
    split; [by apply eqs_false|by apply negb_false_iff].
  - intros H [k want] Hk. apply list_elem_of_In, elem_of_map_to_list in Hk.
    destruct (H _ _ Hk) as [H1 H2]. unfold requirement_met. cbn [fst snd].
    apply negb_true_iff, orb_false_iff. split; [by apply eqs_false|by rewrite H2].
Qed.

Lemma legalFor_satisfies claim c : legalFor claim c = true ↔ satisfies claim c.
Proof.
  unfold legalFor.
  destruct (negb (pm_Env claim =s? "") && _) eqn:E1.
  { split; [done|]. intros [H _ _ _ _ _]. apply optional_fold_true in H. congruence. }
  destruct (negb (forallb _ _)) eqn:E2.
  { apply negb_true_iff in E2. split; [done|]. intros [_ H _ _ _ _].
    apply requires_met_true in H. congruence. }
  apply negb_false_iff in E2.
  destruct (negb (pm_Purpose claim =s? "") && _) eqn:E3.
  { split; [done|]. intros [_ _ H _ _ _]. apply optional_fold_true in H. congruence. }
  destruct (pm_Residency claim =s? "") eqn:E4.
  { apply eqs_true in E4. split; [done|]. by intros []. }
  destruct (negb (EqualFold _ (pm_Residency claim))) eqn:E5.
  { apply negb_true_iff in E5. split; [done|]. intros []. congruence. }
  apply negb_false_iff in E5. apply optional_fold_true in E1, E3.
  pose proof (proj1 (requires_met_true claim c) E2). apply eqs_false in E4.
  split; [by constructor|by intros []].
Qed.

Lemma elem_of_legalClusters p claim c :
  c ∈ legalClusters p claim ↔ c ∈ pr_clusters p ∧ satisfies claim c.
Proof.
  unfold legalClusters. rewrite list_elem_of_In, filter_In, <- list_elem_of_In.
  by rewrite legalFor_satisfies.
Qed.

Lemma find_name_Some (l : list Cluster) name i c :
  list_find (λ c, cl_Name c = name) l = Some (i, c) → c ∈ l ∧ cl_Name c = name.
Proof. intros (Hi & Hn & _)%list_find_Some. split; [by eapply list_elem_of_lookup_2|done]. Qed.

Lemma find_name_None (l : list Cluster) name :
  list_find (λ c, cl_Name c = name) l = None → ∀ c, c ∈ l → cl_Name c ≠ name.
Proof. intros H%list_find_None c Hc. by eapply Forall_forall in H. Qed.

(** *** Doubles *)

Lemma SFltb_trans a b c : SFltb a b = true → SFltb b c = true → SFltb a c = true.
Proof.
  unfold SFltb, SFcompare.
  destruct a as [[]|[]| |[] m e], b as [[]|[]| |[] m' e'], c as [[]|[]| |[] m'' e''];
    try done; simpl;
    destruct (Z.compare_spec e e'), (Z.compare_spec e' e''), (Z.compare_spec e e'');
    try done; try lia;
    rewrite ?Pos.compare_cont_spec; simpl;
    destruct (Pos.compare_spec m m'), (Pos.compare_spec m' m''), (Pos.compare_spec m m'');
    simpl; try done; try lia.
Qed.

Lemma roomy_above_minus_one f :
  SFltb f tenth = false → f ≠ S754_nan → SFltb minus_one f = true.
Proof. by destruct f as [[]|[]| |[] m e]. Qed.

(** *** The emptiest cluster *)

(** What the loop has found after the clusters [l]: the best candidate, none of the
    others being emptier. *)
Definition candidate (p : Placer) (c : Cluster) : Prop :=
  too_full p (cl_Name c) = false ∧ SFltb minus_one (free_of p c) = true.

Definition emptiest_inv (p : Placer) (l : list Cluster) (acc : option Cluster * float64) : Prop :=
  match acc.1 with
  | None => acc.2 = minus_one ∧ ∀ c, c ∈ l → ¬ candidate p c
  | Some best =>
      best ∈ l ∧ candidate p best ∧ acc.2 = free_of p best ∧
      ∀ c, c ∈ l → candidate p c → SFltb (free_of p best) (free_of p c) = false
  end.

Lemma SFltb_irrefl f : SFltb f f = false.
Proof.
  unfold SFltb, SFcompare. destruct f as [[]|[]| |[] m e]; try done.
  all: rewrite Z.compare_refl, Pos.compare_cont_refl; done.
Qed.

Lemma emptiest_step_inv p l acc c :
  emptiest_inv p l acc → emptiest_inv p (l ++ [c]) (emptiest_step p acc c).
Proof.
  unfold emptiest_step. destruct acc as [[best|] free]; unfold emptiest_inv; cbn [fst snd].
  - intros (Hin & Hb & -> & Hmax). destruct (too_full p (cl_Name c)) eqn:Hf.
    + cbn [fst snd]. split; [set_solver|]. do 2 (split; [done|]). intros c' Hc' Hcand.
      apply elem_of_app in Hc' as [?|Hc']; [by apply Hmax|].
      apply list_elem_of_singleton in Hc' as ->. by destruct Hcand; congruence.
    + destruct (SFltb (free_of p best) (free_of p c)) eqn:Hlt; cbn [fst snd].
      * split; [set_solver|]. split; [split; [done|by eapply SFltb_trans; [apply Hb|]]|].
        split; [done|]. intros c' Hc' Hcand. apply elem_of_app in Hc' as [Hc'|Hc'].
        -- destruct (SFltb (free_of p c) (free_of p c')) eqn:Hlt'; [|done].
           rewrite <- (Hmax c' Hc' Hcand). by eapply eq_sym, SFltb_trans.
        -- apply list_elem_of_singleton in Hc' as ->. apply SFltb_irrefl.
      * split; [set_solver|]. do 2 (split; [done|]). intros c' Hc' Hcand.
        apply elem_of_app in Hc' as [?|Hc']; [by apply Hmax|].
        by apply list_elem_of_singleton in Hc' as ->.
  - intros [-> Hno]. destruct (too_full p (cl_Name c)) eqn:Hf.
    + cbn [fst snd]. split; [done|]. intros c' Hc'.
      apply elem_of_app in Hc' as [?|Hc']; [by apply Hno|].
      apply list_elem_of_singleton in Hc' as ->. intros []. congruence.
    + destruct (SFltb minus_one (free_of p c)) eqn:Hlt; cbn [fst snd].
      * split; [set_solver|]. do 2 (split; [done|]). intros c' Hc' Hcand.
        apply elem_of_app in Hc' as [Hc'|Hc']; [by destruct (Hno c')|].
        apply list_elem_of_singleton in Hc' as ->. apply SFltb_irrefl.
      * split; [done|]. intros c' Hc'. apply elem_of_app in Hc' as [?|Hc']; [by apply Hno|].
        apply list_elem_of_singleton in Hc' as ->. intros []. congruence.
Qed.

Lemma emptiest_fold_inv p done_ todo acc :
  emptiest_inv p done_ acc → emptiest_inv p (done_ ++ todo) (foldl (emptiest_step p) acc todo).
Proof.
  revert done_ acc. induction todo as [|c todo IH]; intros done_ acc H; [by rewrite app_nil_r|].
  rewrite cons_middle, app_assoc. cbn [foldl]. by apply IH, emptiest_step_inv.
Qed.

Lemma emptiest_spec p legal :
  match emptiest p legal with
  | Some best =>
      best ∈ legal ∧ candidate p best ∧
      ∀ c, c ∈ legal → candidate p c → SFltb (free_of p best) (free_of p c) = false
  | None => ∀ c, c ∈ legal → ¬ candidate p c
  end.
Proof.
  assert (H : emptiest_inv p [] (None, minus_one)).
  { split; [done|]. intros c Hc. by apply not_elem_of_nil in Hc. }
  apply (emptiest_fold_inv p [] legal) in H. unfold emptiest, emptiest_inv in *. simpl in H.
  destruct (foldl _ _ _) as [[best|] free]; cbn [fst snd] in *; [|apply H].
  destruct H as (? & ? & _ & ?). done.
Qed.

(** *** The preferred cluster *)

(** A legal cluster of this name exists, and its name is not reported too full. *)
Definition preferable (p : Placer) (legal : list Cluster) (name : string) : Prop :=
  too_full p name = false ∧ ∃ c, c ∈ legal ∧ cl_Name c = name.

Lemma preferred_named_spec p legal name :
  match preferred_named p legal name with
  | Some c => c ∈ legal ∧ cl_Name c = name ∧ preferable p legal name
  | None => ¬ preferable p legal name
  end.
Proof.
  unfold preferred_named, preferable.
  destruct (list_find _ legal) as [[i c]|] eqn:Hf.
  - apply find_name_Some in Hf as [Hin <-]. destruct (too_full p (cl_Name c)); [by intros [? _]|].
    do 3 (split; [done|]). by exists c.
  - intros (_ & c & Hin & Hc). by apply (find_name_None _ _ Hf c).
Qed.

Lemma firstPreferred_spec p legal prefer :
  match firstPreferred p legal prefer with
  | Some c =>
      c ∈ legal ∧ ∃ before after, prefer = before ++ cl_Name c :: after ∧
        preferable p legal (cl_Name c) ∧ ∀ n, n ∈ before → ¬ preferable p legal n
  | None => ∀ n, n ∈ prefer → ¬ preferable p legal n
  end.
Proof.
  induction prefer as [|name prefer IH]; simpl; [by intros n ?%not_elem_of_nil|].
  pose proof (preferred_named_spec p legal name) as Hn.
  destruct (preferred_named p legal name) as [c|].
  - destruct Hn as (Hin & <- & Hp). split; [done|]. exists [], prefer. split; [done|].
    split; [done|]. by intros n ?%not_elem_of_nil.
  - destruct (firstPreferred p legal prefer) as [c|].
    + destruct IH as (Hin & before & after & -> & Hp & Hb). split; [done|].
      exists (name :: before), after. split; [done|]. split; [done|].
      intros n [->|?]%elem_of_cons; auto.
    + intros n [->|?]%elem_of_cons; auto.
Qed.

(** *** The decision *)

(** Why the chosen cluster was chosen. *)
Inductive placed_because (p : Placer) (legal : list Cluster) (current : string)
    (prefer : list string) (c : Cluster) : bool → Prop :=
| because_stays :
    current ≠ "" → cl_Name c = current → placed_because p legal current prefer c true
| because_preferred before after :
    (current ≠ "" → ∀ c', c' ∈ legal → cl_Name c' ≠ current) →
    prefer = before ++ cl_Name c :: after → preferable p legal (cl_Name c) →
    (∀ n, n ∈ before → ¬ preferable p legal n) →
    placed_because p legal current prefer c false
| because_emptiest :
    (current ≠ "" → ∀ c', c' ∈ legal → cl_Name c' ≠ current) →
    (∀ n, n ∈ prefer → ¬ preferable p legal n) → candidate p c →
    (∀ c', c' ∈ legal → candidate p c' → SFltb (free_of p c) (free_of p c') = false) →
    placed_because p legal current prefer c false.

Lemma staysPut_spec legal current considered :
  match staysPut legal current considered with
  | Some d => ∃ c, c ∈ legal ∧ current ≠ "" ∧ cl_Name c = current ∧
      pd_Cluster d = cl_Name c ∧ pd_Env d = cl_Env c ∧ pd_Sticky d = true ∧
      pd_Considered d = considered
  | None => current ≠ "" → ∀ c, c ∈ legal → cl_Name c ≠ current
  end.
Proof.
  unfold staysPut. destruct (current =s? "") eqn:E; [by apply eqs_true in E|].
  apply eqs_false in E. destruct (list_find _ legal) as [[i c]|] eqn:Hf.
  - apply find_name_Some in Hf as [Hin Hc]. by exists c.
  - intros _. by apply find_name_None.
Qed.

Lemma PlaceWith_spec p claim current prefer :
  match PlaceWith p claim current prefer with
  | Ok d => ∃ c, c ∈ pr_clusters p ∧ satisfies claim c ∧
      pd_Cluster d = cl_Name c ∧ pd_Env d = cl_Env c ∧
      pd_Considered d = namesOf (legalClusters p claim) ∧
      placed_because p (legalClusters p claim) current prefer c (pd_Sticky d)
  | Err EClaimSaysNothing => pm_Env claim = "" ∧ pm_Requires claim = ∅
  | Err (ENoClusterSatisfies _) => ∀ c, c ∈ pr_clusters p → ¬ satisfies claim c
  | Err (EEveryClusterFull _) => ∀ c, c ∈ pr_clusters p → satisfies claim c → ¬ candidate p c
  | Err _ => False
  end.
Proof.
  unfold PlaceWith. destruct (_ && _) eqn:Hn.
  { apply andb_true_iff in Hn as [?%eqs_true ?%bool_decide_eq_true]. done. }
  destruct (legalClusters p claim) as [|c0 l0] eqn:Hl.
  { intros c Hc Hs. apply (not_elem_of_nil c). rewrite <- Hl. by apply elem_of_legalClusters. }
  rewrite <- Hl. clear Hl c0 l0. pose proof (elem_of_legalClusters p claim) as Hlegal.
  generalize dependent (legalClusters p claim). intros legal Hlegal.
  pose proof (staysPut_spec legal current (namesOf legal)) as Hstay.
  destruct (staysPut _ _ _) as [d|].
  { destruct Hstay as (c & Hin & Hcur & Hc & -> & -> & -> & ->). exists c.
    apply Hlegal in Hin as [? ?]. by repeat (split; [done|]); constructor. }
  pose proof (firstPreferred_spec p legal prefer) as Hpref.
  destruct (firstPreferred p legal prefer) as [c|].
  { destruct Hpref as (Hin & before & after & Hpre & Hp & Hb). exists c.
    apply Hlegal in Hin as [? ?]. do 5 (split; [done|]). by eapply because_preferred. }
  unfold place_emptiest. pose proof (emptiest_spec p legal) as Hem.
  destruct (emptiest p legal) as [best|].
  - destruct Hem as (Hin & Hc & Hmax). exists best. apply Hlegal in Hin as [? ?].
    do 5 (split; [done|]). by apply because_emptiest.
  - intros c Hc Hs. apply Hem, Hlegal. by split.
Qed.

Lemma PlaceWith_legal p claim current prefer d :
  PlaceWith p claim current prefer = Ok d →
  ∃ c, c ∈ pr_clusters p ∧ satisfies claim c ∧ pd_Cluster d = cl_Name c ∧ pd_Env d = cl_Env c.
Proof.
  intros H. pose proof (PlaceWith_spec p claim current prefer) as Hs. rewrite H in Hs.
  destruct Hs as (c & ? & ? & ? & ? & _). by exists c.
Qed.

Lemma WithCapacity_parts p reports :
  pr_clusters (WithCapacity p reports) = pr_clusters p ∧
  pr_minFree (WithCapacity p reports) = pr_minFree p.
Proof. done. Qed.

(** A fresh placer takes a cluster exactly when its free share, zero when not reported as
    for [emptiest], is not known to be under a tenth (and is a number). *)
Lemma candidate_fresh clusters reports c :
  let p := WithCapacity (NewPlacer clusters) reports in
  candidate p c ↔
  match pr_capacity p !! cl_Name c with
  | Some free => SFltb free tenth = false ∧ free ≠ S754_nan
  | None => True
  end.
Proof.
  intros p. unfold candidate, too_full, free_of. destruct (pr_capacity p !! cl_Name c) as [free|]; simpl.
  - split.
    + intros [? Hm]. split; [done|]. by intros ->.
    + intros [? ?]. split; [done|]. by apply roomy_above_minus_one.
  - done.
Qed.

Lemma placed_afresh p legal current prefer c :
  placed_because p legal current prefer c false → too_full p (cl_Name c) = false.
Proof. inversion 1 as [|? ? _ _ Hp _|_ _ Hc _]; subst; [apply Hp|apply Hc]. Qed.

(** C35: placement is legal and justified. Whatever fleet and capacity reports the placer
    holds, a decision names a reachable cluster of the fleet that satisfies every
    constraint of the claim, its environment included, and records all legal clusters as
    considered; it keeps the current cluster whenever that one is still legal, otherwise
    takes the first preference that is legal and has room, otherwise a legal cluster with
    a tenth free that no other such cluster exceeds. A refusal means, respectively, that
    the claim says nothing, that no cluster satisfies it, or that no legal cluster has a
    tenth free; nothing is ever placed where the claim does not allow it. *)
Theorem placement_is_legal_and_justified clusters reports claim current prefer :
  let p := WithCapacity (NewPlacer clusters) reports in
  let roomy c := match pr_capacity p !! cl_Name c with
                 | Some free => SFltb free tenth = false ∧ free ≠ S754_nan
                 | None => True
                 end in
  match PlaceWith p claim current prefer with
  | Ok d => ∃ c, c ∈ clusters ∧ satisfies claim c ∧
      pd_Cluster d = cl_Name c ∧ pd_Env d = cl_Env c ∧
      pd_Considered d = namesOf (List.filter (legalFor claim) clusters) ∧
      placed_because p (List.filter (legalFor claim) clusters) current prefer c (pd_Sticky d) ∧
      (pd_Sticky d = false → too_full p (cl_Name c) = false)
  | Err EClaimSaysNothing => pm_Env claim = "" ∧ pm_Requires claim = ∅
  | Err (ENoClusterSatisfies _) => ∀ c, c ∈ clusters → ¬ satisfies claim c
  | Err (EEveryClusterFull _) => ∀ c, c ∈ clusters → satisfies claim c → ¬ roomy c
  | Err _ => False
  end.
Proof.
  intros p roomy. pose proof (PlaceWith_spec p claim current prefer) as H.
  destruct (PlaceWith p claim current prefer) as [d|[]]; try done.
  - destruct H as (c & ? & ? & ? & ? & ? & Hb). exists c. do 6 (split; [done|]).
    intros Hst. rewrite Hst in Hb. by apply placed_afresh in Hb.
  - intros c Hc Hs Hr. by apply (H c Hc Hs), candidate_fresh.
Qed.

(** ** Witnesses *)

Definition demo_cluster (name residency : string) : Cluster :=
  mkCluster name "cloud" "eu-west" "prod" "app" residency ∅ "{owns}-{env}" true.
Definition demo_claim : Placement := mkPlacement "PROD" "" "eu" {["region" := "EU-West"]}.
Definition demo_placer : Placer :=
  WithCapacity (NewPlacer [demo_cluster "a" "eu"; demo_cluster "b" "eu"; demo_cluster "c" "us"])
    [mkCapacity "a" (S754_finite false 4503599627370496 (-56)); mkCapacity "b" (S754_finite false 4503599627370496 (-53));
     mkCapacity "c" (S754_finite false 4503599627370496 (-52))].

Example demo_placed :
  (λ d, (pd_Cluster d, pd_Considered d)) <$>
    (match PlaceWith demo_placer demo_claim "" ["c"; "a"] with Ok d => Some d | Err _ => None end)
  = Some ("b", ["a"; "b"]).
Proof. by vm_compute. Qed.

Example demo_sticky :
  match PlaceWith demo_placer demo_claim "a" [] with Ok d => pd_Sticky d | Err _ => false end = true.
Proof. by vm_compute. Qed.
