(* ===== verification/Manifest.v ===== *)
(** A team's manifest: [mantlekeep-estate/manifest.go], its labels [labels.go] and the
    names labels may not take [governed_fields.go].

    The JSON decoder (strict about unknown fields) is an argument of [ParseManifest]. The
    reflection of [governed_fields.go] runs on a tree of the struct types, written from
    the declarations of the structs. *)
From S2P Require Import Prelude Contracts EstateFloor Placement.

(** ** Names *)

(** [^[a-z][a-z0-9-]{1,30}$] *)
Definition name_MatchString (s : string) : bool :=
  match s with
  | EmptyString => false
  | String c rest =>
      is_lower c && (1 <=? slen rest) && (slen rest <=? 30) &&
      all_chars (λ c, is_lower c || is_digit c || is_hyphen c) rest
  end.

Definition wellFormed (r : Runtime) : bool := name_MatchString r.

(** ** The document *)

Notation Labels := (gmap string string) (only parsing).

Record Item := mkItem { it_Name : string; it_Tier : Tier }.

Record App := mkApp {
  app_Name : string;
  app_Runtime : Runtime;
  app_Image : string;
  app_Placement : Placement;
  app_Tier : Tier;
  app_Labels : Labels;
}.

Record KafkaSection := mkKafkaSection {
  ks_Cluster : string;
  ks_Topics : list Item;
  ks_ConsumesFrom : list string;
}.

Record PostgresBind := mkPostgresBind {
  pb_Cluster : string;
  pb_Database : string;
  pb_Schema : string;
  pb_Readers : list string;
  pb_Tier : Tier;
}.

Record HarborSection := mkHarborSection {
  hs_Project : string;
  hs_Robots : list Item;
  hs_Tier : Tier;
}.

Record Manifest := mkManifest {
  m_Team : string;
  m_Owns : string;
  m_Tier : Tier;
  m_Classification : string;
  m_Apps : list App;
  m_Kafka : option KafkaSection;
  m_Postgres : list PostgresBind;
  m_Harbor : option HarborSection;
  m_Labels : Labels;
}.

Inductive manifest_error :=
| EDecode (e : string)
| EBadTeam (team : string)
| EBadOwns (owns : string)
| EBadTier (tier : Tier)
| EBadAppName (name : string)
| EBadRuntime (name : string) (runtime : Runtime)
| ENoImage (name : string)
| EPinnedImage (name image : string)
| ENoPlacement (name : string)
| ENoResidency (name : string)
| EIncompletePostgres
| EUnknownTier (what : string) (tier : Tier)
| ELowersTier (what : string) (tier minimum : Tier)
| EBadItemName (what name : string)
| EBadLabelName (what key : string)
| EGovernedLabel (what key : string)
| ENoLabelValue (what key : string)
| ELongLabel (what key : string)
| EControlInLabel (what key : string)
| ERestatedLabel (what key team : string).

(** ** Runes: [utf8.DecodeRuneInString] *)

Definition byte_at (n : nat) (s : string) : option N := N_of_ascii <$> first_char (drop_bytes n s).
Definition in_range (lo hi : N) (b : option N) : bool :=
  match b with Some b => (lo <=? b)%N && (b <=? hi)%N | None => false end.
Definition rune_error : N := 65533.

(** The number of bytes a first byte announces, with the range of its second byte. *)
Definition lead_byte (b : N) : option (nat * N * N) :=
  if in_range 194 223 (Some b) then Some (2, 128%N, 191%N)
  else if (b =? 224)%N then Some (3, 160%N, 191%N)
  else if (b =? 237)%N then Some (3, 128%N, 159%N)
  else if in_range 225 239 (Some b) then Some (3, 128%N, 191%N)
  else if (b =? 240)%N then Some (4, 144%N, 191%N)
  else if in_range 241 243 (Some b) then Some (4, 128%N, 191%N)
  else if (b =? 244)%N then Some (4, 128%N, 143%N)
  else None.

Definition low_bits (b : option N) : N := N.land (default 0%N b) 63.

(** The rune and its width; an invalid sequence is one byte of U+FFFD. *)
Definition decode_rune (b : N) (s : string) : N * nat :=
  if (b <? 128)%N then (b, 1)
  else match lead_byte b with
       | Some (size, lo, hi) =>
           if in_range lo hi (byte_at 1 s) && ((size <=? 2) || in_range 128 191 (byte_at 2 s))
              && ((size <=? 3) || in_range 128 191 (byte_at 3 s))
           then (match size with
                 | 2 => N.lor (N.shiftl (N.land b 31) 6) (low_bits (byte_at 1 s))
                 | 3 => N.lor (N.shiftl (N.land b 15) 12)
                          (N.lor (N.shiftl (low_bits (byte_at 1 s)) 6) (low_bits (byte_at 2 s)))
                 | _ => N.lor (N.shiftl (N.land b 7) 18)
                          (N.lor (N.shiftl (low_bits (byte_at 1 s)) 12)
                             (N.lor (N.shiftl (low_bits (byte_at 2 s)) 6) (low_bits (byte_at 3 s))))
                 end, size)
           else (rune_error, 1)
       | None => (rune_error, 1)
       end.

Fixpoint runes_from (fuel : nat) (s : string) : list N :=
  match fuel, s with
  | S fuel, String c _ =>
      let '(r, width) := decode_rune (N_of_ascii c) s in
      r :: runes_from fuel (drop_bytes width s)
  | _, _ => []
  end.
(** [for _, r := range s]; each rune takes at least a byte. *)
Definition runes (s : string) : list N := runes_from (slen s) s.
Definition RuneCountInString (s : string) : nat := length (runes s).

(** ** The names the engine governs *)

(** A Go type, as far as [collectFieldNames] looks: a struct has its name and its fields,
    each with its json tag. *)
Inductive gotype :=
| TStruct (name : string) (fields : list (string * gotype))
| TPointer (elem : gotype)
| TSlice (elem : gotype)
| TOther.

Fixpoint elementOf (shape : gotype) : gotype :=
  match shape with
  | TPointer elem | TSlice elem => elementOf elem
  | _ => shape
  end.

(** [declared, _, _ := strings.Cut(tag, ",")] *)
Definition tag_name (tag : string) : string := default "" (head (SplitByte "," tag)).
Definition add_field_name (tag : string) (names : gset string) : gset string :=
  if negb (tag_name tag =s? "") && negb (tag_name tag =s? "-")
  then {[ToLower (tag_name tag)]} ∪ names else names.

(** The accumulator is [names] and the names of the visited structs. The pointer and
    slice cases are [elementOf]. *)
Fixpoint collectFieldNames (shape : gotype) (acc : gset string * gset string)
    : gset string * gset string :=
  match shape with
  | TPointer elem | TSlice elem => collectFieldNames elem acc
  | TOther => acc
  | TStruct name fields =>
      if in_set acc.2 name then acc
      else
        (fix each (fields : list (string * gotype)) acc :=
           match fields with
           | [] => acc
           | (tag, field) :: fields =>
               each fields (collectFieldNames field (add_field_name tag acc.1, acc.2))
           end) fields (acc.1, {[name]} ∪ acc.2)
  end.

Definition fieldNamesReachableFrom (roots : list gotype) : gset string :=
  (foldl (λ acc root, collectFieldNames root acc) (∅, ∅) roots).1.

Definition Placement_type : gotype :=
  TStruct "Placement" [("env", TOther); ("purpose,omitempty", TOther);
    ("residency,omitempty", TOther); ("requires,omitempty", TOther)].
Definition Item_type : gotype := TStruct "Item" [("name", TOther); ("tier,omitempty", TOther)].
Definition App_type : gotype :=
  TStruct "App" [("name", TOther); ("runtime", TOther); ("image", TOther);
    ("placement", Placement_type); ("tier,omitempty", TOther); ("labels,omitempty", TOther)].
Definition KafkaSection_type : gotype :=
  TStruct "KafkaSection" [("cluster,omitempty", TOther); ("topics,omitempty", TSlice Item_type);
    ("consumesFrom,omitempty", TSlice TOther)].
Definition PostgresBind_type : gotype :=
  TStruct "PostgresBind" [("cluster", TOther); ("database", TOther); ("schema,omitempty", TOther);
    ("readers,omitempty", TSlice TOther); ("tier,omitempty", TOther)].
Definition HarborSection_type : gotype :=
  TStruct "HarborSection" [("project,omitempty", TOther); ("robots,omitempty", TSlice Item_type);
    ("tier,omitempty", TOther)].
Definition Manifest_type : gotype :=
  TStruct "Manifest" [("team", TOther); ("owns", TOther); ("tier,omitempty", TOther);
    ("classification,omitempty", TOther); ("apps,omitempty", TSlice App_type);
    ("kafka,omitempty", TPointer KafkaSection_type);
    ("postgres,omitempty", TSlice PostgresBind_type);
    ("harbor,omitempty", TPointer HarborSection_type); ("labels,omitempty", TOther)].
Definition Slot_type : gotype :=
  TStruct "Slot" [("cluster", TOther); ("namespace,omitempty", TOther); ("name", TOther)].
Definition PlacementDecision_type : gotype :=
  TStruct "PlacementDecision" [("cluster", TOther); ("env,omitempty", TOther);
    ("reason", TOther); ("considered", TSlice TOther); ("sticky", TOther)].
Definition DesiredItem_type : gotype :=
  TStruct "DesiredItem" [("asset", TOther); ("kind", TOther); ("name", TOther);
    ("team,omitempty", TOther); ("tier", TOther); ("gate", TOther); ("cluster,omitempty", TOther);
    ("slot,omitempty", Slot_type); ("limits", TOther); ("readers,omitempty", TSlice TOther);
    ("image,omitempty", TOther); ("runtime,omitempty", TOther); ("digest,omitempty", TOther);
    ("placement,omitempty", TPointer PlacementDecision_type); ("state,omitempty", TOther);
    ("labels,omitempty", TOther)].

Definition governedFieldNames : gset string :=
  fieldNamesReachableFrom [Manifest_type; DesiredItem_type].
Definition governsFieldNamed (candidate : string) : bool :=
  in_set governedFieldNames (ToLower candidate).

(** ** Labels *)

Definition maxLabelValue : nat := 128.

Definition validateLabelValue (what key value : string) : result manifest_error unit :=
  refuse value =s? "" with ENoLabelValue what key ;
  refuse maxLabelValue <? RuneCountInString value with ELongLabel what key ;
  refuse existsb (λ r, (r <? 32)%N || (r =? 127)%N) (runes value) with EControlInLabel what key ;
  Ok tt.

Definition validate_label (what : string) (l : Labels) (key : string) : result manifest_error unit :=
  refuse negb (name_MatchString key) with EBadLabelName what key ;
  refuse governsFieldNamed key with EGovernedLabel what key ;
  validateLabelValue what key (default "" (l !! key)).

Definition Labels_validate (what : string) (l : Labels) : result manifest_error unit :=
  first_err (validate_label what l) (sorted_keys l).

(** The app's labels are written over the team's. *)
Definition labelsFor (m : Manifest) (app : App) : Labels := app_Labels app ∪ m_Labels m.

Definition app_redefines (m : Manifest) (what key : string) : result manifest_error unit :=
  refuse bool_decide (is_Some (m_Labels m !! key)) with ERestatedLabel what key (m_Team m) ;
  Ok tt.

Definition validate_app_labels (m : Manifest) (app : App) : result manifest_error unit :=
  let what := "app " +:+ app_Name app in
  _ <-? Labels_validate what (app_Labels app) ;
  first_err (app_redefines m what) (sorted_keys (app_Labels app)).

Definition validateLabels (m : Manifest) : result manifest_error unit :=
  _ <-? Labels_validate ("team " +:+ m_Team m) (m_Labels m) ;
  first_err (validate_app_labels m) (m_Apps m).

(** ** Validation *)

Definition checkTier (m : Manifest) (what : string) (tier : Tier) : result manifest_error unit :=
  if tier =s? "" then Ok tt
  else
    refuse negb (Tier_valid tier) with EUnknownTier what tier ;
    refuse (rank tier <? rank (m_Tier m)) with ELowersTier what tier (m_Tier m) ;
    Ok tt.

Definition checkItem (m : Manifest) (what : string) (item : Item) : result manifest_error unit :=
  refuse negb (name_MatchString (it_Name item)) with EBadItemName what (it_Name item) ;
  refuse negb (it_Tier item =s? "") && negb (Tier_valid (it_Tier item))
    with EUnknownTier what (it_Tier item) ;
  refuse negb (it_Tier item =s? "") && (rank (it_Tier item) <? rank (m_Tier m))
    with ELowersTier what (it_Tier item) (m_Tier m) ;
  Ok tt.

Definition checkItems (m : Manifest) (kind : string) (items : list Item) : result manifest_error unit :=
  first_err (checkItem m kind) items.

Definition validatePlacement (app : App) : result manifest_error unit :=
  refuse pm_Env (app_Placement app) =s? "" with ENoPlacement (app_Name app) ;
  refuse pm_Residency (app_Placement app) =s? "" with ENoResidency (app_Name app) ;
  Ok tt.

Definition validateApp (m : Manifest) (app : App) : result manifest_error unit :=
  refuse negb (name_MatchString (app_Name app)) with EBadAppName (app_Name app) ;
  refuse negb (wellFormed (app_Runtime app)) with EBadRuntime (app_Name app) (app_Runtime app) ;
  refuse app_Image app =s? "" with ENoImage (app_Name app) ;
  refuse ContainsAny (app_Image app) ":@" with EPinnedImage (app_Name app) (app_Image app) ;
  _ <-? checkTier m ("app " +:+ app_Name app) (app_Tier app) ;
  validatePlacement app.

Definition validatePostgres (m : Manifest) (bind : PostgresBind) : result manifest_error unit :=
  refuse (pb_Cluster bind =s? "") || (pb_Database bind =s? "") with EIncompletePostgres ;
  checkTier m ("postgres binding " +:+ pb_Cluster bind +:+ "/" +:+ pb_Database bind) (pb_Tier bind).

Definition validateDeclarations (m : Manifest) : result manifest_error unit :=
  _ <-? first_err (validateApp m) (m_Apps m) ;
  _ <-? match m_Kafka m with Some k => checkItems m "kafka topic" (ks_Topics k) | None => Ok tt end ;
  _ <-? match m_Harbor m with Some h => checkItems m "harbor robot" (hs_Robots h) | None => Ok tt end ;
  first_err (validatePostgres m) (m_Postgres m).

Definition validate (m : Manifest) : result manifest_error unit :=
  refuse negb (name_MatchString (m_Team m)) with EBadTeam (m_Team m) ;
  refuse negb (name_MatchString (m_Owns m)) with EBadOwns (m_Owns m) ;
  refuse negb (Tier_valid (m_Tier m)) with EBadTier (m_Tier m) ;
  _ <-? validateDeclarations m ;
  validateLabels m.

Definition tierOf (m : Manifest) (item : Item) : Tier :=
  if negb (it_Tier item =s? "") then it_Tier item else m_Tier m.

(** [if manifest.Tier == "" { manifest.Tier = TierDev }] *)
Definition with_default_tier (m : Manifest) : Manifest :=
  mkManifest (m_Team m) (m_Owns m) (if m_Tier m =s? "" then TierDev else m_Tier m)
    (m_Classification m) (m_Apps m) (m_Kafka m) (m_Postgres m) (m_Harbor m) (m_Labels m).

Section Parsing.
(** The strict JSON decoder, on the document's bytes. *)
Context (Decode : string → result string Manifest).

Definition ParseManifest (document : string) : result manifest_error Manifest :=
  match Decode document with
  | Err e => Err (EDecode e)
  | Ok manifest =>
      let manifest := with_default_tier manifest in
      _ <-? validate manifest ;
      Ok manifest
  end.
End Parsing.

Section Item_JSON.
(** [json.Unmarshal] into a string, and the strict decoder into the object form. *)
Context (UnmarshalString : string → result string string).
Context (DecodeItem : string → result string Item).

(** A JSON string is the item's bare name, with no tier of its own. *)
Definition Item_UnmarshalJSON (data : string) : result string Item :=
  if bool_decide (first_char data = Some (ascii_of_N 34))
  then bare <-? UnmarshalString data ; Ok (mkItem bare "")
  else DecodeItem data.
End Item_JSON.

(** ** What a valid manifest is *)

(** A tier an item may declare: none, or one that does not lower the manifest's. *)
Definition may_declare (m : Manifest) (tier : Tier) : Prop :=
  tier = "" ∨ (Tier_valid tier = true ∧ rank (m_Tier m) ≤ rank tier).

Record valid_item (m : Manifest) (i : Item) : Prop := {
  vi_name : name_MatchString (it_Name i) = true;
  vi_tier : may_declare m (it_Tier i);
}.

Record valid_app (m : Manifest) (a : App) : Prop := {
  va_name : name_MatchString (app_Name a) = true;
  va_runtime : wellFormed (app_Runtime a) = true;
  va_image : app_Image a ≠ "";
  va_unpinned : ContainsAny (app_Image a) ":@" = false;
  va_tier : may_declare m (app_Tier a);
  va_env : pm_Env (app_Placement a) ≠ "";
  va_residency : pm_Residency (app_Placement a) ≠ "";
}.

Record valid_bind (m : Manifest) (b : PostgresBind) : Prop := {
  vb_cluster : pb_Cluster b ≠ "";
  vb_database : pb_Database b ≠ "";
  vb_tier : may_declare m (pb_Tier b);
}.

(** One line of at most 128 characters, not empty. *)
Definition one_line (value : string) : Prop :=
  value ≠ "" ∧ RuneCountInString value ≤ maxLabelValue ∧
  ∀ r, r ∈ runes value → (32 ≤ r)%N ∧ r ≠ 127%N.

Definition valid_labels (l : Labels) : Prop :=
  ∀ key value, l !! key = Some value →
    name_MatchString key = true ∧ ToLower key ∉ governedFieldNames ∧ one_line value.

Record valid_manifest (m : Manifest) : Prop := {
  vm_team : name_MatchString (m_Team m) = true;
  vm_owns : name_MatchString (m_Owns m) = true;
  vm_tier : Tier_valid (m_Tier m) = true;
  vm_apps : ∀ a, a ∈ m_Apps m → valid_app m a;
  vm_topics : ∀ k i, m_Kafka m = Some k → i ∈ ks_Topics k → valid_item m i;
  vm_robots : ∀ h i, m_Harbor m = Some h → i ∈ hs_Robots h → valid_item m i;
  vm_binds : ∀ b, b ∈ m_Postgres m → valid_bind m b;
  vm_labels : valid_labels (m_Labels m);
  vm_app_labels : ∀ a, a ∈ m_Apps m → valid_labels (app_Labels a);
  vm_disjoint : ∀ a, a ∈ m_Apps m → app_Labels a ##ₘ m_Labels m;
}.

(** ** Lemmas *)

Lemma refuse_Ok {E A} (c : bool) (e : E) (k : result E A) a :
  (if c then Err e else k) = Ok a ↔ c = false ∧ k = Ok a.
Proof. destruct c; naive_solver. Qed.

Lemma rbind_unit_Ok {E} (r k : result E unit) :
  rbind r (λ _, k) = Ok tt ↔ r = Ok tt ∧ k = Ok tt.
Proof. rewrite rbind_Ok. split; [by intros ([] & -> & ->)|intros [-> ->]; by exists tt]. Qed.

Lemma first_err_all {E A} (f : A → result E unit) (P : A → Prop) l :
  (∀ x, f x = Ok tt ↔ P x) → first_err f l = Ok tt ↔ ∀ x, x ∈ l → P x.
Proof. intros H. rewrite first_err_Ok, Forall_forall. by setoid_rewrite H. Qed.

Lemma checkTier_Ok m what tier : checkTier m what tier = Ok tt ↔ may_declare m tier.
Proof.
  unfold checkTier, may_declare. destruct (tier =s? "") eqn:E.
  - apply eqs_true in E. split; [by left|done].
  - apply eqs_false in E. rewrite !refuse_Ok, negb_false_iff, Nat.ltb_ge. naive_solver.
Qed.

Lemma checkItem_Ok m what i : checkItem m what i = Ok tt ↔ valid_item m i.
Proof.
  unfold checkItem. rewrite !refuse_Ok, !andb_false_iff, !negb_false_iff, Nat.ltb_ge, eqs_true.
  split.
  - intros (Hn & Hv & Hr & _). split; [done|]. destruct Hv; [by left|].
    destruct Hr; [by left|by right].
  - intros [Hn [Hd|[Hv Hr]]]; auto.
Qed.

Lemma validatePlacement_Ok a :
  validatePlacement a = Ok tt ↔ pm_Env (app_Placement a) ≠ "" ∧ pm_Residency (app_Placement a) ≠ "".
Proof. unfold validatePlacement. rewrite !refuse_Ok, !eqs_false. tauto. Qed.

Lemma validateApp_Ok m a : validateApp m a = Ok tt ↔ valid_app m a.
Proof.
  unfold validateApp.
  rewrite !refuse_Ok, rbind_unit_Ok, checkTier_Ok, validatePlacement_Ok, !negb_false_iff, eqs_false.
  split; [intros (? & ? & ? & ? & ? & ? & ?); by constructor|by intros []].
Qed.

Lemma validatePostgres_Ok m b : validatePostgres m b = Ok tt ↔ valid_bind m b.
Proof.
  unfold validatePostgres. rewrite refuse_Ok, orb_false_iff, !eqs_false, checkTier_Ok.
  split; [intros ((? & ?) & ?); by constructor|by intros []].
Qed.

Lemma validateDeclarations_Ok m :
  validateDeclarations m = Ok tt ↔
  (∀ a, a ∈ m_Apps m → valid_app m a) ∧
  (∀ k i, m_Kafka m = Some k → i ∈ ks_Topics k → valid_item m i) ∧
  (∀ h i, m_Harbor m = Some h → i ∈ hs_Robots h → valid_item m i) ∧
  (∀ b, b ∈ m_Postgres m → valid_bind m b).
Proof.
  unfold validateDeclarations, checkItems. rewrite !rbind_unit_Ok.
  rewrite (first_err_all _ _ _ (validateApp_Ok m)), (first_err_all _ _ _ (validatePostgres_Ok m)).
  assert (Hitems : ∀ kind l, first_err (checkItem m kind) l = Ok tt ↔ ∀ i, i ∈ l → valid_item m i).
  { intros kind l. by apply first_err_all, checkItem_Ok. }
  assert (Hopt : ∀ {S} (o : option S) (l : S → list Item) kind,
    match o with Some s => first_err (checkItem m kind) (l s) | None => Ok tt end = Ok tt ↔
    ∀ s i, o = Some s → i ∈ l s → valid_item m i).
  { intros S [s|] l kind; [rewrite Hitems|]; naive_solver. }
  by rewrite !Hopt.
Qed.

Lemma validateLabelValue_Ok what key value :
  validateLabelValue what key value = Ok tt ↔ one_line value.
Proof.
  unfold validateLabelValue, one_line. rewrite !refuse_Ok, eqs_false, Nat.ltb_ge, existsb_false.
  assert (Hr : (∀ r, r ∈ runes value → (r <? 32)%N || (r =? 127)%N = false) ↔
               (∀ r, r ∈ runes value → (32 ≤ r)%N ∧ r ≠ 127%N)).
  { split; intros H r Hin; specialize (H r Hin).
    - apply orb_false_iff in H as [?%N.ltb_ge ?%N.eqb_neq]. done.
    - apply orb_false_iff. by rewrite N.ltb_ge, N.eqb_neq. }
  rewrite Hr. tauto.
Qed.

Lemma Labels_validate_Ok what l : Labels_validate what l = Ok tt ↔ valid_labels l.
Proof.
  unfold Labels_validate, valid_labels.
  rewrite (first_err_all _ (λ key, name_MatchString key = true ∧
    ToLower key ∉ governedFieldNames ∧ one_line (default "" (l !! key)))).
  - split.
    + intros H key value Hk. specialize (H key). rewrite elem_of_sorted_keys, Hk in H. by apply H.
    + intros H key Hin. apply elem_of_sorted_keys in Hin as [value Hv]. rewrite Hv. by apply H.
  - intros key. unfold validate_label. rewrite !refuse_Ok, negb_false_iff, validateLabelValue_Ok.
    unfold governsFieldNamed. by rewrite in_set_false.
Qed.

Lemma validate_app_labels_Ok m a :
  validate_app_labels m a = Ok tt ↔ valid_labels (app_Labels a) ∧ app_Labels a ##ₘ m_Labels m.
Proof.
  unfold validate_app_labels. rewrite rbind_unit_Ok, Labels_validate_Ok.
  rewrite (first_err_all _ (λ key, m_Labels m !! key = None)).
  - rewrite map_disjoint_alt. split; intros [? H]; (split; [done|]).
    + intros key. destruct (app_Labels a !! key) eqn:E; [right|by left].
      apply H, elem_of_sorted_keys. by rewrite E.
    + intros key [v Hv]%elem_of_sorted_keys. destruct (H key) as [?|?]; [congruence|done].
  - intros key. unfold app_redefines. rewrite refuse_Ok, bool_decide_eq_false, <- eq_None_not_Some.
    naive_solver.
Qed.

Lemma validateLabels_Ok m :
  validateLabels m = Ok tt ↔
  valid_labels (m_Labels m) ∧
  ∀ a, a ∈ m_Apps m → valid_labels (app_Labels a) ∧ app_Labels a ##ₘ m_Labels m.
Proof.
  unfold validateLabels. rewrite rbind_unit_Ok, Labels_validate_Ok.
  by rewrite (first_err_all _ _ _ (validate_app_labels_Ok m)).
Qed.

Lemma validate_Ok m : validate m = Ok tt ↔ valid_manifest m.
Proof.
  unfold validate.
  rewrite !refuse_Ok, rbind_unit_Ok, validateDeclarations_Ok, validateLabels_Ok, !negb_false_iff.
  split.
  - intros (? & ? & ? & (? & ? & ? & ?) & ? & Hl). constructor; try assumption; intros a Ha; apply (Hl a Ha).
  - intros []. do 3 (split; [assumption|]). split; [by do 3 (split; [assumption|])|].
    split; [assumption|]. intros a Ha. auto.
Qed.

(** The item's tier and the manifest's, the higher of which is [tierOf]. *)
Lemma tierOf_raises m i :
  valid_manifest m → valid_item m i →
  Tier_valid (tierOf m i) = true ∧ rank (m_Tier m) ≤ rank (tierOf m i).
Proof.
  intros Hm [_ [Hd|Hd]]; unfold tierOf.
  - rewrite Hd. simpl. split; [apply Hm|done].
  - destruct (it_Tier i =s? "") eqn:E; [|done]. simpl. split; [apply Hm|done].
Qed.

Lemma governedFieldNames_are :
  governedFieldNames = list_to_set
  ["team"; "owns"; "tier"; "classification"; "apps"; "kafka"; "postgres"; "harbor"; "labels";
   "name"; "runtime"; "image"; "placement"; "env"; "purpose"; "residency"; "requires"; "cluster";
   "topics"; "consumesfrom"; "database"; "schema"; "readers"; "project"; "robots"; "asset"; "kind";
   "gate"; "slot"; "namespace"; "limits"; "digest"; "reason"; "considered"; "sticky"; "state"].
Proof. apply (bool_decide_eq_true_1 _). by vm_compute. Qed.

(** Merging is unambiguous in a valid manifest: an app's labels add to its team's. *)
Lemma labelsFor_lookup m a key value :
  valid_manifest m → a ∈ m_Apps m →
  labelsFor m a !! key = Some value ↔
  m_Labels m !! key = Some value ∨ app_Labels a !! key = Some value.
Proof.
  intros Hm Ha. unfold labelsFor. rewrite lookup_union_Some by by apply (vm_disjoint _ Hm). tauto.
Qed.

(** [ParseManifest] accepts exactly the well-formed manifests. A document is accepted
    when the strict decoder accepts it and, once an absent tier is read as dev: team, owns,
    every app, runtime, topic and robot has a valid name; every app has an unpinned image,
    an environment and a residency; every app, topic, robot and database binding declares
    no tier or a valid one that does not lower the manifest's; and every label has a valid
    name no governed field has, one line of at most 128 characters, and is not declared
    both by an app and its team. Every other document is refused. *)
Theorem parse_accepts_exactly Decode document m :
  ParseManifest Decode document = Ok m ↔
  ∃ m0, Decode document = Ok m0 ∧ m = with_default_tier m0 ∧ valid_manifest m.
Proof.
  unfold ParseManifest. destruct (Decode document) as [m0|e]; [|naive_solver].
  rewrite rbind_Ok. split.
  - intros ([] & Hv%validate_Ok & [= <-]). by exists m0.
  - intros (? & [= <-] & -> & Hv). exists tt. split; [by apply validate_Ok|done].
Qed.

(** ** Examples *)

Definition demo_app : App :=
  mkApp "api" RuntimeEnterprise "registry/payments/api" (mkPlacement "prod" "" "eu" ∅) ""
    {["owner" := "héllo"]}.
Definition demo_manifest : Manifest :=
  mkManifest "payments" "pay" TierShared "" [demo_app]
    (Some (mkKafkaSection "main" [mkItem "orders" ""; mkItem "settlements" TierProd] []))
    [mkPostgresBind "pg" "ledger" "" ["audit"] ""] (Some (mkHarborSection "" [mkItem "ci" ""] ""))
    {["cost-centre" := "cc-42"]}.

Example demo_manifest_valid : validate demo_manifest = Ok tt.
Proof. by vm_compute. Qed.

Example demo_label_refused :
  Labels_validate "team x" {["tier" := "gold"]} = Err (EGovernedLabel "team x" "tier") ∧
  Labels_validate "team x" {["owner" := bytes [97; 10; 98]%N]} = Err (EControlInLabel "team x" "owner").
Proof. by vm_compute. Qed.

(** A lead byte of four, a lead byte cut short, and a character of three bytes. *)
Example demo_runes :
  runes (bytes [240; 159; 152; 128; 240; 159; 226; 130; 172]%N) = [128512; 65533; 65533; 8364]%N.
Proof. by vm_compute. Qed.
