(* ===== verification/EstateResolve.v ===== *)
(** Applying the floor to a manifest: [mantlekeep-estate/resolve.go], and promotions as
    changes, [slot.go].

    [Resolve] turns a manifest into the changes it asks for: each item gets its tier, the
    limits and the gate the floor has for that tier and, for an app, a cluster and a slot. *)
From S2P Require Import Prelude Contracts EstateFloor Placement Manifest.

Record DesiredItem := mkDesiredItem {
  di_Asset : string;
  di_Kind : string;
  di_Name : string;
  di_Team : string;
  di_Tier : Tier;
  di_Gate : Gate;
  di_Cluster : string;
  di_Slot : Slot;
  di_Limits : limits;
  di_Readers : list string;
  di_Image : string;
  di_Runtime : string;
  di_Digest : string;
  di_Placement : option PlacementDecision;
  di_State : gmap string string;
  di_Labels : Labels;
}.

Record Desired := mkDesired {
  d_Team : string;
  d_Owns : string;
  d_Changes : list DesiredItem;
}.

Definition no_slot : Slot := mkSlot "" "" "".

Inductive resolve_error :=
| ENoKafkaFloor (tier : Tier)
| ENoPostgresFloor (tier : Tier)
| ENoHarborFloor (tier : Tier)
| ERuntimeNotConfigured (runtime : Runtime)
| EEnvNotRuled (app env : string)
| ENoAppFloor (runtime : Runtime) (tier : Tier)
| ENoFleet (app : string)
| ENotPlaced (app : string) (e : placement_error)
| EPlacedElsewhere (app env placed cluster : string)
| ENoNamespace (app cluster : string) (e : placement_error)
| EPromotion (what : string).

Definition orTier (declared fallback : Tier) : Tier :=
  if negb (declared =s? "") then declared else fallback.
Definition orName (declared fallback : string) : string :=
  if negb (declared =s? "") then declared else fallback.

(** ** Kafka, Postgres, Harbor *)

Definition kafka_item (m : Manifest) (floor : Floor) (kind name cluster : string) (tier : Tier)
    (l : KafkaLimits) : DesiredItem :=
  mkDesiredItem "kafka" kind name "" tier (GateFor floor tier) cluster no_slot (LKafka l)
    [] "" "" "" None ∅ (m_Labels m).

Definition resolve_topic (m : Manifest) (floor : Floor) (k : KafkaSection) (topic : Item)
    : result resolve_error DesiredItem :=
  let tier := tierOf m topic in
  match fl_Kafka floor !! tier with
  | Some l => Ok (kafka_item m floor "topic" (m_Owns m +:+ "." +:+ it_Name topic) (ks_Cluster k) tier l)
  | None => Err (ENoKafkaFloor tier)
  end.

Definition resolveKafka (m : Manifest) (floor : Floor) : result resolve_error (list DesiredItem) :=
  match m_Kafka m with
  | None => Ok []
  | Some k =>
      match fl_Kafka floor !! m_Tier m with
      | None => Err (ENoKafkaFloor (m_Tier m))
      | Some l =>
          topics <-? mapM_err (resolve_topic m floor k) (ks_Topics k) ;
          Ok (kafka_item m floor "boundary" (m_Owns m +:+ ".") (ks_Cluster k) (m_Tier m) l :: topics)
      end
  end.

Definition resolve_bind (m : Manifest) (floor : Floor) (bind : PostgresBind)
    : result resolve_error DesiredItem :=
  let tier := orTier (pb_Tier bind) (m_Tier m) in
  match fl_Postgres floor !! tier with
  | Some l =>
      Ok (mkDesiredItem "postgres" "schema"
            (pb_Database bind +:+ "." +:+ orName (pb_Schema bind) (m_Owns m)) "" tier
            (GateFor floor tier) (pb_Cluster bind) no_slot (LPostgres l) (pb_Readers bind)
            "" "" "" None ∅ (m_Labels m))
  | None => Err (ENoPostgresFloor tier)
  end.

Definition resolvePostgres (m : Manifest) (floor : Floor) : result resolve_error (list DesiredItem) :=
  mapM_err (resolve_bind m floor) (m_Postgres m).

Definition harbor_item (m : Manifest) (floor : Floor) (kind name : string) (tier : Tier)
    (l : HarborLimits) : DesiredItem :=
  mkDesiredItem "harbor" kind name "" tier (GateFor floor tier) "" no_slot (LHarbor l)
    [] "" "" "" None ∅ (m_Labels m).

Definition resolve_robot (m : Manifest) (floor : Floor) (project : string) (robot : Item)
    : result resolve_error DesiredItem :=
  let tier := tierOf m robot in
  match fl_Harbor floor !! tier with
  | Some l => Ok (harbor_item m floor "robot" (project +:+ "/" +:+ it_Name robot) tier l)
  | None => Err (ENoHarborFloor tier)
  end.

Definition resolveHarbor (m : Manifest) (floor : Floor) : result resolve_error (list DesiredItem) :=
  match m_Harbor m with
  | None => Ok []
  | Some h =>
      let tier := orTier (hs_Tier h) (m_Tier m) in
      match fl_Harbor floor !! tier with
      | None => Err (ENoHarborFloor tier)
      | Some l =>
          let project := orName (hs_Project h) (m_Owns m) in
          robots <-? mapM_err (resolve_robot m floor project) (hs_Robots h) ;
          Ok (harbor_item m floor "project" project tier l :: robots)
      end
  end.

(** ** Apps *)

(** The tier and limits of an app: at least the consequence its environment demands. *)
Definition appFloor (m : Manifest) (floor : Floor) (app : App) : result resolve_error (Tier * limits) :=
  match fl_App floor !! app_Runtime app with
  | None => Err (ERuntimeNotConfigured (app_Runtime app))
  | Some byTier =>
      match MinTierFor floor (pm_Env (app_Placement app)) with
      | None => Err (EEnvNotRuled (app_Name app) (pm_Env (app_Placement app)))
      | Some minimum =>
          let tier := AtLeast (orTier (app_Tier app) (m_Tier m)) minimum in
          match byTier !! tier with
          | None => Err (ENoAppFloor (app_Runtime app) tier)
          | Some l => Ok (tier, LApp l)
          end
      end
  end.

(** Returns the decision; [None] is the nil placer. *)
Definition placeApp (app : App) (placer : option Placer) (sticky : string) (prefer : list string)
    : result resolve_error (Placer * PlacementDecision) :=
  match placer with
  | None => Err (ENoFleet (app_Name app))
  | Some placer =>
      match PlaceWith placer (app_Placement app) sticky prefer with
      | Err e => Err (ENotPlaced (app_Name app) e)
      | Ok decision =>
          refuse negb (pd_Env decision =s? "") && negb (pd_Env decision =s? pm_Env (app_Placement app))
            with EPlacedElsewhere (app_Name app) (pm_Env (app_Placement app)) (pd_Env decision)
                   (pd_Cluster decision) ;
          Ok (placer, decision)
      end
  end.

(** [m.Team + "/" + app.Name] and [m.Owns + "-" + app.Name] *)
Definition qualified_name (m : Manifest) (app : App) : string := m_Team m +:+ "/" +:+ app_Name app.
Definition deployment_name (m : Manifest) (app : App) : string := m_Owns m +:+ "-" +:+ app_Name app.

Definition app_item (m : Manifest) (floor : Floor) (app : App) (tier : Tier) (l : limits)
    (decision : PlacementDecision) (namespace : string) : DesiredItem :=
  let deployment := deployment_name m app in
  mkDesiredItem "app" "deployment" deployment (m_Team m) tier
    (GateForApp floor tier (qualified_name m app)) (pd_Cluster decision)
    (mkSlot (pd_Cluster decision) namespace deployment) l [] (app_Image app) (app_Runtime app) ""
    (Some decision) ∅ (labelsFor m app).

(** The body of the loop of [resolveApps]. *)
Definition resolve_app (m : Manifest) (floor : Floor) (placer : option Placer)
    (placed : gmap string string) (app : App) : result resolve_error DesiredItem :=
  ruled <-? appFloor m floor app ;
  let '(tier, l) := ruled in
  chosen <-? placeApp app placer (default "" (placed !! app_Name app))
      (PreferredClustersFor floor (qualified_name m app)) ;
  let '(placer, decision) := chosen in
  match Render (namespaceOf placer (pd_Cluster decision)) (m_Owns m) (pd_Env decision) with
  | Err e => Err (ENoNamespace (app_Name app) (pd_Cluster decision) e)
  | Ok namespace => Ok (app_item m floor app tier l decision namespace)
  end.

Definition resolveApps (m : Manifest) (floor : Floor) (placer : option Placer)
    (placed : gmap string string) : result resolve_error (list DesiredItem) :=
  mapM_err (resolve_app m floor placer placed) (m_Apps m).

Definition resolve (m : Manifest) (floor : Floor) (placer : option Placer)
    (placed : gmap string string) : result resolve_error Desired :=
  kafka <-? resolveKafka m floor ;
  postgres <-? resolvePostgres m floor ;
  harbor <-? resolveHarbor m floor ;
  apps <-? resolveApps m floor placer placed ;
  Ok (mkDesired (m_Team m) (m_Owns m) (kafka ++ postgres ++ harbor ++ apps)).

Definition ResolveWith := resolve.
Definition Resolve (m : Manifest) (floor : Floor) : result resolve_error Desired :=
  ResolveWith m floor None ∅.

Definition NeedsGate (d : Desired) : bool :=
  existsb (λ change, negb (di_Gate change =s? GateNone)) (d_Changes d).

(** ** Promotions *)

Record Promotion := mkPromotion {
  prom_Team : string;
  prom_App : string;
  prom_Repository : string;
  prom_Digest : string;
  prom_To : Slot;
  prom_Tier : Tier;
}.

Definition Promotion_Validate (p : Promotion) : result resolve_error unit :=
  refuse (prom_Team p =s? "") || (prom_App p =s? "") with EPromotion "team and app" ;
  refuse prom_Repository p =s? "" with EPromotion "repository" ;
  refuse ContainsAny (prom_Repository p) ":@" with EPromotion "pinned repository" ;
  refuse (slot_Cluster (prom_To p) =s? "") || (slot_Name (prom_To p) =s? "") with EPromotion "slot" ;
  refuse negb (HasPrefix (prom_Digest p) "sha256:") with EPromotion "digest" ;
  refuse negb (Tier_valid (prom_Tier p)) with EPromotion "tier" ;
  Ok tt.

Definition Promotion_AsChange (p : Promotion) (floor : Floor) (runtime : Runtime)
    : result resolve_error DesiredItem :=
  _ <-? Promotion_Validate p ;
  match fl_App floor !! runtime with
  | None => Err (ERuntimeNotConfigured runtime)
  | Some byTier =>
      match byTier !! prom_Tier p with
      | None => Err (ENoAppFloor runtime (prom_Tier p))
      | Some l =>
          Ok (mkDesiredItem "app" "deployment" (slot_Name (prom_To p)) "" (prom_Tier p)
                (GateFor floor (prom_Tier p)) (slot_Cluster (prom_To p)) (prom_To p) (LApp l) []
                (prom_Repository p) runtime (prom_Digest p) None ∅ ∅)
      end
  end.

(** ** What a resolved change is *)

(** Its limits are the ones the floor has for its tier (and runtime). *)
Definition has_floor_limits (floor : Floor) (i : DesiredItem) : Prop :=
  match di_Limits i with
  | LKafka l => di_Asset i = "kafka" ∧ fl_Kafka floor !! di_Tier i = Some l
  | LPostgres l => di_Asset i = "postgres" ∧ fl_Postgres floor !! di_Tier i = Some l
  | LHarbor l => di_Asset i = "harbor" ∧ fl_Harbor floor !! di_Tier i = Some l
  | LApp l => di_Asset i = "app" ∧
      ∃ byTier, fl_App floor !! di_Runtime i = Some byTier ∧ byTier !! di_Tier i = Some l
  | _ => False
  end.

(** An app's change: somewhere the app may run, governed for the environment it runs in. *)
Record app_change (m : Manifest) (floor : Floor) (placer : option Placer) (a : App)
    (i : DesiredItem) : Prop := {
  ac_declared_tier : Tier_Strength (orTier (app_Tier a) (m_Tier m)) ≤ Tier_Strength (di_Tier i);
  ac_env_tier : ∃ minimum, MinTierFor floor (pm_Env (app_Placement a)) = Some minimum ∧
    Tier_Strength minimum ≤ Tier_Strength (di_Tier i);
  ac_rule : ∀ rule, fl_Apps floor !! qualified_name m a = Some rule →
    Gate_Strength (ar_Gate rule) ≤ Gate_Strength (di_Gate i);
  ac_placed : ∃ p c, placer = Some p ∧ c ∈ pr_clusters p ∧ satisfies (app_Placement a) c ∧
    cl_Env c = pm_Env (app_Placement a) ∧ di_Cluster i = cl_Name c ∧
    slot_Cluster (di_Slot i) = cl_Name c;
  ac_namespace : slot_Namespace (di_Slot i) = m_Owns m ∨ namespace_name (slot_Namespace (di_Slot i));
  ac_slot_name : slot_Name (di_Slot i) = deployment_name m a;
  ac_image : di_Image i = app_Image a;
  ac_labels : di_Labels i = labelsFor m a;
}.

Record governed_change (m : Manifest) (floor : Floor) (placer : option Placer) (i : DesiredItem)
    : Prop := {
  gc_limits : has_floor_limits floor i;
  gc_gate : Gate_Strength (GateFor floor (di_Tier i)) ≤ Gate_Strength (di_Gate i);
  gc_exact_gate : di_Asset i ≠ "app" → di_Gate i = GateFor floor (di_Tier i);
  gc_tier : ¬ (di_Asset i = "harbor" ∧ di_Kind i = "project") →
    Tier_Strength (m_Tier m) ≤ Tier_Strength (di_Tier i);
  gc_app : di_Asset i = "app" → ∃ a, a ∈ m_Apps m ∧ app_change m floor placer a i;
}.

(** The asset, kind and name of every declaration of a manifest, in order. *)
Definition declared (m : Manifest) : list (string * string * string) :=
  match m_Kafka m with
  | Some k => ("kafka", "boundary", m_Owns m +:+ ".") ::
      map (λ t, ("kafka", "topic", m_Owns m +:+ "." +:+ it_Name t)) (ks_Topics k)
  | None => []
  end ++
  map (λ b, ("postgres", "schema", pb_Database b +:+ "." +:+ orName (pb_Schema b) (m_Owns m)))
    (m_Postgres m) ++
  match m_Harbor m with
  | Some h => ("harbor", "project", orName (hs_Project h) (m_Owns m)) ::
      map (λ r, ("harbor", "robot", orName (hs_Project h) (m_Owns m) +:+ "/" +:+ it_Name r)) (hs_Robots h)
  | None => []
  end ++
  map (λ a, ("app", "deployment", deployment_name m a)) (m_Apps m).

Definition identity_of (i : DesiredItem) : string * string * string :=
  (di_Asset i, di_Kind i, di_Name i).

(** ** Lemmas *)

Lemma mapM_err_elem {E A B} (f : A → result E B) l ys y :
  mapM_err f l = Ok ys → y ∈ ys → ∃ x, x ∈ l ∧ f x = Ok y.
Proof.
  rewrite mapM_err_Ok. intros H [i Hi]%list_elem_of_lookup.
  destruct (Forall2_lookup_r _ _ _ _ _ H Hi) as (x & Hx & Hf).
  exists x. split; [by eapply list_elem_of_lookup_2|done].
Qed.

Lemma mapM_err_map {E A B C} (f : A → result E B) (g : B → C) (h : A → C) l ys :
  (∀ x y, f x = Ok y → g y = h x) → mapM_err f l = Ok ys → map g ys = map h l.
Proof.
  intros Hf. rewrite mapM_err_Ok. induction 1 as [|x y l ys Hy _ IH]; [done|]. simpl.
  by rewrite IH, (Hf x y).
Qed.

Lemma may_declare_strength m tier :
  Tier_valid (m_Tier m) = true → may_declare m tier →
  Tier_Strength (m_Tier m) ≤ Tier_Strength (orTier tier (m_Tier m)).
Proof.
  intros Hm Hd. unfold orTier. destruct (tier =s? "") eqn:E; [done|]. simpl.
  apply eqs_false in E. destruct Hd as [->|[Hv Hr]]; [done|].
  rewrite !rank_strength by done. lia.
Qed.

Lemma tierOf_strength m i :
  valid_manifest m → valid_item m i → Tier_Strength (m_Tier m) ≤ Tier_Strength (tierOf m i).
Proof. intros Hm Hi. apply (may_declare_strength m (it_Tier i)); [apply Hm|apply Hi]. Qed.

Lemma kafka_governed m floor placer kind name cluster tier l :
  fl_Kafka floor !! tier = Some l → Tier_Strength (m_Tier m) ≤ Tier_Strength tier →
  governed_change m floor placer (kafka_item m floor kind name cluster tier l).
Proof. intros Hl Ht. constructor; try done. Qed.

Lemma resolveKafka_governed m floor placer items i :
  valid_manifest m → resolveKafka m floor = Ok items → i ∈ items →
  governed_change m floor placer i.
Proof.
  intros Hm. unfold resolveKafka. destruct (m_Kafka m) as [k|] eqn:Hk; [|intros [= <-] ?%not_elem_of_nil; done].
  destruct (fl_Kafka floor !! m_Tier m) as [l|] eqn:Hl; [|done].
  rewrite rbind_Ok. intros (topics & Ht & [= <-]) [->|Hi]%elem_of_cons; [by apply kafka_governed|].
  destruct (mapM_err_elem _ _ _ _ Ht Hi) as (t & Hin & Hr). unfold resolve_topic in Hr.
  destruct (fl_Kafka floor !! tierOf m t) as [l'|] eqn:Hl'; [|done]. injection Hr as <-.
  apply kafka_governed; [done|]. apply tierOf_strength; [done|]. by eapply (vm_topics _ Hm).
Qed.

Lemma resolvePostgres_governed m floor placer items i :
  valid_manifest m → resolvePostgres m floor = Ok items → i ∈ items →
  governed_change m floor placer i.
Proof.
  intros Hm Hr Hi. destruct (mapM_err_elem _ _ _ _ Hr Hi) as (b & Hin & Hb).
  unfold resolve_bind in Hb.
  destruct (fl_Postgres floor !! orTier (pb_Tier b) (m_Tier m)) as [l|] eqn:Hl; [|done].
  injection Hb as <-. constructor; try done. intros _. simpl.
  apply may_declare_strength; [apply Hm|]. by apply (vm_binds _ Hm).
Qed.

Lemma resolveHarbor_governed m floor placer items i :
  valid_manifest m → resolveHarbor m floor = Ok items → i ∈ items →
  governed_change m floor placer i.
Proof.
  intros Hm. unfold resolveHarbor. destruct (m_Harbor m) as [h|] eqn:Hh; [|intros [= <-] ?%not_elem_of_nil; done].
  destruct (fl_Harbor floor !! orTier (hs_Tier h) (m_Tier m)) as [l|] eqn:Hl; [|done].
  rewrite rbind_Ok. intros (robots & Ht & [= <-]) [->|Hi]%elem_of_cons.
  { constructor; try done. intros Hno. by destruct Hno. }
  destruct (mapM_err_elem _ _ _ _ Ht Hi) as (r & Hin & Hr). unfold resolve_robot in Hr.
  destruct (fl_Harbor floor !! tierOf m r) as [l'|] eqn:Hl'; [|done]. injection Hr as <-.
  constructor; try done. intros _. simpl. apply tierOf_strength; [done|].
  by eapply (vm_robots _ Hm).
Qed.

Lemma ToLower_nil s : ToLower s = "" → s = "".
Proof. by destruct s. Qed.

Lemma EqualFold_empty s : EqualFold "" s = true → s = "".
Proof. unfold EqualFold. rewrite eqs_true. simpl. intros H. by apply ToLower_nil. Qed.

Lemma placeApp_spec app placer sticky prefer p d :
  placeApp app placer sticky prefer = Ok (p, d) → pm_Env (app_Placement app) ≠ "" →
  placer = Some p ∧ pd_Env d = pm_Env (app_Placement app) ∧
  ∃ c, c ∈ pr_clusters p ∧ satisfies (app_Placement app) c ∧ pd_Cluster d = cl_Name c ∧
       cl_Env c = pm_Env (app_Placement app).
Proof.
  unfold placeApp. destruct placer as [pl|]; [|done].
  destruct (PlaceWith _ _ _ _) as [d'|] eqn:Hp; [|done]. rewrite refuse_Ok, andb_false_iff, !negb_false_iff.
  intros [Henv [= <- <-]] Hne. destruct (PlaceWith_legal _ _ _ _ _ Hp) as (c & Hin & Hs & Hc & He).
  assert (pd_Env d' = pm_Env (app_Placement app)) as Heq.
  { destruct Henv as [Henv|Henv]; apply eqs_true in Henv; [|done]. exfalso.
    destruct (sat_env _ _ Hs) as [?|Hf]; [done|]. rewrite <- He, Henv in Hf.
    by apply EqualFold_empty in Hf. }
  do 2 (split; [done|]). exists c. by rewrite <- He.
Qed.

Lemma GateForApp_rule floor tier name rule :
  fl_Apps floor !! name = Some rule →
  Gate_Strength (ar_Gate rule) ≤ Gate_Strength (GateForApp floor tier name).
Proof.
  intros Hr. unfold GateForApp. rewrite Hr. destruct (ar_Gate rule =s? "") eqn:E.
  { apply eqs_true in E. rewrite E. apply Nat.le_0_l. }
  destruct (Nat.leb_spec (Gate_Strength (ar_Gate rule)) (Gate_Strength (GateFor floor tier))); lia.
Qed.

Lemma appFloor_spec m floor app tier l :
  appFloor m floor app = Ok (tier, l) →
  ∃ byTier minimum al, fl_App floor !! app_Runtime app = Some byTier ∧
    MinTierFor floor (pm_Env (app_Placement app)) = Some minimum ∧
    tier = AtLeast (orTier (app_Tier app) (m_Tier m)) minimum ∧
    byTier !! tier = Some al ∧ l = LApp al.
Proof.
  unfold appFloor. destruct (fl_App floor !! _) as [byTier|]; [|done].
  destruct (MinTierFor floor _) as [minimum|]; [|done]. cbv zeta.
  destruct (byTier !! _) as [al|] eqn:Hal; [|done]. intros [= <- <-].
  by exists byTier, minimum, al.
Qed.

Lemma resolve_app_governed m floor placer placed a i :
  valid_manifest m → a ∈ m_Apps m → resolve_app m floor placer placed a = Ok i →
  governed_change m floor placer i ∧ identity_of i = ("app", "deployment", deployment_name m a).
Proof.
  intros Hm Ha. unfold resolve_app. rewrite rbind_Ok. intros ([tier l] & Hfl & Hr).
  apply rbind_Ok in Hr as ([p d] & Hpl & Hr).
  destruct (Render _ _ _) as [ns|] eqn:Hns; [|done]. injection Hr as <-.
  destruct (appFloor_spec _ _ _ _ _ Hfl) as (byTier & minimum & al & Hrt & Hmin & Ht & Hal & ->).
  pose proof (vm_apps _ Hm _ Ha) as Hva.
  destruct (placeApp_spec _ _ _ _ _ _ Hpl (va_env _ _ Hva)) as (Hp & Henv & c & Hin & Hs & Hc & Hce).
  destruct (AtLeast_strength (orTier (app_Tier a) (m_Tier m)) minimum) as [Hd He].
  rewrite <- Ht in Hd, He.
  split; [|done]. constructor; simpl.
  - split; [done|]. by exists byTier.
  - apply GateForApp_raises.
  - done.
  - intros _. etrans; [|apply Hd]. apply may_declare_strength; [apply Hm|apply Hva].
  - intros _. exists a. split; [done|]. constructor; simpl; try done.
    + by exists minimum.
    + intros rule. apply GateForApp_rule.
    + by exists p, c.
    + apply Render_ok in Hns as [[_ ->]|(_ & _ & ?)]; [by left|by right].
Qed.

Lemma resolve_Ok m floor placer placed d :
  resolve m floor placer placed = Ok d ↔
  ∃ k p h a, resolveKafka m floor = Ok k ∧ resolvePostgres m floor = Ok p ∧
    resolveHarbor m floor = Ok h ∧ resolveApps m floor placer placed = Ok a ∧
    d = mkDesired (m_Team m) (m_Owns m) (k ++ p ++ h ++ a).
Proof.
  unfold resolve. rewrite rbind_Ok. setoid_rewrite rbind_Ok. setoid_rewrite rbind_Ok.
  setoid_rewrite rbind_Ok. split.
  - intros (k & ? & p & ? & h & ? & a & ? & [= <-]). by exists k, p, h, a.
  - intros (k & p & h & a & ? & ? & ? & ? & ->). by exists k; split; [|exists p; split; [|exists h; split; [|exists a]]].
Qed.

Lemma resolve_identities m floor placer placed d :
  resolve m floor placer placed = Ok d → map identity_of (d_Changes d) = declared m.
Proof.
  intros (k & p & h & a & Hk & Hp & Hh & Ha & ->)%resolve_Ok. simpl. rewrite !map_app.
  unfold declared. f_equal; [|f_equal; [|f_equal]].
  - unfold resolveKafka in Hk. destruct (m_Kafka m) as [ks|]; [|by injection Hk as <-].
    destruct (fl_Kafka floor !! _); [|done]. apply rbind_Ok in Hk as (ts & Hts & [= <-]). simpl.
    f_equal. eapply mapM_err_map; [|exact Hts]. intros t i. unfold resolve_topic.
    destruct (fl_Kafka floor !! _); [|done]. by intros [= <-].
  - eapply mapM_err_map; [|exact Hp]. intros b i. unfold resolve_bind.
    destruct (fl_Postgres floor !! _); [|done]. by intros [= <-].
  - unfold resolveHarbor in Hh. destruct (m_Harbor m) as [hs|]; [|by injection Hh as <-].
    destruct (fl_Harbor floor !! _); [|done]. apply rbind_Ok in Hh as (ts & Hts & [= <-]). simpl.
    f_equal. eapply mapM_err_map; [|exact Hts]. intros t i. unfold resolve_robot.
    destruct (fl_Harbor floor !! _); [|done]. by intros [= <-].
  - eapply mapM_err_map; [|exact Ha]. intros x i. unfold resolve_app.
    rewrite rbind_Ok. intros ([tier l] & _ & Hr). apply rbind_Ok in Hr as ([? ?] & _ & Hr).
    destruct (Render _ _ _); [|done]. by injection Hr as <-.
Qed.

Lemma NeedsGate_true d :
  NeedsGate d = true ↔ ∃ i, i ∈ d_Changes d ∧ di_Gate i ≠ GateNone.
Proof.
  unfold NeedsGate. rewrite existsb_true. by setoid_rewrite negb_true_iff; setoid_rewrite eqs_false.
Qed.

Lemma resolve_governed m floor placer placed d i :
  valid_manifest m → resolve m floor placer placed = Ok d → i ∈ d_Changes d →
  governed_change m floor placer i.
Proof.
  intros Hm (k & p & h & a & Hk & Hp & Hh & Ha & ->)%resolve_Ok. simpl. rewrite !elem_of_app.
  intros [Hi|[Hi|[Hi|Hi]]].
  - by eapply resolveKafka_governed.
  - by eapply resolvePostgres_governed.
  - by eapply resolveHarbor_governed.
  - destruct (mapM_err_elem _ _ _ _ Ha Hi) as (x & Hx & Hr). by eapply resolve_app_governed.
Qed.

(** C11: every change of a resolved manifest is governed. Resolving a valid manifest gives
    one change per declaration, in the manifest's order and nothing else. Each carries the
    limits the floor has for its tier and runtime and a gate at least as strong as the
    floor's for that tier (exactly that one unless it is an app); its tier is at least as
    strong as the manifest's, the section tier of a harbor project alone excepted. An app
    is governed at least at the tier its environment demands and at the gate a rule naming
    it demands, and is placed in a cluster of the fleet that satisfies its claim and has
    exactly the environment it was governed for, in a slot whose namespace is the owner's
    name or a legal Kubernetes name. *)
Theorem resolve_governs_every_change m floor placer placed d :
  valid_manifest m → ResolveWith m floor placer placed = Ok d →
  d_Team d = m_Team m ∧ d_Owns d = m_Owns m ∧
  map identity_of (d_Changes d) = declared m ∧
  ∀ i, i ∈ d_Changes d → governed_change m floor placer i.
Proof.
  intros Hm Hr. pose proof (resolve_identities _ _ _ _ _ Hr).
  pose proof (λ i, resolve_governed _ _ _ _ _ i Hm Hr).
  by apply resolve_Ok in Hr as (k & p & h & a & _ & _ & _ & _ & ->).
Qed.

(** With the default floor only an app, or a section tier of a harbor project that is not
    a tier, can make a valid manifest unresolvable. *)
Lemma resolve_default_floor_succeeds m :
  valid_manifest m → m_Apps m = [] →
  (∀ h, m_Harbor m = Some h → hs_Tier h = "" ∨ Tier_valid (hs_Tier h) = true) →
  ∃ d, Resolve m DefaultFloor = Ok d.
Proof.
  intros Hm Happs Hh.
  assert (Hfl : ∀ t, Tier_valid t = true → is_Some (fl_Kafka DefaultFloor !! t) ∧
      is_Some (fl_Postgres DefaultFloor !! t) ∧ is_Some (fl_Harbor DefaultFloor !! t)).
  { intros t. unfold Tier_valid. rewrite !orb_true_iff, !eqs_true. intros [[->| ->]| ->];
      (split; [|split]); eexists; vm_compute; reflexivity. }
  assert (Hor : ∀ t, t = "" ∨ Tier_valid t = true → Tier_valid (orTier t (m_Tier m)) = true).
  { intros t Ht. unfold orTier. destruct (t =s? "") eqn:E; [apply Hm|]. apply eqs_false in E. by destruct Ht. }
  assert (Hall : ∀ {A} (f : A → result resolve_error DesiredItem) l,
      (∀ x, x ∈ l → ∃ y, f x = Ok y) → ∃ ys, mapM_err f l = Ok ys).
  { intros A f l. induction l as [|x l IH]; intros Hf; [by exists []|]. simpl.
    destruct (Hf x) as [y ->]; [by left|]. destruct IH as [ys Hys]; [intros z Hz; apply Hf; by right|].
    simpl. rewrite Hys. by eexists. }
  assert (Hitem : ∀ i, valid_item m i → Tier_valid (tierOf m i) = true).
  { intros i Hi. by apply tierOf_raises. }
  assert (∃ k, resolveKafka m DefaultFloor = Ok k) as [k Hk].
  { unfold resolveKafka. destruct (m_Kafka m) as [ks|] eqn:E; [|by eexists].
    destruct (Hfl _ (vm_tier _ Hm)) as [[l ->] _].
    destruct (Hall _ (resolve_topic m DefaultFloor ks) (ks_Topics ks)) as [ys ->]; [|by eexists].
    intros t Ht. unfold resolve_topic.
    destruct (Hfl _ (Hitem _ (vm_topics _ Hm _ _ E Ht))) as [[l' ->] _]. by eexists. }
  assert (∃ p, resolvePostgres m DefaultFloor = Ok p) as [p Hp].
  { apply Hall. intros b Hb. unfold resolve_bind.
    destruct (Hfl (orTier (pb_Tier b) (m_Tier m))) as (_ & [l ->] & _); [|by eexists].
    apply Hor. destruct (vb_tier _ _ (vm_binds _ Hm _ Hb)) as [?|[? _]]; auto. }
  assert (∃ h, resolveHarbor m DefaultFloor = Ok h) as [h Hhr].
  { unfold resolveHarbor. destruct (m_Harbor m) as [hs|] eqn:E; [|by eexists].
    destruct (Hfl _ (Hor _ (Hh _ eq_refl))) as (_ & _ & [l ->]).
    destruct (Hall _ (resolve_robot m DefaultFloor (orName (hs_Project hs) (m_Owns m))) (hs_Robots hs))
      as [ys ->]; [|by eexists].
    intros r Hr. unfold resolve_robot.
    destruct (Hfl _ (Hitem _ (vm_robots _ Hm _ _ E Hr))) as (_ & _ & [l' ->]). by eexists. }
  eexists. apply resolve_Ok. exists k, p, h, []. unfold resolveApps. by rewrite Happs.
Qed.

(** ** The two gaps *)

Definition with_harbor_tier (m : Manifest) (h : HarborSection) (tier : Tier) : Manifest :=
  mkManifest (m_Team m) (m_Owns m) (m_Tier m) (m_Classification m) (m_Apps m) (m_Kafka m)
    (m_Postgres m) (Some (mkHarborSection (hs_Project h) (hs_Robots h) tier)) (m_Labels m).

(** No check looks at the tier of the harbor section: any tier keeps the manifest valid,
    and the project is then governed at that tier, below the manifest's if it says so. *)
Theorem harbor_section_lowers_its_gate m h tier floor l items :
  valid_manifest m → m_Harbor m = Some h → tier ≠ "" →
  fl_Harbor floor !! tier = Some l → resolveHarbor (with_harbor_tier m h tier) floor = Ok items →
  validate (with_harbor_tier m h tier) = Ok tt ∧
  ∃ project rest, items = project :: rest ∧ di_Kind project = "project" ∧
    di_Tier project = tier ∧ di_Gate project = GateFor floor tier.
Proof.
  intros Hm Hh Ht Hl Hr. split.
  - apply validate_Ok. constructor; try apply Hm.
    + intros a Ha. by destruct (vm_apps _ Hm a Ha).
    + intros k i Hk Hi. by destruct (vm_topics _ Hm k i Hk Hi).
    + intros h' i [= <-] Hi. by destruct (vm_robots _ Hm h i Hh Hi).
    + intros b Hb. by destruct (vm_binds _ Hm b Hb).
  - apply eqs_false in Ht. unfold resolveHarbor in Hr. simpl in Hr. unfold orTier in Hr.
    rewrite Ht in Hr. simpl in Hr. rewrite Hl in Hr.
    apply rbind_Ok in Hr as (robots & _ & [= <-]). by eexists _, robots.
Qed.

(** The gate of a promotion is its tier's alone: no rule of the floor's [Apps] reaches it. *)
Theorem promotion_skips_the_app_rule p floor runtime i rules :
  Promotion_AsChange p floor runtime = Ok i →
  di_Gate i = GateFor floor (prom_Tier p) ∧
  Promotion_AsChange p (mkFloor (fl_Kafka floor) (fl_Postgres floor) (fl_Harbor floor) (fl_App floor)
    (fl_EnvTiers floor) (fl_Gates floor) (fl_Signatures floor) rules (fl_Fleet floor)
    (fl_Revision floor)) runtime = Ok i.
Proof.
  unfold Promotion_AsChange. destruct (Promotion_Validate p); [|done]. simpl.
  destruct (fl_App floor !! runtime) as [byTier|]; [|done].
  destruct (byTier !! prom_Tier p); [|done]. intros [= <-]. done.
Qed.

(** A promotion is accepted only with an immutable digest and an unpinned repository. *)
Lemma Promotion_AsChange_digest p floor runtime i :
  Promotion_AsChange p floor runtime = Ok i →
  has_floor_limits floor i ∧ (∃ hex, di_Digest i = "sha256:" +:+ hex) ∧
  ContainsAny (di_Image i) ":@" = false ∧ di_Slot i = prom_To p ∧ Tier_valid (di_Tier i) = true.
Proof.
  unfold Promotion_AsChange, Promotion_Validate. rewrite rbind_Ok. intros ([] & Hv & Hr).
  rewrite !refuse_Ok, !negb_false_iff, HasPrefix_spec in Hv.
  destruct (fl_App floor !! runtime) as [byTier|] eqn:Hb; [|done].
  destruct (byTier !! prom_Tier p) eqn:Hl; [|done]. injection Hr as <-. simpl.
  destruct Hv as (_ & _ & ? & _ & ? & ? & _). split; [|done]. split; [done|]. by exists byTier.
Qed.

(** ** Witnesses *)

Definition demo_fleet : Placer :=
  NewPlacer [demo_cluster "a" "us"; demo_cluster "b" "eu"].
Definition demo_rules : Floor :=
  mkFloor (fl_Kafka DefaultFloor) (fl_Postgres DefaultFloor) (fl_Harbor DefaultFloor)
    (fl_App DefaultFloor) ∅ DefaultGates ∅ {["payments/api" := mkAppRule GatePlatform ["a"]]}
    DefaultFleetFloor "rev".
Definition demo_desired : Desired :=
  match ResolveWith demo_manifest demo_rules (Some demo_fleet) ∅ with
  | Ok d => d
  | Err _ => mkDesired "" "" []
  end.

Lemma resolve_governs_every_change_witness :
  map (λ i, (di_Name i, di_Tier i, di_Gate i, Slot_Key (di_Slot i))) (d_Changes demo_desired) =
    [("pay.", "shared", "owning-team", "//"); ("pay.orders", "shared", "owning-team", "//");
     ("pay.settlements", "prod", "platform", "//"); ("ledger.pay", "shared", "owning-team", "//");
     ("pay", "shared", "owning-team", "//"); ("pay/ci", "shared", "owning-team", "//");
     ("pay-api", "prod", "platform", "b/pay-prod/pay-api")] ∧
  ∀ i, i ∈ d_Changes demo_desired → governed_change demo_manifest demo_rules (Some demo_fleet) i.
Proof.
  split; [vm_compute; reflexivity|].
  apply (resolve_governs_every_change demo_manifest demo_rules (Some demo_fleet) ∅ demo_desired).
  - apply validate_Ok. vm_compute. reflexivity.
  - vm_compute. reflexivity.
Defined.

(** A production team's harbor project with no gate. *)
Example demo_harbor_gap :
  let m := mkManifest "payments" "pay" TierProd "" [] None [] (Some (mkHarborSection "" [] TierDev)) ∅ in
  validate m = Ok tt ∧
  (λ i, (di_Tier i, di_Gate i)) <$>
    (match Resolve m DefaultFloor with Ok d => head (d_Changes d) | Err _ => None end) =
  Some (TierDev, GateNone).
Proof. by vm_compute. Qed.
