(* ===== verification/Fleet.v ===== *)
(** The runtime under governance: [mantlekeep-estate/fleet.go], and the ownership of its
    fields with [ownership.go]. *)
From S2P Require Import Prelude Contracts EstateFloor Placement Manifest EstateResolve.

(** ** Numbers and versions *)

Definition digits (s : string) : bool := negb (s =s? "") && all_chars is_digit s.

(** [^[0-9]+\.[0-9]+(\.[0-9]+)?$] *)
Definition kubernetesVersion (version : string) : bool :=
  match SplitByte "." version with
  | [major; minor] => digits major && digits minor
  | [major; minor; patch] => digits major && digits minor && digits patch
  | _ => false
  end.

(** The first two parts of [strings.SplitN(version, ".", 3)]; further dots stay in the
    third part. *)
Definition minorLine (version : string) : string :=
  match SplitByte "." version with
  | major :: minor :: _ => major +:+ "." +:+ minor
  | _ => version
  end.

Definition minorRank (version : string) : Z :=
  match SplitByte "." (minorLine version) with
  | [major; minor] =>
      match Atoi major, Atoi minor with
      | Some major, Some minor => wrap64 (wrap64 (major * 1000) + minor)
      | _, _ => -1
      end
  | _ => -1
  end%Z.

(** ** Operations and their consequence *)

Notation Consequence := string (only parsing).
Definition ConsequenceReversible : Consequence := "reversible".
Definition ConsequenceDisruptive : Consequence := "disruptive".
Definition ConsequenceIrreversible : Consequence := "irreversible".

Notation FleetOperation := string (only parsing).
Definition OperationRegisterCluster : FleetOperation := "register-cluster".
Definition OperationRemoveCluster : FleetOperation := "remove-cluster".
Definition OperationScaleNodePool : FleetOperation := "scale-node-pool".
Definition OperationChangeNodeInstanceType : FleetOperation := "change-node-instance-type".
Definition OperationChangeStorageClass : FleetOperation := "change-storage-class".
Definition OperationSwapNetworkPlugin : FleetOperation := "swap-network-plugin".
Definition OperationSwapIngressController : FleetOperation := "swap-ingress-controller".
Definition OperationUpgradeKubernetes : FleetOperation := "upgrade-kubernetes".

Definition kindControlPlane : string := "control-plane".

Definition fleetConsequences : gmap string Consequence :=
  list_to_map
    [(OperationScaleNodePool, ConsequenceReversible);
     (OperationChangeNodeInstanceType, ConsequenceDisruptive);
     (OperationRegisterCluster, ConsequenceDisruptive);
     (OperationChangeStorageClass, ConsequenceIrreversible);
     (OperationSwapNetworkPlugin, ConsequenceIrreversible);
     (OperationSwapIngressController, ConsequenceIrreversible);
     (OperationUpgradeKubernetes, ConsequenceIrreversible);
     (OperationRemoveCluster, ConsequenceIrreversible)].

Definition ConsequenceOf (operation : FleetOperation) : option Consequence :=
  fleetConsequences !! operation.

Definition oneStepLighter (tier : Tier) : Tier := if tier =s? TierProd then TierShared else TierDev.

Definition TierForFleetOperation (operation : FleetOperation) (cluster : Tier) : Tier :=
  match ConsequenceOf operation with
  | None => TierProd
  | Some consequence =>
      if consequence =s? ConsequenceIrreversible then TierProd
      else if consequence =s? ConsequenceDisruptive then cluster
      else oneStepLighter cluster
  end.

(** ** The declaration of a cluster *)

Record NodePool := mkNodePool {
  np_Name : string;
  np_Size : Z;
  np_InstanceType : string;
}.

Record FleetManifest := mkFleetManifest {
  fm_Cluster : string;
  fm_Team : string;
  fm_Tier : Tier;
  fm_KubernetesVersion : string;
  fm_StorageClass : string;
  fm_NetworkPlugin : string;
  fm_IngressController : string;
  fm_NodePools : list NodePool;
}.

Inductive fleet_error :=
| EFleetDecode (e : string)
| EFleetName (what value : string)
| EFleetNoTier (cluster : string)
| EFleetTier (tier : Tier)
| EFleetVersion (cluster version : string)
| EPoolTwice (pool : string)
| EPoolSize (pool : string) (size : Z)
| ENoPoolFloor (tier : Tier)
| EUnsupportedVersion (version : string)
| EPoolAbove (pool : string) (size : Z)
| EPoolBelow (pool : string) (size : Z)
| EInstanceType (what instance : string)
| EWrongCluster (asked resolved : string)
| EUnclassified (operation : FleetOperation)
| ENoSuchPool (pool : string)
| ENotANumber (pool size : string)
| EOutsideFloor (pool : string) (size : Z)
| EDowngrade (from to : string).

(** The loop over the pools; [seen] is the map of the names already declared. *)
Fixpoint validate_pools (seen : gset string) (pools : list NodePool) : result fleet_error unit :=
  match pools with
  | [] => Ok tt
  | pool :: pools =>
      refuse negb (name_MatchString (np_Name pool)) with EFleetName "node pool" (np_Name pool) ;
      refuse in_set seen (np_Name pool) with EPoolTwice (np_Name pool) ;
      refuse (np_Size pool <? 0)%Z with EPoolSize (np_Name pool) (np_Size pool) ;
      refuse negb (name_MatchString (np_InstanceType pool))
        with EFleetName "instance type" (np_InstanceType pool) ;
      validate_pools ({[np_Name pool]} ∪ seen) pools
  end.
Definition validateNodePools (f : FleetManifest) : result fleet_error unit :=
  validate_pools ∅ (fm_NodePools f).

Definition FleetManifest_validate (f : FleetManifest) : result fleet_error unit :=
  refuse negb (name_MatchString (fm_Cluster f)) with EFleetName "cluster" (fm_Cluster f) ;
  refuse negb (name_MatchString (fm_Team f)) with EFleetName "team" (fm_Team f) ;
  refuse fm_Tier f =s? "" with EFleetNoTier (fm_Cluster f) ;
  refuse negb (Tier_valid (fm_Tier f)) with EFleetTier (fm_Tier f) ;
  refuse negb (kubernetesVersion (fm_KubernetesVersion f))
    with EFleetVersion (fm_Cluster f) (fm_KubernetesVersion f) ;
  refuse negb (name_MatchString (fm_StorageClass f)) with EFleetName "storage class" (fm_StorageClass f) ;
  refuse negb (name_MatchString (fm_NetworkPlugin f)) with EFleetName "network plugin" (fm_NetworkPlugin f) ;
  refuse negb (fm_IngressController f =s? "") && negb (name_MatchString (fm_IngressController f))
    with EFleetName "ingress controller" (fm_IngressController f) ;
  validateNodePools f.

Section Parsing.
(** The strict JSON decoder. *)
Context (Decode : string → result string FleetManifest).

Definition ParseFleetManifest (document : string) : result fleet_error FleetManifest :=
  match Decode document with
  | Err e => Err (EFleetDecode e)
  | Ok manifest => _ <-? FleetManifest_validate manifest ; Ok manifest
  end.
End Parsing.

Definition allows (f : FleetFloor) (version : string) : bool :=
  existsb (λ allowed, minorLine allowed =s? minorLine version) (ff_KubernetesVersions f).
Definition allowsInstanceType (l : NodePoolLimits) (instanceType : string) : bool :=
  existsb (λ allowed, allowed =s? instanceType) (npl_AllowedInstanceTypes l).
Definition pool (f : FleetManifest) (poolName : string) : option NodePool :=
  snd <$> list_find (λ p, np_Name p = poolName) (fm_NodePools f).

(** ** Resolution of a cluster *)

Definition fleet_item (floor : Floor) (cluster : FleetManifest) (kind name slot : string)
    (tier : Tier) (l : limits) (state : gmap string string) : DesiredItem :=
  mkDesiredItem "fleet" kind name "" tier (GateFor floor tier) (fm_Cluster cluster)
    (mkSlot (fm_Cluster cluster) "" slot) l [] "" "" "" None state ∅.

(** The cluster-wide components, as recorded. *)
Definition cluster_state (cluster : FleetManifest) : gmap string string :=
  let state := {["storageClass" := fm_StorageClass cluster;
                 "networkPlugin" := fm_NetworkPlugin cluster]} in
  if negb (fm_IngressController cluster =s? "")
  then <["ingressController" := fm_IngressController cluster]> state else state.

Definition count_byte (c : ascii) (s : string) : nat := length (SplitByte c s) - 1.

Definition control_plane_state (version : string) : gmap string string :=
  let state := {["kubernetesVersion" := version]} in
  if count_byte "." version =? 2 then <["kubernetesPatch" := version]> state else state.

Definition pool_state (p : NodePool) (l : NodePoolLimits) : gmap string string :=
  {["nodePoolSize" := Itoa (np_Size p); "instanceType" := np_InstanceType p;
    "nodePoolMaxNodes" := Itoa (npl_MaxNodes l)]}.

(** The body of the loop over the pools. *)
Definition resolve_pool (floor : Floor) (cluster : FleetManifest) (l : NodePoolLimits) (p : NodePool)
    : result fleet_error DesiredItem :=
  refuse (npl_MaxNodes l <? np_Size p)%Z with EPoolAbove (np_Name p) (np_Size p) ;
  refuse (np_Size p <? npl_MinNodes l)%Z with EPoolBelow (np_Name p) (np_Size p) ;
  refuse negb (allowsInstanceType l (np_InstanceType p))
    with EInstanceType (np_Name p) (np_InstanceType p) ;
  Ok (fleet_item floor cluster "node-pool" (fm_Cluster cluster +:+ "/" +:+ np_Name p) (np_Name p)
        (TierForFleetOperation OperationChangeNodeInstanceType (fm_Tier cluster))
        (LNodePool l) (pool_state p l)).

Definition ResolveFleet (cluster : FleetManifest) (floor : Floor) : result fleet_error Desired :=
  _ <-? FleetManifest_validate cluster ;
  match ff_NodePool (fl_Fleet floor) !! fm_Tier cluster with
  | None => Err (ENoPoolFloor (fm_Tier cluster))
  | Some poolLimits =>
      refuse negb (allows (fl_Fleet floor) (fm_KubernetesVersion cluster))
        with EUnsupportedVersion (fm_KubernetesVersion cluster) ;
      let clusterTier := TierForFleetOperation OperationChangeStorageClass (fm_Tier cluster) in
      let upgradeTier := TierForFleetOperation OperationUpgradeKubernetes (fm_Tier cluster) in
      pools <-? mapM_err (resolve_pool floor cluster poolLimits) (fm_NodePools cluster) ;
      Ok (mkDesired (fm_Team cluster) (fm_Cluster cluster)
            (fleet_item floor cluster "cluster" (fm_Cluster cluster) "cluster" clusterTier LOther
               (cluster_state cluster) ::
             fleet_item floor cluster kindControlPlane (fm_Cluster cluster +:+ "/" +:+ kindControlPlane)
               kindControlPlane upgradeTier
               (LControlPlane (mkControlPlaneLimits (ff_KubernetesVersions (fl_Fleet floor))))
               (control_plane_state (fm_KubernetesVersion cluster)) :: pools))
  end.

(** ** One change to a cluster *)

Record FleetChange := mkFleetChange {
  fc_Cluster : string;
  fc_Operation : FleetOperation;
  fc_NodePool : string;
  fc_To : string;
}.

Definition applyToNodePool (change : FleetChange) (floor : Floor) (tier : Tier)
    (cluster : FleetManifest) (poolLimits : NodePoolLimits) : result fleet_error DesiredItem :=
  match pool cluster (fc_NodePool change) with
  | None => Err (ENoSuchPool (fc_NodePool change))
  | Some p =>
      let item state := fleet_item floor cluster "node-pool"
        (fm_Cluster cluster +:+ "/" +:+ np_Name p) (np_Name p) tier (LNodePool poolLimits) state in
      if fc_Operation change =s? OperationScaleNodePool then
        match Atoi (fc_To change) with
        | None => Err (ENotANumber (np_Name p) (fc_To change))
        | Some size =>
            refuse (npl_MaxNodes poolLimits <? size)%Z || (size <? npl_MinNodes poolLimits)%Z
              with EOutsideFloor (np_Name p) size ;
            Ok (item (<["nodePoolSize" := Itoa size]> (pool_state p poolLimits)))
        end
      else
        refuse negb (allowsInstanceType poolLimits (fc_To change))
          with EInstanceType (np_Name p) (fc_To change) ;
        Ok (item (<["instanceType" := fc_To change]> (pool_state p poolLimits)))
  end.

Definition applyToControlPlane (change : FleetChange) (floor : Floor) (tier : Tier)
    (cluster : FleetManifest) : result fleet_error DesiredItem :=
  refuse negb (kubernetesVersion (fc_To change)) with EFleetVersion (fm_Cluster cluster) (fc_To change) ;
  refuse negb (allows (fl_Fleet floor) (fc_To change)) with EUnsupportedVersion (fc_To change) ;
  refuse (minorRank (fc_To change) <? minorRank (fm_KubernetesVersion cluster))%Z
    with EDowngrade (fm_KubernetesVersion cluster) (fc_To change) ;
  Ok (fleet_item floor cluster kindControlPlane (fm_Cluster cluster +:+ "/" +:+ kindControlPlane)
        kindControlPlane tier
        (LControlPlane (mkControlPlaneLimits (ff_KubernetesVersions (fl_Fleet floor))))
        {["kubernetesVersion" := fc_To change]}).

Definition fieldFor (operation : FleetOperation) : string :=
  if operation =s? OperationSwapNetworkPlugin then "networkPlugin"
  else if operation =s? OperationSwapIngressController then "ingressController"
  else "storageClass".

Definition applyToClusterField (change : FleetChange) (floor : Floor) (tier : Tier)
    (cluster : FleetManifest) : result fleet_error DesiredItem :=
  refuse negb (name_MatchString (fc_To change)) with EFleetName "change" (fc_To change) ;
  Ok (fleet_item floor cluster "cluster" (fm_Cluster cluster) "cluster" tier LOther
        (<[fieldFor (fc_Operation change) := fc_To change]> (cluster_state cluster))).

Definition applyToClusterLifecycle (change : FleetChange) (floor : Floor) (tier : Tier)
    (cluster : FleetManifest) : DesiredItem :=
  let lifecycle := if fc_Operation change =s? OperationRemoveCluster then "removed" else "registered" in
  fleet_item floor cluster "cluster" (fm_Cluster cluster) "cluster" tier LOther
    {["clusterLifecycle" := lifecycle]}.

(** The switch of [AsChange] sets nothing for an operation outside its cases; all the
    classified ones are in them. *)
Definition FleetChange_AsChange (change : FleetChange) (cluster : FleetManifest) (floor : Floor)
    : result fleet_error DesiredItem :=
  _ <-? FleetManifest_validate cluster ;
  refuse negb (fc_Cluster change =s? fm_Cluster cluster)
    with EWrongCluster (fc_Cluster change) (fm_Cluster cluster) ;
  refuse negb (bool_decide (is_Some (ConsequenceOf (fc_Operation change))))
    with EUnclassified (fc_Operation change) ;
  match ff_NodePool (fl_Fleet floor) !! fm_Tier cluster with
  | None => Err (ENoPoolFloor (fm_Tier cluster))
  | Some poolLimits =>
      let operation := fc_Operation change in
      let tier := TierForFleetOperation operation (fm_Tier cluster) in
      if (operation =s? OperationScaleNodePool) || (operation =s? OperationChangeNodeInstanceType)
      then applyToNodePool change floor tier cluster poolLimits
      else if operation =s? OperationUpgradeKubernetes
      then applyToControlPlane change floor tier cluster
      else if (operation =s? OperationChangeStorageClass) || (operation =s? OperationSwapNetworkPlugin)
              || (operation =s? OperationSwapIngressController)
      then applyToClusterField change floor tier cluster
      else if (operation =s? OperationRegisterCluster) || (operation =s? OperationRemoveCluster)
      then Ok (applyToClusterLifecycle change floor tier cluster)
      else Ok (mkDesiredItem "fleet" "" "" "" tier (GateFor floor tier) (fm_Cluster cluster) no_slot
                 LOther [] "" "" "" None ∅ ∅)
  end.

(** ** Ownership of fields *)

(** The two maps from field to [true]. *)
Record Ownership := mkOwnership {
  ow_Governed : gset string;
  ow_Watched : gset string;
}.

Definition FleetOwnership : Ownership := mkOwnership
  {["kubernetesVersion"; "storageClass"; "networkPlugin"; "ingressController"; "instanceType";
    "nodePoolMaxNodes"]}
  {["nodePoolSize"; "kubernetesPatch"]}.

(** Governed fields first, then the watched ones that are not governed. *)
Definition Ownership_with (o other : Ownership) : Ownership :=
  let governed := ow_Governed o ∪ ow_Governed other in
  mkOwnership governed (ow_Watched o ∪ (ow_Watched other ∖ governed)).

Definition DefaultOwnership : Ownership :=
  Ownership_with (mkOwnership
    {["digest"; "image"; "runtime"; "retention"; "producerBytesPerSec"; "consumerBytesPerSec";
      "connectionLimit"; "statementTimeout"; "robotExpiry"; "cpuLimit"; "memoryMiB"]}
    {["replicas"]}) FleetOwnership.

Definition Owns (o : Ownership) (field : string) : bool := in_set (ow_Governed o) field.
Definition Watches (o : Ownership) (field : string) : bool := in_set (ow_Watched o) field.

(** ** What a fleet change may do *)

(** The tier every operation is governed at, written out. *)
Definition governed_tier (operation : FleetOperation) (cluster : Tier) : Tier :=
  if operation =s? OperationScaleNodePool then oneStepLighter cluster
  else if (operation =s? OperationChangeNodeInstanceType) || (operation =s? OperationRegisterCluster)
  then cluster
  else TierProd.

(** The changes the code makes, and when. *)
Inductive permitted (change : FleetChange) (cluster : FleetManifest) (floor : Floor)
    (l : NodePoolLimits) : DesiredItem → Prop :=
| may_scale p size :
    fc_Operation change = OperationScaleNodePool → pool cluster (fc_NodePool change) = Some p →
    Atoi (fc_To change) = Some size → (npl_MinNodes l ≤ size ≤ npl_MaxNodes l)%Z →
    permitted change cluster floor l
      (fleet_item floor cluster "node-pool" (fm_Cluster cluster +:+ "/" +:+ np_Name p) (np_Name p)
         (oneStepLighter (fm_Tier cluster)) (LNodePool l)
         (<["nodePoolSize" := Itoa size]> (pool_state p l)))
| may_change_instances p :
    fc_Operation change = OperationChangeNodeInstanceType →
    pool cluster (fc_NodePool change) = Some p → fc_To change ∈ npl_AllowedInstanceTypes l →
    permitted change cluster floor l
      (fleet_item floor cluster "node-pool" (fm_Cluster cluster +:+ "/" +:+ np_Name p) (np_Name p)
         (fm_Tier cluster) (LNodePool l) (<["instanceType" := fc_To change]> (pool_state p l)))
| may_upgrade allowed :
    fc_Operation change = OperationUpgradeKubernetes → kubernetesVersion (fc_To change) = true →
    allowed ∈ ff_KubernetesVersions (fl_Fleet floor) → minorLine allowed = minorLine (fc_To change) →
    (minorRank (fm_KubernetesVersion cluster) ≤ minorRank (fc_To change))%Z →
    permitted change cluster floor l
      (fleet_item floor cluster kindControlPlane (fm_Cluster cluster +:+ "/" +:+ kindControlPlane)
         kindControlPlane TierProd
         (LControlPlane (mkControlPlaneLimits (ff_KubernetesVersions (fl_Fleet floor))))
         {["kubernetesVersion" := fc_To change]})
| may_swap field :
    (fc_Operation change, field) ∈
      [(OperationChangeStorageClass, "storageClass"); (OperationSwapNetworkPlugin, "networkPlugin");
       (OperationSwapIngressController, "ingressController")] →
    name_MatchString (fc_To change) = true →
    permitted change cluster floor l
      (fleet_item floor cluster "cluster" (fm_Cluster cluster) "cluster" TierProd LOther
         (<[field := fc_To change]> (cluster_state cluster)))
| may_register :
    fc_Operation change = OperationRegisterCluster →
    permitted change cluster floor l
      (fleet_item floor cluster "cluster" (fm_Cluster cluster) "cluster" (fm_Tier cluster) LOther
         {["clusterLifecycle" := "registered"]})
| may_remove :
    fc_Operation change = OperationRemoveCluster →
    permitted change cluster floor l
      (fleet_item floor cluster "cluster" (fm_Cluster cluster) "cluster" TierProd LOther
         {["clusterLifecycle" := "removed"]}).

(** ** Lemmas *)

Definition operations : list FleetOperation :=
  [OperationScaleNodePool; OperationChangeNodeInstanceType; OperationUpgradeKubernetes;
   OperationChangeStorageClass; OperationSwapNetworkPlugin; OperationSwapIngressController;
   OperationRegisterCluster; OperationRemoveCluster].

Lemma classified operation : is_Some (ConsequenceOf operation) ↔ operation ∈ operations.
Proof.
  unfold ConsequenceOf. split.
  - intros [c Hc]. apply elem_of_list_to_map_2 in Hc. unfold operations.
    repeat (apply elem_of_cons in Hc as [[= -> ->]|Hc]); try set_solver.
  - unfold operations. intros H.
    repeat (apply elem_of_cons in H as [->|H]); try (eexists; vm_compute; reflexivity).
    by apply not_elem_of_nil in H.
Qed.

Lemma allows_true f version :
  allows f version = true ↔
  ∃ allowed, allowed ∈ ff_KubernetesVersions f ∧ minorLine allowed = minorLine version.
Proof. unfold allows. rewrite existsb_true. by setoid_rewrite eqs_true. Qed.

Lemma allowsInstanceType_true l i : allowsInstanceType l i = true ↔ i ∈ npl_AllowedInstanceTypes l.
Proof.
  unfold allowsInstanceType. rewrite existsb_true. setoid_rewrite eqs_true. split.
  - by intros (x & Hx & ->).
  - intros H. by exists i.
Qed.

(** Rule out a case of [permitted] about another operation. *)
Ltac wrong_operation :=
  exfalso;
  match goal with
  | H1 : fc_Operation ?c = _, H2 : fc_Operation ?c = _ |- _ => rewrite H1 in H2; discriminate H2
  | H1 : fc_Operation ?c = _, H2 : (fc_Operation ?c, _) ∈ _ |- _ => rewrite H1 in H2; set_solver
  | H1 : fc_Operation ?c = _, H2 : fc_Operation ?c ∈ _ |- _ => rewrite H1 in H2; set_solver
  | H1 : fc_Operation ?c ∈ _, H2 : (fc_Operation ?c, _) ∈ _ |- _ =>
      repeat (apply elem_of_cons in H1 as [H1|H1]); rewrite ?H1 in H2;
      [set_solver..|by apply not_elem_of_nil in H1]
  end.

Lemma applyToNodePool_scale change floor tier cluster l i :
  fc_Operation change = OperationScaleNodePool →
  tier = oneStepLighter (fm_Tier cluster) →
  applyToNodePool change floor tier cluster l = Ok i ↔ permitted change cluster floor l i.
Proof.
  intros Hop ->. unfold applyToNodePool. rewrite Hop. split.
  - destruct (pool _ _) as [p|] eqn:Hp; [|done]. simpl.
    destruct (Atoi _) as [size|] eqn:Hs; [|done]. rewrite refuse_Ok, orb_false_iff, !Z.ltb_ge.
    intros [[? ?] [= <-]]. by apply may_scale.
  - inversion 1 as [p size Ho Hp Hs Hb| | | | |]; try wrong_operation.
    rewrite Hp, Hs. simpl. rewrite refuse_Ok, orb_false_iff, !Z.ltb_ge. split; [lia|done].
Qed.

Lemma applyToNodePool_instances change floor tier cluster l i :
  fc_Operation change = OperationChangeNodeInstanceType → tier = fm_Tier cluster →
  applyToNodePool change floor tier cluster l = Ok i ↔ permitted change cluster floor l i.
Proof.
  intros Hop ->. unfold applyToNodePool. rewrite Hop. split.
  - destruct (pool _ _) as [p|] eqn:Hp; [|done]. simpl.
    rewrite refuse_Ok, negb_false_iff, allowsInstanceType_true.
    intros [? [= <-]]. by apply may_change_instances.
  - inversion 1 as [|p Ho Hp Hs| | | |]; try wrong_operation.
    rewrite Hp. simpl. by rewrite refuse_Ok, negb_false_iff, allowsInstanceType_true.
Qed.

Lemma applyToControlPlane_Ok change floor tier cluster l i :
  fc_Operation change = OperationUpgradeKubernetes → tier = TierProd →
  applyToControlPlane change floor tier cluster = Ok i ↔ permitted change cluster floor l i.
Proof.
  intros Hop ->. unfold applyToControlPlane.
  rewrite !refuse_Ok, !negb_false_iff, allows_true, Z.ltb_ge. split.
  - intros (? & (a & ? & ?) & ? & [= <-]). by eapply may_upgrade.
  - inversion 1 as [| |a Ho Hv Ha Hm Hr| | |]; try wrong_operation. by eauto 10.
Qed.

Lemma applyToClusterField_Ok change floor tier cluster l i :
  fc_Operation change ∈ [OperationChangeStorageClass; OperationSwapNetworkPlugin;
    OperationSwapIngressController] → tier = TierProd →
  applyToClusterField change floor tier cluster = Ok i ↔ permitted change cluster floor l i.
Proof.
  intros Hop ->. unfold applyToClusterField. rewrite refuse_Ok, negb_false_iff. split.
  - intros [Hn [= <-]]. apply may_swap; [|done].
    repeat (apply elem_of_cons in Hop as [->|Hop]); [set_solver..|by apply not_elem_of_nil in Hop].
  - inversion 1 as [| | |field Hf Hn| |]; try wrong_operation.
    split; [done|]. do 2 f_equal.
    repeat (apply elem_of_cons in Hf as [Hf|Hf]; [injection Hf as -> ->; done|]).
    by apply not_elem_of_nil in Hf.
Qed.

Lemma applyToClusterLifecycle_Ok change floor tier cluster l i :
  fc_Operation change ∈ [OperationRegisterCluster; OperationRemoveCluster] →
  tier = TierForFleetOperation (fc_Operation change) (fm_Tier cluster) →
  applyToClusterLifecycle change floor tier cluster = i ↔ permitted change cluster floor l i.
Proof.
  intros Hop ->. unfold applyToClusterLifecycle. split.
  - intros <-. apply elem_of_cons in Hop as [Ho|Hop]; [|apply list_elem_of_singleton in Hop as Ho].
    + rewrite Ho. by apply may_register.
    + rewrite Ho. by apply may_remove.
  - inversion 1 as [| | | |Ho|Ho]; try wrong_operation.
    + by rewrite Ho.
    + by rewrite Ho.
Qed.

(** The switch of [AsChange], operation by operation. *)
Lemma AsChange_switch change cluster floor l i :
  is_Some (ConsequenceOf (fc_Operation change)) →
  ff_NodePool (fl_Fleet floor) !! fm_Tier cluster = Some l →
  FleetManifest_validate cluster = Ok tt → fc_Cluster change = fm_Cluster cluster →
  FleetChange_AsChange change cluster floor = Ok i ↔ permitted change cluster floor l i.
Proof.
  intros Hc Hl Hv Hcl. unfold FleetChange_AsChange. rewrite Hv, Hcl, eqs_refl, Hl. simpl.
  rewrite (bool_decide_eq_true_2 _ Hc). simpl. apply classified in Hc. unfold operations in Hc.
  repeat (apply elem_of_cons in Hc as [Ho|Hc]); [..|by apply not_elem_of_nil in Hc]; rewrite Ho; simpl.
  - by apply applyToNodePool_scale.
  - by apply applyToNodePool_instances.
  - by apply applyToControlPlane_Ok.
  - apply applyToClusterField_Ok; [|done]. rewrite Ho. set_solver.
  - apply applyToClusterField_Ok; [|done]. rewrite Ho. set_solver.
  - apply applyToClusterField_Ok; [|done]. rewrite Ho. set_solver.
  - rewrite <- (applyToClusterLifecycle_Ok change floor (fm_Tier cluster) cluster l i);
      [|rewrite Ho; set_solver|by rewrite Ho]. naive_solver.
  - rewrite <- (applyToClusterLifecycle_Ok change floor TierProd cluster l i);
      [|rewrite Ho; set_solver|by rewrite Ho]. naive_solver.
Qed.

(** *** Versions as numbers *)

Lemma digits_no_dot s : digits s = true → char_in "." s = false.
Proof.
  unfold digits. rewrite andb_true_iff. intros [_ H]. induction s as [|c s IH]; [done|].
  simpl in *. apply andb_true_iff in H as [Hc Hs]. rewrite (IH Hs), orb_false_r.
  apply bool_decide_eq_false. intros <-. done.
Qed.

Lemma version_parts v :
  kubernetesVersion v = true →
  ∃ major minor rest, SplitByte "." v = major :: minor :: rest ∧
    digits major = true ∧ digits minor = true.
Proof.
  unfold kubernetesVersion. destruct (SplitByte "." v) as [|major [|minor [|patch [|]]]]; try done.
  - intros [? ?]%andb_true_iff. by exists major, minor, [].
  - intros [[? ?]%andb_true_iff _]%andb_true_iff. by exists major, minor, [patch].
Qed.

(** The rank of a version is [1000 * major + minor] as long as nothing overflows. *)
Lemma minorRank_value v major minor rest a b :
  SplitByte "." v = major :: minor :: rest → digits major = true → digits minor = true →
  Atoi major = Some a → Atoi minor = Some b →
  (0 ≤ a < 2 ^ 53)%Z → (0 ≤ b < 1000)%Z → minorRank v = (1000 * a + b)%Z.
Proof.
  intros Hv Hma Hmi Ha Hb Hra Hrb. unfold minorRank, minorLine. rewrite Hv.
  change (major +:+ "." +:+ minor) with (major +:+ String "." minor).
  rewrite (SplitByte_app "." major minor) by by apply digits_no_dot.
  rewrite SplitByte_no_sep by by apply digits_no_dot. rewrite Ha, Hb.
  rewrite (wrap64_small (a * 1000)) by lia. rewrite wrap64_small; lia.
Qed.

(** So the guard of an upgrade refuses exactly the lower minor lines. *)
Lemma upgrade_guard_is_no_downgrade v w ma mi ra ma' mi' ra' a b a' b' :
  SplitByte "." v = ma :: mi :: ra → digits ma = true → digits mi = true →
  SplitByte "." w = ma' :: mi' :: ra' → digits ma' = true → digits mi' = true →
  Atoi ma = Some a → Atoi mi = Some b → Atoi ma' = Some a' → Atoi mi' = Some b' →
  (0 ≤ a < 2 ^ 53)%Z → (0 ≤ b < 1000)%Z → (0 ≤ a' < 2 ^ 53)%Z → (0 ≤ b' < 1000)%Z →
  (minorRank v ≤ minorRank w ↔ a < a' ∨ a = a' ∧ b ≤ b')%Z.
Proof.
  intros Hv ? ? Hw ? ? Ha Hb Ha' Hb' ? ? ? ?.
  rewrite (minorRank_value _ _ _ _ _ _ Hv) by done. rewrite (minorRank_value _ _ _ _ _ _ Hw) by done.
  lia.
Qed.

(** Beyond a thousand minors the ranks of two lines meet. *)
Example minorRank_meets : minorRank "1.1000" = minorRank "2.0".
Proof. by vm_compute. Qed.

(** *** Resolution *)

Lemma ResolveFleet_Ok cluster floor d :
  ResolveFleet cluster floor = Ok d →
  FleetManifest_validate cluster = Ok tt ∧
  ∃ l, ff_NodePool (fl_Fleet floor) !! fm_Tier cluster = Some l ∧
  allows (fl_Fleet floor) (fm_KubernetesVersion cluster) = true ∧
  d_Team d = fm_Team cluster ∧ d_Owns d = fm_Cluster cluster ∧
  (∀ i, i ∈ d_Changes d → di_Gate i = GateFor floor (di_Tier i) ∧
     di_Tier i = (if di_Kind i =s? "node-pool" then fm_Tier cluster else TierProd)) ∧
  ∀ p, p ∈ fm_NodePools cluster →
    (npl_MinNodes l ≤ np_Size p ≤ npl_MaxNodes l)%Z ∧ np_InstanceType p ∈ npl_AllowedInstanceTypes l.
Proof.
  unfold ResolveFleet. rewrite rbind_Ok. intros ([] & Hv & Hr). split; [done|].
  destruct (ff_NodePool _ !! _) as [l|]; [|done]. exists l. split; [done|].
  rewrite refuse_Ok, negb_false_iff in Hr. destruct Hr as [Hal Hr]. split; [done|].
  apply rbind_Ok in Hr as (pools & Hp & [= <-]). simpl. do 2 (split; [done|]). split.
  - intros i [->|[->|Hi]%elem_of_cons]%elem_of_cons; [done|done|].
    destruct (mapM_err_elem _ _ _ _ Hp Hi) as (p & _ & Hpool). unfold resolve_pool in Hpool.
    rewrite !refuse_Ok in Hpool. by destruct Hpool as (_ & _ & _ & [= <-]).
  - intros p Hin. apply mapM_err_Ok in Hp. apply list_elem_of_lookup in Hin as [k Hk].
    destruct (Forall2_lookup_l _ _ _ _ _ Hp Hk) as (i & _ & Hpool). unfold resolve_pool in Hpool.
    rewrite !refuse_Ok, !Z.ltb_ge, negb_false_iff, allowsInstanceType_true in Hpool.
    destruct Hpool as (? & ? & ? & _). split; [lia|done].
Qed.

(** A fleet change is exactly a permitted one. [AsChange] succeeds for a classified
    operation on the valid cluster it names, where the floor has limits for the cluster's
    tier, and only so: scaling stays between the floor's minimum and maximum, a new
    instance type is one the floor allows, an upgrade goes to a pinned version of an
    allowed minor line not ranked below the cluster's, a swapped component has a valid
    name. The item it returns carries the change and nothing else, at the tier the
    operation's consequence gives (prod for everything irreversible, whatever the cluster;
    the cluster's tier when disruptive; one step lighter only for scaling) and the floor's
    gate for that tier. *)
Theorem fleet_changes_exactly change cluster floor i :
  FleetChange_AsChange change cluster floor = Ok i ↔
  FleetManifest_validate cluster = Ok tt ∧ fc_Cluster change = fm_Cluster cluster ∧
  ∃ l, ff_NodePool (fl_Fleet floor) !! fm_Tier cluster = Some l ∧
    permitted change cluster floor l i.
Proof.
  split.
  - intros H. assert (H' := H). unfold FleetChange_AsChange in H.
    apply rbind_Ok in H as ([] & Hv & H). rewrite !refuse_Ok, !negb_false_iff in H.
    destruct H as (Hc & Hop & H). apply eqs_true in Hc. apply bool_decide_eq_true in Hop.
    destruct (ff_NodePool _ !! _) as [l|] eqn:Hl; [|done]. do 2 (split; [done|]).
    exists l. split; [done|]. by apply AsChange_switch.
  - intros (Hv & Hc & l & Hl & Hp). apply (AsChange_switch change cluster floor l); try done.
    apply classified. unfold operations.
    destruct Hp as [? ? Ho|? Ho|? Ho|f Hf|Ho|Ho]; try (rewrite Ho; set_solver).
    repeat (apply elem_of_cons in Hf as [[= -> _]|Hf]); [set_solver..|by apply not_elem_of_nil in Hf].
Qed.

(** ** Examples *)

Definition demo_fleet_manifest : FleetManifest :=
  mkFleetManifest "eu-1" "platform" TierProd "1.28" "fast-ssd" "cilium" ""
    [mkNodePool "general" 3 "standard-4"].

Example demo_scale :
  (λ i, (di_Tier i, di_Gate i, di_State i !! "nodePoolSize")) <$>
    (match FleetChange_AsChange (mkFleetChange "eu-1" OperationScaleNodePool "general" "40")
             demo_fleet_manifest DefaultFloor with Ok i => Some i | Err _ => None end) =
  Some (TierShared, GateOwningTeam, Some "40").
Proof. by vm_compute. Qed.

Example demo_downgrade :
  FleetChange_AsChange (mkFleetChange "eu-1" OperationUpgradeKubernetes "" "1.28.9")
    (mkFleetManifest "eu-1" "platform" TierProd "1.29" "fast-ssd" "cilium" "" []) DefaultFloor =
  Err (EDowngrade "1.29" "1.28.9").
Proof. by vm_compute. Qed.
