(* ===== verification/Reconcile.v ===== *)
(** Approved against actual: [mantlekeep-estate/reconcile.go], with the field-by-field
    comparison of [fleet.go].

    [Diff] compares the approved changes with what an adapter observed; [Reconcile]
    applies what may be corrected without a person and hands the rest over. The adapter's
    [Apply] is an argument that threads its own state; the backend's own field writers are
    not modelled, since nothing here reads them. *)
From S2P Require Import Prelude Contracts EstateFloor Placement Manifest EstateResolve Fleet.

(** ** [time.Duration.String] *)

(** [fmtFrac]: the last [prec] digits of [v] as a fraction, without trailing zeros, and the
    digits before them. *)
Fixpoint fmtFrac_digits (prec : nat) (v : Z) (print : bool) (acc : string) : string * Z * bool :=
  match prec with
  | 0 => (acc, v, print)
  | S prec =>
      let digit := (v mod 10)%Z in
      let print := print || negb (digit =? 0)%Z in
      fmtFrac_digits prec (v / 10)%Z print
        (if print then String (ascii_of_N (Z.to_N (48 + digit))) acc else acc)
  end.
Definition fmtFrac (prec : nat) (v : Z) : string * Z :=
  let '(frac, v, print) := fmtFrac_digits prec v false "" in
  (if print then "." +:+ frac else frac, v).

(** The magnitude, in the largest of ns, µs, ms below a second, else in hours, minutes and
    seconds. *)
Definition Duration_magnitude (u : Z) : string :=
  if (u <? 1000000000)%Z then
    if (u =? 0)%Z then "0s"
    else
      let '(prec, unit) :=
        if (u <? 1000)%Z then (0, "ns") else if (u <? 1000000)%Z then (3, "µs") else (6, "ms") in
      let '(frac, whole) := fmtFrac prec u in
      Itoa whole +:+ frac +:+ unit
  else
    let '(frac, seconds) := fmtFrac 9 u in
    let out := Itoa (seconds mod 60) +:+ frac +:+ "s" in
    let minutes := (seconds / 60)%Z in
    if (0 <? minutes)%Z then
      let out := Itoa (minutes mod 60) +:+ "m" +:+ out in
      let hours := (minutes / 60)%Z in
      if (0 <? hours)%Z then Itoa hours +:+ "h" +:+ out else out
    else out.

Definition Duration_String (d : Duration) : string :=
  if (d <? 0)%Z then "-" +:+ Duration_magnitude (- d) else Duration_magnitude d.

Example demo_durations :
  map Duration_String [0; 1500; 90 * second; 30 * 24 * hour; 1500000000; - 2 * minute]%Z =
  ["0s"; "1.5µs"; "1m30s"; "720h0m0s"; "1.5s"; "-2m0s"].
Proof. by vm_compute. Qed.

(** ** Observed state and drift *)

Record ObservedItem := mkObservedItem {
  oi_Asset : string;
  oi_Kind : string;
  oi_Name : string;
  oi_Cluster : string;
  oi_Slot : Slot;
  oi_Limits : limits;
  oi_Readers : list string;
  oi_Image : string;
  oi_Digest : string;
  oi_Runtime : string;
  oi_State : gmap string string;
}.

Notation Observed := (list ObservedItem) (only parsing).

Definition ObservedItem_key (o : ObservedItem) : string :=
  if negb (Slot_Empty (oi_Slot o)) then oi_Asset o +:+ "/" +:+ oi_Kind o +:+ "/" +:+ Slot_Key (oi_Slot o)
  else oi_Asset o +:+ "/" +:+ oi_Kind o +:+ "/" +:+ oi_Name o.

(** A later item of the same key replaces the earlier one. *)
Definition index (o : Observed) : gmap string ObservedItem :=
  foldl (λ byKey item, <[ObservedItem_key item := item]> byKey) ∅ o.

Definition DesiredItem_key (d : DesiredItem) : string :=
  if negb (Slot_Empty (di_Slot d)) then di_Asset d +:+ "/" +:+ di_Kind d +:+ "/" +:+ Slot_Key (di_Slot d)
  else di_Asset d +:+ "/" +:+ di_Kind d +:+ "/" +:+ di_Name d.

Notation DriftKind := string (only parsing).
Definition DriftAbsent : DriftKind := "absent".
Definition DriftChanged : DriftKind := "changed".
Definition DriftUnexpected : DriftKind := "unexpected".

Record Difference := mkDifference {
  df_Field : string;
  df_Approved : string;
  df_Observed : string;
  df_Governed : bool;
}.

Record Drift := mkDrift {
  dr_Kind : DriftKind;
  dr_Desired : option DesiredItem;
  dr_Observed : option ObservedItem;
  dr_Detail : string;
  dr_Differences : list Difference;
}.

Definition Ungoverned (d : Drift) : bool :=
  if (dr_Kind d =s? DriftUnexpected) || (dr_Kind d =s? DriftAbsent) then true
  else existsb df_Governed (dr_Differences d).

Definition Correctable (d : Drift) : bool :=
  match dr_Desired d with
  | None => false
  | Some desired =>
      if dr_Kind d =s? DriftUnexpected then false
      else if negb (Ungoverned d) then false
      else di_Gate desired =s? GateNone
  end.

(** ** Differences *)

(** The closure [compare] of [differs], as the differences it appends. *)
Definition compare_field (ownership : Ownership) (field approved observed : string) : list Difference :=
  if (approved =s? "") || (approved =s? observed) then []
  else
    let observed := if observed =s? "" then "(absent)" else observed in
    let governed := Owns ownership field in
    if negb governed && negb (Watches ownership field) then []
    else [mkDifference field approved observed governed].

(** Every comparison is a field, its approved and its observed value. *)
Definition limit_fields (want got : limits) : list (string * string * string) :=
  match want, got with
  | LApp w, LApp g =>
      [("replicas", Itoa (al_Replicas w), Itoa (al_Replicas g));
       ("cpuLimit", al_CPULimit w, al_CPULimit g);
       ("memoryMiB", Itoa (al_MemoryMiB w), Itoa (al_MemoryMiB g))]
  | LKafka w, LKafka g =>
      [("retention", Duration_String (kl_Retention w), Duration_String (kl_Retention g));
       ("producerBytesPerSec", Itoa (kl_ProducerBytesPerSec w), Itoa (kl_ProducerBytesPerSec g));
       ("consumerBytesPerSec", Itoa (kl_ConsumerBytesPerSec w), Itoa (kl_ConsumerBytesPerSec g))]
  | LPostgres w, LPostgres g =>
      [("connectionLimit", Itoa (pl_ConnectionLimit w), Itoa (pl_ConnectionLimit g));
       ("statementTimeout", Duration_String (pl_StatementTimeout w), Duration_String (pl_StatementTimeout g))]
  | LHarbor w, LHarbor g =>
      [("robotExpiry", Duration_String (hl_RobotExpiry w), Duration_String (hl_RobotExpiry g))]
  | _, _ => []
  end.

Definition state_field (want got : gmap string string) (field : string) : string * string * string :=
  let approved := default "" (want !! field) in
  let observed := default "" (got !! field) in
  if field =s? "kubernetesVersion" then (field, minorLine approved, minorLine observed)
  else (field, approved, observed).

Definition fleet_fields (want : DesiredItem) (got : ObservedItem) : list (string * string * string) :=
  map (state_field (di_State want) (oi_State got)) (sorted_keys (di_State want)).

(** What [differs] compares, in order. *)
Definition compared (want : DesiredItem) (got : ObservedItem) : list (string * string * string) :=
  [("digest", di_Digest want, oi_Digest got); ("image", di_Image want, oi_Image got);
   ("runtime", di_Runtime want, oi_Runtime got)] ++
  fleet_fields want got ++ limit_fields (di_Limits want) (oi_Limits got).

Definition differs (want : DesiredItem) (got : ObservedItem) (ownership : Ownership) : list Difference :=
  flat_map (λ '(field, approved, observed), compare_field ownership field approved observed)
    (compared want got).

Definition summarise_one (d : Difference) : string :=
  let owner := if df_Governed d then "governed" else "watched" in
  df_Field d +:+ " is " +:+ Quote (df_Observed d) +:+ ", approved " +:+ Quote (df_Approved d) +:+
  " (" +:+ owner +:+ ")".
Definition summarise (differences : list Difference) : string :=
  Join (map summarise_one differences) "; ".

Definition driftKey (d : Drift) : string :=
  match dr_Desired d with
  | Some desired => DesiredItem_key desired
  | None => match dr_Observed d with Some o => ObservedItem_key o | None => "" end
  end.

(** The body of the first loop of [DiffOwned]. *)
Definition diff_wanted (actual : gmap string ObservedItem) (ownership : Ownership)
    (want : DesiredItem) : list Drift :=
  match actual !! DesiredItem_key want with
  | None => [mkDrift DriftAbsent (Some want) None "approved but absent" []]
  | Some got =>
      match differs want got ownership with
      | [] => []
      | differences =>
          [mkDrift DriftChanged (Some want) (Some got) (summarise differences) differences]
      end
  end.

(** The body of the second loop. *)
Definition diff_observed (seen : gset string) (got : ObservedItem) : list Drift :=
  if negb (in_set seen (ObservedItem_key got))
  then [mkDrift DriftUnexpected None (Some got) "exists but was never approved" []] else [].

(** [sort.SliceStable] on the keys: insertion after every drift of a lesser or equal key. *)
Definition drift_less (a b : Drift) : bool := negb (bool_decide (String.le (driftKey b) (driftKey a))).
Fixpoint insert_drift (d : Drift) (sorted : list Drift) : list Drift :=
  match sorted with
  | [] => [d]
  | x :: rest => if drift_less d x then d :: x :: rest else x :: insert_drift d rest
  end.
Definition sort_drifts (drifts : list Drift) : list Drift :=
  foldl (λ sorted d, insert_drift d sorted) [] drifts.

Definition DiffOwned (desired : Desired) (observed : Observed) (ownership : Ownership) : list Drift :=
  let seen : gset string := list_to_set (map DesiredItem_key (d_Changes desired)) in
  let actual := index observed in
  sort_drifts
    (flat_map (diff_wanted actual ownership) (d_Changes desired) ++
     flat_map (diff_observed seen) observed).

Definition Diff (desired : Desired) (observed : Observed) : list Drift :=
  DiffOwned desired observed DefaultOwnership.

(** ** One reconcile pass *)

Record Outcome := mkOutcome {
  oc_Corrected : list Drift;
  oc_Escalated : list Drift;
  oc_Failed : list Drift;
}.

Definition with_detail (d : Drift) (detail : string) : Drift :=
  mkDrift (dr_Kind d) (dr_Desired d) (dr_Observed d) detail (dr_Differences d).

Section Apply.
(** The adapter's [Apply]: its state, and the text of the error if it failed. *)
Context {S : Type} (Apply : ExecutionToken → DesiredItem → S → S * option string).

(** One round of the loop of [Reconcile]. The desired item of a correctable drift is
    never nil. *)
Definition reconcile_step (token : ExecutionToken) (acc : S * Outcome) (drift : Drift) : S * Outcome :=
  let '(s, outcome) := acc in
  match dr_Desired drift, Correctable drift with
  | Some desired, true =>
      match Apply token desired s with
      | (s, Some err) =>
          let drift := with_detail drift (dr_Detail drift +:+ "; correction failed: " +:+ err) in
          (s, mkOutcome (oc_Corrected outcome) (oc_Escalated outcome) (oc_Failed outcome ++ [drift]))
      | (s, None) =>
          (s, mkOutcome (oc_Corrected outcome ++ [drift]) (oc_Escalated outcome) (oc_Failed outcome))
      end
  | _, _ => (s, mkOutcome (oc_Corrected outcome) (oc_Escalated outcome ++ [drift]) (oc_Failed outcome))
  end.

Definition Reconcile (token : ExecutionToken) (drifts : list Drift) (s : S) : S * Outcome :=
  foldl (reconcile_step token) (s, mkOutcome [] [] []) drifts.
End Apply.

(** ** What a drift report holds *)

(** The observed item an identity is compared with: the last one of that key. *)
Definition last_with_key (observed : Observed) (key : string) (got : ObservedItem) : Prop :=
  ∃ before after, observed = before ++ got :: after ∧ ObservedItem_key got = key ∧
    ∀ x, x ∈ after → ObservedItem_key x ≠ key.

Inductive drifted (desired : Desired) (observed : Observed) (ownership : Ownership) : Drift → Prop :=
| drifted_absent want :
    want ∈ d_Changes desired →
    (∀ got, got ∈ observed → ObservedItem_key got ≠ DesiredItem_key want) →
    drifted desired observed ownership (mkDrift DriftAbsent (Some want) None "approved but absent" [])
| drifted_changed want got differences :
    want ∈ d_Changes desired → last_with_key observed (DesiredItem_key want) got →
    differences = differs want got ownership → differences ≠ [] →
    drifted desired observed ownership
      (mkDrift DriftChanged (Some want) (Some got) (summarise differences) differences)
| drifted_unexpected got :
    got ∈ observed →
    (∀ want, want ∈ d_Changes desired → DesiredItem_key want ≠ ObservedItem_key got) →
    drifted desired observed ownership
      (mkDrift DriftUnexpected None (Some got) "exists but was never approved" []).

(** One difference: an approved value that reality does not hold, in a field somebody
    cares about. *)
Definition field_differs (ownership : Ownership) (fields : list (string * string * string))
    (d : Difference) : Prop :=
  ∃ observed, (df_Field d, df_Approved d, observed) ∈ fields ∧
    df_Approved d ≠ "" ∧ df_Approved d ≠ observed ∧
    df_Observed d = (if observed =s? "" then "(absent)" else observed) ∧
    (df_Field d ∈ ow_Governed ownership ∨ df_Field d ∈ ow_Watched ownership) ∧
    (df_Governed d = true ↔ df_Field d ∈ ow_Governed ownership).

(** ** Lemmas *)

Lemma compare_field_spec ownership field approved observed d :
  d ∈ compare_field ownership field approved observed ↔
  approved ≠ "" ∧ approved ≠ observed ∧
  (field ∈ ow_Governed ownership ∨ field ∈ ow_Watched ownership) ∧
  d = mkDifference field approved (if observed =s? "" then "(absent)" else observed)
        (Owns ownership field).
Proof.
  unfold compare_field. destruct (_ || _) eqn:Hs.
  { apply orb_true_iff in Hs. rewrite !eqs_true in Hs. split; [by intros ?%not_elem_of_nil|].
    by intros (? & ? & _); destruct Hs. }
  apply orb_false_iff in Hs as [Ha%eqs_false Ho%eqs_false].
  destruct (negb _ && _) eqn:Hg; cbv zeta.
  - apply andb_true_iff in Hg as [Hg Hw]. apply negb_true_iff in Hg, Hw. unfold Owns, Watches in *.
    apply in_set_false in Hg, Hw. split; [by intros ?%not_elem_of_nil|]. by intros (_ & _ & [?|?] & _).
  - rewrite list_elem_of_singleton. apply andb_false_iff in Hg. rewrite !negb_false_iff in Hg.
    unfold Owns, Watches in *. rewrite !in_set_true in Hg. tauto.
Qed.

Lemma elem_of_differs want got ownership d :
  d ∈ differs want got ownership ↔ field_differs ownership (compared want got) d.
Proof.
  unfold differs, field_differs. rewrite elem_of_flat_map. split.
  - intros ([[field approved] observed] & Hin & Hd). apply compare_field_spec in Hd as (? & ? & ? & ->).
    exists observed. simpl. do 5 (split; [done|]). unfold Owns. by rewrite in_set_true.
  - intros (observed & Hin & Ha & Ho & Hobs & Hf & Hg). exists (df_Field d, df_Approved d, observed).
    split; [done|]. apply compare_field_spec. do 3 (split; [done|]). destruct d as [f a o g]. simpl in *.
    rewrite Hobs. f_equal. unfold Owns. apply Bool.eq_iff_eq_true. by rewrite in_set_true.
Qed.

Lemma index_app o1 o2 :
  index (o1 ++ o2) = foldl (λ byKey item, <[ObservedItem_key item := item]> byKey) (index o1) o2.
Proof. apply foldl_app. Qed.

Lemma index_lookup observed key got : index observed !! key = Some got ↔ last_with_key observed key got.
Proof.
  revert got. induction observed as [|x observed IH] using rev_ind; intros got.
  - split; [done|]. intros (before & after & H & _). by destruct before.
  - rewrite index_app. cbn [foldl]. rewrite lookup_insert_Some. split.
    + intros [[<- <-]|[Hne Hi]].
      * exists observed, []. split; [done|]. split; [done|]. by intros y ?%not_elem_of_nil.
      * apply IH in Hi as (before & after & -> & Hk & Ha). exists before, (after ++ [x]).
        split; [by rewrite <- app_assoc|]. split; [done|]. intros y [Hy|Hy]%elem_of_app; [by apply Ha|].
        by apply list_elem_of_singleton in Hy as ->.
    + intros (before & after & Heq & Hk & Ha). destruct after as [|y after _] using rev_ind.
      * apply app_inj_tail in Heq as [-> ->]. by left.
      * rewrite app_comm_cons, app_assoc in Heq. apply app_inj_tail in Heq as [-> ->]. right. split.
        -- apply Ha, elem_of_app. right. by left.
        -- apply IH. exists before, after. do 2 (split; [done|]). intros z Hz. apply Ha, elem_of_app. by left.
Qed.

Lemma index_None observed key :
  index observed !! key = None ↔ ∀ got, got ∈ observed → ObservedItem_key got ≠ key.
Proof.
  induction observed as [|x observed IH] using rev_ind.
  - split; [by intros _ got ?%not_elem_of_nil|done].
  - rewrite index_app. cbn [foldl]. rewrite lookup_insert_None, IH. split.
    + intros [Hall Hx] got [?|Hg]%elem_of_app; [by apply Hall|].
      by apply list_elem_of_singleton in Hg as ->.
    + intros Hall. split; [intros got Hg|]; apply Hall, elem_of_app; [by left|right; by left].
Qed.

Lemma insert_drift_Permutation d l : insert_drift d l ≡ₚ d :: l.
Proof.
  induction l as [|x l IH]; [done|]. simpl. destruct (drift_less d x); [done|].
  rewrite IH. by apply Permutation_swap.
Qed.

Lemma sort_drifts_Permutation l : sort_drifts l ≡ₚ l.
Proof.
  unfold sort_drifts. rewrite <- (app_nil_r l) at 2. generalize (@nil Drift).
  induction l as [|x l IH]; intros acc; [done|]. cbn [foldl]. rewrite IH, insert_drift_Permutation.
  symmetry. apply Permutation_middle.
Qed.

Definition in_key_order : relation Drift := λ a b, String.le (driftKey a) (driftKey b).

Lemma insert_drift_Sorted d l : Sorted in_key_order l → Sorted in_key_order (insert_drift d l).
Proof.
  induction 1 as [|x l Hs IH Hx]; simpl; [by repeat constructor|].
  unfold drift_less. destruct (bool_decide (String.le (driftKey x) (driftKey d))) eqn:E; simpl.
  - apply bool_decide_eq_true in E. constructor; [done|]. destruct l as [|y l]; simpl; [by constructor|].
    destruct (drift_less d y); constructor; [done|]. by inversion Hx.
  - apply bool_decide_eq_false in E. constructor; [by constructor|]. constructor. unfold in_key_order.
    destruct (total String.le (driftKey d) (driftKey x)); done.
Qed.

Lemma sort_drifts_Sorted l : Sorted in_key_order (sort_drifts l).
Proof.
  unfold sort_drifts. assert (H : Sorted in_key_order []) by constructor. revert H.
  generalize (@nil Drift). induction l as [|x l IH]; intros acc H; [done|]. cbn [foldl].
  by apply IH, insert_drift_Sorted.
Qed.

Lemma elem_of_DiffOwned desired observed ownership d :
  d ∈ DiffOwned desired observed ownership ↔ drifted desired observed ownership d.
Proof.
  unfold DiffOwned. rewrite sort_drifts_Permutation, elem_of_app, !elem_of_flat_map. split.
  - intros [(want & Hw & Hd)|(got & Hg & Hd)].
    + unfold diff_wanted in Hd. destruct (index observed !! _) as [got|] eqn:Hi.
      * destruct (differs want got ownership) as [|x l] eqn:Hdf; [by apply not_elem_of_nil in Hd|].
        apply list_elem_of_singleton in Hd as ->. apply index_lookup in Hi. by eapply drifted_changed.
      * apply list_elem_of_singleton in Hd as ->. apply drifted_absent; [done|]. by apply index_None.
    + unfold diff_observed in Hd. destruct (in_set _ _) eqn:Hs; [by apply not_elem_of_nil in Hd|].
      apply list_elem_of_singleton in Hd as ->. apply in_set_false in Hs.
      apply drifted_unexpected; [done|]. intros want Hw Heq. apply Hs, elem_of_list_to_set.
      apply elem_of_map. by exists want.
  - intros [want Hw Hno|want got ds Hw Hl -> Hne|got Hg Hno].
    + left. exists want. split; [done|]. unfold diff_wanted.
      rewrite (proj2 (index_None observed _) Hno). by left.
    + left. exists want. split; [done|]. unfold diff_wanted. apply index_lookup in Hl. rewrite Hl.
      destruct (differs want got ownership); [done|]. by left.
    + right. exists got. split; [done|]. unfold diff_observed.
      assert (Hs : in_set (list_to_set (map DesiredItem_key (d_Changes desired))) (ObservedItem_key got) = false).
      { apply in_set_false. rewrite elem_of_list_to_set, elem_of_map. intros (want & Hk & Hw).
        by apply (Hno want Hw). }
      rewrite Hs. by left.
Qed.

(** The drift report is exact. [DiffOwned] reports, in key order, precisely: each
    approved change of whose identity nothing was observed; each one whose last observed
    item differs, with the differing fields; each observed item no approved change names.
    A field differs when a value was approved for it, the observed value (an absent one
    included) is another, and the field is governed or watched; the difference is marked
    governed exactly for the governed fields. *)
Theorem drift_report_is_exact desired observed ownership :
  Sorted in_key_order (DiffOwned desired observed ownership) ∧
  (∀ d, d ∈ DiffOwned desired observed ownership ↔ drifted desired observed ownership d) ∧
  ∀ want got d, d ∈ differs want got ownership ↔ field_differs ownership (compared want got) d.
Proof.
  split; [apply sort_drifts_Sorted|]. split; [intros d; apply elem_of_DiffOwned|].
  intros want got d. apply elem_of_differs.
Qed.

(** *** The reconcile pass *)

Lemma Correctable_true d :
  Correctable d = true ↔
  ∃ desired, dr_Desired d = Some desired ∧ dr_Kind d ≠ DriftUnexpected ∧
    (dr_Kind d = DriftAbsent ∨ ∃ f, f ∈ dr_Differences d ∧ df_Governed f = true) ∧
    di_Gate desired = GateNone.
Proof.
  unfold Correctable, Ungoverned. destruct (dr_Desired d) as [desired|]; [|split; [done|by intros (? & ? & _)]].
  destruct (dr_Kind d =s? DriftUnexpected) eqn:Eu.
  { apply eqs_true in Eu. split; [done|]. by intros (? & _ & ? & _). }
  apply eqs_false in Eu. simpl. destruct (dr_Kind d =s? DriftAbsent) eqn:Ea; simpl.
  - apply eqs_true in Ea. rewrite eqs_true. split; [|by intros (? & [= ->] & _ & _ & ?)].
    intros Hg. exists desired. do 2 (split; [done|]). by split; [left|].
  - apply eqs_false in Ea. destruct (existsb _ _) eqn:Eg; simpl.
    + apply existsb_true in Eg. rewrite eqs_true. split; [|by intros (? & [= ->] & _ & _ & ?)].
      intros Hg. exists desired. do 2 (split; [done|]). by split; [right|].
    + split; [done|]. intros (? & _ & _ & [?|Hg] & _); [done|]. apply existsb_true in Hg. congruence.
Qed.

(** The changes a pass applies, in order. *)
Definition corrections (drifts : list Drift) : list DesiredItem :=
  omap (λ d, if Correctable d then dr_Desired d else None) drifts.

Section Pass.
Context {S : Type} (Apply : ExecutionToken → DesiredItem → S → S * option string).
Context (token : ExecutionToken).

Lemma Reconcile_cons s o drifts d :
  foldl (reconcile_step Apply token) (s, o) (d :: drifts) =
  foldl (reconcile_step Apply token) (reconcile_step Apply token (s, o) d) drifts.
Proof. done. Qed.

(** The adapter is called for the corrections, in order, and for nothing else. *)
Lemma reconcile_state drifts s o :
  (foldl (reconcile_step Apply token) (s, o) drifts).1 =
  foldl (λ s i, (Apply token i s).1) s (corrections drifts).
Proof.
  revert s o. induction drifts as [|d drifts IH]; intros s o; [done|].
  rewrite Reconcile_cons. unfold reconcile_step at 1, corrections. simpl.
  destruct (Correctable d) eqn:Hc.
  - apply Correctable_true in Hc as (i & -> & _). simpl.
    destruct (Apply token i s) as [s' [err|]]; by rewrite IH.
  - destruct (dr_Desired d); by rewrite IH.
Qed.

Lemma reconcile_escalated drifts s o :
  oc_Escalated (foldl (reconcile_step Apply token) (s, o) drifts).2 =
  oc_Escalated o ++ List.filter (λ d, negb (Correctable d)) drifts.
Proof.
  revert s o. induction drifts as [|d drifts IH]; intros s o; [by rewrite app_nil_r|].
  rewrite Reconcile_cons. unfold reconcile_step at 1. simpl. destruct (Correctable d) eqn:Hc; simpl.
  - apply Correctable_true in Hc as (i & -> & _).
    destruct (Apply token i s) as [s' [err|]]; by rewrite IH.
  - destruct (dr_Desired d); rewrite IH; simpl; by rewrite <- app_assoc.
Qed.

(** Nothing is lost: corrected, failed and escalated together are the drifts, a failed
    one with the error in its detail. *)
Lemma reconcile_total drifts s o :
  let o' := (foldl (reconcile_step Apply token) (s, o) drifts).2 in
  length (oc_Corrected o') + length (oc_Failed o') + length (oc_Escalated o') =
  length (oc_Corrected o) + length (oc_Failed o) + length (oc_Escalated o) + length drifts.
Proof.
  revert s o. induction drifts as [|d drifts IH]; intros s o; [simpl; lia|].
  cbv zeta. rewrite Reconcile_cons. unfold reconcile_step at 2 4 6.
  destruct (dr_Desired d) as [i|]; [destruct (Correctable d)|];
    [destruct (Apply token i s) as [s' [err|]]|..]; rewrite IH; simpl; rewrite length_app; simpl; lia.
Qed.

Lemma reconcile_corrected drifts s o d :
  d ∈ oc_Corrected (foldl (reconcile_step Apply token) (s, o) drifts).2 →
  d ∈ oc_Corrected o ∨ d ∈ drifts ∧ Correctable d = true.
Proof.
  revert s o. induction drifts as [|x drifts IH]; intros s o; [by left|].
  rewrite Reconcile_cons. intros H.
  destruct (reconcile_step Apply token (s, o) x) as [s' o'] eqn:Hx. apply IH in H as [H|[H Hc]].
  - unfold reconcile_step in Hx. destruct (dr_Desired x) as [i|], (Correctable x) eqn:Hc;
      [destruct (Apply token i s) as [? [err|]]|..]; injection Hx as <- <-; simpl in H; auto.
    apply elem_of_app in H as [?|H%list_elem_of_singleton]; [by left|]. subst. right. split; [left|done].
  - right. split; [by right|done].
Qed.
End Pass.

(** *** What is corrected, stated without the report *)

(** The approved change carries no gate, and nothing of its identity was observed or a
    governed field of what was observed last differs. *)
Definition to_correct (observed : Observed) (ownership : Ownership) (want : DesiredItem) : Prop :=
  di_Gate want = GateNone ∧
  ((∀ got, got ∈ observed → ObservedItem_key got ≠ DesiredItem_key want) ∨
   ∃ got f, last_with_key observed (DesiredItem_key want) got ∧
     field_differs ownership (compared want got) f ∧ df_Field f ∈ ow_Governed ownership).

(** What may not be corrected: nobody approved it, somebody had to approve it, or only
    watched fields differ. *)
Definition to_escalate (d : Drift) : Prop :=
  dr_Kind d = DriftUnexpected ∨
  (∃ want, dr_Desired d = Some want ∧ di_Gate want ≠ GateNone) ∨
  dr_Kind d = DriftChanged ∧ ∀ f, f ∈ dr_Differences d → df_Governed f = false.

Definition corrects (observed : Observed) (ownership : Ownership) (want : DesiredItem) : bool :=
  existsb Correctable (diff_wanted (index observed) ownership want).

Lemma corrects_true observed ownership want :
  corrects observed ownership want = true ↔ to_correct observed ownership want.
Proof.
  unfold corrects, to_correct, diff_wanted. destruct (index observed !! DesiredItem_key want) as [got|] eqn:Hi.
  - apply index_lookup in Hi as Hl. split.
    + destruct (differs want got ownership) as [|x l] eqn:Hd; [done|]. cbn [existsb]. rewrite orb_false_r.
      intros (? & [= <-] & _ & [?|(f & Hf & Hgov)] & Hg)%Correctable_true; [done|]. split; [done|]. right.
      cbn [dr_Differences] in Hf. rewrite <- Hd in Hf. apply elem_of_differs in Hf. exists got, f. split_and!; [done..|].
      by destruct Hf as (? & _ & _ & _ & _ & _ & Hf); apply Hf.
    + intros (Hg & [Hno|(got' & f & Hl' & Hf & Hgov)]).
      { destruct Hl as (before & after & -> & Hk & _). exfalso. apply (Hno got); [|done]. apply elem_of_app. right. by left. }
      apply index_lookup in Hl'. rewrite Hi in Hl'. injection Hl' as <-. apply elem_of_differs in Hf as Hin.
      destruct (differs want got ownership) as [|x l] eqn:Hd; [by apply not_elem_of_nil in Hin|]. cbn [existsb].
      apply orb_true_iff. left. apply Correctable_true. exists want. split_and!; try done. right. exists f. split; [done|].
      by destruct Hf as (? & _ & _ & _ & _ & _ & Hf); apply Hf.
  - pose proof (proj1 (index_None observed (DesiredItem_key want)) Hi) as Hno. cbn [existsb]. rewrite orb_false_r, Correctable_true. cbn [dr_Desired dr_Kind dr_Differences]. split.
    + intros (? & [= <-] & _ & _ & Hg). split; [done|]. by left.
    + intros [Hg _]. exists want. split_and!; try done. by left.
Qed.

Lemma corrections_app l k : corrections (l ++ k) = corrections l ++ corrections k.
Proof. unfold corrections. by rewrite omap_app. Qed.

Lemma corrections_Permutation l k : l ≡ₚ k → corrections l ≡ₚ corrections k.
Proof. intros H. unfold corrections. by rewrite H. Qed.

(** Each change that is to be corrected is, as often as it was approved. *)
Lemma corrections_exact desired observed ownership :
  corrections (DiffOwned desired observed ownership) ≡ₚ List.filter (corrects observed ownership) (d_Changes desired).
Proof.
  unfold DiffOwned. rewrite (corrections_Permutation _ _ (sort_drifts_Permutation _)), corrections_app.
  assert (∀ seen l, corrections (flat_map (diff_observed seen) l) = []) as ->.
  { intros seen l. induction l as [|got l IH]; [done|]. cbn [flat_map]. rewrite corrections_app, IH. unfold diff_observed. by case_match. }
  rewrite app_nil_r. induction (d_Changes desired) as [|want l IH]; [done|]. cbn [flat_map List.filter].
  rewrite corrections_app, IH. unfold corrects at 2, diff_wanted, corrections.
  destruct (index observed !! _) as [got|]; [destruct (differs want got ownership)|]; cbn [existsb omap list_omap]; try done;
    rewrite orb_false_r; by destruct (Correctable _).
Qed.

Lemma escalates_true desired observed ownership d :
  drifted desired observed ownership d → Correctable d = false ↔ to_escalate d.
Proof.
  intros Hd. rewrite <- not_true_iff_false, Correctable_true. unfold to_escalate. split.
  - intros Hno. destruct Hd as [want Hw Ha|want got ds Hw Hl -> Hne|got Hg Ha]; cbn in *; [| |by left].
    + right. left. exists want. split; [done|]. intros Hg. apply Hno. exists want. split_and!; try done. by left.
    + destruct (decide (di_Gate want = GateNone)) as [Hg|Hg]; [|right; left; by exists want].
      right. right. split; [done|]. intros f Hf. apply not_true_iff_false. intros Hgov. apply Hno.
      exists want. split_and!; try done. right. by exists f.
  - intros He (want & Hw & Hk & Hwhy & Hg). destruct He as [?|[(? & Hw' & ?)|[Hc Hf]]]; [done|congruence|].
    destruct Hwhy as [Ha|(f & Hin & Hgov)]; [by rewrite Hc in Ha|]. by rewrite (Hf f Hin) in Hgov.
Qed.

(** C20: reconciliation changes exactly what nobody had to approve. Run on the drift between
    an approved estate and what was observed, whatever the adapter answers, [Reconcile]
    calls it, in the order of the report, exactly for the approved changes that carry no
    gate and of whose identity nothing was observed or a governed field differs, each as
    often as it was approved. Every drift ends corrected, failed or escalated; a corrected
    one is one of those; the escalated ones are, in order, exactly the drifts that are
    unexpected, gated or in watched fields only, and the drifts are exactly the approved
    changes absent or differing in a field somebody declared, and the observed items nobody
    approved. *)
Theorem reconcile_applies_only_ungated {S} (Apply : ExecutionToken → DesiredItem → S → S * option string)
    token desired observed ownership s :
  let drifts := DiffOwned desired observed ownership in
  let '(s', outcome) := Reconcile Apply token drifts s in
  (∀ d, d ∈ drifts ↔ drifted desired observed ownership d) ∧
  s' = foldl (λ s i, (Apply token i s).1) s (corrections drifts) ∧
  (∃ corrects, (∀ want, corrects want = true ↔ to_correct observed ownership want) ∧
     corrections drifts ≡ₚ List.filter corrects (d_Changes desired)) ∧
  (∃ escalates, (∀ d, d ∈ drifts → escalates d = true ↔ to_escalate d) ∧
     oc_Escalated outcome = List.filter escalates drifts) ∧
  (∀ d, d ∈ oc_Corrected outcome → d ∈ drifts ∧ ¬ to_escalate d) ∧
  length (oc_Corrected outcome) + length (oc_Failed outcome) + length (oc_Escalated outcome) =
    length drifts.
Proof.
  intros drifts. destruct (Reconcile Apply token drifts s) as [s' outcome] eqn:Hr. unfold Reconcile in Hr.
  pose proof (λ d, elem_of_DiffOwned desired observed ownership d) as Hdrift. fold drifts in Hdrift. split; [done|].
  pose proof (reconcile_state Apply token drifts s (mkOutcome [] [] [])) as Hs. rewrite Hr in Hs.
  split; [done|]. split.
  { exists (corrects observed ownership). split; [apply corrects_true|apply corrections_exact]. }
  pose proof (reconcile_escalated Apply token drifts s (mkOutcome [] [] [])) as He. rewrite Hr in He. split.
  { exists (λ d, negb (Correctable d)). split; [|done]. intros d Hd%Hdrift. rewrite negb_true_iff. by eapply escalates_true. }
  split.
  { intros d Hd. pose proof (reconcile_corrected Apply token drifts s (mkOutcome [] [] []) d) as Hcor.
    rewrite Hr in Hcor. destruct (Hcor Hd) as [Hn|[Hin Hc]]; [by apply not_elem_of_nil in Hn|]. split; [done|].
    apply Hdrift in Hin. rewrite <- (escalates_true _ _ _ _ Hin). by rewrite Hc. }
  pose proof (reconcile_total Apply token drifts s (mkOutcome [] [] [])) as Ht. rewrite Hr in Ht. done.
Qed.

(** ** What the report misses *)

(** A drift in watched fields only, which is nobody's to act on, is handed to a person
    all the same. *)
Theorem watched_drift_is_escalated {S} (Apply : ExecutionToken → DesiredItem → S → S * option string)
    token d s :
  dr_Kind d = DriftChanged → (∀ f, f ∈ dr_Differences d → df_Governed f = false) →
  Ungoverned d = false ∧ Reconcile Apply token [d] s = (s, mkOutcome [] [d] []).
Proof.
  intros Hk Hf. assert (Hu : Ungoverned d = false).
  { unfold Ungoverned. rewrite Hk. simpl. by apply existsb_false. }
  split; [done|]. unfold Reconcile, Correctable. simpl. unfold Correctable. rewrite Hk, Hu. simpl.
  by destruct (dr_Desired d).
Qed.

(** The idle-in-transaction timeout of the floor is applied once and never compared. *)
Theorem idle_timeout_is_never_compared w g idle ownership want got :
  di_Limits want = LPostgres w → oi_Limits got = LPostgres g →
  differs want got ownership =
  differs want (mkObservedItem (oi_Asset got) (oi_Kind got) (oi_Name got) (oi_Cluster got) (oi_Slot got)
    (LPostgres (mkPostgresLimits (pl_ConnectionLimit g) (pl_StatementTimeout g) idle))
    (oi_Readers got) (oi_Image got) (oi_Digest got) (oi_Runtime got) (oi_State got)) ownership.
Proof. intros Hw Hg. unfold differs, compared. by rewrite Hw, Hg. Qed.

(** Two bindings to one database name on two clusters have one identity: losing either is
    not reported. *)
Example lost_second_cluster_is_not_reported :
  let m := mkManifest "payments" "pay" TierDev "" [] None
    [mkPostgresBind "pg-main" "ledger" "" [] ""; mkPostgresBind "pg-analytics" "ledger" "" [] ""] None ∅ in
  let seen := mkObservedItem "postgres" "schema" "ledger.pay" "pg-main" no_slot LOther [] "" "" "" ∅ in
  match Resolve m DefaultFloor with
  | Ok d => (length (d_Changes d), Diff d [seen])
  | Err _ => (0, [])
  end = (2, []).
Proof. by vm_compute. Qed.

Definition demo_item (name : string) (gate : Gate) : DesiredItem :=
  mkDesiredItem "kafka" "topic" name "" TierDev gate "main" no_slot
    (LKafka (mkKafkaLimits 1 1 hour)) [] "" "" "" None ∅ ∅.

(** One pass over an absent ungated topic, an absent gated one, a widened retention and a
    topic nobody approved. *)
Example demo_pass :
  let desired := mkDesired "t" "o" [demo_item "a" GateNone; demo_item "b" GatePlatform; demo_item "c" GateNone] in
  let observed := [mkObservedItem "kafka" "topic" "c" "main" no_slot
                     (LKafka (mkKafkaLimits 1 1 (2 * hour))) [] "" "" "" ∅;
                   mkObservedItem "kafka" "topic" "x" "main" no_slot LOther [] "" "" "" ∅] in
  let '(log, o) := Reconcile (λ _ i log, (log ++ [di_Name i], None)) (mkExecutionToken "" "" "" "" 0 0)
                     (Diff desired observed) [] in
  (log, map dr_Detail (oc_Corrected o), map driftKey (oc_Escalated o)) =
  (["a"; "c"],
   ["approved but absent"; "retention is " +:+ Quote "2h0m0s" +:+ ", approved " +:+ Quote "1h0m0s" +:+ " (governed)"],
   ["kafka/topic/b"; "kafka/topic/x"]).
Proof. by vm_compute. Qed.
