(* ===== verification/Approvals.v ===== *)
(** Changes awaiting people: [mantlekeep-estate/approval.go], [signature.go], the
    in-memory store [approvals_memory.go] and [approvals_collect.go].

    An approval waits for a number of distinct signatures; the store appends one at a time
    under its lock, so every operation is one atomic step that takes the clock's reading.
    The random suffix of an id is an argument. [sort.Slice] leaves equal creation times in
    an unspecified order. *)
From S2P Require Import Prelude Contracts EstateFloor Placement Manifest EstateResolve.

(** ** Records *)

Notation ApprovalState := string (only parsing).
Definition ApprovalPending : ApprovalState := "pending".
Definition ApprovalApproved : ApprovalState := "approved".
Definition ApprovalDeclined : ApprovalState := "declined".
Definition ApprovalExpired : ApprovalState := "expired".

Record Signature := mkSignature {
  sig_By : string;
  sig_At : Time;
  sig_Reference : string;
}.

Record Approval := mkApproval {
  ap_ID : string;
  ap_Team : string;
  ap_Change : DesiredItem;
  ap_Requester : string;
  ap_RequiredRoles : list string;
  ap_RequiredSignatures : Z;
  ap_FloorRevision : string;
  ap_Reason : string;
  ap_State : ApprovalState;
  ap_ApprovedBy : string;
  ap_Signatures : list Signature;
  ap_DeclinedBy : string;
  ap_DeclinedReason : string;
  ap_CreatedAt : Time;
  ap_DecidedAt : Time;
  ap_ExpiresAt : Time;
}.

Definition Approval_Pending (a : Approval) (now : Time) : bool :=
  (ap_State a =s? ApprovalPending) && (now <? ap_ExpiresAt a)%Z.

Inductive approval_error :=
| ErrApprovalNotFound
| ErrApprovalNotPending
| ErrSelfApproval
| ErrWrongRole
| ErrFloorMoved (approved now : string)
| ErrApprovalExists (id : string)
| ErrDuplicateSignature
| ErrAIApproval
| ErrSignaturesOutstanding (needed : string)
| ErrStoreCannotCollectSignatures (required : Z) (id : string)
| ErrNoStore
| ErrNoReason.

(** [rand] is [rand.Text()]. *)
Definition approvalID (team name : string) (at_ : Time) (rand : string) : string :=
  "APR-" +:+ team +:+ "-" +:+ name +:+ "-" +:+ Itoa (UnixNano at_) +:+ "-" +:+ take_bytes 12 rand.

(** ** Signatures *)

Definition SignaturesRequired (a : Approval) : Z :=
  if (ap_RequiredSignatures a <? 1)%Z then 1 else ap_RequiredSignatures a.

(** A record of before signatures were listed has its approver as the only one. *)
Definition CollectedSignatures (a : Approval) : list Signature :=
  match ap_Signatures a with
  | _ :: _ => ap_Signatures a
  | [] => if negb (ap_ApprovedBy a =s? "")
          then [mkSignature (ap_ApprovedBy a) (ap_DecidedAt a) ""] else []
  end.

Definition SignaturesOutstanding (a : Approval) : Z :=
  let outstanding := (SignaturesRequired a - Z.of_nat (length (CollectedSignatures a)))%Z in
  if (outstanding <? 0)%Z then 0 else outstanding.

Definition HasSignatureFrom (a : Approval) (approver : string) : bool :=
  existsb (λ s, sig_By s =s? approver) (CollectedSignatures a).

Definition Signatories (a : Approval) : list string := map sig_By (CollectedSignatures a).

Definition StillNeeded (a : Approval) : string :=
  let outstanding := SignaturesOutstanding a in
  if (outstanding =? 0)%Z then "nothing: every required signature has been collected"
  else
    let needed := Itoa outstanding +:+ " more signature" in
    let needed := if (1 <? outstanding)%Z then needed +:+ "s" else needed in
    let needed :=
      match ap_RequiredRoles a with
      | _ :: _ => needed +:+ " from somebody holding one of: " +:+ Join (ap_RequiredRoles a) ", "
      | [] => needed +:+ " from a second party the door will accept (this record names no role, so " +:+
              "the door decides from the directory)"
      end in
    match Signatories a with
    | _ :: _ => needed +:+ "; already signed by " +:+ Join (Signatories a) ", "
    | [] => needed
    end.

(** ** The store in memory *)

Notation MemoryApprovals := (gmap string Approval) (only parsing).

Definition with_state (a : Approval) (state : ApprovalState) : Approval :=
  mkApproval (ap_ID a) (ap_Team a) (ap_Change a) (ap_Requester a) (ap_RequiredRoles a)
    (ap_RequiredSignatures a) (ap_FloorRevision a) (ap_Reason a) state (ap_ApprovedBy a)
    (ap_Signatures a) (ap_DeclinedBy a) (ap_DeclinedReason a) (ap_CreatedAt a) (ap_DecidedAt a)
    (ap_ExpiresAt a).

Definition with_signatures (a : Approval) (signatures : list Signature) : Approval :=
  mkApproval (ap_ID a) (ap_Team a) (ap_Change a) (ap_Requester a) (ap_RequiredRoles a)
    (ap_RequiredSignatures a) (ap_FloorRevision a) (ap_Reason a) (ap_State a) (ap_ApprovedBy a)
    signatures (ap_DeclinedBy a) (ap_DeclinedReason a) (ap_CreatedAt a) (ap_DecidedAt a)
    (ap_ExpiresAt a).

(** [State = approved; ApprovedBy = signature.By; DecidedAt = signature.At] *)
Definition with_approval (a : Approval) (s : Signature) : Approval :=
  mkApproval (ap_ID a) (ap_Team a) (ap_Change a) (ap_Requester a) (ap_RequiredRoles a)
    (ap_RequiredSignatures a) (ap_FloorRevision a) (ap_Reason a) ApprovalApproved (sig_By s)
    (ap_Signatures a) (ap_DeclinedBy a) (ap_DeclinedReason a) (ap_CreatedAt a) (sig_At s)
    (ap_ExpiresAt a).

Definition Open (m : MemoryApprovals) (approval : Approval) : result approval_error MemoryApprovals :=
  match m !! ap_ID approval with
  | Some _ => Err (ErrApprovalExists (ap_ID approval))
  | None => Ok (<[ap_ID approval := approval]> m)
  end.

(** A pending approval past its time reads as expired; the stored record is not changed. *)
Definition Get (m : MemoryApprovals) (now : Time) (id : string) : result approval_error Approval :=
  match m !! id with
  | None => Err ErrApprovalNotFound
  | Some approval =>
      if (ap_State approval =s? ApprovalPending) && negb (now <? ap_ExpiresAt approval)%Z
      then Ok (with_state approval ApprovalExpired) else Ok approval
  end.

Definition Decide (m : MemoryApprovals) (now : Time) (approval : Approval)
    : result approval_error MemoryApprovals :=
  match m !! ap_ID approval with
  | None => Err ErrApprovalNotFound
  | Some current =>
      refuse negb (Approval_Pending current now) with ErrApprovalNotPending ;
      refuse (ap_State approval =s? ApprovalApproved) && (0 <? SignaturesOutstanding approval)%Z
        with ErrSignaturesOutstanding (StillNeeded approval) ;
      Ok (<[ap_ID approval := approval]> m)
  end.

(** The record after one more signature. *)
Definition signed (approval : Approval) (signature : Signature) : Approval :=
  let approval := with_signatures approval (ap_Signatures approval ++ [signature]) in
  if (SignaturesOutstanding approval =? 0)%Z then with_approval approval signature else approval.

Definition Sign (m : MemoryApprovals) (now : Time) (id : string) (signature : Signature)
    : result approval_error (MemoryApprovals * Approval) :=
  match m !! id with
  | None => Err ErrApprovalNotFound
  | Some approval =>
      refuse negb (Approval_Pending approval now) with ErrApprovalNotPending ;
      refuse sig_By signature =s? ap_Requester approval with ErrSelfApproval ;
      refuse HasSignatureFrom approval (sig_By signature) with ErrDuplicateSignature ;
      let approval := signed approval signature in
      Ok (<[id := approval]> m, approval)
  end.

(** Newest first. *)
Definition newer (a b : Approval) : Prop := (ap_CreatedAt b ≤ ap_CreatedAt a)%Z.
#[export] Instance newer_dec a b : base.Decision (newer a b).
Proof. unfold newer. apply _. Defined.

Definition waiting_for (now : Time) (team : string) (a : Approval) : bool :=
  if negb (Approval_Pending a now) then false
  else negb (negb (team =s? "") && negb (ap_Team a =s? team)).

Definition Pending (m : MemoryApprovals) (now : Time) (team : string) : list Approval :=
  merge_sort newer (List.filter (waiting_for now team) (map snd (map_to_list m))).

(** ** Any store *)

(** The port: a store's state, its [Decide], and its [Sign] if it has one. *)
Record Approvals (S : Type) := mkApprovals {
  store_Decide : S → Time → Approval → result approval_error S;
  store_Sign : option (S → Time → string → Signature → result approval_error (S * Approval));
}.
Arguments mkApprovals {S}.
Arguments store_Decide {S}.
Arguments store_Sign {S}.

Definition memory_store : Approvals MemoryApprovals := mkApprovals Decide (Some Sign).

Definition collectSignature {S} (store : Approvals S) (s : S) (now : Time) (approval : Approval)
    (signature : Signature) : result approval_error (S * Approval) :=
  match store_Sign store with
  | Some sign => sign s now (ap_ID approval) signature
  | None =>
      refuse (1 <? SignaturesRequired approval)%Z
        with ErrStoreCannotCollectSignatures (SignaturesRequired approval) (ap_ID approval) ;
      let approval := with_approval (with_signatures approval [signature]) signature in
      s <-? store_Decide store s now approval ;
      Ok (s, approval)
  end.

(** ** Runs *)

Inductive op :=
| OOpen (approval : Approval)
| ODecide (approval : Approval)
| OSign (id : string) (signature : Signature).

(** One operation at one reading of the clock; a refused one changes nothing. *)
Definition step (m : MemoryApprovals) (e : Time * op) : MemoryApprovals :=
  match e.2 with
  | OOpen a => match Open m a with Ok m => m | Err _ => m end
  | ODecide a => match Decide m e.1 a with Ok m => m | Err _ => m end
  | OSign id s => match Sign m e.1 id s with Ok (m, _) => m | Err _ => m end
  end.

Definition run (ops : list (Time * op)) (m : MemoryApprovals) : MemoryApprovals := foldl step m ops.

(** ** What the store promises *)

(** The request a record is about, which no signature or decision changes. *)
Record same_request (a0 a : Approval) : Prop := {
  sr_id : ap_ID a = ap_ID a0;
  sr_team : ap_Team a = ap_Team a0;
  sr_change : ap_Change a = ap_Change a0;
  sr_requester : ap_Requester a = ap_Requester a0;
  sr_roles : ap_RequiredRoles a = ap_RequiredRoles a0;
  sr_required : ap_RequiredSignatures a = ap_RequiredSignatures a0;
  sr_floor : ap_FloorRevision a = ap_FloorRevision a0;
  sr_created : ap_CreatedAt a = ap_CreatedAt a0;
  sr_expires : ap_ExpiresAt a = ap_ExpiresAt a0;
}.

(** Distinct people other than the requester, each of whom signed this id. *)
Record signed_by_people (ops : list (Time * op)) (a : Approval) : Prop := {
  sp_distinct : NoDup (map sig_By (ap_Signatures a));
  sp_second_party : ap_Requester a ∉ map sig_By (ap_Signatures a);
  sp_real : ∀ s, s ∈ ap_Signatures a → ∃ now, (now, OSign (ap_ID a) s) ∈ ops;
}.

Inductive sound (ops : list (Time * op)) (a0 a : Approval) : Prop :=
| sound_pending :
    ap_State a = ApprovalPending → ap_ApprovedBy a = "" → same_request a0 a →
    signed_by_people ops a → (Z.of_nat (length (ap_Signatures a)) < SignaturesRequired a)%Z →
    sound ops a0 a
| sound_approved signatures last :
    ap_State a = ApprovalApproved → same_request a0 a → signed_by_people ops a →
    Z.of_nat (length (ap_Signatures a)) = SignaturesRequired a →
    ap_Signatures a = signatures ++ [last] → ap_ApprovedBy a = sig_By last →
    ap_DecidedAt a = sig_At last → sound ops a0 a
| sound_declined : ap_State a = ApprovalDeclined → sound ops a0 a.

(** The calls the estate makes: open a fresh pending record, sign, decline. *)
Definition estate_op (o : op) : Prop :=
  match o with
  | OOpen a => ap_State a = ApprovalPending ∧ ap_Signatures a = [] ∧ ap_ApprovedBy a = ""
  | ODecide a => ap_State a = ApprovalDeclined
  | OSign _ _ => True
  end.

Definition store_sound (ops : list (Time * op)) (m : MemoryApprovals) : Prop :=
  ∀ id a, m !! id = Some a → ap_ID a = id ∧
    ∃ now a0, (now, OOpen a0) ∈ ops ∧ ap_ID a0 = id ∧ sound ops a0 a.

(** ** Lemmas *)

Lemma SignaturesRequired_pos a : (1 ≤ SignaturesRequired a)%Z.
Proof. unfold SignaturesRequired. destruct (Z.ltb_spec (ap_RequiredSignatures a) 1); lia. Qed.

Lemma Approval_Pending_true a now :
  Approval_Pending a now = true ↔ ap_State a = ApprovalPending ∧ (now < ap_ExpiresAt a)%Z.
Proof. unfold Approval_Pending. by rewrite andb_true_iff, eqs_true, Z.ltb_lt. Qed.

Lemma Open_Ok m a m' : Open m a = Ok m' ↔ m !! ap_ID a = None ∧ m' = <[ap_ID a := a]> m.
Proof.
  unfold Open. destruct (m !! ap_ID a); [split; [done|by intros [? _]]|].
  split; [by intros [= <-]|by intros [_ ->]].
Qed.

Lemma Decide_Ok m now a m' :
  Decide m now a = Ok m' ↔
  (∃ current, m !! ap_ID a = Some current ∧ Approval_Pending current now = true) ∧
  (ap_State a = ApprovalApproved → SignaturesOutstanding a ≤ 0)%Z ∧ m' = <[ap_ID a := a]> m.
Proof.
  unfold Decide. destruct (m !! ap_ID a) as [current|]; [|split; [done|by intros ((? & ? & _) & _)]].
  rewrite !refuse_Ok, negb_false_iff, andb_false_iff, eqs_false, Z.ltb_ge. split.
  - intros (Hp & Hs & [= <-]). split; [by exists current|]. split; [|done].
    intros Ha. by destruct Hs.
  - intros ((? & [= <-] & Hp) & Hs & ->). split; [done|]. split; [|done].
    destruct (decide (ap_State a = ApprovalApproved)); auto.
Qed.

Lemma HasSignatureFrom_false a by_ :
  HasSignatureFrom a by_ = false ↔ by_ ∉ Signatories a.
Proof.
  unfold HasSignatureFrom, Signatories. rewrite existsb_false, elem_of_map. split.
  - intros H (s & -> & Hs). specialize (H s Hs). by apply eqs_false in H.
  - intros H s Hs. apply eqs_false. intros <-. apply H. by exists s.
Qed.

Lemma Sign_Ok m now id s m' a' :
  Sign m now id s = Ok (m', a') ↔
  ∃ a, m !! id = Some a ∧ Approval_Pending a now = true ∧ sig_By s ≠ ap_Requester a ∧
    sig_By s ∉ Signatories a ∧ a' = signed a s ∧ m' = <[id := a']> m.
Proof.
  unfold Sign. destruct (m !! id) as [a|]; [|split; [done|by intros (? & ? & _)]].
  rewrite !refuse_Ok, negb_false_iff, eqs_false, HasSignatureFrom_false. split.
  - intros (? & ? & ? & [= <- <-]). by exists a.
  - by intros (? & [= <-] & ? & ? & ? & -> & ->).
Qed.

(** A record that is not pending at this reading of the clock is not touched. *)
Lemma step_frozen m e id a :
  m !! id = Some a → Approval_Pending a e.1 = false → step m e !! id = Some a.
Proof.
  intros Hm Hp. destruct e as [now [o|o|i s]]; unfold step; simpl in *.
  - destruct (Open m o) as [m'|] eqn:H; [|done]. apply Open_Ok in H as [Hn ->].
    rewrite lookup_insert_ne; [done|]. congruence.
  - destruct (Decide m now o) as [m'|] eqn:H; [|done].
    apply Decide_Ok in H as ((c & Hc & Hpc) & _ & ->). rewrite lookup_insert_ne; [done|]. congruence.
  - destruct (Sign m now i s) as [[m' a']|] eqn:H; [|done].
    apply Sign_Ok in H as (c & Hc & Hpc & _ & _ & _ & ->). rewrite lookup_insert_ne; [done|]. congruence.
Qed.

Lemma run_frozen ops m id a :
  m !! id = Some a → (∀ e, e ∈ ops → Approval_Pending a e.1 = false) → run ops m !! id = Some a.
Proof.
  revert m. induction ops as [|e ops IH]; intros m Hm Hp; [done|]. simpl.
  apply IH; [|intros e' He; apply Hp; by right]. apply step_frozen; [done|]. apply Hp. by left.
Qed.

Lemma collected_listed a : ap_ApprovedBy a = "" → CollectedSignatures a = ap_Signatures a.
Proof. unfold CollectedSignatures. intros ->. by destruct (ap_Signatures a). Qed.

Lemma signed_request a s : same_request a (signed a s) ∧ ap_Signatures (signed a s) = ap_Signatures a ++ [s].
Proof. unfold signed. by destruct (_ =? 0)%Z. Qed.

Lemma signed_state a s :
  ap_ApprovedBy a = "" → (Z.of_nat (length (ap_Signatures a)) < SignaturesRequired a)%Z →
  if (SignaturesRequired a =? Z.of_nat (length (ap_Signatures a)) + 1)%Z
  then ap_State (signed a s) = ApprovalApproved ∧ ap_ApprovedBy (signed a s) = sig_By s ∧
       ap_DecidedAt (signed a s) = sig_At s
  else ap_State (signed a s) = ap_State a ∧ ap_ApprovedBy (signed a s) = "" ∧
       (Z.of_nat (length (ap_Signatures a)) + 1 < SignaturesRequired a)%Z.
Proof.
  intros Ha Hlt. unfold signed, SignaturesOutstanding. rewrite collected_listed by done. simpl.
  change (SignaturesRequired (with_signatures a _)) with (SignaturesRequired a).
  rewrite length_app. cbn [length].
  destruct (Z.eqb_spec (SignaturesRequired a) (Z.of_nat (length (ap_Signatures a)) + 1)) as [He|He].
  - replace (_ <? 0)%Z with false by (symmetry; apply Z.ltb_ge; lia).
    replace (_ =? 0)%Z with true by (symmetry; apply Z.eqb_eq; lia). done.
  - replace (_ <? 0)%Z with false by (symmetry; apply Z.ltb_ge; lia).
    replace (_ =? 0)%Z with false by (symmetry; apply Z.eqb_neq; lia). simpl.
    do 2 (split; [done|]). lia.
Qed.

Lemma sound_more ops ops' a0 a : sound ops a0 a → ops ⊆ ops' → sound ops' a0 a.
Proof.
  intros Hs Hsub.
  assert (Hp : signed_by_people ops a → signed_by_people ops' a).
  { intros [? ? Hr]. constructor; [done|done|]. intros s Hin. destruct (Hr s Hin) as [now ?].
    exists now. by apply Hsub. }
  destruct Hs; [apply sound_pending|eapply sound_approved|apply sound_declined]; eauto.
Qed.

Lemma sound_signed ops now a0 a s :
  sound ops a0 a → Approval_Pending a now = true → sig_By s ≠ ap_Requester a →
  sig_By s ∉ Signatories a → sound (ops ++ [(now, OSign (ap_ID a) s)]) a0 (signed a s).
Proof.
  intros Hs [Hp _]%Approval_Pending_true Hreq Hdup.
  destruct Hs as [_ Happ Hsame Hpeople Hlt|? ? Hst|Hst]; [|rewrite Hst in Hp; done..].
  destruct (signed_request a s) as [Hr Hsig]. unfold Signatories in Hdup. rewrite collected_listed in Hdup by done.
  assert (same_request a0 (signed a s)) as Hsame'.
  { destruct Hsame, Hr. constructor; congruence. }
  assert (signed_by_people (ops ++ [(now, OSign (ap_ID a) s)]) (signed a s)) as Hpeople'.
  { destruct Hpeople as [Hnd Hno Hreal]. constructor; rewrite Hsig, ?map_app; simpl.
    - apply NoDup_app. split; [done|]. split; [|apply NoDup_singleton].
      intros x Hx ->%list_elem_of_singleton. done.
    - rewrite (sr_requester _ _ Hr), elem_of_app, list_elem_of_singleton. intros [?|?]; [done|congruence].
    - rewrite (sr_id _ _ Hr). intros x [Hx|Hx]%elem_of_app.
      + destruct (Hreal x Hx) as [t ?]. exists t. apply elem_of_app. by left.
      + apply list_elem_of_singleton in Hx as ->. exists now. apply elem_of_app. right. by left. }
  pose proof (signed_state a s Happ Hlt) as Hstate.
  assert (SignaturesRequired (signed a s) = SignaturesRequired a) as Hn.
  { unfold SignaturesRequired. by rewrite (sr_required _ _ Hr). }
  destruct (Z.eqb_spec (SignaturesRequired a) (Z.of_nat (length (ap_Signatures a)) + 1)).
  - destruct Hstate as (? & ? & ?). eapply sound_approved; try done.
    rewrite Hsig, Hn, length_app. simpl. lia.
  - destruct Hstate as (? & ? & ?). apply sound_pending; try done; [congruence|].
    rewrite Hsig, Hn, length_app. simpl. lia.
Qed.

Lemma store_sound_insert ops m id a :
  store_sound ops m → ap_ID a = id →
  (∃ now a0, (now, OOpen a0) ∈ ops ∧ ap_ID a0 = id ∧ sound ops a0 a) →
  store_sound ops (<[id := a]> m).
Proof.
  intros Hm Hid Ha i b. rewrite lookup_insert_Some. intros [[<- <-]|[_ Hb]]; [done|by apply Hm].
Qed.

Lemma step_sound ops m e :
  store_sound ops m → estate_op e.2 → store_sound (ops ++ [e]) (step m e).
Proof.
  intros Hm He.
  assert (Hm' : store_sound (ops ++ [e]) m).
  { intros id a Ha. destruct (Hm id a Ha) as (Hid & now & a0 & Hin & Hid0 & Hs). split; [done|].
    exists now, a0. split; [apply elem_of_app; by left|]. split; [done|]. eapply sound_more; [done|].
    intros x Hx. apply elem_of_app. by left. }
  destruct e as [now [o|o|i s]]; unfold step; simpl in *.
  - destruct (Open m o) as [m'|] eqn:H; [|done]. apply Open_Ok in H as [Hn ->].
    apply store_sound_insert; [done|done|]. destruct He as (Hst & Hsig & Happ).
    exists now, o. split; [apply elem_of_app; right; by left|]. split; [done|].
    apply sound_pending; try done.
    + constructor; rewrite Hsig; [constructor|by intros ?%not_elem_of_nil|by intros s ?%not_elem_of_nil].
    + rewrite Hsig. pose proof (SignaturesRequired_pos o). simpl. lia.
  - destruct (Decide m now o) as [m'|] eqn:H; [|done].
    apply Decide_Ok in H as ((c & Hc & Hpc) & _ & ->). apply store_sound_insert; [done|done|].
    destruct (Hm' _ _ Hc) as (_ & t & a0 & Hin & Hid & _). exists t, a0.
    do 2 (split; [done|]). by apply sound_declined.
  - destruct (Sign m now i s) as [[m' a']|] eqn:H; [|done].
    apply Sign_Ok in H as (c & Hc & Hpc & Hreq & Hdup & -> & ->).
    destruct (Hm _ _ Hc) as (Hid & t & a0 & Hin & Hid0 & Hs).
    destruct (signed_request c s) as [Hr _].
    apply store_sound_insert; [done|by rewrite (sr_id _ _ Hr)|].
    exists t, a0. split; [apply elem_of_app; by left|]. split; [done|].
    rewrite <- Hid. by apply sound_signed.
Qed.

Lemma run_sound ops done_ m :
  store_sound done_ m → (∀ e, e ∈ ops → estate_op e.2) → store_sound (done_ ++ ops) (run ops m).
Proof.
  revert done_ m. induction ops as [|e ops IH]; intros done_ m Hm He; [by rewrite app_nil_r|].
  rewrite cons_middle, app_assoc. simpl. apply IH; [|intros e' ?; apply He; by right].
  apply step_sound; [done|]. apply He. by left.
Qed.

(** C6: an approved change was signed by enough people. Through any interleaving of the
    estate's calls on the store (fresh requests opened, signatures, declines, at any
    clock readings) every stored record is the one opened under its id, the change, the
    requester and the required signatures included, or was declined; a pending one has
    fewer than the required signatures; an approved one has exactly the required number,
    never more, from distinct people who each signed this id and none of whom is the
    requester, and names the last of them as its approver. *)
Theorem approved_by_enough_people ops id a :
  (∀ e, e ∈ ops → estate_op e.2) → run ops ∅ !! id = Some a →
  ap_ID a = id ∧ ∃ now a0, (now, OOpen a0) ∈ ops ∧ ap_ID a0 = id ∧ sound ops a0 a.
Proof.
  intros Hops. assert (H : store_sound [] ∅) by done.
  apply (run_sound ops [] ∅ H Hops id a).
Qed.

(** A decision is final. A record that was decided, or whose time has passed, is
    never changed again: whatever operations follow, of any client, every one is refused
    on it. [Get] shows a pending record past its time as expired. *)
Theorem decisions_are_final ops m id a :
  m !! id = Some a → (∀ e, e ∈ ops → Approval_Pending a e.1 = false) →
  run ops m !! id = Some a ∧
  (∀ now, Get (run ops m) now id =
    Ok (if (ap_State a =s? ApprovalPending) && negb (now <? ap_ExpiresAt a)%Z
        then with_state a ApprovalExpired else a)) ∧
  (∀ e s, e ∈ ops → Sign m e.1 id s = Err ErrApprovalNotPending) ∧
  (∀ e a', e ∈ ops → ap_ID a' = id → Decide m e.1 a' = Err ErrApprovalNotPending) ∧
  (∀ a', ap_ID a' = id → Open m a' = Err (ErrApprovalExists id)).
Proof.
  intros Hm Hp. pose proof (run_frozen ops m id a Hm Hp) as Hr. split; [done|]. split.
  { intros now. unfold Get. rewrite Hr. by destruct (_ && _). }
  split; [|split].
  - intros e s He. unfold Sign. by rewrite Hm, (Hp e He).
  - intros e a' He <-. unfold Decide. by rewrite Hm, (Hp e He).
  - intros a' <-. unfold Open. by rewrite Hm.
Qed.

(** A store without [Sign] serves the changes that need one signature, and no others. *)
Lemma collectSignature_without_Sign {S} (decide_ : S → Time → Approval → result approval_error S)
    s now a sig s' a' :
  collectSignature (mkApprovals decide_ None) s now a sig = Ok (s', a') →
  SignaturesRequired a = 1%Z ∧ ap_State a' = ApprovalApproved ∧ ap_Signatures a' = [sig] ∧
  ap_ApprovedBy a' = sig_By sig ∧ same_request a a' ∧ decide_ s now a' = Ok s'.
Proof.
  unfold collectSignature. simpl. rewrite refuse_Ok, Z.ltb_ge. intros [Hn Hr].
  apply rbind_Ok in Hr as (s1 & Hd & [= <- <-]). pose proof (SignaturesRequired_pos a).
  split; [lia|]. done.
Qed.

(** [Pending] lists exactly the records waiting for this team, or for anyone. *)
Lemma elem_of_Pending m now team a :
  a ∈ Pending m now team ↔
  (∃ id, m !! id = Some a) ∧ Approval_Pending a now = true ∧ (team = "" ∨ ap_Team a = team).
Proof.
  unfold Pending. rewrite merge_sort_Permutation, list_elem_of_In, filter_In, <- list_elem_of_In, elem_of_map.
  assert (Hm : (∃ x, a = x.2 ∧ x ∈ map_to_list m) ↔ ∃ id, m !! id = Some a).
  { split.
    - intros ([id b] & -> & Hx). exists id. by apply elem_of_map_to_list.
    - intros [id Hid]. exists (id, a). split; [done|]. by apply elem_of_map_to_list. }
  rewrite Hm. unfold waiting_for. destruct (Approval_Pending a now); simpl; [|naive_solver].
  rewrite negb_true_iff, andb_false_iff, !negb_false_iff, !eqs_true. naive_solver.
Qed.

(** ** What [Decide] takes on trust *)

Definition one_signature (a : Approval) (by_ : string) (now : Time) : Approval :=
  mkApproval (ap_ID a) (ap_Team a) (ap_Change a) (ap_Requester a) (ap_RequiredRoles a) 0
    (ap_FloorRevision a) (ap_Reason a) ApprovalApproved by_ [mkSignature by_ now ""] ""
    "" (ap_CreatedAt a) now (ap_ExpiresAt a).

(** The guard on an approving [Decide] reads the count from the submitted record, not from
    the stored one: a record lowering its own requirement is stored as approved on one
    signature, the requester's, however many the stored request asked for. *)
Theorem decide_trusts_the_submitted_record m now a :
  m !! ap_ID a = Some a → Approval_Pending a now = true → ap_Requester a ≠ "" →
  ∃ m', Decide m now (one_signature a (ap_Requester a) now) = Ok m' ∧
    m' !! ap_ID a = Some (one_signature a (ap_Requester a) now).
Proof.
  intros Hm Hp Hr. eexists. split; [|apply lookup_insert_eq].
  apply Decide_Ok. split; [by exists a|]. split; [|done]. intros _. vm_compute. done.
Qed.

(** ** Witnesses *)

Definition demo_request : Approval :=
  mkApproval "APR-1" "payments"
    (mkDesiredItem "app" "deployment" "pay-api" "payments" TierProd GatePlatform "b" no_slot LOther []
       "registry/api" "enterprise" "" None ∅ ∅)
    "alice" ["platform"] 2 "rev" "" ApprovalPending "" [] "" "" 0 0 100.
Definition demo_ops : list (Time * op) :=
  [(1, OOpen demo_request); (2, OSign "APR-1" (mkSignature "alice" 2 ""));
   (3, OSign "APR-1" (mkSignature "bob" 3 "")); (4, OSign "APR-1" (mkSignature "bob" 4 ""));
   (5, OSign "APR-1" (mkSignature "carol" 5 "")); (6, OSign "APR-1" (mkSignature "dave" 6 ""));
   (7, ODecide (with_state demo_request ApprovalDeclined))]%Z.
Definition demo_signed : Approval :=
  default demo_request (run demo_ops ∅ !! "APR-1").

Lemma approved_by_enough_people_witness :
  (ap_State demo_signed, map sig_By (ap_Signatures demo_signed), ap_ApprovedBy demo_signed) =
    ("approved", ["bob"; "carol"], "carol") ∧
  ap_ID demo_signed = "APR-1" ∧
  ∃ now a0, (now, OOpen a0) ∈ demo_ops ∧ ap_ID a0 = "APR-1" ∧ sound demo_ops a0 demo_signed.
Proof.
  split; [vm_compute; reflexivity|]. apply approved_by_enough_people.
  - unfold demo_ops. intros e He.
    repeat (apply elem_of_cons in He as [->|He]; [vm_compute; repeat split; reflexivity|]).
    by apply not_elem_of_nil in He.
  - vm_compute. reflexivity.
Defined.

Lemma decisions_are_final_witness :
  run [(8, ODecide demo_request); (9, OSign "APR-1" (mkSignature "erin" 9 ""))]%Z (run demo_ops ∅) !! "APR-1"
    = Some demo_signed ∧ ap_State demo_signed = ApprovalApproved.
Proof.
  split; [|vm_compute; reflexivity].
  apply (decisions_are_final _ (run demo_ops ∅) "APR-1" demo_signed).
  - vm_compute. reflexivity.
  - intros e He. repeat (apply elem_of_cons in He as [->|He]; [vm_compute; reflexivity|]).
    by apply not_elem_of_nil in He.
Defined.
