(* ===== verification/ApprovalsTest.v ===== *)
(** The conformance suite of approval stores: [mantlekeep-estate/approvalstest]
    ([conformance.go], [names.go], [open.go], [signatures.go], [signature_floors.go]).

    A store that collects signatures and one that does not run the same suite; the second
    skips the cases about sets. Every case is a test of [Conformance]. *)
From Stdlib Require Import FunctionalExtensionality.
From S2P Require Import Prelude Contracts EstateFloor Placement Manifest EstateResolve Approvals Conformance.

(** ** The interface *)

(** [ASigner] is the type assertion to [estate.Signer]. *)
Inductive approvals_call :=
| AOpen (a : Approval)
| AGet (id : string)
| ADecide (a : Approval)
| APending (team : string)
| ASigner
| ASign (id : string) (s : Signature).

Definition approvals_answer (c : approvals_call) : Type :=
  match c with
  | AOpen _ | ADecide _ => result approval_error unit
  | AGet _ | ASign _ _ => result approval_error Approval
  | APending _ => result approval_error (list Approval)
  | ASigner => bool
  end.

Notation approvals_test := (test approvals_call approvals_answer).

Definition fails {A} (kind : approval_error → bool) (r : result approval_error A) : bool :=
  match r with Ok _ => false | Err e => kind e end.
Definition exists_already (e : approval_error) : bool := match e with ErrApprovalExists _ => true | _ => false end.
Definition duplicate_signature (e : approval_error) : bool := match e with ErrDuplicateSignature => true | _ => false end.
Definition self_approval (e : approval_error) : bool := match e with ErrSelfApproval => true | _ => false end.
Definition not_pending (e : approval_error) : bool := match e with ErrApprovalNotPending => true | _ => false end.
Definition signatures_outstanding (e : approval_error) : bool := match e with ErrSignaturesOutstanding _ => true | _ => false end.

(** ** names.go *)

Definition approverBob : string := "lead-bob".
Definition approvalTwice : string := "AP-TWICE".
Definition approvalSelf : string := "AP-SELF".
Definition approvalSetRace : string := "AP-SET-RACE".
Definition approvalShortcut : string := "AP-SHORTCUT".
Definition approvalPartial : string := "AP-PARTIAL".
Definition approvalComplete : string := "AP-COMPLETE".
Definition approvalDecided : string := "AP-DECIDED".

(** ** Records *)

Definition zero_change : DesiredItem :=
  mkDesiredItem "" "" "" "" "" "" "" no_slot LOther [] "" "" "" None ∅ ∅.
Definition zero_approval : Approval := mkApproval "" "" zero_change "" [] 0 "" "" "" "" [] "" "" 0 0 0.
Definition day : Duration := (24 * hour)%Z.

(** Two readings: when it was created, and what the expiry counts from. *)
Definition pending (id team : string) (created now : Time) : Approval :=
  mkApproval id team zero_change "dev-alice" [] 0 "" "" ApprovalPending "" [] "" "" created 0 (now + day)%Z.

Definition needing (id team : string) (signatures : Z) (created now : Time) : Approval :=
  mkApproval id team zero_change "dev-alice" ["L1-Architect"; "L2-Lead"] signatures "" "" ApprovalPending "" [] "" ""
    created 0 (now + day)%Z.

Definition signedBy (approver : string) (now : Time) : Signature := mkSignature approver now ("CHG-" +:+ approver).

Definition with_approver (a : Approval) (by_ : string) : Approval :=
  mkApproval (ap_ID a) (ap_Team a) (ap_Change a) (ap_Requester a) (ap_RequiredRoles a) (ap_RequiredSignatures a) (ap_FloorRevision a)
    (ap_Reason a) ApprovalApproved by_ (ap_Signatures a) (ap_DeclinedBy a) (ap_DeclinedReason a) (ap_CreatedAt a)
    (ap_DecidedAt a) (ap_ExpiresAt a).
Definition with_decider (a : Approval) (by_ reason : string) : Approval :=
  mkApproval (ap_ID a) (ap_Team a) (ap_Change a) (ap_Requester a) (ap_RequiredRoles a) (ap_RequiredSignatures a) (ap_FloorRevision a)
    (ap_Reason a) ApprovalDeclined (ap_ApprovedBy a) (ap_Signatures a) by_ reason (ap_CreatedAt a) (ap_DecidedAt a) (ap_ExpiresAt a).
Definition with_requester (a : Approval) (requester : string) : Approval :=
  mkApproval (ap_ID a) (ap_Team a) (ap_Change a) requester (ap_RequiredRoles a) (ap_RequiredSignatures a) (ap_FloorRevision a)
    (ap_Reason a) (ap_State a) (ap_ApprovedBy a) (ap_Signatures a) (ap_DeclinedBy a) (ap_DeclinedReason a) (ap_CreatedAt a)
    (ap_DecidedAt a) (ap_ExpiresAt a).
Definition decided_at (a : Approval) (at_ : Time) : Approval :=
  mkApproval (ap_ID a) (ap_Team a) (ap_Change a) (ap_Requester a) (ap_RequiredRoles a) (ap_RequiredSignatures a) (ap_FloorRevision a)
    (ap_Reason a) (ap_State a) (ap_ApprovedBy a) (ap_Signatures a) (ap_DeclinedBy a) (ap_DeclinedReason a) (ap_CreatedAt a)
    at_ (ap_ExpiresAt a).

(** ** Steps the cases share *)

Definition wrapOpening : string := "opening: %v".
Definition litReadingBack : string := "reading back: %v".

(** A record is made right before it is used. *)
Definition made (record : Time → Time → Approval) (k : Approval → approvals_test) : approvals_test :=
  Clock (λ created, Clock (λ now, k (record created now))).
Definition must_Open (record : Time → Time → Approval) (msg : string) (rest : approvals_test) : approvals_test :=
  made record (λ a, Ask (AOpen a) (λ r, if is_ok r then rest else Fatalf msg)).
Definition must_Decide (record : Time → Time → Approval) (msg : string) (rest : approvals_test) : approvals_test :=
  made record (λ a, Ask (ADecide a) (λ r, if is_ok r then rest else Fatalf msg)).
Definition must_Get (id msg : string) (rest : Approval → approvals_test) : approvals_test :=
  Ask (AGet id) (λ r, match r with Ok a => rest a | Err _ => Fatalf msg end).
(** [found, _ := store.Get(...)] *)
Definition may_Get (id : string) (rest : Approval → approvals_test) : approvals_test :=
  Ask (AGet id) (λ r, rest (match r with Ok a => a | Err _ => zero_approval end)).
Definition try_Sign (id who : string) (rest : result approval_error Approval → approvals_test) : approvals_test :=
  Clock (λ now, Ask (ASign id (signedBy who now)) rest).
Definition must_Sign (id who msg : string) (rest : Approval → approvals_test) : approvals_test :=
  try_Sign id who (λ r, match r with Ok a => rest a | Err _ => Fatalf msg end).
(** How many are waiting; [None] is an error. *)
Definition ask_Pending (team : string) (rest : option nat → approvals_test) : approvals_test :=
  Ask (APending team) (λ r, rest (match r with Ok l => Some (length l) | Err _ => None end)).

Definition signerOrSkip (rest : approvals_test) : approvals_test :=
  Ask ASigner (λ atomic, if (atomic : bool) then rest else
    Skipf ("%T does not implement estate.Signer, so it cannot collect more than one " +:+
           "signature atomically and the manager will refuse a change that requires more. " +:+
           "Implement Sign — appending under the same lock that checks distinctness — to " +:+
           "serve changes requiring a set of signatures.")).

(** ** conformance.go *)

Definition readBack : approvals_test :=
  must_Open (pending "AP-1" "payments") wrapOpening
  (must_Get "AP-1" litReadingBack (λ found,
  if negb (ap_State found =s? ApprovalPending) then Fatalf "a freshly opened approval is pending, got %q" else Pass)).

Definition approvers : nat := 16.

Definition decider (n : nat) : act approvals_call approvals_answer bool :=
  Now (λ created, Now (λ now,
    Call (ADecide (with_approver (pending "AP-RACE" "payments" created now) ("approver-" +:+ Itoa (Z.of_nat n))))
      (λ r, Return (is_ok r)))).

Definition onlyOneWins : approvals_test :=
  must_Open (pending "AP-RACE" "payments") wrapOpening
  (Race (map decider (seq 0 approvers)) (λ accepted,
  if negb (count (λ b, b) accepted =? 1)%nat
  then Fatalf ("exactly one decision may win; %d of %d were accepted — the same change was " +:+ "approved more than once")
  else Pass)).

Definition noSecondDecision : approvals_test :=
  must_Open (pending "AP-2" "payments") wrapOpening
  (must_Decide (λ c n, with_approver (pending "AP-2" "payments" c n) approverBob) "the first decision must be accepted: %v"
  (made (λ c n, with_decider (pending "AP-2" "payments" c n) "lead-carol" "") (λ declined,
  Ask (ADecide declined) (λ r,
  if is_ok r then Fatalf "a decided approval was decided again — the first decision vanished silently" else Pass)))).

Definition listsPending : approvals_test :=
  foldr (λ spec rest, must_Open (pending spec.1 spec.2) "opening %s: %v" rest)
  (ask_Pending "payments" (λ forTeam,
  match forTeam with
  | None => Fatalf "listing one team: %v"
  | Some forTeam =>
  if negb (forTeam =? 2)%nat then Fatalf "payments has 2 waiting, got %d" else
  ask_Pending "" (λ all,
  match all with
  | None => Fatalf "listing every team: %v"
  | Some all =>
  if negb (all =? 3)%nat then Fatalf "three approvals are waiting overall, got %d" else
  must_Decide (λ c n, with_approver (pending "AP-A" "payments" c n) approverBob) "deciding: %v"
  (ask_Pending "payments" (λ forTeam,
  if bool_decide (forTeam = Some 1) then Pass
  else Fatalf "a decided approval must leave the queue: %d remain, err=%v"))
  end)
  end)) [("AP-A", "payments"); ("AP-B", "payments"); ("AP-C", "treasury")].

(** ** open.go *)

Definition openRefusesATakenID : approvals_test :=
  must_Open (pending "AP-TAKEN" "payments") wrapOpening
  (made (pending "AP-TAKEN" "payments") (λ again,
  Ask (AOpen again) (λ r,
  if negb (fails exists_already r)
  then Fatalf "a taken id was opened a second time; err = %v, want estate.ErrApprovalExists" else Pass))).

Definition openKeepsADecidedApproval : approvals_test :=
  must_Open (pending approvalDecided "payments") wrapOpening
  (must_Decide (λ c n, with_approver (pending approvalDecided "payments" c n) approverBob) "deciding: %v"
  (made (λ c n, with_requester (pending approvalDecided "payments" c n) approverBob) (λ reopened,
  Ask (AOpen reopened) (λ _,
  must_Get approvalDecided litReadingBack (λ after,
  if negb (ap_State after =s? ApprovalApproved) || negb (ap_ApprovedBy after =s? approverBob) ||
     negb (ap_Requester after =s? "dev-alice")
  then Fatalf "a decided approval was overwritten by Open: state=%q approvedBy=%q requester=%q" else Pass))))).

(** ** signatures.go *)

Definition report_if (bad : bool) (msg : string) (rest : approvals_test) : approvals_test :=
  if bad then Errorf msg rest else rest.

Definition partialSetStaysPending : approvals_test :=
  signerOrSkip
  (must_Open (needing approvalPartial "payments" 2) wrapOpening
  (must_Sign approvalPartial approverBob "the first of two signatures must be accepted: %v" (λ after,
  if negb (ap_State after =s? ApprovalPending)
  then Fatalf ("state = %q after one of two signatures — a change whose set is incomplete " +:+ "must still be waiting") else
  report_if (negb (ap_ApprovedBy after =s? ""))
    ("approvedBy = %q with a signature still outstanding — that field is the " +:+
     "COMPLETING signature, and setting it early names somebody as having released a " +:+
     "change that has not been released")
  (must_Get approvalPartial litReadingBack (λ found,
  if negb (bool_decide (Signatories found = [approverBob]))
  then Fatalf ("signatories = %v, want the one person who signed — a partial set nobody can " +:+
               "read is indistinguishable from no progress at all") else
  report_if (negb (SignaturesOutstanding found =? 1)%Z) "outstanding = %d, want 1"
  (foldr (λ mustSay rest,
    report_if (negb (Contains (StillNeeded found) mustSay))
      ("StillNeeded() = %q, which does not mention %q — a wait that cannot say " +:+
       "who unblocks it is a dead end wearing the shape of a process") rest)
  (ask_Pending "payments" (λ waiting,
  if bool_decide (waiting = Some 1) then Pass
  else Fatalf "a partially signed change must stay in the queue: %d waiting, err=%v"))
  ["1 more signature"; "L1-Architect"; approverBob])))))).

Definition signUpTo (id : string) (approvers : list string) (rest : approvals_test) : approvals_test :=
  foldr (λ approver rest,
    must_Sign id approver "signature from %s: %v" (λ after,
    if negb (ap_State after =s? ApprovalPending)
    then Fatalf "the set completed at %d signatures, before %s was meant to complete it" else rest)) rest approvers.

Definition assertEverySignatureIsAttributable (decided : Approval) (rest : approvals_test) : approvals_test :=
  foldr (λ signature rest,
    report_if (sig_Reference signature =s? "")
      ("the signature from %q lost its reference — a chain entry naming a person " +:+
       "and nothing else says somebody agreed, not what they agreed to")
    (report_if (sig_At signature =? 0)%Z "the signature from %q has no time" rest)) rest (ap_Signatures decided).

Definition lastSignatureDecides : approvals_test :=
  signerOrSkip
  (must_Open (needing approvalComplete "payments" 3) wrapOpening
  (signUpTo approvalComplete [approverBob; "arch-carol"]
  (must_Sign approvalComplete "sec-dave" "the completing signature: %v" (λ decided,
  if negb (ap_State decided =s? ApprovalApproved)
  then Fatalf ("state = %q once every required signature is in — the set is complete and " +:+ "nothing else is going to arrive") else
  report_if (negb (ap_ApprovedBy decided =s? "sec-dave")) "approvedBy = %q, want the completing signer"
  (report_if (ap_DecidedAt decided =? 0)%Z "decidedAt is zero on a completed set — the record cannot say when it was released"
  (if negb (length (Signatories decided) =? 3)%nat
   then Fatalf "signatories = %v, want all three — the whole set is the record of who agreed" else
  assertEverySignatureIsAttributable decided
  (ask_Pending "payments" (λ waiting,
  report_if (negb (default 0 waiting =? 0)%nat) "a completed change stayed in the queue: %d waiting" Pass)))))))).

Definition oldSingleSignatureRecordReadsBack : approvals_test :=
  Clock (λ created, Clock (λ now, Clock (λ decided,
  let legacy := decided_at (with_approver (pending "AP-LEGACY" "payments" created now) approverBob) decided in
  Ask (AOpen legacy) (λ r,
  if negb (is_ok r) then Fatalf wrapOpening else
  must_Get "AP-LEGACY" litReadingBack (λ found,
  report_if (negb (SignaturesRequired found =? 1)%Z)
    ("required = %d on a record written before the field existed — zero read " +:+
     "literally turns every historical approval into one that needed nobody")
  (if negb (bool_decide (Signatories found = [approverBob]))
   then Fatalf ("signatories = %v, want the person in ApprovedBy — counting only the list " +:+
                "makes every approval ever granted read back as unsigned") else
  report_if (negb (SignaturesOutstanding found =? 0)%Z) "outstanding = %d on a record that was approved"
  (report_if (negb (HasSignatureFrom found approverBob))
    ("the historical signer does not register as having signed, so they could be " +:+
     "asked to sign again and the set would then hold one person twice")
  (report_if (negb (Contains (StillNeeded found) "nothing")) "StillNeeded() = %q on a fully approved record" Pass)))))))).

(** ** signature_floors.go *)

Definition noSignerTwice : approvals_test :=
  signerOrSkip
  (must_Open (needing approvalTwice "payments" 2) wrapOpening
  (must_Sign approvalTwice approverBob "first signature: %v" (λ _,
  try_Sign approvalTwice approverBob (λ r,
  if negb (fails duplicate_signature r)
  then Fatalf ("one person filled two slots of a two-person set; err = %v — a required set " +:+
               "that accepts a repeat is counting clicks, not people") else
  may_Get approvalTwice (λ found,
  if negb (length (Signatories found) =? 1)%nat || negb (ap_State found =s? ApprovalPending)
  then Fatalf ("record holds %v in state %q — the refused repeat must leave the request " +:+ "waiting for somebody else")
  else Pass))))).

Definition noRequesterSignature : approvals_test :=
  signerOrSkip
  (made (needing approvalSelf "payments" 2) (λ waiting,
  Ask (AOpen waiting) (λ r,
  if negb (is_ok r) then Fatalf wrapOpening else
  try_Sign approvalSelf (ap_Requester waiting) (λ r,
  if negb (fails self_approval r)
  then Fatalf ("the requester signed their own change; err = %v — separation of duties is " +:+ "not a policy a deployment can relax") else
  may_Get approvalSelf (λ found,
  if negb (length (Signatories found) =? 0)%nat
  then Fatalf "the requester's signature was recorded anyway: %v" else Pass))))).

Definition required : Z := 3.

Definition signs (id who : string) : act approvals_call approvals_answer bool :=
  Now (λ now, Call (ASign id (signedBy who now)) (λ r, Return (is_ok r))).
Definition signer_name (n : nat) : string := "approver-" +:+ Itoa (Z.of_nat n).

Fixpoint twice (l : list string) : bool :=
  match l with [] => false | x :: l => slice_contains l x || twice l end.

Definition exactlyTheRequiredNumberWin : approvals_test :=
  signerOrSkip
  (must_Open (needing approvalSetRace "payments" required) wrapOpening
  (Race (map (signs approvalSetRace) (map signer_name (seq 0 approvers))) (λ accepted,
  if negb (Z.of_nat (count (λ b, b) accepted) =? required)%Z
  then Fatalf ("%d of %d distinct signers were accepted, want exactly %d — more means a " +:+
               "slot was filled twice, fewer means a signature was read, written and lost") else
  must_Get approvalSetRace litReadingBack (λ found,
  if negb (ap_State found =s? ApprovalApproved) then Fatalf "state = %q with every slot filled — %s" else
  if negb (Z.of_nat (length (Signatories found)) =? required)%Z
  then Fatalf ("the record holds %d signatures (%v) after %d accepted signers — a signature " +:+
               "that was accepted and not stored is the worst of both answers") else
  if twice (Signatories found)
  then Fatalf ("%q appears twice in %v — one person filled two slots under concurrency, " +:+
               "which is exactly what a check outside the lock allows") else
  try_Sign approvalSetRace "approver-late" (λ r,
  if negb (fails not_pending r)
  then Fatalf ("a signature was accepted after the set completed; err = %v — that is the " +:+
               "N+1st signature on a change already applied under N") else Pass))))).

Definition noApprovalWithSignaturesOutstanding : approvals_test :=
  signerOrSkip
  (must_Open (needing approvalShortcut "payments" 2) wrapOpening
  (made (needing approvalShortcut "payments" 2) (λ shortcut,
  Clock (λ now,
  Ask (ADecide (with_signatures (with_approver shortcut approverBob) [signedBy approverBob now])) (λ r,
  if negb (fails signatures_outstanding r) then Fatalf "a record was approved with 1 of 2 signatures; err = %v" else
  made (needing approvalShortcut "payments" 2) (λ declined,
  Clock (λ now,
  Ask (ADecide (with_signatures (with_decider declined approverBob "the rollback plan does not cover the schema change")
                  [signedBy approverBob now])) (λ r,
  if negb (is_ok r) then Fatalf "a decline on a partially signed change must be accepted: %v" else
  may_Get approvalShortcut (λ found,
  report_if (negb (length (Signatories found) =? 1)%nat)
    ("the decline dropped the signature already collected (%v) — a change one " +:+
     "person signed and another refused must read as both") Pass))))))))).

Definition approvals_suite : suite approvals_call approvals_answer :=
  [("a pending approval can be read back", readBack);
   ("only ONE decision wins under concurrency", onlyOneWins);
   ("a decided approval cannot be decided again", noSecondDecision);
   ("pending lists what is waiting", listsPending);
   ("an id cannot be opened twice", openRefusesATakenID);
   ("opening a taken id keeps the decided approval", openKeepsADecidedApproval);
   ("a partial set stays pending and says who is still needed", partialSetStaysPending);
   ("the completing signature decides the record", lastSignatureDecides);
   ("the same person cannot fill two slots", noSignerTwice);
   ("the requester cannot fill a slot", noRequesterSignature);
   ("concurrent distinct signers fill EXACTLY the required number of slots", exactlyTheRequiredNumberWin);
   ("a record cannot be decided approved with signatures outstanding", noApprovalWithSignaturesOutstanding);
   ("a record written before signatures were a list still reads as approved", oldSingleSignatureRecordReadsBack)].

(** ** The store in memory, and one that never looks at the clock *)

Definition updated (m : gmap string Approval) (r : result approval_error (gmap string Approval)) :
    result approval_error unit * gmap string Approval :=
  match r with Ok m => (Ok tt, m) | Err e => (Err e, m) end.

Definition memory_handle (c : approvals_call) (now : Time) (m : gmap string Approval) : approvals_answer c * gmap string Approval :=
  match c with
  | AOpen a => updated m (Open m a)
  | AGet id => (Get m now id, m)
  | ADecide a => updated m (Decide m now a)
  | APending team => (Ok (Pending m now team), m)
  | ASigner => (true, m)
  | ASign id s => match Sign m now id s with Ok (m, a) => (Ok a, m) | Err e => (Err e, m) end
  end.

Definition memory_approvals : Implementation approvals_call approvals_answer :=
  mkImplementation (gmap string Approval) ∅ (λ c, atomic (memory_handle c)).

Definition undecided (a : Approval) : bool := ap_State a =s? ApprovalPending.
Definition clockless_handle (c : approvals_call) (m : gmap string Approval) : approvals_answer c * gmap string Approval :=
  match c with
  | AOpen a => updated m (Open m a)
  | AGet id => (match m !! id with None => Err ErrApprovalNotFound | Some a => Ok a end, m)
  | ADecide a =>
      updated m
        match m !! ap_ID a with
        | None => Err ErrApprovalNotFound
        | Some current =>
            refuse negb (undecided current) with ErrApprovalNotPending ;
            refuse (ap_State a =s? ApprovalApproved) && (0 <? SignaturesOutstanding a)%Z with ErrSignaturesOutstanding (StillNeeded a) ;
            Ok (<[ap_ID a := a]> m)
        end
  | APending team =>
      (Ok (List.filter (λ a, undecided a && ((team =s? "") || (ap_Team a =s? team))) (map snd (map_to_list m))), m)
  | ASigner => (true, m)
  | ASign id s =>
      match m !! id with
      | None => (Err ErrApprovalNotFound, m)
      | Some a =>
          if negb (undecided a) then (Err ErrApprovalNotPending, m)
          else if sig_By s =s? ap_Requester a then (Err ErrSelfApproval, m)
          else if HasSignatureFrom a (sig_By s) then (Err ErrDuplicateSignature, m)
          else (Ok (signed a s), <[id := signed a s]> m)
      end
  end.
Definition clockless_approvals : Implementation approvals_call approvals_answer :=
  mkImplementation (gmap string Approval) ∅ (λ c, atomic (λ _, clockless_handle c)).

(** ** What the interface promises *)

Definition error_same (e e' : approval_error) : Prop :=
  match e, e' with
  | ErrApprovalExists _, ErrApprovalExists _ | ErrSignaturesOutstanding _, ErrSignaturesOutstanding _ => True
  | _, _ => e = e'
  end.
Definition result_same {A} (R : A → A → Prop) (r r' : result approval_error A) : Prop :=
  match r, r' with Ok a, Ok b => R a b | Err e, Err e' => error_same e e' | _, _ => False end.

(** The wording of a refusal and the order of a list are an implementation's own. *)
Definition approvals_same (c : approvals_call) : approvals_answer c → approvals_answer c → Prop :=
  match c with
  | AOpen _ | ADecide _ => result_same eq
  | AGet _ | ASign _ _ => result_same eq
  | APending _ => result_same (≡ₚ)
  | ASigner => eq
  end.

Lemma error_same_refl e : error_same e e.
Proof. by destruct e. Qed.
Lemma result_same_refl {A} (R : A → A → Prop) (r : result approval_error A) : (∀ a, R a a) → result_same R r r.
Proof. intros H. destruct r; [apply H|apply error_same_refl]. Qed.
Lemma approvals_same_ok {A} (R : A → A → Prop) r r' : result_same R r r' → is_ok r = is_ok r'.
Proof. by destruct r, r'. Qed.

(** An approval that outlives the run of the suite, which is over within a day. *)
Section within_a_day.
Context (T0 : Time).
Definition during (t : Time) : Prop := (T0 ≤ t < T0 + day)%Z.
Definition lasts (a : Approval) : Prop := ∀ t, during t → (t < ap_ExpiresAt a)%Z.
Definition lasting (c : approvals_call) : Prop := match c with AOpen a | ADecide a => lasts a | _ => True end.

Lemma lasts_Pending a t : lasts a → during t → Approval_Pending a t = undecided a.
Proof. intros Ha Ht. unfold Approval_Pending, undecided. rewrite (proj2 (Z.ltb_lt _ _) (Ha t Ht)). by rewrite andb_true_r. Qed.

Definition all_last (m m' : gmap string Approval) : Prop := m = m' ∧ ∀ id a, m !! id = Some a → lasts a.

Lemma all_last_insert (m : gmap string Approval) (id : string) a : (∀ id a, m !! id = Some a → lasts a) → lasts a → ∀ id' a', <[id := a]> m !! id' = Some a' → lasts a'.
Proof. intros Hm Ha id' a'. rewrite lookup_insert_Some. intros [[_ <-]|[_ H]]; [done|by apply (Hm id')]. Qed.

Lemma clockless_in_step : in_step approvals_same during lasting memory_approvals clockless_approvals all_last.
Proof.
  split; [done|]. intros c Hc. apply op_sim_atomic. intros t m m' Ht [<- Hm].
  destruct c as [a|id|a|team| |id s]; cbn [memory_handle clockless_handle approvals_same].
  - split; [by apply result_same_refl|]. split; [done|]. unfold Open. destruct (m !! ap_ID a); [done|]. by apply all_last_insert.
  - split; [|done]. unfold Get. destruct (m !! id) as [a|] eqn:E; [|done].
    rewrite (proj2 (Z.ltb_lt _ _) (Hm _ _ E t Ht)). by rewrite andb_false_r.
  - unfold Decide. destruct (m !! ap_ID a) as [b|] eqn:E; [|done]. rewrite (lasts_Pending _ _ (Hm _ _ E) Ht).
    split; [by apply result_same_refl|]. split; [done|]. destruct (negb _); [done|]. destruct (_ && _); [done|]. by apply all_last_insert.
  - split; [|done]. cbn. unfold Pending. rewrite merge_sort_Permutation.
    enough (List.filter (waiting_for t team) (map snd (map_to_list m)) =
      List.filter (λ a, undecided a && ((team =s? "") || (ap_Team a =s? team))) (map snd (map_to_list m))) as -> by done.
    apply filter_ext_in. intros a (id & -> & Ha)%list_elem_of_In%elem_of_map. destruct id as [id a]. apply elem_of_map_to_list in Ha.
    unfold waiting_for. cbn [snd]. rewrite (lasts_Pending _ _ (Hm _ _ Ha) Ht). destruct (undecided a), (team =s? ""), (ap_Team a =s? team); done.
  - done.
  - unfold Sign. destruct (m !! id) as [a|] eqn:E; [|done]. rewrite (lasts_Pending _ _ (Hm _ _ E) Ht).
    destruct (negb _); [done|]. destruct (sig_By s =s? ap_Requester a); [done|]. destruct (HasSignatureFrom _ _); [done|].
    split; [done|]. split; [done|]. apply all_last_insert; [done|]. intros t' Ht'. destruct (signed_request a s) as [Hr _].
    rewrite (sr_expires _ _ Hr). by apply (Hm _ _ E).
Qed.

(** ** Tests that look only at what is promised *)

Notation insensitive t := (test_rel approvals_same during lasting t t).

Lemma approvals_rel_if (b : bool) (t u : approvals_test) : insensitive t → insensitive u → insensitive (if b then t else u).
Proof. by destruct b. Qed.
Lemma rel_report_if b msg t : insensitive t → insensitive (report_if b msg t).
Proof. intros H. apply approvals_rel_if; [by apply rel_Errorf|done]. Qed.
Lemma rel_foldr {A} (l : list A) body rest :
  (∀ x t, insensitive t → insensitive (body x t)) → insensitive rest → insensitive (foldr body rest l).
Proof. intros Hb Hr. induction l as [|x l IH]; [exact Hr|]. cbn [foldr]. apply Hb, IH. Qed.

(** A record made during the run that counts its day from then. *)
Definition outlives (record : Time → Time → Approval) : Prop := ∀ c n, ap_ExpiresAt (record c n) = (n + day)%Z.
Lemma outlives_lasts record c n : outlives record → during n → lasts (record c n).
Proof. intros Hr [Hn _] t [_ Ht]. rewrite Hr. lia. Qed.

Lemma rel_made record k : (∀ c n, during c → during n → insensitive (k (record c n))) → insensitive (made record k).
Proof. intros H. apply rel_Clock. intros c Hc. apply rel_Clock. intros n Hn. by apply H. Qed.
Lemma rel_must_Open record msg rest : outlives record → insensitive rest → insensitive (must_Open record msg rest).
Proof.
  intros Hr H. apply rel_made. intros c n _ Hn. apply rel_Ask; [by apply outlives_lasts|]. intros r r' Hs. rewrite (approvals_same_ok _ _ _ Hs).
  apply approvals_rel_if; [done|constructor].
Qed.
Lemma rel_must_Decide record msg rest : outlives record → insensitive rest → insensitive (must_Decide record msg rest).
Proof.
  intros Hr H. apply rel_made. intros c n _ Hn. apply rel_Ask; [by apply outlives_lasts|]. intros r r' Hs. rewrite (approvals_same_ok _ _ _ Hs).
  apply approvals_rel_if; [done|constructor].
Qed.
Lemma approvals_rel_must_Get id msg rest : (∀ a, insensitive (rest a)) → insensitive (must_Get id msg rest).
Proof. intros H. apply rel_Ask; [done|]. intros [a|e] [b|e'] Hs; cbn in Hs; try done; [rewrite Hs; apply H|constructor]. Qed.
Lemma rel_may_Get id rest : (∀ a, insensitive (rest a)) → insensitive (may_Get id rest).
Proof. intros H. apply rel_Ask; [done|]. intros [a|e] [b|e'] Hs; cbn in Hs; try done. rewrite Hs. apply H. Qed.
Lemma rel_must_Sign id who msg rest : (∀ a, insensitive (rest a)) → insensitive (must_Sign id who msg rest).
Proof.
  intros H. apply rel_Clock. intros t _. apply rel_Ask; [done|].
  intros [a|e] [b|e'] Hs; cbn in Hs; try done; [rewrite Hs; apply H|constructor].
Qed.
Lemma rel_ask_Pending team rest : (∀ n, insensitive (rest n)) → insensitive (ask_Pending team rest).
Proof. intros H. apply rel_Ask; [done|]. intros [a|e] [b|e'] Hs; cbn in Hs; try done. rewrite (Permutation_length Hs). apply H. Qed.
Lemma rel_signerOrSkip rest : insensitive rest → insensitive (signerOrSkip rest).
Proof. intros H. apply rel_Ask; [done|]. intros a b Hs. cbn in Hs. rewrite Hs. apply approvals_rel_if; [done|constructor]. Qed.

Lemma approvals_same_fails {A} (R : A → A → Prop) kind r r' :
  (∀ e e', error_same e e' → kind e = kind e') → result_same R r r' → fails kind r = fails kind r'.
Proof. intros Hk. destruct r as [a|e], r' as [b|e']; try done. by apply Hk. Qed.
Lemma error_kinds e e' :
  error_same e e' → exists_already e = exists_already e' ∧ duplicate_signature e = duplicate_signature e' ∧
    self_approval e = self_approval e' ∧ not_pending e = not_pending e' ∧ signatures_outstanding e = signatures_outstanding e'.
Proof. destruct e, e'; cbn; intros Hs; try discriminate Hs; done. Qed.

Lemma kinds_same : ∀ kind, kind ∈ [exists_already; duplicate_signature; self_approval; not_pending; signatures_outstanding] →
  ∀ e e', error_same e e' → kind e = kind e'.
Proof.
  intros kind Hk e e' He. apply error_kinds in He as (? & ? & ? & ? & ?).
  repeat (apply elem_of_cons in Hk as [->|Hk]; [done|]). by apply not_elem_of_nil in Hk.
Qed.

Lemma lasts_from a n : ap_ExpiresAt a = (n + day)%Z → during n → lasts a.
Proof. intros Ha [Hn _] t [_ Ht]. rewrite Ha. lia. Qed.

Ltac outlasting := first [exact Logic.I|eapply lasts_from; [reflexivity|eassumption]].
Ltac same_kind kind Hs := rewrite ?(approvals_same_fails _ kind _ _ (kinds_same kind ltac:(set_solver)) Hs).
Ltac same_verdict :=
  repeat first
    [ assumption | apply rel_signerOrSkip | apply rel_must_Open; [done|] | apply rel_must_Decide; [done|]
    | apply approvals_rel_must_Get; intros ? | apply rel_may_Get; intros ? | apply rel_must_Sign; intros ? | apply rel_ask_Pending; intros ?
    | apply rel_report_if | apply rel_foldr; [intros ? ? ?|] | apply rel_made; intros ? ? ? ? | apply rel_Clock; intros ? ?
    | apply rel_Pass | apply rel_Fatalf | apply rel_Errorf | apply approvals_rel_if
    | match goal with |- insensitive (match ?x with Some _ => _ | None => _ end) => destruct x end
    | apply rel_Ask; [outlasting|]; let Hs := fresh in intros ? ? Hs; cbn [approvals_same] in Hs; rewrite ?(approvals_same_ok _ _ _ Hs);
      same_kind exists_already Hs; same_kind self_approval Hs; same_kind duplicate_signature Hs; same_kind not_pending Hs;
      same_kind signatures_outstanding Hs; clear Hs ].

Lemma rel_race threads k :
  (∀ a, a ∈ threads → act_rel approvals_same during lasting eq a a) → (∀ xs : list bool, insensitive (k xs)) → insensitive (Race threads k).
Proof.
  intros Ht Hk. apply (rel_Race _ _ _ eq).
  - apply Forall_Forall2_diag, Forall_forall, Ht.
  - intros xs ys Hxs. apply list_eq_Forall2 in Hxs. subst. apply Hk.
Qed.

Lemma onlyOneWins_insensitive : insensitive onlyOneWins.
Proof.
  apply rel_must_Open; [done|]. apply rel_race; [|intros xs; same_verdict].
  intros a (n & -> & _)%elem_of_map. apply rel_Now. intros c _. apply rel_Now. intros t Ht.
  apply rel_Call; [outlasting|]. intros r r' Hs. rewrite (approvals_same_ok _ _ _ Hs). by apply rel_Return.
Qed.
Lemma exactlyTheRequiredNumberWin_insensitive : insensitive exactlyTheRequiredNumberWin.
Proof.
  apply rel_signerOrSkip, rel_must_Open; [done|]. apply rel_race; [|intros xs; same_verdict].
  intros a (n & -> & _)%elem_of_map. apply rel_Now. intros t _. apply rel_Call; [done|].
  intros r r' Hs. cbn in Hs. rewrite (approvals_same_ok _ _ _ Hs). by apply rel_Return.
Qed.

Lemma approvals_suite_is_insensitive name t : (name, t) ∈ approvals_suite → insensitive t.
Proof.
  unfold approvals_suite. intros H.
  repeat (apply elem_of_cons in H as [[= -> ->]|H];
    [first [exact onlyOneWins_insensitive|exact exactlyTheRequiredNumberWin_insensitive|same_verdict; fail]|]).
  by apply not_elem_of_nil in H.
Qed.
End within_a_day.

(** ** Enough people release a change *)

Section release.
Context (clock : nat → Time) (id : string) (a0 : Approval) (names : list string).
Context (names_distinct : NoDup names) (second_parties : ap_Requester a0 ∉ names) (in_time : ∀ n, (clock n < ap_ExpiresAt a0)%Z).

Definition needed : nat := Z.to_nat (SignaturesRequired a0).
Definition name_of (i : nat) : string := default "" (names !! i).

(** Those who signed so far are on the record, which is decided by the last one needed. *)
Record signed_so_far (won : list nat) (a : Approval) : Prop := {
  ss_request : same_request a0 a;
  ss_names : map sig_By (ap_Signatures a) = map name_of won;
  ss_state : if decide (length won < needed)
    then ap_State a = ApprovalPending ∧ ap_ApprovedBy a = ""
    else ap_State a = ApprovalApproved ∧ Some (ap_ApprovedBy a) = last (map name_of won);
}.
Definition record_served (m : gmap string Approval) (won : list nat) : Prop :=
  (∀ i, i ∈ won → i < length names) ∧ ∃ a, m !! id = Some a ∧ signed_so_far won a.

Inductive signing (i : nat) : Op (gmap string Approval) bool → Prop :=
| signing_before who : names !! i = Some who → signing i (op_of memory_approvals (signs id who))
| signing_now who t : names !! i = Some who →
    signing i (op_of memory_approvals (Call (ASign id (signedBy who t)) (λ r, Return (is_ok r)))).

Lemma signing_not_over i b : ¬ signing i (Done b).
Proof. intros H. remember (Done b) as o eqn:E. by destruct H. Qed.
Lemma signing_step i f k :
  signing i (Step f k) → ∃ who, names !! i = Some who ∧
  ((f = (λ _ m, m) ∧ ∀ t m, signing i (k t m)) ∨
   ∃ t0, f = (λ t m, (memory_handle (ASign id (signedBy who t0)) t m).2) ∧
     k = (λ t m, Done (is_ok (memory_handle (ASign id (signedBy who t0)) t m).1))).
Proof.
  intros H. remember (Step f k) as o eqn:E. destruct H as [who Hw|who t Hw]; injection E as <- <-; exists who; split; try done.
  - left. split; [done|]. intros t m'. by apply signing_now.
  - right. by exists t.
Qed.

Lemma needed_required a : same_request a0 a → SignaturesRequired a = Z.of_nat needed.
Proof.
  intros Hs. unfold needed. assert (SignaturesRequired a = SignaturesRequired a0) as ->.
  { unfold SignaturesRequired. by rewrite (sr_required _ _ Hs). }
  pose proof (SignaturesRequired_pos a0). lia.
Qed.

Lemma signs_next m won i who n t0 :
  record_served m won → names !! i = Some who → i ∉ won → length won < needed →
  ∃ a, Sign m (clock n) id (signedBy who t0) = Ok (<[id := a]> m, a) ∧ record_served (<[id := a]> m) (won ++ [i]).
Proof.
  intros (Hlt & a & Ha & Hso) Hi Hno Hroom. destruct Hso as [Hreq Hnames Hst]. rewrite decide_True in Hst by done. destruct Hst as [Hp Happ].
  assert (length (ap_Signatures a) = length won) as Hlen by (rewrite <- (length_map sig_By), Hnames; by rewrite length_map).
  assert (name_of i = who) as Hname by (unfold name_of; by rewrite Hi). set (s := signedBy who t0).
  exists (signed a s). destruct (signed_request a s) as [Hr Hsig]. split.
  - apply Sign_Ok. exists a. split; [done|]. rewrite Approval_Pending_true. split; [split; [done|]; rewrite (sr_expires _ _ Hreq); apply in_time|].
    split; [|split; [|done]].
    + cbn. rewrite (sr_requester _ _ Hreq). intros Hw. apply second_parties. rewrite <- Hw. by eapply list_elem_of_lookup_2.
    + unfold Signatories. rewrite collected_listed, Hnames by done. cbn. intros (j & Hj & Hin)%elem_of_map. apply Hno.
      destruct (lookup_lt_is_Some_2 names j (Hlt j Hin)) as [x Hx]. unfold name_of in Hj. rewrite Hx in Hj. cbn in Hj. subst x.
      by rewrite (NoDup_lookup names i j who names_distinct Hi Hx).
  - split.
    + intros j [Hj| ->%list_elem_of_singleton]%elem_of_app; [by apply Hlt|]. by apply lookup_lt_Some in Hi.
    + exists (signed a s). rewrite lookup_insert_eq. split; [done|]. split.
      * destruct Hreq, Hr. constructor; congruence.
      * rewrite Hsig, !map_app, Hnames. cbn. by rewrite Hname.
      * pose proof (needed_required a Hreq) as Hn. pose proof (signed_state a s Happ ltac:(lia)) as Hstate. rewrite length_app. cbn [length].
        rewrite map_app. cbn [map]. rewrite last_snoc, Hname.
        destruct (Z.eqb_spec (SignaturesRequired a) (Z.of_nat (length (ap_Signatures a)) + 1)) as [He|He].
        -- rewrite decide_False by lia. destruct Hstate as (? & -> & _). done.
        -- rewrite decide_True by lia. destruct Hstate as (-> & ? & _). done.
Qed.

Lemma signs_too_late m won now s : record_served m won → length won = needed → Sign m now id s = Err ErrApprovalNotPending.
Proof.
  intros (_ & a & Ha & Hso) Hfull. unfold Sign. rewrite Ha. pose proof (ss_state _ _ Hso) as Hst. rewrite decide_False in Hst by lia.
  unfold Approval_Pending. by rewrite (proj1 Hst).
Qed.

Lemma names_of_distinct won : NoDup won → (∀ i, i ∈ won → i < length names) → NoDup (map name_of won).
Proof.
  intros Hw Hlt. induction Hw as [|i l Hi _ IH]; [constructor|]. cbn. constructor; [|apply IH; intros; apply Hlt; by right].
  intros (j & Hj & Hin)%elem_of_map. unfold name_of in Hj.
  destruct (lookup_lt_is_Some_2 names i (Hlt i ltac:(by left))) as [x Hx]. destruct (lookup_lt_is_Some_2 names j (Hlt j ltac:(by right))) as [y Hy].
  rewrite Hx, Hy in Hj. cbn in Hj. subst y. by rewrite (NoDup_lookup names i j x names_distinct Hx Hy) in Hi.
Qed.

Lemma signers_served schedule m n :
  m !! id = Some a0 → ap_State a0 = ApprovalPending → ap_Signatures a0 = [] → ap_ApprovedBy a0 = "" →
  ∃ xs (m' : gmap string Approval) n' won a, run_race memory_approvals clock schedule (map (signs id) names) (m, n) = (xs, (m', n')) ∧
    NoDup won ∧ length won = needed `min` length names ∧ count (λ b, b) xs = length won ∧ record_served m' won ∧
    m' !! id = Some a ∧ signed_so_far won a.
Proof.
  intros Hm Hp Hsig Happ. assert (0 < needed) as Hpos.
  { unfold needed. pose proof (SignaturesRequired_pos a0). lia. }
  destruct (race_served memory_approvals clock needed record_served signing) with (schedule := schedule)
    (threads := map (signs id) names) (s := m) (n := n) as (xs & m' & n' & won & Hrun & Hs & Hnd & Hlen & Hc & _).
  - apply signing_not_over.
  - intros i f k s won n1 (who & Hi & [[-> Hk]|(t0 & -> & ->)])%signing_step Hs Hno Hroom; [by left|]. right.
    destruct (signs_next s won i who n1 t0 Hs Hi Hno Hroom) as (a & Hsign & Hs'). cbn [memory_handle]. by rewrite Hsign.
  - intros i f k s won n1 (who & Hi & [[-> Hk]|(t0 & -> & ->)])%signing_step Hs Hno Hfull; [by auto|].
    cbn [memory_handle]. rewrite (signs_too_late s won _ _ Hs Hfull). split; [done|by right].
  - split; [by intros i ?%not_elem_of_nil|]. exists a0. split; [done|]. split; [done|by rewrite Hsig|]. by rewrite decide_True.
  - intros i a Ha. rewrite list_lookup_fmap in Ha. destruct (names !! i) as [who|] eqn:E; [|done]. injection Ha as <-. by apply signing_before.
  - destruct Hs as (Hlt & a & Ha & Hso). exists xs, m', n', won, a. rewrite length_map in Hlen. split_and!; try done. split; [done|]. by exists a.
Qed.
End release.

(** C7: enough people always release a change. Put a pending request to any number of
    distinct people, none of them the requester, who all sign at once, before it expires,
    under any interleaving: exactly as many signatures are accepted as the request requires,
    or all of them when there are fewer people. With enough people the record ends up
    approved, by the last signer it took, with the accepted ones on it, each once, and no
    further signature is taken at any time; otherwise it is still waiting, with nothing
    lost. *)
Theorem enough_signers_always_release clock id a0 names schedule m n :
  NoDup names → ap_Requester a0 ∉ names → (∀ n, (clock n < ap_ExpiresAt a0)%Z) →
  m !! id = Some a0 → ap_State a0 = ApprovalPending → ap_Signatures a0 = [] → ap_ApprovedBy a0 = "" →
  ∃ xs (m' : gmap string Approval) n' a, run_race memory_approvals clock schedule (map (signs id) names) (m, n) = (xs, (m', n')) ∧
    m' !! id = Some a ∧ same_request a0 a ∧
    count (λ b, b) xs = length (ap_Signatures a) ∧
    length (ap_Signatures a) = Z.to_nat (SignaturesRequired a0) `min` length names ∧
    NoDup (map sig_By (ap_Signatures a)) ∧ map sig_By (ap_Signatures a) ⊆ names ∧
    if decide (Z.to_nat (SignaturesRequired a0) ≤ length names)
    then ap_State a = ApprovalApproved ∧ Some (ap_ApprovedBy a) = last (map sig_By (ap_Signatures a)) ∧
         ∀ now s, Sign m' now id s = Err ErrApprovalNotPending
    else ap_State a = ApprovalPending.
Proof.
  intros Hnd Hreq Htime Hm Hp Hsig Happ.
  destruct (signers_served clock id a0 names Hnd Hreq Htime schedule m n Hm Hp Hsig Happ)
    as (xs & m' & n' & won & a & Hrun & Hw & Hlen & Hc & Hserved & Ha & Hso).
  assert (length (ap_Signatures a) = length won) as Hl by (rewrite <- (length_map sig_By), (ss_names _ _ _ _ Hso); by rewrite length_map).
  destruct Hserved as (Hlt & _). unfold needed in Hlen. exists xs, m', n', a. split; [done|]. split; [done|]. split; [apply Hso|].
  split; [congruence|]. split; [congruence|]. rewrite (ss_names _ _ _ _ Hso). split; [|split].
  - by apply names_of_distinct.
  - intros x (i & -> & Hi)%elem_of_map. destruct (lookup_lt_is_Some_2 names i (Hlt i Hi)) as [x Hx]. unfold name_of. rewrite Hx.
    by eapply list_elem_of_lookup_2.
  - pose proof (ss_state _ _ _ _ Hso) as Hst. unfold needed in Hst.
    destruct (decide (Z.to_nat (SignaturesRequired a0) ≤ length names)) as [Hn|Hn].
    + rewrite decide_False in Hst by lia. destruct Hst. split; [done|]. split; [done|]. intros now s.
      apply (signs_too_late id a0 names m' won); [by split; [|exists a]|unfold needed; lia].
    + rewrite decide_True in Hst by lia. apply Hst.
Qed.

(** ** The verdicts of the store in memory *)

Lemma twice_false l : twice l = false ↔ NoDup l.
Proof.
  induction l as [|x l IH]; cbn; [split; [constructor|done]|]. rewrite orb_false_iff, slice_contains_false, IH, NoDup_cons. done.
Qed.

Section approvals_memory_passes.
Context (clock : nat → Time) (T0 : Time) (T0_positive : (0 < T0)%Z) (in_a_day : ∀ n, during T0 (clock n)).
Context (schedule : list nat) (start : nat).

Notation passes t := (verdict_of memory_approvals clock schedule start t = Passed).

Lemma approvals_run_call c k reports m n :
  run memory_approvals clock schedule (Ask c k) reports (m, n) =
    run memory_approvals clock schedule (k (memory_handle c (clock n) m).1) reports ((memory_handle c (clock n) m).2, S n).
Proof. done. Qed.
Lemma approvals_run_clock k reports (m : State memory_approvals) n :
  run memory_approvals clock schedule (Clock k) reports (m, n) = run memory_approvals clock schedule (k (clock n)) reports (m, S n).
Proof. done. Qed.

(** The pairs of a state and a reading are typed with the field [State] unfolded or not. *)
Ltac race_is H :=
  match type of H with _ = ?r =>
    match goal with |- context [run_race ?i ?c ?sch ?ts ?w] => replace (run_race i c sch ts w) with r by (symmetry; exact H) end
  end.

Definition race_key : string := "AP-RACE".
Definition decided_once (m : gmap string Approval) (won : list nat) : Prop :=
  ∃ a, m !! race_key = Some a ∧ lasts T0 a ∧ ap_State a = match won with [] => ApprovalPending | _ => ApprovalApproved end.
Inductive deciding : Op (gmap string Approval) bool → Prop :=
| deciding_before n : deciding (op_of memory_approvals (decider n))
| deciding_soon n c : deciding (op_of memory_approvals (Now (λ now,
    Call (ADecide (with_approver (pending "AP-RACE" "payments" c now) (signer_name n))) (λ r, Return (is_ok r)))))
| deciding_now n c t : during T0 t → deciding (op_of memory_approvals
    (Call (ADecide (with_approver (pending "AP-RACE" "payments" c t) (signer_name n))) (λ r, Return (is_ok r)))).

Lemma deciding_not_over b : ¬ deciding (Done b).
Proof. intros H. remember (Done b) as o eqn:E. by destruct H. Qed.
Lemma deciding_step f k n :
  deciding (Step f k) →
  (f = (λ _ m, m) ∧ ∀ m, deciding (k (clock n) m)) ∨
  ∃ a, ap_ID a = race_key ∧ lasts T0 a ∧ ap_State a = ApprovalApproved ∧ SignaturesOutstanding a = 0%Z ∧
    f = (λ t m, (updated m (Decide m t a)).2) ∧ k = (λ t m, Done (is_ok (updated m (Decide m t a)).1)).
Proof.
  intros H. remember (Step f k) as o eqn:E. destruct H as [j|j c|j c t Ht]; injection E as <- <-.
  - left. split; [done|]. intros m. apply deciding_soon.
  - left. split; [done|]. intros m. by apply deciding_now.
  - right. eexists. split; [|split; [|split; [|split; [|split; [reflexivity|reflexivity]]]]]; try done.
    by eapply lasts_from.
Qed.

Lemma onlyOneWins_passes : passes onlyOneWins.
Proof.
  unfold verdict_of, onlyOneWins, must_Open, made. rewrite !approvals_run_clock, approvals_run_call. cbn [memory_handle].
  set (a := pending "AP-RACE" "payments" _ _). set (m := <[race_key := a]> (∅ : gmap string Approval)).
  assert (Open (fresh memory_approvals) a = Ok m) as -> by done. cbn [updated fst snd is_ok run].
  destruct (race_served memory_approvals clock 1 decided_once (λ _, deciding)) with (schedule := schedule)
    (threads := map decider (seq 0 approvers)) (s := m) (n := S (S (S start))) as (xs & m' & n' & won & Hrun & _ & _ & Hlen & Hc & _).
  - intros _. apply deciding_not_over.
  - intros i f k s won n Hstep (b & Hb & Hlast & Hst) _ Hroom. destruct (deciding_step f k n Hstep) as [[-> Hk]|(d & Hid & Hd & Hap & Hout & -> & ->)].
    + left. split; [by exists b|done].
    + right. destruct won; [|cbn in Hroom; lia].
      assert (Decide s (clock n) d = Ok (<[ap_ID d := d]> s)) as ->.
      { apply Decide_Ok. split; [|split; [by rewrite Hout|done]]. exists b. rewrite Hid. split; [done|].
        apply Approval_Pending_true. split; [done|by apply Hlast]. }
      cbn. split; [|done]. exists d. rewrite Hid, lookup_insert_eq. done.
  - intros i f k s won n Hstep (b & Hb & Hlast & Hst) _ Hfull. destruct (deciding_step f k n Hstep) as [[-> Hk]|(d & Hid & Hd & Hap & Hout & -> & ->)].
    + split; [by exists b|by left].
    + destruct won; [done|]. unfold Decide. rewrite Hid, Hb. unfold Approval_Pending. rewrite Hst. cbn. split; [by exists b|by right].
  - exists a. split; [apply lookup_insert_eq|]. split; [by eapply lasts_from|done].
  - intros i t Ht. apply list_elem_of_lookup_2, elem_of_map in Ht as (j & -> & _). apply deciding_before.
  - race_is Hrun. rewrite Hc, Hlen. done.
Qed.

Lemma exactlyTheRequiredNumberWin_passes : passes exactlyTheRequiredNumberWin.
Proof.
  unfold verdict_of, exactlyTheRequiredNumberWin, signerOrSkip, must_Open, made. rewrite approvals_run_call. cbn [memory_handle fst snd].
  rewrite !approvals_run_clock, approvals_run_call. cbn [memory_handle].
  set (a0 := needing _ _ _ _ _). set (m := <[approvalSetRace := a0]> (∅ : gmap string Approval)).
  assert (Open (fresh memory_approvals) a0 = Ok m) as -> by done. cbn [updated fst snd is_ok run].
  assert (lasts T0 a0) as Hlast by (by eapply lasts_from).
  destruct (signers_served clock approvalSetRace a0 (map signer_name (seq 0 approvers))) with (schedule := schedule) (m := m) (n := S (S (S (S start))))
    as (xs & m' & n' & won & a & Hrun & Hnd & Hlen & Hc & Hserved & Ha & Hso).
  - apply (bool_decide_unpack _). by vm_compute.
  - apply (bool_decide_unpack _). by vm_compute.
  - intros n. by apply Hlast.
  - apply (lookup_insert_eq (∅ : gmap string Approval)).
  - done.
  - done.
  - done.
  - assert (length won = 3) as H3 by (rewrite Hlen; vm_compute; reflexivity). race_is Hrun. rewrite Hc, H3.
    change (Z.of_nat 3 =? required)%Z with true. cbn [negb].
    unfold must_Get. rewrite approvals_run_call. cbn [memory_handle fst snd].
    pose proof (ss_state _ _ _ _ Hso) as Hst. rewrite decide_False in Hst by (rewrite H3; change (needed a0) with 3; lia).
    destruct Hst as [Hst _]. unfold Get. rewrite Ha, Hst. change (ApprovalApproved =s? ApprovalPending) with false. cbn [andb].
    rewrite Hst, eqs_refl. cbn [negb].
    assert (Signatories a = map (name_of (map signer_name (seq 0 approvers))) won) as Hsig.
    { rewrite <- (ss_names _ _ _ _ Hso). unfold Signatories, CollectedSignatures. destruct (ap_Signatures a) eqn:E; [|done].
      pose proof (ss_names _ _ _ _ Hso) as Hn. rewrite E in Hn. by destruct won. }
    rewrite Hsig, length_map, H3. change (Z.of_nat 3 =? required)%Z with true. cbn [negb].
    rewrite (proj2 (twice_false _)) by (apply names_of_distinct; [apply (bool_decide_unpack _); by vm_compute|done|apply Hserved]).
    unfold try_Sign. rewrite approvals_run_clock, approvals_run_call. cbn [memory_handle].
    rewrite (signs_too_late approvalSetRace a0 _ _ _ _ _ Hserved); [done|]. rewrite H3. done.
Qed.

Lemma without_a_clock name t : (name, t) ∈ approvals_suite → verdict_of clockless_approvals clock schedule start t = Passed → passes t.
Proof.
  intros H <-. apply (verdict_sim approvals_same (during T0) (lasting T0) (clockless_in_step T0) clock in_a_day).
  by apply (approvals_suite_is_insensitive T0 name).
Qed.

(** It asks for times that are not zero. *)
Lemma lastSignatureDecides_passes : passes lastSignatureDecides.
Proof.
  apply (without_a_clock "the completing signature decides the record"); [by do 7 right; left|].
  assert (clock = λ n, Z.pos (Z.to_pos (clock n))) as ->.
  { apply functional_extensionality. intros n. destruct (in_a_day n) as [Hn _]. rewrite Z2Pos.id; [done|lia]. }
  vm_compute. reflexivity.
Qed.

(** The rest evaluate on the store without a clock. *)
Lemma approvals_memory_passes name t : (name, t) ∈ approvals_suite → passes t.
Proof.
  intros H. pose proof (without_a_clock name t H) as Hsim. unfold approvals_suite in H.
  repeat (apply elem_of_cons in H as [[= -> ->]|H];
   [first [exact onlyOneWins_passes|exact exactlyTheRequiredNumberWin_passes|exact lastSignatureDecides_passes
          |apply Hsim; vm_compute; reflexivity]|]).
  by apply not_elem_of_nil in H.
Qed.
End approvals_memory_passes.

(** The suite never fails a store that keeps the contract, and cannot see beyond it.
    Take any store that, for the approvals that outlive the run, answers every call as the
    store in memory does, in one atomic step, up to the wording of its refusals and the order
    of its lists: run within a day, it passes every case, however the sixteen goroutines of
    the two races are scheduled. Among these is a store that never looks at the clock, whose
    approvals can be signed and decided at any time after they expired. *)
Theorem contract_stores_pass_approvalstest (J : Implementation approvals_call approvals_answer) R clock T0 schedule start name t :
  in_step approvals_same (during T0) (lasting T0) memory_approvals J R →
  (0 < T0)%Z → (∀ n, during T0 (clock n)) →
  (name, t) ∈ approvals_suite →
  verdict_of J clock schedule start t = Passed ∧ verdict_of clockless_approvals clock schedule start t = Passed.
Proof.
  intros Hstep Hpos Hday Hin. split.
  - rewrite <- (verdict_sim approvals_same _ _ Hstep clock Hday); [by apply (approvals_memory_passes _ T0 Hpos Hday _ _ name)|].
    by apply (approvals_suite_is_insensitive T0 name).
  - rewrite <- (verdict_sim approvals_same _ _ (clockless_in_step T0) clock Hday); [by apply (approvals_memory_passes _ T0 Hpos Hday _ _ name)|].
    by apply (approvals_suite_is_insensitive T0 name).
Qed.

(** ** Other stores *)

(** A store that cannot collect signatures: the cases about sets are skipped. *)
Definition deciding_only : Implementation approvals_call approvals_answer :=
  mkImplementation (gmap string Approval) ∅
    (λ c, atomic (λ now m, match c return approvals_answer c * gmap string Approval with ASigner => (false, m) | c => memory_handle c now m end)).

(** Signing without the lock: the record is read, checked and extended, and then written. *)
Definition unlocked_handle (c : approvals_call) : Op (gmap string Approval) (approvals_answer c) :=
  match c with
  | ASign id s =>
      Step (λ _ m, m) (λ now m,
        match Sign m now id s with
        | Ok (_, a) => Step (λ _ m, <[id := a]> m) (λ _ _, Done (Ok a))
        | Err e => Done (Err e)
        end)
  | c => atomic (memory_handle c)
  end.
Definition unlocked_store : Implementation approvals_call approvals_answer :=
  mkImplementation (gmap string Approval) ∅ unlocked_handle.

(** A reading a second, for a thousand readings. *)
Definition every_second (n : nat) : Time := (hour + Z.of_nat (n `min` 1000) * second)%Z.
Definition verdict_names (I : Implementation approvals_call approvals_answer) (schedule : list nat) : list string :=
  map fst (List.filter (λ r, match r.2 with Passed => false | _ => true end) (verdicts I every_second schedule 0 approvals_suite)).

(** Two signers who overlap lose a signature; taking turns they do not. *)
Example the_suite_needs_a_schedule :
  verdict_names unlocked_store [] = [] ∧
  verdict_names unlocked_store [0; 1; 0; 1; 0; 1] =
    ["concurrent distinct signers fill EXACTLY the required number of slots"].
Proof. split; vm_compute; reflexivity. Qed.

Example sets_are_skipped : length (verdict_names deciding_only []) = 6.
Proof. vm_compute. reflexivity. Qed.

(** What the suite does not see: a signature two days after the request expired. *)
Example clockless_signs_an_expired_request :
  verdict_names clockless_approvals [] = [] ∧
  let m := {["AP" := needing "AP" "payments" 1 1 1]} in
  is_ok (clockless_handle (ASign "AP" (signedBy approverBob (3 * day)%Z)) m).1 = true ∧
  (memory_handle (ASign "AP" (signedBy approverBob (3 * day)%Z)) (3 * day)%Z m).1 = Err ErrApprovalNotPending.
Proof. split; [vm_compute; reflexivity|]. intros m. split; vm_compute; reflexivity. Qed.

(** Four people for three signatures, out of turn. *)
Definition demo_names : list string := ["ann"; "bob"; "cat"; "dan"].
Definition demo_waiting : Approval := needing "AP" "payments" 3 1 (1 + hour)%Z.

Lemma every_second_within n : (hour ≤ every_second n < hour + hour)%Z.
Proof.
  unfold every_second. assert (second = 1000000000%Z) as -> by done. assert (hour = 3600000000000%Z) as -> by done. lia.
Qed.

Lemma enough_signers_always_release_witness :
  let r := run_race memory_approvals every_second [3; 1; 3; 0; 2; 0; 2] (map (signs "AP") demo_names) ({["AP" := demo_waiting]}, 0) in
  r.1 = [true; false; true; true] ∧
  ∃ xs (m' : gmap string Approval) n' a, r = (xs, (m', n')) ∧ m' !! "AP" = Some a ∧ ap_State a = ApprovalApproved.
Proof.
  split; [by vm_compute|].
  destruct (enough_signers_always_release every_second "AP" demo_waiting demo_names [3; 1; 3; 0; 2; 0; 2] {["AP" := demo_waiting]} 0)
    as (xs & m' & n' & a & Hrun & Ha & _ & _ & _ & _ & _ & Hst).
  - apply (bool_decide_unpack _). by vm_compute.
  - apply (bool_decide_unpack _). by vm_compute.
  - intros n. pose proof (every_second_within n). unfold demo_waiting. cbn [ap_ExpiresAt needing].
    assert (day = 24 * hour)%Z as -> by done. assert (0 < hour)%Z by done. lia.
  - reflexivity.
  - reflexivity.
  - reflexivity.
  - reflexivity.
  - exists xs, m', n', a. split; [exact Hrun|]. split; [exact Ha|]. exact (proj1 Hst).
Defined.

Lemma contract_stores_pass_approvalstest_witness :
  verdict_names memory_approvals [3; 3; 5] = [] ∧
  verdict_of clockless_approvals every_second [] 0 lastSignatureDecides = Passed.
Proof.
  split; [vm_compute; reflexivity|].
  refine (proj2 (contract_stores_pass_approvalstest memory_approvals eq every_second hour [] 0 "the completing signature decides the record" _ _ _ _ _)).
  - split; [reflexivity|]. intros c _. apply op_sim_atomic. intros t m m' _ <-. split; [|reflexivity].
    destruct c; cbn [approvals_same]; first [apply result_same_refl; reflexivity|reflexivity].
  - reflexivity.
  - intros n. unfold during. pose proof (every_second_within n). assert (day = 24 * hour)%Z as -> by done. assert (0 < hour)%Z by done. lia.
  - do 7 right. left.
Defined.
