(* ===== verification/Admissions.v ===== *)
(** Which app may be in which environment: [mantlekeep-estate/admission.go], the in-memory
    store [admission_memory.go], the refusal [admission_refusal.go], the governed acts
    [admission_onboarding.go] and the check before the door [admission_before_door.go].

    Every store operation holds the store's lock, so it is one atomic step that takes the
    clock's reading. The zero time is 0; [time.Format] is an argument, since only a refusal's
    wording uses it. *)
From S2P Require Import Prelude Contracts EstateFloor Placement Manifest EstateResolve.

(** ** Records *)

Notation AdmissionState := string (only parsing).
Definition AdmissionAdmitted : AdmissionState := "admitted".
Definition AdmissionRevoked : AdmissionState := "revoked".
Definition AdmissionExpired : AdmissionState := "expired".

Record Admission := mkAdmission {
  ad_Team : string;
  ad_App : string;
  ad_Env : string;
  ad_State : AdmissionState;
  ad_Reason : string;
  ad_Reference : string;
  ad_DecidedBy : string;
  ad_DecidedAt : Time;
  ad_ExpiresAt : Time;
}.

Definition IsZero (t : Time) : bool := (t =? 0)%Z.

Definition Admission_Admitted (a : Admission) (now : Time) : bool :=
  if negb (ad_State a =s? AdmissionAdmitted) then false
  else IsZero (ad_ExpiresAt a) || (now <? ad_ExpiresAt a)%Z.

Definition lapsed (a : Admission) (now : Time) : bool :=
  if ad_State a =s? AdmissionExpired then true
  else (ad_State a =s? AdmissionAdmitted) && negb (IsZero (ad_ExpiresAt a)) &&
       negb (now <? ad_ExpiresAt a)%Z.

(** [*NotAdmitted], which wraps its cause. *)
Record NotAdmitted := mkNotAdmitted {
  na_Team : string;
  na_App : string;
  na_Env : string;
  na_Reason : string;
  na_Reference : string;
  na_Cause : string;
}.

Inductive admission_error :=
| ErrAdmissionNotFound
| ErrAlreadyAdmitted
| ErrNothingToRevoke
| ErrAdmissionUnattributable (what : string)
| EStore (e : string)
| ENotAdmitted (n : NotAdmitted)
| EDoor (action : string) (e : go_error).

Definition Admission_Validate (a : Admission) : result admission_error unit :=
  refuse (ad_Team a =s? "") || (ad_App a =s? "") || (ad_Env a =s? "")
    with ErrAdmissionUnattributable "team, app, environment" ;
  refuse ad_Reference a =s? "" with ErrAdmissionUnattributable "reference" ;
  refuse ad_DecidedBy a =s? "" with ErrAdmissionUnattributable "decided by" ;
  refuse ad_Reason a =s? "" with ErrAdmissionUnattributable "reason" ;
  Ok tt.

(** ** The store in memory *)

Notation MemoryAdmissions := (gmap string Admission) (only parsing).

Definition admissionKey (team app env : string) : string := team +:+ "/" +:+ app +:+ "@" +:+ env.
Definition key_of (a : Admission) : string := admissionKey (ad_Team a) (ad_App a) (ad_Env a).

Definition with_admission_state (a : Admission) (state : AdmissionState) : Admission :=
  mkAdmission (ad_Team a) (ad_App a) (ad_Env a) state (ad_Reason a) (ad_Reference a)
    (ad_DecidedBy a) (ad_DecidedAt a) (ad_ExpiresAt a).

Definition Admissions_Get (m : MemoryAdmissions) (now : Time) (team app env : string)
    : result admission_error Admission :=
  match m !! admissionKey team app env with
  | None => Err ErrAdmissionNotFound
  | Some record =>
      if lapsed record now then Ok (with_admission_state record AdmissionExpired) else Ok record
  end.

Definition Admit (m : MemoryAdmissions) (now : Time) (admission : Admission)
    : result admission_error MemoryAdmissions :=
  _ <-? Admission_Validate admission ;
  let key := key_of admission in
  refuse match m !! key with Some current => Admission_Admitted current now | None => false end
    with ErrAlreadyAdmitted ;
  Ok (<[key := with_admission_state admission AdmissionAdmitted]> m).

Definition Revoke (m : MemoryAdmissions) (now : Time) (admission : Admission)
    : result admission_error MemoryAdmissions :=
  _ <-? Admission_Validate admission ;
  let key := key_of admission in
  match m !! key with
  | None => Err ErrAdmissionNotFound
  | Some current =>
      refuse negb (Admission_Admitted current now) with ErrNothingToRevoke ;
      Ok (<[key := with_admission_state admission AdmissionRevoked]> m)
  end.

Definition admitted_in (now : Time) (env : string) (record : Admission) : bool :=
  if negb (Admission_Admitted record now) then false
  else negb (negb (env =s? "") && negb (ad_Env record =s? env)).

Definition by_key (a b : Admission) : Prop := String.le (key_of a) (key_of b).
#[export] Instance by_key_dec a b : base.Decision (by_key a b).
Proof. unfold by_key. apply _. Defined.

Definition AdmittedIn (m : MemoryAdmissions) (now : Time) (env : string) : list Admission :=
  merge_sort by_key (List.filter (admitted_in now env) (map snd (map_to_list m))).

(** ** The check *)

(** What [errors.Is] sees of the store's answer: not found, or any other error. *)
Inductive store_answer :=
| Found (record : Admission)
| NotFound
| Unreachable (e : string).

Definition answer_of (r : result admission_error Admission) : store_answer :=
  match r with
  | Ok record => Found record
  | Err ErrAdmissionNotFound => NotFound
  | Err (EStore e) => Unreachable e
  | Err _ => Unreachable ""
  end.

Section Check.
(** [time.Format(time.RFC3339)] *)
Context (Format : Time → string).

Definition NotAdmitted_Error (n : NotAdmitted) : string :=
  let where_ := na_Team n +:+ "/" +:+ na_App n +:+ " is not admitted to environment " +:+ Quote (na_Env n) in
  if na_Reference n =s? "" then
    "estate: " +:+ where_ +:+ ": " +:+ na_Reason n +:+ " — admitting an app to an environment is itself a " +:+
    "governed act, so ask the platform to admit it and the record id it creates becomes " +:+
    "the reference for this app"
  else
    "estate: " +:+ where_ +:+ ": " +:+ na_Reason n +:+ " (reference " +:+ na_Reference n +:+
    ") — quote that reference to whoever owns " +:+ "this environment".

Definition ErrNotAdmitted : string := "estate: this app is not admitted to this environment".
Definition ErrAdmissionStoreUnreachable : string :=
  "estate: the admission store could not be reached, so admission cannot be confirmed".

(** [store] is [None] when none is configured; [Get] is asked for the record, and the clock
    is read again afterwards. [None] is admitted. *)
Definition RequireAdmission (Get : option (string → string → string → store_answer)) (now : Time)
    (team app env : string) : option NotAdmitted :=
  match Get with
  | None => Some (mkNotAdmitted team app env
      ("no admission store is configured, so no app can be confirmed as onboarded " +:+
       "anywhere — this refuses rather than waving everything through") "" ErrAdmissionStoreUnreachable)
  | Some get =>
      if env =s? "" then
        Some (mkNotAdmitted team app env
          "this change names no environment, so there is nothing to check it against" "" ErrNotAdmitted)
      else
        match get team app env with
        | NotFound => Some (mkNotAdmitted team app env
            "this app has never been onboarded to this environment" ""
            "estate: no admission record for this app in this environment")
        | Unreachable e => Some (mkNotAdmitted team app env
            ("the admission store could not answer (" +:+ e +:+ "), and an " +:+
             "unconfirmed admission is refused rather than assumed") "" ErrAdmissionStoreUnreachable)
        | Found record =>
            if Admission_Admitted record now then None
            else
              let reason :=
                if lapsed record now
                then "its admission lapsed at " +:+ Format (ad_ExpiresAt record) +:+
                     " and was not renewed; it was granted " +:+ "because: " +:+ ad_Reason record
                else ad_Reason record in
              Some (mkNotAdmitted team app env reason (ad_Reference record) ErrNotAdmitted)
        end
  end.

(** The environment a change lands in; [None] is not governed by admission. *)
Definition admissionEnvironmentOf (change : DesiredItem) : option string :=
  if negb (di_Asset change =s? "app") then None
  else match di_Placement change with
       | None => Some ""
       | Some placement => Some (pd_Env placement)
       end.

(** [AdmissionCheck.Transform]: the change untouched, or the refusal's text. *)
Definition AdmissionCheck_Transform (Get : option (string → string → string → store_answer))
    (now : Time) (team : string) (change : DesiredItem) : result string DesiredItem :=
  match admissionEnvironmentOf change with
  | None => Ok change
  | Some env =>
      match RequireAdmission Get now team (di_Name change) env with
      | Some refusal => Err (NotAdmitted_Error refusal)
      | None => Ok change
      end
  end.
End Check.

(** ** Admitting and revoking *)

Definition admissionActionAdmit : string := "estate.admit".
Definition admissionActionRevoke : string := "estate.revoke".

Definition admissionIntent (admission : Admission) (action : string) (gatekeeper : Subject) : Intent := {|
  int_ID := "ADMIT-" +:+ ad_Team admission +:+ "-" +:+ ad_App admission +:+ "-" +:+ ad_Env admission +:+
            "-" +:+ Itoa (UnixNano (ad_DecidedAt admission));
  int_Subject := gatekeeper;
  int_Action := action;
  int_Resource := "team/" +:+ ad_Team admission;
  int_Spec := mkIntentSpec (action +:+ " " +:+ ad_Team admission +:+ "/" +:+ ad_App admission +:+
                " in environment " +:+ Quote (ad_Env admission)) [] "" [] [] "";
  int_Params := {["app" := VString (ad_App admission); "env" := VString (ad_Env admission);
                  "reference" := VString (ad_Reference admission);
                  "reason" := VString (ad_Reason admission); "scope" := VString (ad_Team admission)]};
  int_SubmittedAt := ad_DecidedAt admission;
  int_TTL := (5 * minute)%Z;
  int_Via := "";
|}.

Section Onboarding.
(** The door, and the world it and the store live in. *)
Context {W : Type} (Submit : Intent → W → result go_error ExecutionToken * W).

Definition attributed (admission : Admission) (gatekeeper : Subject) (now : Time) : Admission :=
  mkAdmission (ad_Team admission) (ad_App admission) (ad_Env admission) (ad_State admission)
    (ad_Reason admission) (ad_Reference admission) (sub_ID gatekeeper) now (ad_ExpiresAt admission).

Definition governedAdmissionChange (gatekeeper : Subject) (admission : Admission) (action : string)
    (write : Admission → W → result admission_error unit * W) (now : Time) (w : W)
    : result admission_error unit * W :=
  let admission := attributed admission gatekeeper now in
  match Admission_Validate admission with
  | Err e => (Err e, w)
  | Ok _ =>
      match Submit (admissionIntent admission action gatekeeper) w with
      | (Err e, w) => (Err (EDoor action e), w)
      | (Ok _, w) => write admission w
      end
  end.

Definition AdmitApp (store_Admit : Admission → W → result admission_error unit * W)
    (gatekeeper : Subject) (admission : Admission) (now : Time) (w : W) :=
  governedAdmissionChange gatekeeper admission admissionActionAdmit store_Admit now w.

Definition RevokeApp (store_Revoke : Admission → W → result admission_error unit * W)
    (gatekeeper : Subject) (admission : Admission) (now : Time) (w : W) :=
  governedAdmissionChange gatekeeper admission admissionActionRevoke store_Revoke now w.
End Onboarding.

(** ** Runs of the store *)

Inductive act := OAdmit (a : Admission) | ORevoke (a : Admission).
Definition act_record (o : act) : Admission := match o with OAdmit a | ORevoke a => a end.

(** The store after an act that is accepted at this reading of the clock. *)
Definition perform (m : MemoryAdmissions) (e : Time * act) : result admission_error MemoryAdmissions :=
  match e.2 with OAdmit a => Admit m e.1 a | ORevoke a => Revoke m e.1 a end.
Definition act_step (m : MemoryAdmissions) (e : Time * act) : MemoryAdmissions :=
  match perform m e with Ok m => m | Err _ => m end.
Definition act_run (ops : list (Time * act)) (m : MemoryAdmissions) : MemoryAdmissions :=
  foldl act_step m ops.

(** The check against the in-memory store: [Get], then the gate, at one reading. *)
Definition check_memory (Format : Time → string) (m : MemoryAdmissions) (now : Time)
    (team app env : string) : option NotAdmitted :=
  RequireAdmission Format (Some (λ team app env, answer_of (Admissions_Get m now team app env)))
    now team app env.

(** ** Lemmas *)

Lemma admissionKey_inj t a e t' a' e' :
  char_in "/" t = false → char_in "/" t' = false → char_in "@" a = false → char_in "@" a' = false →
  admissionKey t a e = admissionKey t' a' e' → (t, a, e) = (t', a', e').
Proof.
  intros Ht Ht' Ha Ha' H. unfold admissionKey in H.
  apply (append_cancel_sep "/" t t') in H as [-> H]; [|done|done].
  by apply (append_cancel_sep "@" a a') in H as [-> ->].
Qed.

Lemma Admitted_true a now :
  Admission_Admitted a now = true ↔
  ad_State a = AdmissionAdmitted ∧ (ad_ExpiresAt a = 0 ∨ now < ad_ExpiresAt a)%Z.
Proof.
  unfold Admission_Admitted, IsZero. destruct (ad_State a =s? AdmissionAdmitted) eqn:E; simpl.
  - apply eqs_true in E. rewrite orb_true_iff, Z.eqb_eq, Z.ltb_lt. tauto.
  - apply eqs_false in E. split; [done|]. by intros [? _].
Qed.

Lemma check_memory_None Format m now t a e :
  check_memory Format m now t a e = None ↔
  e ≠ "" ∧ ∃ r, m !! admissionKey t a e = Some r ∧ Admission_Admitted r now = true.
Proof.
  unfold check_memory, RequireAdmission. destruct (e =s? "") eqn:E.
  { apply eqs_true in E. split; [done|]. by intros [? _]. }
  apply eqs_false in E. unfold Admissions_Get. destruct (m !! _) as [r|]; [|split; [done|by intros (_ & ? & ? & _)]].
  assert (Hl : lapsed r now = true → Admission_Admitted r now = false).
  { unfold lapsed, Admission_Admitted. destruct (ad_State r =s? AdmissionExpired) eqn:Ex.
    - apply eqs_true in Ex. by rewrite Ex.
    - destruct (ad_State r =s? AdmissionAdmitted); [|done]. simpl.
      destruct (IsZero _); [done|]. simpl. by destruct (_ <? _)%Z. }
  destruct (lapsed r now) eqn:El; cbn [answer_of].
  - specialize (Hl eq_refl).
    assert (Admission_Admitted (with_admission_state r AdmissionExpired) now = false) as -> by done. split; [done|]. intros (_ & ? & [= <-] & ?). congruence.
  - destruct (Admission_Admitted r now) eqn:Ea; split; try done.
    + intros _. split; [done|]. by exists r.
    + intros (_ & ? & [= <-] & ?). congruence.
Qed.

Lemma perform_Ok m e m' :
  perform m e = Ok m' →
  ∃ r, m' = <[key_of (act_record e.2) := r]> m ∧ Admission_Validate (act_record e.2) = Ok tt ∧
    r = with_admission_state (act_record e.2)
          (match e.2 with OAdmit _ => AdmissionAdmitted | ORevoke _ => AdmissionRevoked end).
Proof.
  destruct e as [now [a|a]]; unfold perform, Admit, Revoke; simpl; rewrite rbind_Ok; intros ([] & Hv & H).
  - apply refuse_Ok in H as [_ [= <-]]. by eexists.
  - destruct (m !! key_of a); [|done]. apply refuse_Ok in H as [_ [= <-]]. by eexists.
Qed.

(** The last act the store accepted on a key. *)
Inductive last_accepted (m0 : MemoryAdmissions) (ops : list (Time * act)) (key : string)
    : Time * act → Prop :=
| last_accepted_at pre e post :
    ops = pre ++ e :: post → key_of (act_record e.2) = key →
    is_ok (perform (act_run pre m0) e) = true →
    (∀ p e' q, post = p ++ e' :: q → key_of (act_record e'.2) = key →
       is_ok (perform (act_run (pre ++ e :: p) m0) e') = false) →
    last_accepted m0 ops key e.

Lemma act_run_snoc ops e m : act_run (ops ++ [e]) m = act_step (act_run ops m) e.
Proof. unfold act_run. by rewrite foldl_app. Qed.

Lemma last_accepted_snoc m0 ops x key e :
  (is_ok (perform (act_run ops m0) x) = false ∨ key_of (act_record x.2) ≠ key) →
  last_accepted m0 ops key e → last_accepted m0 (ops ++ [x]) key e.
Proof.
  intros Hx [pre e' post -> Hk Hok Hno]. apply (last_accepted_at _ _ _ pre e' (post ++ [x])); try done.
  { by rewrite <- app_assoc. }
  intros p e2 q Heq Hk2. destruct q as [|y q _] using rev_ind.
  - apply app_inj_tail in Heq as [-> ->]. by destruct Hx as [?|?].
  - rewrite app_comm_cons, app_assoc in Heq. apply app_inj_tail in Heq as [Heq _].
    by apply (Hno p e2 q).
Qed.

Lemma last_accepted_unsnoc m0 ops x key e :
  (is_ok (perform (act_run ops m0) x) = false ∨ key_of (act_record x.2) ≠ key) →
  last_accepted m0 (ops ++ [x]) key e → last_accepted m0 ops key e.
Proof.
  intros Hx [pre e' post Heq Hk Hok Hno]. destruct post as [|y post _] using rev_ind.
  - apply app_inj_tail in Heq as [-> ->]. destruct Hx as [Hx|?]; [|done]. by rewrite Hx in Hok.
  - rewrite app_comm_cons, app_assoc in Heq. apply app_inj_tail in Heq as [-> ->].
    apply (last_accepted_at _ _ _ pre e' post); try done.
    intros p e2 q -> Hk2. apply (Hno p e2 (q ++ [y])); [|done]. by rewrite <- app_assoc.
Qed.

Lemma act_run_lookup ops key r :
  act_run ops ∅ !! key = Some r ↔
  ∃ e, last_accepted ∅ ops key e ∧
    r = with_admission_state (act_record e.2)
          (match e.2 with OAdmit _ => AdmissionAdmitted | ORevoke _ => AdmissionRevoked end).
Proof.
  induction ops as [|x ops IH] using rev_ind.
  - split; [done|]. intros (e & [pre e' post H _ _ _] & _). by destruct pre.
  - rewrite act_run_snoc. unfold act_step.
    destruct (perform (act_run ops ∅) x) as [m'|err] eqn:Hp.
    + destruct (perform_Ok _ _ _ Hp) as (r' & -> & _ & Hr').
      destruct (decide (key_of (act_record x.2) = key)) as [Hk|Hk].
      * subst key. rewrite lookup_insert_eq. split.
        -- intros [= <-]. exists x. split; [|done]. apply (last_accepted_at _ _ _ ops x []); try done.
           { by rewrite Hp. } by intros [] ? ?.
        -- intros (e & [pre e' post Heq Hk Hok Hno] & ->). f_equal.
           destruct post as [|y post _] using rev_ind.
           ++ by apply app_inj_tail in Heq as [_ <-].
           ++ rewrite app_comm_cons, app_assoc in Heq. apply app_inj_tail in Heq as [-> ->].
              specialize (Hno post y [] eq_refl eq_refl). by rewrite Hp in Hno.
      * rewrite lookup_insert_ne by done. rewrite IH. split; intros (e & He & ->); exists e; (split; [|done]).
        -- apply last_accepted_snoc; [by right|done].
        -- eapply last_accepted_unsnoc; [by right|done].
    + rewrite IH. split; intros (e & He & ->); exists e; (split; [|done]).
      * apply last_accepted_snoc; [left; by rewrite Hp|done].
      * eapply last_accepted_unsnoc; [left; by rewrite Hp|done].
Qed.

Definition plain (s : string) : Prop := char_in "/" s = false ∧ char_in "@" s = false.

(** An app is let through exactly on the gatekeepers' last word. Against the in-memory
    store after any acts at any readings of the clock, the check before the door lets an
    app into an environment if and only if the environment is named and the last act the
    store accepted on that team, app and environment admitted it, attributed to someone,
    with a reason and a reference, and has not lapsed; a revoked, lapsed or never admitted
    app is refused. Names with a slash or an at sign could share a record, so the acts'
    teams and apps have none, as a valid manifest's names have none. *)
Theorem admission_is_the_last_word Format ops now team app env :
  plain team → plain app →
  (∀ e, e ∈ ops → plain (ad_Team (act_record e.2)) ∧ plain (ad_App (act_record e.2))) →
  check_memory Format (act_run ops ∅) now team app env = None ↔
  env ≠ "" ∧ ∃ t a, last_accepted ∅ ops (admissionKey team app env) (t, OAdmit a) ∧
    (ad_Team a, ad_App a, ad_Env a) = (team, app, env) ∧
    (ad_ExpiresAt a = 0 ∨ now < ad_ExpiresAt a)%Z ∧
    ad_Reason a ≠ "" ∧ ad_Reference a ≠ "" ∧ ad_DecidedBy a ≠ "".
Proof.
  intros Ht Ha Hops. rewrite check_memory_None. apply and_iff_compat_l.
  setoid_rewrite act_run_lookup. split.
  - intros (r & ([t o] & He & ->) & Had%Admitted_true). destruct o as [a|a]; [|by destruct Had].
    destruct Had as [_ Hexp]. exists t, a. split; [done|]. inversion He as [pre e post Heq Hk Hok _ Hee]. subst.
    split; [|split; [done|]].
    + destruct (Hops (t, OAdmit a)) as [[] []]; [apply elem_of_app; right; by left|].
      destruct Ht, Ha. by apply admissionKey_inj.
    + destruct (perform _ _) as [m'|] eqn:Hp; [|done]. apply perform_Ok in Hp as (_ & _ & Hv & _).
      unfold Admission_Validate in Hv. rewrite !refuse_Ok, !eqs_false in Hv. tauto.
  - intros (t & a & He & _ & Hexp & _). eexists. split; [by exists (t, OAdmit a)|].
    by apply Admitted_true.
Qed.

(** Only a decision of the door changes who is admitted. [AdmitApp] and [RevokeApp]
    write to the store only after the door returned a token for the intent that names this
    very team, app, environment, reason and reference, by the gatekeeper it names as the
    decider; the record written is attributed to that gatekeeper. A refusal of the door, or
    an admission nobody could be asked about, writes nothing. *)
Theorem admission_change_needs_a_decision {W} (Submit : Intent → W → result go_error ExecutionToken * W)
    write gatekeeper admission action now w r w' :
  governedAdmissionChange Submit gatekeeper admission action write now w = (r, w') →
  let decided := attributed admission gatekeeper now in
  (∃ token w1, Submit (admissionIntent decided action gatekeeper) w = (Ok token, w1) ∧
     write decided w1 = (r, w') ∧ ad_DecidedBy decided = sub_ID gatekeeper ∧
     Admission_Validate decided = Ok tt) ∨
  (∃ e, Submit (admissionIntent decided action gatekeeper) w = (Err e, w') ∧ r = Err (EDoor action e)) ∨
  (w' = w ∧ ∃ e, Admission_Validate decided = Err e ∧ r = Err e).
Proof.
  intros H decided. unfold governedAdmissionChange in H. fold decided in H.
  destruct (Admission_Validate decided) as [[]|e] eqn:Hv.
  - destruct (Submit _ w) as [[token|e] w1] eqn:Hs.
    + left. by exists token, w1.
    + right; left. injection H as <- <-. by exists e.
  - right; right. injection H as <- <-. split; [done|]. by exists e.
Qed.

Definition demo_admission (reason : string) : Admission :=
  mkAdmission "payments" "pay-api" "prod" "" reason "CHG-1" "carol" 1 50.

(** An unquoted separator: two triples, one record. *)
Example admissionKey_collides :
  admissionKey "a/b" "c" "prod" = admissionKey "a" "b/c" "prod" ∧
  admissionKey "a" "b" "c@d" = admissionKey "a" "b@c" "d".
Proof. by vm_compute. Qed.

Definition demo_acts : list (Time * act) :=
  [(1, OAdmit (demo_admission "x")); (2, OAdmit (demo_admission "again")); (60, OAdmit (demo_admission "late"));
   (61, ORevoke (demo_admission "stop"))]%Z.

Lemma admission_is_the_last_word_witness :
  check_memory (λ _, "") (act_run (take 2 demo_acts) ∅) 10 "payments" "pay-api" "prod" = None ∧
  ∃ t a, last_accepted ∅ (take 2 demo_acts) (admissionKey "payments" "pay-api" "prod") (t, OAdmit a).
Proof.
  assert (H : check_memory (λ _, "") (act_run (take 2 demo_acts) ∅) 10 "payments" "pay-api" "prod" = None)
    by (vm_compute; reflexivity).
  split; [exact H|].
  destruct (proj1 (admission_is_the_last_word (λ _, "") (take 2 demo_acts) 10 "payments" "pay-api" "prod"
    ltac:(by vm_compute) ltac:(by vm_compute)
    ltac:(intros e He; repeat (apply elem_of_cons in He as [->|He]; [by vm_compute|]);
          by apply not_elem_of_nil in He)) H) as (_ & t & a & Hl & _).
  exists t, a. exact Hl.
Defined.

Lemma admission_change_needs_a_decision_witness :
  let door := λ (i : Intent) (w : list string), (@Ok go_error _ (mkExecutionToken "tok" (int_ID i) "" "" 0 9), w) in
  let write := λ (a : Admission) w, (@Ok admission_error _ tt, ad_DecidedBy a :: w) in
  let gatekeeper := mkSubject "carol" [] [] false ∅ in
  governedAdmissionChange door gatekeeper (demo_admission "x") admissionActionAdmit write 1 [] = (Ok tt, ["carol"]) ∧
  ∃ token w1, door (admissionIntent (attributed (demo_admission "x") gatekeeper 1) admissionActionAdmit gatekeeper) []
    = (Ok token, w1).
Proof.
  intros door write gatekeeper. split; [reflexivity|].
  destruct (admission_change_needs_a_decision door write gatekeeper (demo_admission "x")
    admissionActionAdmit 1 [] (Ok tt) ["carol"] eq_refl) as [(token & w1 & Hs & _)|[(e & Hs & _)|(Hw & _)]].
  - exists token, w1. exact Hs.
  - discriminate Hs.
  - discriminate Hw.
Defined.
