(* ===== verification/AdmissionTest.v ===== *)
(** The conformance suite of admission stores: [mantlekeep-estate/admissiontest].

    Every case is a test of [Conformance], with the readings of the clock where the code
    takes them. The store in memory passes it, and so does every store in step with it,
    under any schedule of the sixteen gatekeepers. *)
From S2P Require Import Prelude Contracts EstateFloor Placement Manifest EstateResolve Admissions Conformance.

(** ** The interface *)

Inductive admissions_call :=
| CGet (team app env : string)
| CAdmit (a : Admission)
| CRevoke (a : Admission)
| CAdmittedIn (env : string).

Definition admissions_answer (c : admissions_call) : Type :=
  match c with
  | CGet _ _ _ => result admission_error Admission
  | CAdmit _ | CRevoke _ => result admission_error unit
  | CAdmittedIn _ => result admission_error (list Admission)
  end.

Notation admission_test := (test admissions_call admissions_answer).

Definition not_found (e : admission_error) : bool := match e with ErrAdmissionNotFound => true | _ => false end.
Definition already_admitted (e : admission_error) : bool := match e with ErrAlreadyAdmitted => true | _ => false end.
Definition nothing_to_revoke (e : admission_error) : bool := match e with ErrNothingToRevoke => true | _ => false end.
Definition unattributable (e : admission_error) : bool := match e with ErrAdmissionUnattributable _ => true | _ => false end.
(** [errors.Is] of what a call returned. *)
Definition fails {A} (kind : admission_error → bool) (r : result admission_error A) : bool :=
  match r with Ok _ => false | Err e => kind e end.

(** ** conformance.go *)

Definition wrapAdmitting : string := "admitting: %v".
Definition wrapReading : string := "reading back: %v".
Definition litRevoking : string := "revoking: %v".
Definition appCheckout : string := "payments-checkout".
Definition appSpike : string := "payments-spike".

Definition admitted (team app env : string) (now : Time) : Admission :=
  mkAdmission team app env AdmissionAdmitted ("onboarded with the platform team for the " +:+ env +:+ " footprint")
    ("CHG-" +:+ env +:+ "-4471") "platform-dana" now 0.

Definition revoked (team app env : string) (now : Time) : Admission :=
  mkAdmission team app env AdmissionRevoked "decommissioned when the service moved to the new ledger"
    ("CHG-" +:+ env +:+ "-9902") "platform-dana" now 0.

Definition with_reference (a : Admission) (reference : string) : Admission :=
  mkAdmission (ad_Team a) (ad_App a) (ad_Env a) (ad_State a) (ad_Reason a) reference (ad_DecidedBy a) (ad_DecidedAt a) (ad_ExpiresAt a).
Definition with_reason (a : Admission) (reason : string) : Admission :=
  mkAdmission (ad_Team a) (ad_App a) (ad_Env a) (ad_State a) reason (ad_Reference a) (ad_DecidedBy a) (ad_DecidedAt a) (ad_ExpiresAt a).
Definition with_decider (a : Admission) (decider : string) : Admission :=
  mkAdmission (ad_Team a) (ad_App a) (ad_Env a) (ad_State a) (ad_Reason a) (ad_Reference a) decider (ad_DecidedAt a) (ad_ExpiresAt a).
Definition with_env (a : Admission) (env : string) : Admission :=
  mkAdmission (ad_Team a) (ad_App a) env (ad_State a) (ad_Reason a) (ad_Reference a) (ad_DecidedBy a) (ad_DecidedAt a) (ad_ExpiresAt a).
Definition with_app (a : Admission) (app : string) : Admission :=
  mkAdmission (ad_Team a) app (ad_Env a) (ad_State a) (ad_Reason a) (ad_Reference a) (ad_DecidedBy a) (ad_DecidedAt a) (ad_ExpiresAt a).
Definition expiring (a : Admission) (at_ : Time) : Admission :=
  mkAdmission (ad_Team a) (ad_App a) (ad_Env a) (ad_State a) (ad_Reason a) (ad_Reference a) (ad_DecidedBy a) (ad_DecidedAt a) at_.

(** A call that has to succeed, on a record made just before it. *)
Definition must_Admit (record : Time → Admission) (msg : string) (rest : admission_test) : admission_test :=
  Clock (λ now, Ask (CAdmit (record now)) (λ r, if is_ok r then rest else Fatalf msg)).
Definition must_Revoke (record : Time → Admission) (msg : string) (rest : admission_test) : admission_test :=
  Clock (λ now, Ask (CRevoke (record now)) (λ r, if is_ok r then rest else Fatalf msg)).
Definition must_Get (team app env msg : string) (rest : Admission → admission_test) : admission_test :=
  Ask (CGet team app env) (λ r, match r with Ok record => rest record | Err _ => Fatalf msg end).

Definition readsBack : admission_test :=
  must_Admit (admitted "payments" appCheckout "uat") wrapAdmitting
  (must_Get "payments" appCheckout "uat" wrapReading (λ record,
  Clock (λ now,
  if negb (Admission_Admitted record now) then Fatalf "a freshly onboarded app must read as admitted, got state %q" else
  if (ad_Reference record =s? "") || (ad_DecidedBy record =s? "")
  then Fatalf "the store must keep the reference and the decider: %+v" else Pass))).

Definition unknownIsRefused : admission_test :=
  Ask (CGet "payments" "payments-ghost" "uat") (λ r,
  if fails not_found r then Pass else Fatalf "an app with no record must report ErrAdmissionNotFound, got %v").

Definition gatekeepers : nat := 16.

Definition gatekeeper (n : nat) : act admissions_call admissions_answer bool :=
  Now (λ now,
    Call (CAdmit (with_reference (admitted "payments" appCheckout "uat" now) ("CHG-RACE-" +:+ Itoa (Z.of_nat n))))
      (λ r, Return (is_ok r))).

Definition onlyOneAdmitWins : admission_test :=
  Race (map gatekeeper (seq 0 gatekeepers))
    (λ accepted,
      if (count (λ b, b) accepted =? 1)%nat then Pass
      else Fatalf ("exactly one onboarding may win; %d of %d were accepted — the app is admitted " +:+
                   "under a reference nobody can identify")).

Definition noSilentReadmission : admission_test :=
  must_Admit (admitted "payments" appCheckout "uat") wrapAdmitting
  (Clock (λ now, Ask (CAdmit (with_reference (admitted "payments" appCheckout "uat" now) "CHG-UAT-0002")) (λ r,
  if negb (fails already_admitted r)
  then Fatalf "re-admitting a live admission must fail with ErrAlreadyAdmitted, got %v" else
  must_Get "payments" appCheckout "uat" wrapReading (λ record,
  if negb (ad_Reference record =s? "CHG-uat-4471")
  then Fatalf "the FIRST reference must survive; the record now cites %q" else Pass)))).

Definition nothingToRevoke : admission_test :=
  Clock (λ now, Ask (CRevoke (revoked "payments" appCheckout "uat" now)) (λ r,
  if is_ok r then Fatalf "revoking an app that was never admitted reported success" else
  if negb (fails not_found r) && negb (fails nothing_to_revoke r)
  then Fatalf "a revoke with nothing to revoke must say so, got %v" else
  must_Admit (admitted "payments" appCheckout "uat") wrapAdmitting
  (must_Revoke (revoked "payments" appCheckout "uat") "the first revocation must be accepted: %v"
  (Clock (λ now, Ask (CRevoke (with_reason (revoked "payments" appCheckout "uat" now) "tidying up the inventory")) (λ r,
  if negb (fails nothing_to_revoke r)
  then Fatalf "a second revocation must be refused with ErrNothingToRevoke, got %v" else
  must_Get "payments" appCheckout "uat" wrapReading (λ record,
  if ad_Reason record =s? "tidying up the inventory"
  then Fatalf ("the second revocation overwrote the reason of the decision that actually " +:+ "removed the app")
  else Pass))))))).

Definition revokedSaysWhy : admission_test :=
  must_Admit (admitted "payments" appCheckout "uat") wrapAdmitting
  (must_Revoke (revoked "payments" appCheckout "uat") litRevoking
  (must_Get "payments" appCheckout "uat" "a revoked admission must still be readable, not deleted: %v" (λ record,
  Clock (λ now,
  if Admission_Admitted record now then Fatalf "a revoked app still reads as admitted" else
  if (ad_Reason record =s? "") || (ad_Reference record =s? "")
  then Fatalf "a revocation must carry the reason and the reference a refusal will quote: %+v" else Pass)))).

Definition reAdmissionIsAllowed : admission_test :=
  must_Admit (admitted "payments" appCheckout "uat") wrapAdmitting
  (must_Revoke (revoked "payments" appCheckout "uat") litRevoking
  (must_Admit (λ now, with_reason (with_reference (admitted "payments" appCheckout "uat" now) "CHG-UAT-7788")
                        "brought back for the migration cutover") "re-onboarding a revoked app must be accepted: %v"
  (must_Get "payments" appCheckout "uat" wrapReading (λ record,
  Clock (λ now,
  if negb (Admission_Admitted record now) || negb (ad_Reference record =s? "CHG-UAT-7788")
  then Fatalf "the app must be admitted under the NEW reference, got %+v" else Pass))))).

Definition expiryIsHonoured : admission_test :=
  Clock (λ now, let lapsing := admitted "payments" appSpike "uat" now in
  Clock (λ now, let lapsing := expiring lapsing (now - minute)%Z in
  Ask (CAdmit lapsing) (λ r,
  if negb (is_ok r) then Fatalf wrapAdmitting else
  must_Get "payments" appSpike "uat" wrapReading (λ record,
  Clock (λ now,
  if Admission_Admitted record now
  then Fatalf "a lapsed admission still reads as admitted — it would keep admitting forever" else
  if negb (ad_State record =s? AdmissionExpired)
  then Fatalf ("a lapsed admission must read as expired so a person can tell it from a " +:+ "revocation, got %q") else
  Ask (CAdmittedIn "uat") (λ live,
  match live with
  | Err _ => Fatalf "listing: %v"
  | Ok live => if existsb (λ entry, ad_App entry =s? appSpike) live
               then Fatalf "a lapsed admission is still listed as admitted" else Pass
  end)))))).

(** [for ... range] over a slice, with what comes after the loop. *)
Definition for_range {A} (l : list A) (body : A → admission_test → admission_test) (rest : admission_test) : admission_test :=
  foldr body rest l.

Definition environments : list string :=
  ["sit"; "dev"; "uat"; "prod"; "uat"; "UAT"; "pre-prod-2"; "canary-tokyo"; "regulator-sandbox"; "客戶驗收"].

Definition envIsOpaque : admission_test :=
  for_range environments (λ env rest,
    Clock (λ now, Ask (CAdmit (admitted "payments" appCheckout env now)) (λ r,
    if negb (is_ok r) && negb (fails already_admitted r) then Fatalf "admitting to env %q: %v" else rest)))
  (for_range environments (λ env rest,
    must_Get "payments" appCheckout env "env %q must be storable verbatim: %v" (λ record,
    if negb (ad_Env record =s? env) then Fatalf "env was rewritten from %q to %q" else rest))
  (must_Revoke (revoked "payments" appCheckout "UAT") "revoking from UAT: %v"
  (must_Get "payments" appCheckout "uat" wrapReading (λ lower,
  Clock (λ now,
  if negb (Admission_Admitted lower now)
  then Fatalf ("revoking from " +:+ Quote "UAT" +:+ " also revoked " +:+ Quote "uat" +:+ " — the store folded case and " +:+
               "changed a decision nobody made") else
  Ask (CGet "payments" appCheckout "prod-dr") (λ r,
  if negb (fails not_found r)
  then Fatalf "an environment nobody onboarded this app to must have no record, got %v" else Pass)))))).

Definition mangled : list (Admission → Admission) :=
  [λ a, with_reference a ""; λ a, with_decider a ""; λ a, with_reason a ""; λ a, with_env a ""; λ a, with_app a ""].

Definition attributionIsRequired : admission_test :=
  for_range mangled (λ mangle rest,
    Clock (λ now, Ask (CAdmit (mangle (admitted "payments" appCheckout "uat" now))) (λ r,
    if negb (fails unattributable r)
    then Errorf "an admission with %s must be refused as unattributable, got %v" rest else rest)))
  Pass.

Definition listsOneEnv : admission_test :=
  for_range [("payments", appCheckout, "uat"); ("payments", "payments-ledger", "uat");
             ("treasury", "treasury-reporting", "canary-tokyo")]
    (λ spec rest, let '(team, app, env) := spec in must_Admit (admitted team app env) "admitting %s/%s: %v" rest)
  (Ask (CAdmittedIn "uat") (λ inUAT,
  match inUAT with
  | Err _ => Fatalf "listing one environment: %v"
  | Ok inUAT =>
  if negb (length inUAT =? 2)%nat then Fatalf "uat has 2 admitted apps, got %d" else
  Ask (CAdmittedIn "") (λ everywhere,
  match everywhere with
  | Err _ => Fatalf "listing every environment: %v"
  | Ok everywhere =>
  if negb (length everywhere =? 3)%nat then Fatalf "three apps are admitted overall, got %d" else
  must_Revoke (revoked "payments" "payments-ledger" "uat") litRevoking
  (Ask (CAdmittedIn "uat") (λ inUAT,
  match inUAT with
  | Ok inUAT => if (length inUAT =? 1)%nat then Pass
                else Fatalf "a revoked admission must leave the inventory: %d remain, err=%v"
  | Err _ => Fatalf "a revoked admission must leave the inventory: %d remain, err=%v"
  end))
  end)
  end)).

Definition admission_suite : suite admissions_call admissions_answer :=
  [("an admitted app reads back as admitted", readsBack);
   ("an app nobody onboarded is not admitted", unknownIsRefused);
   ("only ONE admission wins under concurrency", onlyOneAdmitWins);
   ("a live admission is never overwritten", noSilentReadmission);
   ("revoking what is not admitted is refused", nothingToRevoke);
   ("a revoked app is no longer admitted and says why", revokedSaysWhy);
   ("a revoked app can be onboarded again", reAdmissionIsAllowed);
   ("a lapsed admission does not read as admitted", expiryIsHonoured);
   ("the environment is an opaque string", envIsOpaque);
   ("an unattributable admission is refused", attributionIsRequired);
   ("what is admitted in one environment can be listed", listsOneEnv)].

(** ** The store in memory as an implementation *)

Definition updated (m : gmap string Admission) (r : result admission_error (gmap string Admission)) :
    result admission_error unit * gmap string Admission :=
  match r with Ok m => (Ok tt, m) | Err e => (Err e, m) end.

Definition memory_handle (c : admissions_call) (now : Time) (m : gmap string Admission) :
    admissions_answer c * gmap string Admission :=
  match c with
  | CGet team app env => (Admissions_Get m now team app env, m)
  | CAdmit a => updated m (Admit m now a)
  | CRevoke a => updated m (Revoke m now a)
  | CAdmittedIn env => (Ok (AdmittedIn m now env), m)
  end.

Definition memory_admissions : Implementation admissions_call admissions_answer :=
  mkImplementation (gmap string Admission) ∅ (λ c, atomic (memory_handle c)).

(** ** The verdicts of the store in memory *)

Lemma Admit_fresh m now a :
  Admission_Validate a = Ok tt → m !! key_of a = None →
  Admit m now a = Ok (<[key_of a := with_admission_state a AdmissionAdmitted]> m).
Proof. intros Hv Hm. unfold Admit. rewrite Hv. cbn [rbind]. by rewrite Hm. Qed.

(** An admission past its time: read as expired, listed nowhere. *)
Lemma past_its_time a now m :
  ad_State a = AdmissionAdmitted → (0 < ad_ExpiresAt a ≤ now)%Z →
  Admission_Admitted a now = false ∧
  (m !! key_of a = Some a → Admissions_Get m now (ad_Team a) (ad_App a) (ad_Env a) = Ok (with_admission_state a AdmissionExpired)) ∧
  ∀ env, AdmittedIn {[key_of a := a]} now env = [].
Proof.
  intros Hs [Hpos Hle]. assert (Admission_Admitted a now = false) as Hno.
  { apply not_true_iff_false. rewrite Admitted_true. lia. }
  split; [done|]. split.
  - unfold key_of, Admissions_Get. intros ->. unfold lapsed. rewrite Hs. cbn. unfold IsZero.
    rewrite (proj2 (Z.eqb_neq _ _)) by lia. by rewrite (proj2 (Z.ltb_ge _ _)).
  - intros env. unfold AdmittedIn. rewrite map_to_list_singleton. cbn. unfold admitted_in. by rewrite Hno.
Qed.

Section memory_passes.
Context (clock : nat → Time) (schedule : list nat) (start : nat).
(** Time does not run backwards, and it is later than one minute after the zero time. *)
Context (clock_monotone : ∀ n m, n ≤ m → (clock n ≤ clock m)%Z) (clock_positive : (minute < clock start)%Z).

Notation passes t := (verdict_of memory_admissions clock schedule start t = Passed).

Lemma run_call c k reports m n :
  run memory_admissions clock schedule (Ask c k) reports (m, n) =
    run memory_admissions clock schedule (k (memory_handle c (clock n) m).1) reports ((memory_handle c (clock n) m).2, S n).
Proof. done. Qed.
Lemma run_clock k reports (m : State memory_admissions) n :
  run memory_admissions clock schedule (Clock k) reports (m, n) = run memory_admissions clock schedule (k (clock n)) reports (m, S n).
Proof. done. Qed.

Lemma expiryIsHonoured_passes : passes expiryIsHonoured.
Proof.
  unfold verdict_of, expiryIsHonoured, must_Get. rewrite !run_clock. cbn zeta.
  set (a := expiring _ _). assert (Admission_Validate a = Ok tt) as Hv by (by vm_compute).
  assert (ad_State a = AdmissionAdmitted) as Hs by done.
  assert (∀ n, start < n → (0 < ad_ExpiresAt a ≤ clock n)%Z) as Hpast.
  { intros n Hn. change (ad_ExpiresAt a) with (clock (S start) - minute)%Z. pose proof (clock_monotone start (S start) ltac:(lia)).
    pose proof (clock_monotone (S start) n ltac:(lia)). assert (0 < minute)%Z by done. lia. }
  rewrite run_call. cbn [memory_handle fresh memory_admissions]. rewrite (Admit_fresh ∅ _ a Hv (lookup_empty _)).
  cbn [updated fst snd is_ok negb]. change (with_admission_state a AdmissionAdmitted) with a. rewrite insert_empty.
  rewrite run_call. cbn [memory_handle]. change "payments" with (ad_Team a). change appSpike with (ad_App a). change "uat" with (ad_Env a).
  rewrite (proj1 (proj2 (past_its_time a (clock (S (S (S start)))) _ Hs (Hpast (S (S (S start))) ltac:(lia)))) (lookup_singleton_eq _ _)). cbn [fst snd].
  rewrite run_clock. change (Admission_Admitted (with_admission_state a AdmissionExpired) _) with false. cbn iota.
  rewrite eqs_refl. cbn [negb]. rewrite run_call. cbn [memory_handle]. rewrite (proj2 (proj2 (past_its_time a (clock (S (S (S (S (S start)))))) ∅ Hs (Hpast (S (S (S (S (S start))))) ltac:(lia))))).
  done.
Qed.

(** Before its call; and the record it calls with. *)
Inductive gatekeeping : Op (gmap string Admission) bool → Prop :=
| gk_before n : gatekeeping (op_of memory_admissions (gatekeeper n))
| gk_calling a :
    Admission_Validate a = Ok tt → key_of a = "payments/payments-checkout@uat" → ad_ExpiresAt a = 0%Z →
    gatekeeping (op_of memory_admissions (Call (CAdmit a) (λ r, Return (is_ok r)))).

(** Whether the key is free, or taken for good. *)
Definition checkout (m : gmap string Admission) (won : list nat) : Prop :=
  match won with
  | [] => m !! "payments/payments-checkout@uat" = None
  | _ => ∃ r, m !! "payments/payments-checkout@uat" = Some r ∧ ad_State r = AdmissionAdmitted ∧ ad_ExpiresAt r = 0%Z
  end.

Lemma gatekeeping_not_over b : ¬ gatekeeping (Done b).
Proof. intros H. remember (Done b) as o eqn:E. by destruct H. Qed.

Lemma gatekeeping_step f k :
  gatekeeping (Step f k) →
  (f = (λ _ m, m) ∧ ∀ t m, gatekeeping (k t m)) ∨
  ∃ a, Admission_Validate a = Ok tt ∧ key_of a = "payments/payments-checkout@uat" ∧ ad_ExpiresAt a = 0%Z ∧
    f = (λ t m, (updated m (Admit m t a)).2) ∧ k = (λ t m, Done (is_ok (updated m (Admit m t a)).1)).
Proof.
  intros H. remember (Step f k) as o eqn:E. destruct H as [j|a Hv Hk He]; injection E as <- <-.
  - left. split; [done|]. intros t m'. by apply gk_calling.
  - right. by exists a.
Qed.

Lemma onlyOneAdmitWins_passes : passes onlyOneAdmitWins.
Proof.
  unfold verdict_of, onlyOneAdmitWins. cbn [run].
  destruct (race_served memory_admissions clock 1 checkout (λ _, gatekeeping)) with (schedule := schedule)
    (threads := map gatekeeper (seq 0 gatekeepers)) (s := fresh memory_admissions) (n := start)
    as (xs & s & n & won & Hrun & _ & _ & Hlen & Hc & _).
  - by intros _ b ?%gatekeeping_not_over.
  - intros i f k m won n [[-> Hk]|(a & Hv & Hk & He & -> & ->)]%gatekeeping_step Hm _ Hroom; [by left|].
    right. destruct won; [|cbn in Hroom; lia]. rewrite Admit_fresh by (rewrite ?Hk; done). cbn. split; [|done].
    exists (with_admission_state a AdmissionAdmitted). by rewrite Hk, lookup_insert_eq.
  - intros i f k m won n [[-> Hk]|(a & Hv & Hk & _ & -> & ->)]%gatekeeping_step Hm _ Hfull; [by auto|].
    destruct won; [done|]. destruct Hm as (r & Hr & Hs & He).
    assert (Admit m (clock n) a = Err ErrAlreadyAdmitted) as ->; [|cbn; split; [by exists r|by right]].
    unfold Admit. rewrite Hv. cbn [rbind]. rewrite Hk, Hr. by rewrite (proj2 (Admitted_true r (clock n)) (conj Hs (or_introl He))).
  - done.
  - intros i a Ha. apply list_elem_of_lookup_2, elem_of_map in Ha as (j & -> & _). apply gk_before.
  - rewrite Hrun, Hc, Hlen. done.
Qed.

(** The cases without a race or a lapse evaluate to their verdict, whatever the time. *)
Lemma memory_passes name t : (name, t) ∈ admission_suite → passes t.
Proof.
  unfold admission_suite. intros H.
  repeat (apply elem_of_cons in H as [[= -> ->]|H];
    [first [exact onlyOneAdmitWins_passes|exact expiryIsHonoured_passes|vm_compute; reflexivity]|]).
  by apply not_elem_of_nil in H.
Qed.
End memory_passes.

(** ** What the interface promises *)

Definition error_same (e e' : admission_error) : Prop :=
  match e, e' with ErrAdmissionUnattributable _, ErrAdmissionUnattributable _ => True | _, _ => e = e' end.
Definition result_same {A} (R : A → A → Prop) (E : admission_error → admission_error → Prop) (r r' : result admission_error A) : Prop :=
  match r, r' with Ok a, Ok b => R a b | Err e, Err e' => E e e' | _, _ => False end.

(** The wording of a refusal and the order of a list are an implementation's own. *)
Definition admission_same (c : admissions_call) : admissions_answer c → admissions_answer c → Prop :=
  match c with
  | CGet _ _ _ => result_same eq error_same
  | CAdmit _ => result_same eq error_same
  | CRevoke _ => result_same eq error_same
  | CAdmittedIn _ => result_same (≡ₚ) error_same
  end.

(** What two answers that are the same have in common for a test. *)
Lemma same_ok {A} (R : A → A → Prop) r r' : result_same R error_same r r' → is_ok r = is_ok r'.
Proof. by destruct r, r'. Qed.
Lemma same_fails {A} (R : A → A → Prop) kind r r' :
  (∀ w w', kind (ErrAdmissionUnattributable w) = kind (ErrAdmissionUnattributable w')) →
  result_same R error_same r r' → fails kind r = fails kind r'.
Proof. intros Hk. destruct r as [a|e], r' as [b|e']; try done. cbn. destruct e, e'; cbn; intros Hs; first [apply Hk|discriminate Hs|congruence]. Qed.
Lemma existsb_Permutation {A} (f : A → bool) l l' : l ≡ₚ l' → existsb f l = existsb f l'.
Proof. induction 1; cbn; rewrite ?IHPermutation; try done; [by destruct (f x), (f y)|congruence]. Qed.

(** At any time, any call. *)
Definition any {A} (_ : A) : Prop := True.

Section insensitive.
Notation insensitive t := (test_rel admission_same any any t t).

Lemma rel_if (b : bool) (t u : admission_test) : insensitive t → insensitive u → insensitive (if b then t else u).
Proof. by destruct b. Qed.
Lemma rel_must_Admit record msg rest : insensitive rest → insensitive (must_Admit record msg rest).
Proof.
  intros H. apply rel_Clock. intros t _. apply rel_Ask; [done|]. intros r r' Hs. rewrite (same_ok _ _ _ Hs).
  apply rel_if; [done|constructor].
Qed.
Lemma rel_must_Revoke record msg rest : insensitive rest → insensitive (must_Revoke record msg rest).
Proof.
  intros H. apply rel_Clock. intros t _. apply rel_Ask; [done|]. intros r r' Hs. rewrite (same_ok _ _ _ Hs).
  apply rel_if; [done|constructor].
Qed.
Lemma rel_must_Get team app env msg rest : (∀ a, insensitive (rest a)) → insensitive (must_Get team app env msg rest).
Proof. intros H. apply rel_Ask; [done|]. intros [a|e] [b|e'] Hs; cbn in Hs; try done; [rewrite Hs; apply H|constructor]. Qed.
Lemma rel_AdmittedIn env k e0 :
  (∀ l l', l ≡ₚ l' → test_rel admission_same any any (k l) (k l')) → insensitive e0 →
  insensitive (Ask (CAdmittedIn env) (λ r, match r with Ok l => k l | Err _ => e0 end)).
Proof. intros H He. apply rel_Ask; [done|]. intros [a|e] [b|e'] Hs; cbn in Hs; try done. by apply H. Qed.
Lemma rel_for_range {A} (l : list A) body rest :
  (∀ x t, insensitive t → insensitive (body x t)) → insensitive rest → insensitive (for_range l body rest).
Proof. intros Hb Hr. unfold for_range. induction l as [|x l IH]; [exact Hr|]. cbn [foldr]. apply Hb, IH. Qed.

Ltac same_verdict :=
  repeat first
    [ assumption | apply rel_must_Admit | apply rel_must_Revoke | apply rel_must_Get; intros ? | apply rel_for_range; [intros ? ? ?|]
    | apply rel_AdmittedIn;
        [let Hs := fresh in intros ? ? Hs; rewrite ?(Permutation_length Hs), ?(existsb_Permutation _ _ _ Hs); clear Hs|]
    | apply rel_Pass | apply rel_Fatalf | apply rel_Errorf | apply rel_if | apply rel_Clock; intros ? _
    | apply rel_Ask; [exact I|]; let Hs := fresh in intros ? ? Hs;
        rewrite ?(same_ok _ _ _ Hs), ?(same_fails _ not_found _ _ (λ _ _, eq_refl) Hs),
          ?(same_fails _ already_admitted _ _ (λ _ _, eq_refl) Hs), ?(same_fails _ nothing_to_revoke _ _ (λ _ _, eq_refl) Hs),
          ?(same_fails _ unattributable _ _ (λ _ _, eq_refl) Hs); clear Hs
    | match goal with |- insensitive (let '_ := ?x in _) => destruct x as [[]] end ].

Lemma onlyOneAdmitWins_insensitive : insensitive onlyOneAdmitWins.
Proof.
  apply (rel_Race _ _ _ eq).
  - apply Forall2_fmap, Forall_Forall2_diag, Forall_forall. intros n _. apply rel_Now. intros t _. apply rel_Call; [done|].
    intros [?|?] [?|?] Hsame; try done; by apply rel_Return.
  - intros xs ys Hxs. apply list_eq_Forall2 in Hxs. subst. apply rel_if; constructor.
Qed.

Lemma suite_is_insensitive name t : (name, t) ∈ admission_suite → insensitive t.
Proof.
  unfold admission_suite. intros H.
  repeat (apply elem_of_cons in H as [[= -> ->]|H]; [first [exact onlyOneAdmitWins_insensitive|same_verdict; fail]|]).
  by apply not_elem_of_nil in H.
Qed.
End insensitive.

(** The suite never fails a store that keeps the contract. Take any store that answers
    every call as the store in memory does, in one atomic step, up to the wording of its
    refusals and the order of its lists: it passes every case of the suite, whenever the
    suite is run, however the sixteen gatekeepers of the race are scheduled, on any clock
    that does not run backwards. *)
Theorem contract_stores_pass (J : Implementation admissions_call admissions_answer) R clock schedule start name t :
  in_step admission_same any any memory_admissions J R →
  (∀ n m, n ≤ m → (clock n ≤ clock m)%Z) → (minute < clock start)%Z →
  (name, t) ∈ admission_suite → verdict_of J clock schedule start t = Passed.
Proof.
  intros Hstep Hmono Hpos Hin. rewrite <- (verdict_sim admission_same any any Hstep _ (λ _, I)).
  - by apply (memory_passes _ _ _ Hmono Hpos name).
  - by apply (suite_is_insensitive name).
Qed.

(** ** Other stores *)

(** Rows in a list, newest first; it words its refusals and orders its lists otherwise. *)
Definition rows : Type := list (string * Admission).
Definition as_map (l : rows) : gmap string Admission := list_to_map l.
Definition rows_Admit (l : rows) (now : Time) (a : Admission) : result admission_error rows :=
  match Admit (as_map l) now a with
  | Ok _ => Ok ((key_of a, with_admission_state a AdmissionAdmitted) :: l)
  | Err (ErrAdmissionUnattributable _) => Err (ErrAdmissionUnattributable "")
  | Err e => Err e
  end.
Definition rows_Revoke (l : rows) (now : Time) (a : Admission) : result admission_error rows :=
  match Revoke (as_map l) now a with
  | Ok _ => Ok ((key_of a, with_admission_state a AdmissionRevoked) :: l)
  | Err (ErrAdmissionUnattributable _) => Err (ErrAdmissionUnattributable "")
  | Err e => Err e
  end.
Definition rows_updated (l : rows) (r : result admission_error rows) : result admission_error unit * rows :=
  match r with Ok l => (Ok tt, l) | Err e => (Err e, l) end.
Definition rows_handle (c : admissions_call) (now : Time) (l : rows) : admissions_answer c * rows :=
  match c with
  | CGet team app env => (Admissions_Get (as_map l) now team app env, l)
  | CAdmit a => rows_updated l (rows_Admit l now a)
  | CRevoke a => rows_updated l (rows_Revoke l now a)
  | CAdmittedIn env => (Ok (List.filter (admitted_in now env) (map snd (map_to_list (as_map l)))), l)
  end.
Definition row_store : Implementation admissions_call admissions_answer :=
  mkImplementation rows [] (λ c, atomic (rows_handle c)).

Lemma row_store_in_step : in_step admission_same any any memory_admissions row_store (λ m l, m = as_map l).
Proof.
  split; [done|]. intros c _. apply op_sim_atomic. intros now m l _ ->.
  destruct c as [team app env|a|a|env]; cbn [memory_handle rows_handle admission_same].
  - split; [|done]. destruct (Admissions_Get _ _ _ _ _) as [r|e]; cbn; [done|]. by destruct e.
  - unfold rows_Admit. destruct (Admit (as_map l) now a) as [m'|e] eqn:E; [|by destruct e].
    apply (perform_Ok _ (now, OAdmit a)) in E as (r & -> & _ & ->). done.
  - unfold rows_Revoke. destruct (Revoke (as_map l) now a) as [m'|e] eqn:E; [|by destruct e].
    apply (perform_Ok _ (now, ORevoke a)) in E as (r & -> & _ & ->). done.
  - split; [|done]. cbn. apply merge_sort_Permutation.
Qed.

Definition every_second (n : nat) : Time := (hour + Z.of_nat n * second)%Z.

(** Reading and writing without the lock. *)
Definition unlocked_handle (c : admissions_call) : Op (gmap string Admission) (admissions_answer c) :=
  match c with
  | CAdmit a =>
      Step (λ _ m, m) (λ now m,
        match Admit m now a with
        | Ok _ => Step (λ _ m, <[key_of a := with_admission_state a AdmissionAdmitted]> m) (λ _ _, Done (Ok tt))
        | Err e => Done (Err e)
        end)
  | c => atomic (memory_handle c)
  end.
Definition unlocked_store : Implementation admissions_call admissions_answer :=
  mkImplementation (gmap string Admission) ∅ unlocked_handle.

(** It passes when the gatekeepers take turns, and fails when two of them overlap. *)
Example the_race_needs_a_schedule :
  verdict_of unlocked_store every_second [] 0 onlyOneAdmitWins = Passed ∧
  verdict_of unlocked_store every_second [0; 1; 0; 1; 0; 1] 0 onlyOneAdmitWins =
    Failed ["exactly one onboarding may win; %d of %d were accepted — the app is admitted " +:+
            "under a reference nobody can identify"].
Proof. split; vm_compute; reflexivity. Qed.

(** A store that changes one call. *)
Definition instead (f : ∀ c, Time → gmap string Admission → option (admissions_answer c * gmap string Admission)) :
    Implementation admissions_call admissions_answer :=
  mkImplementation (gmap string Admission) ∅
    (λ c, atomic (λ now m, match f c now m with Some r => r | None => memory_handle c now m end)).

Definition failures (I : Implementation admissions_call admissions_answer) : list string :=
  map fst (List.filter (λ r, match r.2 with Passed => false | _ => true end) (verdicts I every_second [] 0 admission_suite)).

(** Deleting what is revoked is caught. *)
Definition deleting : Implementation admissions_call admissions_answer :=
  instead (λ c now m,
    match c with
    | CRevoke a => match Revoke m now a with Ok _ => Some (Ok tt, delete (key_of a) m) | Err e => Some (Err e, m) end
    | _ => None
    end).
(** Writing without asking who decided is caught for an admission, not for a revocation. *)
Definition unattributed_revoke (now : Time) (m : gmap string Admission) (a : Admission) :
    result admission_error unit * gmap string Admission :=
  match m !! key_of a with
  | None => (Err ErrAdmissionNotFound, m)
  | Some current =>
      if Admission_Admitted current now then (Ok tt, <[key_of a := with_admission_state a AdmissionRevoked]> m)
      else (Err ErrNothingToRevoke, m)
  end.
Definition revoking_for_nobody : Implementation admissions_call admissions_answer :=
  instead (λ c now m, match c with CRevoke a => Some (unattributed_revoke now m a) | _ => None end).

Example what_the_suite_catches :
  failures deleting =
    ["revoking what is not admitted is refused"; "a revoked app is no longer admitted and says why"] ∧
  failures revoking_for_nobody = [] ∧
  (unattributed_revoke 1 {["t/a@e" := mkAdmission "t" "a" "e" AdmissionAdmitted "why" "ref" "dana" 0 0]}
     (mkAdmission "t" "a" "e" "" "" "" "" 1 0)).1 = Ok tt.
Proof. split_and!; vm_compute; reflexivity. Qed.

Lemma contract_stores_pass_witness :
  failures row_store = [] ∧ verdict_of row_store every_second [3; 3; 7; 7; 1; 1] 5 onlyOneAdmitWins = Passed.
Proof.
  split; [vm_compute; reflexivity|].
  apply (contract_stores_pass row_store (λ m l, m = as_map l) every_second _ _ "only ONE admission wins under concurrency").
  - exact row_store_in_step.
  - intros n m Hle. unfold every_second. assert (0 < second)%Z by done. nia.
  - unfold every_second. vm_compute. reflexivity.
  - right. right. left.
Defined.
