(* ===== verification/Manager.v ===== *)
(** The estate's manager: [mantlekeep-estate/manager.go], the change transformer
    [transform.go] and the drift record [discovery.go].

    Every method is a computation in a state monad: the state is the outside world, the
    in-memory approval store and a trace of the calls that matter, in which each call to
    the door and each change handed to an adapter is an event. The door, the adapters, the
    stores of manifests and discoveries, the clock and the random source are arguments.
    They do not reach into the approval store. A Go map of adapters is visited in no
    particular order; the model visits it in the order of [map_to_list]. *)
From S2P Require Import Prelude Contracts EstateFloor Placement Manifest EstateResolve Fleet.
From S2P Require Import Reconcile Approvals Admissions.

(** ** The monad *)

(** What reached the door and the adapters. *)
Inductive event :=
| EvSubmit (intent : Intent) (answer : result go_error ExecutionToken)
| EvApply (token : ExecutionToken) (change : DesiredItem) (failed : option string).

Record state (W : Type) := mkState {
  st_world : W;
  st_store : MemoryApprovals;
  st_trace : list event;
}.
Arguments mkState {W}.
Arguments st_world {W}.
Arguments st_store {W}.
Arguments st_trace {W}.

Definition M (W A : Type) : Type := state W → A * state W.
#[export] Instance M_ret {W} : MRet (M W) := λ A a s, (a, s).
#[export] Instance M_bind {W} : MBind (M W) := λ A B k m s, let '(a, s) := m s in k a s.

(** A call into the outside world. *)
Definition world {W A} (f : W → A * W) : M W A := λ s,
  let '(a, w) := f (st_world s) in (a, mkState w (st_store s) (st_trace s)).
Definition record {W} (e : event) : M W unit := λ s,
  (tt, mkState (st_world s) (st_store s) (st_trace s ++ [e])).
(** A store operation that may refuse. *)
Definition on_store {W A} (f : MemoryApprovals → result approval_error (MemoryApprovals * A))
    : M W (result approval_error A) := λ s,
  match f (st_store s) with
  | Ok (m, a) => (Ok a, mkState (st_world s) m (st_trace s))
  | Err e => (Err e, s)
  end.
Definition read_store {W} : M W MemoryApprovals := λ s, (st_store s, s).

(** ** The manager *)

Record Port (W : Type) := mkPort {
  port_Observe : string → W → result string (list ObservedItem) * W;
  port_Apply : ExecutionToken → DesiredItem → W → option string * W;
}.
Arguments mkPort {W}.
Arguments port_Observe {W}.
Arguments port_Apply {W}.

Record Discovery := mkDiscovery {
  disc_Slot : Slot;
  disc_Kind : DriftKind;
  disc_Detail : string;
  disc_Observed : Time;
}.

(** The nil-able collaborators are options; [mg_approvals] says whether the approval store
    is configured. *)
Record Manager (W : Type) := mkManager {
  mg_door : Intent → W → result go_error ExecutionToken * W;
  mg_ports : gmap string (Port W);
  mg_floorOf : W → Floor * W;
  mg_discoveries : option (Discovery → W → option string * W);
  mg_manifests : option (Manifest → W → option string * W);
  mg_ownership : Ownership;
  mg_approvals : bool;
  mg_placerOf : W → option Placer * W;
  mg_transform : option (string → DesiredItem → W → result string DesiredItem * W);
  mg_now : W → Time * W;
  mg_rand : W → string * W;
}.
Arguments mkManager {W}.
Arguments mg_door {W}.
Arguments mg_ports {W}.
Arguments mg_floorOf {W}.
Arguments mg_discoveries {W}.
Arguments mg_manifests {W}.
Arguments mg_ownership {W}.
Arguments mg_approvals {W}.
Arguments mg_placerOf {W}.
Arguments mg_transform {W}.
Arguments mg_now {W}.
Arguments mg_rand {W}.

Record Result := mkResult {
  res_Change : DesiredItem;
  res_Refused : string;
  res_Failed : string;
  res_Approval : string;
  res_Outstanding : string;
}.

Definition Applied (r : Result) : bool :=
  (res_Refused r =s? "") && (res_Failed r =s? "") && (res_Outstanding r =s? "").

Record ApplyOutcome := mkApplyOutcome {
  ao_Applied : list Result;
  ao_Refused : list Result;
  ao_Failed : list Result;
}.

(** Who acts, and for whom. *)
Record acting := mkActing { act_subject : Subject; act_requester : string }.

Inductive manager_error :=
| EResolve (e : resolve_error)
| EStoreFailure (e : string)
| EObserve (e : string)
| EApproval (e : approval_error).

Definition shortName (deployment team : string) : string := TrimPrefix deployment (team +:+ "-").

Definition requesterFor (requester : string) (change : DesiredItem) : string :=
  if di_Gate change =s? GateNone then "" else requester.

(** The switch both loops end with. *)
Definition sort_result (outcome : ApplyOutcome) (r : Result) : ApplyOutcome :=
  if negb (res_Refused r =s? "")
  then mkApplyOutcome (ao_Applied outcome) (ao_Refused outcome ++ [r]) (ao_Failed outcome)
  else if negb (res_Failed r =s? "")
  then mkApplyOutcome (ao_Applied outcome) (ao_Refused outcome) (ao_Failed outcome ++ [r])
  else mkApplyOutcome (ao_Applied outcome ++ [r]) (ao_Refused outcome) (ao_Failed outcome).

Definition approvalWindow : Duration := (7 * 24 * hour)%Z.

Section Manager.
Context {W : Type} (m : Manager W).

Definition now : M W Time := world (mg_now m).

(** An error of an adapter leaves its items out. *)
Definition placed_from (team : string) (placed : gmap string string) (observed : list ObservedItem)
    : gmap string string :=
  foldl (λ placed item,
    if (oi_Asset item =s? "app") && negb (slot_Cluster (oi_Slot item) =s? "")
    then <[shortName (oi_Name item) team := slot_Cluster (oi_Slot item)]> placed else placed)
    placed observed.

Fixpoint placed_by (team : string) (ports : list (string * Port W)) (placed : gmap string string)
    : M W (gmap string string) :=
  match ports with
  | [] => mret placed
  | (_, port) :: ports =>
      observed ← world (port_Observe port team);
      placed_by team ports
        match observed with Ok items => placed_from team placed items | Err _ => placed end
  end.
Definition placedFor (team : string) : M W (gmap string string) :=
  placed_by team (map_to_list (mg_ports m)) ∅.

Definition intent_params (who : acting) (team : string) (change : DesiredItem)
    (floorRevision : string) : gmap string value :=
  {["requester" := VString (requesterFor (act_requester who) change);
    "asset" := VString (di_Asset change); "kind" := VString (di_Kind change);
    "name" := VString (di_Name change); "tier" := VString (di_Tier change);
    "gate" := VString (di_Gate change); "cluster" := VString (di_Cluster change);
    "scope" := VString team; "floorRevision" := VString floorRevision]}.

Definition intentFor (who : acting) (team : string) (change : DesiredItem) (floorRevision : string)
    : M W Intent :=
  t1 ← now; t2 ← now;
  mret {|
    int_ID := "ESTATE-" +:+ team +:+ "-" +:+ di_Name change +:+ "-" +:+ Itoa (UnixNano t1);
    int_Subject := act_subject who;
    int_Action := "estate.apply";
    int_Resource := "team/" +:+ team;
    int_Spec := mkIntentSpec ("provision " +:+ di_Asset change +:+ " " +:+ di_Kind change +:+ " " +:+
                  Quote (di_Name change) +:+ " for " +:+ team) [] "" [] [] "";
    int_Params := intent_params who team change floorRevision;
    int_SubmittedAt := t2;
    int_TTL := (5 * minute)%Z;
    int_Via := "";
  |}.

Definition submit (intent : Intent) : M W (result go_error ExecutionToken) :=
  answer ← world (mg_door m intent);
  _ ← record (EvSubmit intent answer);
  mret answer.

Definition hand_over (port : Port W) (token : ExecutionToken) (change : DesiredItem)
    : M W (option string) :=
  failed ← world (port_Apply port token change);
  _ ← record (EvApply token change failed);
  mret failed.

Definition new_request (actor : Subject) (team : string) (change : DesiredItem) (floor : Floor)
    (refused : Refused) (t : Time) (rand : string) : Approval :=
  mkApproval (approvalID team (di_Name change) t rand) team change (sub_ID actor)
    (ref_RequiredApprovers refused) (SignaturesFor floor (di_Gate change)) (fl_Revision floor)
    (ref_Reason refused) ApprovalPending "" [] "" "" t 0 (t + approvalWindow)%Z.

Definition openApproval (actor : Subject) (team : string) (change : DesiredItem) (floor : Floor)
    (refused : Refused) : M W (result approval_error string) :=
  t ← now; rand ← world (mg_rand m);
  let approval := new_request actor team change floor refused t rand in
  on_store (λ store, store <-? Open store approval ; Ok (store, ap_ID approval)).

(** [errors.As(err, &refused) && refused.Pending()], with an approval store. *)
Definition awaits_approval (err : go_error) : option Refused :=
  if mg_approvals m then
    match errors_as as_Refused err with
    | Some refused => if Refused_Pending refused then Some refused else None
    | None => None
    end
  else None.

Definition applyOne (who : acting) (team : string) (change : DesiredItem) (floor : Floor) : M W Result :=
  match mg_ports m !! di_Asset change with
  | None =>
      mret (mkResult change "" ("no adapter is registered for asset " +:+ Quote (di_Asset change)) "" "")
  | Some port =>
      intent ← intentFor who team change (fl_Revision floor);
      answer ← submit intent;
      match answer with
      | Err err =>
          match awaits_approval err with
          | Some refused =>
              opened ← openApproval (act_subject who) team change floor refused;
              match opened with
              | Ok id => mret (mkResult change (Error err) "" id "")
              | Err _ => mret (mkResult change (Error err) "" "" "")
              end
          | None => mret (mkResult change (Error err) "" "" "")
          end
      | Ok token =>
          failed ← hand_over port token change;
          match failed with
          | Some err => mret (mkResult change "" err "" "")
          | None => mret (mkResult change "" "" "" "")
          end
      end
  end.

Definition transformChange (team : string) (change : DesiredItem) : M W (result string DesiredItem) :=
  match mg_transform m with
  | None => mret (Ok change)
  | Some transform =>
      transformed ← world (transform team change);
      match transformed with
      | Err e => mret (Err e)
      | Ok transformed =>
          if negb (DesiredItem_key transformed =s? DesiredItem_key change)
          then mret (Err ("the transform changed the identity of this change from " +:+
                 Quote (DesiredItem_key change) +:+ " to " +:+ Quote (DesiredItem_key transformed) +:+
                 " — a transform may " +:+
                 "rewrite what a change is, never which change it is, or the door rules on one " +:+
                 "resource and the adapter is handed another"))
          else mret (Ok transformed)
      end
  end.

Definition transformThenApply (who : acting) (team : string) (change : DesiredItem) (floor : Floor)
    : M W Result :=
  transformed ← transformChange team change;
  match transformed with
  | Err e => mret (mkResult change "" ("the change was not submitted: " +:+ e) "" "")
  | Ok transformed => applyOne who team transformed floor
  end.

Fixpoint apply_each (who : acting) (team : string) (floor : Floor) (changes : list DesiredItem)
    (outcome : ApplyOutcome) : M W ApplyOutcome :=
  match changes with
  | [] => mret outcome
  | change :: changes =>
      r ← transformThenApply who team change floor;
      apply_each who team floor changes (sort_result outcome r)
  end.

(** [floorOf], [placerOf] and [placedFor] are read before the manifest is resolved. *)
Definition resolve_live (manifest : Manifest) : M W (Floor * result resolve_error Desired) :=
  floor ← world (mg_floorOf m);
  placer ← world (mg_placerOf m);
  placed ← placedFor (m_Team manifest);
  mret (floor, ResolveWith manifest floor placer placed).

Definition remember (manifest : Manifest) : M W (option string) :=
  match mg_manifests m with
  | None => mret None
  | Some store => world (store manifest)
  end.

Definition no_outcome : ApplyOutcome := mkApplyOutcome [] [] [].

Definition Apply (actor : Subject) (manifest : Manifest) : M W (result manager_error ApplyOutcome) :=
  resolved ← resolve_live manifest;
  match resolved with
  | (_, Err e) => mret (Err (EResolve e))
  | (floor, Ok desired) =>
      stored ← remember manifest;
      match stored with
      | Some e => mret (Err (EStoreFailure e))
      | None =>
          outcome ← apply_each (mkActing actor "") (m_Team manifest) floor (d_Changes desired) no_outcome;
          mret (Ok outcome)
      end
  end.

(** ** Reconciliation *)

(** [observeAll] of [service.go]: every adapter, the items in key order. *)
Fixpoint observe_each (team : string) (ports : list (string * Port W)) (items : list ObservedItem)
    : M W (result string (list ObservedItem)) :=
  match ports with
  | [] => mret (Ok items)
  | (asset, port) :: ports =>
      seen ← world (port_Observe port team);
      match seen with
      | Err e => mret (Err ("observe " +:+ asset +:+ ": " +:+ e))
      | Ok seen => observe_each team ports (items ++ seen)
      end
  end.

(** [sort.SliceStable] on the keys. *)
Fixpoint insert_item (x : ObservedItem) (sorted : list ObservedItem) : list ObservedItem :=
  match sorted with
  | [] => [x]
  | y :: rest =>
      if negb (bool_decide (String.le (ObservedItem_key y) (ObservedItem_key x)))
      then x :: y :: rest else y :: insert_item x rest
  end.

Definition observeAll (team : string) : M W (result string (list ObservedItem)) :=
  observed ← observe_each team (map_to_list (mg_ports m)) [];
  mret match observed with
       | Ok items => Ok (foldl (λ sorted x, insert_item x sorted) [] items)
       | Err e => Err e
       end.

Definition recordDiscovery (drift : Drift) : M W unit :=
  match mg_discoveries m with
  | None => mret tt
  | Some recorder =>
      let slot := match dr_Desired drift, dr_Observed drift with
                  | Some desired, _ => di_Slot desired
                  | None, Some observed => oi_Slot observed
                  | None, None => no_slot
                  end in
      t ← now;
      _ ← world (recorder (mkDiscovery slot (dr_Kind drift) (dr_Detail drift) t));
      mret tt
  end.

Fixpoint reconcile_each (who : acting) (team : string) (floor : Floor) (drifts : list Drift)
    (outcome : ApplyOutcome) (escalated : list Drift) : M W (ApplyOutcome * list Drift) :=
  match drifts with
  | [] => mret (outcome, escalated)
  | drift :: drifts =>
      _ ← recordDiscovery drift;
      match dr_Desired drift, Correctable drift with
      | Some desired, true =>
          r ← transformThenApply who team desired floor;
          reconcile_each who team floor drifts (sort_result outcome r) escalated
      | _, _ => reconcile_each who team floor drifts outcome (escalated ++ [drift])
      end
  end.

Definition Manager_Reconcile (actor : Subject) (manifest : Manifest)
    : M W (result manager_error (ApplyOutcome * list Drift)) :=
  resolved ← resolve_live manifest;
  match resolved with
  | (_, Err e) => mret (Err (EResolve e))
  | (floor, Ok desired) =>
      observed ← observeAll (m_Team manifest);
      match observed with
      | Err e => mret (Err (EObserve e))
      | Ok observed =>
          done_ ← reconcile_each (mkActing actor "") (m_Team manifest) floor
                    (DiffOwned desired observed (mg_ownership m)) no_outcome [];
          mret (Ok done_)
      end
  end.

(** ** Approvals *)

Definition get_approval (id : string) : M W (result approval_error Approval) :=
  t ← now; store ← read_store; mret (Get store t id).

(** The checks of [ApproveCiting] before a signature is collected. *)
Definition may_sign (approver : Subject) (approval : Approval) (t : Time) : result approval_error unit :=
  refuse negb (Approval_Pending approval t) with ErrApprovalNotPending ;
  refuse sub_IsAI approver with ErrAIApproval ;
  refuse ap_Requester approval =s? sub_ID approver with ErrSelfApproval ;
  refuse HasSignatureFrom approval (sub_ID approver) with ErrDuplicateSignature ;
  Ok tt.

Definition collect (approval : Approval) (signature : Signature) : M W (result approval_error Approval) :=
  t ← now;
  on_store (λ store, collectSignature memory_store store t approval signature).

Definition ApproveCiting (approver : Subject) (id reference : string)
    : M W (result approval_error Result) :=
  if negb (mg_approvals m) then mret (Err ErrNoStore)
  else
    got ← get_approval id;
    match got with
    | Err e => mret (Err e)
    | Ok approval =>
        t ← now;
        match may_sign approver approval t with
        | Err e => mret (Err e)
        | Ok _ =>
            floor ← world (mg_floorOf m);
            if negb (fl_Revision floor =s? ap_FloorRevision approval)
            then mret (Err (ErrFloorMoved (ap_FloorRevision approval) (fl_Revision floor)))
            else
              at_ ← now;
              collected ← collect approval (mkSignature (sub_ID approver) at_ reference);
              match collected with
              | Err e => mret (Err e)
              | Ok signed =>
                  if (0 <? SignaturesOutstanding signed)%Z
                  then mret (Ok (mkResult (ap_Change signed) "" "" (ap_ID signed) (StillNeeded signed)))
                  else
                    r ← applyOne (mkActing approver (ap_Requester signed)) (ap_Team signed)
                          (ap_Change signed) floor;
                    mret (Ok r)
              end
        end
    end.

Definition Approve (approver : Subject) (id : string) : M W (result approval_error Result) :=
  ApproveCiting approver id "".

Definition declined (approval : Approval) (approver : Subject) (reason : string) (t : Time) : Approval :=
  mkApproval (ap_ID approval) (ap_Team approval) (ap_Change approval) (ap_Requester approval)
    (ap_RequiredRoles approval) (ap_RequiredSignatures approval) (ap_FloorRevision approval)
    (ap_Reason approval) ApprovalDeclined (ap_ApprovedBy approval) (ap_Signatures approval)
    (sub_ID approver) reason (ap_CreatedAt approval) t (ap_ExpiresAt approval).

Definition Decline (approver : Subject) (id reason : string) : M W (result approval_error unit) :=
  if negb (mg_approvals m) then mret (Err ErrNoStore)
  else if reason =s? "" then mret (Err ErrNoReason)
  else
    got ← get_approval id;
    match got with
    | Err e => mret (Err e)
    | Ok approval =>
        t ← now;
        if negb (Approval_Pending approval t) then mret (Err ErrApprovalNotPending)
        else
          decided ← now; t' ← now;
          on_store (λ store, store <-? Decide store t' (declined approval approver reason decided) ;
                             Ok (store, tt))
    end.

Definition PendingApprovals (team : string) : M W (list Approval) :=
  if negb (mg_approvals m) then mret []
  else t ← now; store ← read_store; mret (Pending store t team).
End Manager.

(** ** What a trace shows *)

(** The intent asks the door about this very change. *)
Definition names (i : Intent) (change : DesiredItem) : Prop :=
  ∃ who team revision,
    int_Params i = intent_params who team change revision ∧ int_Subject i = act_subject who ∧
    int_Action i = "estate.apply" ∧ int_Resource i = "team/" +:+ team.

(** Every change handed to an adapter follows at once on the token the door issued for it. *)
Inductive decided : list event → Prop :=
| decided_nil : decided []
| decided_refused i e tr : decided tr → decided (EvSubmit i (Err e) :: tr)
| decided_applied i token change failed tr :
    names i change → decided tr →
    decided (EvSubmit i (Ok token) :: EvApply token change failed :: tr).

(** What a computation does: it extends the trace, and changes the store by the calls of
    the estate only. *)
Definition effect {W A} (c : M W A) (Q : A → list event → Prop) : Prop :=
  ∀ s a s', c s = (a, s') →
    ∃ tr ops, st_trace s' = st_trace s ++ tr ∧ Q a tr ∧
      st_store s' = run ops (st_store s) ∧ ∀ e, e ∈ ops → estate_op e.2.

(** The outcome of one change: what was asked, what was answered, what was done. *)
Inductive one_change (who : acting) (team : string) (change : DesiredItem) : Result → list event → Prop :=
| one_no_adapter r :
    res_Change r = change → res_Refused r = "" → res_Failed r ≠ "" → res_Outstanding r = "" →
    one_change who team change r []
| one_refused i e r :
    names i change → int_Subject i = act_subject who → res_Change r = change →
    res_Refused r = Error e → res_Outstanding r = "" →
    one_change who team change r [EvSubmit i (Err e)]
| one_applied i token failed r :
    names i change → int_Subject i = act_subject who →
    int_Params i !! "requester" = Some (VString (requesterFor (act_requester who) change)) →
    r = mkResult change "" (default "" failed) "" "" →
    one_change who team change r [EvSubmit i (Ok token); EvApply token change failed].

(** ** Lemmas *)

Section Effects.
Context {W : Type}.

Lemma effect_ret {A} (a : A) (Q : A → list event → Prop) : Q a [] → effect (mret a : M W A) Q.
Proof.
  intros HQ s a' s' [= <- <-]. exists [], []. rewrite app_nil_r.
  by repeat split; [..|intros e ?%not_elem_of_nil].
Qed.

Lemma effect_bind {A B} (c : M W A) (k : A → M W B) Q R :
  effect c Q → (∀ a t1, Q a t1 → effect (k a) (λ b t2, R b (t1 ++ t2))) →
  effect (mbind k c) R.
Proof.
  intros Hc Hk s b s' H. unfold mbind, M_bind in H. destruct (c s) as [a s1] eqn:Ha.
  destruct (Hc _ _ _ Ha) as (t1 & o1 & Ht1 & HQ & Hs1 & Ho1).
  destruct (Hk a t1 HQ _ _ _ H) as (t2 & o2 & Ht2 & HR & Hs2 & Ho2).
  exists (t1 ++ t2), (o1 ++ o2). rewrite Ht2, Ht1, app_assoc. split; [done|]. split; [done|]. split.
  - rewrite Hs2, Hs1. unfold run. by rewrite foldl_app.
  - intros e [?|?]%elem_of_app; auto.
Qed.

Lemma effect_weaken {A} (c : M W A) (Q R : A → list event → Prop) :
  effect c Q → (∀ a t, Q a t → R a t) → effect c R.
Proof. intros Hc HQR s a s' H. destruct (Hc _ _ _ H) as (t & o & ? & ? & ? & ?). exists t, o. auto. Qed.

(** A call that leaves trace and store alone. *)
Lemma effect_world {A} (f : W → A * W) : effect (world f) (λ _ t, t = []).
Proof.
  intros s a s'. unfold world. destruct (f (st_world s)) as [x w]. intros [= <- <-].
  exists [], []. simpl. rewrite app_nil_r. by repeat split; [..|intros e ?%not_elem_of_nil].
Qed.

Lemma effect_record e : effect (record e : M W unit) (λ _ t, t = [e]).
Proof.
  intros s a s' [= <- <-]. exists [e], []. by repeat split; [..|intros x ?%not_elem_of_nil].
Qed.

Lemma effect_read_store : effect (read_store : M W _) (λ _ t, t = []).
Proof.
  intros s a s' [= <- <-]. exists [], []. rewrite app_nil_r.
  by repeat split; [..|intros x ?%not_elem_of_nil].
Qed.

(** A store operation that is one of the estate's. *)
Lemma effect_on_store {A} (f : MemoryApprovals → result approval_error (MemoryApprovals * A)) o :
  estate_op o.2 → (∀ store store' a, f store = Ok (store', a) → store' = step store o) →
  effect (on_store f : M W _) (λ _ t, t = []).
Proof.
  intros Ho Hf s a s'. unfold on_store. destruct (f (st_store s)) as [[store' x]|e] eqn:E; intros [= <- <-].
  - exists [], [o]. simpl. rewrite app_nil_r. split; [done|]. split; [done|]. split; [by apply (Hf _ _ x)|].
    by intros e ->%list_elem_of_singleton.
  - exists [], []. rewrite app_nil_r. by repeat split; [..|intros y ?%not_elem_of_nil].
Qed.
End Effects.

(** Run the silent calls at the head of a computation. *)
Ltac silent H := eapply effect_bind; [apply H|intros ? ? ->; cbn [app]].
Ltac returns := apply effect_ret.

Lemma decided_app t1 t2 : decided t1 → decided t2 → decided (t1 ++ t2).
Proof. induction 1; intros; simpl; [done|apply decided_refused|apply decided_applied]; auto. Qed.

(** Decided, and asked in one person's name throughout. *)
Definition acted (who : Subject) (t : list event) : Prop :=
  decided t ∧ ∀ i answer, EvSubmit i answer ∈ t → int_Subject i = who.

Lemma acted_nil who : acted who [].
Proof. split; [constructor|]. by intros ? ? ?%not_elem_of_nil. Qed.

Lemma acted_app who t1 t2 : acted who t1 → acted who t2 → acted who (t1 ++ t2).
Proof. intros [? ?] [? ?]. split; [by apply decided_app|]. intros i a [?|?]%elem_of_app; eauto. Qed.

Lemma one_change_acted who team change r t : one_change who team change r t → acted (act_subject who) t.
Proof.
  destruct 1; [apply acted_nil|split; [apply decided_refused, decided_nil|]|split; [by apply decided_applied, decided_nil|]];
    intros j answer Hj; repeat (apply elem_of_cons in Hj as [Hj|Hj]; [by simplify_eq|]); by apply not_elem_of_nil in Hj.
Qed.

Section Calls.
Context {W : Type} (m : Manager W).

Lemma effect_intentFor who team change revision :
  effect (intentFor m who team change revision)
    (λ i t, t = [] ∧ int_Params i = intent_params who team change revision ∧
       int_Subject i = act_subject who ∧ int_Action i = "estate.apply" ∧ int_Resource i = "team/" +:+ team).
Proof.
  unfold intentFor, now. silent (effect_world (mg_now m)). silent (effect_world (mg_now m)).
  by returns.
Qed.

Lemma effect_submit i : effect (submit m i) (λ answer t, t = [EvSubmit i answer]).
Proof.
  unfold submit. silent (effect_world (mg_door m i)).
  eapply effect_bind; [apply effect_record|]. intros ? ? ->. by returns.
Qed.

Lemma effect_hand_over port token change :
  effect (hand_over (W:=W) port token change) (λ failed t, t = [EvApply token change failed]).
Proof.
  unfold hand_over. silent (effect_world (port_Apply port token change)).
  eapply effect_bind; [apply effect_record|]. intros ? ? ->. by returns.
Qed.

Lemma effect_openApproval actor team change floor refused :
  effect (openApproval m actor team change floor refused) (λ _ t, t = []).
Proof.
  unfold openApproval, now. silent (effect_world (mg_now m)). silent (effect_world (mg_rand m)).
  apply (effect_on_store _ (0%Z, OOpen (new_request actor team change floor refused a a0))); [done|].
  intros store store' x H. apply rbind_Ok in H as (store1 & Ho & [= <- <-]).
  unfold step. simpl. by rewrite Ho.
Qed.

(** One change: refused, or applied under the token issued for it. *)
Lemma effect_applyOne who team change floor :
  effect (applyOne m who team change floor) (one_change who team change).
Proof.
  unfold applyOne. destruct (mg_ports m !! di_Asset change) as [port|]; [|by returns; constructor].
  eapply effect_bind; [apply effect_intentFor|]. intros i ? (-> & Hp & Hs & Ha & Hr). cbn [app].
  assert (names i change) as Hn by (exists who, team, (fl_Revision floor); done).
  eapply effect_bind; [apply effect_submit|]. intros [token|e] ? ->; cbn [app].
  - eapply effect_bind; [apply effect_hand_over|]. intros failed ? ->. cbn [app].
    assert (int_Params i !! "requester" = Some (VString (requesterFor (act_requester who) change)))
      by (by rewrite Hp).
    destruct failed; returns; by eapply one_applied.
  - destruct (awaits_approval m e) as [refused|].
    + eapply effect_bind; [apply effect_openApproval|]. intros opened ? ->. cbn [app].
      destruct opened; returns; by eapply one_refused.
    + returns. by eapply one_refused.
Qed.

Lemma effect_transformChange team change :
  effect (transformChange m team change)
    (λ r t, t = [] ∧ match r with
       | Ok c => DesiredItem_key c = DesiredItem_key change
       | Err _ => True
       end).
Proof.
  unfold transformChange. destruct (mg_transform m) as [f|]; [|by returns].
  silent (effect_world (f team change)). destruct a as [c|e]; [|by returns].
  destruct (DesiredItem_key c =s? DesiredItem_key change) eqn:E; returns; [|done].
  by apply eqs_true in E.
Qed.

(** The change submitted has the identity of the change asked for. *)
Lemma effect_transformThenApply who team change floor :
  effect (transformThenApply m who team change floor)
    (λ r t, (t = [] ∧ res_Change r = change ∧ res_Refused r = "" ∧ res_Failed r ≠ "") ∨
       ∃ c, DesiredItem_key c = DesiredItem_key change ∧ one_change who team c r t).
Proof.
  unfold transformThenApply. eapply effect_bind; [apply effect_transformChange|].
  intros [c|e] ? [-> Hc]; cbn [app].
  - eapply effect_weaken; [apply effect_applyOne|]. intros r t Hr. right. by exists c.
  - returns. left. done.
Qed.

Lemma effect_transformThenApply_acted who team change floor :
  effect (transformThenApply m who team change floor) (λ _ t, acted (act_subject who) t).
Proof.
  eapply effect_weaken; [apply effect_transformThenApply|].
  intros r t [(-> & _)|(c & _ & Hc)]; [apply acted_nil|by eapply one_change_acted].
Qed.

Lemma effect_apply_each who team floor changes outcome :
  effect (apply_each m who team floor changes outcome) (λ _ t, acted (act_subject who) t).
Proof.
  revert outcome. induction changes as [|c changes IH]; intros outcome; simpl; [returns; apply acted_nil|].
  eapply effect_bind; [apply effect_transformThenApply_acted|]. intros r t1 Ht1.
  eapply effect_weaken; [apply IH|]. intros o t2 Ht2. by apply acted_app.
Qed.

Lemma effect_placedFor team : effect (placedFor m team) (λ _ t, t = []).
Proof.
  unfold placedFor. generalize (@empty (gmap string string) _) as placed.
  induction (map_to_list (mg_ports m)) as [|[asset port] ports IH]; intros placed; simpl; [by returns|].
  silent (effect_world (port_Observe port team)). apply IH.
Qed.

Lemma effect_resolve_live manifest : effect (resolve_live m manifest) (λ _ t, t = []).
Proof.
  unfold resolve_live. silent (effect_world (mg_floorOf m)). silent (effect_world (mg_placerOf m)).
  silent (effect_placedFor (m_Team manifest)). by returns.
Qed.

Lemma effect_observeAll team : effect (observeAll m team) (λ _ t, t = []).
Proof.
  unfold observeAll. eapply effect_bind; [|intros r ? Ht; returns; rewrite app_nil_r; exact Ht].
  generalize (@nil ObservedItem). induction (map_to_list (mg_ports m)) as [|[asset port] ports IH];
    intros items; simpl; [by returns|].
  silent (effect_world (port_Observe port team)). destruct a; [apply IH|by returns].
Qed.

Lemma effect_recordDiscovery drift : effect (recordDiscovery m drift) (λ _ t, t = []).
Proof.
  unfold recordDiscovery, now. destruct (mg_discoveries m) as [recorder|]; [|by returns].
  silent (effect_world (mg_now m)). eapply effect_bind; [apply effect_world|]. intros ? ? ->. by returns.
Qed.

Lemma effect_reconcile_each who team floor drifts outcome escalated :
  effect (reconcile_each m who team floor drifts outcome escalated) (λ _ t, acted (act_subject who) t).
Proof.
  revert outcome escalated. induction drifts as [|d drifts IH]; intros outcome escalated; simpl;
    [returns; apply acted_nil|].
  silent (effect_recordDiscovery d). destruct (dr_Desired d) as [desired|]; [|apply IH].
  destruct (Correctable d); [|apply IH].
  eapply effect_bind; [apply effect_transformThenApply_acted|]. intros r t1 Ht1.
  eapply effect_weaken; [apply IH|]. intros o t2 Ht2. by apply acted_app.
Qed.

Lemma effect_Apply actor manifest : effect (Apply m actor manifest) (λ _ t, acted actor t).
Proof.
  unfold Apply. silent (effect_resolve_live manifest). destruct a as [floor [desired|e]]; [|returns; apply acted_nil].
  eapply effect_bind with (Q := λ _ t, t = []).
  { unfold remember. destruct (mg_manifests m); [apply effect_world|by returns]. }
  intros [e|] ? ->; cbn [app]; [returns; apply acted_nil|].
  eapply effect_bind; [apply effect_apply_each|]. intros o t Ht. returns. by rewrite app_nil_r.
Qed.

(** What became of one change that was to be applied. *)
Definition attempted (who : acting) (team : string) (change : DesiredItem) (r : Result) (t : list event) : Prop :=
  (t = [] ∧ res_Change r = change ∧ res_Refused r = "" ∧ res_Failed r ≠ "") ∨
  ∃ c, DesiredItem_key c = DesiredItem_key change ∧ one_change who team c r t.

Lemma effect_apply_each_results who team floor changes outcome :
  effect (apply_each m who team floor changes outcome)
    (λ o t, ∃ rs traces, o = foldl sort_result outcome rs ∧ t = concat traces ∧
       Forall3 (attempted who team) changes rs traces).
Proof.
  revert outcome. induction changes as [|c changes IH]; intros outcome; simpl.
  { returns. exists [], []. by repeat constructor. }
  eapply effect_bind; [apply effect_transformThenApply|]. intros r t1 Ht1.
  eapply effect_weaken; [apply IH|]. intros o t2 (rs & traces & -> & -> & Hf).
  exists (r :: rs), (t1 :: traces). split_and!; [done|done|by constructor].
Qed.

(** [Apply] fails before it asks anything; else every change of the resolved manifest was
    attempted, in order. *)
Lemma effect_Apply_results actor manifest :
  effect (Apply m actor manifest) (λ r t,
    match r with
    | Err _ => t = []
    | Ok o => ∃ floor placer placed desired rs traces, ResolveWith manifest floor placer placed = Ok desired ∧
        o = foldl sort_result no_outcome rs ∧ t = concat traces ∧
        Forall3 (attempted (mkActing actor "") (m_Team manifest)) (d_Changes desired) rs traces
    end).
Proof.
  unfold Apply. eapply effect_bind with (Q := λ r t, t = [] ∧ ∃ placer placed, r.2 = ResolveWith manifest r.1 placer placed).
  { unfold resolve_live. silent (effect_world (mg_floorOf m)). silent (effect_world (mg_placerOf m)).
    silent (effect_placedFor (m_Team manifest)). returns. split; [done|]. by eexists _, _. }
  intros [floor resolved] ? (-> & placer & placed & Hr). cbn [app fst snd] in *. destruct resolved as [desired|e]; [|by returns].
  eapply effect_bind with (Q := λ _ t, t = []).
  { unfold remember. destruct (mg_manifests m); [apply effect_world|by returns]. }
  intros [e|] ? ->; cbn [app]; [by returns|].
  eapply effect_bind; [apply effect_apply_each_results|]. intros o t (rs & traces & -> & -> & Hf). returns.
  rewrite app_nil_r. by exists floor, placer, placed, desired, rs, traces.
Qed.

Lemma effect_Reconcile actor manifest : effect (Manager_Reconcile m actor manifest) (λ _ t, acted actor t).
Proof.
  unfold Manager_Reconcile. silent (effect_resolve_live manifest).
  destruct a as [floor [desired|e]]; [|returns; apply acted_nil].
  silent (effect_observeAll (m_Team manifest)). destruct a as [observed|e]; [|returns; apply acted_nil].
  eapply effect_bind; [apply effect_reconcile_each|]. intros o t Ht. returns. by rewrite app_nil_r.
Qed.
End Calls.

Section Approving.
Context {W : Type} (m : Manager W).

Lemma effect_get_approval id : effect (get_approval m id) (λ _ t, t = []).
Proof.
  unfold get_approval, now. silent (effect_world (mg_now m)).
  eapply effect_bind; [apply effect_read_store|]. intros store ? ->. by returns.
Qed.

Lemma effect_collect approval signature : effect (collect m approval signature) (λ _ t, t = []).
Proof.
  unfold collect, now. silent (effect_world (mg_now m)).
  apply (effect_on_store _ (a, OSign (ap_ID approval) signature)); [done|].
  intros store store' x H. unfold collectSignature in H. simpl in H. unfold step. simpl. by rewrite H.
Qed.

Lemma effect_ApproveCiting approver id reference :
  effect (ApproveCiting m approver id reference) (λ _ t, acted approver t).
Proof.
  unfold ApproveCiting, now. destruct (negb (mg_approvals m)); [returns; apply acted_nil|].
  silent (effect_get_approval id). destruct a as [a|e]; [|returns; apply acted_nil].
  silent (effect_world (mg_now m)). destruct (may_sign _ _ _); [|returns; apply acted_nil].
  silent (effect_world (mg_floorOf m)). destruct (negb _); [returns; apply acted_nil|].
  silent (effect_world (mg_now m)).
  eapply effect_bind; [apply effect_collect|]. intros [signed|e] ? ->; cbn [app]; [|returns; apply acted_nil].
  destruct (0 <? _)%Z; [returns; apply acted_nil|].
  eapply effect_bind; [apply effect_applyOne|]. intros r t Ht%one_change_acted. returns.
  by rewrite app_nil_r.
Qed.

Lemma effect_Decline approver id reason : effect (Decline m approver id reason) (λ _ t, t = []).
Proof.
  unfold Decline, now. destruct (negb (mg_approvals m)); [by returns|]. destruct (reason =s? ""); [by returns|].
  silent (effect_get_approval id). destruct a as [a|e]; [|by returns].
  silent (effect_world (mg_now m)). destruct (negb _); [by returns|].
  silent (effect_world (mg_now m)). rename a1 into decided_at.
  silent (effect_world (mg_now m)). rename a1 into t.
  apply (effect_on_store _ (t, ODecide (declined a approver reason decided_at))); [done|].
  intros store store' x H. apply rbind_Ok in H as (store1 & Hd & [= <- <-]).
  unfold step. simpl. by rewrite Hd.
Qed.
End Approving.

(** ** Runs of the manager *)

Inductive call :=
| CApply (actor : Subject) (manifest : Manifest)
| CReconcile (actor : Subject) (manifest : Manifest)
| CApprove (approver : Subject) (id reference : string)
| CDecline (approver : Subject) (id reason : string).

Definition perform_call {W} (m : Manager W) (c : call) : M W unit :=
  match c with
  | CApply actor manifest => _ ← Apply m actor manifest; mret tt
  | CReconcile actor manifest => _ ← Manager_Reconcile m actor manifest; mret tt
  | CApprove approver id reference => _ ← ApproveCiting m approver id reference; mret tt
  | CDecline approver id reason => _ ← Decline m approver id reason; mret tt
  end.

Fixpoint run_calls {W} (m : Manager W) (calls : list call) : M W unit :=
  match calls with
  | [] => mret tt
  | c :: calls => _ ← perform_call m c; run_calls m calls
  end.

Lemma effect_forget {W A} (c : M W A) (Q : A → list event → Prop) :
  effect c Q → (∀ a t, Q a t → decided t) → effect (_ ← c; mret tt) (λ _ t, decided t).
Proof.
  intros Hc HQ. eapply effect_bind; [exact Hc|]. intros a t Ha. returns. rewrite app_nil_r. by eapply HQ.
Qed.

Lemma effect_perform_call {W} (m : Manager W) c : effect (perform_call m c) (λ _ t, decided t).
Proof.
  destruct c; (eapply effect_forget;
    [first [apply effect_Apply|apply effect_Reconcile|apply effect_ApproveCiting|apply effect_Decline]|]).
  1-3: by intros ? ? [? _]. intros _ ? ->. constructor.
Qed.

Lemma effect_run_calls {W} (m : Manager W) calls : effect (run_calls m calls) (λ _ t, decided t).
Proof.
  induction calls as [|c calls IH]; simpl; [returns; constructor|].
  eapply effect_bind; [apply effect_perform_call|]. intros ? t1 Ht1.
  eapply effect_weaken; [apply IH|]. intros ? t2 Ht2. by apply decided_app.
Qed.

(** C4: nothing reaches an adapter without a decision. Through any sequence of applies,
    reconciliations, approvals and declines, whatever the door, the adapters and the other
    collaborators answer, every change handed to an adapter follows at once on the token
    the door issued for the intent that names this very change (asset, kind, name, tier,
    gate, cluster and team), and a change the door refused is never applied; and every
    stored approval is sound: what was approved was signed by the required number of
    distinct people, none the requester. *)
Theorem every_change_was_decided {W} (m : Manager W) calls w s' :
  run_calls m calls (mkState w ∅ []) = (tt, s') →
  decided (st_trace s') ∧
  ∃ ops, (∀ e, e ∈ ops → estate_op e.2) ∧ st_store s' = run ops ∅ ∧
    ∀ id a, st_store s' !! id = Some a →
      ap_ID a = id ∧ ∃ t a0, (t, OOpen a0) ∈ ops ∧ ap_ID a0 = id ∧ sound ops a0 a.
Proof.
  intros H. destruct (effect_run_calls m calls _ _ _ H) as (tr & ops & Htr & Hd & Hst & Hops).
  simpl in *. rewrite Htr. split; [done|]. exists ops. do 2 (split; [done|]).
  intros id a Ha. rewrite Hst in Ha. assert (H0 : store_sound [] ∅) by done.
  apply (run_sound ops [] ∅ H0 Hops id a Ha).
Qed.

(** ** One approval *)

Lemma bind_inv {W A B} (c : M W A) (k : A → M W B) s b s' :
  mbind k c s = (b, s') → ∃ a s1, c s = (a, s1) ∧ k a s1 = (b, s').
Proof. unfold mbind, M_bind. destruct (c s) as [a s1]. intros H. by exists a, s1. Qed.

Lemma world_inv {W A} (f : W → A * W) s a s' :
  world f s = (a, s') → st_store s' = st_store s ∧ st_trace s' = st_trace s.
Proof. unfold world. destruct (f (st_world s)). by intros [= <- <-]. Qed.

Lemma may_sign_Ok approver a t :
  may_sign approver a t = Ok tt ↔
  Approval_Pending a t = true ∧ sub_IsAI approver = false ∧ ap_Requester a ≠ sub_ID approver ∧
  sub_ID approver ∉ Signatories a.
Proof.
  unfold may_sign. rewrite !refuse_Ok, negb_false_iff, eqs_false, HasSignatureFrom_false. tauto.
Qed.

Lemma Get_Pending store t t' id a :
  Get store t id = Ok a → Approval_Pending a t' = true → store !! id = Some a.
Proof.
  unfold Get. destruct (store !! id) as [b|]; [|done]. destruct (_ && _); intros [= <-]; [|done].
  by intros [? _]%Approval_Pending_true.
Qed.

Lemma outstanding_nonneg a : (0 ≤ SignaturesOutstanding a)%Z.
Proof.
  unfold SignaturesOutstanding. destruct (Z.ltb_spec (SignaturesRequired a - Z.of_nat (length (CollectedSignatures a))) 0); lia.
Qed.

Lemma signed_complete a s :
  SignaturesOutstanding (signed a s) = 0%Z → ap_State (signed a s) = ApprovalApproved.
Proof.
  unfold signed. destruct (Z.eqb_spec (SignaturesOutstanding (with_signatures a (ap_Signatures a ++ [s]))) 0); done.
Qed.

(** What one call of [ApproveCiting] may do. *)
Definition approval_outcome {W} (approver : Subject) (id reference : string) (s s' : state W)
    (r : result approval_error Result) (tr : list event) : Prop :=
  match r with
  | Err _ => tr = [] ∧ st_store s' = st_store s
  | Ok res => ∃ a t at_,
      st_store s !! id = Some a ∧ Approval_Pending a t = true ∧ sub_IsAI approver = false ∧
      sub_ID approver ≠ ap_Requester a ∧ sub_ID approver ∉ Signatories a ∧
      let a' := signed a (mkSignature (sub_ID approver) at_ reference) in
      st_store s' !! id = Some a' ∧
      if (0 <? SignaturesOutstanding a')%Z
      then tr = [] ∧ res = mkResult (ap_Change a) "" "" id (StillNeeded a')
      else ap_State a' = ApprovalApproved ∧
           one_change (mkActing approver (ap_Requester a)) (ap_Team a) (ap_Change a) res tr
  end.

Lemma approve_signed {W} (m : Manager W) approver id reference a t at_ floor s r s' :
  st_store s !! id = Some a → ap_ID a = id → may_sign approver a t = Ok tt →
  (collected ← collect m a (mkSignature (sub_ID approver) at_ reference);
   match collected with
   | Err e => mret (Err e)
   | Ok signed =>
       if (0 <? SignaturesOutstanding signed)%Z
       then mret (Ok (mkResult (ap_Change signed) "" "" (ap_ID signed) (StillNeeded signed)))
       else
         r ← applyOne m (mkActing approver (ap_Requester signed)) (ap_Team signed) (ap_Change signed) floor;
         mret (Ok r)
   end) s = (r, s') →
  ∃ tr, st_trace s' = st_trace s ++ tr ∧ approval_outcome approver id reference s s' r tr.
Proof.
  intros Ha Hid (Hp & Hai & Hreq & Hdup)%may_sign_Ok H.
  unfold collect, now, mbind, M_bind, world, on_store in H.
  destruct (mg_now m (st_world s)) as [t' w]. simpl in H. unfold collectSignature in H. simpl in H.
  destruct (Sign (st_store s) t' (ap_ID a) _) as [[store' a']|e] eqn:Hs.
  - apply Sign_Ok in Hs as (a1 & Ha1 & Hp1 & _ & _ & Ha' & ->). rewrite Hid in *.
    rewrite Ha in Ha1. injection Ha1 as <-.
    destruct (signed_request a (mkSignature (sub_ID approver) at_ reference)) as [Hsame _].
    rewrite Ha' in H. rewrite (sr_change _ _ Hsame), (sr_id _ _ Hsame), (sr_requester _ _ Hsame), (sr_team _ _ Hsame) in H.
    destruct (0 <? _)%Z eqn:Hout.
    + injection H as <- <-. exists []. rewrite app_nil_r. split; [done|].
      exists a, t, at_. do 5 (split; [done|]). cbv zeta. simpl. rewrite lookup_insert_eq, Hout, ?Ha', ?Hid.
      done.
    + destruct (applyOne m _ _ _ floor _) as [res s1] eqn:Hone. injection H as <- <-.
      destruct (effect_applyOne m _ _ _ _ _ _ _ Hone) as (tr & ops & Htr & Hc & Hst & Hops).
      simpl in Htr, Hst. exists tr. split; [done|].
      exists a, t, at_. do 5 (split; [done|]). cbv zeta. rewrite Hout.
      assert (ap_State (signed a (mkSignature (sub_ID approver) at_ reference)) = ApprovalApproved) as Happ.
      { apply signed_complete. apply Z.ltb_ge in Hout.
        pose proof (outstanding_nonneg (signed a (mkSignature (sub_ID approver) at_ reference))). lia. }
      split; [|done]. rewrite Hst. apply run_frozen; [apply lookup_insert_eq|].
      intros e _. apply not_true_iff_false. rewrite Approval_Pending_true, Happ. by intros [? _].
  - injection H as <- <-. exists []. rewrite app_nil_r. done.
Qed.

(** The floor an approval reads, after the clock was read for the record and for its expiry. *)
Definition floor_read {W} (m : Manager W) (s : state W) : Floor :=
  (mg_floorOf m (mg_now m (mg_now m (st_world s)).2).2).1.

Lemma world_snd {W A} (f : W → A * W) (s : state W) a s' : world f s = (a, s') → (a, st_world s') = f (st_world s).
Proof. unfold world. destruct (f (st_world s)). by intros [= <- <-]. Qed.

(** Nobody signs under another floor than the one the request was made under. *)
Lemma signed_under_its_floor {W} (m : Manager W) approver id reference s res s' :
  ApproveCiting m approver id reference s = (Ok res, s') →
  ∃ a, st_store s !! id = Some a ∧ fl_Revision (floor_read m s) = ap_FloorRevision a.
Proof.
  unfold ApproveCiting. destruct (negb (mg_approvals m)); [by intros [= ]|]. intros H.
  apply bind_inv in H as (got & s1 & Hgot & H). unfold get_approval in Hgot.
  apply bind_inv in Hgot as (t0 & s0 & Hnow & Hgot). pose proof (world_inv _ _ _ _ Hnow) as [Hst0 _].
  injection Hgot as <- <-. rewrite Hst0 in H. destruct (Get (st_store s) t0 id) as [a|e] eqn:Hget; [|by injection H].
  apply bind_inv in H as (t & s1 & Hnow1 & H). destruct (may_sign approver a t) as [[]|e] eqn:Hmay; [|by injection H].
  apply bind_inv in H as (floor & s2 & Hfloor & H). destruct (fl_Revision floor =s? ap_FloorRevision a) eqn:Hrev; [|by injection H].
  exists a. apply may_sign_Ok in Hmay as [Hp _]. split; [by eapply Get_Pending|]. apply eqs_true in Hrev. rewrite <- Hrev.
  apply world_snd in Hnow, Hnow1, Hfloor. unfold floor_read. rewrite <- Hnow. cbn [snd]. rewrite <- Hnow1. cbn [snd]. by rewrite <- Hfloor.
Qed.

(** C9: an approval does exactly what was asked, once. A call of [ApproveCiting] is refused
    without any effect, or it adds one signature to a pending record whose floor has not
    moved, by someone who is not an AI, not the requester and has not signed. While
    signatures are outstanding the door is not asked and nothing is applied. The completing
    signature marks the record approved before the door is asked, once, on behalf of the
    completing approver and naming the requester for a gated change, about the stored
    change itself; an adapter is handed that change only under the token that answers. *)
Theorem approve_exactly {W} (m : Manager W) approver id reference s r s' :
  (∀ i a, st_store s !! i = Some a → ap_ID a = i) →
  ApproveCiting m approver id reference s = (r, s') →
  (∃ tr, st_trace s' = st_trace s ++ tr ∧ approval_outcome approver id reference s s' r tr) ∧
  (is_ok r = true → ∃ a, st_store s !! id = Some a ∧ fl_Revision (floor_read m s) = ap_FloorRevision a).
Proof.
  intros Hids H. split; [|destruct r; [intros _; by eapply signed_under_its_floor|done]]. unfold ApproveCiting in H.
  assert (Hnone : ∀ e, (Err e, s) = (r, s') →
    ∃ tr, st_trace s' = st_trace s ++ tr ∧ approval_outcome approver id reference s s' r tr).
  { intros e [= <- <-]. exists []. by rewrite app_nil_r. }
  destruct (negb (mg_approvals m)); [by eapply Hnone|]. clear Hnone.
  apply bind_inv in H as (got & s1 & Hgot & H). unfold get_approval in Hgot.
  apply bind_inv in Hgot as (t0 & s0 & [Hs0 Ht0]%world_inv & Hgot).
  injection Hgot as <- <-. rewrite Hs0 in H.
  assert (Hnone : ∀ e s2 s3, st_store s2 = st_store s → st_trace s2 = st_trace s → (Err e, s2) = (r, s3) →
    ∃ tr, st_trace s3 = st_trace s ++ tr ∧ approval_outcome approver id reference s s3 r tr).
  { intros e s2 s3 Hst Htr [= <- <-]. exists []. rewrite app_nil_r. done. }
  destruct (Get (st_store s) t0 id) as [a|e] eqn:Hget; [|by eapply Hnone].
  apply bind_inv in H as (t & s1 & [Hs1 Ht1]%world_inv & H).
  destruct (may_sign approver a t) as [[]|e] eqn:Hmay; [|eapply (Hnone e s1); [congruence..|done]].
  apply bind_inv in H as (floor & s2 & [Hs2 Ht2]%world_inv & H).
  destruct (negb _); [eapply (Hnone _ s2); [congruence..|exact H]|].
  apply bind_inv in H as (at_ & s3 & [Hs3 Ht3]%world_inv & H).
  assert (st_store s3 !! id = Some a) as Ha.
  { apply may_sign_Ok in Hmay as [Hp _]. rewrite Hs3, Hs2, Hs1, Hs0. by eapply Get_Pending. }
  assert (ap_ID a = id) as Hid.
  { apply Hids. by rewrite <- Ha, Hs3, Hs2, Hs1, Hs0. }
  destruct (approve_signed m approver id reference a t at_ floor s3 r s' Ha Hid Hmay H) as (tr & Htr & Ho).
  exists tr. split; [congruence|].
  assert (st_store s3 = st_store s) as Hst by congruence.
  unfold approval_outcome in *. by rewrite Hst in Ho.
Qed.

(** ** Around the guarantees *)

(** An admission check in front of the door: an app that is not admitted never reaches it. *)
Definition admission_transform {W} (Format : Time → string)
    (get : W → option (string → string → string → Admissions.store_answer)) (clock : W → Time)
    (team : string) (change : DesiredItem) (w : W) : result string DesiredItem * W :=
  (Admissions.AdmissionCheck_Transform Format (get w) (clock w) team change, w).

Lemma unadmitted_is_not_submitted {W} (m : Manager W) Format get clock who team change floor s env refusal :
  mg_transform m = Some (admission_transform Format get clock) →
  Admissions.admissionEnvironmentOf change = Some env →
  Admissions.RequireAdmission Format (get (st_world s)) (clock (st_world s)) team (di_Name change) env
    = Some refusal →
  transformThenApply m who team change floor s =
    (mkResult change "" ("the change was not submitted: " +:+ Admissions.NotAdmitted_Error refusal) "" "", s).
Proof.
  intros Ht Henv Hr. unfold transformThenApply, transformChange, mbind, M_bind, mret, M_ret. rewrite Ht.
  unfold world, admission_transform, Admissions.AdmissionCheck_Transform. rewrite Henv, Hr.
  by destruct s.
Qed.

(** A gated drift is not converged by a reconcile pass, whatever was approved before. *)
Lemma gated_drift_is_not_converged {W} (m : Manager W) who team floor drifts outcome escalated :
  (∀ d i, d ∈ drifts → dr_Desired d = Some i → di_Gate i ≠ GateNone) →
  effect (reconcile_each m who team floor drifts outcome escalated)
    (λ r t, t = [] ∧ r = (outcome, escalated ++ drifts)).
Proof.
  revert escalated. induction drifts as [|d drifts IH]; intros escalated Hd; simpl.
  { returns. by rewrite app_nil_r. }
  silent (effect_recordDiscovery m d).
  assert (Hn : ∀ i, dr_Desired d = Some i → Correctable d = false).
  { intros i Hi. apply not_true_iff_false. rewrite Correctable_true. intros (i' & Hi' & _ & _ & Hg).
    assert (i' = i) as -> by congruence. apply (Hd d i); [by left|done|done]. }
  assert (Hrest : effect (reconcile_each m who team floor drifts outcome (escalated ++ [d]))
    (λ r t, t = [] ∧ r = (outcome, escalated ++ d :: drifts))).
  { eapply effect_weaken; [apply IH; intros d' i Hin; apply Hd; by right|].
    intros r t [-> ->]. by rewrite <- app_assoc. }
  destruct (dr_Desired d) as [i|]; [by rewrite (Hn i eq_refl)|exact Hrest].
Qed.

(** A door in the same process answers with a [DecisionError], which is not a [Refused]:
    the change waits for approval and no approval is opened. *)
Theorem in_process_refusal_opens_nothing {W} (m : Manager W) d :
  awaits_approval m (ErrorDecision d) = None ∧
  (dec_Action d = ActionRequireApproval → AwaitingApproval (Some (ErrorDecision d)) = true).
Proof.
  split; [unfold awaits_approval; by destruct (mg_approvals m)|].
  intros H. unfold AwaitingApproval, DecisionFrom. simpl. by rewrite H.
Qed.

(** ** Witnesses *)

Definition demo_alice : Subject := mkSubject "alice" ["developer"] [] false ∅.
Definition demo_bob : Subject := mkSubject "bob" ["platform"] [] false ∅.

(** The world is a counter that ticks at every reading of the clock. The door asks for a
    second person on a gated change without a requester. *)
Definition demo_door (i : Intent) (w : Z) : result go_error ExecutionToken * Z :=
  if negb (param_string (int_Params i) "gate" =s? GateNone) && (param_string (int_Params i) "requester" =s? "")
  then (Err (ErrorRefused (mkRefused ActionRequireApproval "a second person must approve" ["platform"] "")), w)
  else (Ok (mkExecutionToken "tok" (int_ID i) (int_Resource i) "" w (w + 100)), w).

Definition demo_port : Port Z := mkPort (λ _ w, (Ok [], w)) (λ _ _ w, (None, w)).

Definition demo_manager : Manager Z := mkManager demo_door
  {["kafka" := demo_port; "postgres" := demo_port; "harbor" := demo_port; "app" := demo_port]}
  (λ w, (demo_rules, w)) None None DefaultOwnership true (λ w, (Some demo_fleet, w)) None
  (λ w, (w, w + 1)%Z) (λ w, ("ABCDEFGHIJKLMNOP", w)).

Definition demo_gated : DesiredItem :=
  mkDesiredItem "kafka" "topic" "pay.settlements" "" TierProd GatePlatform "main" no_slot LOther [] "" "" "" None ∅ ∅.

Definition demo_small : Manifest :=
  mkManifest "payments" "pay" TierShared "" []
    (Some (mkKafkaSection "main" [mkItem "settlements" TierProd] [])) [] None ∅.

Definition demo_start : state Z := mkState 62135596800000000000%Z ∅ [].
Definition demo_calls : list call :=
  [CApply demo_alice demo_small;
   CApprove demo_alice "APR-payments-pay.settlements-6-ABCDEFGHIJKL" "";
   CApprove demo_bob "APR-payments-pay.settlements-5-ABCDEFGHIJKL" "CHG-7"].
Definition demo_end : state Z := (run_calls demo_manager demo_calls demo_start).2.

(** Two gated changes wait; the requester cannot approve the second; the other approver's
    signature applies the change he signed. *)
Example demo_trace :
  map (λ e, match e with
       | EvSubmit i (Ok _) => ("allowed", param_string (int_Params i) "name", param_string (int_Params i) "requester")
       | EvSubmit i (Err _) => ("refused", param_string (int_Params i) "name", param_string (int_Params i) "requester")
       | EvApply _ c _ => ("applied", di_Name c, "")
       end) (st_trace demo_end) =
  [("refused", "pay.", ""); ("refused", "pay.settlements", "");
   ("allowed", "pay.settlements", "alice"); ("applied", "pay.settlements", "")].
Proof. by vm_compute. Qed.

Lemma every_change_was_decided_witness :
  length (st_trace demo_end) = 4 ∧ decided (st_trace demo_end).
Proof.
  split; [vm_compute; reflexivity|].
  apply (every_change_was_decided demo_manager demo_calls 62135596800000000000%Z demo_end).
  vm_compute. reflexivity.
Defined.

(** The completing signature, seen alone. *)
Definition demo_before : state Z := (run_calls demo_manager (take 1 demo_calls) demo_start).2.

Lemma approve_exactly_witness :
  let c := ApproveCiting demo_manager demo_bob "APR-payments-pay.settlements-5-ABCDEFGHIJKL" "CHG-7" demo_before in
  match c.1 with Ok r => Applied r | Err _ => false end = true ∧
  (∃ tr, st_trace c.2 = st_trace demo_before ++ tr ∧
    approval_outcome demo_bob "APR-payments-pay.settlements-5-ABCDEFGHIJKL" "CHG-7" demo_before c.2 c.1 tr) ∧
  (is_ok c.1 = true → ∃ a, st_store demo_before !! "APR-payments-pay.settlements-5-ABCDEFGHIJKL" = Some a ∧
    fl_Revision (floor_read demo_manager demo_before) = ap_FloorRevision a).
Proof.
  intros c. split; [vm_compute; reflexivity|].
  apply (approve_exactly demo_manager demo_bob "APR-payments-pay.settlements-5-ABCDEFGHIJKL" "CHG-7"
    demo_before c.1 c.2).
  - intros i a H. revert i a H. change (map_Forall (λ i a, ap_ID a = i) (st_store demo_before)).
    apply (bool_decide_eq_true_1 _). vm_compute. reflexivity.
  - unfold c. destruct (ApproveCiting _ _ _ _ _). reflexivity.
Defined.

(** Sticky placement reads the deployment's name back by the team's, while the deployment
    is named by the owner's: an app of a team that owns under another name is not found. *)
Example sticky_placement_is_lost :
  let running := mkObservedItem "app" "deployment" (deployment_name demo_manifest demo_app) "b"
                   (mkSlot "b" "pay" "pay-api") LOther [] "" "" "" ∅ in
  placed_from (m_Team demo_manifest) ∅ [running] = {["pay-api" := "b"]} ∧
  placed_from (m_Team demo_manifest) ∅ [running] !! app_Name demo_app = None.
Proof. by vm_compute. Qed.
