(* ===== verification/Discovery.v ===== *)
(** Discoveries on the audit chain: [ChainRecorder] of [discovery.go] of the estate, which is
    what a reconcile pass hands its drifts to. They are written beside the decisions, under an
    action of their own. *)
From S2P Require Import Prelude Contracts Bucket AuditChain EstateFloor Reconcile Manager.

(** ** discovery.go *)

Section recorder.
Context {W : Type}.

(** The logger may be nil. *)
Record ChainRecorder := mkChainRecorder {
  cr_Audit : option (AuditRecord → W → result string AuditRecord * W);
  cr_Subject : string;
}.

Definition no_audit_logger : string :=
  "discovery: no audit logger configured — an unrecorded discovery is the same as never having looked".
Definition recorder_subject (c : ChainRecorder) : string := if cr_Subject c =s? "" then "reconciler" else cr_Subject c.
Definition ActionDiscovered : string := "footprint.discovered".

Definition discovery_record (subject : string) (discovery : Discovery) : AuditRecord :=
  mkAuditRecord (disc_Observed discovery) ("DISCOVERY-" +:+ Slot_Key (disc_Slot discovery)) subject ActionDiscovered
    (disc_Kind discovery) "reconciler" false "" "" "" "" "" "".

Definition ChainRecorder_Record (c : ChainRecorder) (discovery : Discovery) (w : W) : option string * W :=
  match cr_Audit c with
  | None => (Some no_audit_logger, w)
  | Some Log =>
      match Log (discovery_record (recorder_subject c) discovery) w with
      | (Ok _, w) => (None, w)
      | (Err e, w) => (Some e, w)
      end
  end.
End recorder.
Arguments ChainRecorder : clear implicits.
Arguments mkChainRecorder {W}.

(** ** On the chain *)

Section chain.
Context `{RecordCodec} {B : Type} `{!Bucket B} (sha256_hex : string → string).
Context {digest : HexDigest sha256_hex}.
Implicit Types (b : B).

(** The recorder over the audit chain, and a pass's discoveries one after another. *)
Definition chain_recorder (subject : string) : ChainRecorder B := mkChainRecorder (Some (λ rec b, Log sha256_hex b rec)) subject.
Fixpoint record_each (subject : string) (ds : list Discovery) b : list (option string) * B :=
  match ds with
  | [] => ([], b)
  | d :: ds =>
      let '(err, b) := ChainRecorder_Record (chain_recorder subject) d b in
      let '(errs, b) := record_each subject ds b in
      (err :: errs, b)
  end.

(** Those that were written. *)
Fixpoint written_ones (ds : list Discovery) (errs : list (option string)) : list Discovery :=
  match ds, errs with
  | d :: ds, None :: errs => d :: written_ones ds errs
  | _ :: ds, Some _ :: errs => written_ones ds errs
  | _, _ => []
  end.
(** A record without its place in the chain. *)
Definition unchained (rec : AuditRecord) : AuditRecord := with_hash (with_prev rec "") "".

(** The record of a discovery can be written down. *)
Definition discovery_text (subject : string) (d : Discovery) : Prop :=
  record_text (discovery_record (recorder_subject (chain_recorder subject)) d).

(** Recording a pass's discoveries keeps the chain and every record on it; each discovery that
    is not reported as failed is on it, in order, as what was found and not as a decision. *)
Lemma discoveries_extend_the_chain subject ds b :
  Forall (discovery_text subject) ds →
  well_keyed b → (sequence b + Z.of_nat (length ds) < 10 ^ 16)%Z → Verify sha256_hex b = true →
  let '(errs, b') := record_each subject ds b in
  Verify sha256_hex b' = true ∧ well_keyed b' ∧
  ∀ older, Records b 0 = Some older →
    ∃ found, Records b' 0 = Some (found ++ older) ∧
      map unchained found = reverse (map (discovery_record (recorder_subject (chain_recorder subject))) (written_ones ds errs)).
Proof.
  revert b. induction ds as [|d ds IH]; intros b Htext Hk Hroom Hv; cbn [record_each].
  { split_and!; [done..|]. intros older Ho. by exists []. }
  unfold ChainRecorder_Record at 1. cbn [chain_recorder cr_Audit]. cbn [length] in Hroom.
  apply Forall_cons in Htext as [Hd Htext].
  destruct (Log sha256_hex b _) as [[rec|e] b1] eqn:E.
  - pose proof (Log_verified sha256_hex _ _ _ _ Hd Hk ltac:(lia) Hv E) as (Hv1 & _ & Hr).
    pose proof (Log_Ok sha256_hex _ _ _ _ Hk ltac:(lia) E) as (Hrec & _ & Hk1).
    assert (sequence b1 = sequence b + 1)%Z as Hs.
    { unfold Log in E. cbv zeta in E. destruct (append_next b _) as [b2|] eqn:Ea; [|done]. injection E as _ <-.
      by apply append_next_Ok in Ea as (_ & ? & _); [|done|lia]. }
    specialize (IH b1 Htext Hk1 ltac:(lia) Hv1). destruct (record_each subject ds b1) as [errs b2]. destruct IH as (Hv2 & Hk2 & Hf).
    split_and!; [done..|]. intros older Ho. destruct (Hf (rec :: older) (Hr older Ho)) as (found & HR & Hfound).
    exists (found ++ [rec]). rewrite <- app_assoc. split; [done|]. cbn [written_ones map]. rewrite map_app, Hfound, reverse_cons. by subst rec.
  - apply Log_Err in E as ->. specialize (IH b Htext Hk ltac:(lia) Hv). destruct (record_each subject ds b) as [errs b2]. exact IH.
Qed.
End chain.

(** Without a logger a discovery is refused, never dropped in silence. *)
Lemma unrecorded_is_an_error {W} subject d (w : W) :
  ChainRecorder_Record (mkChainRecorder None subject) d w = (Some no_audit_logger, w).
Proof. done. Qed.

(** The manager's own note of a drift goes through it, and a failure to write does not stop the
    pass: the chain is then as it was. *)
Lemma a_failed_record_changes_nothing `{RecordCodec} {B : Type} `{!Bucket B} sha256_hex subject d (b : B) e b' :
  ChainRecorder_Record (chain_recorder sha256_hex subject) d b = (Some e, b') → b' = b.
Proof.
  unfold ChainRecorder_Record. cbn. destruct (Log sha256_hex b _) as [[rec|e'] b1] eqn:E; [done|]. intros [= _ <-]. by eapply Log_Err.
Qed.

(** ** Examples *)

Definition demo_slot : Slot := mkSlot "c1" "payments" "ledger".
Definition demo_discovery : Discovery := mkDiscovery demo_slot DriftChanged "replicas: 2, approved 3" 7.

Lemma discoveries_on_the_demo_chain :
  match record_each demo_sha "" [demo_discovery] demo_log2 with
  | (errs, b) => errs = [None] ∧ Verify demo_sha b = true ∧
      map (λ r, (rec_Action r, rec_IntentID r, rec_SubjectID r)) <$> Records b 1 =
        Some [("footprint.discovered", "DISCOVERY-c1/payments/ledger", "reconciler")]
  end.
Proof. vm_compute. done. Qed.

(** The detail of a discovery is not recorded: two that differ in what was found leave the
    same record. *)
Lemma the_detail_is_lost subject slot kind t :
  discovery_record subject (mkDiscovery slot kind "replicas: 2, approved 3" t) =
  discovery_record subject (mkDiscovery slot kind "image: other, approved ledger" t).
Proof. done. Qed.

(** Nor is the item of a drift on something without a slot. *)
Lemma without_a_slot_nothing_is_named :
  rec_IntentID (discovery_record "reconciler" (mkDiscovery (mkSlot "" "" "") DriftUnexpected "" 0)) = "DISCOVERY-//".
Proof. done. Qed.
