(* ===== verification/Registry.v ===== *)
(** The governed artifact registry: [mantlekeep-control/registry] (registry.go,
    lifecycle.go, resolve.go, dependents.go, source.go, promote.go), over the store port of
    contracts.go and its in-memory driver internal/store/mem.go.

    A registry keeps one entry a name, a JSON document under a key of a key-value store.
    Every operation reads the entry, computes a new one and writes it back, and nothing
    locks the entry between the read and the write. So the operations are given twice: as
    the functions of the source ([Register], [Registry_Approve], ...), and as the two halves of a
    call ([planned], then [save]) that a run of the system interleaves.

    A clock is read once inside a transition ([now]) and once when it is stamped ([now']). *)
From S2P Require Import Prelude Utf8 Contracts.

(** ** The store port *)

(** [mantlekeep.Store] as the registry relies on it. [contents] is what is durably stored;
    [reachable] says whether requests get through. A write lands or leaves the store as it
    was; a reachable store takes writes, reads back what was written (an empty value may
    come back as nil) and lists the keys with a prefix, each once, in no stated order. *)
Class KVStore (S : Type) := {
  contents : S → gmap string string;
  reachable : S → bool;
  Store_Get : S → string → result string (option string);
  Store_Put : S → string → string → S * result string unit;
  Store_List : S → string → result string (list string);
  Get_sound s k v : Store_Get s k = Ok (Some v) → contents s !! k = Some v;
  Get_reachable s k v : reachable s = true → contents s !! k = Some v → v ≠ "" → Store_Get s k = Ok (Some v);
  Put_Ok s k v s' : Store_Put s k v = (s', Ok tt) → contents s' = <[k := v]> (contents s);
  Put_Err s k v s' e : Store_Put s k v = (s', Err e) → contents s' = contents s;
  Put_reachable s k v : reachable (Store_Put s k v).1 = reachable s;
  Put_reachable_Ok s k v : reachable s = true → (Store_Put s k v).2 = Ok tt;
  List_Ok s p ks : Store_List s p = Ok ks →
    NoDup ks ∧ ∀ k, k ∈ ks ↔ is_Some (contents s !! k) ∧ HasPrefix k p = true;
  List_reachable s p : reachable s = true → is_ok (Store_List s p) = true;
}.

(** ** The in-memory driver: internal/store/mem.go *)

Notation Mem := (gmap string string).
Definition NewMem : Mem := ∅.
Definition Mem_Put (m : Mem) (key value : string) : Mem * result string unit :=
  (<[key := value]> m, Ok tt).
Definition Mem_Get (m : Mem) (key : string) : result string (option string) :=
  match m !! key with
  | None => Err ("key " +:+ Quote key +:+ " not found")
  | Some v => Ok (Some v)
  end.
Definition Mem_List (m : Mem) (prefix : string) : result string (list string) :=
  Ok (filter (λ k, HasPrefix k prefix = true) (map_to_list m).*1).

#[refine, export] Instance mem_store : KVStore Mem := {|
  contents := λ m, m;
  reachable := λ _, true;
  Store_Get := Mem_Get;
  Store_Put := Mem_Put;
  Store_List := Mem_List;
|}.
Proof.
  - unfold Mem_Get. intros m k v Hg. destruct (m !! k); by simplify_eq.
  - unfold Mem_Get. intros m k v _ Hk _. destruct (m !! k); by simplify_eq.
  - intros m k v m' [= <-]. done.
  - intros m k v m' e [=].
  - done.
  - done.
  - intros m p ks [= <-]. split; [apply NoDup_filter, NoDup_fst_map_to_list|].
    intros k. rewrite list_elem_of_filter, list_elem_of_fmap. split.
    + intros [Hp ([k' v] & -> & Hin)]. apply elem_of_map_to_list in Hin. by split; [exists v|].
    + intros [[v Hv] Hp]. split; [done|]. exists (k, v). split; [done|]. by apply elem_of_map_to_list.
  - done.
Defined.

(** A store that can be down: reads and writes fail, what is stored stays. *)
Record Flaky := mkFlaky { fl_data : Mem; fl_up : bool }.

#[refine, export] Instance flaky_store : KVStore Flaky := {|
  contents := fl_data;
  reachable := fl_up;
  Store_Get := λ s k, if fl_up s then Mem_Get (fl_data s) k else Err "unreachable";
  Store_Put := λ s k v, if fl_up s then (mkFlaky (<[k := v]> (fl_data s)) true, Ok tt)
                        else (s, Err "unreachable");
  Store_List := λ s p, if fl_up s then Mem_List (fl_data s) p else Err "unreachable";
|}.
Proof.
  - intros [m []] k v; [|done]. exact (Get_sound (S := Mem) m k v).
  - intros [m []] k v; [|done]. exact (Get_reachable (S := Mem) m k v).
  - intros [m []] k v s' [= <-]. done.
  - intros [m []] k v s' e; [done|]. by intros [= <-].
  - by intros [m []] k v.
  - by intros [m []] k v.
  - intros [m []] p ks; [|done]. exact (List_Ok (S := Mem) m p ks).
  - by intros [m []] p.
Defined.

(** ** Records *)

Notation Kind := string (only parsing).
Notation Status := string (only parsing).
Definition StatusDraft : Status := "draft".
Definition StatusInReview : Status := "review".
Definition StatusPublished : Status := "published".
Definition StatusDeprecated : Status := "deprecated".
Definition StatusDemised : Status := "demised".

Record Version := mkVersion {
  v_Version : string;
  v_Env : string;
  v_Status : Status;
  v_Ref : string;
  v_Manifest : string;
  v_Provenance : gmap string string;
  v_Default : bool;
  v_ProposedBy : string;
  v_ApprovedBy : string;
  v_ChangeRef : string;
  v_TestPassed : bool;
  v_TestedAt : Z;
  v_TestRef : string;
  v_PublishedAt : Z;
  v_UpdatedAt : Z;
}.

Record Registry_Entry := mkEntry {
  en_Name : string;
  en_Kind : Kind;
  en_Title : string;
  en_Owner : string;
  en_Versions : list Version;
}.

Record PromotionPolicy := mkPromotionPolicy {
  RequiresApproval : bool;
  RequireSoD : bool;
  RequireTestBeforePromote : bool;
}.
Definition LooseDev : PromotionPolicy := mkPromotionPolicy false false false.
Definition SealedProd : PromotionPolicy := mkPromotionPolicy true true true.

(** The store a registry writes is the state its operations pass on. *)
Record Registry := mkRegistry {
  env : string;
  policy : PromotionPolicy;
}.

Record Registration := mkRegistration {
  rg_Name : string;
  rg_Kind : Kind;
  rg_Title : string;
  rg_Owner : string;
  rg_Version : string;
  rg_Ref : string;
  rg_Manifest : string;
}.

Inductive registry_error :=
| NameAndVersionRequired
| AlreadyExists (name version : string)
| EntryNotFound (name : string)
| VersionNotFound (name version : string)
| WrongStatus (name version : string) (status : Status) (wanted : string)
| MustPassTest (name version : string)
| SeparationOfDuties (approver : string)
| StillUsed (name version : string) (deps : list string)
| OnlyPublishedDefault
| StrictPinUnavailable (name version : string)
| NoDefault (name version : string)
| FromFetch (e : string)
| FromStore (e : string)
| FromCodec (e : string).

(** ** The JSON codec of an entry *)

Definition map_text (m : gmap string string) : Prop :=
  map_Forall (λ k v, ValidString k = true ∧ ValidString v = true) m.
Definition version_text (v : Version) : Prop :=
  Forall (λ s, ValidString s = true)
    [v_Version v; v_Env v; v_Status v; v_Ref v; v_ProposedBy v; v_ApprovedBy v; v_ChangeRef v; v_TestRef v] ∧
  map_text (v_Provenance v).
Definition entry_text (e : Registry_Entry) : Prop :=
  Forall (λ s, ValidString s = true) [en_Name e; en_Kind e; en_Title e; en_Owner e] ∧
  Forall version_text (en_Versions e).

Definition with_Manifest (m : string) (v : Version) : Version :=
  mkVersion (v_Version v) (v_Env v) (v_Status v) (v_Ref v) m (v_Provenance v) (v_Default v)
    (v_ProposedBy v) (v_ApprovedBy v) (v_ChangeRef v) (v_TestPassed v) (v_TestedAt v) (v_TestRef v)
    (v_PublishedAt v) (v_UpdatedAt v).

Definition with_Versions (vs : list Version) (e : Registry_Entry) : Registry_Entry :=
  mkEntry (en_Name e) (en_Kind e) (en_Title e) (en_Owner e) vs.

Definition compacted_version (Compact : string → string) (v : Version) : Version :=
  with_Manifest (Compact (v_Manifest v)) v.
Definition compacted (Compact : string → string) (e : Registry_Entry) : Registry_Entry :=
  with_Versions (map (compacted_version Compact) (en_Versions e)) e.

(** [encoding/json] on an entry. Marshalling compacts the raw manifest; what was
    marshalled reads back as the same entry with its manifests compacted, as long as the
    strings are valid UTF-8 (other bytes would be replaced). *)
Class EntryCodec := {
  Marshal : Registry_Entry → result string string;
  Unmarshal : string → result string Registry_Entry;
  Compact : string → string;
  Marshal_nonempty e raw : Marshal e = Ok raw → raw ≠ "";
  Unmarshal_Marshal e raw : entry_text e → Marshal e = Ok raw → Unmarshal raw = Ok (compacted Compact e);
  Compact_idemp m : Compact (Compact m) = Compact m;
}.

Section with_codec.
Context `{codec : EntryCodec} {S : Type} `{KVStore S}.
Implicit Types (r : Registry) (s : S) (name version : string) (now : Z).

(** ** registry.go *)

Definition entryPrefix : string := "registry/".
Definition pinPrefix : string := "registry-pin/".
Definition safeName name : string := replace_byte "/" "_" name.
Definition entry_key name : string := entryPrefix +:+ safeName name.

Definition indexOf (e : Registry_Entry) version : option nat :=
  fst <$> list_find (λ v, v_Version v = version) (en_Versions e).

(** Any error of the store reads as an entry that does not exist. *)
Definition get s name : result registry_error (option Registry_Entry) :=
  match Store_Get s (entry_key name) with
  | Err _ | Ok None => Ok None
  | Ok (Some raw) =>
      match Unmarshal raw with
      | Err e => Err (FromCodec e)
      | Ok e => Ok (Some e)
      end
  end.

Definition save s (e : Registry_Entry) : S * result registry_error unit :=
  match Marshal e with
  | Err err => (s, Err (FromCodec err))
  | Ok raw =>
      match Store_Put s (entry_key (en_Name e)) raw with
      | (s, Err err) => (s, Err (FromStore err))
      | (s, Ok tt) => (s, Ok tt)
      end
  end.

(** [if err := r.save(ctx, e); err != nil { return err }; return a, nil] *)
Definition saving {A} s (planned : result registry_error (Registry_Entry * A)) : S * result registry_error A :=
  match planned with
  | Err err => (s, Err err)
  | Ok (e, a) =>
      match save s e with
      | (s, Err err) => (s, Err err)
      | (s, Ok _) => (s, Ok a)
      end
  end.

(** The version Register appends. *)
Definition draft r now (reg : Registration) : Version :=
  mkVersion (rg_Version reg) (env r) StatusDraft (rg_Ref reg) (rg_Manifest reg) ∅ false "" "" "" false 0 "" 0 now.

(** Register up to its save. *)
Definition registering r s now (reg : Registration) : result registry_error (Registry_Entry * Registry_Entry) :=
  refuse (TrimSpace (rg_Name reg) =s? "") || (TrimSpace (rg_Version reg) =s? "") with NameAndVersionRequired ;
  found <-? get s (rg_Name reg) ;
  let e := default (mkEntry (rg_Name reg) (rg_Kind reg) (rg_Title reg) (rg_Owner reg) []) found in
  refuse bool_decide (is_Some (indexOf e (rg_Version reg))) with AlreadyExists (rg_Name reg) (rg_Version reg) ;
  let e := with_Versions (en_Versions e ++ [draft r now reg]) e in
  Ok (e, e).

Definition Register r s now (reg : Registration) : S * result registry_error Registry_Entry :=
  saving s (registering r s now reg).

Definition Registry_Get s name : result registry_error (option Registry_Entry) := get s name.

(** The list view: metadata only, in the order of the names; what cannot be read is left out. *)
Definition listed s (k : string) : option Registry_Entry :=
  match Store_Get s k with
  | Err _ | Ok None => None
  | Ok (Some raw) =>
      match Unmarshal raw with
      | Err _ => None
      | Ok e => Some (with_Versions (map (with_Manifest "") (en_Versions e)) e)
      end
  end.
Definition name_le (a b : Registry_Entry) : Prop := String.le (en_Name a) (en_Name b).
#[export] Instance name_le_dec a b : base.Decision (name_le a b) := String.le_dec _ _.
Definition Registry_List s : result registry_error (list Registry_Entry) :=
  match Store_List s entryPrefix with
  | Err e => Err (FromStore e)
  | Ok keys => Ok (merge_sort name_le (omap (listed s) keys))
  end.

(** ** lifecycle.go: what each transition does to the version it is given *)

Definition with_UpdatedAt (t : Z) (v : Version) : Version :=
  mkVersion (v_Version v) (v_Env v) (v_Status v) (v_Ref v) (v_Manifest v) (v_Provenance v) (v_Default v)
    (v_ProposedBy v) (v_ApprovedBy v) (v_ChangeRef v) (v_TestPassed v) (v_TestedAt v) (v_TestRef v)
    (v_PublishedAt v) t.
Definition with_Default (d : bool) (v : Version) : Version :=
  mkVersion (v_Version v) (v_Env v) (v_Status v) (v_Ref v) (v_Manifest v) (v_Provenance v) d
    (v_ProposedBy v) (v_ApprovedBy v) (v_ChangeRef v) (v_TestPassed v) (v_TestedAt v) (v_TestRef v)
    (v_PublishedAt v) (v_UpdatedAt v).
Definition with_Status (st : Status) (v : Version) : Version :=
  mkVersion (v_Version v) (v_Env v) st (v_Ref v) (v_Manifest v) (v_Provenance v) (v_Default v)
    (v_ProposedBy v) (v_ApprovedBy v) (v_ChangeRef v) (v_TestPassed v) (v_TestedAt v) (v_TestRef v)
    (v_PublishedAt v) (v_UpdatedAt v).
Definition with_ProposedBy (p : string) (v : Version) : Version :=
  mkVersion (v_Version v) (v_Env v) (v_Status v) (v_Ref v) (v_Manifest v) (v_Provenance v) (v_Default v)
    p (v_ApprovedBy v) (v_ChangeRef v) (v_TestPassed v) (v_TestedAt v) (v_TestRef v)
    (v_PublishedAt v) (v_UpdatedAt v).
Definition with_PublishedAt (t : Z) (v : Version) : Version :=
  mkVersion (v_Version v) (v_Env v) (v_Status v) (v_Ref v) (v_Manifest v) (v_Provenance v) (v_Default v)
    (v_ProposedBy v) (v_ApprovedBy v) (v_ChangeRef v) (v_TestPassed v) (v_TestedAt v) (v_TestRef v)
    t (v_UpdatedAt v).
Definition with_ApprovedBy (a : string) (v : Version) : Version :=
  mkVersion (v_Version v) (v_Env v) (v_Status v) (v_Ref v) (v_Manifest v) (v_Provenance v) (v_Default v)
    (v_ProposedBy v) a (v_ChangeRef v) (v_TestPassed v) (v_TestedAt v) (v_TestRef v)
    (v_PublishedAt v) (v_UpdatedAt v).
Definition with_ChangeRef (c : string) (v : Version) : Version :=
  mkVersion (v_Version v) (v_Env v) (v_Status v) (v_Ref v) (v_Manifest v) (v_Provenance v) (v_Default v)
    (v_ProposedBy v) (v_ApprovedBy v) c (v_TestPassed v) (v_TestedAt v) (v_TestRef v)
    (v_PublishedAt v) (v_UpdatedAt v).
Definition with_Provenance (p : gmap string string) (v : Version) : Version :=
  mkVersion (v_Version v) (v_Env v) (v_Status v) (v_Ref v) (v_Manifest v) p (v_Default v)
    (v_ProposedBy v) (v_ApprovedBy v) (v_ChangeRef v) (v_TestPassed v) (v_TestedAt v) (v_TestRef v)
    (v_PublishedAt v) (v_UpdatedAt v).
Definition with_Test (passed : bool) (at_ : Z) (ref : string) (v : Version) : Version :=
  mkVersion (v_Version v) (v_Env v) (v_Status v) (v_Ref v) (v_Manifest v) (v_Provenance v) (v_Default v)
    (v_ProposedBy v) (v_ApprovedBy v) (v_ChangeRef v) passed at_ ref
    (v_PublishedAt v) (v_UpdatedAt v).

Definition change : Type := Version → result registry_error Version.

Definition linked (changeRef : string) : change := λ v, Ok (with_ChangeRef changeRef v).

Definition tested name version now (passed : bool) (ref : string) : change := λ v,
  refuse negb (v_Status v =s? StatusDraft) with WrongStatus name version (v_Status v) "tests attach to a draft before promote" ;
  Ok (with_Test passed now ref v).

Definition proposed r name version now (proposedBy : string) : change := λ v,
  refuse negb (v_Status v =s? StatusDraft) with WrongStatus name version (v_Status v) "only a draft can be proposed" ;
  refuse RequireTestBeforePromote (policy r) && negb (v_TestPassed v) with MustPassTest name version ;
  let v := with_ProposedBy proposedBy v in
  if RequiresApproval (policy r) then Ok (with_Status StatusInReview v)
  else Ok (with_PublishedAt now (with_Status StatusPublished v)).

Definition approved r name version now (approver : string) : change := λ v,
  refuse negb (v_Status v =s? StatusInReview) with WrongStatus name version (v_Status v) "only a version in review can be approved" ;
  refuse RequireSoD (policy r) && (approver =s? v_ProposedBy v) with SeparationOfDuties approver ;
  Ok (with_PublishedAt now (with_ApprovedBy approver (with_Status StatusPublished v))).

Definition rejected name version : change := λ v,
  refuse negb (v_Status v =s? StatusInReview) with WrongStatus name version (v_Status v) "only a version in review can be rejected" ;
  Ok (with_ProposedBy "" (with_Status StatusDraft v)).

Definition deprecated name version : change := λ v,
  refuse negb (v_Status v =s? StatusPublished) with WrongStatus name version (v_Status v) "only a published version can be deprecated" ;
  Ok (with_Status StatusDeprecated v).

Definition demised name version : change := λ v,
  refuse negb (v_Status v =s? StatusDeprecated) && negb (v_Status v =s? StatusPublished)
    with WrongStatus name version (v_Status v) "cannot demise" ;
  Ok (with_Default false (with_Status StatusDemised v)).

Definition sourced (provenance : gmap string string) : change := λ v, Ok (with_Provenance provenance v).

(** A transition up to its save: [now'] stamps it. *)
Definition transitioning s name version now' (fn : change) : result registry_error (Registry_Entry * Version) :=
  found <-? get s name ;
  match found with
  | None => Err (EntryNotFound name)
  | Some e =>
      match list_find (λ v, v_Version v = version) (en_Versions e) with
      | None => Err (VersionNotFound name version)
      | Some (idx, v) =>
          v <-? fn v ;
          let v := with_UpdatedAt now' v in
          Ok (with_Versions (<[idx := v]> (en_Versions e)) e, v)
      end
  end.

Definition transition s name version now' (fn : change) : S * result registry_error Version :=
  saving s (transitioning s name version now' fn).

Definition LinkChange s name version now' (changeRef : string) :=
  transition s name version now' (linked changeRef).
Definition RecordTest s name version now now' (passed : bool) (ref : string) :=
  transition s name version now' (tested name version now passed ref).
Definition ProposePromote r s name version now now' (proposedBy : string) :=
  transition s name version now' (proposed r name version now proposedBy).
Definition Registry_Approve r s name version now now' (approver : string) :=
  transition s name version now' (approved r name version now approver).
Definition Reject s name version now' := transition s name version now' (rejected name version).
Definition Deprecate s name version now' := transition s name version now' (deprecated name version).

(** ** dependents.go *)

Definition pins_of name version : string := pinPrefix +:+ safeName name +:+ "/" +:+ safeName version +:+ "/".
Definition pinKey name version (consumer : string) : string := pins_of name version +:+ safeName consumer.

Definition Pin s name version (consumer : string) : S * result string unit :=
  Store_Put s (pinKey name version consumer) consumer.
Definition Unpin s name version (consumer : string) : S * result string unit :=
  Store_Put s (pinKey name version consumer) "".

Definition pinned_at s (k : string) : option string :=
  match Store_Get s k with
  | Err _ | Ok None => None
  | Ok (Some raw) => if raw =s? "" then None else Some raw
  end.

Definition Dependents s name version : result registry_error (list string) :=
  match Store_List s (pins_of name version) with
  | Err e => Err (FromStore e)
  | Ok keys => Ok (sort_strings (omap (pinned_at s) keys))
  end.

Definition Demise s name version now' (force : bool) : S * result registry_error Version :=
  match (if force then Ok [] else Dependents s name version) with
  | Err e => (s, Err e)
  | Ok ((_ :: _) as dep) => (s, Err (StillUsed name version dep))
  | Ok [] => transition s name version now' (demised name version)
  end.

(** SetDefault up to its save. *)
Definition defaulting s name version now' : result registry_error (Registry_Entry * unit) :=
  found <-? get s name ;
  match found with
  | None => Err (EntryNotFound name)
  | Some e =>
      match list_find (λ v, v_Version v = version) (en_Versions e) with
      | None => Err (VersionNotFound name version)
      | Some (idx, v) =>
          refuse negb (v_Status v =s? StatusPublished) with OnlyPublishedDefault ;
          let vs := map (with_Default false) (en_Versions e) in
          Ok (with_Versions (alter (λ v, with_UpdatedAt now' (with_Default true v)) idx vs) e, tt)
      end
  end.
Definition SetDefault s name version now' : S * result registry_error unit :=
  saving s (defaulting s name version now').

(** ** resolve.go *)

Definition StrictPin : string := "strict-pin".
Definition DefaultFallback : string := "default-fallback".

Record Resolution := mkResolution {
  rs_Name : string;
  rs_Requested : string;
  rs_Resolved : Version;
  rs_Substituted : bool;
  rs_Reason : string;
}.

Definition defaultVersion (e : Registry_Entry) : option Version :=
  snd <$> list_find (λ v, v_Default v = true ∧ v_Status v = StatusPublished) (en_Versions e).

(** The requested version, when it can still run. *)
Definition live name (e : Registry_Entry) (requested : string) : option Resolution :=
  '(_, v) ← list_find (λ v, v_Version v = requested) (en_Versions e) ;
  if v_Status v =s? StatusPublished then Some (mkResolution name requested v false "")
  else if v_Status v =s? StatusDeprecated
  then Some (mkResolution name requested v false
               (name +:+ "@" +:+ requested +:+ " is deprecated — plan to migrate"))
  else None.

Definition Registry_Resolve s name (requested mode : string) : result registry_error Resolution :=
  found <-? get s name ;
  match found with
  | None => Err (EntryNotFound name)
  | Some e =>
      match live name e requested with
      | Some res => Ok res
      | None =>
          refuse negb (mode =s? DefaultFallback) with StrictPinUnavailable name requested ;
          match defaultVersion e with
          | None => Err (NoDefault name requested)
          | Some def =>
              Ok (mkResolution name requested def true
                    ("requested " +:+ name +:+ "@" +:+ requested +:+
                     " unavailable; fell back to default " +:+ v_Version def))
          end
      end
  end.

(** ** source.go and promote.go *)

Record Artifact := mkArtifact {
  a_Bytes : string;
  a_Digest : string;
  a_Manifest : string;
  a_Provenance : gmap string string;
}.

Record SourceRequest := mkSourceRequest {
  sr_Data : string;
  sr_Repo : string;
  sr_Ref : string;
  sr_Opts : gmap string string;
}.

(** SHA-256 in hex is an argument. *)
Definition digest (sha256 : string → string) (b : string) : string := "sha256:" +:+ sha256 b.

Definition UploadSource_Fetch (sha256 : string → string) (req : SourceRequest) : result string Artifact :=
  refuse sr_Data req =s? "" with "upload source: no data" ;
  Ok (mkArtifact (sr_Data req) (digest sha256 (sr_Data req)) ""
        {["source" := "upload"; "by" := default "" (sr_Opts req !! "by")]}).

(** The injected cloner: repository and ref to bytes, commit and descriptor. *)
Definition GitCloner : Type := string → string → result string (string * string * string).

Definition GitSource_Fetch (sha256 : string → string) (Clone : option GitCloner) (req : SourceRequest) :
    result string Artifact :=
  match Clone with
  | None => Err "git source: no cloner injected"
  | Some Clone =>
      refuse sr_Repo req =s? "" with "git source: repo is required" ;
      match Clone (sr_Repo req) (sr_Ref req) with
      | Err e => Err ("git source: " +:+ e)
      | Ok (b, commit, descriptor) =>
          Ok (mkArtifact b (digest sha256 b) descriptor
                {["source" := "git"; "repo" := sr_Repo req; "ref" := sr_Ref req; "commit" := commit]})
      end
  end.

(** Ingest; [fetched] is what the source's Fetch answered. *)
Definition Ingest r s now now' (fetched : result string Artifact) (reg : Registration) :
    S * result registry_error Version :=
  match fetched with
  | Err e => (s, Err (FromFetch e))
  | Ok art =>
      let manifest := if rg_Manifest reg =s? "" then a_Manifest art else rg_Manifest reg in
      let reg := mkRegistration (rg_Name reg) (rg_Kind reg) (rg_Title reg) (rg_Owner reg)
                   (rg_Version reg) (a_Digest art) manifest in
      match Register r s now reg with
      | (s, Err e) => (s, Err e)
      | (s, Ok _) => transition s (rg_Name reg) (rg_Version reg) now' (sourced (a_Provenance art))
      end
  end.

(** What the promoted version's provenance is: the loop writes the source's own entries over
    the mark. *)
Definition promoted_provenance (v : Version) : gmap string string :=
  v_Provenance v ∪ {["promotedFrom" := v_Env v]}.

Definition Promote (Target : Registry) s now now' (e : Registry_Entry) (v : Version) :
    S * result registry_error unit :=
  let reg := mkRegistration (en_Name e) (en_Kind e) (en_Title e) (en_Owner e)
               (v_Version v) (v_Ref v) (v_Manifest v) in
  match Register Target s now reg with
  | (s, Err err) => (s, Err err)
  | (s, Ok _) =>
      match transition s (en_Name e) (v_Version v) now' (sourced (promoted_provenance v)) with
      | (s, Err err) => (s, Err err)
      | (s, Ok _) => (s, Ok tt)
      end
  end.

(** ** A run of the registry *)

Inductive How :=
| Link (changeRef : string)
| Test (passed : bool) (ref : string)
| Propose (proposedBy : string)
| ApproveBy (approver : string)
| RejectIt
| DeprecateIt
| DemiseIt
| Source (provenance : gmap string string).

Inductive Call :=
| CRegister (reg : Registration)
| CTransition (name version : string) (how : How)
| CSetDefault (name version : string).

Definition change_of r name version now (how : How) : change :=
  match how with
  | Link changeRef => linked changeRef
  | Test passed ref => tested name version now passed ref
  | Propose by_ => proposed r name version now by_
  | ApproveBy approver => approved r name version now approver
  | RejectIt => rejected name version
  | DeprecateIt => deprecated name version
  | DemiseIt => demised name version
  | Source provenance => sourced provenance
  end.

(** The entry a call reads, changes and is about to write. *)
Definition planned r s now now' (c : Call) : result registry_error Registry_Entry :=
  match c with
  | CRegister reg => p <-? registering r s now reg ; Ok p.1
  | CTransition name version how =>
      p <-? transitioning s name version now' (change_of r name version now how) ; Ok p.1
  | CSetDefault name version => p <-? defaulting s name version now' ; Ok p.1
  end.

(** The store, and the entries that calls have computed and not yet written. *)
Definition system : Type := S * list Registry_Entry.

(** What the callers may send: text. *)
Definition how_text (how : How) : Prop :=
  match how with
  | Link x | Test _ x | Propose x | ApproveBy x => ValidString x = true
  | Source m => map_text m
  | _ => True
  end.
Definition call_text (c : Call) : Prop :=
  match c with
  | CRegister reg => Forall (λ x, ValidString x = true)
      [rg_Name reg; rg_Kind reg; rg_Title reg; rg_Owner reg; rg_Version reg; rg_Ref reg]
  | CTransition _ _ how => how_text how
  | CSetDefault _ _ => True
  end.

(** One step of the system: a call reads and computes (and is recorded in the trace), a
    write lands or fails, a consumer pins or unpins, the store's availability changes. *)
Inductive registry_step r : list Call → system → list Call → system → Prop :=
| step_read tr s pending now now' c e :
    call_text c → planned r s now now' c = Ok e →
    registry_step r tr (s, pending) (c :: tr) (s, e :: pending)
| step_write tr s before e after :
    registry_step r tr (s, before ++ e :: after) tr ((save s e).1, before ++ after)
| step_pin tr s pending name version consumer :
    registry_step r tr (s, pending) tr ((Pin s name version consumer).1, pending)
| step_unpin tr s pending name version consumer :
    registry_step r tr (s, pending) tr ((Unpin s name version consumer).1, pending)
| step_availability tr s s' pending :
    contents s' = contents s → registry_step r tr (s, pending) tr (s', pending).

Inductive registry_steps r (s0 : S) : list Call → system → Prop :=
| steps_start : registry_steps r s0 [] (s0, [])
| steps_next tr sys tr' sys' : registry_steps r s0 tr sys → registry_step r tr sys tr' sys' → registry_steps r s0 tr' sys'.

(** Calls one after the other, the store up throughout. *)
Inductive Act :=
| ACall (now now' : Z) (c : Call)
| APin (name version consumer : string)
| AUnpin (name version consumer : string).

Definition perform_call r s now now' (c : Call) : S :=
  match planned r s now now' c with
  | Ok e => (save s e).1
  | Err _ => s
  end.
Definition registry_act r s (a : Act) : S :=
  match a with
  | ACall now now' c => perform_call r s now now' c
  | APin name version consumer => (Pin s name version consumer).1
  | AUnpin name version consumer => (Unpin s name version consumer).1
  end.
Definition acts r s (l : list Act) : S := foldl (registry_act r) s l.

(** The operations of the source, as calls of a run. *)
Lemma saving_state {A} s (p : result registry_error (Registry_Entry * A)) :
  (saving s p).1 = match p with Ok (e, _) => (save s e).1 | Err _ => s end.
Proof. destruct p as [[e a]|]; simpl; [|done]. by destruct (save s e) as [? [|]]. Qed.

Lemma Register_is_call r s now now' reg : (Register r s now reg).1 = perform_call r s now now' (CRegister reg).
Proof. unfold Register, perform_call. rewrite saving_state. simpl. by destruct registering as [[]|]. Qed.
Lemma transition_is_call r s name version now now' how :
  (transition s name version now' (change_of r name version now how)).1 =
  perform_call r s now now' (CTransition name version how).
Proof. unfold transition, perform_call. rewrite saving_state. simpl. by destruct transitioning as [[]|]. Qed.
Lemma SetDefault_is_call r s name version now now' :
  (SetDefault s name version now').1 = perform_call r s now now' (CSetDefault name version).
Proof. unfold SetDefault, perform_call. rewrite saving_state. simpl. by destruct defaulting as [[]|]. Qed.
End with_codec.

(** ** Keys *)

Lemma append_cancel (p a b : string) : p +:+ a = p +:+ b → a = b.
Proof. intros H. by destruct (append_same_length p p a b eq_refl H). Qed.

Lemma entry_key_inj a b : entry_key a = entry_key b ↔ safeName a = safeName b.
Proof. unfold entry_key. split; [apply append_cancel|by intros ->]. Qed.

Lemma HasPrefix_app p t : HasPrefix (p +:+ t) p = true.
Proof. apply HasPrefix_spec. by exists t. Qed.

Lemma safeName_no_slash a : char_in "/" (safeName a) = false.
Proof.
  unfold safeName. induction a as [|c a IH]; simpl; [done|]. rewrite IH, orb_false_r.
  apply bool_decide_eq_false. by destruct (decide (c = "/"%char)) as [->|Hc]; case_bool_decide.
Qed.

Lemma pinKey_is_no_entry name version consumer : HasPrefix (pinKey name version consumer) entryPrefix = false.
Proof. done. Qed.

Lemma pinKey_inj n v c n' v' c' :
  pinKey n v c = pinKey n' v' c' ↔ (safeName n, safeName v, safeName c) = (safeName n', safeName v', safeName c').
Proof.
  split.
  - unfold pinKey, pins_of. rewrite !append_assoc. intros H%append_cancel.
    apply (append_cancel_sep "/") in H as [-> H]; [|apply safeName_no_slash..].
    apply (append_cancel_sep "/") in H as [-> ->]; [done|apply safeName_no_slash..].
  - intros [= H1 H2 H3]. unfold pinKey, pins_of. by rewrite H1, H2, H3.
Qed.

(** The keys listed for a version are those of its pins. *)
Lemma pins_of_prefix n v n' v' c :
  HasPrefix (pinKey n' v' c) (pins_of n v) = true ↔ (safeName n', safeName v') = (safeName n, safeName v).
Proof.
  rewrite HasPrefix_spec. split.
  - intros [t Ht]. unfold pinKey, pins_of in Ht. rewrite !append_assoc in Ht. apply append_cancel in Ht.
    apply (append_cancel_sep "/") in Ht as [-> Ht]; [|apply safeName_no_slash..].
    apply (append_cancel_sep "/") in Ht as [-> _]; [done|apply safeName_no_slash..].
  - intros [= H1 H2]. exists (safeName c). unfold pinKey, pins_of. by rewrite H1, H2.
Qed.

(** ** What a transition may do to a version *)

(** The lifecycle: draft, review, published, deprecated, demised. *)
Definition lifecycle : list (Status * Status) :=
  [(StatusDraft, StatusInReview); (StatusDraft, StatusPublished); (StatusInReview, StatusPublished);
   (StatusInReview, StatusDraft); (StatusPublished, StatusDeprecated); (StatusPublished, StatusDemised);
   (StatusDeprecated, StatusDemised)].
Definition next_status (a b : Status) : Prop := (a, b) ∈ lifecycle.

(** The version keeps its name, its place and its bytes, and moves one edge at most. *)
Definition keeps (v v' : Version) : Prop :=
  v_Version v' = v_Version v ∧ v_Env v' = v_Env v ∧ v_Ref v' = v_Ref v ∧ v_Manifest v' = v_Manifest v ∧
  (v_Status v' = v_Status v ∨ next_status (v_Status v) (v_Status v')).

#[local] Ltac guards :=
  repeat match goal with
  | H : (if ?c then Err _ else _) = Ok _ |- _ => destruct c eqn:?; [discriminate H|]
  | H : (if ?c then _ else _) = Ok _ |- _ => destruct c eqn:?
  | H : Ok _ = Ok _ |- _ => injection H as <-
  end.

#[local] Ltac edge :=
  split_and!; [reflexivity..|];
  first [left; reflexivity
        |right; unfold next_status; simpl;
         match goal with H : v_Status _ = _ |- _ => rewrite H end; unfold lifecycle; set_solver].

Lemma change_of_keeps r name version now how v v' :
  change_of r name version now how v = Ok v' → keeps v v' ∧ (v_Default v' = true → v_Default v = true).
Proof.
  intros Hc. unfold keeps. destruct how; simpl in Hc;
    unfold linked, tested, proposed, approved, rejected, deprecated, demised, sourced in Hc; guards; boolify;
    autorewrite with mk in *; simpl.
  all: try (split; [edge|done]).
  apply andb_false_iff in Heqb as [Hd|Hd]; boolify; autorewrite with mk in *; split; [edge|done|edge|done].
Qed.

(** ** Soundness of what is stored *)

Section soundness.
Context `{codec : EntryCodec} {S : Type} `{KVStore S} (r : Registry).
Implicit Types (s : S) (tr : list Call) (vs : list Version) (i : nat).

(** Some transition [how] of this version of the entry under [key] was asked for. *)
Definition asked tr (key version : string) (how : How) : Prop :=
  ∃ name, safeName name = key ∧ CTransition name version how ∈ tr.

Definition released (st : Status) : Prop :=
  st = StatusPublished ∨ st = StatusDeprecated ∨ st = StatusDemised.

(** A version is where the policy of the environment lets it be, and the calls that took it
    there were made. *)
Record sound_version tr (key : string) (v : Version) : Prop := {
  sv_env : v_Env v = env r;
  sv_registered : ∃ reg, CRegister reg ∈ tr ∧ safeName (rg_Name reg) = key ∧
    rg_Version reg = v_Version v ∧ rg_Ref reg = v_Ref v;
  sv_status : v_Status v = StatusDraft ∨ v_Status v = StatusInReview ∨ released (v_Status v);
  sv_proposed : v_Status v ≠ StatusDraft → asked tr key (v_Version v) (Propose (v_ProposedBy v));
  sv_tested : v_TestPassed v = true → ∃ ref, asked tr key (v_Version v) (Test true ref);
  sv_test_gate : RequireTestBeforePromote (policy r) = true → v_Status v ≠ StatusDraft → v_TestPassed v = true;
  sv_review_gate : RequiresApproval (policy r) = true → released (v_Status v) →
    asked tr key (v_Version v) (ApproveBy (v_ApprovedBy v));
  sv_two_people : RequiresApproval (policy r) = true → RequireSoD (policy r) = true →
    released (v_Status v) → v_ApprovedBy v ≠ v_ProposedBy v;
  sv_no_review : RequiresApproval (policy r) = false → v_Status v ≠ StatusInReview;
  sv_default : v_Default v = true → v_Status v = StatusPublished ∨ v_Status v = StatusDeprecated;
}.

Definition one_default (vs : list Version) : Prop :=
  ∀ i j v w, vs !! i = Some v → vs !! j = Some w → v_Default v = true → v_Default w = true → i = j.

Record sound_entry tr (e : Registry_Entry) : Prop := {
  se_text : entry_text e;
  se_unique : NoDup (v_Version <$> en_Versions e);
  se_default : one_default (en_Versions e);
  se_versions : Forall (sound_version tr (safeName (en_Name e))) (en_Versions e);
}.

Definition stored tr (k raw : string) : Prop :=
  HasPrefix k entryPrefix = true →
  raw ≠ "" ∧
  ∃ e, Unmarshal raw = Ok e ∧ k = entry_key (en_Name e) ∧ sound_entry tr e ∧ compacted Compact e = e.
Definition sound_store tr s : Prop := map_Forall (stored tr) (contents s).

(** *** The trace only grows *)

Lemma asked_mono tr c key version how : asked tr key version how → asked (c :: tr) key version how.
Proof. intros (n & ? & ?). exists n. split; [done|by right]. Qed.

Lemma sound_version_mono tr c key v : sound_version tr key v → sound_version (c :: tr) key v.
Proof.
  intros [? (reg & ? & ?) ? ? Ht ? ? ? ? ?]. split; auto using asked_mono.
  - exists reg. split; [by right|done].
  - intros Hp. destruct (Ht Hp) as [ref ?]. exists ref. by apply asked_mono.
Qed.

Lemma sound_entry_mono tr c e : sound_entry tr e → sound_entry (c :: tr) e.
Proof.
  intros [? ? ? Hv]. split; [done..|]. eapply Forall_impl; [exact Hv|]. intros v. apply sound_version_mono.
Qed.

Lemma sound_store_mono tr c s : sound_store tr s → sound_store (c :: tr) s.
Proof.
  intros Hs k raw Hk Hp. destruct (Hs k raw Hk Hp) as (? & e & ? & ? & ? & ?). split; [done|].
  exists e. split_and!; [done..| |done]. by apply sound_entry_mono.
Qed.

(** *** Compacting changes nothing that matters *)

Lemma compacted_idemp e : compacted Compact (compacted Compact e) = compacted Compact e.
Proof.
  destruct e as [n k t o vs]. unfold compacted, with_Versions. simpl. f_equal. rewrite map_map.
  apply map_ext. intros v. unfold compacted_version, with_Manifest. simpl. by rewrite Compact_idemp.
Qed.

Lemma sound_entry_compacted tr e : sound_entry tr e → sound_entry tr (compacted Compact e).
Proof.
  intros [[? Ht] Hu Hd Hv]. unfold compacted. split; simpl.
  - split; [done|]. simpl. rewrite Forall_map. eapply Forall_impl; [exact Ht|]. by intros v.
  - change (NoDup (map v_Version (map (compacted_version Compact) (en_Versions e)))).
    rewrite map_map. exact Hu.
  - intros i j v w Hi Hj. rewrite !list_lookup_fmap, !fmap_Some in *.
    destruct Hi as (v0 & Hi & ->), Hj as (w0 & Hj & ->). exact (Hd i j v0 w0 Hi Hj).
  - rewrite Forall_map. eapply Forall_impl; [exact Hv|]. intros v [? ? ? ? ? ? ? ? ? ?]. by split.
Qed.

(** *** Reading and writing *)

Lemma get_sound_entry tr s name e :
  sound_store tr s → get s name = Ok (Some e) →
  sound_entry tr e ∧ safeName (en_Name e) = safeName name ∧ compacted Compact e = e.
Proof.
  intros Hs. unfold get. destruct (Store_Get s (entry_key name)) as [[raw|]|] eqn:Hg; [|done..].
  apply Get_sound in Hg. destruct (Hs _ _ Hg (HasPrefix_app _ _)) as (_ & e' & Hu & Hk & He & Hc).
  rewrite Hu. intros [= <-]. split_and!; [done| |done]. symmetry. by apply entry_key_inj.
Qed.

Lemma save_sound tr s e : sound_store tr s → sound_entry tr e → sound_store tr (save s e).1.
Proof.
  intros Hs He. unfold save. destruct (Marshal e) as [raw|] eqn:Hm; [|done].
  destruct (Store_Put s (entry_key (en_Name e)) raw) as [s' [[]|]] eqn:Hp; simpl.
  - apply Put_Ok in Hp. unfold sound_store. rewrite Hp. apply map_Forall_insert_2; [|exact Hs].
    intros _. split; [by eapply Marshal_nonempty|]. exists (compacted Compact e).
    split_and!; [by apply Unmarshal_Marshal; [apply He|]|done|by apply sound_entry_compacted|apply compacted_idemp].
  - apply Put_Err in Hp. unfold sound_store. by rewrite Hp.
Qed.

Lemma pin_sound tr s name version consumer v :
  sound_store tr s → sound_store tr (Store_Put s (pinKey name version consumer) v).1.
Proof.
  intros Hs. destruct Store_Put as [s' [[]|]] eqn:Hp; simpl; unfold sound_store.
  - apply Put_Ok in Hp. rewrite Hp. apply map_Forall_insert_2; [|exact Hs].
    intros Hx. by rewrite pinKey_is_no_entry in Hx.
  - apply Put_Err in Hp. by rewrite Hp.
Qed.
End soundness.

Section planning.
Context `{codec : EntryCodec} {S : Type} `{KVStore S} (r : Registry) (env_text : ValidString (env r) = true).
Implicit Types (s : S) (tr : list Call) (vs : list Version) (i : nat).

Lemma v_Version_insert vs i v v' :
  vs !! i = Some v → v_Version v' = v_Version v → v_Version <$> <[i := v']> vs = v_Version <$> vs.
Proof.
  intros Hi Hv. rewrite list_fmap_insert, Hv. apply list_insert_id. by rewrite list_lookup_fmap, Hi.
Qed.

Lemma one_default_insert vs i v v' :
  one_default vs → vs !! i = Some v → (v_Default v' = true → v_Default v = true) →
  one_default (<[i := v']> vs).
Proof.
  intros Hd Hi Hv a b x y Ha Hb Hx Hy.
  assert (∀ j z, <[i := v']> vs !! j = Some z → v_Default z = true → ∃ z', vs !! j = Some z' ∧ v_Default z' = true) as Hback.
  { intros j z Hj Hz. destruct (decide (i = j)) as [<-|Hne].
    - rewrite list_lookup_insert_eq in Hj by (by eapply lookup_lt_Some). injection Hj as <-. eauto.
    - rewrite list_lookup_insert_ne in Hj by done. eauto. }
  destruct (Hback a x Ha Hx) as (x' & ? & ?), (Hback b y Hb Hy) as (y' & ? & ?). eauto.
Qed.

Lemma change_of_text name version now how v v' :
  how_text how → version_text v → change_of r name version now how v = Ok v' → version_text v'.
Proof.
  intros Hh [Ht Hm] Hc. unfold version_text in *. rewrite !Forall_cons in *.
  destruct Ht as (? & ? & ? & ? & ? & ? & ? & ? & _).
  destruct how; simpl in Hc, Hh;
    unfold linked, tested, proposed, approved, rejected, deprecated, demised, sourced in Hc; guards; simpl;
    split_and!; try assumption; try apply Forall_nil_2; reflexivity.
Qed.

Lemma asked_now tr name version how :
  asked (CTransition name version how :: tr) (safeName name) version how.
Proof. exists name. split; [done|left]. Qed.

Lemma draft_not_released : ¬ released StatusDraft.
Proof. by intros [?|[?|?]]. Qed.
Lemma review_not_released : ¬ released StatusInReview.
Proof. by intros [?|[?|?]]. Qed.
Lemma published_released : released StatusPublished.
Proof. by left. Qed.
Lemma deprecated_released : released StatusDeprecated.
Proof. by right; left. Qed.
Lemma demised_released : released StatusDemised.
Proof. by right; right. Qed.

#[local] Hint Resolve draft_not_released review_not_released published_released deprecated_released
  demised_released : core.
#[local] Ltac status :=
  intros; subst;
  repeat match goal with
  | H : v_Status _ = _ |- _ => rewrite H in *; clear H
  | H : released StatusDraft |- _ => destruct (draft_not_released H)
  | H : released StatusInReview |- _ => destruct (review_not_released H)
  | H : (_ && _) = false |- _ => apply andb_false_iff in H as [?|?]; boolify; autorewrite with mk in *
  | Hd : v_Default ?v = true → _, H : v_Default ?v = true |- _ => destruct (Hd H); clear Hd
  end;
  eauto; try discriminate; try congruence.

(** A transition takes a sound version to a sound version. *)
Lemma change_of_sound tr name version now how v v' :
  let tr' := CTransition name version how :: tr in
  v_Version v = version → sound_version r tr' (safeName name) v →
  change_of r name version now how v = Ok v' → sound_version r tr' (safeName name) v'.
Proof.
  intros tr' <- Hv Hc. pose proof (asked_now tr name (v_Version v) how) as Ha. fold tr' in Ha. clearbody tr'.
  destruct Hv as [He Hr Hst Hpr Hte Htg Hrg H2 Hnr Hde].
  destruct how; simpl in Hc;
    unfold linked, tested, proposed, approved, rejected, deprecated, demised, sourced in Hc; guards; boolify;
    autorewrite with mk in *.
  all: try match goal with
    | H : (negb (_ =s? StatusDeprecated) && _) = false |- _ =>
        assert (released (v_Status v)) by status; assert (v_Status v ≠ StatusDraft) by status; clear H
    end.
  all: split; simpl; try assumption; status.
Qed.

Lemma rbind_pair {A B E} (m : result E (A * B)) a :
  (p <-? m ; Ok p.1) = Ok a ↔ ∃ b, m = Ok (a, b).
Proof.
  rewrite rbind_Ok. split; [intros ([x y] & -> & [= <-]); eauto|intros [b ->]; eauto].
Qed.

Lemma found_version_Some vs version i v :
  list_find (λ v, v_Version v = version) vs = Some (i, v) → vs !! i = Some v ∧ v_Version v = version.
Proof. intros (? & ? & ?)%list_find_Some. done. Qed.

Lemma registering_sound tr s now reg e e' :
  sound_store r tr s → call_text (CRegister reg) → registering r s now reg = Ok (e, e') →
  sound_entry r (CRegister reg :: tr) e.
Proof.
  intros Hs Ht. unfold registering. destruct (_ || _); [done|].
  rewrite rbind_Ok. intros (found & Hg & Hreg).
  destruct (bool_decide _) eqn:Hidx in Hreg; [done|]. injection Hreg as <- _.
  apply bool_decide_eq_false in Hidx. unfold call_text in Ht.
  assert (sound_entry r (CRegister reg :: tr) (default (mkEntry (rg_Name reg) (rg_Kind reg) (rg_Title reg) (rg_Owner reg) []) found) ∧
    safeName (en_Name (default (mkEntry (rg_Name reg) (rg_Kind reg) (rg_Title reg) (rg_Owner reg) []) found)) = safeName (rg_Name reg))
    as [[Htext Hu Hd Hv] Hn].
  { destruct found as [e|]; simpl.
    - destruct (get_sound_entry r tr s (rg_Name reg) e Hs Hg) as (? & ? & _).
      split; [by apply sound_entry_mono|done].
    - split; [|done]. split; simpl; [|apply NoDup_nil_2|by intros i j v w|apply Forall_nil_2].
      split; [|apply Forall_nil_2]. rewrite !Forall_cons in *. by destruct Ht as (? & ? & ? & ? & _). }
  set (e := default _ found) in *. clearbody e.
  assert (∀ v, v ∈ en_Versions e → v_Version v ≠ rg_Version reg) as Hfresh.
  { intros v Hin Heq. apply Hidx. unfold indexOf. rewrite fmap_is_Some.
    apply (list_find_elem_of (λ v, v_Version v = rg_Version reg) _ v Hin Heq). }
  rewrite !Forall_cons in Ht. destruct Ht as (Hname & _ & _ & _ & Hver & Href & _).
  split; simpl.
  - destruct Htext as [? Hvs]. split; [done|]. apply Forall_app. split; [done|].
    apply Forall_singleton. split; [|apply map_Forall_empty]. simpl. by rewrite !Forall_cons.
  - rewrite fmap_app. apply NoDup_app. split_and!; [done| |apply NoDup_singleton].
    intros x Hx ->%list_elem_of_singleton. apply list_elem_of_fmap in Hx as (v & Heq & Hin).
    by apply (Hfresh v Hin).
  - intros i j v w Hi Hj Hdv Hdw. rewrite lookup_app_Some in Hi, Hj.
    destruct Hi as [Hi|[_ Hi]]; [|apply list_lookup_singleton_Some in Hi as [_ <-]; discriminate Hdv].
    destruct Hj as [Hj|[_ Hj]]; [|apply list_lookup_singleton_Some in Hj as [_ <-]; discriminate Hdw].
    eauto.
  - apply Forall_app. split; [done|]. apply Forall_singleton. rewrite Hn. split; simpl; try done.
    + exists reg. split; [by left|done].
    + by left.
    + intros _ Hx. by apply draft_not_released in Hx.
    + intros _ _ Hx. by apply draft_not_released in Hx.
Qed.

Lemma transitioning_sound tr s name version now now' how e v :
  sound_store r tr s → how_text how →
  transitioning s name version now' (change_of r name version now how) = Ok (e, v) →
  sound_entry r (CTransition name version how :: tr) e.
Proof.
  intros Hs Ht. unfold transitioning. rewrite rbind_Ok. intros (found & Hg & Hf).
  destruct found as [e0|]; [|done]. destruct (get_sound_entry r tr s name e0 Hs Hg) as (He & Hn & _).
  destruct (list_find _ _) as [[idx v0]|] eqn:Hfind; [|done]. apply found_version_Some in Hfind as [Hi Hver].
  rewrite rbind_Ok in Hf. destruct Hf as (v1 & Hc & Heq). injection Heq as <- <-.
  apply (sound_entry_mono r tr (CTransition name version how)) in He. destruct He as [[Htn Htv] Hu Hd Hv].
  pose proof (proj1 (Forall_lookup _ _) Hv _ _ Hi) as Hv0. rewrite Hn in Hv0.
  pose proof (change_of_keeps _ _ _ _ _ _ _ Hc) as [(Hkv & _) Hkd].
  split; simpl.
  - split; [done|]. apply Forall_insert; [done|].
    pose proof (change_of_text _ _ _ _ _ _ Ht (proj1 (Forall_lookup _ _) Htv _ _ Hi) Hc) as Hx. exact Hx.
  - by rewrite (v_Version_insert _ _ v0).
  - eapply one_default_insert; [done..|exact Hkd].
  - apply Forall_insert; [done|]. rewrite Hn.
    pose proof (change_of_sound _ _ _ _ _ _ _ Hver Hv0 Hc) as [? ? ? ? ? ? ? ? ? ?]. by split.
Qed.

Lemma defaulting_sound tr s name version now' e u :
  sound_store r tr s → defaulting s name version now' = Ok (e, u) →
  sound_entry r (CSetDefault name version :: tr) e.
Proof.
  intros Hs. unfold defaulting. rewrite rbind_Ok. intros (found & Hg & Hf).
  destruct found as [e0|]; [|done]. destruct (get_sound_entry r tr s name e0 Hs Hg) as (He & Hn & _).
  destruct (list_find _ _) as [[idx v0]|] eqn:Hfind; [|done]. apply found_version_Some in Hfind as [Hi Hver].
  destruct (negb _) eqn:Hst in Hf; [done|]. injection Hf as <- _. boolify. autorewrite with mk in Hst.
  apply (sound_entry_mono r tr (CSetDefault name version)) in He. destruct He as [[Htn Htv] Hu Hd Hv].
  assert (alter (λ v, with_UpdatedAt now' (with_Default true v)) idx (map (with_Default false) (en_Versions e0)) =
    <[idx := with_UpdatedAt now' (with_Default true v0)]> (map (with_Default false) (en_Versions e0))) as Halter.
  { apply list_eq. intros j. destruct (decide (idx = j)) as [<-|Hne].
    - rewrite list_lookup_alter_eq, list_lookup_insert_eq, list_lookup_fmap, Hi; [done|].
      rewrite length_map. by eapply lookup_lt_Some.
    - by rewrite list_lookup_alter_ne, list_lookup_insert_ne. }
  rewrite Halter. clear Halter.
  split; simpl.
  - split; [done|]. apply Forall_insert; [|exact (proj1 (Forall_lookup _ _) Htv idx v0 Hi)].
    rewrite Forall_map. eapply Forall_impl; [exact Htv|]. by intros v.
  - rewrite (v_Version_insert _ _ (with_Default false v0)).
    + change (NoDup (map v_Version (map (with_Default false) (en_Versions e0)))). by rewrite map_map.
    + by rewrite list_lookup_fmap, Hi.
    + done.
  - intros a b x y Ha Hb Hx Hy.
    assert (∀ j z, <[idx := with_UpdatedAt now' (with_Default true v0)]> (map (with_Default false) (en_Versions e0)) !! j = Some z →
      v_Default z = true → j = idx) as Honly.
    { intros j z Hj Hz. destruct (decide (idx = j)) as [<-|Hne]; [done|].
      rewrite list_lookup_insert_ne, list_lookup_fmap, fmap_Some in Hj by done.
      by destruct Hj as (? & _ & ->). }
    by rewrite (Honly a x), (Honly b y).
  - pose proof (proj1 (Forall_lookup _ _) Hv _ _ Hi) as [? ? ? ? ? ? ? ? ? ?].
    apply Forall_insert.
    + rewrite Forall_map. eapply Forall_impl; [exact Hv|]. intros v [? ? ? ? ? ? ? ? ? ?]. by split.
    + split; simpl; try done. intros _. by left.
Qed.

(** What a call is about to write is sound, whatever else happens before it is written. *)
Lemma planned_sound tr s now now' c e :
  sound_store r tr s → call_text c → planned r s now now' c = Ok e → sound_entry r (c :: tr) e.
Proof.
  intros Hs Ht. destruct c; simpl; rewrite rbind_pair; intros [x Hp].
  - by eapply registering_sound.
  - by eapply transitioning_sound.
  - by eapply defaulting_sound.
Qed.
End planning.

(** ** Runs *)

Section runs.
Context `{codec : EntryCodec} {S : Type} `{KVStore S} (r : Registry) (env_text : ValidString (env r) = true).
Implicit Types (s : S) (tr : list Call) (vs : list Version) (i : nat).

Definition no_entries s : Prop := map_Forall (λ k _, HasPrefix k entryPrefix = false) (contents s).

Lemma no_entries_sound s : no_entries s → sound_store r [] s.
Proof. intros Hs k raw Hk Hp. by rewrite (Hs k raw Hk) in Hp. Qed.

Lemma registry_step_sound tr s pending tr' s' pending' :
  registry_step r tr (s, pending) tr' (s', pending') →
  sound_store r tr s ∧ Forall (sound_entry r tr) pending →
  sound_store r tr' s' ∧ Forall (sound_entry r tr') pending'.
Proof.
  inversion 1; subst; intros [Hs Hp].
  - split; [by apply sound_store_mono|]. constructor; [by eapply planned_sound|].
    eapply Forall_impl; [exact Hp|]. intros x. apply sound_entry_mono.
  - apply Forall_app in Hp as [Hb [He Ha]%Forall_cons].
    split; [by apply save_sound|by apply Forall_app].
  - split; [by apply pin_sound|done].
  - split; [by apply pin_sound|done].
  - split; [|done]. unfold sound_store in *. by match goal with H : contents _ = contents _ |- _ => rewrite H end.
Qed.

Lemma steps_sound s0 tr s pending :
  no_entries s0 → registry_steps r s0 tr (s, pending) → sound_store r tr s ∧ Forall (sound_entry r tr) pending.
Proof.
  intros H0 Hsteps. remember (s, pending) as sys eqn:E. revert s pending E.
  induction Hsteps as [|tr [s1 p1] tr' sys' _ IH Hstep]; intros s pending E; subst.
  - injection E as <- <-. split; [by apply no_entries_sound|apply Forall_nil_2].
  - apply (registry_step_sound _ _ _ _ _ _ Hstep). by apply IH.
Qed.

(** *** Calls one after the other *)

Definition act_text (a : Act) : Prop := match a with ACall _ _ c => call_text c | _ => True end.
Definition act_call (a : Act) : list Call := match a with ACall _ _ c => [c] | _ => [] end.

Lemma save_reachable s e : reachable (save s e).1 = reachable s.
Proof.
  unfold save. destruct (Marshal e) as [raw|]; [|done].
  pose proof (Put_reachable s (entry_key (en_Name e)) raw) as Hr.
  by destruct (Store_Put _ _ _) as [s' [[]|]].
Qed.

Lemma act_reachable s a : reachable (registry_act r s a) = reachable s.
Proof.
  destruct a as [now now' c| |]; simpl; [|apply Put_reachable..].
  unfold perform_call. destruct planned; [apply save_reachable|done].
Qed.

Lemma acts_reachable s l : reachable (acts r s l) = reachable s.
Proof.
  revert s. induction l as [|a l IH]; intros s; [done|]. unfold acts in *. simpl. by rewrite IH, act_reachable.
Qed.

Lemma act_sound tr s a :
  act_text a → sound_store r tr s → ∃ tr', sound_store r tr' (registry_act r s a).
Proof.
  intros Ht Hs. destruct a as [now now' c| |]; simpl.
  - unfold perform_call. destruct (planned r s now now' c) as [e|] eqn:Hp; [|by exists tr].
    exists (c :: tr). apply save_sound; [by apply sound_store_mono|by eapply planned_sound].
  - exists tr. by apply pin_sound.
  - exists tr. by apply pin_sound.
Qed.

Lemma acts_sound tr s l :
  Forall act_text l → sound_store r tr s → ∃ tr', sound_store r tr' (acts r s l).
Proof.
  intros Hl. revert tr s. induction Hl as [|a l Ha _ IH]; intros tr s Hs; [by exists tr|].
  destruct (act_sound tr s a Ha Hs) as [tr' Hs']. exact (IH _ _ Hs').
Qed.

(** A reachable registry reads what is stored. *)
Lemma get_stored tr s name e :
  sound_store r tr s → reachable s = true →
  get s name = Ok (Some e) ↔ ∃ raw, contents s !! entry_key name = Some raw ∧ Unmarshal raw = Ok e.
Proof.
  intros Hs Hr. unfold get. split.
  - destruct (Store_Get s (entry_key name)) as [[raw|]|] eqn:Hg; [|done..]. apply Get_sound in Hg.
    destruct (Unmarshal raw) eqn:Hu; [|done]. intros [= <-]. eauto.
  - intros (raw & Hk & Hu). destruct (Hs _ _ Hk (HasPrefix_app _ _)) as (Hne & _).
    by rewrite (Get_reachable s _ raw), Hu.
Qed.

Lemma get_key s a b : safeName a = safeName b → get s a = get s b.
Proof. intros Heq. unfold get. by rewrite (proj2 (entry_key_inj a b) Heq). Qed.

(** What is written for an entry keeps every version that was read. *)
Lemma planned_keeps tr s now now' c e1 name e v :
  sound_store r tr s → planned r s now now' c = Ok e1 → safeName (en_Name e1) = safeName name →
  get s name = Ok (Some e) → v ∈ en_Versions e → ∃ v1, v1 ∈ en_Versions e1 ∧ keeps v v1.
Proof.
  intros Hs Hp Hkey Hg Hv.
  assert (∀ v, keeps v v) as Hrefl by (intros; split_and!; auto).
  assert (∀ vs i v0 v1, vs !! i = Some v0 → keeps v0 v1 → v ∈ vs → ∃ v', v' ∈ <[i := v1]> vs ∧ keeps v v') as Hins.
  { intros vs i v0 v1 Hi Hk Hin. apply list_elem_of_lookup in Hin as [j Hj].
    destruct (decide (i = j)) as [->|Hne].
    - exists v1. rewrite Hi in Hj. injection Hj as <-. split; [|done].
      apply list_elem_of_lookup. exists j. apply list_lookup_insert_eq. by eapply lookup_lt_Some.
    - exists v. split; [|done]. apply list_elem_of_lookup. exists j. by rewrite list_lookup_insert_ne. }
  destruct c as [reg|n version how|n version]; simpl in Hp; apply rbind_pair in Hp as [x Hp].
  - unfold registering in Hp. destruct (_ || _); [done|]. apply rbind_Ok in Hp as (found & Hf & Hp).
    destruct (bool_decide _); [done|]. injection Hp as <- _. simpl in *.
    destruct found as [e0|]; simpl in *.
    + destruct (get_sound_entry r tr s (rg_Name reg) e0 Hs Hf) as (_ & Hn & _).
      rewrite (get_key s (rg_Name reg) name) in Hf by congruence. rewrite Hg in Hf. injection Hf as <-.
      exists v. split; [|done]. apply elem_of_app. by left.
    + rewrite (get_key s (rg_Name reg) name) in Hf by congruence. by rewrite Hg in Hf.
  - unfold transitioning in Hp. apply rbind_Ok in Hp as ([e0|] & Hf & Hp); [|done].
    destruct (list_find _ _) as [[idx v0]|] eqn:Hfind; [|done]. apply found_version_Some in Hfind as [Hi _].
    apply rbind_Ok in Hp as (v1 & Hc & Heq). injection Heq as <- _. simpl in *.
    destruct (get_sound_entry r tr s n e0 Hs Hf) as (_ & Hn & _).
    rewrite (get_key s n name) in Hf by congruence. rewrite Hg in Hf. injection Hf as <-.
    apply (Hins _ _ v0); [done| |done].
    by destruct (change_of_keeps _ _ _ _ _ _ _ Hc) as [(? & ? & ? & ? & ?) _].
  - unfold defaulting in Hp. apply rbind_Ok in Hp as ([e0|] & Hf & Hp); [|done].
    destruct (list_find _ _) as [[idx v0]|] eqn:Hfind; [|done].
    destruct (negb _); [done|]. injection Hp as <- _. simpl in *.
    destruct (get_sound_entry r tr s n e0 Hs Hf) as (_ & Hn & _).
    rewrite (get_key s n name) in Hf by congruence. rewrite Hg in Hf. injection Hf as <-.
    apply list_elem_of_lookup in Hv as [j Hj].
    destruct (decide (j = idx)) as [->|Hne].
    + exists (with_UpdatedAt now' (with_Default true v)). split; [|split_and!; auto].
      apply list_elem_of_lookup. exists idx. by rewrite list_lookup_alter_eq, list_lookup_fmap, Hj.
    + exists (with_Default false v). split; [|split_and!; auto].
      apply list_elem_of_lookup. exists j. by rewrite list_lookup_alter_ne, list_lookup_fmap, Hj.
Qed.

(** Pins and entries do not share a key. *)
Lemma pinKey_ne n ver cons name : pinKey n ver cons ≠ entry_key name.
Proof.
  intros Heq. pose proof (pinKey_is_no_entry n ver cons) as Hx. rewrite Heq in Hx.
  unfold entry_key in Hx. by rewrite HasPrefix_app in Hx.
Qed.

Lemma pin_entries s n ver cons x name :
  contents (Store_Put s (pinKey n ver cons) x).1 !! entry_key name = contents s !! entry_key name.
Proof.
  destruct (Store_Put _ _ _) as [s1 [[]|]] eqn:Hput; simpl.
  - apply Put_Ok in Hput. rewrite Hput, lookup_insert_ne; [done|apply pinKey_ne].
  - apply Put_Err in Hput. by rewrite Hput.
Qed.

(** One act leaves every stored version in place. *)
Lemma act_keeps tr s a name e v :
  act_text a → sound_store r tr s → reachable s = true → get s name = Ok (Some e) → v ∈ en_Versions e →
  ∃ e' v', get (registry_act r s a) name = Ok (Some e') ∧ v' ∈ en_Versions e' ∧ keeps v v'.
Proof.
  intros Ht Hs Hr Hg Hv. destruct (act_sound tr s a Ht Hs) as [tr' Hs'].
  pose proof (act_reachable s a) as Hr'. rewrite Hr in Hr'.
  assert (∀ s', contents s' !! entry_key name = contents s !! entry_key name → s' = registry_act r s a →
    ∃ e' v', get s' name = Ok (Some e') ∧ v' ∈ en_Versions e' ∧ keeps v v') as Hsame.
  { intros s' Hc ->. exists e, v. split_and!; [|done|split_and!; auto..].
    apply (get_stored tr s name e Hs Hr) in Hg. rewrite <- Hc in Hg. by apply (get_stored tr' _ name e Hs' Hr'). }
  destruct a as [now now' c|n ver cons|n ver cons]; simpl in *.
  - unfold perform_call in *. destruct (planned r s now now' c) as [e1|] eqn:Hp; [|by apply Hsame].
    unfold save in *. destruct (Marshal e1) as [raw|] eqn:Hm; [|by apply Hsame].
    pose proof (Put_reachable_Ok s (entry_key (en_Name e1)) raw Hr) as Hput.
    destruct (Store_Put _ _ _) as [s1 [[]|]] eqn:Hput' in *; [simpl in *|done].
    apply Put_Ok in Hput'. destruct (decide (entry_key (en_Name e1) = entry_key name)) as [Heq|Hne].
    + destruct (planned_keeps tr s now now' c e1 name e v Hs Hp (proj1 (entry_key_inj _ _) Heq) Hg Hv) as (v1 & Hin & Hk).
      pose proof (planned_sound r env_text tr s now now' c e1 Hs Ht Hp) as [Htext _ _ _].
      exists (compacted Compact e1), (compacted_version Compact v1). split_and!.
      * apply (get_stored tr' s1 name _ Hs' Hr'). exists raw.
        rewrite Hput', Heq, lookup_insert_eq. split; [done|by apply Unmarshal_Marshal].
      * by apply list_elem_of_fmap_2.
      * destruct (get_sound_entry r tr s name e Hs Hg) as (_ & _ & Hcomp).
        assert (compacted_version Compact v = v) as Hcv.
        { apply list_elem_of_lookup in Hv as [i Hi]. apply (f_equal en_Versions) in Hcomp. simpl in Hcomp.
          pose proof (f_equal (.!! i) Hcomp) as Hc'. simpl in Hc'. rewrite list_lookup_fmap, Hi in Hc'. by injection Hc'. }
        apply (f_equal v_Manifest) in Hcv. simpl in Hcv.
        destruct Hk as (? & ? & ? & Hkm & ?). split_and!; [done..| |done]. simpl. by rewrite Hkm.
    + apply Hsame; [|done]. by rewrite Hput', lookup_insert_ne.
  - apply Hsame; [by apply pin_entries|done].
  - apply Hsame; [by apply pin_entries|done].
Qed.
End runs.

(** ** What runs was governed *)

(** C18: whatever order concurrent calls, their writes, pins and outages come in, the version
    Resolve hands to a consumer was registered under that name with those bytes, was
    proposed, passed a test where the environment asks for one, and was approved, by
    somebody other than its proposer, where the environment asks for that; it is the
    version that was requested, or the substitution is flagged, was allowed by the mode, and
    is the environment's one default. *)
Theorem what_runs_was_governed `{codec : EntryCodec} {S : Type} `{KVStore S} r (s0 s : S) tr pending name requested mode res :
  ValidString (env r) = true → no_entries s0 → registry_steps r s0 tr (s, pending) →
  Registry_Resolve s name requested mode = Ok res →
  sound_version r tr (safeName name) (rs_Resolved res) ∧
  (v_Status (rs_Resolved res) = StatusPublished ∨ v_Status (rs_Resolved res) = StatusDeprecated) ∧
  ∃ e, get s name = Ok (Some e) ∧ rs_Resolved res ∈ en_Versions e ∧
    NoDup (v_Version <$> en_Versions e) ∧
    if rs_Substituted res then
      mode = DefaultFallback ∧ v_Default (rs_Resolved res) = true ∧ v_Status (rs_Resolved res) = StatusPublished ∧
      (∀ v, v ∈ en_Versions e → v_Default v = true → v = rs_Resolved res) ∧
      (∀ v, v ∈ en_Versions e → v_Version v = requested → v_Status v ≠ StatusPublished ∧ v_Status v ≠ StatusDeprecated)
    else v_Version (rs_Resolved res) = requested.
Proof.
  intros Henv H0 Hsteps. destruct (steps_sound r Henv _ _ _ _ H0 Hsteps) as [Hs _].
  unfold Registry_Resolve. rewrite rbind_Ok. intros ([e|] & Hg & Hres); [|done].
  destruct (get_sound_entry r tr s name e Hs Hg) as ([_ Hu Hd Hv] & Hn & _). rewrite Hn in Hv.
  rewrite Forall_forall in Hv.
  destruct (live name e requested) as [res0|] eqn:Hl.
  - injection Hres as ->. unfold live in Hl. apply bind_Some in Hl as ([i v] & Hf & Hl).
    apply found_version_Some in Hf as [Hi Hver]. pose proof (list_elem_of_lookup_2 _ _ _ Hi) as Hin.
    destruct (v_Status v =s? StatusPublished) eqn:Hp; [|destruct (v_Status v =s? StatusDeprecated) eqn:Hdp; [|done]];
      injection Hl as <-; autorewrite with mk in *; simpl; (split_and!; [by apply Hv|auto|exists e; split_and!; done]).
  - destruct (negb _) eqn:Hm in Hres; [done|]. boolify. autorewrite with mk in Hm.
    unfold defaultVersion in Hres. destruct (list_find _ (en_Versions e)) as [[i v]|] eqn:Hf in Hres; [|done].
    injection Hres as <-. simpl. apply list_find_Some in Hf as (Hi & [Hdf Hpub] & _).
    pose proof (list_elem_of_lookup_2 _ _ _ Hi) as Hin.
    split_and!; [by apply Hv|by left|]. exists e. split_and!; try done.
    + intros w Hw Hdw. apply list_elem_of_lookup in Hw as [j Hj]. assert (i = j) as -> by eauto.
      rewrite Hi in Hj. by injection Hj.
    + intros w Hw Hver. unfold live in Hl. apply list_elem_of_lookup in Hw as [j Hj].
      assert (list_find (λ v, v_Version v = requested) (en_Versions e) = Some (j, w)) as Hfw.
      { apply list_find_Some. split_and!; [done..|]. intros k y Hk Hlt Hy.
        assert (k = j); [|lia]. eapply NoDup_lookup; [exact Hu|..]; rewrite list_lookup_fmap.
        - rewrite Hk. simpl. by rewrite Hy.
        - rewrite Hj. simpl. by rewrite Hver. }
      rewrite Hfw in Hl. simpl in Hl.
      destruct (v_Status w =s? StatusPublished) eqn:Hp; [done|].
      destruct (v_Status w =s? StatusDeprecated) eqn:Hdp; [done|]. by autorewrite with mk in *.
Qed.

(** While the store is up and calls do not overlap, a version that was once stored stays
    stored with the name, environment, bytes and manifest it was registered with, and its
    status only moves along the lifecycle. *)
Theorem versions_are_immutable `{codec : EntryCodec} {S : Type} `{KVStore S} r (s0 : S) before after name e v :
  ValidString (env r) = true → no_entries s0 → reachable s0 = true →
  Forall act_text (before ++ after) →
  get (acts r s0 before) name = Ok (Some e) → v ∈ en_Versions e →
  ∃ e' v', get (acts r s0 (before ++ after)) name = Ok (Some e') ∧ v' ∈ en_Versions e' ∧
    v_Version v' = v_Version v ∧ v_Env v' = v_Env v ∧ v_Ref v' = v_Ref v ∧ v_Manifest v' = v_Manifest v ∧
    rtc next_status (v_Status v) (v_Status v').
Proof.
  intros Henv H0 Hr [Hb Ha]%Forall_app Hg Hv. unfold acts. rewrite foldl_app. fold (acts r s0 before).
  destruct (acts_sound r Henv [] s0 before Hb (no_entries_sound r _ H0)) as [tr Hs].
  assert (reachable (acts r s0 before) = true) as Hr' by (by rewrite acts_reachable).
  set (s := acts r s0 before) in *. clearbody s. clear Hb Hr H0 s0 before.
  revert tr e v s Hg Hv Hs Hr'. induction Ha as [|a l Ht _ IH]; intros tr e v s Hg Hv Hs Hr; simpl.
  - exists e, v. by split_and!.
  - destruct (act_keeps r Henv tr s a name e v Ht Hs Hr Hg Hv) as (e1 & v1 & Hg1 & Hv1 & H1 & H2 & H3 & H4 & H5).
    destruct (act_sound r Henv tr s a Ht Hs) as [tr' Hs'].
    destruct (IH tr' e1 v1 (registry_act r s a) Hg1 Hv1 Hs') as (e' & v' & ? & ? & ? & ? & ? & ? & Hrtc); [by rewrite act_reachable|].
    exists e', v'. split_and!; try congruence. destruct H5 as [<-|H5]; [done|by eapply rtc_l].
Qed.

(** ** Pins *)

(** What the last pin or unpin of this consumer left, names that fall on one key taken
    together. *)
Definition pin_value (l : list Act) (n v c : string) : option string :=
  foldl (λ st a, match a with
    | APin n' v' c' => if decide ((safeName n', safeName v', safeName c') = (safeName n, safeName v, safeName c)) then Some c' else st
    | AUnpin n' v' c' => if decide ((safeName n', safeName v', safeName c') = (safeName n, safeName v, safeName c)) then Some "" else st
    | ACall _ _ _ => st
    end) None l.
Definition depends (l : list Act) (n v x : string) : Prop := x ≠ "" ∧ ∃ c, pin_value l n v c = Some x.

Section pins.
Context `{codec : EntryCodec} {S : Type} `{KVStore S} (r : Registry).
Implicit Types (s : S) (l : list Act).

Definition keyed s : Prop := map_Forall (λ k _, HasPrefix k entryPrefix = true ∨ ∃ n v c, k = pinKey n v c) (contents s).

Lemma perform_contents s now now' c :
  contents (perform_call r s now now' c) = contents s ∨
  ∃ name raw, contents (perform_call r s now now' c) = <[entry_key name := raw]> (contents s).
Proof.
  unfold perform_call. destruct planned as [e|]; [|by left]. unfold save. destruct Marshal as [raw|]; [|by left].
  destruct (Store_Put _ _ _) as [s' [[]|]] eqn:Hp; simpl.
  - right. exists (en_Name e), raw. by apply Put_Ok in Hp.
  - left. by apply Put_Err in Hp.
Qed.

Lemma pins_kept s0 l n v c :
  contents s0 = ∅ → reachable s0 = true →
  keyed (acts r s0 l) ∧ contents (acts r s0 l) !! pinKey n v c = pin_value l n v c.
Proof.
  intros H0 Hr. induction l as [|a l [Hk IH]] using rev_ind.
  { split; unfold acts; simpl; [unfold keyed|]; rewrite H0; [apply map_Forall_empty|apply lookup_empty]. }
  unfold acts, pin_value. rewrite !foldl_app. fold (acts r s0 l) (pin_value l n v c). cbn [foldl].
  assert (reachable (acts r s0 l) = true) as Hr' by (by rewrite acts_reachable).
  set (s := acts r s0 l) in *. clearbody s.
  assert (∀ n' v' c' x, let s' := (Store_Put s (pinKey n' v' c') x).1 in
    keyed s' ∧ contents s' !! pinKey n v c =
      if decide ((safeName n', safeName v', safeName c') = (safeName n, safeName v, safeName c)) then Some x
      else pin_value l n v c) as Hput.
  { intros n' v' c' x. pose proof (Put_reachable_Ok s (pinKey n' v' c') x Hr') as Hok.
    destruct (Store_Put s (pinKey n' v' c') x) as [s' [[]|]] eqn:Hp; [|done]. apply Put_Ok in Hp. simpl. split.
    - unfold keyed. rewrite Hp. apply map_Forall_insert_2; [right; eauto|exact Hk].
    - rewrite Hp. case_decide as Hd.
      + by rewrite (proj2 (pinKey_inj n' v' c' n v c) Hd), lookup_insert_eq.
      + rewrite lookup_insert_ne; [exact IH|]. intros Heq. by apply Hd, pinKey_inj. }
  destruct a as [now now' call|n' v' c'|n' v' c']; simpl; [|apply Hput..].
  destruct (perform_contents s now now' call) as [He|(name & raw & He)].
  - unfold keyed. by rewrite He.
  - split.
    + unfold keyed. rewrite He. apply map_Forall_insert_2; [left; apply HasPrefix_app|exact Hk].
    + rewrite He, lookup_insert_ne; [exact IH|]. intros Heq. by apply (pinKey_ne n v c name).
Qed.

Lemma Dependents_exactly s0 l n v :
  contents s0 = ∅ → reachable s0 = true →
  ∃ ds, Dependents (acts r s0 l) n v = Ok ds ∧ Sorted String.le ds ∧ ∀ x, x ∈ ds ↔ depends l n v x.
Proof.
  intros H0 Hr. pose proof (pins_kept s0 l) as Hk.
  pose proof (acts_reachable r s0 l) as Hr'. rewrite Hr in Hr'.
  unfold Dependents. pose proof (List_reachable (acts r s0 l) (pins_of n v) Hr') as Hl.
  destruct (Store_List _ _) as [ks|] eqn:Hks; [|done]. apply List_Ok in Hks as [_ Hks].
  eexists. split; [done|]. split; [apply Sorted_merge_sort, _|]. intros x.
  rewrite elem_of_sort_strings, list_elem_of_omap. unfold pinned_at, depends. split.
  - intros (k & Hin & Hp). apply Hks in Hin as [[raw Hraw] Hpre].
    destruct (proj1 (Hk n v "" H0 Hr) k raw Hraw) as [He|(n' & v' & c & ->)].
    { apply HasPrefix_spec in He as [t ->], Hpre as [t' Ht']. done. }
    apply pins_of_prefix in Hpre as Heq.
    destruct (Store_Get _ _) as [[y|]|] eqn:Hg; [|done..]. apply Get_sound in Hg.
    destruct (y =s? "") eqn:Hy; [done|]. injection Hp as ->. autorewrite with mk in Hy. split; [done|].
    exists c. rewrite <- (proj2 (Hk n v c H0 Hr)).
    injection Heq as H1 H2. rewrite <- Hg. f_equal. by apply pinKey_inj; rewrite H1, H2.
  - intros (Hx & c & Hc). rewrite <- (proj2 (Hk n v c H0 Hr)) in Hc.
    exists (pinKey n v c). split.
    + apply Hks. split; [by exists x|]. by apply pins_of_prefix.
    + rewrite (Get_reachable _ _ x Hr' Hc Hx). by rewrite (proj2 (eqs_false x "") Hx).
Qed.
End pins.

(** After any run of calls, pins and unpins on a store that is up, an unforced Demise of
    a version some consumer still pins is refused, names exactly the consumers whose last
    act was a pin, and changes nothing; when nobody pins it, it does what a forced one does. *)
Theorem demise_waits_for_dependents `{codec : EntryCodec} {S : Type} `{KVStore S} r (s0 : S) l n v now' :
  contents s0 = ∅ → reachable s0 = true →
  let s := acts r s0 l in
  ((∃ x, depends l n v x) →
    ∃ ds, Demise s n v now' false = (s, Err (StillUsed n v ds)) ∧ Sorted String.le ds ∧
      ∀ x, x ∈ ds ↔ depends l n v x) ∧
  ((∀ x, ¬ depends l n v x) → Demise s n v now' false = Demise s n v now' true).
Proof.
  intros H0 Hr s. destruct (Dependents_exactly r s0 l n v H0 Hr) as (ds & Hd & Hsorted & Hin). fold s in Hd.
  unfold Demise. rewrite Hd. split.
  - intros [x Hx]. exists ds. destruct ds as [|d ds]; [|by split_and!]. apply Hin in Hx. by apply not_elem_of_nil in Hx.
  - intros Hnone. destruct ds as [|d ds]; [done|]. exfalso. apply (Hnone d), Hin. left.
Qed.

(** ** Where overlapping calls and outages show *)

(** Calls that do not overlap are a run of the system. *)
Lemma acts_steps `{codec : EntryCodec} {S : Type} `{KVStore S} r (s0 : S) l :
  Forall act_text l → ∃ tr, registry_steps r s0 tr (acts r s0 l, []).
Proof.
  intros Hl. induction l as [|a l IH] using rev_ind; [exists []; apply steps_start|].
  apply Forall_app in Hl as [Hl Ha]. rewrite Forall_singleton in Ha. destruct (IH Hl) as [tr Hsteps].
  unfold acts. rewrite foldl_app. fold (acts r s0 l). simpl.
  destruct a as [now now' c|n v c|n v c]; simpl in *.
  - unfold perform_call. destruct (planned r (acts r s0 l) now now' c) as [e|] eqn:Hp; [|by exists tr].
    exists (c :: tr). eapply (steps_next r s0 (c :: tr) (acts r s0 l, [e])).
    + eapply steps_next; [exact Hsteps|]. by apply (step_read r tr (acts r s0 l) [] now now' c e).
    + apply (step_write r (c :: tr) (acts r s0 l) [] e []).
  - exists tr. eapply steps_next; [exact Hsteps|apply step_pin].
  - exists tr. eapply steps_next; [exact Hsteps|apply step_unpin].
Qed.

(** A version that carries a mark from an earlier hop keeps that mark: the environment it is
    promoted from now is not recorded. *)
Lemma promoted_mark_is_lost v x :
  v_Provenance v !! "promotedFrom" = Some x → promoted_provenance v !! "promotedFrom" = Some x.
Proof. intros Hv. unfold promoted_provenance. by apply lookup_union_Some_l. Qed.

(** Consumers whose names differ in a slash share a pin: one unpins the other. *)
Lemma consumers_share_a_pin n v : pinKey n v "team/flow" = pinKey n v "team_flow".
Proof. by apply pinKey_inj. Qed.

Section examples.

(** A concrete codec: fields as strings, every character marked and every string ended. *)
Fixpoint put (s rest : string) : string :=
  match s with
  | EmptyString => String "." rest
  | String c s => String "+" (String c (put s rest))
  end.
Definition put_all (l : list string) : string := foldr put "" l.
Fixpoint take_all (s : string) : option (list string) :=
  match s with
  | EmptyString => Some []
  | String "." s => cons "" <$> take_all s
  | String "+" (String c s) =>
      match take_all s with
      | Some (x :: l) => Some (String c x :: l)
      | _ => None
      end
  | String _ _ => None
  end.
Lemma take_put s rest : take_all (put s rest) = cons s <$> take_all rest.
Proof. induction s as [|c s IH]; simpl; [done|]. rewrite IH. by destruct (take_all rest). Qed.
Lemma take_put_all l : take_all (put_all l) = Some l.
Proof. induction l as [|x l IH]; simpl; [done|]. by rewrite take_put, IH. Qed.

Fixpoint bits (p : positive) : string :=
  match p with
  | xH => "."
  | xO p => String "0" (bits p)
  | xI p => String "1" (bits p)
  end.
Fixpoint unbits (s : string) : option positive :=
  match s with
  | EmptyString => None
  | String "." _ => Some xH
  | String "0" s => xO <$> unbits s
  | String _ s => xI <$> unbits s
  end.
Lemma unbits_bits p : unbits (bits p) = Some p.
Proof. induction p as [p IH|p IH|]; simpl; by rewrite ?IH. Qed.

Definition put_Z (z : Z) : string := bits (encode z).
Definition take_Z (s : string) : Z := default 0%Z (unbits s ≫= decode).
Lemma take_put_Z z : take_Z (put_Z z) = z.
Proof. unfold take_Z, put_Z. rewrite unbits_bits. cbn [mbind option_bind]. by rewrite decode_encode. Qed.

Definition put_bool (b : bool) : string := if b then "true" else "false".
Definition take_bool (s : string) : bool := s =s? "true".

(** Every element of a list, written and read back. *)
Lemma omap_map_id {A} (f : A → string) (g : string → option A) l :
  (∀ x, g (f x) = Some x) → omap g (map f l) = l.
Proof.
  intros Hg. induction l as [|x l IH]; [done|].
  change (match g (f x) with Some y => y :: omap g (map f l) | None => omap g (map f l) end = x :: l).
  by rewrite Hg, IH.
Qed.

Definition put_pair (kv : string * string) : string := put_all [kv.1; kv.2].
Definition take_pair (s : string) : option (string * string) :=
  match take_all s with Some [k; v] => Some (k, v) | _ => None end.
Definition put_map (m : gmap string string) : string := put_all (map put_pair (map_to_list m)).
Definition take_map (s : string) : gmap string string :=
  list_to_map (omap take_pair (default [] (take_all s))).
Lemma take_put_map m : take_map (put_map m) = m.
Proof.
  unfold take_map, put_map. rewrite take_put_all. cbn [default id].
  rewrite omap_map_id; [apply list_to_map_to_list|].
  intros [k v]. unfold take_pair, put_pair. by rewrite take_put_all.
Qed.

Definition put_version (v : Version) : string :=
  put_all [v_Version v; v_Env v; v_Status v; v_Ref v; v_Manifest v; put_map (v_Provenance v); put_bool (v_Default v);
    v_ProposedBy v; v_ApprovedBy v; v_ChangeRef v; put_bool (v_TestPassed v); put_Z (v_TestedAt v); v_TestRef v;
    put_Z (v_PublishedAt v); put_Z (v_UpdatedAt v)].
Definition take_version (s : string) : option Version :=
  match take_all s with
  | Some [a; b; c; d; e; f; g; h; i; j; k; l; m; n; o] =>
      Some (mkVersion a b c d e (take_map f) (take_bool g) h i j (take_bool k) (take_Z l) m (take_Z n) (take_Z o))
  | _ => None
  end.
Lemma take_put_version v : take_version (put_version v) = Some v.
Proof.
  unfold take_version, put_version. rewrite take_put_all. rewrite take_put_map, !take_put_Z.
  by destruct v as [a b c d e f [] h i j [] l m n o].
Qed.

Definition put_entry (e : Registry_Entry) : string :=
  put_all (en_Name e :: en_Kind e :: en_Title e :: en_Owner e :: map put_version (en_Versions e)).
Definition take_entry (s : string) : result string Registry_Entry :=
  match take_all s with
  | Some (a :: b :: c :: d :: vs) => Ok (mkEntry a b c d (omap take_version vs))
  | _ => Err "syntax"
  end.
Lemma take_put_entry e : take_entry (put_entry e) = Ok e.
Proof.
  unfold take_entry, put_entry. rewrite take_put_all, (omap_map_id _ _ _ take_put_version). by destruct e.
Qed.

#[refine] Instance demo_codec : EntryCodec := {|
  Marshal := λ e, Ok (put_entry e);
  Unmarshal := take_entry;
  Compact := λ m, m;
|}.
Proof.
  - intros e raw [= <-]. unfold put_entry. simpl. by destruct (en_Name e).
  - intros e raw _ Hm. assert (raw = put_entry e) as -> by congruence. rewrite take_put_entry. f_equal.
    destruct e as [n k t o vs]. unfold compacted, with_Versions. cbn [en_Name en_Kind en_Title en_Owner en_Versions].
    rewrite (map_ext (compacted_version (λ m, m)) id), map_id; [done|]. by intros [].
  - done.
Defined.

Definition demo_prod : Registry := mkRegistry "prod" SealedProd.
Definition demo_reg (ref : string) : Registration := mkRegistration "scan" "tool" "Scanner" "alice" "1.0.0" ref "{}".
Definition demo_acts : list Act :=
  [ACall 1 2 (CRegister (demo_reg "sha256:aa")); ACall 3 4 (CTransition "scan" "1.0.0" (Test true "run-1"));
   ACall 5 6 (CTransition "scan" "1.0.0" (Propose "alice"))]%Z.
Definition demo_more : list Act :=
  [ACall 7 8 (CTransition "scan" "1.0.0" (ApproveBy "bob")); APin "scan" "1.0.0" "flow-7";
   ACall 9 9 (CSetDefault "scan" "1.0.0")]%Z.

Lemma demo_acts_text : Forall act_text (demo_acts ++ demo_more).
Proof. repeat (apply Forall_cons; split); try apply Forall_nil_2; simpl; try done; repeat (constructor; try done). Qed.
Lemma demo_nothing : contents NewMem = ∅.
Proof. reflexivity. Qed.
Lemma demo_empty : no_entries NewMem.
Proof. intros k x Hx. discriminate (eq_trans (eq_sym (lookup_empty (M := gmap string) k)) Hx). Qed.

Definition demo_resolution : result registry_error Resolution :=
  Registry_Resolve (acts demo_prod NewMem (demo_acts ++ demo_more)) "scan" "0.9.0" DefaultFallback.
Definition demo_resolved : Resolution :=
  match demo_resolution with Ok res => res | Err _ => mkResolution "" "" (draft demo_prod 0 (demo_reg "")) false "" end.

Lemma what_runs_was_governed_witness :
  rs_Substituted demo_resolved = true ∧ v_Status (rs_Resolved demo_resolved) = StatusPublished ∧
  ∃ tr, sound_version demo_prod tr (safeName "scan") (rs_Resolved demo_resolved).
Proof.
  destruct (acts_steps demo_prod NewMem _ demo_acts_text) as [tr Htr].
  split; [vm_compute; reflexivity|]. split; [vm_compute; reflexivity|]. exists tr.
  apply (what_runs_was_governed demo_prod NewMem _ tr [] "scan" "0.9.0" DefaultFallback demo_resolved
    eq_refl demo_empty Htr).
  vm_compute. reflexivity.
Defined.

Definition demo_stored : Registry_Entry :=
  match get (acts demo_prod NewMem demo_acts) "scan" with Ok (Some e) => e | _ => mkEntry "" "" "" "" [] end.
Definition demo_version : Version := List.hd (draft demo_prod 0 (demo_reg "")) (en_Versions demo_stored).

Lemma versions_are_immutable_witness :
  v_Status demo_version = StatusInReview ∧
  ∃ e' v', get (acts demo_prod NewMem (demo_acts ++ demo_more)) "scan" = Ok (Some e') ∧ v' ∈ en_Versions e' ∧
    v_Version v' = v_Version demo_version ∧ v_Env v' = v_Env demo_version ∧ v_Ref v' = v_Ref demo_version ∧
    v_Manifest v' = v_Manifest demo_version ∧ rtc next_status (v_Status demo_version) (v_Status v').
Proof.
  split; [vm_compute; reflexivity|].
  apply (versions_are_immutable demo_prod NewMem demo_acts demo_more "scan" demo_stored demo_version
    eq_refl demo_empty eq_refl demo_acts_text).
  - vm_compute. reflexivity.
  - vm_compute. left.
Defined.

Lemma demise_waits_for_dependents_witness :
  ∃ ds, Demise (acts demo_prod NewMem (demo_acts ++ demo_more)) "scan" "1.0.0" 10 false =
    (acts demo_prod NewMem (demo_acts ++ demo_more), Err (StillUsed "scan" "1.0.0" ds)).
Proof.
  destruct (demise_waits_for_dependents demo_prod NewMem (demo_acts ++ demo_more) "scan" "1.0.0" 10 demo_nothing eq_refl)
    as [H _].
  destruct H as (ds & Hds & _).
  - exists "flow-7". split; [done|]. exists "flow-7". vm_compute. reflexivity.
  - exists ds. exact Hds.
Defined.

(** Two calls register one version at the same time: both find it absent, both are told it
    is theirs, and the bytes of the first are replaced under its immutable name. *)
Lemma racing_registers_replace_a_version :
  ∃ tr s1 s2 e1 e2,
    registry_steps demo_prod NewMem tr (s1, [e2]) ∧ get s1 "scan" = Ok (Some e1) ∧
    registry_steps demo_prod NewMem tr (s2, []) ∧ get s2 "scan" = Ok (Some e2) ∧
    v_Ref <$> en_Versions e1 = ["sha256:aa"] ∧ v_Ref <$> en_Versions e2 = ["sha256:bb"].
Proof.
  set (v := λ ref, draft demo_prod 1 (demo_reg ref)).
  set (e := λ ref, mkEntry "scan" "tool" "Scanner" "alice" [v ref]).
  set (c := λ ref, CRegister (demo_reg ref)).
  assert (∀ ref, ValidString ref = true → call_text (c ref)) as Ht.
  { intros ref Hr. simpl. repeat (apply Forall_cons; split; [done|]). apply Forall_nil_2. }
  assert (registry_steps demo_prod NewMem [c "sha256:aa"; c "sha256:bb"] (NewMem, [e "sha256:aa"; e "sha256:bb"])) as H0.
  { eapply steps_next; [eapply steps_next; [apply steps_start|]|].
    - apply (step_read demo_prod [] NewMem [] 1 1 (c "sha256:bb")); [by apply Ht|vm_compute; reflexivity].
    - apply (step_read demo_prod _ NewMem _ 1 1 (c "sha256:aa")); [by apply Ht|vm_compute; reflexivity]. }
  assert (registry_steps demo_prod NewMem [c "sha256:aa"; c "sha256:bb"] ((save NewMem (e "sha256:aa")).1, [e "sha256:bb"])) as H1.
  { eapply steps_next; [exact H0|]. apply (step_write demo_prod _ NewMem [] (e "sha256:aa") [e "sha256:bb"]). }
  eexists _, _, _, _, _. split_and!; [exact H1|vm_compute; reflexivity| | | |].
  - eapply steps_next; [exact H1|]. apply (step_write demo_prod _ _ [] (e "sha256:bb") []).
  - vm_compute. reflexivity.
  - vm_compute. reflexivity.
  - vm_compute. reflexivity.
Qed.

(** The read of a Register fails, its write succeeds: every version of the entry is gone. *)
Lemma outage_replaces_the_entry :
  let s := mkFlaky (acts demo_prod NewMem (demo_acts ++ demo_more)) false in
  let r2 := mkRegistration "scan" "tool" "" "mallory" "2.0.0" "sha256:cc" "{}" in
  ∃ e, planned demo_prod s 11 11 (CRegister r2) = Ok e ∧
    get (save (mkFlaky (fl_data s) true) e).1 "scan" = Ok (Some e) ∧
    v_Version <$> en_Versions e = ["2.0.0"].
Proof. eexists. split_and!; vm_compute; reflexivity. Qed.
End examples.
