(* ===== verification/Stores.v ===== *)
(** The drivers of the key-value store port: [mantlekeep-control/internal/store] ([bolt.go],
    [subprocess.go], [store.go]; the in-memory driver [mem.go] is in [Registry]).

    A bbolt bucket is a class: its pairs in the byte order of their keys. A driver in another
    process is a pair of pipes: a line is written, a line is read. The JSON codec is a class;
    base64 is [encoding/base64]'s, written out. JSON texts are UTF-8: a key of other bytes does not
    reach the other process as it was ([invalid_keys_are_conflated]). *)
From S2P Require Import Prelude Utf8 Contracts Bucket Registry.

(** ** bolt.go *)

(** A bucket as a key-value store: [Bucket.Put] sets or replaces, and refuses an empty key
    and one above 32768 bytes. *)
Class KVBucket (B : Type) := {
  kv_entries : B → list (string * string);
  kv_Put : B → string → string → result string B;
  kv_sorted b : StronglySorted (λ e e', key_lt e.1 e'.1) (kv_entries b);
  kv_Put_Ok b k v b' : kv_Put b k v = Ok b' →
    ∀ k' v', (k', v') ∈ kv_entries b' ↔ (k' = k ∧ v' = v) ∨ (k' ≠ k ∧ (k', v') ∈ kv_entries b);
  kv_Put_legal b k v : k ≠ "" → (Stdlib.Strings.String.length k ≤ 32768)%nat → is_ok (kv_Put b k v) = true;
}.

Section bolt.
Context {B : Type} `{!KVBucket B}.



End bolt.

(** ** Byte order and prefixes *)

Lemma ascii_lt_trans a b c : ascii_lt a b → ascii_lt b c → ascii_lt a c.
Proof. unfold ascii_lt. intros ??. by etrans. Qed.

Lemma key_lt_irrefl a : ¬ key_lt a a.
Proof. induction a as [|x a IH]; simpl; [by intros []|]. intros [H|[_ H]]; [unfold ascii_lt in H; by apply N.lt_irrefl in H|done]. Qed.

Lemma key_lt_trans a b c : key_lt a b → key_lt b c → key_lt a c.
Proof.
  revert b c. induction a as [|x a IH]; intros [|y b] [|z c]; simpl; try done.
  intros [H1|[-> H1]] [H2|[-> H2]]; [left; by eapply ascii_lt_trans|by left|by left|right; split; [done|by eapply IH]].
Qed.

Lemma ascii_lt_total a b : ascii_lt a b ∨ a = b ∨ ascii_lt b a.
Proof.
  unfold ascii_lt. destruct (N.lt_trichotomy (N_of_ascii a) (N_of_ascii b)) as [?|[H|?]]; [by left| |by right; right].
  right. left. rewrite <- (ascii_N_embedding a), <- (ascii_N_embedding b). by rewrite H.
Qed.






(** ** encoding/base64 *)

Definition byte_of (n : N) : ascii := ascii_of_N n.
Definition b64_char (n : N) : ascii :=
  ascii_of_N (if (n <? 26)%N then 65 + n else if (n <? 52)%N then 71 + n else if (n <? 62)%N then n - 4
              else if (n =? 62)%N then 43 else 47).
Definition b64_value (c : ascii) : option N :=
  let n := N_of_ascii c in
  if (65 <=? n)%N && (n <=? 90)%N then Some (n - 65)%N
  else if (97 <=? n)%N && (n <=? 122)%N then Some (n - 71)%N
  else if (48 <=? n)%N && (n <=? 57)%N then Some (n + 4)%N
  else if (n =? 43)%N then Some 62%N
  else if (n =? 47)%N then Some 63%N
  else None.
Definition pad : ascii := "="%char.

(** [StdEncoding.EncodeToString]. *)
Fixpoint b64_encode (s : string) : string :=
  match s with
  | EmptyString => EmptyString
  | String a EmptyString =>
      let a := N_of_ascii a in
      String (b64_char (a / 4)) (String (b64_char (a mod 4 * 16)) (String pad (String pad EmptyString)))
  | String a (String b EmptyString) =>
      let a := N_of_ascii a in let b := N_of_ascii b in
      String (b64_char (a / 4)) (String (b64_char (a mod 4 * 16 + b / 16)) (String (b64_char (b mod 16 * 4)) (String pad EmptyString)))
  | String a (String b (String c s)) =>
      let a := N_of_ascii a in let b := N_of_ascii b in let c := N_of_ascii c in
      String (b64_char (a / 4)) (String (b64_char (a mod 4 * 16 + b / 16))
        (String (b64_char (b mod 16 * 4 + c / 64)) (String (b64_char (c mod 64)) (b64_encode s))))
  end.

(** [StdEncoding.DecodeString], of a text without line ends. *)
Fixpoint b64_decode (s : string) : option string :=
  match s with
  | EmptyString => Some EmptyString
  | String w (String x (String y (String z s))) =>
      v1 ← b64_value w; v2 ← b64_value x;
      let first := byte_of (v1 * 4 + v2 / 16) in
      if bool_decide (y = pad) then
        if bool_decide (z = pad) && (s =s? "") then Some (String first EmptyString) else None
      else
        v3 ← b64_value y;
        let second := byte_of (v2 mod 16 * 16 + v3 / 4) in
        if bool_decide (z = pad) then if s =s? "" then Some (String first (String second EmptyString)) else None
        else
          v4 ← b64_value z;
          rest ← b64_decode s;
          Some (String first (String second (String (byte_of (v3 mod 4 * 64 + v4)) rest)))
  | _ => None
  end.

Lemma b64_char_table :
  forallb (λ n, match b64_value (b64_char (N.of_nat n)) with Some m => (m =? N.of_nat n)%N | None => false end &&
    negb (bool_decide (b64_char (N.of_nat n) = pad))) (seq 0 64) = true.
Proof. by vm_compute. Qed.

Lemma b64_char_spec n : (n < 64)%N → b64_value (b64_char n) = Some n ∧ bool_decide (b64_char n = pad) = false.
Proof.
  intros H. pose proof b64_char_table as Ht. rewrite forallb_forall in Ht. specialize (Ht (N.to_nat n)).
  rewrite N2Nat.id in Ht. destruct (b64_value (b64_char n)) as [m|].
  - rewrite andb_true_iff, N.eqb_eq, negb_true_iff in Ht. destruct Ht as [-> ?]; [apply in_seq; lia|done].
  - discriminate Ht. apply in_seq. lia.
Qed.

(** Arithmetic of the six-bit groups. *)
Ltac by_division := zify; Z.to_euclidean_division_equations; lia.

Lemma ascii_bound a : (N_of_ascii a < 256)%N.
Proof. apply N_ascii_bounded. Qed.
Lemma byte_back a n : n = N_of_ascii a → byte_of n = a.
Proof. intros ->. apply ascii_N_embedding. Qed.

Lemma b64_round_trip s : b64_decode (b64_encode s) = Some s.
Proof.
  assert (∀ n s, (Stdlib.Strings.String.length s < n)%nat → b64_decode (b64_encode s) = Some s) as H; [|apply (H (S (slen s))); lia].
  clear s. induction n as [|n IH]; intros s Hn; [lia|].
  destruct s as [|a [|b [|c s]]]; [done| | |]; cbn [b64_encode b64_decode].
  - pose proof (ascii_bound a).
    destruct (b64_char_spec (N_of_ascii a / 4)) as [-> _]; [by_division|].
    destruct (b64_char_spec (N_of_ascii a mod 4 * 16)) as [-> _]; [by_division|].
    cbn [mbind option_bind]. rewrite bool_decide_eq_true_2 by done. simpl. f_equal. f_equal. apply byte_back.
    by_division.
  - pose proof (ascii_bound a). pose proof (ascii_bound b).
    destruct (b64_char_spec (N_of_ascii a / 4)) as [-> _]; [by_division|].
    destruct (b64_char_spec (N_of_ascii a mod 4 * 16 + N_of_ascii b / 16)) as [-> _]; [by_division|].
    destruct (b64_char_spec (N_of_ascii b mod 16 * 4)) as [-> ->]; [by_division|].
    cbn [mbind option_bind]. rewrite bool_decide_eq_true_2 by done. simpl. do 2 f_equal; [|f_equal]; apply byte_back;
      by_division.
  - pose proof (ascii_bound a). pose proof (ascii_bound b). pose proof (ascii_bound c).
    destruct (b64_char_spec (N_of_ascii a / 4)) as [-> _]; [by_division|].
    destruct (b64_char_spec (N_of_ascii a mod 4 * 16 + N_of_ascii b / 16)) as [-> _]; [by_division|].
    destruct (b64_char_spec (N_of_ascii b mod 16 * 4 + N_of_ascii c / 64)) as [-> ->]; [by_division|].
    destruct (b64_char_spec (N_of_ascii c mod 64)) as [-> ->]; [by_division|].
    cbn [mbind option_bind]. rewrite IH by (simpl in Hn; lia). cbn [mbind option_bind]. do 2 f_equal; [|f_equal; [|f_equal]]; apply byte_back;
      by_division.
Qed.

(** The encoding is ASCII. *)
Lemma b64_char_ascii n : (n < 64)%N → byte_in 0 127 (b64_char n) = true.
Proof.
  intros H. assert (forallb (λ n, byte_in 0 127 (b64_char (N.of_nat n))) (seq 0 64) = true) as Ht by by vm_compute.
  rewrite forallb_forall in Ht. specialize (Ht (N.to_nat n)). rewrite N2Nat.id in Ht. apply Ht, in_seq. lia.
Qed.

Lemma b64_ascii s : ascii_text (b64_encode s) = true.
Proof.
  induction s as [s IH] using string_bytes_ind. destruct s as [|a [|b [|c s]]]; [done| | |]; cbn [b64_encode];
    unfold ascii_text in *; cbn [all_chars]; pose proof (ascii_bound a); try pose proof (ascii_bound b);
    try pose proof (ascii_bound c); rewrite !b64_char_ascii by by_division; [done..|]. apply IH. simpl. lia.
Qed.

(** ** subprocess.go *)

Record subReq := mkSubReq { sq_Op : string; sq_Key : string; sq_Value : string; sq_Prefix : string }.
Record subResp := mkSubResp { sr_OK : bool; sr_Value : string; sr_Keys : list string; sr_Err : string }.

(** What [json.Marshal] makes of the texts of a request. *)
Definition coerced_req (r : subReq) : subReq :=
  mkSubReq (coerced (sq_Op r)) (coerced (sq_Key r)) (coerced (sq_Value r)) (coerced (sq_Prefix r)).

(** The codec of the two records; an encoded record is one line. The line of a request shows
    its texts with the invalid bytes replaced. *)
Class SubJSON := {
  EncodeReq : subReq → string;
  DecodeResp : string → result string subResp;
  EncodeReq_coerced r : EncodeReq r = EncodeReq (coerced_req r);
}.

(** The limit of the scanner's buffer. *)
Definition maxReply : nat := 8 * 1024 * 1024.

(** The two ends of the other process's pipes. *)
Class Pipes (D : Type) := {
  pipe_write : D → string → result string D;
  pipe_read : D → option string * D;
}.

(** The scanner stops for good at the end of the input and at a line that does not fit. *)
Record Subprocess (D : Type) := mkSubprocess { sp_driver : D; sp_stopped : bool }.
Arguments mkSubprocess {D}.
Arguments sp_driver {D}.
Arguments sp_stopped {D}.

Section subprocess.
Context {D : Type} `{!SubJSON, !Pipes D}.

(** [s.out.Scan()]; a line and its end fit in the buffer, or the scanner stops. *)
Definition Scan (s : Subprocess D) : option string * Subprocess D :=
  if sp_stopped s then (None, s)
  else let '(line, d) := pipe_read (sp_driver s) in
       match line with
       | None => (None, mkSubprocess d true)
       | Some line => if (slen line <? maxReply)%nat then (Some line, mkSubprocess d false) else (None, mkSubprocess d true)
       end.

Definition Subprocess_call (s : Subprocess D) (req : subReq) : result string subResp * Subprocess D :=
  match pipe_write (sp_driver s) (EncodeReq req) with
  | Err e => (Err ("write to driver: " +:+ e), s)
  | Ok d =>
      let '(line, s) := Scan (mkSubprocess d (sp_stopped s)) in
      match line with
      | None => (Err "driver closed the connection", s)
      | Some line =>
          (match DecodeResp line with
           | Err e => Err ("bad driver reply: " +:+ e)
           | Ok resp => if negb (sr_Err resp =s? "") then Err (sr_Err resp) else Ok resp
           end, s)
      end
  end.

Definition Subprocess_Put (s : Subprocess D) (key value : string) : Subprocess D * result string unit :=
  let '(r, s) := Subprocess_call s (mkSubReq "put" key (b64_encode value) "") in
  (s, match r with Ok _ => Ok tt | Err e => Err e end).
Definition Subprocess_Get (s : Subprocess D) (key : string) : Subprocess D * result string (option string) :=
  let '(r, s) := Subprocess_call s (mkSubReq "get" key "" "") in
  (s, match r with
      | Err e => Err e
      | Ok resp => match b64_decode (sr_Value resp) with
                   | Some v => Ok (Some v)
                   | None => Err "illegal base64 data"
                   end
      end).
Definition Subprocess_List (s : Subprocess D) (prefix : string) : Subprocess D * result string (list string) :=
  let '(r, s) := Subprocess_call s (mkSubReq "list" "" "" prefix) in
  (s, match r with Ok resp => Ok (sr_Keys resp) | Err e => Err e end).

(** A line that does not fit ends the store: whatever is asked after, of whatever key, the
    answer is an error, though the other process lives. *)
Lemma a_reply_too_long_ends_the_store s req d line d' :
  pipe_write (sp_driver s) (EncodeReq req) = Ok d → pipe_read d = (Some line, d') → (maxReply ≤ slen line)%nat →
  sp_stopped s = false →
  let s' := (Subprocess_call s req).2 in
  is_ok (Subprocess_call s req).1 = false ∧ ∀ req', is_ok (Subprocess_call s' req').1 = false.
Proof.
  intros Hw Hr Hl Hs. unfold Subprocess_call. rewrite Hw. unfold Scan. cbn [sp_stopped sp_driver]. rewrite Hs, Hr.
  rewrite (proj2 (Nat.ltb_ge _ _) Hl). cbn [fst snd sp_driver sp_stopped]. split; [done|]. intros req'.
  by destruct (pipe_write d' (EncodeReq req')).
Qed.
End subprocess.

(** ** One port, three drivers *)

Inductive store_op := SPut (key value : string) | SGet (key : string) | SList (prefix : string).
Inductive store_answer :=
| APut (r : result string unit)
| AGet (r : result string (option string))
| AList (r : result string (list string)).

Definition subprocess_perform {D} `{!SubJSON, !Pipes D} (op : store_op) (s : Subprocess D) : store_answer * Subprocess D :=
  match op with
  | SPut k v => let '(s, r) := Subprocess_Put s k v in (APut r, s)
  | SGet k => let '(s, r) := Subprocess_Get s k in (AGet r, s)
  | SList p => let '(s, r) := Subprocess_List s p in (AList r, s)
  end.








(** The keys and prefixes that reach another process as they are. *)
Definition text_key (op : store_op) : Prop :=
  match op with SPut k _ => ValidString k = true | SGet k => ValidString k = true | SList p => ValidString p = true end.

(** What one exchange with a driver that keeps a store means. *)
Definition protocol (m : Mem) (req : subReq) (resp : subResp) (m' : Mem) : Prop :=
  if sq_Op req =s? "put" then
    sr_Err resp = "" ∧ ∃ v, b64_decode (sq_Value req) = Some v ∧ m' = <[sq_Key req := v]> m
  else if sq_Op req =s? "get" then
    m' = m ∧ match m !! sq_Key req with
             | Some v => sr_Err resp = "" ∧ sr_Value resp = b64_encode v
             | None => sr_Err resp ≠ ""
             end
  else m' = m ∧ sr_Err resp = "" ∧
       sr_Keys resp ≡ₚ filter (λ k, HasPrefix k (sq_Prefix req) = true) (map_to_list m).*1.

(** What the store asks for an operation. *)
Definition request_of_op (op : store_op) : subReq :=
  match op with
  | SPut k v => mkSubReq "put" k (b64_encode v) ""
  | SGet k => mkSubReq "get" k "" ""
  | SList p => mkSubReq "list" "" "" p
  end.

(** A driver: between exchanges it waits for a line, and it answers what the store asks of a
    key or prefix in UTF-8. *)
Class StoreDriver (D : Type) `{!SubJSON, !Pipes D} := {
  waits : D → Prop;
  driver_contents : D → Mem;
  driver_answers d op : waits d → text_key op →
    ∃ d1 line d2 resp, pipe_write d (EncodeReq (request_of_op op)) = Ok d1 ∧ pipe_read d1 = (Some line, d2) ∧ waits d2 ∧
      DecodeResp line = Ok resp ∧ protocol (driver_contents d) (request_of_op op) resp (driver_contents d2);
}.

Section driven.
Context {D : Type} `{!SubJSON, !Pipes D, !StoreDriver D}.





End driven.

(** A driver process cannot tell a key from the text it is replaced by: what is put under one
    is found under the other. *)
Lemma invalid_keys_are_conflated {D} `{!SubJSON, !Pipes D} (s : Subprocess D) k k' v :
  coerced k = coerced k' →
  subprocess_perform (SPut k v) s = subprocess_perform (SPut k' v) s ∧
  subprocess_perform (SGet k) s = subprocess_perform (SGet k') s.
Proof.
  intros Hk. assert (∀ op value prefix, Subprocess_call s (mkSubReq op k value prefix) =
    Subprocess_call s (mkSubReq op k' value prefix)) as Hc.
  { intros op value prefix. unfold Subprocess_call. rewrite (EncodeReq_coerced (mkSubReq op k value prefix)),
      (EncodeReq_coerced (mkSubReq op k' value prefix)). unfold coerced_req. cbn [sq_Op sq_Key sq_Value sq_Prefix]. by rewrite Hk. }
  cbn [subprocess_perform]. unfold Subprocess_Put, Subprocess_Get. by rewrite !Hc.
Qed.


(** ** store.go *)

(** The registry of drivers by name, and opening one. *)
Section registry.
Context {Opened : Type}.
Notation Opener := (string → result string Opened) (only parsing).

Definition store_Register (openers : gmap string Opener) (name : string) (o : Opener) : gmap string Opener := <[name := o]> openers.
Definition store_Available (openers : gmap string Opener) : list string := sorted_keys openers.
Definition store_Open (openers : gmap string Opener) (name dsn : string) : result string Opened :=
  match openers !! name with
  | None => Err ("store driver " +:+ Quote name +:+ " not built in (have [" +:+ Join (store_Available openers) " " +:+
                 "]) — rebuild with `-tags " +:+ name +:+ "`")
  | Some o => o dsn
  end.

(** A driver in another process: launched anew by each opening, whatever the DSN. *)
Definition RegisterSubprocess (openers : gmap string Opener) (newSubprocess : string → result string Opened) (name binPath : string) :
    gmap string Opener :=
  store_Register openers name (λ _, newSubprocess binPath).
End registry.

(** ** Examples and witnesses *)

(** A bucket as a sorted list. *)
Record SortedList := mkSortedList {
  sl_entries : list (string * string);
  sl_sorted : StronglySorted (λ e e', key_lt e.1 e'.1) sl_entries;
}.

Lemma elem_of_insert_entry k v l k' v' : StronglySorted (λ e e', key_lt e.1 e'.1) l →
  (k', v') ∈ insert_entry k v l ↔ (k' = k ∧ v' = v) ∨ (k' ≠ k ∧ (k', v') ∈ l).
Proof.
  induction 1 as [|[k1 v1] l _ IH Hf]; cbn [insert_entry].
  { rewrite list_elem_of_singleton. split; [intros [= -> ->]; by left|]. intros [[-> ->]|[_ []%not_elem_of_nil]]. done. }
  rewrite Forall_forall in Hf.
  assert (∀ v, (k1, v) ∉ l) as Hk1 by (intros x Hx; by apply (key_lt_irrefl k1), (Hf (k1, x))).
  destruct (decide (key_lt k1 k)) as [Hlt|Hge].
  - assert (k1 ≠ k) by (intros ->; by apply key_lt_irrefl in Hlt). rewrite !elem_of_cons, IH. naive_solver.
  - destruct (decide (k1 = k)) as [->|Hne].
    + rewrite !elem_of_cons. split; [|naive_solver]. intros [[= -> ->]|Hin]; [by left|]. right.
      split; [intros ->; by apply (Hk1 v')|by right].
    + assert (∀ x, (k, x) ∉ l) as Hkl.
      { intros x Hx. apply Hge. apply (Hf (k, x) Hx). }
      rewrite !elem_of_cons. split; [|naive_solver]. intros [[= -> ->]|[[= -> ->]|Hin]]; [by left|by right; split; [|left]|].
      right. split; [intros ->; by apply (Hkl v')|by right].
Qed.

Lemma key_lt_total a b : key_lt a b ∨ a = b ∨ key_lt b a.
Proof.
  revert b. induction a as [|x a IH]; intros [|y b]; simpl; [by right; left|by left|by right; right|].
  destruct (ascii_lt_total x y) as [?|[->|?]]; [by left; left| |by right; right; left].
  destruct (IH b) as [?|[->|?]]; [left; by right|by right; left|right; right; by right].
Qed.

Lemma insert_entry_sorted k v l : StronglySorted (λ e e', key_lt e.1 e'.1) l →
  StronglySorted (λ e e', key_lt e.1 e'.1) (insert_entry k v l).
Proof.
  induction 1 as [|[k1 v1] l Hs IH Hf]; cbn [insert_entry]; [repeat constructor|].
  destruct (decide (key_lt k1 k)) as [Hlt|Hge].
  - constructor; [done|]. rewrite Forall_forall in Hf |- *. intros [k' v'] Hin. apply elem_of_insert_entry in Hin; [|done].
    destruct Hin as [[-> ->]|[_ Hin]]; [done|by apply Hf].
  - destruct (decide (k1 = k)) as [->|Hne]; [by constructor|].
    assert (key_lt k k1) as Hlt by (destruct (key_lt_total k1 k) as [?|[?|?]]; done).
    constructor; [by constructor|]. constructor; [done|]. eapply Forall_impl; [exact Hf|]. intros e He. by eapply key_lt_trans.
Qed.

#[refine, local] Instance sorted_list_bucket : KVBucket SortedList := {|
  kv_entries := sl_entries;
  kv_Put b k v :=
    if (k =s? "") || (32768 <? slen k)%nat then Err "key required"
    else Ok (mkSortedList (insert_entry k v (sl_entries b)) (insert_entry_sorted k v _ (sl_sorted b)));
|}.
Proof.
  - apply sl_sorted.
  - intros b k v b' H k' v'. case_match; [done|]. injection H as <-. apply elem_of_insert_entry, sl_sorted.
  - intros b k v Hk Hl. rewrite (proj2 (eqs_false _ _) Hk), (proj2 (Nat.ltb_ge _ _) Hl). done.
Defined.

(** A driver process over a map, with the reply it owes. *)
Record DemoDriver := mkDemoDriver { dd_map : Mem; dd_reply : option string }.

Definition demo_encode_resp (r : subResp) : string := bits (encode (sr_OK r, sr_Value r, sr_Keys r, sr_Err r)).
#[refine, local] Instance demo_sub_json : SubJSON := {|
  EncodeReq r := bits (encode (coerced (sq_Op r), coerced (sq_Key r), coerced (sq_Value r), coerced (sq_Prefix r)));
  DecodeResp line := match unbits line ≫= decode with
                     | Some (ok, v, ks, err) => Ok (mkSubResp ok v ks err)
                     | None => Err "invalid character"
                     end;
|}.
Proof. intros r. unfold coerced_req. cbn [sq_Op sq_Key sq_Value sq_Prefix]. by rewrite !coerced_idemp. Defined.
Definition demo_reply (m : Mem) (op key v prefix : string) : subResp * Mem :=
  if op =s? "put" then (mkSubResp true "" [] "", <[key := default "" (b64_decode v)]> m)
  else if op =s? "get" then
    (match m !! key with Some v => mkSubResp true (b64_encode v) [] "" | None => mkSubResp false "" [] "key not found" end, m)
  else (mkSubResp true "" (filter (λ k, HasPrefix k prefix = true) (map_to_list m).*1) "", m).
#[local] Instance demo_pipes : Pipes DemoDriver := {|
  pipe_write d line :=
    match unbits line ≫= decode with
    | Some (op, key, v, prefix) =>
        let '(resp, m) := demo_reply (dd_map d) op key v prefix in Ok (mkDemoDriver m (Some (demo_encode_resp resp)))
    | None => Ok d
    end;
  pipe_read d := (dd_reply d, mkDemoDriver (dd_map d) None);
|}.

Lemma request_is_text op : text_key op →
  (coerced (sq_Op (request_of_op op)), coerced (sq_Key (request_of_op op)), coerced (sq_Value (request_of_op op)),
   coerced (sq_Prefix (request_of_op op))) =
  (sq_Op (request_of_op op), sq_Key (request_of_op op), sq_Value (request_of_op op), sq_Prefix (request_of_op op)).
Proof.
  destruct op; cbn; intros Ht; rewrite ?(coerced_valid _ Ht); try done.
  by rewrite (coerced_valid _ (ascii_valid _ (b64_ascii _))).
Qed.

#[refine, local] Instance demo_store_driver : StoreDriver DemoDriver := {|
  waits d := dd_reply d = None;
  driver_contents := dd_map;
|}.
Proof.
  intros d op _ Ht. cbn [pipe_write pipe_read demo_pipes EncodeReq DecodeResp demo_sub_json].
  rewrite request_is_text by done. rewrite unbits_bits. cbn [mbind option_bind]. rewrite decode_encode.
  destruct (demo_reply (dd_map d) (sq_Op (request_of_op op)) (sq_Key (request_of_op op)) (sq_Value (request_of_op op))
    (sq_Prefix (request_of_op op))) as [resp m] eqn:E.
  eexists _, _, _, resp. split; [done|]. split; [done|]. split; [done|]. split.
  - unfold demo_encode_resp. rewrite unbits_bits. cbn [mbind option_bind]. rewrite decode_encode. by destruct resp.
  - destruct op as [k v|k|p]; unfold request_of_op, demo_reply in E; simpl in E; injection E as <- <-; unfold protocol; simpl.
    + split; [done|]. exists v. by rewrite b64_round_trip.
    + split; [done|]. by destruct (dd_map d !! k).
    + done.
Defined.


