(* ===== verification/KernelRunner.v ===== *)
(** The sandbox kernel as the control plane calls it, and the loop that tests a draft tool:
    [internal/kernel/kernel.go], [internal/tooltest/tooltest.go] and [EnsureConfigDir] of
    [internal/safeio].

    The kernel is another program: what it prints and how it exits is an argument, a function
    of how it is called and of the files it finds. What the operating system answers to making
    a directory and to writing the input file is an argument too. *)
From S2P Require Import Prelude Utf8 Contracts Startup PolicySources Registry.

(** ** internal/kernel *)

(** The files, and a call of the binary: its deadline, its name, its arguments. *)
Notation Files := (gmap string string).
Definition Runner : Type := Z → string → list string → Files → string * string * Z.

Record Kernel := mkKernel {
  bin : string;
  timeout : Z;
  run : Runner;
}.
Definition NewWithRunner (bin : string) (run : Runner) : Kernel := mkKernel bin (15 * 1000000000) run.

(** How a process ends: on its own, by a signal, or never started. *)
Inductive exec_end := Exited (code : Z) | Signalled | NotStarted.
Definition osRun (exec : Z → string → list string → Files → string * string * exec_end) : Runner := λ deadline name args files,
  let '(stdout, stderr, ended) := exec deadline name args files in
  (stdout, stderr, match ended with Exited code => code | Signalled | NotStarted => (-1)%Z end).

Definition resolveBin (env : gmap string string) : string :=
  let b := os_Getenv env "MANTLEKEEP_KERNEL_BIN" in
  if negb (b =s? "") then b else "../mantlekeep-kernel/target/release/mantlekeep-kernel".
Definition New exec bin : Kernel := NewWithRunner bin (osRun exec).
Definition Default exec env : Kernel := New exec (resolveBin env).
Definition Available (files : Files) (k : Kernel) : bool := bool_decide (is_Some (files !! bin k)).

Record ScanResult := mkScanResult {
  Ran : bool;
  Clean : bool;
  Findings : Z;
  Report : string;
  sc_Err : string;
}.

Definition Summary (r : ScanResult) : string :=
  if negb (Ran r) then "kernel scan error: " +:+ sc_Err r
  else if Clean r then "kernel scan: clean"
  else "kernel scan: " +:+ Itoa (Findings r) +:+ " finding(s)".

Definition newline : ascii := "010"%char.

Fixpoint findings_in (lines : list string) : Z :=
  match lines with
  | [] => 0
  | ln :: lines =>
      match CutPrefix (TrimSpace ln) "SOVEREIGN_SCAN_FINDINGS=" with
      | Some v => match Atoi (TrimSpace v) with Some n => n | None => findings_in lines end
      | None => findings_in lines
      end
  end.
Definition parseFindings (stdout : string) : Z := findings_in (SplitByte newline stdout).

(** [s[:i]] up to the first newline, if there is one. *)
Definition firstLine (b : string) : string := TrimSpace (hd "" (SplitByte newline b)).

Definition dataDir (env : gmap string string) : string :=
  let d := TrimSpace (os_Getenv env "MANTLEKEEP_DATA_DIR") in if negb (d =s? "") then d else "mantlekeep-data".

Section kernel.
Context (filepath_Clean : string → string).
(** [os.MkdirAll]: an error, or none. *)
Context (MkdirAll : string → option string).

(** *** internal/safeio: [EnsureConfigDir] *)

Definition EnsureConfigDir (path : string) : result string string :=
  clean <-? CleanConfigPath filepath_Clean path ;
  match MkdirAll clean with Some e => Err e | None => Ok clean end.

(** What the operating system answers while the input is written: the name of a new file, how
    much of a write that fails got through, an error on closing, and one on removing it, in which
    case the file stays. *)
Record TempFile := mkTempFile {
  tf_Create : string → string → result string string;
  tf_Write : option (nat * string);
  tf_Close : option string;
  tf_Remove : option string;
}.

(** [_ = os.Remove(f.Name())]: an error is dropped. *)
Definition removed (os : TempFile) (name : string) (files : Files) : Files :=
  match tf_Remove os with None => delete name files | Some _ => files end.

(** The result, and the files afterwards. The deferred removal is on every path from the
    creation on. *)
Definition Kernel_Scan (k : Kernel) env (os : TempFile) (modulePath input : string) (files : Files) : result string ScanResult * Files :=
  match EnsureConfigDir (filepath_Join filepath_Clean (dataDir env) "kernel-scan") with
  | Err e => (Err ("kernel: preparing the scan directory: " +:+ e), files)
  | Ok dir =>
      match tf_Create os dir "scan-in-*" with
      | Err e => (Err e, files)
      | Ok name =>
          match tf_Write os with
          | Some (n, e) => (Err e, removed os name (<[name := take_bytes n input]> files))
          | None =>
              let files := <[name := input]> files in
              match tf_Close os with
              | Some e => (Err e, removed os name files)
              | None =>
                  let '(stdout, stderr, exit) := run k (timeout k) (bin k) ["scan"; modulePath; name] files in
                  (Ok (if (exit =? 0)%Z then mkScanResult true true 0 stdout ""
                       else if (exit =? 1)%Z then mkScanResult true false (parseFindings stdout) stdout ""
                       else mkScanResult false false 0 "" (firstLine stderr)),
                   removed os name files)
              end
          end
      end
  end.

Definition Kernel_Verify (k : Kernel) (modulePath : string) (files : Files) : bool * string :=
  let '(stdout, stderr, _) := run k (timeout k) (bin k) ["verify"; modulePath] files in
  if Contains stdout "SOVEREIGN_VERIFY_PASS" then (true, "verified by the sovereign kernel")
  else let line := firstLine stdout in (false, if line =s? "" then firstLine stderr else line).

(** ** internal/tooltest *)

Inductive tool_error :=
| ScanError (e : string)
| RegistryError (e : registry_error).

Section registry.
Context `{codec : EntryCodec} {S : Type} `{KVStore S}.

Definition Run (k : Kernel) env os (s : S) (files : Files) (name version modulePath input : string) (now now' : Z) :
    result tool_error Version * S * Files :=
  let '(res, files) := Kernel_Scan k env os modulePath input files in
  match res with
  | Err e => (Err (ScanError e), s, files)
  | Ok res =>
      match RecordTest s name version now now' (Ran res) (Summary res) with
      | (s, Ok v) => (Ok v, s, files)
      | (s, Err e) => (Err (RegistryError e), s, files)
      end
  end.
End registry.

(** ** Lemmas *)

(** What a scan leaves: the files as they were, or the input file beside them, with as much of
    the input as was written, when removing it failed. *)
Definition left_by_scan (os : TempFile) (input : string) (files files1 : Files) : Prop :=
  files1 = files ∨
  tf_Remove os ≠ None ∧ ∃ dir tmp n, tf_Create os dir "scan-in-*" = Ok tmp ∧ files1 = <[tmp := take_bytes n input]> files.

Lemma take_bytes_all s : take_bytes (slen s) s = s.
Proof. induction s as [|c s IH]; [done|]. cbn. f_equal. exact IH. Qed.

Lemma removed_left os dir name n input files :
  files !! name = None → tf_Create os dir "scan-in-*" = Ok name →
  left_by_scan os input files (removed os name (<[name := take_bytes n input]> files)).
Proof.
  intros Hfresh Hc. unfold left_by_scan, removed. destruct (tf_Remove os) eqn:E; [|left; by rewrite delete_insert_id].
  right. split; [done|]. by exists dir, name, n.
Qed.

Lemma scan_leaves k env os modulePath input files :
  (∀ dir name, tf_Create os dir "scan-in-*" = Ok name → files !! name = None) →
  left_by_scan os input files (Kernel_Scan k env os modulePath input files).2.
Proof.
  intros Hfresh. unfold Kernel_Scan. destruct (EnsureConfigDir _) as [dir|]; [|by left]. destruct (tf_Create os dir _) as [name|] eqn:E; [|by left].
  specialize (Hfresh _ _ E). pose proof (λ n, removed_left os dir name n input files Hfresh E) as Hleft.
  destruct (tf_Write os) as [[n e]|]; [apply Hleft|]. specialize (Hleft (slen input)). rewrite take_bytes_all in Hleft.
  destruct (tf_Close os); [exact Hleft|]. cbv zeta. by destruct (run _ _ _ _ _) as [[stdout stderr] exit].
Qed.

(** ** Numbers in a report *)

Lemma Atoi_digits s :
  s ≠ "" → all_chars is_digit s = true → (- 2 ^ 63 ≤ digits_value 0 s < 2 ^ 63)%Z → Atoi s = Some (digits_value 0 s).
Proof.
  intros Hne Hd Hv. destruct s as [|c s]; [done|]. pose proof Hd as Hc. cbn [all_chars] in Hc. apply andb_true_iff in Hc as [Hc _].
  assert (Atoi (String c s) = if (String c s =s? "") || negb (all_chars is_digit (String c s)) then None
    else let v := digits_value 0 (String c s) in if (- 2 ^ 63 <=? v)%Z && (v <? 2 ^ 63)%Z then Some v else None) as ->
    by (destruct c as [[] [] [] [] [] [] [] []]; first [reflexivity|discriminate Hc]).
  rewrite Hd. cbn [negb orb]. rewrite (proj2 (eqs_false _ _) Hne). cbn [orb].
  by rewrite (proj2 (Z.leb_le _ _)), (proj2 (Z.ltb_lt _ _)) by lia.
Qed.

Lemma Atoi_Itoa n : (0 ≤ n < 2 ^ 63)%Z → Atoi (Itoa n) = Some n.
Proof. intros Hn. destruct (digits_Itoa n) as (Hd & Hv & Hne); [lia|]. rewrite Atoi_digits; [by rewrite Hv|done..|lia]. Qed.

Lemma digits_edged s : s ≠ "" → all_chars is_digit s = true → edged s = true.
Proof.
  assert (∀ s, s ≠ "" → all_chars is_digit s = true → starts_graphic s = true) as Hstart.
  { intros [|c t] Hne Hd; [done|]. cbn [all_chars] in Hd. apply andb_true_iff in Hd as [Hd _]. unfold is_digit in Hd. cbn [starts_graphic]. unfold graphic.
    apply andb_true_iff in Hd as [H1 H2]. apply N.leb_le in H1, H2. cbv zeta. apply andb_true_iff. split; apply N.leb_le; lia. }
  intros Hne Hd. unfold edged. rewrite Hstart by done. apply Hstart; [|unfold srev; by rewrite all_chars_rev_onto, Hd].
  intros E. apply Hne. by rewrite <- (srev_involutive s), E.
Qed.

Lemma digits_no_newline s : all_chars is_digit s = true → char_in newline s = false.
Proof.
  induction s as [|c s IH]; [done|]. cbn [all_chars char_in]. intros [Hc Hs]%andb_true_iff. rewrite (IH Hs), bool_decide_false; [done|].
  intros <-. by vm_compute in Hc.
Qed.

(** The number the kernel reports is the one it printed, on the first line that has one. *)
Lemma parse_report before n after :
  Forall (λ ln, char_in newline ln = false ∧ CutPrefix (TrimSpace ln) "SOVEREIGN_SCAN_FINDINGS=" = None) before →
  (0 ≤ n < 2 ^ 63)%Z →
  findings_in (before ++ ("SOVEREIGN_SCAN_FINDINGS=" +:+ Itoa n) :: after) = n.
Proof.
  intros Hb Hn. destruct (digits_Itoa n) as (Hd & _ & Hne); [lia|]. pose proof (digits_edged _ Hne Hd) as He.
  induction Hb as [|ln before [_ Hln] _ IH]; cbn [app findings_in].
  - rewrite (TrimSpace_edged (_ +:+ Itoa n)).
    + unfold CutPrefix. rewrite (proj2 (HasPrefix_spec _ _)) by eauto.
      rewrite (drop_bytes_app "SOVEREIGN_SCAN_FINDINGS=" (Itoa n)). by rewrite (TrimSpace_edged _ He), Atoi_Itoa.
    + apply andb_true_iff in He as [_ He]. apply andb_true_iff. split; [done|]. rewrite srev_app. by apply starts_graphic_app.
  - by rewrite Hln.
Qed.

(** What a scan that was set up says: whether the tool ran, in text if the kernel's error is. *)
Lemma scan_Ok k env os modulePath input files res files1 :
  Kernel_Scan k env os modulePath input files = (Ok res, files1) → ∃ tmp,
    let out := run k (timeout k) (bin k) ["scan"; modulePath; tmp] (<[tmp := input]> files) in
    Ran res = (out.2 =? 0)%Z || (out.2 =? 1)%Z ∧ (ValidString (firstLine out.1.2) = true → ValidString (Summary res) = true).
Proof.
  unfold Kernel_Scan. destruct (EnsureConfigDir _); [|done]. destruct (tf_Create _ _ _) as [tmp|]; [|done]. destruct (tf_Write os) as [[]|]; [done|].
  cbv zeta. destruct (tf_Close os); [done|]. destruct (run _ _ _ _ _) as [[stdout stderr] exit] eqn:E. intros [= <- _]. exists tmp. rewrite E. cbn [fst snd].
  destruct (exit =? 0)%Z eqn:E0; [by split|]. destruct (exit =? 1)%Z eqn:E1; (split; [done|]); unfold Summary; cbn [Ran Clean negb Findings sc_Err].
  - intros _. rewrite (ValidString_ascii "kernel scan: ") by done. by rewrite ValidString_ascii by apply Itoa_ascii.
  - intros Hv. by rewrite (ValidString_ascii "kernel scan error: ").
Qed.

Lemma tested_text now now' passed ref v :
  version_text v → ValidString ref = true → version_text (with_UpdatedAt now' (with_Test passed now ref v)).
Proof.
  intros [H1 H2] Hr. split; [|exact H2]. revert H1. rewrite !Forall_cons. cbn. tauto.
Qed.

(** *** The registry after a test *)

Section registry.
Context `{codec : EntryCodec} {S : Type} `{KVStore S}.
Implicit Type s : S.

Lemma get_after_save s e s1 :
  reachable s = true → entry_text e → save s e = (s1, Ok tt) → get s1 (en_Name e) = Ok (Some (compacted Compact e)) ∧ reachable s1 = true.
Proof.
  intros Hr Ht. unfold save. destruct (Marshal e) as [raw|] eqn:Em; [|done].
  destruct (Store_Put s (entry_key (en_Name e)) raw) as [s' [[]|]] eqn:Ep; [|done]. intros [= <-].
  assert (reachable s' = true) as Hr' by (rewrite <- Hr, <- (Put_reachable s (entry_key (en_Name e)) raw); by rewrite Ep).
  split; [|done]. unfold get. rewrite (Get_reachable s' _ raw); [by rewrite (Unmarshal_Marshal e)|done| |by eapply Marshal_nonempty].
  apply Put_Ok in Ep as ->. apply lookup_insert_eq.
Qed.

(** [RecordTest] on a draft: the only failure is the codec's, and it writes nothing. *)
Lemma RecordTest_draft s name version now now' passed ref e idx v :
  reachable s = true → get s name = Ok (Some e) → list_find (λ v, v_Version v = version) (en_Versions e) = Some (idx, v) →
  v_Status v = StatusDraft →
  let v' := with_UpdatedAt now' (with_Test passed now ref v) in
  let e' := with_Versions (<[idx := v']> (en_Versions e)) e in
  (∃ s1, RecordTest s name version now now' passed ref = (s1, Ok v') ∧ save s e' = (s1, Ok tt)) ∨
  ∃ err, RecordTest s name version now now' passed ref = (s, Err err).
Proof.
  intros Hr Hg Hf Hd v' e'. unfold RecordTest, transition, transitioning. rewrite Hg. cbn [rbind]. rewrite Hf. unfold tested.
  rewrite Hd, eqs_refl. cbn [negb rbind]. unfold saving. fold v' e'. unfold save.
  destruct (Marshal e') as [raw|err]; [|right; by eexists].
  pose proof (Put_reachable_Ok s (entry_key (en_Name e')) raw Hr) as Hok. destruct (Store_Put _ _ _) as [s1 [[]|]]; [|done].
  left. by exists s1.
Qed.

(** Of a draft, [ProposePromote] looks at the test and at nothing else. *)
Lemma propose_draft r s name version now now' who e idx v :
  get s name = Ok (Some e) → list_find (λ v, v_Version v = version) (en_Versions e) = Some (idx, v) →
  v_Status v = StatusDraft → RequireTestBeforePromote (policy r) = true →
  (ProposePromote r s name version now now' who).2 = Err (MustPassTest name version) ↔ v_TestPassed v = false.
Proof.
  intros Hg Hf Hd Hp. unfold ProposePromote, transition, transitioning. rewrite Hg. cbn [rbind]. rewrite Hf. unfold proposed.
  rewrite Hd, eqs_refl, Hp. cbn [negb andb rbind]. destruct (v_TestPassed v); [|done]. cbn [negb]. split; [|done].
  destruct (RequiresApproval (policy r)); cbn [rbind saving]; unfold save; (destruct (Marshal _); [|done]); by destruct (Store_Put _ _ _) as [? [[]|]].
Qed.

Lemma find_compacted (vs : list Version) version idx v v' :
  list_find (λ v, v_Version v = version) vs = Some (idx, v) → v_Version v' = version →
  list_find (λ v, v_Version v = version) (map (compacted_version Compact) (<[idx := v']> vs)) = Some (idx, compacted_version Compact v').
Proof.
  intros (Hi & _ & Hbefore)%list_find_Some Hv'. apply list_find_Some.
  rewrite list_lookup_fmap, list_lookup_insert_eq by (by eapply lookup_lt_Some). split; [done|]. split; [done|].
  intros j w Hj Hlt. rewrite list_lookup_fmap, list_lookup_insert_ne in Hj by lia. apply fmap_Some in Hj as (w0 & Hw & ->).
  exact (Hbefore _ _ Hw Hlt).
Qed.

Lemma entry_text_insert e idx v' : entry_text e → version_text v' → entry_text (with_Versions (<[idx := v']> (en_Versions e)) e).
Proof. intros [H1 H2] Hv. split; [exact H1|]. by apply Forall_insert. Qed.

(** C19: A run in the sandbox is what opens the way to promotion. Whatever happens, the input
    file is the only one written, and it is gone afterwards unless removing it failed (which
    nothing reports). When the scan cannot be set up the registry is not written. Otherwise
    the draft records a pass exactly when the kernel exited with 0 or 1, which is to say that
    it ran the tool; from then on, where a version must be tested before it is promoted, a
    proposal is refused for want of a test exactly when that last run was not a pass, so that
    a failed run closes what an earlier one had opened. The temporary name is a new one, the
    registry's store can be reached and holds the tool with this version as a draft, and the
    strings of the entry and what the kernel prints on a failure are text, as the stored
    record is JSON. *)
Theorem sandbox_run_unlocks_promotion (k : Kernel) env os r s files name version modulePath input now now' e idx v :
  (∀ dir tmp, tf_Create os dir "scan-in-*" = Ok tmp → files !! tmp = None) →
  (∀ tmp files, ValidString (firstLine (run k (timeout k) (bin k) ["scan"; modulePath; tmp] files).1.2) = true) →
  reachable s = true → get s name = Ok (Some e) → en_Name e = name → entry_text e →
  list_find (λ v, v_Version v = version) (en_Versions e) = Some (idx, v) → v_Status v = StatusDraft →
  let '(res, s1, files1) := Run k env os s files name version modulePath input now now' in
  left_by_scan os input files files1 ∧
  match res with
  | Err _ => s1 = s
  | Ok v' => ∃ tmp exit,
      exit = (run k (timeout k) (bin k) ["scan"; modulePath; tmp] (<[tmp := input]> files)).2 ∧
      v_TestPassed v' = (exit =? 0)%Z || (exit =? 1)%Z ∧
      ∀ t t' who, RequireTestBeforePromote (policy r) = true →
        (ProposePromote r s1 name version t t' who).2 = Err (MustPassTest name version) ↔ v_TestPassed v' = false
  end.
Proof.
  intros Hfresh Htext Hr Hg Hname He Hf Hd. pose proof (scan_leaves k env os modulePath input files Hfresh) as Hleft.
  unfold Run. destruct (Kernel_Scan k env os modulePath input files) as [res files1] eqn:E. cbn [snd] in Hleft.
  destruct res as [res|err]; [|done].
  destruct (scan_Ok _ _ _ _ _ _ _ _ E) as (tmp & Hran & Hval). specialize (Htext tmp (<[tmp := input]> files)).
  destruct (RecordTest_draft s name version now now' (Ran res) (Summary res) e idx v Hr Hg Hf Hd) as [(s1 & -> & Hsave)|[err ->]]; [|done].
  split; [done|]. exists tmp, (run k (timeout k) (bin k) ["scan"; modulePath; tmp] (<[tmp := input]> files)).2. split; [done|]. split; [exact Hran|].
  intros t t' who Hp. pose proof Hf as Hf'. apply found_version_Some in Hf' as [Hi Hver].
  destruct (get_after_save s _ s1 Hr (entry_text_insert e idx _ He (tested_text _ _ _ _ _ (proj1 (Forall_lookup _ _) (proj2 He) _ _ Hi) (Hval Htext))) Hsave) as [Hg1 Hr1].
  cbn [en_Name with_Versions] in Hg1. rewrite Hname in Hg1.
  rewrite (propose_draft r s1 name version t t' who _ idx (compacted_version Compact (with_UpdatedAt now' (with_Test (Ran res) now (Summary res) v))) Hg1); try done.
  cbn [en_Versions compacted with_Versions]. by eapply find_compacted.
Qed.
End registry.
End kernel.

(** ** Examples *)

#[local] Existing Instance Registry.demo_codec.

(** A scanner that finds what the input contains, and a kernel that cannot load a module. *)
Definition demo_scanner : Runner := λ _ _ args files,
  match args with
  | ["scan"; _; tmp] =>
      match files !! tmp with
      | Some input => if Contains input "password" then ("scanned" +:+ String newline "SOVEREIGN_SCAN_FINDINGS=3", "", 1%Z) else ("SOVEREIGN_SCAN_CLEAN", "", 0%Z)
      | None => ("", "SOVEREIGN_SCAN_ERROR: no input", 2%Z)
      end
  | ["verify"; path] => ("SOVEREIGN_VERIFY_FAIL: cannot read " +:+ path, "", 2%Z)
  | _ => ("", "usage", 2%Z)
  end.
Definition demo_kernel : Kernel := NewWithRunner "k" demo_scanner.
Definition demo_os : TempFile := mkTempFile (λ dir _, Ok (dir +:+ "/scan-in-1")) None None None.
Definition demo_draft : Version := draft demo_prod 1 (demo_reg "sha256:aa").
Definition demo_entry : Registry_Entry := mkEntry "scan" "tool" "Scanner" "alice" [demo_draft].
Definition demo_registry : Mem := (save NewMem demo_entry).1.

(** The two scans as the tests of the package have them. *)
Example scans_as_documented :
  (λ input, match (Kernel_Scan id (λ _, None) demo_kernel ∅ demo_os "m.wasm" input ∅).1 with Ok res => Summary res | Err e => e end) <$>
    ["the password is"; "nothing here"] = ["kernel scan: 3 finding(s)"; "kernel scan: clean"].
Proof. by vm_compute. Qed.

(** A file that cannot be removed stays, and the scan says nothing of it. *)
Example an_input_left_behind :
  Kernel_Scan id (λ _, None) demo_kernel ∅ (mkTempFile (λ dir _, Ok (dir +:+ "/scan-in-1")) None None (Some "busy")) "m.wasm" "nothing here" ∅ =
    (Ok (mkScanResult true true 0 "SOVEREIGN_SCAN_CLEAN" ""), {["mantlekeep-data/kernel-scan/scan-in-1" := "nothing here"]}).
Proof. by vm_compute. Qed.

(** The exit code of a verification is not looked at, and the mark of a pass is looked for
    anywhere in what was printed: a failure that repeats the path of its module passes. *)
Example a_failure_that_names_its_file_verifies :
  Kernel_Verify demo_kernel "up/SOVEREIGN_VERIFY_PASS.wasm" ∅ = (true, "verified by the sovereign kernel") ∧
  (run demo_kernel 0%Z "k" ["verify"; "up/SOVEREIGN_VERIFY_PASS.wasm"] ∅).2 = 2%Z.
Proof. by vm_compute. Qed.

Lemma demo_registry_read : get demo_registry "scan" = Ok (Some demo_entry).
Proof. by vm_compute. Qed.

Lemma demo_scanner_text tmp files :
  ValidString (firstLine (demo_scanner 0%Z "k" ["scan"; "m.wasm"; tmp] files).1.2) = true.
Proof. cbn. destruct (files !! tmp); [by destruct (Contains _ _)|by vm_compute]. Qed.

Lemma demo_entry_text : entry_text demo_entry.
Proof. split; [by repeat constructor|]. apply Forall_singleton. split; [by repeat constructor|]. apply map_Forall_empty. Qed.

Definition demo_tested : result tool_error Version * Mem * Files :=
  Run id (λ _, None) demo_kernel ∅ demo_os demo_registry ∅ "scan" "1.0.0" "m.wasm" "the password is" 2 3.
Definition demo_outcome : bool * string :=
  match demo_tested.1.1 with Ok v => (v_TestPassed v, v_TestRef v) | Err _ => (false, "") end.

Lemma sandbox_run_unlocks_promotion_witness :
  v_TestPassed demo_draft = false ∧ demo_outcome = (true, "kernel scan: 3 finding(s)") ∧
  ∀ t t' who, (ProposePromote demo_prod demo_tested.1.2 "scan" "1.0.0" t t' who).2 ≠ Err (MustPassTest "scan" "1.0.0").
Proof.
  split; [done|]. assert (demo_outcome = (true, "kernel scan: 3 finding(s)")) as Hout by by vm_compute. split; [exact Hout|].
  pose proof (sandbox_run_unlocks_promotion id (λ _, None) demo_kernel ∅ demo_os demo_prod demo_registry ∅ "scan" "1.0.0" "m.wasm" "the password is" 2 3
    demo_entry 0 demo_draft ltac:(intros; apply lookup_empty) demo_scanner_text eq_refl demo_registry_read eq_refl demo_entry_text eq_refl eq_refl) as Hrun.
  fold demo_tested in Hrun. unfold demo_outcome in Hout. revert Hrun Hout. destruct demo_tested as [[[v|err] s1] files1]; cbn [fst snd]; [|done].
  intros [_ (tmp & exit & _ & _ & Hp)] Hout t t' who. rewrite (Hp t t' who eq_refl). injection Hout as -> _. done.
Defined.
