(* ===== verification/Kafka.v ===== *)
(** The Kafka adapter: [mantlekeep-kafka] (grant.go, boundary.go, plan.go, admin.go,
    adapter.go, artifact.go) and the part of its client binding that decides what is
    written, [mantlekeep-kafka/franz/aclgroup.go], [acls.go] and [errors.go].

    Onboarding gives a team a namespace: a quota and prefixed permissions. Provisioning
    creates one topic inside it and grants nothing. The cluster is a state the admin
    interface is called on; what a cluster answers is a class of laws ([KafkaCluster]), and what
    a permission permits is the broker's documented rule ([permits]).

    The enumerations are those of the Kafka protocol. Rates and retentions are int64, a
    quota on the wire a double. *)
From S2P Require Import Prelude Contracts Floors.
From Stdlib Require Import SpecFloat.

(** ** The protocol's enumerations *)

Inductive ACLOperation :=
| OpUnknown | OpAny | OpAll | OpRead | OpWrite | OpCreate | OpDelete | OpAlter | OpDescribe
| OpClusterAction | OpDescribeConfigs | OpAlterConfigs | OpIdempotentWrite | OpCreateTokens | OpDescribeTokens.
Inductive ACLResourceType :=
| RtUnknown | RtAny | RtTopic | RtGroup | RtCluster | RtTransactionalId | RtDelegationToken | RtUser.
Inductive ACLResourcePatternType := PtUnknown | PtAny | PtMatch | PtLiteral | PtPrefixed.
Inductive ACLPermissionType := PermUnknown | PermAny | PermDeny | PermAllow.

#[export] Instance ACLOperation_eq_dec : EqDecision ACLOperation.
Proof. solve_decision. Defined.
#[export] Instance ACLResourceType_eq_dec : EqDecision ACLResourceType.
Proof. solve_decision. Defined.
#[export] Instance ACLResourcePatternType_eq_dec : EqDecision ACLResourcePatternType.
Proof. solve_decision. Defined.
#[export] Instance ACLPermissionType_eq_dec : EqDecision ACLPermissionType.
Proof. solve_decision. Defined.

(** ** Records *)

Notation Principal := string (only parsing).

Record Quota := mkQuota {
  q_ProducerByteRate : Z;
  q_ConsumerByteRate : Z;
}.

Record Boundary := mkBoundary {
  b_Principal : Principal;
  b_Prefix : string;
  b_Quota : Quota;
}.

(** Named [Grant] in the source. *)
Record TopicGrant := mkTopicGrant {
  g_Principal : Principal;
  g_Prefix : string;
  g_Topic : string;
  g_Partitions : Z;
  g_ReplicationFactor : Z;
  g_RetentionMillis : Z;
}.

Record ACLBinding := mkACLBinding {
  acl_Principal : Principal;
  acl_Host : string;
  acl_ResourceType : ACLResourceType;
  acl_ResourceName : string;
  acl_Pattern : ACLResourcePatternType;
  acl_Operation : ACLOperation;
  acl_Permission : ACLPermissionType;
}.

#[export] Instance ACLBinding_eq_dec : EqDecision ACLBinding.
Proof. solve_decision. Defined.

Record QuotaValue := mkQuotaValue { qv_Key : string; qv_Value : spec_float }.
Record QuotaAlteration := mkQuotaAlteration {
  qa_EntityType : string;
  qa_EntityName : string;
  qa_Values : list QuotaValue;
}.
Record TopicSpec := mkTopicSpec {
  ts_Name : string;
  ts_Partitions : Z;
  ts_ReplicationFactor : Z;
  ts_Configs : gmap string string;
}.

Record BoundaryArtifact := mkBoundaryArtifact {
  ba_IntentID : string;
  ba_PolicyID : string;
  ba_Principal : Principal;
  ba_Prefix : string;
  ba_ACLs : list ACLBinding;
  ba_Quota : list QuotaValue;
  ba_ObservedAt : Time;
}.
Record TopicArtifact := mkTopicArtifact {
  ta_IntentID : string;
  ta_PolicyID : string;
  ta_Topic : string;
  ta_Config : gmap string string;
  ta_AlreadyExisted : bool;
  ta_ObservedAt : Time;
}.

(** The first group wraps [ErrInvalidGrant], then [ErrOutsideBoundary], [ErrNotApproved], and
    what the broker answered. *)
Inductive grant_error :=
| EPrincipal (p : Principal)
| EQuota (producer consumer : Z)
| EPrefixEmpty
| EPrefixWildcard (prefix : string)
| ENameEmpty (kind : string)
| ENameReserved (kind name : string)
| ENameTooLong (kind name : string)
| EBadCharacter (kind value : string)
| ERetention (millis : Z)
| EOutsideBoundary (topic prefix : string)
| ENotApproved (intent : string)
| EBroker (doing : string) (e : string).

(** ** grant.go and boundary.go *)

(** [strings.Cut] at a byte. *)
Fixpoint CutByte (sep : ascii) (s : string) : option (string * string) :=
  match s with
  | EmptyString => None
  | String c s =>
      if bool_decide (c = sep) then Some ("", s)
      else '(a, b) ← CutByte sep s; Some (String c a, b)
  end.

Definition Principal_split (p : Principal) : option (string * string) :=
  match CutByte ":" p with
  | Some (typ, name) => if (typ =s? "") || (name =s? "") then None else Some (typ, name)
  | None => None
  end.
Definition Principal_Type (p : Principal) : string := default "" (fst <$> Principal_split p).
Definition Principal_Name (p : Principal) : string := default "" (snd <$> Principal_split p).
Definition Principal_Validate (p : Principal) : result grant_error unit :=
  match Principal_split p with Some _ => Ok tt | None => Err (EPrincipal p) end.

Definition Quota_Validate (q : Quota) : result grant_error unit :=
  refuse (q_ProducerByteRate q <=? 0)%Z || (q_ConsumerByteRate q <=? 0)%Z
    with EQuota (q_ProducerByteRate q) (q_ConsumerByteRate q) ;
  Ok tt.

Definition covers (prefix name : string) : bool :=
  if prefix =s? "" then false else HasPrefix name prefix.

(** A byte above 127 belongs to a rune the switch refuses. *)
Definition name_char (c : ascii) : bool :=
  let n := N_of_ascii c in
  ((97 <=? n) && (n <=? 122) || (65 <=? n) && (n <=? 90) || (48 <=? n) && (n <=? 57))%N ||
  char_in c "._-".
Fixpoint name_chars (s : string) : bool :=
  match s with
  | EmptyString => true
  | String c s => name_char c && name_chars s
  end.
Definition validateNameCharacters (value kind : string) : result grant_error unit :=
  if name_chars value then Ok tt else Err (EBadCharacter kind value).

Definition maxResourceNameLength : nat := 249.

Definition validatePrefix (prefix : string) : result grant_error unit :=
  refuse prefix =s? "" with EPrefixEmpty ;
  refuse (prefix =s? "*") || Contains prefix "*" with EPrefixWildcard prefix ;
  validateNameCharacters prefix "prefix".

Definition validateResourceName (name kind : string) : result grant_error unit :=
  refuse name =s? "" with ENameEmpty kind ;
  refuse (name =s? ".") || (name =s? "..") with ENameReserved kind name ;
  refuse (maxResourceNameLength <? slen name)%nat with ENameTooLong kind name ;
  validateNameCharacters name kind.

Definition Boundary_Validate (b : Boundary) : result grant_error unit :=
  _ <-? Principal_Validate (b_Principal b) ;
  _ <-? validatePrefix (b_Prefix b) ;
  Quota_Validate (b_Quota b).

Definition Grant_Validate (g : TopicGrant) : result grant_error unit :=
  _ <-? Principal_Validate (g_Principal g) ;
  _ <-? validatePrefix (g_Prefix g) ;
  _ <-? validateResourceName (g_Topic g) "topic" ;
  refuse (g_RetentionMillis g <? 0)%Z with ERetention (g_RetentionMillis g) ;
  refuse negb (covers (g_Prefix g) (g_Topic g)) with EOutsideBoundary (g_Topic g) (g_Prefix g) ;
  Ok tt.

(** ** plan.go *)

Definition TopicOperations : list ACLOperation := [OpRead; OpWrite; OpDescribe].
Definition GroupOperations : list ACLOperation := [OpRead].
Definition QuotaEntityTypeUser : string := "user".
Definition ProducerByteRateKey : string := "producer_byte_rate".
Definition ConsumerByteRateKey : string := "consumer_byte_rate".
Definition RetentionMillisConfig : string := "retention.ms".
Definition anyHost : string := "*".

Definition prefixedAllow (b : Boundary) (resourceType : ACLResourceType) (operation : ACLOperation) : ACLBinding :=
  mkACLBinding (b_Principal b) anyHost resourceType (b_Prefix b) PtPrefixed operation PermAllow.

Definition PlanBoundaryACLs (b : Boundary) : result grant_error (list ACLBinding) :=
  _ <-? Boundary_Validate b ;
  Ok (map (prefixedAllow b RtTopic) TopicOperations ++ map (prefixedAllow b RtGroup) GroupOperations).

Definition PlanQuota (b : Boundary) : result grant_error QuotaAlteration :=
  _ <-? Boundary_Validate b ;
  Ok (mkQuotaAlteration QuotaEntityTypeUser (Principal_Name (b_Principal b))
        [mkQuotaValue ProducerByteRateKey (float_of (q_ProducerByteRate (b_Quota b)));
         mkQuotaValue ConsumerByteRateKey (float_of (q_ConsumerByteRate (b_Quota b)))]).

Definition PlanTopic (g : TopicGrant) : result grant_error TopicSpec :=
  _ <-? Grant_Validate g ;
  Ok (mkTopicSpec (g_Topic g) (g_Partitions g) (g_ReplicationFactor g)
        (if (0 <? g_RetentionMillis g)%Z
         then {[RetentionMillisConfig := Itoa (g_RetentionMillis g)]} else ∅)).

(** ** admin.go: the interface the adapter is written against *)

Inductive topic_error := ErrTopicExists | TopicError (e : string).

Record Admin (W : Type) := mkAdmin {
  CreateACLs : list ACLBinding → W → option string * W;
  DescribeACLs : Principal → string → ACLResourcePatternType → W → result string (list ACLBinding) * W;
  AlterClientQuota : QuotaAlteration → W → option string * W;
  DescribeClientQuota : string → string → W → result string (list QuotaValue) * W;
  CreateTopic : TopicSpec → W → option topic_error * W;
  DescribeTopicConfig : string → W → result string (gmap string string) * W;
}.
Arguments mkAdmin {W}.
Arguments CreateACLs {W}.
Arguments DescribeACLs {W}.
Arguments AlterClientQuota {W}.
Arguments DescribeClientQuota {W}.
Arguments CreateTopic {W}.
Arguments DescribeTopicConfig {W}.

(** ** adapter.go and artifact.go *)

Definition checkToken (token : ExecutionToken) (now : Time) : result grant_error unit :=
  refuse tok_IntentID token =s? "" with ENotApproved "" ;
  refuse negb (ExecutionToken_Valid token now) with ENotApproved (tok_IntentID token) ;
  Ok tt.

Section adapter.
Context {W : Type} (admin : Admin W).

Definition readBoundary (token : ExecutionToken) (b : Boundary) (now' : Time) (w : W) :
    result grant_error BoundaryArtifact * W :=
  match DescribeACLs admin (b_Principal b) (b_Prefix b) PtPrefixed w with
  | (Err e, w) => (Err (EBroker "read back acls" e), w)
  | (Ok acls, w) =>
      match DescribeClientQuota admin QuotaEntityTypeUser (Principal_Name (b_Principal b)) w with
      | (Err e, w) => (Err (EBroker "read back quota" e), w)
      | (Ok quota, w) =>
          (Ok (mkBoundaryArtifact (tok_IntentID token) (tok_PolicyID token) (b_Principal b) (b_Prefix b)
                 acls quota now'), w)
      end
  end.

(** The clock is read at the check ([now]) and at the read-back ([now']). *)
Definition OnboardTeam (token : ExecutionToken) (b : Boundary) (now now' : Time) (w : W) :
    result grant_error BoundaryArtifact * W :=
  match (_ <-? checkToken token now ;
         bindings <-? PlanBoundaryACLs b ;
         alteration <-? PlanQuota b ;
         Ok (bindings, alteration)) with
  | Err e => (Err e, w)
  | Ok (bindings, alteration) =>
      match AlterClientQuota admin alteration w with
      | (Some e, w) => (Err (EBroker "set quota" e), w)
      | (None, w) =>
          match CreateACLs admin bindings w with
          | (Some e, w) => (Err (EBroker "create acls" e), w)
          | (None, w) => readBoundary token b now' w
          end
      end
  end.

Definition Provision (token : ExecutionToken) (g : TopicGrant) (now now' : Time) (w : W) :
    result grant_error TopicArtifact * W :=
  match (_ <-? checkToken token now ; PlanTopic g) with
  | Err e => (Err e, w)
  | Ok spec =>
      match CreateTopic admin spec w with
      | (Some (TopicError e), w) => (Err (EBroker "create topic" e), w)
      | (created, w) =>
          match DescribeTopicConfig admin (g_Topic g) w with
          | (Err e, w) => (Err (EBroker "read back topic" e), w)
          | (Ok config, w) =>
              (Ok (mkTopicArtifact (tok_IntentID token) (tok_PolicyID token) (g_Topic g) config
                     (bool_decide (is_Some created)) now'), w)
          end
      end
  end.
End adapter.

Definition GrantsCreate (a : BoundaryArtifact) : bool :=
  existsb (λ binding,
    bool_decide (acl_Permission binding = PermAllow) &&
    (bool_decide (acl_Operation binding = OpCreate) || bool_decide (acl_Operation binding = OpAll)))
    (ba_ACLs a).

Definition RetentionMillis (a : TopicArtifact) : option string := ta_Config a !! RetentionMillisConfig.

(** ** franz: from bindings to requests *)

Record aclGroupKey := mkAclGroupKey {
  gk_principal : Principal;
  gk_host : string;
  gk_resource : ACLResourceType;
  gk_pattern : ACLResourcePatternType;
  gk_permission : ACLPermissionType;
}.
#[export] Instance aclGroupKey_eq_dec : EqDecision aclGroupKey.
Proof. solve_decision. Defined.

Record aclGroup := mkAclGroup {
  gr_key : aclGroupKey;
  gr_names : list string;
  gr_operations : list ACLOperation;
}.

Definition key_of_binding (b : ACLBinding) : aclGroupKey :=
  mkAclGroupKey (acl_Principal b) (acl_Host b) (acl_ResourceType b) (acl_Pattern b) (acl_Permission b).

Definition addName (g : aclGroup) (name : string) : aclGroup :=
  if slice_contains (gr_names g) name then g
  else mkAclGroup (gr_key g) (gr_names g ++ [name]) (gr_operations g).
Definition addOperation (g : aclGroup) (operation : ACLOperation) : aclGroup :=
  if bool_decide (operation ∈ gr_operations g) then g
  else mkAclGroup (gr_key g) (gr_names g) (gr_operations g ++ [operation]).

Definition add_binding (b : ACLBinding) (g : aclGroup) : aclGroup :=
  addOperation (addName g (acl_ResourceName b)) (acl_Operation b).

(** The group of the binding's key, updated in place, or a new one at the end. *)
Fixpoint place (b : ACLBinding) (ordered : list aclGroup) : list aclGroup :=
  match ordered with
  | [] => [add_binding b (mkAclGroup (key_of_binding b) [] [])]
  | g :: ordered =>
      if decide (gr_key g = key_of_binding b) then add_binding b g :: ordered
      else g :: place b ordered
  end.
Definition groupBindings (bindings : list ACLBinding) : list aclGroup :=
  foldl (λ ordered b, place b ordered) [] bindings.

(** What is handed to [kadm]: the calls on its builder. *)
Record ACLBuilder := mkACLBuilder {
  bl_Pattern : ACLResourcePatternType;
  bl_Operations : list ACLOperation;
  bl_Allow : Principal;
  bl_AllowHosts : string;
  bl_Topics : list string;
  bl_Groups : list string;
}.

Inductive franz_error :=
| ENotAllow (p : ACLPermissionType)
| EPattern (p : ACLResourcePatternType)
| EResourceType (t : ACLResourceType)
| EClient (e : string)
| ECreateACL (e : string).

Definition builder (g : aclGroup) : result franz_error ACLBuilder :=
  let k := gr_key g in
  refuse negb (bool_decide (gk_permission k = PermAllow)) with ENotAllow (gk_permission k) ;
  refuse negb (bool_decide (gk_pattern k = PtPrefixed)) && negb (bool_decide (gk_pattern k = PtLiteral))
    with EPattern (gk_pattern k) ;
  match gk_resource k with
  | RtTopic => Ok (mkACLBuilder (gk_pattern k) (gr_operations g) (gk_principal k) (gk_host k) (gr_names g) [])
  | RtGroup => Ok (mkACLBuilder (gk_pattern k) (gr_operations g) (gk_principal k) (gk_host k) [] (gr_names g))
  | t => Err (EResourceType t)
  end.

(** The first result that carries an error. *)
Fixpoint first_failure (results : list (option string)) : option string :=
  match results with
  | [] => None
  | Some e :: _ => Some e
  | None :: results => first_failure results
  end.

Section franz.
Context {W : Type} (client_CreateACLs : ACLBuilder → W → result string (list (option string)) * W).

Fixpoint create_groups (groups : list aclGroup) (w : W) : option franz_error * W :=
  match groups with
  | [] => (None, w)
  | g :: groups =>
      match builder g with
      | Err e => (Some e, w)
      | Ok b =>
          match client_CreateACLs b w with
          | (Err e, w) => (Some (EClient e), w)
          | (Ok results, w) =>
              match first_failure results with
              | Some e => (Some (ECreateACL e), w)
              | None => create_groups groups w
              end
          end
      end
  end.
Definition franz_CreateACLs (bindings : list ACLBinding) (w : W) : option franz_error * W :=
  create_groups (groupBindings bindings) w.
End franz.

(** What describing answers: per filter, an error or the bindings that match it. *)
Fixpoint described (results : list (option string * list ACLBinding)) : result string (list ACLBinding) :=
  match results with
  | [] => Ok []
  | (Some e, _) :: _ => Err e
  | (None, found) :: results => rest <-? described results ; Ok (found ++ rest)
  end.

(** [errors.Is(err, kerr.TopicAlreadyExists)] is an argument. *)
Definition mapCreateTopicError (already : string → bool) (err : option string) : option topic_error :=
  match err with
  | None => None
  | Some e => if already e then Some ErrTopicExists else Some (TopicError e)
  end.

(** ** What a permission permits *)

(** The broker's rule: an operation implies itself, ALL implies every one, and the four that
    use a resource imply DESCRIBE. *)
Definition implies_op (granted asked : ACLOperation) : Prop :=
  granted = asked ∨ granted = OpAll ∨
  (asked = OpDescribe ∧ granted ∈ [OpRead; OpWrite; OpDelete; OpAlter]).

(** A prefixed binding covers the names with its prefix, a literal one its name or, as
    [*], every name. *)
Definition permits (b : ACLBinding) (principal : Principal) (t : ACLResourceType) (name : string) (op : ACLOperation) : Prop :=
  acl_Permission b = PermAllow ∧ (acl_Principal b = principal ∨ acl_Principal b = "User:*") ∧
  acl_ResourceType b = t ∧ implies_op (acl_Operation b) op ∧
  ((acl_Pattern b = PtPrefixed ∧ HasPrefix name (acl_ResourceName b) = true) ∨
   (acl_Pattern b = PtLiteral ∧ (acl_ResourceName b = name ∨ acl_ResourceName b = "*"))).

(** ** What a cluster behind the admin interface promises *)

(** Of two bindings that differ in their names and operations only, the one with the name
    of the first and the operation of the second is there too. *)
Definition rectangular (bs : list ACLBinding) : Prop :=
  ∀ x y z, x ∈ bs → y ∈ bs → key_of_binding x = key_of_binding y → key_of_binding z = key_of_binding x →
    acl_ResourceName z = acl_ResourceName x → acl_Operation z = acl_Operation y → z ∈ bs.

(** What a boundary's read-back covers. *)
Definition at_prefix (p : Principal) (n : string) (b : ACLBinding) : Prop :=
  acl_Principal b = p ∧ acl_ResourceName b = n ∧ acl_Pattern b = PtPrefixed ∧
  (acl_ResourceType b = RtTopic ∨ acl_ResourceType b = RtGroup).
#[export] Instance at_prefix_dec p n b : base.Decision (at_prefix p n b).
Proof. unfold at_prefix. apply _. Defined.

(** A key's values after an alteration: the others stay. *)
Definition set_values (values : list QuotaValue) (m : gmap string spec_float) : gmap string spec_float :=
  foldl (λ m v, <[qv_Key v := qv_Value v]> m) m values.

(** Creating bindings adds those asked for, all of them when it succeeds, and no other if
    they are rectangular; describing answers the bindings on topics and groups that are held
    for the principal at exactly that prefix; setting a quota sets the values it names when
    it succeeds; no call touches what another one manages, and an existing topic is left as
    it is. *)
Class KafkaCluster {W : Type} (admin : Admin W) := {
  held : W → list ACLBinding;
  quota : W → string → string → gmap string spec_float;
  topics : W → gmap string TopicSpec;
  CreateACLs_only bs w b : rectangular bs → b ∈ held (CreateACLs admin bs w).2 → b ∈ held w ∨ b ∈ bs;
  CreateACLs_keeps bs w b : b ∈ held w → b ∈ held (CreateACLs admin bs w).2;
  CreateACLs_Ok bs w b : (CreateACLs admin bs w).1 = None → b ∈ bs → b ∈ held (CreateACLs admin bs w).2;
  CreateACLs_frame bs w : quota (CreateACLs admin bs w).2 = quota w ∧ topics (CreateACLs admin bs w).2 = topics w;
  AlterClientQuota_Ok a w : (AlterClientQuota admin a w).1 = None →
    quota (AlterClientQuota admin a w).2 (qa_EntityType a) (qa_EntityName a) =
      set_values (qa_Values a) (quota w (qa_EntityType a) (qa_EntityName a));
  AlterClientQuota_frame a w :
    held (AlterClientQuota admin a w).2 = held w ∧ topics (AlterClientQuota admin a w).2 = topics w;
  DescribeACLs_Ok p n w l : (DescribeACLs admin p n PtPrefixed w).1 = Ok l →
    ∀ b, b ∈ l ↔ b ∈ held w ∧ at_prefix p n b;
  DescribeACLs_frame p n t w : let w' := (DescribeACLs admin p n t w).2 in
    held w' = held w ∧ quota w' = quota w ∧ topics w' = topics w;
  DescribeClientQuota_Ok ty n w l : (DescribeClientQuota admin ty n w).1 = Ok l →
    ∀ k v, mkQuotaValue k v ∈ l ↔ quota w ty n !! k = Some v;
  DescribeClientQuota_frame ty n w : let w' := (DescribeClientQuota admin ty n w).2 in
    held w' = held w ∧ quota w' = quota w ∧ topics w' = topics w;
  CreateTopic_only spec w n ts : topics (CreateTopic admin spec w).2 !! n = Some ts →
    topics w !! n = Some ts ∨ (n = ts_Name spec ∧ ts = spec ∧ topics w !! n = None);
  CreateTopic_keeps spec w n ts : topics w !! n = Some ts → topics (CreateTopic admin spec w).2 !! n = Some ts;
  CreateTopic_Ok spec w : (CreateTopic admin spec w).1 = None → topics (CreateTopic admin spec w).2 !! ts_Name spec = Some spec;
  CreateTopic_exists spec w : (CreateTopic admin spec w).1 = Some ErrTopicExists → is_Some (topics w !! ts_Name spec);
  CreateTopic_frame spec w : let w' := (CreateTopic admin spec w).2 in held w' = held w ∧ quota w' = quota w;
  DescribeTopicConfig_frame n w : let w' := (DescribeTopicConfig admin n w).2 in
    held w' = held w ∧ quota w' = quota w ∧ topics w' = topics w;
}.

(** ** Lemmas *)

Lemma checkToken_Ok token now :
  checkToken token now = Ok tt ↔ tok_IntentID token ≠ "" ∧ ExecutionToken_Valid token now = true.
Proof.
  unfold checkToken. destruct (tok_IntentID token =s? "") eqn:He; autorewrite with mk in He.
  - rewrite He. split; [done|by intros [? _]].
  - destruct (ExecutionToken_Valid token now); simpl; [by split|split; [done|by intros [_ ?]]].
Qed.

Lemma validatePrefix_nonempty prefix : validatePrefix prefix = Ok tt → prefix ≠ "".
Proof. unfold validatePrefix. by destruct (prefix =s? "") eqn:He; autorewrite with mk in He. Qed.

Lemma Boundary_Validate_prefix b : Boundary_Validate b = Ok tt → b_Prefix b ≠ "".
Proof.
  unfold Boundary_Validate. rewrite rbind_Ok. intros ([] & _ & H). rewrite rbind_Ok in H.
  destruct H as ([] & Hp & _). by apply validatePrefix_nonempty.
Qed.

Definition planned_acls (b : Boundary) : list ACLBinding :=
  map (prefixedAllow b RtTopic) TopicOperations ++ map (prefixedAllow b RtGroup) GroupOperations.

(** The bindings the plan may hold. *)
Lemma planned_acls_elem b x :
  x ∈ planned_acls b ↔ ∃ t op, x = prefixedAllow b t op ∧
    ((t = RtTopic ∧ op ∈ TopicOperations) ∨ (t = RtGroup ∧ op ∈ GroupOperations)).
Proof.
  unfold planned_acls. rewrite elem_of_app, !elem_of_map. split.
  - intros [(op & -> & Hop)|(op & -> & Hop)]; eauto 10.
  - intros (t & op & -> & [[-> Hop]|[-> Hop]]); eauto.
Qed.

(** What the plan of a boundary permits, and to whom. *)
Definition in_namespace (b : Boundary) (p : Principal) (t : ACLResourceType) (name : string) (op : ACLOperation) : Prop :=
  (b_Principal b = p ∨ b_Principal b = "User:*") ∧ HasPrefix name (b_Prefix b) = true ∧
  ((t = RtTopic ∧ op ∈ [OpRead; OpWrite; OpDescribe]) ∨ (t = RtGroup ∧ op ∈ [OpRead; OpDescribe])).

#[local] Ltac member :=
  repeat match goal with
  | H : _ ∈ [] |- _ => by apply not_elem_of_nil in H
  | H : _ ∈ _ :: _ |- _ => apply elem_of_cons in H as [H|H]; [first [discriminate H|subst]|]
  end.

Lemma planned_permits b p t name op :
  (∃ x, x ∈ planned_acls b ∧ permits x p t name op) ↔ in_namespace b p t name op.
Proof.
  unfold in_namespace. split.
  - intros (x & Hx & Hp). apply planned_acls_elem in Hx as (t' & o & -> & Ho).
    destruct Hp as (_ & Hpr & Ht & Himp & [[_ Hn]|[Hn _]]); [|done]. simpl in *. subst t'.
    split_and!; [done..|].
    destruct Ho as [[-> Ho]|[-> Ho]]; [left|right]; (split; [done|]);
      unfold TopicOperations, GroupOperations in Ho; member;
      destruct Himp as [<-|[Hall|[-> _]]]; try done; rewrite ?elem_of_cons; auto.
  - intros (Hpr & Hn & Ht).
    assert (∃ o, ((t = RtTopic ∧ o ∈ TopicOperations) ∨ (t = RtGroup ∧ o ∈ GroupOperations)) ∧ implies_op o op) as (o & Ho & Himp).
    { destruct Ht as [[-> Hop]|[-> Hop]].
      - exists op. split; [by left|by left].
      - exists OpRead. split; [right; by split; [|left]|]. member; [by left|].
        right. right. split; [done|left]. }
    exists (prefixedAllow b t o). split; [apply planned_acls_elem; eauto|].
    split_and!; [done..|]. by left.
Qed.

(** The two keys of a quota are not one. *)
Lemma both_rates p c m :
  set_values [mkQuotaValue ProducerByteRateKey p; mkQuotaValue ConsumerByteRateKey c] m !! ProducerByteRateKey = Some p ∧
  set_values [mkQuotaValue ProducerByteRateKey p; mkQuotaValue ConsumerByteRateKey c] m !! ConsumerByteRateKey = Some c.
Proof.
  unfold set_values. simpl. split; [|apply lookup_insert_eq]. by rewrite lookup_insert_ne, lookup_insert_eq.
Qed.

(** A plan has every planned operation at its one name. *)
Lemma planned_rectangular b : rectangular (planned_acls b).
Proof.
  intros x y z Hx Hy Hkey Hz Hname Hop. apply planned_acls_elem in Hx as (t & o & -> & _). apply planned_acls_elem in Hy as (t' & o' & -> & Ho').
  assert (z = prefixedAllow b t' o') as ->; [|apply planned_acls_elem; eauto].
  destruct z. unfold prefixedAllow, key_of_binding in *. simpl in *. congruence.
Qed.

Lemma PlanBoundaryACLs_Ok b acls :
  PlanBoundaryACLs b = Ok acls ↔ Boundary_Validate b = Ok tt ∧ acls = planned_acls b.
Proof.
  unfold PlanBoundaryACLs. rewrite rbind_Ok. split.
  - intros ([] & Hv & [= <-]). done.
  - intros [Hv ->]. by exists tt.
Qed.

Section lemmas.
Context {W : Type} (admin : Admin W) `{!KafkaCluster admin}.

(** The calls on an onboarding that passed its checks. *)
Lemma OnboardTeam_run token b now now' w :
  OnboardTeam admin token b now now' w =
  match (_ <-? checkToken token now ; Boundary_Validate b) with
  | Err e => (Err e, w)
  | Ok _ =>
      let a := mkQuotaAlteration QuotaEntityTypeUser (Principal_Name (b_Principal b))
        [mkQuotaValue ProducerByteRateKey (float_of (q_ProducerByteRate (b_Quota b)));
         mkQuotaValue ConsumerByteRateKey (float_of (q_ConsumerByteRate (b_Quota b)))] in
      match AlterClientQuota admin a w with
      | (Some e, w) => (Err (EBroker "set quota" e), w)
      | (None, w) =>
          match CreateACLs admin (planned_acls b) w with
          | (Some e, w) => (Err (EBroker "create acls" e), w)
          | (None, w) => readBoundary admin token b now' w
          end
      end
  end.
Proof.
  unfold OnboardTeam, PlanBoundaryACLs, PlanQuota. destruct (checkToken token now); [|done].
  cbn [rbind]. by destruct (Boundary_Validate b) as [[]|].
Qed.

Lemma readBoundary_frame token b now' w :
  held (readBoundary admin token b now' w).2 = held w ∧ quota (readBoundary admin token b now' w).2 = quota w.
Proof.
  unfold readBoundary.
  pose proof (DescribeACLs_frame (b_Principal b) (b_Prefix b) PtPrefixed w) as (H1 & H2 & _).
  destruct (DescribeACLs _ _ _ _ w) as [[acls|] w1]; simpl in *; [|done].
  pose proof (DescribeClientQuota_frame QuotaEntityTypeUser (Principal_Name (b_Principal b)) w1) as (H3 & H4 & _).
  destruct (DescribeClientQuota _ _ _ w1) as [[q|] w2]; simpl in *; by rewrite H3, H4, H1, H2.
Qed.

Lemma readBoundary_Ok token b now' w a :
  (readBoundary admin token b now' w).1 = Ok a →
  ba_IntentID a = tok_IntentID token ∧ ba_PolicyID a = tok_PolicyID token ∧
  ba_Principal a = b_Principal b ∧ ba_Prefix a = b_Prefix b ∧
  (∀ x, x ∈ ba_ACLs a ↔ x ∈ held w ∧ at_prefix (b_Principal b) (b_Prefix b) x) ∧
  (∀ k v, mkQuotaValue k v ∈ ba_Quota a ↔ quota w QuotaEntityTypeUser (Principal_Name (b_Principal b)) !! k = Some v).
Proof.
  unfold readBoundary.
  pose proof (DescribeACLs_frame (b_Principal b) (b_Prefix b) PtPrefixed w) as (H1 & H2 & _).
  pose proof (DescribeACLs_Ok (b_Principal b) (b_Prefix b) w) as Hd.
  destruct (DescribeACLs _ _ _ _ w) as [[acls|] w1]; simpl in *; [|done].
  pose proof (DescribeClientQuota_Ok QuotaEntityTypeUser (Principal_Name (b_Principal b)) w1) as Hq.
  destruct (DescribeClientQuota _ _ _ w1) as [[q|] w2]; simpl in *; [|done].
  intros [= <-]. simpl. split_and!; try done; [by apply Hd|]. rewrite <- H2. by apply Hq.
Qed.

Lemma GrantsCreate_true a :
  GrantsCreate a = true ↔ ∃ x, x ∈ ba_ACLs a ∧ acl_Permission x = PermAllow ∧ (acl_Operation x = OpCreate ∨ acl_Operation x = OpAll).
Proof.
  unfold GrantsCreate. rewrite existsb_true. split; intros (x & Hx & H); exists x; (split; [done|]).
  - rewrite andb_true_iff, orb_true_iff, !bool_decide_eq_true in H. done.
  - rewrite andb_true_iff, orb_true_iff, !bool_decide_eq_true. done.
Qed.
End lemmas.

(** ** Onboarding *)

(** C30: whatever the cluster answers, an onboarding makes nothing possible that was not
    possible before, except, under a valid token and for a valid boundary, for that
    boundary's principal, on topics and consumer groups whose names start with its prefix,
    to read, write and describe: never to create. *)
Theorem onboarding_grants_exactly {W} (admin : Admin W) `{!KafkaCluster admin} token b now now' w p t name op x :
  let w' := (OnboardTeam admin token b now now' w).2 in
  x ∈ held w' → permits x p t name op →
  x ∈ held w ∨
  (tok_IntentID token ≠ "" ∧ ExecutionToken_Valid token now = true ∧ Boundary_Validate b = Ok tt ∧
   b_Prefix b ≠ "" ∧ in_namespace b p t name op ∧ op ≠ OpCreate).
Proof.
  intros w' Hx Hp. subst w'. rewrite OnboardTeam_run in Hx.
  destruct (checkToken token now) as [[]|] eqn:Ht; [|by left]. apply checkToken_Ok in Ht as [Hi Hv].
  simpl in Hx. destruct (Boundary_Validate b) as [[]|] eqn:Hb; [|by left]. cbv zeta in Hx.
  match type of Hx with context [AlterClientQuota admin ?a w] =>
    pose proof (AlterClientQuota_frame a w) as [Hf _]; destruct (AlterClientQuota admin a w) as [[e|] w1]
  end; simpl in *; [left; by rewrite <- Hf|].
  pose proof (CreateACLs_only (planned_acls b) w1 x) as Honly.
  assert (x ∈ held (CreateACLs admin (planned_acls b) w1).2) as Hx'.
  { destruct (CreateACLs admin (planned_acls b) w1) as [[e|] w2]; simpl in *; [done|].
    by rewrite (proj1 (readBoundary_frame admin token b now' w2)) in Hx. }
  destruct (Honly (planned_rectangular b) Hx') as [Hin|Hin]; [left; by rewrite <- Hf|right].
  assert (in_namespace b p t name op) as Hn by (apply planned_permits; eauto).
  split_and!; [done..|by apply Boundary_Validate_prefix|done|].
  destruct Hn as (_ & _ & [[_ Ho]|[_ Ho]]); intros ->; member.
Qed.

(** A permission is never there before its limit: if onboarding added a binding, the
    principal's quota is the one that was approved. A successful onboarding holds every
    planned binding, its artifact is what the cluster holds (not what was asked), under the
    token's intent and policy, and it reports CREATE on the prefix exactly when somebody
    else had granted it before. *)
Theorem onboarding_is_bounded_and_reported {W} (admin : Admin W) `{!KafkaCluster admin} token b now now' w res w' :
  OnboardTeam admin token b now now' w = (res, w') →
  ((∃ x, x ∈ held w' ∧ x ∉ held w) →
    quota w' QuotaEntityTypeUser (Principal_Name (b_Principal b)) !! ProducerByteRateKey = Some (float_of (q_ProducerByteRate (b_Quota b))) ∧
    quota w' QuotaEntityTypeUser (Principal_Name (b_Principal b)) !! ConsumerByteRateKey = Some (float_of (q_ConsumerByteRate (b_Quota b)))) ∧
  (∀ a, res = Ok a →
    (∀ x, x ∈ planned_acls b → x ∈ held w') ∧
    ba_IntentID a = tok_IntentID token ∧ ba_PolicyID a = tok_PolicyID token ∧
    (∀ x, x ∈ ba_ACLs a ↔ x ∈ held w' ∧ at_prefix (b_Principal b) (b_Prefix b) x) ∧
    (∀ k v, mkQuotaValue k v ∈ ba_Quota a ↔ quota w' QuotaEntityTypeUser (Principal_Name (b_Principal b)) !! k = Some v) ∧
    (GrantsCreate a = true ↔ ∃ x, x ∈ held w ∧ at_prefix (b_Principal b) (b_Prefix b) x ∧ acl_Permission x = PermAllow ∧ (acl_Operation x = OpCreate ∨ acl_Operation x = OpAll))).
Proof.
  rewrite OnboardTeam_run. intros Hrun.
  destruct (_ <-? checkToken token now ; Boundary_Validate b) as [[]|e].
  2:{ injection Hrun as <- <-. split; [by intros (x & ? & ?)|done]. }
  cbv zeta in Hrun. match type of Hrun with context [AlterClientQuota admin ?a w] =>
    pose proof (AlterClientQuota_frame a w) as [Hf _]; pose proof (AlterClientQuota_Ok a w) as Hq;
    destruct (AlterClientQuota admin a w) as [[e|] w1]
  end; simpl in *.
  { injection Hrun as <- <-. split; [|done]. rewrite Hf. by intros (x & ? & ?). }
  specialize (Hq eq_refl).
  pose proof (CreateACLs_only (planned_acls b) w1) as Honly. pose proof (CreateACLs_keeps (planned_acls b) w1) as Hkeep.
  pose proof (CreateACLs_Ok (planned_acls b) w1) as Hok. pose proof (CreateACLs_frame (planned_acls b) w1) as [Hqf _].
  destruct (CreateACLs admin (planned_acls b) w1) as [[e|] w2]; simpl in *.
  { injection Hrun as <- <-. split; [|done]. intros _. rewrite Hqf, Hq. apply both_rates. }
  pose proof (readBoundary_frame admin token b now' w2) as [Hrh Hrq].
  pose proof (readBoundary_Ok admin token b now' w2) as Hr. rewrite Hrun in *. simpl in *.
  split; [intros _; rewrite Hrq, Hqf, Hq; apply both_rates|]. intros a ->. destruct (Hr a eq_refl) as (Hi & Hpo & _ & _ & Hacl & Hqa).
  rewrite Hrh, Hrq. split_and!; [by intros x; apply Hok|done..|].
  rewrite GrantsCreate_true. split.
  - intros (x & Hx & Hperm & Hop). apply Hacl in Hx as (Hx & ?). exists x. split_and!; try done.
    rewrite <- Hf. destruct (Honly x (planned_rectangular b) Hx) as [?|Hin]; [done|]. exfalso.
    apply planned_acls_elem in Hin as (t & o & -> & Ho). simpl in Hop.
    destruct Ho as [[_ Ho]|[_ Ho]]; unfold TopicOperations, GroupOperations in Ho; destruct Hop as [->| ->]; member.
  - intros (x & Hx & ? & ? & ?). exists x. split_and!; [|done..]. apply Hacl.
    split; [|done]. apply Hkeep. by rewrite Hf.
Qed.

(** ** Provisioning *)

Lemma PlanTopic_Ok g spec :
  PlanTopic g = Ok spec → ts_Name spec = g_Topic g ∧ b_Prefix (mkBoundary (g_Principal g) (g_Prefix g) (mkQuota 1 1)) = g_Prefix g ∧
  covers (g_Prefix g) (g_Topic g) = true ∧ Principal_Validate (g_Principal g) = Ok tt ∧ validatePrefix (g_Prefix g) = Ok tt ∧
  validateResourceName (g_Topic g) "topic" = Ok tt.
Proof.
  unfold PlanTopic, Grant_Validate. rewrite rbind_Ok. intros ([] & Hv & [= <-]).
  rewrite rbind_Ok in Hv. destruct Hv as ([] & Hp & Hv). rewrite rbind_Ok in Hv. destruct Hv as ([] & Hpre & Hv).
  rewrite rbind_Ok in Hv. destruct Hv as ([] & Hn & Hv).
  destruct (_ <? 0)%Z; [done|]. destruct (covers _ _); [|done]. by split_and!.
Qed.

(** Provisioning changes no permission, no quota and no existing topic; the one topic it
    may add needs a valid token, is the one that was granted, and is inside the prefix, so
    that whoever was onboarded with that prefix can already write and read it. A success
    means the topic exists, and says whether it was there before. *)
Theorem provision_stays_inside {W} (admin : Admin W) `{!KafkaCluster admin} token g now now' w res w' :
  Provision admin token g now now' w = (res, w') →
  held w' = held w ∧ quota w' = quota w ∧
  (∀ n ts, topics w !! n = Some ts → topics w' !! n = Some ts) ∧
  (∀ n, is_Some (topics w' !! n) → topics w !! n = None →
    n = g_Topic g ∧ PlanTopic g = Ok (default (mkTopicSpec "" 0 0 ∅) (topics w' !! n)) ∧
    tok_IntentID token ≠ "" ∧ ExecutionToken_Valid token now = true ∧
    ∀ b op, b_Principal b = g_Principal g → b_Prefix b = g_Prefix g → op ∈ [OpRead; OpWrite; OpDescribe] →
      in_namespace b (g_Principal g) RtTopic n op) ∧
  (∀ a, res = Ok a → ta_Topic a = g_Topic g ∧ is_Some (topics w' !! g_Topic g) ∧
    (ta_AlreadyExisted a = true → is_Some (topics w !! g_Topic g))).
Proof.
  unfold Provision. intros Hrun.
  destruct (checkToken token now) as [[]|e] eqn:Ht; simpl in Hrun.
  2:{ injection Hrun as <- <-. split_and!; try done. intros n [x Hx]. by rewrite Hx. }
  apply checkToken_Ok in Ht as [Hi Hv].
  destruct (PlanTopic g) as [spec|e] eqn:Hplan.
  2:{ injection Hrun as <- <-. split_and!; try done. intros n [x Hx]. by rewrite Hx. }
  destruct (PlanTopic_Ok g spec Hplan) as (Hname & _ & Hcov & _ & Hpre & _).
  pose proof (CreateTopic_only spec w) as Honly. pose proof (CreateTopic_keeps spec w) as Hkeep.
  pose proof (CreateTopic_Ok spec w) as Hok. pose proof (CreateTopic_exists spec w) as Hex.
  pose proof (CreateTopic_frame spec w) as [Hh Hq].
  assert (held w' = held (CreateTopic admin spec w).2 ∧ quota w' = quota (CreateTopic admin spec w).2 ∧
    topics w' = topics (CreateTopic admin spec w).2 ∧
    ∀ a, res = Ok a → ta_Topic a = g_Topic g ∧
      ta_AlreadyExisted a = bool_decide (is_Some (CreateTopic admin spec w).1) ∧
      ∀ e, (CreateTopic admin spec w).1 ≠ Some (TopicError e)) as (H1 & H2 & H3 & H4).
  { destruct (CreateTopic admin spec w) as [[[|e]|] w1]; simpl in *;
      [| by injection Hrun as <- <-|];
      pose proof (DescribeTopicConfig_frame (g_Topic g) w1) as (? & ? & ?);
      (destruct (DescribeTopicConfig admin (g_Topic g) w1) as [[config|e] w2]; simpl in *;
        injection Hrun as <- <-; split_and!; try congruence; intros a [= <-]; split_and!; done). }
  rewrite H1, H2, H3. rewrite Hname in *. split_and!; [done..| |].
  - intros n [ts Hts] Hnone. destruct (Honly n ts Hts) as [?|(-> & -> & _)]; [congruence|].
    rewrite Hts. split_and!; [done..|]. intros b op Hbp Hbx Hop. split_and!; [by left| |by left].
    rewrite Hbx. unfold covers in Hcov. by destruct (_ =s? _).
  - intros a Ha. destruct (H4 a Ha) as (Hta & Hae & Hne). split; [done|].
    destruct (CreateTopic admin spec w).1 as [[|e]|] eqn:Hc; simpl in *.
    + destruct (Hex eq_refl) as [x Hx]. split; [exists x; by apply Hkeep|intros _; by exists x].
    + by destruct (Hne e).
    + split; [rewrite Hok; eauto|by rewrite Hae].
Qed.

(** ** From bindings to requests *)

(** The bindings one request creates: the client crosses its names with its operations. *)
Definition combos (b : ACLBuilder) : list ACLBinding :=
  flat_map (λ op, map (λ n, mkACLBinding (bl_Allow b) (bl_AllowHosts b) RtTopic n (bl_Pattern b) op PermAllow) (bl_Topics b) ++
                  map (λ n, mkACLBinding (bl_Allow b) (bl_AllowHosts b) RtGroup n (bl_Pattern b) op PermAllow) (bl_Groups b))
    (bl_Operations b).

(** What a Kafka client promises of one request: all or some of its combinations are
    created, all of them when no result carries an error, and nothing else changes. *)
Class KadmClient {W : Type} (client : ACLBuilder → W → result string (list (option string)) * W) := {
  client_held : W → list ACLBinding;
  client_only b w x : x ∈ client_held (client b w).2 → x ∈ client_held w ∨ x ∈ combos b;
  client_keeps b w x : x ∈ client_held w → x ∈ client_held (client b w).2;
  client_Ok b w rs x : (client b w).1 = Ok rs → first_failure rs = None → x ∈ combos b → x ∈ client_held (client b w).2;
}.

Section groups.

(** The names and the operations collected under a key. *)
Definition names_of (k : aclGroupKey) (gs : list aclGroup) : list string :=
  flat_map (λ g, if decide (gr_key g = k) then gr_names g else []) gs.
Definition operations_of (k : aclGroupKey) (gs : list aclGroup) : list ACLOperation :=
  flat_map (λ g, if decide (gr_key g = k) then gr_operations g else []) gs.

Lemma add_binding_spec b g :
  gr_key (add_binding b g) = gr_key g ∧
  (∀ n, n ∈ gr_names (add_binding b g) ↔ n ∈ gr_names g ∨ n = acl_ResourceName b) ∧
  (∀ o, o ∈ gr_operations (add_binding b g) ↔ o ∈ gr_operations g ∨ o = acl_Operation b).
Proof.
  unfold add_binding, addOperation, addName.
  destruct (slice_contains (gr_names g) (acl_ResourceName b)) eqn:Hn; autorewrite with mk in Hn; simpl;
    case_bool_decide as Ho; simpl; (split; [done|]); split; intros y; rewrite ?elem_of_app, ?list_elem_of_singleton;
    try done; split; intros; destruct_or?; subst; auto.
Qed.

#[local] Opaque add_binding.

Lemma place_keys b gs :
  gr_key <$> place b gs = gr_key <$> gs ∨
  (key_of_binding b ∉ gr_key <$> gs ∧ gr_key <$> place b gs = (gr_key <$> gs) ++ [key_of_binding b]).
Proof.
  induction gs as [|g gs IH]; cbn [place].
  - right. split; [apply not_elem_of_nil|]. rewrite fmap_cons. by rewrite (proj1 (add_binding_spec b _)).
  - case_decide as Hk; rewrite !fmap_cons.
    + left. by rewrite (proj1 (add_binding_spec b g)).
    + destruct IH as [->|[Hn ->]]; [by left|right]. split; [|done]. rewrite not_elem_of_cons. split; [congruence|done].
Qed.

Lemma place_names b gs k n :
  n ∈ names_of k (place b gs) ↔ n ∈ names_of k gs ∨ (key_of_binding b = k ∧ n = acl_ResourceName b).
Proof.
  unfold names_of. induction gs as [|g gs IH]; simpl.
  - rewrite (proj1 (add_binding_spec b _)). simpl. case_decide; rewrite app_nil_r.
    + rewrite (proj1 (proj2 (add_binding_spec b _))). simpl. naive_solver.
    + naive_solver.
  - case_decide as Hk; simpl; rewrite !elem_of_app.
    + rewrite (proj1 (add_binding_spec b g)). case_decide as Hk'.
      * rewrite (proj1 (proj2 (add_binding_spec b g))). subst k. naive_solver.
      * split; [naive_solver|]. intros [?|[? ?]]; [naive_solver|congruence].
    + rewrite IH. tauto.
Qed.

Lemma place_operations b gs k o :
  o ∈ operations_of k (place b gs) ↔ o ∈ operations_of k gs ∨ (key_of_binding b = k ∧ o = acl_Operation b).
Proof.
  unfold operations_of. induction gs as [|g gs IH]; simpl.
  - rewrite (proj1 (add_binding_spec b _)). simpl. case_decide; rewrite app_nil_r.
    + rewrite (proj2 (proj2 (add_binding_spec b _))). simpl. naive_solver.
    + naive_solver.
  - case_decide as Hk; simpl; rewrite !elem_of_app.
    + rewrite (proj1 (add_binding_spec b g)). case_decide as Hk'.
      * rewrite (proj2 (proj2 (add_binding_spec b g))). subst k. naive_solver.
      * split; [naive_solver|]. intros [?|[? ?]]; [naive_solver|congruence].
    + rewrite IH. tauto.
Qed.

(** One group a key; under it, the names and the operations of the bindings with that key. *)
Lemma groupBindings_spec bs :
  NoDup (gr_key <$> groupBindings bs) ∧
  (∀ k n, n ∈ names_of k (groupBindings bs) ↔ ∃ b, b ∈ bs ∧ key_of_binding b = k ∧ acl_ResourceName b = n) ∧
  (∀ k o, o ∈ operations_of k (groupBindings bs) ↔ ∃ b, b ∈ bs ∧ key_of_binding b = k ∧ acl_Operation b = o).
Proof.
  unfold groupBindings. induction bs as [|b bs (Hnd & Hn & Ho)] using rev_ind; simpl.
  { split_and!; [apply NoDup_nil_2| |]; intros k y; (split; [intros Hy; by apply not_elem_of_nil in Hy|]);
      intros (b & Hb & _); by apply not_elem_of_nil in Hb. }
  rewrite foldl_app. simpl. split_and!.
  - destruct (place_keys b (foldl (λ gs b, place b gs) [] bs)) as [->|[Hk ->]]; [done|].
    apply NoDup_app. split_and!; [done| |apply NoDup_singleton]. by intros x Hx ->%list_elem_of_singleton.
  - intros k n. rewrite place_names, Hn. setoid_rewrite elem_of_app. setoid_rewrite list_elem_of_singleton. naive_solver.
  - intros k o. rewrite place_operations, Ho. setoid_rewrite elem_of_app. setoid_rewrite list_elem_of_singleton. naive_solver.
Qed.

Lemma groupBindings_keys bs k :
  k ∈ gr_key <$> groupBindings bs → ∃ b, b ∈ bs ∧ key_of_binding b = k.
Proof.
  unfold groupBindings. induction bs as [|b bs IH] using rev_ind; simpl.
  { intros Hk. by apply not_elem_of_nil in Hk. }
  rewrite foldl_app. simpl. setoid_rewrite elem_of_app. setoid_rewrite list_elem_of_singleton.
  destruct (place_keys b (foldl (λ gs b, place b gs) [] bs)) as [->|[_ ->]].
  - intros Hk. destruct (IH Hk) as (x & ? & ?). eauto.
  - intros [Hk| ->%list_elem_of_singleton]%elem_of_app; [|by eauto]. destruct (IH Hk) as (x & ? & ?). eauto.
Qed.

Lemma names_of_group gs g n :
  NoDup (gr_key <$> gs) → g ∈ gs → n ∈ names_of (gr_key g) gs ↔ n ∈ gr_names g.
Proof.
  intros Hnd Hg. unfold names_of. rewrite elem_of_flat_map. split.
  - intros (g' & Hg' & Hn). case_decide as Hk; [|by apply not_elem_of_nil in Hn].
    apply list_elem_of_lookup in Hg as [i Hi], Hg' as [j Hj].
    assert (i = j) as ->.
    { eapply NoDup_lookup; [exact Hnd|..]; rewrite list_lookup_fmap; [by rewrite Hi|]. rewrite Hj. simpl. by rewrite Hk. }
    rewrite Hi in Hj. by injection Hj as ->.
  - intros Hn. exists g. split; [done|]. by rewrite decide_True.
Qed.
Lemma operations_of_group gs g o :
  NoDup (gr_key <$> gs) → g ∈ gs → o ∈ operations_of (gr_key g) gs ↔ o ∈ gr_operations g.
Proof.
  intros Hnd Hg. unfold operations_of. rewrite elem_of_flat_map. split.
  - intros (g' & Hg' & Hn). case_decide as Hk; [|by apply not_elem_of_nil in Hn].
    apply list_elem_of_lookup in Hg as [i Hi], Hg' as [j Hj].
    assert (i = j) as ->.
    { eapply NoDup_lookup; [exact Hnd|..]; rewrite list_lookup_fmap; [by rewrite Hi|]. rewrite Hj. simpl. by rewrite Hk. }
    rewrite Hi in Hj. by injection Hj as ->.
  - intros Hn. exists g. split; [done|]. by rewrite decide_True.
Qed.

(** A request creates the group's names crossed with its operations. *)
Lemma builder_combos g b x :
  builder g = Ok b →
  x ∈ combos b ↔ key_of_binding x = gr_key g ∧ acl_ResourceName x ∈ gr_names g ∧ acl_Operation x ∈ gr_operations g.
Proof.
  unfold builder. destruct g as [[p h rt pt pm] names ops]. simpl.
  case_bool_decide as Hpm; [|done]. subst pm. simpl.
  destruct (_ && _); [done|].
  destruct rt; try done; intros [= <-]; unfold combos; simpl; rewrite elem_of_flat_map; try setoid_rewrite app_nil_r;
    setoid_rewrite elem_of_map; (split;
    [intros (op & Hop & n & -> & Hn); done
    |destruct x as [xp xh xt xn xpt xo xpm]; unfold key_of_binding; simpl; intros ([= -> -> -> -> ->] & Hn & Ho);
     exists xo; split; [done|]; by exists xn]).
Qed.
End groups.

Section franz_lemmas.
Context {W : Type} (client : ACLBuilder → W → result string (list (option string)) * W) `{!KadmClient client}.

Lemma create_groups_spec gs w :
  let '(err, w') := create_groups client gs w in
  (∀ x, x ∈ client_held w → x ∈ client_held w') ∧
  (∀ x, x ∈ client_held w' → x ∈ client_held w ∨ ∃ g b, g ∈ gs ∧ builder g = Ok b ∧ x ∈ combos b) ∧
  (err = None → ∀ g, g ∈ gs → ∃ b, builder g = Ok b ∧ ∀ x, x ∈ combos b → x ∈ client_held w').
Proof.
  revert w. induction gs as [|g gs IH]; intros w; simpl.
  { split_and!; [done|by left|]. intros _ g Hg. by apply not_elem_of_nil in Hg. }
  destruct (builder g) as [b|e] eqn:Hb; [|by split_and!; [done|left|]].
  pose proof (client_only b w) as Honly. pose proof (client_keeps b w) as Hkeep. pose proof (client_Ok b w) as Hok.
  assert (∀ x, x ∈ client_held (client b w).2 → x ∈ client_held w ∨ ∃ g' b', g' ∈ g :: gs ∧ builder g' = Ok b' ∧ x ∈ combos b') as Hone.
  { intros x Hx. destruct (Honly x Hx) as [?|?]; [by left|right]. exists g, b. by split; [left|]. }
  destruct (client b w) as [[rs|e] w1]; simpl in *; [|by split_and!].
  destruct (first_failure rs) eqn:Hf; [by split_and!|].
  specialize (IH w1). destruct (create_groups client gs w1) as [err w2]. destruct IH as (IHk & IHo & IHe).
  split_and!.
  - intros x Hx. by apply IHk, Hkeep.
  - intros x Hx. destruct (IHo x Hx) as [?|(g' & b' & ? & ? & ?)]; [by apply Hone|]. right. exists g', b'. by split; [right|].
  - intros He g' [->|Hg']%elem_of_cons; [|by apply IHe]. exists b. split; [done|]. intros x Hx. apply IHk. by eapply Hok.
Qed.
End franz_lemmas.

Lemma create_groups_err {W} (client : ACLBuilder → W → result string (list (option string)) * W) gs w e w' :
  create_groups client gs w = (Some e, w') →
  (∃ what, e = EClient what ∨ e = ECreateACL what) ∨ ∃ g, g ∈ gs ∧ builder g = Err e.
Proof.
  revert w. induction gs as [|g gs IH]; intros w; simpl; [done|].
  destruct (builder g) as [b|e'] eqn:Hb; [|intros [= <- _]; right; exists g; split; [left|done]].
  destruct (client b w) as [[rs|er] w1]; [|intros [= <- _]; eauto].
  destruct (first_failure rs) as [er|]; [intros [= <- _]; eauto|].
  intros H. destruct (IH w1 H) as [?|(g' & ? & ?)]; [by left|right]. exists g'. by split; [right|].
Qed.

(** Writing a plan through the client creates exactly the plan, grouped into one request
    a resource type: nothing that is not planned even when a request fails half-way, all of
    it when no request fails; no binding of the plan is refused on the way. *)
Theorem franz_writes_the_plan {W} client `{!KadmClient (W := W) client} b acls w err w' :
  PlanBoundaryACLs b = Ok acls → franz_CreateACLs client acls w = (err, w') →
  (∀ x, x ∈ client_held w → x ∈ client_held w') ∧
  (∀ x, x ∈ client_held w' → x ∈ client_held w ∨ x ∈ acls) ∧
  (err = None → ∀ x, x ∈ acls → x ∈ client_held w') ∧
  (∀ e, err = Some e → ∃ what, e = EClient what ∨ e = ECreateACL what).
Proof.
  intros [_ ->]%PlanBoundaryACLs_Ok Hrun. unfold franz_CreateACLs in Hrun.
  pose proof (create_groups_spec client (groupBindings (planned_acls b)) w) as Hspec. rewrite Hrun in Hspec.
  destruct Hspec as (Hk & Ho & He). destruct (groupBindings_spec (planned_acls b)) as (Hnd & Hn & Hop).
  assert (∀ x y, x ∈ planned_acls b → key_of_binding y = key_of_binding x → acl_ResourceName y = b_Prefix b →
    (∃ z, z ∈ planned_acls b ∧ key_of_binding z = key_of_binding y ∧ acl_Operation z = acl_Operation y) → y ∈ planned_acls b) as Hclosed.
  { intros x y _ _ Hy (z & Hz & Hkz & Hoz). apply planned_acls_elem in Hz as Hz'. destruct Hz' as (t & o & -> & _).
    assert (y = prefixedAllow b t o) as ->; [|done]. destruct y. unfold prefixedAllow, key_of_binding in *. simpl in *. congruence. }
  split_and!; [done| | |].
  - intros x Hx. destruct (Ho x Hx) as [?|(g & bl & Hg & Hb & Hc)]; [by left|right].
    apply (builder_combos g bl x Hb) in Hc as (Hkey & Hname & Hoper).
    apply (names_of_group _ _ _ Hnd Hg), Hn in Hname as (y & Hy & Hky & Hny).
    apply (operations_of_group _ _ _ Hnd Hg), Hop in Hoper as (z & Hz & Hkz & Hoz).
    apply (Hclosed y); [done|congruence| |exists z; split_and!; congruence].
    apply planned_acls_elem in Hy as (t & o & -> & _). by rewrite <- Hny.
  - intros Hnone x Hx. 
    assert (acl_ResourceName x ∈ names_of (key_of_binding x) (groupBindings (planned_acls b))) as Hname by (apply Hn; eauto).
    apply elem_of_flat_map in Hname as (g & Hg & Hname). case_decide as Hkey; [|by apply not_elem_of_nil in Hname].
    destruct (He Hnone g Hg) as (bl & Hb & Hall). apply Hall, (builder_combos g bl x Hb).
    split_and!; [done..|]. apply (operations_of_group _ _ _ Hnd Hg), Hop. exists x. by rewrite Hkey.
  - intros e ->. apply (create_groups_err client) in Hrun as [?|(g & Hg & Hb)]; [done|].
    destruct (groupBindings_keys (planned_acls b) (gr_key g)) as (x & Hx & Hkx); [by apply list_elem_of_fmap_2|].
    apply planned_acls_elem in Hx as (t & o & -> & Ht). unfold builder in Hb. rewrite <- Hkx in Hb. simpl in Hb.
    by destruct Ht as [[-> _]|[-> _]].
Qed.

(** ** The width of a quota *)

(** The integer a double stands for, if it is one. *)
Definition float_Z (f : spec_float) : option Z :=
  match f with
  | S754_zero _ => Some 0%Z
  | S754_finite s m e =>
      let z := if s then Z.neg m else Z.pos m in
      if (0 <=? e)%Z then Some (z * 2 ^ e)%Z
      else if (z mod 2 ^ (- e) =? 0)%Z then Some (z / 2 ^ (- e))%Z else None
  | _ => None
  end.

Lemma digits_lower m : (2 ^ (Z.pos (digits2_pos m) - 1) ≤ Z.pos m)%Z.
Proof.
  induction m as [m IH|m IH|]; simpl digits2_pos; [| |done];
    rewrite Pos2Z.inj_succ; replace (Z.succ (Z.pos (digits2_pos m)) - 1)%Z with (Z.succ (Z.pos (digits2_pos m) - 1))%Z by lia;
    rewrite Z.pow_succ_r by lia; lia.
Qed.

Lemma digits_small m k : (0 ≤ k)%Z → (Z.pos m < 2 ^ k)%Z → (Z.pos (digits2_pos m) ≤ k)%Z.
Proof.
  intros Hk Hm. pose proof (digits_lower m). destruct (Z.le_gt_cases (Z.pos (digits2_pos m)) k); [done|].
  assert (2 ^ k ≤ 2 ^ (Z.pos (digits2_pos m) - 1))%Z by (apply Z.pow_le_mono_r; lia). lia.
Qed.

Lemma digits_shift m n : digits2_pos (Pos.iter xO m n) = (digits2_pos m + n)%positive.
Proof.
  induction n as [|n IH] using Pos.peano_ind; simpl; [lia|]. rewrite Pos.iter_succ. simpl. rewrite IH. lia.
Qed.

Lemma pos_shift m n : Z.pos (Pos.iter xO m n) = (Z.pos m * 2 ^ Z.pos n)%Z.
Proof.
  induction n as [|n IH] using Pos.peano_ind; [simpl; lia|].
  rewrite Pos.iter_succ, Pos2Z.inj_succ, Z.pow_succ_r by lia. rewrite Pos2Z.inj_xO, IH. lia.
Qed.

(** A mantissa of exactly 53 digits is rounded to itself. *)
Lemma round_aux_exact m e :
  digits2_pos m = 53%positive → (-1000 ≤ e ≤ 900)%Z → binary_round_aux 53 1024 false (Z.pos m) e loc_Exact = S754_finite false m e.
Proof.
  intros Hd He.
  assert (∀ mrs, shr mrs e (SpecFloat.fexp 53 1024 (Zdigits2 (Z.pos m) + e) - e) = (mrs, e)) as Hshr.
  { intros mrs. simpl Zdigits2. rewrite Hd. unfold SpecFloat.fexp, SpecFloat.emin.
    replace (Z.max (53 + e - 53) (3 - 1024 - 53) - e)%Z with 0%Z by lia. done. }
  unfold binary_round_aux, shr_fexp. rewrite Hshr. cbn [shr_m shr_record_of_loc loc_of_shr_record round_nearest_even].
  rewrite Hshr. cbn [shr_m shr_record_of_loc]. rewrite (proj2 (Z.leb_le e _)) by lia. done.
Qed.

(** Up to 53 bits the double is the integer. *)
Lemma float_of_exact z : (0 ≤ z ≤ 2 ^ 53)%Z → float_Z (float_of z) = Some z.
Proof.
  intros [Hz Hmax]. destruct (decide (z = 2 ^ 53)%Z) as [->|Hne]; [by vm_compute|].
  destruct z as [|m|]; [done| |lia].
  assert (Z.pos (digits2_pos m) ≤ 53)%Z as Hd by (apply digits_small; lia).
  unfold float_of, binary_normalize, binary_round, SpecFloat.fexp, SpecFloat.emin.
  replace (Z.max (Z.pos (digits2_pos m) + 0 - 53) (3 - 1024 - 53))%Z with (Z.pos (digits2_pos m) - 53)%Z by lia.
  unfold shl_align. replace (Z.pos (digits2_pos m) - 53 - 0)%Z with (Z.pos (digits2_pos m) - 53)%Z by lia.
  destruct (Z.pos (digits2_pos m) - 53)%Z as [|p|p] eqn:He; [|lia|].
  - rewrite round_aux_exact; [|lia..]. simpl. f_equal. lia.
  - rewrite round_aux_exact; [|rewrite digits_shift; lia|lia]. simpl float_Z.
    rewrite pos_shift, Z_mod_mult. simpl Z.eqb. rewrite Z_div_mult; [done|]. pose proof (Z.pow_pos_nonneg 2 (Z.pos p)). lia.
Qed.

(** C38: the quota that is written is the quota that was approved, for every rate up to
    2^53 bytes a second; both rates are positive, and it is the name of the principal
    (what follows its first colon), not its [User:] form, that it is keyed on. *)
Theorem quota_is_exact b a :
  PlanQuota b = Ok a →
  (q_ProducerByteRate (b_Quota b) ≤ 2 ^ 53)%Z → (q_ConsumerByteRate (b_Quota b) ≤ 2 ^ 53)%Z →
  map (λ v, (qv_Key v, float_Z (qv_Value v))) (qa_Values a) =
    [(ProducerByteRateKey, Some (q_ProducerByteRate (b_Quota b)));
     (ConsumerByteRateKey, Some (q_ConsumerByteRate (b_Quota b)))] ∧
  (0 < q_ProducerByteRate (b_Quota b))%Z ∧ (0 < q_ConsumerByteRate (b_Quota b))%Z ∧
  qa_EntityType a = "user" ∧ ∃ typ, b_Principal b = typ +:+ ":" +:+ qa_EntityName a ∧ char_in ":" typ = false ∧ qa_EntityName a ≠ "".
Proof.
  unfold PlanQuota. rewrite rbind_Ok. intros ([] & Hv & [= <-]) Hp Hc. unfold Boundary_Validate in Hv.
  rewrite rbind_Ok in Hv. destruct Hv as ([] & Hpr & Hv). rewrite rbind_Ok in Hv. destruct Hv as ([] & _ & Hq).
  unfold Quota_Validate in Hq. destruct (_ || _) eqn:E in Hq; [done|]. boolify.
  rewrite Z.leb_gt in *. simpl. rewrite !float_of_exact by lia. split_and!; [done|lia|lia|done|].
  unfold Principal_Validate, Principal_Name in *. unfold Principal_split in *.
  destruct (CutByte ":" (b_Principal b)) as [[typ name]|] eqn:Hcut; [|done].
  destruct (_ || _) eqn:Hn; [done|]. boolify. autorewrite with mk in *. exists typ. cbn [qa_EntityName].
  assert (b_Principal b = typ +:+ ":" +:+ name ∧ char_in ":" typ = false) as [? ?]; [|done].
  clear -Hcut. revert typ Hcut. generalize (b_Principal b) as s.
  induction s as [|c s IH]; intros typ; simpl; [done|]. case_bool_decide as Hc; [by intros [= <- <-]; subst|].
  destruct (CutByte ":" s) as [[x y]|]; simpl; [|done]. intros [= <- ->]. destruct (IH x) as [-> Hx]; [done|].
  split; [done|]. cbn [char_in]. by rewrite bool_decide_eq_false_2.
Qed.

(** Beyond that width it may not be. *)
Example wide_quota_is_rounded : float_Z (float_of (2 ^ 53 + 1)) = Some (2 ^ 53)%Z.
Proof. by vm_compute. Qed.

(** ** Examples *)

Section examples.

(** A cluster kept in a record. *)
Record World := mkWorld {
  wd_held : list ACLBinding;
  wd_quota : string → string → gmap string spec_float;
  wd_topics : gmap string TopicSpec;
}.

Definition demo_admin : Admin World := {|
  CreateACLs := λ bs w, (None, mkWorld (wd_held w ++ bs) (wd_quota w) (wd_topics w));
  DescribeACLs := λ p n t w,
    (Ok (filter (λ b, at_prefix p n b ∧ acl_Pattern b = t) (wd_held w)), w);
  AlterClientQuota := λ a w, (None, mkWorld (wd_held w)
    (λ ty n, if decide (ty = qa_EntityType a ∧ n = qa_EntityName a) then set_values (qa_Values a) (wd_quota w ty n) else wd_quota w ty n) (wd_topics w));
  DescribeClientQuota := λ ty n w, (Ok (map (λ p, mkQuotaValue p.1 p.2) (map_to_list (wd_quota w ty n))), w);
  CreateTopic := λ spec w,
    match wd_topics w !! ts_Name spec with
    | Some _ => (Some ErrTopicExists, w)
    | None => (None, mkWorld (wd_held w) (wd_quota w) (<[ts_Name spec := spec]> (wd_topics w)))
    end;
  DescribeTopicConfig := λ n w,
    (match wd_topics w !! n with Some spec => Ok (ts_Configs spec) | None => Err "unknown topic" end, w);
|}.

#[refine] Instance demo_kafka : KafkaCluster demo_admin := {|
  held := wd_held;
  quota := wd_quota;
  topics := wd_topics;
|}.
Proof.
  - intros bs w b _ Hb. by apply elem_of_app in Hb.
  - intros bs w b Hb. apply elem_of_app. by left.
  - intros bs w b _ Hb. apply elem_of_app. by right.
  - done.
  - intros a w _. simpl. by rewrite decide_True.
  - done.
  - intros p n w l [= <-] b. rewrite list_elem_of_filter. unfold at_prefix. tauto.
  - done.
  - intros ty n w l [= <-] k v. rewrite elem_of_map. split.
    + by intros ([k' v'] & [= -> ->] & ?%elem_of_map_to_list).
    + intros H. exists (k, v). split; [done|]. by apply elem_of_map_to_list.
  - done.
  - intros spec w n ts. simpl. destruct (wd_topics w !! ts_Name spec) eqn:E; simpl; [by left|].
    destruct (decide (n = ts_Name spec)) as [->|Hne].
    + rewrite lookup_insert_eq. intros [= <-]. by right.
    + rewrite lookup_insert_ne by done. by left.
  - intros spec w n ts Hn. simpl. destruct (wd_topics w !! ts_Name spec) eqn:E; simpl; [done|].
    rewrite lookup_insert_ne; [done|congruence].
  - intros spec w. simpl. destruct (wd_topics w !! ts_Name spec) eqn:E; simpl; [done|]. intros _. apply lookup_insert_eq.
  - intros spec w. simpl. destruct (wd_topics w !! ts_Name spec) eqn:E; simpl; [by exists t|done].
  - intros spec w. simpl. by destruct (wd_topics w !! ts_Name spec).
  - done.
Defined.

Definition demo_world : World := mkWorld [] (λ _ _, ∅) ∅.
Definition demo_kafka_token : ExecutionToken := mkExecutionToken "t-1" "i-1" "onboard" "p-1" 0 100.
Definition demo_boundary : Boundary := mkBoundary "User:svc-payments" "payments." (mkQuota 1048576 2097152).
Definition demo_grant : TopicGrant := mkTopicGrant "User:svc-payments" "payments." "payments.settled" 3 2 604800000.
Definition demo_onboarded : World := (OnboardTeam demo_admin demo_kafka_token demo_boundary 10 11 demo_world).2.
Definition demo_write : ACLBinding := prefixedAllow demo_boundary RtTopic OpWrite.

Lemma demo_write_permits : permits demo_write "User:svc-payments" RtTopic "payments.settled" OpWrite.
Proof. split_and!; [done|by left|done|by left|by left]. Qed.

Lemma onboarding_grants_exactly_witness :
  demo_write ∈ held demo_onboarded ∧ in_namespace demo_boundary "User:svc-payments" RtTopic "payments.settled" OpWrite.
Proof.
  assert (demo_write ∈ held demo_onboarded) as Hin.
  { change (demo_write ∈ wd_held demo_onboarded). apply (proj1 (bool_decide_eq_true _)). vm_compute. reflexivity. }
  split; [exact Hin|].
  destruct (onboarding_grants_exactly demo_admin demo_kafka_token demo_boundary 10 11 demo_world "User:svc-payments" RtTopic
    "payments.settled" OpWrite demo_write Hin demo_write_permits) as [H|H]; [by apply not_elem_of_nil in H|].
  apply H.
Defined.

Definition demo_artifact : BoundaryArtifact :=
  match (OnboardTeam demo_admin demo_kafka_token demo_boundary 10 11 demo_world).1 with
  | Ok a => a | Err _ => mkBoundaryArtifact "" "" "" "" [] [] 0 end.

Lemma onboarding_is_bounded_and_reported_witness :
  ba_IntentID demo_artifact = "i-1" ∧ (∀ x, x ∈ planned_acls demo_boundary → x ∈ held demo_onboarded).
Proof.
  destruct (onboarding_is_bounded_and_reported demo_admin demo_kafka_token demo_boundary 10 11 demo_world
    (Ok demo_artifact) demo_onboarded eq_refl) as [_ H].
  destruct (H demo_artifact eq_refl) as (H1 & H2 & _). split; [exact H2|exact H1].
Defined.

Definition demo_provisioned := Provision demo_admin demo_kafka_token demo_grant 20 21 demo_onboarded.

Lemma provision_stays_inside_witness :
  is_Some (topics demo_provisioned.2 !! "payments.settled") ∧ held demo_provisioned.2 = held demo_onboarded.
Proof.
  destruct (provision_stays_inside demo_admin demo_kafka_token demo_grant 20 21 demo_onboarded
    demo_provisioned.1 demo_provisioned.2 eq_refl) as (H & _).
  split; [vm_compute; by eexists|exact H].
Defined.

Definition demo_client (b : ACLBuilder) (w : list ACLBinding) : result string (list (option string)) * list ACLBinding :=
  (Ok (map (λ _, None) (combos b)), w ++ combos b).
#[refine] Instance demo_kadm : KadmClient demo_client := {| client_held := λ w, w |}.
Proof.
  - intros b w x Hx. by apply elem_of_app in Hx.
  - intros b w x Hx. apply elem_of_app. by left.
  - intros b w rs x _ _ Hx. apply elem_of_app. by right.
Defined.

Lemma franz_writes_the_plan_witness :
  (franz_CreateACLs demo_client (planned_acls demo_boundary) []).1 = None ∧
  ∀ x, x ∈ planned_acls demo_boundary → x ∈ (franz_CreateACLs demo_client (planned_acls demo_boundary) []).2.
Proof.
  assert (PlanBoundaryACLs demo_boundary = Ok (planned_acls demo_boundary)) as Hplan by (vm_compute; reflexivity).
  assert (franz_CreateACLs demo_client (planned_acls demo_boundary) [] =
    (None, (franz_CreateACLs demo_client (planned_acls demo_boundary) []).2)) as Hrun by (vm_compute; reflexivity).
  destruct (franz_writes_the_plan demo_client demo_boundary (planned_acls demo_boundary) [] None _ Hplan Hrun)
    as (_ & _ & H & _).
  split; [vm_compute; reflexivity|exact (H eq_refl)].
Defined.

Lemma quota_is_exact_witness :
  ∃ a, PlanQuota demo_boundary = Ok a ∧
    map (λ v, (qv_Key v, float_Z (qv_Value v))) (qa_Values a) =
      [(ProducerByteRateKey, Some 1048576%Z); (ConsumerByteRateKey, Some 2097152%Z)].
Proof.
  eexists. split; [vm_compute; reflexivity|].
  refine (proj1 (quota_is_exact demo_boundary _ _ _ _)); [vm_compute; reflexivity|vm_compute; discriminate..].
Defined.

(** The wildcard principal is a valid one: its boundary is everybody's. *)
Lemma wildcard_principal_is_everybody p name :
  HasPrefix name "payments." = true →
  let b := mkBoundary "User:*" "payments." (mkQuota 1 1) in
  Boundary_Validate b = Ok tt ∧ in_namespace b p RtTopic name OpWrite.
Proof. intros Hn. split; [by vm_compute|]. split_and!; [by right|done|left; split; [done|by right; left]]. Qed.

(** Two bindings that differ in name and operation share a group, and the request of the
    group creates a binding neither of them is. *)
Lemma groups_cross_names_with_operations :
  let read := mkACLBinding "User:a" "*" RtTopic "red." PtPrefixed OpRead PermAllow in
  let write := mkACLBinding "User:a" "*" RtTopic "blue." PtPrefixed OpWrite PermAllow in
  let other := mkACLBinding "User:a" "*" RtTopic "red." PtPrefixed OpWrite PermAllow in
  other ∈ (franz_CreateACLs demo_client [read; write] []).2 ∧ other ∉ [read; write].
Proof.
  split; [apply (proj1 (bool_decide_eq_true _)); vm_compute; reflexivity|].
  apply (proj1 (bool_decide_eq_true _)). vm_compute. reflexivity.
Qed.

(** CREATE on a shorter prefix lets the team create topics under its own, and the artifact
    says that nothing does. *)
Lemma create_on_a_shorter_prefix_is_unreported :
  let create := mkACLBinding "User:svc-payments" "*" RtTopic "pay" PtPrefixed OpCreate PermAllow in
  let run := OnboardTeam demo_admin demo_kafka_token demo_boundary 10 11 (mkWorld [create] (λ _ _, ∅) ∅) in
  (∃ a, run.1 = Ok a ∧ GrantsCreate a = false) ∧ create ∈ held run.2 ∧
  permits create "User:svc-payments" RtTopic "payments.new" OpCreate.
Proof.
  split_and!.
  - eexists. split; [vm_compute; reflexivity|vm_compute; reflexivity].
  - apply elem_of_app. left. left.
  - split_and!; [done|by left|done|by left|left; by vm_compute].
Qed.
End examples.
