(* ===== verification/KafkaClient.v ===== *)
(** The adapter's interface over a Kafka client: [franz/] of the Kafka grant. The client
    ([kadm]) is an argument, the values that cross to it have its fields. What it promises is
    [KadmCluster]; under it the binding keeps the promises of [Kafka.KafkaCluster] that the
    adapter's theorems ask for. *)
From Stdlib Require Import SpecFloat.
From S2P Require Import Prelude Contracts Kafka.

(** ** What crosses to the client *)

(** The filter the builder makes: no operations or hosts mean any. *)
Record ACLFilter := mkACLFilter {
  af_Topics : list string;
  af_Groups : list string;
  af_Pattern : ACLResourcePatternType;
  af_Operations : list ACLOperation;
  af_Allow : list Principal;
  af_AllowHosts : list string;
  af_Deny : list Principal;
  af_DenyHosts : list string;
}.

(** An entity is keyed by types and names, a missing name is the default of its type. *)
Record AlterClientQuotaEntry := mkAlterClientQuotaEntry {
  aq_Entity : list (string * option string);
  aq_Ops : list (string * spec_float);
}.
Inductive QuotasMatchType := MatchExact | MatchDefault | MatchAny.
Record DescribeClientQuotaComponent := mkDescribeClientQuotaComponent {
  dq_Type : string;
  dq_MatchName : option string;
  dq_MatchType : QuotasMatchType;
}.
Record ResourceConfig := mkResourceConfig {
  rc_Name : string;
  rc_Configs : list (string * option string);
  rc_Err : option string;
}.

(** The calls of [kadm.Client] the binding makes. A describe of quotas answers the values of
    each entity found. [kd_On] is the method of the answer of a describe, [kd_already] is
    [errors.Is(err, kerr.TopicAlreadyExists)]. *)
Record Kadm (W : Type) := mkKadm {
  kd_CreateACLs : ACLBuilder → W → result string (list (option string)) * W;
  kd_DescribeACLs : ACLFilter → W → result string (list (option string * list ACLBinding)) * W;
  kd_AlterClientQuotas : list AlterClientQuotaEntry → W → result string (list (option string)) * W;
  kd_DescribeClientQuotas : bool → list DescribeClientQuotaComponent → W → result string (list (list (string * spec_float))) * W;
  kd_CreateTopic : Z → Z → gmap string (option string) → string → W → option string * W;
  kd_DescribeTopicConfigs : string → W → result string (list ResourceConfig) * W;
  kd_On : list ResourceConfig → string → result string ResourceConfig;
  kd_already : string → bool;
}.
Arguments kd_CreateACLs {W}.
Arguments kd_DescribeACLs {W}.
Arguments kd_AlterClientQuotas {W}.
Arguments kd_DescribeClientQuotas {W}.
Arguments kd_CreateTopic {W}.
Arguments kd_DescribeTopicConfigs {W}.
Arguments kd_On {W}.
Arguments kd_already {W}.

(** ** The binding *)

Section binding.
(** [text] is how a refusal of the binding reads. Of an error of the client its own text is
    kept, without the words put around it. *)
Context {W : Type} (client : Kadm W) (text : franz_error → string).

(** What is held for the principal at the name, allowed or denied. *)
Definition acl_filter (principal : Principal) (resourceName : string) (pattern : ACLResourcePatternType) : ACLFilter :=
  mkACLFilter [resourceName] [resourceName] pattern [] [principal] [] [principal] [].
Definition franz_DescribeACLs (principal : Principal) (resourceName : string) (pattern : ACLResourcePatternType) (w : W) :
    result string (list ACLBinding) * W :=
  let '(answer, w) := kd_DescribeACLs client (acl_filter principal resourceName pattern) w in
  (results <-? answer ; described results, w).

Definition quota_entry (alteration : QuotaAlteration) : AlterClientQuotaEntry :=
  mkAlterClientQuotaEntry [(qa_EntityType alteration, Some (qa_EntityName alteration))]
    (map (λ value, (qv_Key value, qv_Value value)) (qa_Values alteration)).
Definition franz_AlterClientQuota (alteration : QuotaAlteration) (w : W) : option string * W :=
  match kd_AlterClientQuotas client [quota_entry alteration] w with
  | (Err e, w) => (Some e, w)
  | (Ok results, w) => (first_failure results, w)
  end.

Definition franz_DescribeClientQuota (entityType entityName : string) (w : W) : result string (list QuotaValue) * W :=
  let component := mkDescribeClientQuotaComponent entityType (Some entityName) MatchExact in
  match kd_DescribeClientQuotas client true [component] w with
  | (Err e, w) => (Err e, w)
  | (Ok described, w) => (Ok (concat (map (map (λ value, mkQuotaValue value.1 value.2)) described)), w)
  end.

Definition franz_CreateTopic (spec : TopicSpec) (w : W) : option topic_error * W :=
  let '(err, w) := kd_CreateTopic client (ts_Partitions spec) (ts_ReplicationFactor spec) (Some <$> ts_Configs spec) (ts_Name spec) w in
  (mapCreateTopicError (kd_already client) err, w).

Definition franz_DescribeTopicConfig (topic : string) (w : W) : result string (gmap string string) * W :=
  match kd_DescribeTopicConfigs client topic w with
  | (Err e, w) => (Err e, w)
  | (Ok resources, w) =>
      (resource <-? kd_On client resources topic ;
       match rc_Err resource with
       | Some e => Err e
       | None => Ok (foldl (λ config entry, <[entry.1 := default "" entry.2]> config) ∅ (rc_Configs resource))
       end, w)
  end.

(** [Admin] as [kafkagrant.Admin]. *)
Definition franz_admin : Admin W := {|
  CreateACLs := λ bindings w, let '(err, w) := franz_CreateACLs (kd_CreateACLs client) bindings w in (text <$> err, w);
  DescribeACLs := franz_DescribeACLs;
  AlterClientQuota := franz_AlterClientQuota;
  DescribeClientQuota := franz_DescribeClientQuota;
  CreateTopic := franz_CreateTopic;
  DescribeTopicConfig := franz_DescribeTopicConfig;
|}.
End binding.

(** [New] panics without a client. *)
Definition franz_New {W} (client : option (Kadm W)) (text : franz_error → string) : option (Admin W) :=
  (λ client, franz_admin client text) <$> client.

(** ** What the client promises *)

Definition filter_covers (f : ACLFilter) (b : ACLBinding) : Prop :=
  ((acl_ResourceType b = RtTopic ∧ acl_ResourceName b ∈ af_Topics f) ∨ (acl_ResourceType b = RtGroup ∧ acl_ResourceName b ∈ af_Groups f)) ∧
  acl_Pattern b = af_Pattern f ∧ (af_Operations f = [] ∨ acl_Operation b ∈ af_Operations f) ∧
  ((acl_Permission b = PermAllow ∧ acl_Principal b ∈ af_Allow f ∧ (af_AllowHosts f = [] ∨ acl_Host b ∈ af_AllowHosts f)) ∨
   (acl_Permission b = PermDeny ∧ acl_Principal b ∈ af_Deny f ∧ (af_DenyHosts f = [] ∨ acl_Host b ∈ af_DenyHosts f))).

(** Besides what [Kafka.KadmClient] says of creating bindings: a cluster holds allowing and
    denying ones; a describe with a filter of literal or prefixed names answers what the
    filter covers; altering a quota sets the values it names for the entity it names, a strict
    and exact describe answers that entity's; a topic is created as it is described, and one
    that exists is left alone. *)
Class KadmCluster {W : Type} (client : Kadm W) := {
  kc_acls :: KadmClient (kd_CreateACLs client);
  kc_quota : W → string → string → gmap string spec_float;
  kc_topics : W → gmap string TopicSpec;
  kc_permission w b : b ∈ client_held w → acl_Permission b = PermAllow ∨ acl_Permission b = PermDeny;
  kc_CreateACLs_frame b w : let w' := (kd_CreateACLs client b w).2 in kc_quota w' = kc_quota w ∧ kc_topics w' = kc_topics w;
  kc_DescribeACLs f w results : af_Pattern f = PtPrefixed ∨ af_Pattern f = PtLiteral →
    (kd_DescribeACLs client f w).1 = Ok results → first_failure (map fst results) = None →
    ∀ b, b ∈ concat (map snd results) ↔ b ∈ client_held w ∧ filter_covers f b;
  kc_DescribeACLs_frame f w : let w' := (kd_DescribeACLs client f w).2 in
    client_held w' = client_held w ∧ kc_quota w' = kc_quota w ∧ kc_topics w' = kc_topics w;
  kc_AlterClientQuotas ty n ops w results :
    (kd_AlterClientQuotas client [mkAlterClientQuotaEntry [(ty, Some n)] ops] w).1 = Ok results → first_failure results = None →
    kc_quota (kd_AlterClientQuotas client [mkAlterClientQuotaEntry [(ty, Some n)] ops] w).2 ty n =
      foldl (λ m op, <[op.1 := op.2]> m) (kc_quota w ty n) ops;
  kc_AlterClientQuotas_frame es w : let w' := (kd_AlterClientQuotas client es w).2 in
    client_held w' = client_held w ∧ kc_topics w' = kc_topics w;
  kc_DescribeClientQuotas ty n w found :
    (kd_DescribeClientQuotas client true [mkDescribeClientQuotaComponent ty (Some n) MatchExact] w).1 = Ok found →
    ∀ k v, (k, v) ∈ concat found ↔ kc_quota w ty n !! k = Some v;
  kc_DescribeClientQuotas_frame strict cs w : let w' := (kd_DescribeClientQuotas client strict cs w).2 in
    client_held w' = client_held w ∧ kc_quota w' = kc_quota w ∧ kc_topics w' = kc_topics w;
  kc_CreateTopic_only p r configs n w m ts : kc_topics (kd_CreateTopic client p r configs n w).2 !! m = Some ts →
    kc_topics w !! m = Some ts ∨ (m = n ∧ ts = mkTopicSpec n p r (omap id configs) ∧ kc_topics w !! m = None);
  kc_CreateTopic_keeps p r configs n w m ts : kc_topics w !! m = Some ts → kc_topics (kd_CreateTopic client p r configs n w).2 !! m = Some ts;
  kc_CreateTopic_Ok p r configs n w : (kd_CreateTopic client p r configs n w).1 = None →
    kc_topics (kd_CreateTopic client p r configs n w).2 !! n = Some (mkTopicSpec n p r (omap id configs));
  kc_CreateTopic_exists p r configs n w e : (kd_CreateTopic client p r configs n w).1 = Some e → kd_already client e = true → is_Some (kc_topics w !! n);
  kc_CreateTopic_frame p r configs n w : let w' := (kd_CreateTopic client p r configs n w).2 in
    client_held w' = client_held w ∧ kc_quota w' = kc_quota w;
  kc_DescribeTopicConfigs_frame n w : let w' := (kd_DescribeTopicConfigs client n w).2 in
    client_held w' = client_held w ∧ kc_quota w' = kc_quota w ∧ kc_topics w' = kc_topics w;
}.

(** ** The binding keeps the interface's promises *)

Section keeps.
Context {W : Type} (client : Kadm W) (text : franz_error → string) `{!KadmCluster client}.

Lemma create_groups_frame gs w :
  let w' := (create_groups (kd_CreateACLs client) gs w).2 in kc_quota w' = kc_quota w ∧ kc_topics w' = kc_topics w.
Proof.
  revert w. induction gs as [|g gs IH]; intros w; cbn [create_groups]; [done|]. destruct (builder g) as [b|e]; [|done].
  pose proof (kc_CreateACLs_frame b w) as [Hq Ht]. destruct (kd_CreateACLs client b w) as [[rs|e] w1]; [|done].
  destruct (first_failure rs); [done|]. destruct (IH w1) as [Hq' Ht']. cbn [snd] in *. by rewrite <- Hq, <- Ht.
Qed.

(** Every binding that is created was asked for, when the names and operations of a group
    all go together. *)
Lemma franz_CreateACLs_spec bs w :
  let '(err, w') := franz_CreateACLs (kd_CreateACLs client) bs w in
  (∀ x, x ∈ client_held w → x ∈ client_held w') ∧
  (rectangular bs → ∀ x, x ∈ client_held w' → x ∈ client_held w ∨ x ∈ bs) ∧
  (err = None → ∀ x, x ∈ bs → x ∈ client_held w').
Proof.
  unfold franz_CreateACLs. pose proof (create_groups_spec (kd_CreateACLs client) (groupBindings bs) w) as Hspec.
  destruct (create_groups _ _ w) as [err w']. destruct Hspec as (Hk & Ho & He). destruct (groupBindings_spec bs) as (Hnd & Hn & Hop).
  split_and!; [done| |].
  - intros Hrect x Hx. destruct (Ho x Hx) as [?|(g & bl & Hg & Hb & Hc)]; [by left|right].
    apply (builder_combos g bl x Hb) in Hc as (Hkey & Hname & Hoper).
    apply (names_of_group _ _ _ Hnd Hg), Hn in Hname as (y & Hy & Hky & Hny).
    apply (operations_of_group _ _ _ Hnd Hg), Hop in Hoper as (z & Hz & Hkz & Hoz).
    apply (Hrect y z x); congruence.
  - intros Hnone x Hx.
    assert (acl_ResourceName x ∈ names_of (key_of_binding x) (groupBindings bs)) as Hname by (apply Hn; eauto).
    apply elem_of_flat_map in Hname as (g & Hg & Hname). case_decide as Hkey; [|by apply not_elem_of_nil in Hname].
    destruct (He Hnone g Hg) as (bl & Hb & Hall). apply Hall, (builder_combos g bl x Hb).
    split_and!; [done..|]. apply (operations_of_group _ _ _ Hnd Hg), Hop. exists x. by rewrite Hkey.
Qed.

Lemma described_Ok results l :
  described results = Ok l → first_failure (map fst results) = None ∧ l = concat (map snd results).
Proof.
  revert l. induction results as [|[[e|] found] results IH]; intros l; cbn [described map first_failure fst snd concat]; [by intros [= <-]|done|].
  rewrite rbind_Ok. intros (rest & Hrest & [= <-]). destruct (IH _ Hrest) as [? ->]. done.
Qed.

Lemma set_values_ops values m :
  foldl (λ m op, <[op.1 := op.2]> m) m (map (λ v, (qv_Key v, qv_Value v)) values) = set_values values m.
Proof. unfold set_values. revert m. induction values as [|v values IH]; intros m; [done|]. apply IH. Qed.

Lemma omap_some (m : gmap string string) : omap id (Some <$> m) = m.
Proof. apply map_eq. intros k. rewrite lookup_omap, lookup_fmap. by destruct (m !! k). Qed.

Lemma spec_eta spec : mkTopicSpec (ts_Name spec) (ts_Partitions spec) (ts_ReplicationFactor spec) (omap id (Some <$> ts_Configs spec)) = spec.
Proof. rewrite omap_some. by destruct spec. Qed.

#[export] Instance franz_keeps : KafkaCluster (franz_admin client text).
Proof.
refine {| held := client_held; quota := kc_quota; topics := kc_topics |}; simpl.
- intros bs w b Hrect. pose proof (franz_CreateACLs_spec bs w) as H. destruct (franz_CreateACLs _ bs w). destruct H as (_ & H & _). by apply H.
- intros bs w b. pose proof (franz_CreateACLs_spec bs w) as H. destruct (franz_CreateACLs _ bs w). destruct H as (H & _). apply H.
- intros bs w b. pose proof (franz_CreateACLs_spec bs w) as H. destruct (franz_CreateACLs _ bs w) as [[e|] w']; [done|]. intros _. by apply H.
- intros bs w. pose proof (create_groups_frame (groupBindings bs) w) as H. unfold franz_CreateACLs. by destruct (create_groups _ _ w).
- intros a w. unfold franz_AlterClientQuota, quota_entry.
  pose proof (kc_AlterClientQuotas (qa_EntityType a) (qa_EntityName a) (map (λ v, (qv_Key v, qv_Value v)) (qa_Values a)) w) as H.
  destruct (kd_AlterClientQuotas _ _ w) as [[rs|e] w']; simpl in *; [|done]. intros Hf. by rewrite (H rs eq_refl Hf), set_values_ops.
- intros a w. unfold franz_AlterClientQuota. pose proof (kc_AlterClientQuotas_frame [quota_entry a] w) as H.
  by destruct (kd_AlterClientQuotas _ _ w) as [[rs|e] w'].
- intros p n w l. unfold franz_DescribeACLs. pose proof (kc_DescribeACLs (acl_filter p n PtPrefixed) w) as H.
  destruct (kd_DescribeACLs _ _ w) as [[results|e] w']; simpl in *; [|done]. intros [Hf ->]%described_Ok b.
  rewrite (H results (or_introl eq_refl) eq_refl Hf). unfold filter_covers, at_prefix. simpl. rewrite !list_elem_of_singleton.
  pose proof (kc_permission w b). naive_solver.
- intros p n t w. unfold franz_DescribeACLs. pose proof (kc_DescribeACLs_frame (acl_filter p n t) w) as H. by destruct (kd_DescribeACLs _ _ w).
- intros ty n w l. unfold franz_DescribeClientQuota. pose proof (kc_DescribeClientQuotas ty n w) as H.
  destruct (kd_DescribeClientQuotas _ _ _ w) as [[found|e] w']; simpl in *; [|done]. intros [= <-] k v. rewrite <- (H found eq_refl), <- concat_map, elem_of_map.
  split; [by intros ([k' v'] & [= -> ->] & ?)|]. intros Hin. by exists (k, v).
- intros ty n w. unfold franz_DescribeClientQuota.
  pose proof (kc_DescribeClientQuotas_frame true [mkDescribeClientQuotaComponent ty (Some n) MatchExact] w) as H.
  by destruct (kd_DescribeClientQuotas _ _ _ w) as [[found|e] w'].
- intros spec w n ts. unfold franz_CreateTopic.
  pose proof (kc_CreateTopic_only (ts_Partitions spec) (ts_ReplicationFactor spec) (Some <$> ts_Configs spec) (ts_Name spec) w n ts) as H.
  rewrite spec_eta in H. by destruct (kd_CreateTopic _ _ _ _ _ w).
- intros spec w n ts. unfold franz_CreateTopic.
  pose proof (kc_CreateTopic_keeps (ts_Partitions spec) (ts_ReplicationFactor spec) (Some <$> ts_Configs spec) (ts_Name spec) w n ts) as H.
  by destruct (kd_CreateTopic _ _ _ _ _ w).
- intros spec w. unfold franz_CreateTopic.
  pose proof (kc_CreateTopic_Ok (ts_Partitions spec) (ts_ReplicationFactor spec) (Some <$> ts_Configs spec) (ts_Name spec) w) as H.
  rewrite spec_eta in H. destruct (kd_CreateTopic _ _ _ _ _ w) as [[e|] w']; simpl in *; [by destruct (kd_already client e)|]. by intros _; apply H.
- intros spec w. unfold franz_CreateTopic.
  pose proof (kc_CreateTopic_exists (ts_Partitions spec) (ts_ReplicationFactor spec) (Some <$> ts_Configs spec) (ts_Name spec) w) as H.
  destruct (kd_CreateTopic _ _ _ _ _ w) as [[e|] w']; simpl in *; [|done]. destruct (kd_already client e) eqn:E; [|done]. intros _. by apply (H e).
- intros spec w. unfold franz_CreateTopic.
  pose proof (kc_CreateTopic_frame (ts_Partitions spec) (ts_ReplicationFactor spec) (Some <$> ts_Configs spec) (ts_Name spec) w) as H.
  by destruct (kd_CreateTopic _ _ _ _ _ w).
- intros n w. unfold franz_DescribeTopicConfig. pose proof (kc_DescribeTopicConfigs_frame n w) as H.
  by destruct (kd_DescribeTopicConfigs _ _ w) as [[rs|e] w'].
Defined.

(** An onboarding that succeeds through the client leaves every planned binding in the
    cluster, and answers what the cluster holds at the prefix and the values it keeps. *)
Lemma an_onboarding_through_the_client token b now now' w a w' :
  OnboardTeam (franz_admin client text) token b now now' w = (Ok a, w') →
  (∀ x, x ∈ planned_acls b → x ∈ client_held w') ∧
  (∀ x, x ∈ ba_ACLs a ↔ x ∈ client_held w' ∧ at_prefix (b_Principal b) (b_Prefix b) x) ∧
  (∀ k v, mkQuotaValue k v ∈ ba_Quota a ↔ kc_quota w' QuotaEntityTypeUser (Principal_Name (b_Principal b)) !! k = Some v).
Proof.
  intros Hrun. destruct (onboarding_is_bounded_and_reported (franz_admin client text) token b now now' w _ _ Hrun) as [_ H].
  destruct (H a eq_refl) as (Hp & _ & _ & Ha & Hq & _). exact (conj Hp (conj Ha Hq)).
Qed.

(** A describe of a quota after it was set names each value that was set. *)
Lemma quota_read_back a w w' w'' l :
  NoDup (map qv_Key (qa_Values a)) → franz_AlterClientQuota client a w = (None, w') →
  franz_DescribeClientQuota client (qa_EntityType a) (qa_EntityName a) w' = (Ok l, w'') →
  ∀ v, v ∈ qa_Values a → v ∈ l.
Proof.
  intros Hnd Ha Hd v Hv. pose proof (AlterClientQuota_Ok (admin := franz_admin client text) a w) as H1.
  pose proof (DescribeClientQuota_Ok (admin := franz_admin client text) (qa_EntityType a) (qa_EntityName a) w') as H2.
  cbn in H1, H2. rewrite Ha in H1. rewrite Hd in H2. destruct v as [k x]. apply (H2 l eq_refl). cbn in H1. rewrite (H1 eq_refl).
  generalize (kc_quota w (qa_EntityType a) (qa_EntityName a)) as m. unfold set_values. clear -Hnd Hv.
  induction (qa_Values a) as [|[k' x'] l IH] using rev_ind; [by apply not_elem_of_nil in Hv|]. intros m. rewrite foldl_app. cbn.
  rewrite map_app in Hnd. apply NoDup_app in Hnd as (Hnd & Hnot & _). apply elem_of_app in Hv as [Hv|[= -> ->]%list_elem_of_singleton].
  - rewrite lookup_insert_ne; [by apply IH|]. intros ->. apply (Hnot k); [|by left]. apply elem_of_map. by exists (mkQuotaValue k x).
  - apply lookup_insert_eq.
Qed.
End keeps.

(** ** Examples *)

(** A client with its cluster in a record. *)
Definition demo_permitted (w : World) : list ACLBinding := filter (λ b, acl_Permission b = PermAllow ∨ acl_Permission b = PermDeny) (wd_held w).
#[export] Instance filter_covers_dec f b : base.Decision (filter_covers f b).
Proof. unfold filter_covers. apply _. Defined.
Definition demo_named (e : AlterClientQuotaEntry) : string * string :=
  match aq_Entity e with (ty, n) :: _ => (ty, default "" n) | [] => ("", "") end.
Definition demo_alter (w : World) (e : AlterClientQuotaEntry) : World :=
  mkWorld (wd_held w) (λ ty n, if decide ((ty, n) = demo_named e) then foldl (λ m op, <[op.1 := op.2]> m) (wd_quota w ty n) (aq_Ops e) else wd_quota w ty n) (wd_topics w).
Definition demo_kadm_client : Kadm World := {|
  kd_CreateACLs := λ b w, (Ok (map (λ _, None) (combos b)), mkWorld (wd_held w ++ combos b) (wd_quota w) (wd_topics w));
  kd_DescribeACLs := λ f w, (Ok [(None, filter (filter_covers f) (demo_permitted w))], w);
  kd_AlterClientQuotas := λ es w, (Ok (map (λ _, None) es), foldl demo_alter w es);
  kd_DescribeClientQuotas := λ _ cs w, (Ok (map (λ c, map_to_list (wd_quota w (dq_Type c) (default "" (dq_MatchName c)))) cs), w);
  kd_CreateTopic := λ p r configs n w,
    match wd_topics w !! n with
    | Some _ => (Some "TOPIC_ALREADY_EXISTS", w)
    | None => (None, mkWorld (wd_held w) (wd_quota w) (<[n := mkTopicSpec n p r (omap id configs)]> (wd_topics w)))
    end;
  kd_DescribeTopicConfigs := λ n w,
    (Ok (match wd_topics w !! n with
         | Some spec => [mkResourceConfig n (map (λ p, (p.1, Some p.2)) (map_to_list (ts_Configs spec))) None]
         | None => [] end), w);
  kd_On := λ resources n, match resources with r :: _ => Ok r | [] => Err "unknown topic" end;
  kd_already := λ e, e =s? "TOPIC_ALREADY_EXISTS";
|}.

Lemma demo_alter_keeps es w : wd_held (foldl demo_alter w es) = wd_held w ∧ wd_topics (foldl demo_alter w es) = wd_topics w.
Proof. revert w. induction es as [|e es IH]; intros w; [done|]. apply (IH (demo_alter w e)). Qed.

Lemma combos_allow b x : x ∈ combos b → acl_Permission x = PermAllow.
Proof.
  unfold combos. rewrite elem_of_flat_map. intros (op & _ & Hx). apply elem_of_app in Hx as [Hx|Hx]; by apply elem_of_map in Hx as (n & -> & _).
Qed.

#[refine] Instance demo_kadm_acls : KadmClient (kd_CreateACLs demo_kadm_client) := {| client_held := demo_permitted |}.
Proof.
- intros b w x. unfold demo_permitted. cbn. rewrite !list_elem_of_filter, elem_of_app. tauto.
- intros b w x. unfold demo_permitted. cbn. rewrite !list_elem_of_filter, elem_of_app. tauto.
- intros b w rs x _ _ Hx. unfold demo_permitted. cbn. rewrite list_elem_of_filter, elem_of_app. split; [left; by eapply combos_allow|by right].
Defined.

#[refine] Instance demo_kadm_cluster : KadmCluster demo_kadm_client := {| kc_acls := demo_kadm_acls; kc_quota := wd_quota; kc_topics := wd_topics |}.
Proof.
- intros w b [H _]%list_elem_of_filter. exact H.
- done.
- intros f w results _ [= <-] _ b. cbn. rewrite app_nil_r, list_elem_of_filter. tauto.
- done.
- intros ty n ops w results _ _. cbn. by rewrite decide_True.
- intros es w. destruct (demo_alter_keeps es w) as [H1 H2]. split; [unfold client_held; cbn; unfold demo_permitted; by rewrite H1|exact H2].
- intros ty n w found [= <-] k v. cbn. rewrite app_nil_r. apply elem_of_map_to_list.
- done.
- intros p r configs n w m ts. cbn. destruct (wd_topics w !! n) eqn:E; cbn; [by left|].
  destruct (decide (m = n)) as [->|Hne]; [rewrite lookup_insert_eq; intros [= <-]; by right|rewrite lookup_insert_ne by done; by left].
- intros p r configs n w m ts. cbn. destruct (wd_topics w !! n) eqn:E; cbn; [done|]. intros Hm. rewrite lookup_insert_ne; [done|congruence].
- intros p r configs n w. cbn. destruct (wd_topics w !! n) eqn:E; cbn; [done|]. intros _. apply lookup_insert_eq.
- intros p r configs n w e. cbn. destruct (wd_topics w !! n) eqn:E; cbn; [by eexists|done].
- intros p r configs n w. cbn. by destruct (wd_topics w !! n).
- done.
Defined.

Definition demo_text (e : franz_error) : string := match e with EClient what | ECreateACL what => what | _ => "refused" end.
(** The onboarding of the adapter's example, through the client. *)
Lemma demo_onboarding_through_the_client :
  match OnboardTeam (franz_admin demo_kadm_client demo_text) demo_kafka_token demo_boundary 10 11 demo_world with
  | (Ok a, w) => wd_held w = planned_acls demo_boundary ∧ ba_ACLs a = planned_acls demo_boundary ∧ GrantsCreate a = false ∧ length (ba_Quota a) = 2
  | (Err _, _) => False
  end.
Proof. vm_compute. done. Qed.
