(* ===== verification/EstateService.v ===== *)
(** Reading an estate and the adapters around it: [mantlekeep-estate/service.go],
    [read.go], [manifests.go], the two wrappers every adapter can be put in, [guarded.go]
    and [readonly.go], and the in-memory adapter [memory/memory.go].

    The computations run in the monad of [Manager]. A wrapper takes a port and is one, so
    what is proved of it composes with the manager's theorems. *)
From S2P Require Import Prelude Contracts EstateFloor Placement Manifest EstateResolve Fleet.
From S2P Require Import Reconcile Approvals Admissions Manager.

(** ** manifests.go *)

(** One atomic step each: the store's lock is held. *)
Definition MemoryManifests : Type := gmap string Manifest.
Definition Remember (byTeam : MemoryManifests) (manifest : Manifest) : MemoryManifests :=
  <[m_Team manifest := manifest]> byTeam.
Definition Recall (byTeam : MemoryManifests) (team : string) : option Manifest := byTeam !! team.

(** ** readonly.go *)

Definition ReadOnly {W} (asset : string) (port : Port W) : Port W := {|
  port_Observe := port_Observe port;
  port_Apply := λ _ change w,
    (Some (asset +:+ ": this deployment is read-only — " +:+ Quote (di_Name change) +:+
       " was governed and recorded, but no adapter here can change anything"), w);
|}.

(** ** guarded.go *)

(** What an adapter's author writes: the change, once the guards have passed. *)
Record Approved (W : Type) := mkApproved {
  apv_Asset : string;
  apv_Kinds : list string;
  apv_Observe : string → W → result string (list ObservedItem) * W;
  apv_ApplyApproved : ExecutionToken → DesiredItem → W → option string * W;
}.
Arguments mkApproved {W}.
Arguments apv_Asset {W}.
Arguments apv_Kinds {W}.
Arguments apv_Observe {W}.
Arguments apv_ApplyApproved {W}.

Definition kindSet (kinds : list string) : gset string := list_to_set kinds.

(** [time.Format] of the expiry is an argument; [now] reads the clock. *)
Definition guarded_Apply {W} (now : W → Time * W) (format : Time → string) (a : Approved W)
    (token : ExecutionToken) (change : DesiredItem) (w : W) : option string * W :=
  let asset := apv_Asset a in
  let kinds := kindSet (apv_Kinds a) in
  let not_concern := asset +:+ ": " +:+ di_Asset change +:+ "/" +:+ di_Kind change +:+
    " is not this adapter's concern" in
  if tok_Value token =s? "" then
    (Some (asset +:+ ": refusing to apply " +:+ Quote (di_Name change) +:+
       " with no execution token — the door decides, the adapter executes"), w)
  else
    let '(t, w) := now w in
    if negb (ExecutionToken_Valid token t) then
      (Some (asset +:+ ": refusing to apply " +:+ Quote (di_Name change) +:+
         " — the execution token for intent " +:+ Quote (tok_IntentID token) +:+
         " expired at " +:+ format (tok_ExpiresAt token)), w)
    else if negb (di_Asset change =s? asset) then (Some not_concern, w)
    else if negb (bool_decide (kinds = ∅)) && negb (in_set kinds (di_Kind change)) then (Some not_concern, w)
    else apv_ApplyApproved a token change w.

Definition Guarded {W} (now : W → Time * W) (format : Time → string) (a : Approved W) : Port W :=
  {| port_Observe := apv_Observe a; port_Apply := guarded_Apply now format a |}.

(** ** memory/memory.go *)

Record MemoryPort := mkMemoryPort {
  mp_asset : string;
  mp_team : string;
  mp_byKey : gmap string ObservedItem;
}.

Definition MemoryPort_New (asset team : string) : MemoryPort := mkMemoryPort asset team ∅.

(** What is kept of an applied change. *)
Definition observed_as (change : DesiredItem) : ObservedItem :=
  mkObservedItem (di_Asset change) (di_Kind change) (di_Name change) (di_Cluster change) (di_Slot change)
    (di_Limits change) (di_Readers change) (di_Image change) (di_Digest change) (di_Runtime change)
    (di_State change).

(** Its [key] and [observedKey] are those of the drift report. *)
Definition MemoryPort_Apply (format : Time → string) (now : Time) (p : MemoryPort) (token : ExecutionToken) (change : DesiredItem) :
    result string MemoryPort :=
  refuse tok_Value token =s? "" with
    "memory: refusing change " +:+ Quote (di_Name change) +:+ " with no execution token — an adapter that acts without one is acting with no decision behind it" ;
  refuse negb (ExecutionToken_Valid token now) with
    "memory: refusing change " +:+ Quote (di_Name change) +:+ " — execution token " +:+ Quote (tok_IntentID token) +:+ " expired at " +:+ format (tok_ExpiresAt token) ;
  refuse negb (di_Asset change =s? mp_asset p) with
    "memory: this adapter provisions " +:+ Quote (mp_asset p) +:+ ", not " +:+ Quote (di_Asset change) ;
  Ok (mkMemoryPort (mp_asset p) (mp_team p) (<[DesiredItem_key change := observed_as change]> (mp_byKey p))).

(** The items in an unspecified order. *)
Definition MemoryPort_Observe (p : MemoryPort) (team : string) : list ObservedItem :=
  if negb (team =s? mp_team p) then [] else (map_to_list (mp_byKey p)).*2.

Definition PlantDrift (p : MemoryPort) (item : ObservedItem) : MemoryPort :=
  mkMemoryPort (mp_asset p) (mp_team p) (<[ObservedItem_key item := item]> (mp_byKey p)).

(** ** service.go *)

Record Footprint := mkFootprint {
  fp_Team : string;
  fp_ObservedAt : Time;
  fp_Manifest : Manifest;
  fp_Desired : Desired;
  fp_Declared : bool;
  fp_Observed : list ObservedItem;
  fp_Drifts : list Drift;
}.

Inductive read_error :=
| ErrUnknownTeam
| ErrStoreFailure (team e : string)
| EReadResolve (e : resolve_error)
| EReadObserve (e : string)
| ErrNoFootprintReader
| ErrReadRefused (e : go_error).

Record Service (W : Type) := mkService {
  svc_floorOf : W → Floor * W;
  svc_ports : gmap string (Port W);
  svc_ownership : Ownership;
  svc_placerOf : W → option Placer * W;
  svc_Recall : string → W → result string (option Manifest) * W;
  svc_now : W → Time * W;
}.
Arguments mkService {W}.
Arguments svc_floorOf {W}.
Arguments svc_ports {W}.
Arguments svc_ownership {W}.
Arguments svc_placerOf {W}.
Arguments svc_Recall {W}.
Arguments svc_now {W}.

Section service.
Context {W : Type} (svc : Service W).

Definition Service_Manifest (team : string) : M W (result read_error Manifest) :=
  recalled ← world (svc_Recall svc team);
  mret match recalled with
       | Err e => Err (ErrStoreFailure team e)
       | Ok None => Err ErrUnknownTeam
       | Ok (Some manifest) => Ok manifest
       end.

(** The manifest of a team that declared nothing. *)
Definition undeclared (team : string) : Manifest := mkManifest team team "" "" [] None [] None ∅.

(** The manifest and whether it was declared: only [ErrUnknownTeam] is answered. *)
Definition declared_or_empty (team : string) (recalled : result read_error Manifest) :
    result read_error (Manifest * bool) :=
  match recalled with
  | Ok manifest => Ok (manifest, true)
  | Err ErrUnknownTeam => Ok (undeclared team, false)
  | Err e => Err e
  end.

(** The desired state: empty when nothing was declared. *)
Definition desired_of (manifest : Manifest) (declared : bool) : M W (result read_error Desired) :=
  if declared then
    floor ← world (svc_floorOf svc);
    placer ← world (svc_placerOf svc);
    placed ← placed_by (m_Team manifest) (map_to_list (svc_ports svc)) ∅;
    mret match ResolveWith manifest floor placer placed with
         | Ok desired => Ok desired
         | Err e => Err (EReadResolve e)
         end
  else mret (Ok (mkDesired "" "" [])).

Definition service_observe (team : string) : M W (result string (list ObservedItem)) :=
  observed ← observe_each team (map_to_list (svc_ports svc)) [];
  mret match observed with
       | Ok items => Ok (foldl (λ sorted x, insert_item x sorted) [] items)
       | Err e => Err e
       end.

Definition Service_Footprint (team : string) : M W (result read_error Footprint) :=
  recalled ← Service_Manifest team;
  match declared_or_empty team recalled with
  | Err e => mret (Err e)
  | Ok (manifest, declared) =>
      resolved ← desired_of manifest declared;
      match resolved with
      | Err e => mret (Err e)
      | Ok desired =>
          seen ← service_observe team;
          match seen with
          | Err e => mret (Err (EReadObserve e))
          | Ok observed =>
              t ← world (svc_now svc);
              mret (Ok (mkFootprint team t manifest desired declared observed
                          (DiffOwned desired observed (svc_ownership svc))))
          end
      end
  end.
End service.

(** ** read.go *)

Definition readIntentTTL : Duration := minute.

Section read.
Context {W : Type} (m : Manager W).

Definition intentForRead (actor : Subject) (team : string) : M W Intent :=
  t1 ← now m; t2 ← now m;
  mret {|
    int_ID := "ESTATE-READ-" +:+ team +:+ "-" +:+ Itoa (UnixNano t1);
    int_Subject := actor;
    int_Action := "estate.read";
    int_Resource := "team/" +:+ team;
    int_Spec := mkIntentSpec ("read the estate of " +:+ team) [] "" [] [] "";
    int_Params := {["scope" := VString team]};
    int_SubmittedAt := t2;
    int_TTL := readIntentTTL;
    int_Via := "";
  |}.

(** The reader a manager was given, or nil. *)
Definition Manager_Footprint (footprints : option (string → M W (result read_error Footprint)))
    (actor : Subject) (team : string) : M W (result read_error Footprint) :=
  match footprints with
  | None => mret (Err ErrNoFootprintReader)
  | Some reader =>
      intent ← intentForRead actor team;
      answer ← submit m intent;
      match answer with
      | Err err => mret (Err (ErrReadRefused err))
      | Ok _ => reader team
      end
  end.
End read.

(** ** The in-memory adapter converges *)

Definition well_keyed (p : MemoryPort) : Prop := map_Forall (λ k item, ObservedItem_key item = k) (mp_byKey p).

(** One change after another, up to the first that is refused. *)
Fixpoint apply_changes (format : Time → string) (now : Time) (p : MemoryPort) (token : ExecutionToken) (changes : list DesiredItem) :
    result string MemoryPort :=
  match changes with
  | [] => Ok p
  | change :: changes => p <-? MemoryPort_Apply format now p token change ; apply_changes format now p token changes
  end.

Lemma observed_as_key change : ObservedItem_key (observed_as change) = DesiredItem_key change.
Proof. done. Qed.

(** What an adapter kept differs in no field from what was asked of it. *)
Lemma differs_observed_as change ownership : differs change (observed_as change) ownership = [].
Proof.
  assert (∀ l : list (string * string * string), Forall (λ x, x.1.2 = x.2) l →
    flat_map (λ '(field, approved, observed), compare_field ownership field approved observed) l = []) as Hall.
  { induction 1 as [|[[f a] o] l Hx _ IH]; simpl in *; [done|]. subst o. rewrite IH, app_nil_r.
    unfold compare_field. by rewrite eqs_refl, orb_true_r. }
  apply Hall. unfold compared. rewrite !Forall_app. split; [by repeat constructor|]. split.
  - unfold fleet_fields. rewrite Forall_map. apply Forall_true. intros f. unfold state_field. by case_match.
  - simpl. destruct (di_Limits change); repeat constructor.
Qed.

Lemma MemoryPort_Apply_Ok format now p token change p' :
  MemoryPort_Apply format now p token change = Ok p' ↔
  tok_Value token ≠ "" ∧ ExecutionToken_Valid token now = true ∧ di_Asset change = mp_asset p ∧
  p' = mkMemoryPort (mp_asset p) (mp_team p) (<[DesiredItem_key change := observed_as change]> (mp_byKey p)).
Proof.
  unfold MemoryPort_Apply. rewrite !refuse_Ok, !negb_false_iff, eqs_false, eqs_true. naive_solver.
Qed.

(** Applying all of them succeeds, and then holds them over what was there. *)
Lemma apply_changes_spec format now p token changes :
  tok_Value token ≠ "" → ExecutionToken_Valid token now = true →
  Forall (λ c, di_Asset c = mp_asset p) changes → NoDup (map DesiredItem_key changes) → well_keyed p →
  ∃ p', apply_changes format now p token changes = Ok p' ∧ mp_team p' = mp_team p ∧ well_keyed p' ∧
    (∀ c, c ∈ changes → mp_byKey p' !! DesiredItem_key c = Some (observed_as c)) ∧
    (∀ k, k ∉ map DesiredItem_key changes → mp_byKey p' !! k = mp_byKey p !! k).
Proof.
  intros Hv Ht. revert p. induction changes as [|c changes IH]; intros p Ha Hnd Hk; simpl.
  { exists p. split_and!; try done. intros c Hc. by apply not_elem_of_nil in Hc. }
  apply Forall_cons in Ha as [Hac Ha]. apply NoDup_cons in Hnd as [Hc Hnd].
  set (p1 := mkMemoryPort (mp_asset p) (mp_team p) (<[DesiredItem_key c := observed_as c]> (mp_byKey p))).
  assert (MemoryPort_Apply format now p token c = Ok p1) as Hp1 by (by apply MemoryPort_Apply_Ok).
  rewrite Hp1. simpl. destruct (IH p1) as (p' & Hp' & Hteam & Hk' & Hin & Hout); [done|done|by apply map_Forall_insert_2|].
  exists p'. split_and!; [done..| |].
  - intros c' [->|Hc']%elem_of_cons; [|by apply Hin]. rewrite Hout by done. simpl. apply lookup_insert_eq.
  - intros k [Hne Hk0]%not_elem_of_cons. rewrite Hout by done. simpl. by rewrite lookup_insert_ne.
Qed.

Lemma elem_of_Observe p team item :
  well_keyed p → item ∈ MemoryPort_Observe p team ↔ team = mp_team p ∧ mp_byKey p !! ObservedItem_key item = Some item.
Proof.
  intros Hk. unfold MemoryPort_Observe. destruct (team =s? mp_team p) eqn:Ht; autorewrite with mk in Ht; simpl.
  - rewrite list_elem_of_fmap. split.
    + intros ([k x] & -> & Hx). apply elem_of_map_to_list in Hx. simpl. by rewrite (Hk k x Hx).
    + intros [_ Hx]. exists (ObservedItem_key item, item). split; [done|]. by apply elem_of_map_to_list.
  - split; [intros Hx; by apply not_elem_of_nil in Hx|by intros [? _]].
Qed.

(** Under a live token an adapter carries out every change of its asset, and an
    estate whose changes it carried out shows no drift: no approved change is absent or
    differs in any field, under any ownership of the fields; what is unexpected was there
    before and no change names it. *)
Theorem applied_estate_has_no_drift format now p token desired ownership :
  tok_Value token ≠ "" → ExecutionToken_Valid token now = true →
  Forall (λ c, di_Asset c = mp_asset p) (d_Changes desired) → NoDup (map DesiredItem_key (d_Changes desired)) →
  well_keyed p →
  ∃ p', apply_changes format now p token (d_Changes desired) = Ok p' ∧
    ∀ d, d ∈ DiffOwned desired (MemoryPort_Observe p' (mp_team p)) ownership →
      dr_Kind d = DriftUnexpected ∧ ∃ item, dr_Observed d = Some item ∧ item ∈ MemoryPort_Observe p (mp_team p) ∧
        ObservedItem_key item ∉ map DesiredItem_key (d_Changes desired).
Proof.
  intros Hv Ht Ha Hnd Hk.
  destruct (apply_changes_spec format now p token _ Hv Ht Ha Hnd Hk) as (p' & Hp' & Hteam & Hk' & Hin & Hout).
  exists p'. split; [done|]. intros d Hd. apply elem_of_DiffOwned in Hd. rewrite <- Hteam in Hd.
  destruct Hd as [want Hw Hno|want got ds Hw (before & after & Hobs & Hkey & _) -> Hne|got Hg Hno].
  - exfalso. apply (Hno (observed_as want)); [|done]. apply elem_of_Observe; [done|]. split; [done|]. by apply Hin.
  - exfalso. apply Hne. assert (got ∈ MemoryPort_Observe p' (mp_team p')) as Hg.
    { rewrite Hobs. apply elem_of_app. right. left. }
    apply elem_of_Observe in Hg as [_ Hg]; [|done]. rewrite Hkey, (Hin want Hw) in Hg. injection Hg as <-.
    apply differs_observed_as.
  - simpl. split; [done|]. exists got. split; [done|].
    assert (ObservedItem_key got ∉ map DesiredItem_key (d_Changes desired)) as Hn.
    { rewrite elem_of_map. intros (c & Hc & Hc'). by apply (Hno c Hc'). }
    split; [|done]. apply elem_of_Observe in Hg as [_ Hg]; [|done]. apply elem_of_Observe; [done|]. split; [done|].
    by rewrite <- (Hout _ Hn).
Qed.

(** ** A governed read *)

(** An estate is read only on a decision. Without a reader nothing is asked; otherwise
    the door is asked exactly once, by this subject, whether it may read this team, before
    anything is read: if it refuses, that is the whole of what happens, and the refusal is
    returned; if it allows, the answer is the reader's. *)
Theorem reads_are_decided {W} (m : Manager W) footprints actor team s res s' :
  Manager_Footprint m footprints actor team s = (res, s') →
  match footprints with
  | None => res = Err ErrNoFootprintReader ∧ s' = s
  | Some reader =>
      ∃ intent answer s1,
        int_Action intent = "estate.read" ∧ int_Subject intent = actor ∧ int_Resource intent = "team/" +:+ team ∧
        int_Params intent = {["scope" := VString team]} ∧
        st_trace s1 = st_trace s ++ [EvSubmit intent answer] ∧ st_store s1 = st_store s ∧
        match answer with
        | Err e => res = Err (ErrReadRefused e) ∧ s' = s1
        | Ok _ => reader team s1 = (res, s')
        end
  end.
Proof.
  unfold Manager_Footprint. destruct footprints as [reader|]; [|by intros [= <- <-]]. intros H.
  apply bind_inv in H as (intent & s0 & Hi & H). apply bind_inv in H as (answer & s1 & Hs & H).
  unfold intentForRead in Hi. apply bind_inv in Hi as (t1 & sa & Ha & Hi). apply bind_inv in Hi as (t2 & sb & Hb & Hi).
  apply world_inv in Ha as [Hsa Hta]. apply world_inv in Hb as [Hsb Htb]. injection Hi as Hintent <-.
  unfold submit in Hs. apply bind_inv in Hs as (x & sc & Hx & Hs). apply bind_inv in Hs as (u & sd & Hd & Hs).
  apply world_inv in Hx as [Hsc Htc]. injection Hd as _ <-. injection Hs as <- <-.
  destruct x as [token|e]; (lazymatch type of H with _ ?st = _ => eexists intent, _, st end;
    do 4 (split; [by rewrite <- Hintent|]); split; [simpl; by rewrite Htc, Htb, Hta|];
    split; [simpl; by rewrite Hsc, Hsb, Hsa|]).
  - exact H.
  - injection H as <- <-. done.
Qed.

(** ** What wrapped adapters carry out *)

Section tracked.
Context {W : Type} (m : Manager W) (log : W → list (ExecutionToken * DesiredItem)).

(** A call that carries nothing out. *)
Definition silent_call {A} (f : W → A * W) : Prop := ∀ w, log (f w).2 = log w.

(** The collaborators other than the adapters. *)
Record silent_collaborators : Prop := {
  silent_door i : silent_call (mg_door m i);
  silent_floor : silent_call (mg_floorOf m);
  silent_discoveries f d : mg_discoveries m = Some f → silent_call (f d);
  silent_manifests f x : mg_manifests m = Some f → silent_call (f x);
  silent_placer : silent_call (mg_placerOf m);
  silent_transform f team c : mg_transform m = Some f → silent_call (f team c);
  silent_now : silent_call (mg_now m);
  silent_rand : silent_call (mg_rand m);
}.

(** An adapter in one of the two wrappers. What a guarded one carries out is in the log. *)
Inductive wrapped (asset : string) : Port W → Prop :=
| wrapped_read_only p :
    (∀ team, silent_call (port_Observe p team)) → wrapped asset (ReadOnly asset p)
| wrapped_guarded now format a :
    apv_Asset a = asset → silent_call now → (∀ team, silent_call (apv_Observe a team)) →
    (∀ token change w, log (apv_ApplyApproved a token change w).2 = log w ++ [(token, change)]) →
    wrapped asset (Guarded now format a).

(** The change was for a guarded adapter, of a kind it takes, under a token it found live. *)
Definition carried_out (token : ExecutionToken) (change : DesiredItem) : Prop :=
  tok_Value token ≠ "" ∧
  ∃ now format a w, mg_ports m !! di_Asset change = Some (Guarded now format a) ∧
    ExecutionToken_Valid token (now w).1 = true ∧ (apv_Kinds a = [] ∨ di_Kind change ∈ apv_Kinds a) ∧
    ∀ asset p, Guarded now format a ≠ ReadOnly asset p.

(** A computation that adds to the log only what its trace shows being handed over. *)
Definition tracks {A} (c : M W A) : Prop := ∀ s a s', c s = (a, s') →
  ∃ tr new, st_trace s' = st_trace s ++ tr ∧ log (st_world s') = log (st_world s) ++ new ∧
    ∀ token change, (token, change) ∈ new →
      (∃ failed, EvApply token change failed ∈ tr) ∧ carried_out token change.

Lemma tracks_ret {A} (a : A) : tracks (mret a).
Proof.
  intros s x s' [= <- <-]. exists [], []. rewrite !app_nil_r. split_and!; [done..|].
  by intros ? ? ?%not_elem_of_nil.
Qed.

Lemma tracks_bind {A B} (c : M W A) (k : A → M W B) : tracks c → (∀ a, tracks (k a)) → tracks (mbind k c).
Proof.
  intros Hc Hk s b s' H. apply bind_inv in H as (a & s1 & H1 & H2).
  destruct (Hc _ _ _ H1) as (t1 & n1 & Ht1 & Hn1 & Hin1), (Hk a _ _ _ H2) as (t2 & n2 & Ht2 & Hn2 & Hin2).
  exists (t1 ++ t2), (n1 ++ n2). rewrite Ht2, Ht1, Hn2, Hn1, !app_assoc. split_and!; [done..|].
  intros token change [Hx|Hx]%elem_of_app.
  - destruct (Hin1 _ _ Hx) as [[f Hf] ?]. split; [|done]. exists f. apply elem_of_app. by left.
  - destruct (Hin2 _ _ Hx) as [[f Hf] ?]. split; [|done]. exists f. apply elem_of_app. by right.
Qed.

Lemma tracks_quiet {A} (c : M W A) :
  (∀ s a s', c s = (a, s') → ∃ tr, st_trace s' = st_trace s ++ tr ∧ log (st_world s') = log (st_world s)) → tracks c.
Proof.
  intros H s a s' Hc. destruct (H _ _ _ Hc) as (tr & Ht & Hl). exists tr, []. rewrite app_nil_r.
  split_and!; [done..|]. by intros ? ? ?%not_elem_of_nil.
Qed.

Lemma tracks_world {A} (f : W → A * W) : silent_call f → tracks (world f).
Proof.
  intros Hf. apply tracks_quiet. intros s a s'. unfold world. specialize (Hf (st_world s)).
  destruct (f (st_world s)). intros [= <- <-]. exists []. by rewrite app_nil_r.
Qed.
Lemma tracks_record e : tracks (record e).
Proof. apply tracks_quiet. intros s a s' [= <- <-]. by exists [e]. Qed.
Lemma tracks_read_store : tracks (read_store (W := W)).
Proof. apply tracks_quiet. intros s a s' [= <- <-]. exists []. by rewrite app_nil_r. Qed.
Lemma tracks_on_store {A} (f : MemoryApprovals → result approval_error (MemoryApprovals * A)) : tracks (on_store (W := W) f).
Proof.
  apply tracks_quiet. intros s a s'. unfold on_store. destruct (f (st_store s)) as [[]|]; intros [= <- <-];
    exists []; by rewrite app_nil_r.
Qed.

Context (Hc : silent_collaborators) (Hp : map_Forall wrapped (mg_ports m)).

Lemma tracks_observe asset port team : mg_ports m !! asset = Some port → tracks (world (port_Observe port team)).
Proof.
  intros Hx. apply tracks_world. destruct (Hp _ _ Hx) as [p Ho|nw format a _ _ Ho _]; exact (Ho team).
Qed.

(** Handing a change to a wrapped adapter. *)
Lemma tracks_hand_over port token change :
  mg_ports m !! di_Asset change = Some port → tracks (hand_over port token change).
Proof.
  intros Hport s failed s'. unfold hand_over, mbind, M_bind, world, record, mret, M_ret. simpl.
  destruct (port_Apply port token change (st_world s)) as [r w] eqn:Hr. intros [= <- <-]. simpl.
  exists [EvApply token change r].
  assert (log w = log (st_world s) ∨ (log w = log (st_world s) ++ [(token, change)] ∧ carried_out token change)) as [Hl|[Hl Hco]].
  { destruct (Hp _ _ Hport) as [p _|nw format a Ha Hnow _ Happly]; simpl in Hr.
    - injection Hr as _ <-. by left.
    - pose proof Hr as Hrun. unfold guarded_Apply in Hr. destruct (tok_Value token =s? "") eqn:Hv; [injection Hr as _ <-; by left|].
      pose proof (Hnow (st_world s)) as Hn. destruct (nw (st_world s)) as [t w1] eqn:Hnw. simpl in Hn.
      destruct (negb (ExecutionToken_Valid token t)) eqn:Ht; [injection Hr as _ <-; by left|].
      destruct (negb _) eqn:Hasset in Hr; [injection Hr as _ <-; by left|].
      destruct (negb _ && _) eqn:Hkind in Hr; [injection Hr as _ <-; by left|].
      right. pose proof (Happly token change w1) as Hw. rewrite Hr in Hw. simpl in Hw. rewrite Hw, Hn.
      split; [done|]. boolify. autorewrite with mk in *. split; [done|].
      exists nw, format, a, (st_world s). rewrite Hnw. split; [done|]. split; [done|].
      split; [|intros x p Heq; apply (f_equal (λ port, log (port_Apply port token change (st_world s)).2)) in Heq;
        simpl in Heq; rewrite Hrun in Heq; simpl in Heq; rewrite Hw, Hn in Heq;
        apply (f_equal length) in Heq; rewrite length_app in Heq; simpl in Heq; lia].
      unfold kindSet in Hkind. apply andb_false_iff in Hkind as [Hk|Hk]; boolify.
      + left. destruct (apv_Kinds a); [done|]. set_solver.
      + right. apply in_set_true in Hk. by apply elem_of_list_to_set in Hk. }
  - exists []. rewrite app_nil_r. split_and!; [done..|]. by intros ? ? ?%not_elem_of_nil.
  - exists [(token, change)]. split_and!; [done..|]. intros tok ch Hx. apply list_elem_of_singleton in Hx.
    injection Hx as -> ->. split; [|done]. exists r. left.
Qed.

#[local] Ltac track1 :=
  first
    [ apply tracks_ret | apply tracks_record | apply tracks_read_store | apply tracks_on_store
    | apply tracks_bind; [|intros ?]
    | apply tracks_world; solve [eapply silent_discoveries; eassumption|eapply silent_manifests; eassumption
        |eapply silent_transform; eassumption|apply Hc]
    | match goal with
      | |- tracks (match ?x with _ => _ end) => destruct x eqn:?
      | |- tracks (if ?x then _ else _) => destruct x eqn:?
      end ].
#[local] Ltac track := repeat track1.

Lemma tracks_now : tracks (now m).
Proof. apply tracks_world, Hc. Qed.

Lemma tracks_applyOne who team change floor : tracks (applyOne m who team change floor).
Proof.
  unfold applyOne. destruct (mg_ports m !! di_Asset change) as [port|] eqn:Hport; [|apply tracks_ret].
  unfold intentFor, submit, openApproval.
  repeat first [apply tracks_now|apply tracks_hand_over; exact Hport|track1].
Qed.

Lemma tracks_transformThenApply who team change floor : tracks (transformThenApply m who team change floor).
Proof.
  unfold transformThenApply, transformChange. repeat first [apply tracks_applyOne|track1].
Qed.

Lemma tracks_placed_by team ports placed :
  (∀ x, x ∈ ports → mg_ports m !! x.1 = Some x.2) → tracks (placed_by team ports placed).
Proof.
  revert placed. induction ports as [|[asset port] ports IH]; intros placed Hx; simpl; [track|].
  apply tracks_bind; [apply (tracks_observe asset); apply (Hx (asset, port)); left|intros o].
  apply IH. intros x Hin. apply Hx. by right.
Qed.

Lemma tracks_observe_each team ports items :
  (∀ x, x ∈ ports → mg_ports m !! x.1 = Some x.2) → tracks (observe_each team ports items).
Proof.
  revert items. induction ports as [|[asset port] ports IH]; intros items Hx; simpl; [track|].
  apply tracks_bind; [apply (tracks_observe asset); apply (Hx (asset, port)); left|intros [o|e]; [|track]].
  apply IH. intros x Hin. apply Hx. by right.
Qed.

Lemma ports_listed x : x ∈ map_to_list (mg_ports m) → mg_ports m !! x.1 = Some x.2.
Proof. destruct x. apply elem_of_map_to_list. Qed.

Lemma tracks_resolve_live manifest : tracks (resolve_live m manifest).
Proof.
  unfold resolve_live, placedFor. repeat first [apply tracks_placed_by; apply ports_listed|track1].
Qed.

Lemma tracks_apply_each who team floor changes outcome : tracks (apply_each m who team floor changes outcome).
Proof.
  revert outcome. induction changes as [|c changes IH]; intros outcome; simpl; [track|].
  apply tracks_bind; [apply tracks_transformThenApply|intros r; apply IH].
Qed.

Lemma tracks_reconcile_each who team floor drifts outcome escalated :
  tracks (reconcile_each m who team floor drifts outcome escalated).
Proof.
  revert outcome escalated. induction drifts as [|d drifts IH]; intros outcome escalated; simpl; [track|].
  apply tracks_bind; [unfold recordDiscovery; repeat first [apply tracks_now|track1]|intros _].
  destruct (dr_Desired d); [destruct (Correctable d)|]; try apply IH.
  apply tracks_bind; [apply tracks_transformThenApply|intros r; apply IH].
Qed.

Lemma tracks_perform_call c : tracks (perform_call m c).
Proof.
  destruct c; simpl; (apply tracks_bind; [|intros _; apply tracks_ret]);
    unfold Apply, Manager_Reconcile, ApproveCiting, Decline, remember, observeAll, get_approval, collect;
    repeat first
      [ apply tracks_resolve_live | apply tracks_apply_each | apply tracks_reconcile_each | apply tracks_applyOne
      | apply tracks_observe_each; apply ports_listed | apply tracks_now | track1 ].
Qed.

Lemma tracks_run_calls calls : tracks (run_calls m calls).
Proof.
  induction calls as [|c calls IH]; simpl; [apply tracks_ret|].
  apply tracks_bind; [apply tracks_perform_call|intros _; apply IH].
Qed.
End tracked.

(** A change that was handed over stands right after the token it was handed over under. *)
Lemma decided_elem tr token change failed :
  decided tr → EvApply token change failed ∈ tr →
  ∃ intent before after, tr = before ++ EvSubmit intent (Ok token) :: EvApply token change failed :: after ∧
    names intent change.
Proof.
  induction 1 as [|i e tr _ IH|i tok c f tr Hn _ IH]; intros Hx.
  - by apply not_elem_of_nil in Hx.
  - apply elem_of_cons in Hx as [?|Hx]; [done|]. destruct (IH Hx) as (i' & before & after & -> & ?).
    by exists i', (EvSubmit i (Err e) :: before), after.
  - apply elem_of_cons in Hx as [?|Hx]; [done|]. apply elem_of_cons in Hx as [[= -> -> ->]|Hx].
    + by exists i, [], tr.
    + destruct (IH Hx) as (i' & before & after & -> & ?).
      by exists i', (EvSubmit i (Ok tok) :: EvApply tok c f :: before), after.
Qed.

(** C10: when every adapter of a manager is wrapped, whatever its callers do through it
    (apply, reconcile, approve, decline, in any sequence) and whatever the door and the
    other collaborators answer, the adapters' own code runs only for a change the door
    issued a token for, under that very token, non-empty and unexpired when it is used, of
    the asset and a kind that adapter takes. A read-only adapter never runs any. *)
Theorem wrapped_adapters_execute_decisions {W} (m : Manager W) log calls w s' :
  silent_collaborators m log → map_Forall (wrapped log) (mg_ports m) → log w = [] →
  run_calls m calls (mkState w ∅ []) = (tt, s') →
  decided (st_trace s') ∧
  ∀ token change, (token, change) ∈ log (st_world s') →
    (∃ intent failed before after,
      st_trace s' = before ++ EvSubmit intent (Ok token) :: EvApply token change failed :: after ∧ names intent change) ∧
    carried_out m token change.
Proof.
  intros Hc Hp Hl Hrun.
  destruct (effect_run_calls m calls _ _ _ Hrun) as (tr & ops & Htr & Hd & _ & _). simpl in Htr.
  destruct (tracks_run_calls m log Hc Hp calls _ _ _ Hrun) as (tr' & new & Htr' & Hnew & Hin). simpl in *.
  rewrite Hl in Hnew. simpl in Hnew. rewrite Htr' in Htr. subst tr'. rewrite Htr', Hnew. split; [done|].
  intros token change Hx. destruct (Hin _ _ Hx) as [[failed Hf] Hco]. split; [|done].
  destruct (decided_elem _ _ _ _ Hd Hf) as (i & before & after & Heq & Hn). by exists i, failed, before, after.
Qed.

(** ** Witnesses *)

Definition demo_port_state : MemoryPort := PlantDrift (MemoryPort_New "kafka" "payments")
  (mkObservedItem "kafka" "topic" "pay.stray" "main" no_slot LOther [] "" "" "" ∅).
Definition demo_token : ExecutionToken := mkExecutionToken "tok" "I-1" "kafka/topic/pay.settlements" "" 0 100.
Definition demo_desired : Desired := mkDesired "payments" "r1" [demo_gated].

(** What was planted is all the drift that is left. *)
Lemma applied_estate_has_no_drift_witness :
  length (MemoryPort_Observe demo_port_state "payments") = 1 ∧
  ∃ p', apply_changes (λ _, "then") 50 demo_port_state demo_token [demo_gated] = Ok p' ∧
    ∀ d, d ∈ DiffOwned demo_desired (MemoryPort_Observe p' "payments") DefaultOwnership →
      dr_Kind d = DriftUnexpected ∧ ∃ item, dr_Observed d = Some item ∧
        item ∈ MemoryPort_Observe demo_port_state "payments" ∧
        ObservedItem_key item ∉ map DesiredItem_key [demo_gated].
Proof.
  split; [by vm_compute|].
  destruct (applied_estate_has_no_drift (λ _, "then") 50 demo_port_state demo_token demo_desired DefaultOwnership)
    as (p' & Hp' & Hd).
  - done.
  - by vm_compute.
  - by repeat constructor.
  - apply NoDup_singleton.
  - unfold well_keyed, demo_port_state, PlantDrift. simpl. by apply map_Forall_insert_2.
  - exists p'. split; [exact Hp'|]. injection Hp' as <-. exact Hd.
Defined.

(** A manager whose world keeps what its one guarded adapter carries out. *)
Definition demo_world : Type := Z * list (ExecutionToken * DesiredItem).
Definition on_clock {A} (f : Z → A * Z) (w : demo_world) : A * demo_world := let '(a, z) := f w.1 in (a, (z, w.2)).

Definition demo_adapter : Approved demo_world := mkApproved "kafka" ["topic"] (λ _ w, (Ok [], w))
  (λ token change w, (None, (w.1, w.2 ++ [(token, change)]))).
Definition demo_still : Port demo_world := mkPort (λ _ w, (Ok [], w)) (λ _ _ w, (None, w)).

Definition demo_wrapped : Manager demo_world := mkManager (λ i, on_clock (demo_door i))
  (<["kafka" := Guarded (on_clock (λ w, (w, w + 1)%Z)) (λ _, "then") demo_adapter]>
     (map_imap (λ asset _, Some (ReadOnly asset demo_still)) (mg_ports demo_manager)))
  (on_clock (mg_floorOf demo_manager)) None None DefaultOwnership true (on_clock (mg_placerOf demo_manager)) None
  (on_clock (mg_now demo_manager)) (on_clock (mg_rand demo_manager)).

Definition demo_wrapped_start : demo_world := (62135596800000000000%Z, []).
Definition demo_wrapped_end : state demo_world :=
  (run_calls demo_wrapped demo_calls (mkState demo_wrapped_start ∅ [])).2.

(** The one change bob's signature completed is carried out; a read-only adapter's is not. *)
Lemma wrapped_adapters_execute_decisions_witness :
  map (λ x, di_Name x.2) (st_world demo_wrapped_end).2 = ["pay.settlements"] ∧
  decided (st_trace demo_wrapped_end) ∧
  ∀ token change, (token, change) ∈ (st_world demo_wrapped_end).2 →
    (∃ intent failed before after,
      st_trace demo_wrapped_end = before ++ EvSubmit intent (Ok token) :: EvApply token change failed :: after ∧
      names intent change) ∧
    carried_out demo_wrapped token change.
Proof.
  split; [by vm_compute|].
  apply (wrapped_adapters_execute_decisions demo_wrapped snd demo_calls demo_wrapped_start).
  - split; simpl; unfold silent_call, on_clock; intros; try discriminate; try by destruct w.
    by destruct (demo_door _ _).
  - apply map_Forall_insert_2.
    + apply wrapped_guarded; [done|..]; unfold silent_call, on_clock; by intros.
    + intros asset port H. rewrite map_lookup_imap in H. destruct (mg_ports _ !! asset); [|done]. injection H as <-.
      apply wrapped_read_only. by intros ? ?.
  - done.
  - vm_compute. reflexivity.
Defined.

(** A reader over one memory adapter that holds a stray item, behind a door that says yes. *)
Definition demo_service : Service Z := mkService (λ w, (demo_rules, w))
  {["kafka" := mkPort (λ team w, (Ok (MemoryPort_Observe demo_port_state team), w)) (λ _ _ w, (None, w))]}
  DefaultOwnership (λ w, (Some demo_fleet, w)) (λ _ w, (Ok None, w)) (λ w, (w, w)).
Definition demo_reading : Manager Z := mkManager (λ i w, (Ok (mkExecutionToken "tok" (int_ID i) (int_Resource i) "" w (w + 100)), w))
  ∅ (mg_floorOf demo_manager) None None DefaultOwnership false (mg_placerOf demo_manager) None (mg_now demo_manager)
  (mg_rand demo_manager).
Definition demo_read := Manager_Footprint demo_reading (Some (Service_Footprint demo_service)) demo_alice "payments" demo_start.

(** The stray item of a team that declared nothing is found, once the door was asked. *)
Lemma reads_are_decided_witness :
  match demo_read.1 with
  | Ok footprint => (fp_Declared footprint, map dr_Kind (fp_Drifts footprint)) = (false, [DriftUnexpected])
  | Err _ => False
  end ∧
  ∃ intent answer s1,
    int_Action intent = "estate.read" ∧ int_Subject intent = demo_alice ∧ int_Resource intent = "team/payments" ∧
    int_Params intent = {["scope" := VString "payments"]} ∧
    st_trace s1 = st_trace demo_start ++ [EvSubmit intent answer] ∧ st_store s1 = st_store demo_start ∧
    match answer with
    | Err e => demo_read.1 = Err (ErrReadRefused e) ∧ demo_read.2 = s1
    | Ok _ => Service_Footprint demo_service "payments" s1 = (demo_read.1, demo_read.2)
    end.
Proof.
  split; [by vm_compute|].
  apply (reads_are_decided demo_reading (Some (Service_Footprint demo_service)) demo_alice "payments" demo_start).
  unfold demo_read. destruct (Manager_Footprint _ _ _ _ _). reflexivity.
Defined.
