(* ===== verification/DoorServer.v ===== *)
(** The door over HTTP: [mantlekeep-control/doorserver] ([doorserver.go], [identity.go],
    [authenticate.go], [govern_response.go], [audit.go], [decision_log.go]).

    A handler is a function of the request and of the world. The door behind it, the
    clock, the random source, the log, the layouts of time and the JSON codec are
    arguments. A header is found by its name in any case. *)
From S2P Require Import Prelude Contracts.

(** ** Messages *)

(** [B] is the type of bodies on the wire. *)
Record Request (B : Type) := mkRequest {
  req_Method : string;
  req_Path : string;
  req_Header : gmap string string;
  req_Cookies : gmap string string;
  req_Body : B;
}.
Arguments mkRequest {B}.
Arguments req_Method {B}.
Arguments req_Path {B}.
Arguments req_Header {B}.
Arguments req_Cookies {B}.
Arguments req_Body {B}.

Record Response (B : Type) := mkResponse {
  resp_Status : Z;
  resp_SetCookie : option (string * string);
  resp_Body : B;
}.
Arguments mkResponse {B}.
Arguments resp_Status {B}.
Arguments resp_SetCookie {B}.
Arguments resp_Body {B}.

(** [Header.Get] and [Header.Set] put the name in its canonical case. *)
Definition Header_Get {B} (request : Request B) (name : string) : string :=
  default "" (req_Header request !! ToLower name).
Definition Header_Set (name v : string) (header : gmap string string) : gmap string string :=
  <[ToLower name := v]> header.

Record wireReason := mkWireReason {
  wr_Code : string;
  wr_Message : string;
}.

(** The answer of a govern request; a key that is not written is read as its zero value. *)
Record governResponse := mkGovernResponse {
  gr_Outcome : string;
  gr_IntentID : string;
  gr_Token : string;
  gr_Expires : string;
  gr_Reasons : list wireReason;
  gr_RequiredApprovers : list string;
  gr_PolicyID : string;
}.

(** The server's [governRequest]. *)
Record governRequest := mkGovernRequest {
  gq_Action : string;
  gq_Resource : string;
  gq_Goal : string;
  gq_Env : string;
  gq_Params : gmap string value;
}.

Inductive server_body :=
| BodyGovern (r : governResponse)
| BodyAudit (intact : bool) (count : Z) (records : list (gmap string value))
| BodyUser (user : string)
| BodyError (message : string).

(** What [encoding/json] does for the server. *)
Class ServerJSON (B : Type) := {
  DecodeGovernRequest : B → result string governRequest;
  DecodeLogin : B → option string;
  EncodeBody : server_body → B;
}.

(** ** govern_response.go *)

Definition codeFloor : string := "DENY_FLOOR".
Definition codeSeparationDuties : string := "DENY_SEPARATION_OF_DUTIES".
Definition codeIdentity : string := "DENY_IDENTITY".
Definition codeActionNotAllowed : string := "DENY_ACTION_NOT_ALLOWED".
Definition codeValidation : string := "DENY_VALIDATION".
Definition codePolicyError : string := "DENY_POLICY_ERROR".

Definition categoryToWireCode : gmap string string :=
  {[DenialFloor := codeFloor; DenialSeparationOfDuties := codeSeparationDuties;
    DenialIdentity := codeIdentity; DenialActionNotAllowed := codeActionNotAllowed;
    DenialValidation := codeValidation; DenialPolicyError := codePolicyError]}.

Definition denialCode (reason : string) : string :=
  let r := ToLower reason in
  if Contains r "separation of duties" || Contains r "may not be the requester" || Contains r "approve their own"
  then codeSeparationDuties
  else if Contains r "unknown subject" || Contains r "unauthenticated" || Contains r "no caller identity"
       || Contains r "not permitted to act"
  then codeIdentity
  else if Contains r "goal is required" || Contains r "malformed" || Contains r "is required"
  then codeValidation
  else if Contains r "no role permits" || Contains r "not allowed" || Contains r "not permitted"
  then codeActionNotAllowed
  else if Contains r "exceeds" || Contains r "cap" || Contains r "unapproved" || Contains r "not an approved"
       || Contains r "requires an elevated" || Contains r "floor" || Contains r "pinned" || Contains r "sha256"
  then codeFloor
  else codePolicyError.

Definition wireCodeFor (decision : Decision) : string :=
  match categoryToWireCode !! dec_Category decision with
  | Some code => code
  | None => denialCode (dec_Reason decision)
  end.

Definition StatusOK : Z := 200.
Definition StatusBadRequest : Z := 400.
Definition StatusUnauthorized : Z := 401.
Definition StatusForbidden : Z := 403.
Definition StatusInternalServerError : Z := 500.

Definition statusForDeny (code : string) : Z :=
  if code =s? codeIdentity then StatusUnauthorized
  else if code =s? codeValidation then StatusBadRequest
  else StatusForbidden.

Definition rfc3339 : string := "2006-01-02T15:04:05Z07:00".

(** The status and the body [writeAllow] and [writeDecision] send. *)
Definition writeAllow (Format : string → Time → string) (token : ExecutionToken) : Z * governResponse :=
  (StatusOK, mkGovernResponse "allow" (tok_IntentID token) (tok_Value token)
               (Format rfc3339 (tok_ExpiresAt token)) [] [] (tok_PolicyID token)).

Definition writeDecision (decision : Decision) (intentID : string) : Z * governResponse :=
  let code := wireCodeFor decision in
  let reasons := [mkWireReason code (dec_Reason decision)] in
  if dec_Action decision =s? ActionRequireApproval
  then (StatusOK, mkGovernResponse (dec_Action decision) intentID "" "" reasons
                    (dec_RequiredApprovers decision) (dec_PolicyID decision))
  else (statusForDeny code, mkGovernResponse (dec_Action decision) intentID "" "" reasons [] (dec_PolicyID decision)).

(** A reply that names no intent: [map[string]any] with an outcome and one reason. *)
Definition without_intent (outcome code message : string) : governResponse :=
  mkGovernResponse outcome "" "" "" [mkWireReason code message] [] "".

(** ** decision_log.go *)

Record decisionLog := mkDecisionLog {
  dl_outcome : DecisionAction;
  dl_action : string;
  dl_subject : string;
  dl_via : string;
  dl_policyID : string;
  dl_category : DenialCategory;
  dl_reason : string;
}.

(** The level of the line and its attributes. *)
Definition decisionLog_emit (d : decisionLog) : string * list (string * string) :=
  let attrs := [("outcome", dl_outcome d); ("action", dl_action d); ("subject", dl_subject d);
                ("policyId", dl_policyID d)] in
  let attrs := if negb (dl_via d =s? "") then attrs ++ [("via", dl_via d)] else attrs in
  if dl_outcome d =s? ActionAllow then ("INFO", attrs)
  else ("WARN", attrs ++ [("category", dl_category d); ("reason", dl_reason d)]).

(** ** authenticate.go *)

(** [net.SplitHostPort]: the host, when the address is well formed. *)
Definition SplitHostPort (addr : string) : option string :=
  match addr with
  | String "[" rest =>
      match SplitByte "]" rest with
      | [host; port] =>
          match SplitByte ":" port with
          | [""; p] => if char_in "[" (host +:+ p) then None else Some host
          | _ => None
          end
      | _ => None
      end
  | _ =>
      match SplitByte ":" addr with
      | [host; _] => if ContainsAny addr "[]" then None else Some host
      | _ => None
      end
  end.

Definition loopbackOnly (addr : string) : bool :=
  match SplitHostPort (TrimSpace addr) with
  | None => false
  | Some host => bool_decide (ToLower host ∈ ["localhost"; "127.0.0.1"; "::1"; "[::1]"])
  end.

(** ** identity.go *)

Definition sessionCookieName : string := "mantlekeep_session".

Definition credentialHeaderNames : gset string :=
  {["authorization"; "proxy-authorization"; "cookie"; "set-cookie"; "x-api-key"; "api-key"; "x-auth-token"]}.

Inductive server_error :=
| ErrMissingDoor
| ErrNoIdentitySource
| ErrCredentialHeader (option name : string)
| ErrTrustOffLoopback (addr : string).

Inductive caller_error := ErrUnauthenticated | ErrDelegationRefused.

#[export] Instance caller_error_eq_dec : EqDecision caller_error.
Proof. solve_decision. Defined.

Definition caller_message (e : caller_error) : string :=
  match e with
  | ErrUnauthenticated => "unauthenticated: no caller identity"
  | ErrDelegationRefused => "caller is not permitted to act for another subject"
  end.

Definition checkIdentityHeader (option name : string) : result server_error unit :=
  refuse in_set credentialHeaderNames (ToLower (TrimSpace name)) with ErrCredentialHeader option name ;
  Ok tt.

Record caller := mkCaller {
  cal_subject : Subject;
  cal_via : string;
}.

(** [doorkit.Door] as the server uses it; [records] is nil for a log that cannot list. *)
Record Door (W : Type) := mkDoor {
  door_Submit : Intent → W → result go_error ExecutionToken * W;
  door_Resolve : W → ExternalIdentity → result string Subject;
  door_Verify : W → result string bool;
  door_Records : option (W → Z → result string (list AuditRecord));
}.
Arguments mkDoor {W}.
Arguments door_Submit {W}.
Arguments door_Resolve {W}.
Arguments door_Verify {W}.
Arguments door_Records {W}.

Record Options (B W : Type) := mkOptions {
  opt_Door : option (Door W);
  opt_TrustedUserHeader : string;
  opt_TrustedGroupsHeader : string;
  opt_DelegatedSubjectHeader : string;
  opt_Delegators : list string;
  opt_DevLogin : bool;
  opt_Authenticator : option (Request B → result string string);
}.
Arguments mkOptions {B W}.
Arguments opt_Door {B W}.
Arguments opt_TrustedUserHeader {B W}.
Arguments opt_TrustedGroupsHeader {B W}.
Arguments opt_DelegatedSubjectHeader {B W}.
Arguments opt_Delegators {B W}.
Arguments opt_DevLogin {B W}.
Arguments opt_Authenticator {B W}.

Definition checkIdentityTier {B W} (options : Options B W) (addr : string) (trustHeaderChosen : bool) :
    result server_error unit :=
  match opt_Authenticator options with
  | Some _ => Ok tt
  | None =>
      if (opt_TrustedUserHeader options =s? "") && negb (opt_DevLogin options) then Ok tt
      else if loopbackOnly addr then Ok tt
      else if negb trustHeaderChosen then Err (ErrTrustOffLoopback addr)
      else Ok tt
  end.

(** The server and what it holds. *)
Record Server (B W : Type) := mkServer {
  srv_door : Door W;
  srv_sessions : gmap string string;
  srv_options : Options B W;
}.
Arguments mkServer {B W}.
Arguments srv_door {B W}.
Arguments srv_sessions {B W}.
Arguments srv_options {B W}.

Definition Server_New {B W} (options : Options B W) : result server_error (Server B W) :=
  match opt_Door options with
  | None => Err ErrMissingDoor
  | Some door =>
      refuse (opt_TrustedUserHeader options =s? "") && negb (opt_DevLogin options) with ErrNoIdentitySource ;
      _ <-? checkIdentityHeader "TrustedUserHeader" (opt_TrustedUserHeader options) ;
      _ <-? checkIdentityHeader "TrustedGroupsHeader" (opt_TrustedGroupsHeader options) ;
      _ <-? checkIdentityHeader "DelegatedSubjectHeader" (opt_DelegatedSubjectHeader options) ;
      Ok (mkServer door ∅ options)
  end.

Section handlers.
Context {B W : Type} `{!ServerJSON B} (s : Server B W).
(** The clock, [crypto/rand] in hexadecimal, the layouts of time and the process log. *)
Context (Now : W → Time * W) (randomHex : Z → W → string * W) (Format : string → Time → string).
Context (slog : string * list (string * string) → W → W).

Definition authenticatedCaller (request : Request B) : option string :=
  let options := srv_options s in
  match opt_Authenticator options with
  | Some Authenticate =>
      match Authenticate request with
      | Err _ => None
      | Ok id => if TrimSpace id =s? "" then None else Some id
      end
  | None =>
      let header := opt_TrustedUserHeader options in
      let id := TrimSpace (Header_Get request header) in
      if negb (header =s? "") && negb (id =s? "") then Some id
      else if opt_DevLogin options then
        match req_Cookies request !! sessionCookieName with
        | Some cookie => srv_sessions s !! cookie
        | None => None
        end
      else None
  end.

Definition isDelegator (callerID : string) : bool :=
  existsb (λ permitted, permitted =s? callerID) (opt_Delegators (srv_options s)).

Definition assertedGroups (request : Request B) : list string :=
  if opt_TrustedGroupsHeader (srv_options s) =s? "" then []
  else let raw := Header_Get request (opt_TrustedGroupsHeader (srv_options s)) in
    if TrimSpace raw =s? "" then []
    else filter (λ name, name ≠ "") (map TrimSpace (SplitByte "," raw)).

Definition resolveUser (request : Request B) (userID : string) (w : W) : option Subject :=
  match door_Resolve (srv_door s) w (mkExternalIdentity userID (assertedGroups request) ∅) with
  | Err _ => None
  | Ok subject => Some subject
  end.

Definition resolveCaller (request : Request B) (w : W) : result caller_error caller :=
  match authenticatedCaller request with
  | None => Err ErrUnauthenticated
  | Some authenticated =>
      let header := opt_DelegatedSubjectHeader (srv_options s) in
      let delegatedID := if negb (header =s? "") then TrimSpace (Header_Get request header) else "" in
      if (delegatedID =s? "") || (delegatedID =s? authenticated) then
        match resolveUser request authenticated w with
        | None => Err ErrUnauthenticated
        | Some subject => Ok (mkCaller subject "")
        end
      else if negb (isDelegator authenticated) then Err ErrDelegationRefused
      else match resolveUser request delegatedID w with
           | None => Err ErrUnauthenticated
           | Some subject => Ok (mkCaller subject authenticated)
           end
  end.

Definition newIntentID (w : W) : string * W :=
  let '(t, w) := Now w in
  let '(hex, w) := randomHex 4 w in
  ("INT-" +:+ Format "20060102-150405" t +:+ "-" +:+ hex, w).

Definition writeJSON (status : Z) (body : server_body) : Response B :=
  mkResponse status None (EncodeBody body).

(** The intent a request asks the door about; the zero time and TTL are not set. *)
Definition intent_of (actor : caller) (intentID : string) (body : governRequest) : Intent :=
  let params := if negb (gq_Env body =s? "") then <["env" := VString (gq_Env body)]> (gq_Params body)
                else gq_Params body in
  mkIntent intentID (cal_subject actor) (gq_Action body) (gq_Resource body)
    (mkIntentSpec (gq_Goal body) [] "" [] [] "") params 0 0 (cal_via actor).

(** From the door's answer to the reply and the line that is logged, if one is. *)
Definition reply_to (actor : caller) (body : governRequest) (intentID : string)
    (answer : result go_error ExecutionToken) : Z * governResponse * option decisionLog :=
  match answer with
  | Ok token =>
      (writeAllow Format token,
       Some (mkDecisionLog ActionAllow (gq_Action body) (sub_ID (cal_subject actor)) (cal_via actor)
               (tok_PolicyID token) "" ""))
  | Err submitErr =>
      match errors_as as_DecisionError submitErr with
      | Some d =>
          (writeDecision d intentID,
           Some (mkDecisionLog (dec_Action d) (gq_Action body) (sub_ID (cal_subject actor)) (cal_via actor)
                   (dec_PolicyID d) (dec_Category d) (dec_Reason d)))
      | None => (StatusInternalServerError, without_intent "error" codePolicyError (Error submitErr), None)
      end
  end.

Definition handleGovern (request : Request B) (w : W) : Response B * W :=
  match resolveCaller request w with
  | Err err =>
      let status := if bool_decide (err = ErrDelegationRefused) then StatusForbidden else StatusUnauthorized in
      (writeJSON status (BodyGovern (without_intent "deny" codeIdentity (caller_message err))), w)
  | Ok actor =>
      match DecodeGovernRequest (req_Body request) with
      | Err err =>
          (writeJSON StatusBadRequest
             (BodyGovern (without_intent "deny" codeValidation ("malformed request: " +:+ err))), w)
      | Ok body =>
          let '(intentID, w) := newIntentID w in
          let '(answer, w) := door_Submit (srv_door s) (intent_of actor intentID body) w in
          let '(status, reply, line) := reply_to actor body intentID answer in
          (writeJSON status (BodyGovern reply), match line with Some d => slog (decisionLog_emit d) w | None => w end)
      end
  end.

(** *** audit.go *)

Definition auditRecordLimit : Z := 500.

Definition RFC3339Nano : string := "2006-01-02T15:04:05.999999999Z07:00".

(** A time is written by its own [MarshalJSON]. *)
Definition wireRecord (record : AuditRecord) : gmap string value :=
  {["timestamp" := VString (Format RFC3339Nano (rec_Timestamp record)); "subject" := VString (rec_SubjectID record);
    "action" := VString (rec_Action record); "decision" := VString (rec_Decision record);
    "policy" := VString (rec_PolicyID record); "is_ai" := VBool (rec_IsAI record);
    "via" := VString (rec_Via record); "hash" := VString (rec_Hash record);
    "prev_hash" := VString (rec_PrevHash record)]}.

Definition handleAudit (request : Request B) (w : W) : Response B :=
  match resolveCaller request w with
  | Err err => writeJSON StatusUnauthorized (BodyError (caller_message err))
  | Ok _ =>
      match door_Verify (srv_door s) w with
      | Err err => writeJSON StatusInternalServerError (BodyError ("cannot verify the chain: " +:+ err))
      | Ok intact =>
          match match door_Records (srv_door s) with
                | None => Ok []
                | Some Records => Records w auditRecordLimit
                end with
          | Err listErr => writeJSON StatusInternalServerError (BodyError ("cannot read the chain: " +:+ listErr))
          | Ok stored =>
              let records := map wireRecord stored in
              writeJSON StatusOK (BodyAudit intact (Z.of_nat (length records)) records)
          end
      end
  end.

(** *** The dev session *)

Definition expected_user : string :=
  "expected {" +:+ Quote "user" +:+ ":" +:+ Quote "…" +:+ "}".

(** The session is made under the store's lock. *)
Definition sessions_create (userID token : string) (byToken : gmap string string) : gmap string string :=
  <[token := userID]> byToken.

Definition handleDevLogin (request : Request B) (w : W) : Response B * Server B W * W :=
  let refused status message := (writeJSON status (BodyError message), s, w) in
  match DecodeLogin (req_Body request) with
  | None => refused StatusBadRequest expected_user
  | Some user =>
      if user =s? "" then refused StatusBadRequest expected_user
      else match resolveUser request user w with
      | None => refused StatusUnauthorized ("unknown subject " +:+ user)
      | Some _ =>
          let '(token, w) := randomHex 16 w in
          (mkResponse StatusOK (Some (sessionCookieName, token)) (EncodeBody (BodyUser user)),
           mkServer (srv_door s) (sessions_create user token (srv_sessions s)) (srv_options s), w)
      end
  end.

(** The routes. A request no route takes is answered by the multiplexer and calls nothing. *)
Definition Handler (request : Request B) (w : W) : option (Response B * Server B W * W) :=
  let method := req_Method request in let path := req_Path request in
  if (method =s? "POST") && (path =s? "/api/govern") then
    let '(response, w) := handleGovern request w in Some (response, s, w)
  else if ((method =s? "GET") || (method =s? "HEAD")) && (path =s? "/api/audit") then
    Some (handleAudit request w, s, w)
  else if opt_DevLogin (srv_options s) && (method =s? "POST") && (path =s? "/api/login") then
    Some (handleDevLogin request w)
  else None.
End handlers.

(** ** Wire codes *)

(** A stamped category decides the code, whatever the reason says; two categories never
    share one, and only an identity denial is answered 401, a malformed request 400. *)
Lemma stamped_category_decides d d' code :
  categoryToWireCode !! dec_Category d = Some code →
  wireCodeFor d = code ∧
  (categoryToWireCode !! dec_Category d' = Some code → dec_Category d' = dec_Category d) ∧
  (statusForDeny code = StatusUnauthorized ↔ dec_Category d = DenialIdentity) ∧
  (statusForDeny code = StatusBadRequest ↔ dec_Category d = DenialValidation).
Proof.
  unfold wireCodeFor. intros H. rewrite H. split; [done|].
  assert (∀ c x, categoryToWireCode !! c = Some x →
    In (c, x) [(DenialFloor, codeFloor); (DenialSeparationOfDuties, codeSeparationDuties);
      (DenialIdentity, codeIdentity); (DenialActionNotAllowed, codeActionNotAllowed);
      (DenialValidation, codeValidation); (DenialPolicyError, codePolicyError)]) as Hin.
  { intros c x Hx. unfold categoryToWireCode in Hx. simpl.
    repeat (apply lookup_insert_Some in Hx as [[<- <-]|[_ Hx]]; [tauto|]).
    apply lookup_singleton_Some in Hx as [<- <-]. tauto. }
  apply Hin in H. split.
  - intros H'. apply Hin in H'. simpl in H, H'. destruct_or!; simplify_eq; first [congruence|discriminate].
  - revert H. generalize (dec_Category d). intros c H. simpl in H. destruct_or!; simplify_eq;
      (split; split; intros Hx; first [done|by vm_compute in Hx]).
Qed.

(** ** Who is calling *)

Section callers.
Context {B W : Type} `{!ServerJSON B} (s : Server B W).

(** The subject the request names beside its own caller, if it may name one. *)
Definition named (request : Request B) : string :=
  if opt_DelegatedSubjectHeader (srv_options s) =s? "" then ""
  else TrimSpace (Header_Get request (opt_DelegatedSubjectHeader (srv_options s))).

(** Whom an authenticated caller speaks for: itself, or the named subject as a delegator. *)
Definition speaks_for (id : string) (request : Request B) (who via : string) : Prop :=
  (who = id ∧ via = "" ∧ (named request = "" ∨ named request = id)) ∨
  (who = named request ∧ via = id ∧ who ≠ "" ∧ who ≠ id ∧ id ∈ opt_Delegators (srv_options s)).

Lemma isDelegator_true id : isDelegator s id = true ↔ id ∈ opt_Delegators (srv_options s).
Proof.
  unfold isDelegator. rewrite existsb_true. setoid_rewrite eqs_true. naive_solver.
Qed.

Lemma resolveUser_Some request id w subject :
  resolveUser s request id w = Some subject ↔
  door_Resolve (srv_door s) w (mkExternalIdentity id (assertedGroups s request) ∅) = Ok subject.
Proof. unfold resolveUser. destruct (door_Resolve _ _ _); naive_solver. Qed.

Lemma resolveCaller_Ok request w c :
  resolveCaller s request w = Ok c ↔
  ∃ id who, authenticatedCaller s request = Some id ∧ speaks_for id request who (cal_via c) ∧
    door_Resolve (srv_door s) w (mkExternalIdentity who (assertedGroups s request) ∅) = Ok (cal_subject c).
Proof.
  unfold resolveCaller, speaks_for. destruct (authenticatedCaller s request) as [id|]; [|naive_solver].
  assert ((if negb (opt_DelegatedSubjectHeader (srv_options s) =s? "")
           then TrimSpace (Header_Get request (opt_DelegatedSubjectHeader (srv_options s))) else "") = named request) as ->
    by (unfold named; by destruct (_ =s? "")).
  destruct (named request =s? "") eqn:E1; [|destruct (named request =s? id) eqn:E2];
    autorewrite with mk in *; cbn [orb].
  1,2: setoid_rewrite <- resolveUser_Some; destruct (resolveUser s request id w) eqn:E; destruct c; simpl; split;
    [intros [= <- <-]; exists id, id; naive_solver|naive_solver|done|naive_solver].
  destruct (isDelegator s id) eqn:E3; simpl.
  - apply isDelegator_true in E3. setoid_rewrite <- resolveUser_Some.
    destruct (resolveUser s request (named request) w) eqn:E; destruct c; simpl; split; try done.
    + intros [= <- <-]. exists id, (named request). naive_solver.
    + naive_solver.
    + naive_solver.
  - split; [done|]. intros (id' & who & [= <-] & Hs & _). exfalso.
    assert (id ∉ opt_Delegators (srv_options s)) by (rewrite <- isDelegator_true; congruence). naive_solver.
Qed.
End callers.

(** ** A server over its requests *)

Section runs.
Context {B W : Type} `{!ServerJSON B}.
Context (Now : W → Time * W) (randomHex : Z → W → string * W) (Format : string → Time → string).
Context (slog : string * list (string * string) → W → W).

(** One request after another; the world moves between two of them as it likes. *)
Inductive serving (options : Options B W) : list (Request B * Response B) → Server B W → Prop :=
| serving_new s : Server_New options = Ok s → serving options [] s
| serving_request past s request w response s' w' :
    serving options past s →
    Handler s Now randomHex Format slog request w = Some (response, s', w') →
    serving options (past ++ [(request, response)]) s'.

(** How a caller's id was established, after the requests of [past]. *)
Inductive established (options : Options B W) (past : list (Request B * Response B)) (request : Request B)
    (id : string) : Prop :=
| by_authenticator Authenticate :
    opt_Authenticator options = Some Authenticate → Authenticate request = Ok id → TrimSpace id ≠ "" →
    established options past request id
| by_header :
    opt_Authenticator options = None → opt_TrustedUserHeader options ≠ "" →
    id = TrimSpace (Header_Get request (opt_TrustedUserHeader options)) → id ≠ "" →
    established options past request id
| by_session cookie login response :
    opt_Authenticator options = None → opt_DevLogin options = true →
    req_Cookies request !! sessionCookieName = Some cookie →
    (login, response) ∈ past → DecodeLogin (req_Body login) = Some id →
    resp_SetCookie response = Some (sessionCookieName, cookie) →
    established options past request id.

Definition session_of_login (past : list (Request B * Response B)) (cookie id : string) : Prop :=
  ∃ login response, (login, response) ∈ past ∧ DecodeLogin (req_Body login) = Some id ∧
    resp_SetCookie response = Some (sessionCookieName, cookie).

Lemma Server_New_Ok (options : Options B W) s :
  Server_New options = Ok s → srv_options s = options ∧ srv_sessions s = ∅ ∧ opt_Door options = Some (srv_door s).
Proof.
  unfold Server_New. destruct (opt_Door options) as [door|]; [|done]. destruct (_ && _); [done|].
  intros H. apply rbind_Ok in H as (? & _ & H). apply rbind_Ok in H as (? & _ & H). apply rbind_Ok in H as (? & _ & H).
  by injection H as <-.
Qed.

Lemma Handler_keeps (s : Server B W) request w response s' w' :
  Handler s Now randomHex Format slog request w = Some (response, s', w') →
  srv_options s' = srv_options s ∧ srv_door s' = srv_door s ∧
  ((srv_sessions s' = srv_sessions s) ∨
   ∃ cookie id, srv_sessions s' = <[cookie := id]> (srv_sessions s) ∧ DecodeLogin (req_Body request) = Some id ∧
     resp_SetCookie response = Some (sessionCookieName, cookie)).
Proof.
  unfold Handler. case_match; [destruct (handleGovern _ _ _ _ _ _ _) as [r w1]; intros [= <- <- <-]; naive_solver|].
  case_match; [intros [= <- <- <-]; naive_solver|]. case_match; [|done]. unfold handleDevLogin.
  destruct (DecodeLogin (req_Body request)) as [user|] eqn:Hd; [|intros [= <- <- <-]; naive_solver].
  case_match; [intros [= <- <- <-]; naive_solver|]. case_match; [|intros [= <- <- <-]; naive_solver].
  destruct (randomHex 16 w) as [token w1]. intros [= <- <- <-]. simpl. split_and!; [done..|]. right.
  by exists token, user.
Qed.

Lemma serving_options options past s :
  serving options past s → srv_options s = options ∧ opt_Door options = Some (srv_door s).
Proof.
  induction 1 as [s H|past s request w response s' w' _ [IH1 IH2] H].
  - apply Server_New_Ok in H. tauto.
  - apply Handler_keeps in H as (-> & -> & _). done.
Qed.

(** Every session is of a login that was served. *)
Lemma serving_sessions options past s :
  serving options past s → map_Forall (session_of_login past) (srv_sessions s).
Proof.
  induction 1 as [s H|past s request w response s' w' _ IH H].
  - apply Server_New_Ok in H as (_ & -> & _). apply map_Forall_empty.
  - assert (∀ c i, session_of_login past c i → session_of_login (past ++ [(request, response)]) c i) as Hmono.
    { intros c i (l & r & Hin & ?). exists l, r. split; [|done]. apply elem_of_app. by left. }
    apply Handler_keeps in H as (_ & _ & [->|(cookie & id & -> & Hd & Hc)]).
    + intros c i Hi. apply Hmono. by apply (IH c i).
    + apply map_Forall_insert_2; [|intros c i Hi; apply Hmono; by apply (IH c i)].
      exists request, response. split; [apply elem_of_app; right; left|done].
Qed.

Lemma authenticatedCaller_established options past s request id :
  serving options past s → authenticatedCaller s request = Some id → established options past request id.
Proof.
  intros Hs. pose proof (serving_options _ _ _ Hs) as [Ho _]. pose proof (serving_sessions _ _ _ Hs) as Hsess.
  unfold authenticatedCaller. rewrite Ho. destruct (opt_Authenticator options) as [f|] eqn:Hf.
  - destruct (f request) eqn:Hr; [|done]. destruct (_ =s? "") eqn:E; [done|]. intros [= <-].
    autorewrite with mk in E. by eapply by_authenticator.
  - destruct (negb _ && negb _) eqn:E.
    + intros [= <-]. boolify. autorewrite with mk in *. by apply by_header.
    + destruct (opt_DevLogin options) eqn:Hl; [|done]. destruct (req_Cookies request !! _) as [cookie|] eqn:Hc; [|done].
      intros Hid. destruct (Hsess _ _ Hid) as (login & response & Hin & Hd & Hset). by eapply by_session.
Qed.

(** C21: the door is asked as who really called. Of a server that served any requests, a
    govern request either does not reach the door, changes nothing and is answered with a
    deny that is no 200; or it asks the door exactly once, for the action, resource and
    goal of its body, as a subject the directory resolved. The id behind the question was
    established by the configured authenticator and nothing else; without one, by the
    trusted header or by a session a served login made for it. The subject is that id's, and
    no service is named; or it is the subject the request named, and the record will name the
    id as the service, which is one of the delegators. Whatever the door answers is sent
    back. *)
Theorem the_door_is_asked_as_who_called options past s request w response w' :
  serving options past s →
  handleGovern s Now randomHex Format slog request w = (response, w') →
  (w' = w ∧ resp_Status response ≠ StatusOK ∧
     ∃ code message, resp_Body response = EncodeBody (BodyGovern (without_intent "deny" code message))) ∨
  ∃ id who actor body intentID w1 answer w2,
    established options past request id ∧ speaks_for s id request who (cal_via actor) ∧
    door_Resolve (srv_door s) w (mkExternalIdentity who (assertedGroups s request) ∅) = Ok (cal_subject actor) ∧
    DecodeGovernRequest (req_Body request) = Ok body ∧ newIntentID Now randomHex Format w = (intentID, w1) ∧
    door_Submit (srv_door s) (intent_of actor intentID body) w1 = (answer, w2) ∧
    let '(status, reply, line) := reply_to Format actor body intentID answer in
    response = writeJSON status (BodyGovern reply) ∧
    w' = match line with Some d => slog (decisionLog_emit d) w2 | None => w2 end.
Proof.
  intros Hs. unfold handleGovern. destruct (resolveCaller s request w) as [actor|err] eqn:Hr.
  - destruct (DecodeGovernRequest (req_Body request)) as [body|err] eqn:Hb.
    + destruct (newIntentID _ _ _ w) as [intentID w1] eqn:Hi.
      destruct (door_Submit _ _ w1) as [answer w2] eqn:Hd.
      destruct (reply_to _ actor body intentID answer) as [[status reply] line] eqn:Hrep. intros [= <- <-]. right.
      apply resolveCaller_Ok in Hr as (id & who & Hid & Hsp & Hres).
      exists id, who, actor, body, intentID, w1, answer, w2. rewrite Hrep.
      split; [by eapply authenticatedCaller_established|]. done.
    + intros [= <- <-]. left. split_and!; [done..|]. by eexists _, _.
  - intros [= <- <-]. left. split_and!; [done|by destruct err|]. by eexists _, _.
Qed.
End runs.

(** ** Trust and addresses *)

(** Identity taken on trust is only served on the loopback, or where the deployment chose
    it: a check that stands alone, which neither [Server_New] nor a handler makes. *)
Lemma trust_off_loopback_is_chosen {B W} (options : Options B W) addr chosen :
  checkIdentityTier options addr chosen = Ok tt ↔
  opt_Authenticator options ≠ None ∨ (opt_TrustedUserHeader options = "" ∧ opt_DevLogin options = false) ∨
  loopbackOnly addr = true ∨ chosen = true.
Proof.
  unfold checkIdentityTier. destruct (opt_Authenticator options); [naive_solver|].
  destruct (opt_TrustedUserHeader options =s? "") eqn:E; autorewrite with mk in E;
    destruct (opt_DevLogin options), (loopbackOnly addr), chosen; simpl; naive_solver.
Qed.

Example loopback_addresses :
  map loopbackOnly ["127.0.0.1:8080"; "[::1]:80"; " LOCALHOST:1 "; ":8080"; "0.0.0.0:80"; "localhost"; "::1:80"; "[::1]"]
  = [true; true; true; false; false; false; false; false].
Proof. by vm_compute. Qed.

(** An authenticator replaces the other tiers, but a server that has nothing else is refused. *)
Example authenticator_alone_is_refused :
  let door := mkDoor (λ _ (w : Z), (Err (ErrorText ""), w)) (λ _ _, Err "") (λ _, Ok true) None in
  is_ok (Server_New (mkOptions (B := string) (Some door) "" "" "" [] false (Some (λ r, Ok (req_Body r))))) = false.
Proof. by vm_compute. Qed.

(** ** Witness *)

(** Bodies on a wire that needs no bytes. *)
Inductive demo_body :=
| DGovern (r : governRequest)
| DLogin (user : string)
| DReply (b : server_body).

#[export] Instance demo_server_json : ServerJSON demo_body := {|
  DecodeGovernRequest := λ b, match b with DGovern r => Ok r | _ => Err "not a request" end;
  DecodeLogin := λ b, match b with DLogin user => Some user | _ => None end;
  EncodeBody := DReply;
|}.

(** A door that answers everybody it knows, in a world that counts. *)
Definition demo_http_door : Door Z := mkDoor
  (λ i w, (Ok (mkExecutionToken "tok" (int_ID i) (int_Resource i) "p1" w (w + 100)), (w + 1)%Z))
  (λ _ ext, if ext_ID ext =s? "mallory" then Err "unknown" else Ok (mkSubject (ext_ID ext) [RoleOperator] (ext_Groups ext) false ∅))
  (λ _, Ok true) None.
Definition demo_http_options : Options demo_body Z :=
  mkOptions (Some demo_http_door) "X-Caller" "X-Caller-Groups" "X-On-Behalf-Of" ["estate"] true None.
Definition demo_tick (w : Z) : Time * Z := (w, w + 1)%Z.
Definition demo_hex (n w : Z) : string * Z := ("r" +:+ Itoa w, w + 1)%Z.
Definition demo_format (layout : string) (t : Time) : string := Itoa (t / 1000000000).
Definition demo_handle (s : Server demo_body Z) := Handler s demo_tick demo_hex demo_format (λ _ w, w).

Definition demo_server : Server demo_body Z := mkServer demo_http_door ∅ demo_http_options.
Definition demo_login : Request demo_body := mkRequest "POST" "/api/login" ∅ ∅ (DLogin "ana").
Definition demo_logged_in : Response demo_body * Server demo_body Z * Z :=
  default (mkResponse 0 None (DLogin ""), demo_server, 0%Z) (demo_handle demo_server demo_login 5%Z).
Definition demo_ask (header : gmap string string) : Request demo_body :=
  mkRequest "POST" "/api/govern" header {[sessionCookieName := "r5"]}
    (DGovern (mkGovernRequest "estate.apply" "team/payments" "ship it" "prod" ∅)).
Definition demo_asked := handleGovern demo_logged_in.1.2 demo_tick demo_hex demo_format (λ _ w, w) (demo_ask ∅) 10%Z.

Lemma the_door_is_asked_as_who_called_witness :
  resp_Status demo_asked.1 = StatusOK ∧
  ((demo_asked.2 = 10%Z ∧ resp_Status demo_asked.1 ≠ StatusOK ∧
     ∃ code message, resp_Body demo_asked.1 = EncodeBody (BodyGovern (without_intent "deny" code message))) ∨
   ∃ id who actor body intentID w1 answer w2,
    established demo_http_options [(demo_login, demo_logged_in.1.1)] (demo_ask ∅) id ∧
    speaks_for demo_logged_in.1.2 id (demo_ask ∅) who (cal_via actor) ∧
    door_Resolve demo_http_door 10%Z (mkExternalIdentity who (assertedGroups demo_logged_in.1.2 (demo_ask ∅)) ∅)
      = Ok (cal_subject actor) ∧
    DecodeGovernRequest (req_Body (demo_ask ∅)) = Ok body ∧ newIntentID demo_tick demo_hex demo_format 10%Z = (intentID, w1) ∧
    door_Submit demo_http_door (intent_of actor intentID body) w1 = (answer, w2) ∧
    let '(status, reply, line) := reply_to demo_format actor body intentID answer in
    demo_asked.1 = writeJSON status (BodyGovern reply) ∧ demo_asked.2 = match line with Some _ => w2 | None => w2 end).
Proof.
  split; [by vm_compute|].
  apply (the_door_is_asked_as_who_called demo_tick demo_hex demo_format (λ _ w, w) demo_http_options
    [(demo_login, demo_logged_in.1.1)] demo_logged_in.1.2 (demo_ask ∅) 10%Z demo_asked.1 demo_asked.2).
  - apply (serving_request _ _ _ _ _ [] demo_server demo_login 5%Z demo_logged_in.1.1 demo_logged_in.1.2 demo_logged_in.2).
    + apply serving_new. vm_compute. reflexivity.
    + vm_compute. reflexivity.
  - exact (surjective_pairing demo_asked).
Defined.
