(* ===== verification/DoorProgram.v ===== *)
(** The door as a program: [mantlekeep-control/doorkit] (the assembly of a door over a
    chain and a directory), the lazy first load of [internal/policy/grants_live.go], and
    [cmd/mantlekeep] ([main.go]'s choice of a role, [serve.go]).

    The world of a served door is what the process holds and an outside [U]: the clock, the
    random source and the files, of which [documents] says what a load at that moment
    gives. A panic is a mark on the world; [net/http] recovers it and the request gets no
    answer. Printing and listening are left out. *)
From S2P Require Import Prelude Contracts Cascade Grants Floors Engine Bucket AuditChain Sdk Startup PolicySources.
From S2P Require Import DoorServer.

(** ** The policy documents, read at first use *)

(** [livePolicy] and [seedOnce]. A [sync.Once] whose function panicked has run. *)
Inductive Seed :=
| Unread
| Seeded (s : grantsSnapshot)
| Spent.

(** [ensurePolicy]: [None] is a panic, of the load itself or on the nil pointer the once
    leaves behind. *)
Definition ensurePolicy (load : option grantsSnapshot) (seed : Seed) : option grantsSnapshot * Seed :=
  match seed with
  | Unread => match load with Some s => (Some s, Seeded s) | None => (None, Spent) end
  | Seeded s => (Some s, seed)
  | Spent => (None, seed)
  end.

(** What the load reads: both documents or a panic, and the snapshot they make. *)
Definition seed_load (RevisionOfDocuments : Grants → Floors → string) (MustLoad : option Grants) (MustLoadFloors : option Floors) :
    option grantsSnapshot :=
  held ← MustLoad; floors ← MustLoadFloors;
  match buildSnapshot RevisionOfDocuments (Some held) (Some floors) with Ok s => Some s | Err _ => None end.

(** Whether an evaluation reads the documents before it is decided. *)
Definition reads_policy (r : RBAC) (input : PolicyInput) : bool :=
  let intent := in_Intent input in let roles := ps_Roles (in_Subject input) in
  negb (pi_Goal intent =s? "") &&
  (ps_IsAI (in_Subject input) ||
   match (authorizerFor r input).1 ≫= λ required, required (pi_Action intent) with
   | None => negb (bool_decide (roles = []))
   | Some need =>
       holdsAtLeast (rankLadder r) roles need &&
       negb (negb (pi_Requester intent =s? "") && (pi_Requester intent =s? ps_ID (in_Subject input))) &&
       match product_denies r input with None => true | Some _ => false end
   end).

Lemma authorizerFor_byAction r input : rb_byAction (authorizerFor r input).2 = rb_byAction r ∧ rankLadder (authorizerFor r input).2 = rankLadder r.
Proof.
  unfold authorizerFor. destruct (rb_scopes r) as [scopes|]; [|done]. destruct (_ && _); [|done]. by destruct (For _ _).
Qed.

(** An evaluation that does not read the documents does not depend on them. *)
Lemma unread_is_irrelevant ParseFloat Getenv live live' r input :
  reads_policy r input = false → Evaluate ParseFloat Getenv live r input = Evaluate ParseFloat Getenv live' r input.
Proof.
  unfold reads_policy, Evaluate. destruct (_ =s? "") eqn:Hg; [done|]. cbn [negb andb].
  destruct (ps_IsAI _); [done|]. cbn [orb andb]. pose proof (authorizerFor_byAction r input) as [Hb Hl].
  destruct (authorizerFor r input) as [dyn r'] eqn:Ha. cbn [fst snd] in *. intros H. unfold actionAllowed.
  assert (product_denies r' input = product_denies r input) as Hp by (unfold product_denies; by rewrite Hb).
  destruct (dyn ≫= _) as [need|] eqn:Hd.
  - destruct dyn as [required|]; [|done]. cbn in Hd. rewrite Hd, Hl, Hp.
    destruct (holdsAtLeast _ _ _); [|done]. cbn [andb negb] in *. destruct (_ && (_ =s? _)); [done|]. cbn in H.
    by destruct (product_denies r input).
  - boolify. assert (∀ l, grantedByDocument l r' (ps_Roles (in_Subject input)) (pi_Action (in_Intent input)) = false) as Hn
      by (intros l; by rewrite H).
    destruct dyn as [required|]; cbn in Hd; rewrite ?Hd, !Hn; done.
Qed.

(** ** doorkit *)

Section kit.
Context (ParseFloat : string → option SpecFloat.spec_float) (env : gmap string string).
Context `{RecordCodec} {B : Type} `{!Bucket B} (sha256_hex : string → string).

(** The assembled door, the policy pointer of its process, and whether the request at hand
    panicked. *)
Record Kit := mkKit {
  kit_Identity : ExternalIdentity → result string Subject;
  kit_engine : RBAC;
  kit_tripped : bool;
  kit_Audit : B;
  kit_seed : Seed;
  kit_panicked : bool;
}.

Definition errNoIdentity : string := "doorkit: no identity resolver".
Definition errNoChain : string := "doorkit: no audit chain".

Definition NewDoorWithIdentity (chain : option B) (ids : option (ExternalIdentity → result string Subject))
    (dyn : list (option ActionAuthorizer)) : result string Kit :=
  match ids with
  | None => Err errNoIdentity
  | Some ids =>
      match chain with
      | None => Err errNoChain
      | Some chain =>
          let rbac := match dyn with Some d :: _ => WithDynamic NewRBAC (Some d) | _ => NewRBAC end in
          Ok (mkKit ids rbac false chain Unread false)
      end
  end.
Definition NewDoorWithAudit (chain : option B) (dyn : list (option ActionAuthorizer)) : result string Kit :=
  NewDoorWithIdentity chain (Some (Mock_Resolve NewMock)) dyn.

Context (audit_Open : string → result string B).

Definition NewInMemoryDoorWithIdentity (auditPath : string) (ids : option (ExternalIdentity → result string Subject))
    (dyn : list (option ActionAuthorizer)) : result string Kit :=
  match ids with
  | None => Err errNoIdentity
  | Some _ => aud <-? audit_Open auditPath ; NewDoorWithIdentity (Some aud) ids dyn
  end.
Definition NewInMemoryDoor (auditPath : string) (dyn : list (option ActionAuthorizer)) : result string Kit :=
  NewInMemoryDoorWithIdentity auditPath (Some (Mock_Resolve NewMock)) dyn.

Definition kit_with_seed (k : Kit) (seed : Seed) (panicked : bool) : Kit :=
  mkKit (kit_Identity k) (kit_engine k) (kit_tripped k) (kit_Audit k) seed panicked.
Definition kit_with_engine (k : Kit) (engine : RBAC) : Kit :=
  mkKit (kit_Identity k) engine (kit_tripped k) (kit_Audit k) (kit_seed k) (kit_panicked k).
Definition kit_with_audit (k : Kit) (aud : B) : Kit :=
  mkKit (kit_Identity k) (kit_engine k) (kit_tripped k) aud (kit_seed k) (kit_panicked k).

(** The fail-safe over the engine; nobody replaces the documents once they are read. *)
Definition kit_decides (k : Kit) (s : grantsSnapshot) (input : PolicyInput) : result go_error Decision * Kit :=
  let '(d, engine) := Evaluate ParseFloat (os_Getenv env) (steady s) (kit_engine k) input in (Ok d, kit_with_engine k engine).
Definition unread_snapshot : grantsSnapshot := mkGrantsSnapshot ∅ ∅ ∅ "".
Definition kit_evaluates (load : option grantsSnapshot) (k : Kit) (input : PolicyInput) : result go_error Decision * Kit :=
  if kit_tripped k then (Ok (readOnly (os_Getenv env) input), k)
  else if reads_policy (kit_engine k) input then
    match ensurePolicy load (kit_seed k) with
    | (None, seed) => (Err (ErrorText "panic"), kit_with_seed k seed true)
    | (Some s, seed) => kit_decides (kit_with_seed k seed (kit_panicked k)) s input
    end
  else kit_decides k unread_snapshot input.
Definition kit_logs (k : Kit) (rec : AuditRecord) : result go_error AuditRecord * Kit :=
  match Log sha256_hex (kit_Audit k) rec with
  | (Ok rec, b) => (Ok rec, kit_with_audit k b)
  | (Err e, b) => (Err (ErrorText e), kit_with_audit k b)
  end.

(** The world: the process and what is outside it. *)
Context {U : Type} (documents : U → option grantsSnapshot) (draw : U → (Time * Time * string) * U).

#[export] Instance kit_ports : Ports (Kit * U) := {|
  port_Resolve w := kit_Identity w.1;
  port_Evaluate w input := let '(r, k) := kit_evaluates (documents w.2) w.1 input in (r, (k, w.2));
  port_Log w rec := let '(r, k) := kit_logs w.1 rec in (r, (k, w.2));
|}.

(** The submitter, with the clock and [crypto/rand] of the moment. *)
Definition kit_Submit (intent : Intent) (w : Kit * U) : result go_error ExecutionToken * (Kit * U) :=
  let '((t_log, t_issue, token), u) := draw w.2 in
  Submit (Ports0 := kit_ports) t_log t_issue token intent (w.1, u).

Definition kit_Records (w : Kit * U) (limit : Z) : result string (list AuditRecord) :=
  match Records (kit_Audit w.1) limit with Some records => Ok records | None => Err "audit: malformed record" end.

(** [doorkit.Door], as the server holds it. *)
Definition kit_door : DoorServer.Door (Kit * U) :=
  mkDoor kit_Submit (λ w, kit_Identity w.1) (λ w, Ok (Verify sha256_hex (kit_Audit w.1))) (Some kit_Records).
End kit.
Arguments Kit B : clear implicits.
Arguments mkKit {B}.

(** ** cmd/mantlekeep *)

Definition DataDir (env : gmap string string) : string :=
  let d := os_Getenv env "MANTLEKEEP_DATA_DIR" in if d =s? "" then "mantlekeep-data" else d.

Definition envOrDefault (env : gmap string string) (key fallback : string) : string :=
  let value := os_Getenv env key in if negb (value =s? "") then value else fallback.

(** What the first argument makes of the binary; the printed refusals exit with 2. *)
Inductive role_of_binary := RoleWiring | RoleServe | RoleElsewhere | RoleSmoke.
Definition main_role (args : list string) : role_of_binary :=
  match args with
  | [] => RoleSmoke
  | a :: _ =>
      if a =s? "wiring" then RoleWiring
      else if a =s? "agent" then RoleElsewhere
      else if a =s? "serve" then RoleServe
      else if slice_contains ["run"; "products"; "publish"; "install"] a then RoleElsewhere
      else if slice_contains ["server"; "worker"] a then RoleElsewhere
      else RoleSmoke
  end.

(** What ends the process before it listens. *)
Inductive start_error :=
| ErrNobodyIdentified
| ErrDoor (e : string)
| ErrServer (e : server_error).

Section serve.
Context (ParseFloat : string → option SpecFloat.spec_float) (env : gmap string string).
Context `{RecordCodec} {B : Type} `{!Bucket B} (sha256_hex : string → string) (audit_Open : string → result string B).
Context {U : Type} (documents : U → option grantsSnapshot) (draw : U → (Time * Time * string) * U).
Context (filepath_Join : string → string → string).
Context {J : Type} `{!ServerJSON J}.

Definition the_kit_door : DoorServer.Door (Kit B * U) := kit_door ParseFloat env sha256_hex documents draw.

Definition serve_options : Options J (Kit B * U) :=
  mkOptions (Some the_kit_door) (os_Getenv env "MANTLEKEEP_USER_HEADER") ""
    (os_Getenv env "MANTLEKEEP_ON_BEHALF_OF_HEADER") (splitList (os_Getenv env "MANTLEKEEP_DELEGATORS"))
    (os_Getenv env "MANTLEKEEP_DEV_LOGIN" =s? "true") None.

(** Up to the listening: the address, the server and the process. *)
Definition runServe : result start_error (string * Server J (Kit B * U) * Kit B) :=
  let address := envOrDefault env "MANTLEKEEP_ADDR" ":8080" in
  let auditPath := envOrDefault env "MANTLEKEEP_AUDIT_PATH" (filepath_Join (DataDir env) "audit.db") in
  let userHeader := os_Getenv env "MANTLEKEEP_USER_HEADER" in
  let devLogin := os_Getenv env "MANTLEKEEP_DEV_LOGIN" =s? "true" in
  refuse (userHeader =s? "") && negb devLogin with ErrNobodyIdentified ;
  match NewInMemoryDoor audit_Open auditPath [] with
  | Err e => Err (ErrDoor e)
  | Ok kit =>
      match Server_New serve_options with
      | Err e => Err (ErrServer e)
      | Ok server => Ok (address, server, kit)
      end
  end.

(** The handler's other dealings with the outside. *)
Context (Now : U → Time * U) (randomHex : Z → U → string * U) (Format : string → Time → string).
Context (slog : string * list (string * string) → U → U).
Definition lifted {A} (f : U → A * U) (w : Kit B * U) : A * (Kit B * U) := let '(a, u) := f w.2 in (a, (w.1, u)).
Definition handle (s : Server J (Kit B * U)) (request : Request J) (w : Kit B * U) :=
  Handler s (lifted Now) (λ n, lifted (randomHex n)) Format (λ line w, (w.1, slog line w.2)) request w.

(** What the client of one request gets. *)
Inductive served_reply :=
| NoRoute
| Dropped
| Answered (r : Response J).

Definition serve_request (s : Server J (Kit B * U)) (k : Kit B) (request : Request J) (u : U) :
    served_reply * Server J (Kit B * U) * Kit B :=
  match handle s request (k, u) with
  | None => (NoRoute, s, k)
  | Some (response, s', (k', _)) =>
      if kit_panicked k' then (Dropped, s, kit_with_seed k' (kit_seed k') false) else (Answered response, s', k')
  end.

(** Requests one after another, each with the outside as it is when it arrives. *)
Fixpoint serve_all (s : Server J (Kit B * U)) (k : Kit B) (requests : list (Request J * U)) :
    list served_reply * Server J (Kit B * U) * Kit B :=
  match requests with
  | [] => ([], s, k)
  | (request, u) :: requests =>
      let '(r, s, k) := serve_request s k request u in
      let '(rs, s, k) := serve_all s k requests in (r :: rs, s, k)
  end.
End serve.

(** ** What a served door is *)

Lemma demo_directory_has_roles : map_Forall (λ _ s, sub_Roles s ≠ []) NewMock.
Proof. apply (bool_decide_unpack _). by vm_compute. Qed.

Lemma NewRBAC_unchanged ParseFloat Getenv live input : (Evaluate ParseFloat Getenv live NewRBAC input).2 = NewRBAC.
Proof.
  unfold Evaluate. destruct (_ =s? ""); [done|]. destruct (_ && _); [done|]. cbn [authorizerFor rb_scopes NewRBAC].
  destruct (negb _); [done|]. destruct (_ && _); [done|]. by repeat case_match.
Qed.

Lemma Mock_Resolve_Ok (m : gmap string Subject) ext s : Mock_Resolve m ext = Ok s ↔ m !! ext_ID ext = Some s.
Proof. unfold Mock_Resolve. destruct (m !! ext_ID ext); naive_solver. Qed.

(** Whoever the built-in directory knows and whatever goal is stated, the documents are read. *)
Lemma known_and_stated_reads subject who intent :
  NewMock !! who = Some subject → spec_Goal (int_Spec intent) ≠ "" →
  reads_policy NewRBAC (PolicyInputFor subject intent) = true.
Proof.
  intros Hs Hg. pose proof (demo_directory_has_roles _ _ Hs) as Hr. cbn in Hr. unfold reads_policy. cbn.
  rewrite (proj2 (eqs_false _ _) Hg). simpl. rewrite bool_decide_eq_false_2 by done. apply orb_true_r.
Qed.

Section served.
Context (ParseFloat : string → option SpecFloat.spec_float) (env : gmap string string).
Context `{RecordCodec} {B : Type} `{!Bucket B} (sha256_hex : string → string) (audit_Open : string → result string B).
Context {U : Type} (documents : U → option grantsSnapshot) (draw : U → (Time * Time * string) * U).
Context {J : Type} `{!ServerJSON J}.
Context (Now : U → Time * U) (randomHex : Z → U → string * U) (Format : string → Time → string).
Context (slog : string * list (string * string) → U → U).
Notation Kit_Submit := (kit_Submit ParseFloat env sha256_hex documents draw).
Notation Options_ := (serve_options ParseFloat env sha256_hex documents draw (J := J)).
Notation Serve_request := (serve_request Now randomHex Format slog).
Notation Serve_all := (serve_all Now randomHex Format slog).

(** Between two requests: the demo directory, the engine as it was made, and a chain that is
    as it was opened until the documents are read. *)
Record standing (aud0 : B) (k : Kit B) : Prop := {
  st_directory : kit_Identity k = Mock_Resolve NewMock;
  st_engine : kit_engine k = NewRBAC;
  st_untripped : kit_tripped k = false;
  st_unpanicked : kit_panicked k = false;
  st_chain : (∀ sn, kit_seed k ≠ Seeded sn) → kit_Audit k = aud0;
  st_seed sn : kit_seed k = Seeded sn → ∃ u, documents u = Some sn;
}.

(** The policy pointer only ever goes from unread to what a load gave, or to nothing. *)
Definition seed_step (seed seed' : Seed) : Prop := seed = Unread ∨ seed' = seed.

(** What the door decides about a resolved subject under the documents [sn]. *)
Definition served_decision (sn : grantsSnapshot) (subject : Subject) (intent : Intent) : Decision :=
  (Evaluate ParseFloat (os_Getenv env) (steady sn) NewRBAC (PolicyInputFor subject intent)).1.

(** An answered question, whatever the answer. Without a goal, or from somebody the demo
    directory does not know, it is refused and nothing else happens. Any other is answered by
    the decision of the plain engine under the documents in force: recorded as the newest
    entry of the chain (or refused, if the chain cannot be written), and a token exactly when
    it allows. *)
Definition answered_by_policy (k : Kit B) (intent : Intent) (r : result go_error ExecutionToken) (k' : Kit B) : Prop :=
  if decide (spec_Goal (int_Spec intent) = "") then
    r = Err (door_denies "intent rejected: intent_spec.goal is required" DenialValidation) ∧ k' = k
  else match Mock_Resolve NewMock (external_of intent) with
  | Err err => r = Err (door_denies ("intent rejected: unknown subject " +:+ Quote (sub_ID (int_Subject intent)) +:+ ": " +:+ err)
                          DenialIdentity) ∧ k' = k
  | Ok subject => ∃ sn t_log t_issue token, kit_seed k' = Seeded sn ∧
      let d := served_decision sn subject intent in
      match Log sha256_hex (kit_Audit k) (decision_record t_log subject intent d) with
      | (Ok _, chain) => kit_Audit k' = chain ∧
          r = (if decide (dec_Action d = ActionAllow)
               then Ok (mkExecutionToken token (int_ID intent) (int_Resource intent) (dec_PolicyID d) t_issue (t_issue + two_hours)%Z)
               else Err (ErrorDecision d))
      | (Err e, _) => kit_Audit k' = kit_Audit k ∧ r = Err (ErrorWrap ("audit error: " +:+ e) [ErrorText e])
      end
  end.

Lemma kit_evaluates_reading load (k : Kit B) input :
  kit_tripped k = false → kit_engine k = NewRBAC → reads_policy NewRBAC input = true →
  kit_evaluates ParseFloat env load k input =
  match ensurePolicy load (kit_seed k) with
  | (None, seed) => (@Err go_error Decision (ErrorText "panic"), kit_with_seed k seed true)
  | (Some sn, seed) =>
      (Ok (Evaluate ParseFloat (os_Getenv env) (steady sn) NewRBAC input).1, kit_with_seed k seed (kit_panicked k))
  end.
Proof.
  intros Ht He Hr. unfold kit_evaluates. rewrite Ht, He, Hr. destruct (ensurePolicy load (kit_seed k)) as [[sn|] seed]; [|done].
  unfold kit_decides. cbn [kit_engine kit_with_seed]. rewrite He.
  pose proof (NewRBAC_unchanged ParseFloat (os_Getenv env) (steady sn) input) as Hu.
  destruct (Evaluate _ _ _ _ _) as [d engine]. cbn in Hu. subst engine. cbn. by rewrite <- He.
Qed.

Lemma ensurePolicy_step load seed o seed' : ensurePolicy load seed = (o, seed') →
  seed_step seed seed' ∧ (∀ sn, o = Some sn ↔ seed' = Seeded sn) ∧ (∀ sn, o = Some sn → seed = Seeded sn ∨ load = Some sn) ∧
  (o = None → seed' = Spent).
Proof. unfold ensurePolicy, seed_step. destruct seed; [destruct load|..]; intros [= <- <-]; naive_solver. Qed.

(** The door is standing once the policy pointer moved on. *)
Lemma standing_after aud0 k load o seed u : standing aud0 k → ensurePolicy load (kit_seed k) = (o, seed) → load = documents u →
  standing aud0 (kit_with_seed k seed false).
Proof.
  intros [H1 H2 H3 H4 H5 H6] He ->. apply ensurePolicy_step in He as (Hstep & Ho & Hsn & _). split; cbn; [done..| |].
  - intros Hno. apply H5. intros sn Hk. destruct Hstep as [Hu|Hs]; [congruence|]. apply (Hno sn). congruence.
  - intros sn Hseed. destruct (Hsn sn) as [Hk|Hl]; [by apply Ho|by apply H6|by eexists].
Qed.

(** A chain that grows does so under the documents that were read. *)
Lemma standing_logged aud0 k sn b : standing aud0 k → kit_seed k = Seeded sn → standing aud0 (kit_with_audit k b).
Proof. intros [H1 H2 H3 H4 H5 H6] Hs. split; cbn; [done..| |done]. intros Hno. by destruct (Hno sn). Qed.

(** A question to the standing door leaves it standing; a panic is no answer. *)
Lemma kit_Submit_standing aud0 k intent u r k' u' :
  standing aud0 k → Kit_Submit intent (k, u) = (r, (k', u')) →
  seed_step (kit_seed k) (kit_seed k') ∧ standing aud0 (kit_with_seed k' (kit_seed k') false) ∧
  (kit_panicked k' = false → answered_by_policy k intent r k') ∧
  (kit_panicked k' = true → kit_seed k' = Spent) ∧
  (kit_seed k = Spent → is_Some (NewMock !! sub_ID (int_Subject intent)) → spec_Goal (int_Spec intent) ≠ "" →
   kit_panicked k' = true).
Proof.
  intros Hst. unfold kit_Submit. destruct (draw _) as [[[t_log t_issue] token] u1]. cbn [fst snd].
  set (ports := kit_ports _ _ _ _).
  pose proof (Submit_submitted (Ports0 := ports) t_log t_issue token intent (k, u1)) as Hsub. cbv zeta in Hsub.
  intros Hr. rewrite Hr in Hsub. cbn [fst snd] in Hsub.
  assert (standing aud0 (kit_with_seed k (kit_seed k) false)) as Hst0.
  { destruct Hst. by split. }
  assert (∀ subject, port_Resolve (k, u1) (external_of intent) = Ok subject → spec_Goal (int_Spec intent) ≠ "" →
    NewMock !! sub_ID (int_Subject intent) = Some subject ∧
    port_Evaluate (k, u1) (PolicyInputFor subject intent) =
      match ensurePolicy (documents u1) (kit_seed k) with
      | (None, seed) => (@Err go_error Decision (ErrorText "panic"), (kit_with_seed k seed true, u1))
      | (Some sn, seed) => (Ok (served_decision sn subject intent), (kit_with_seed k seed false, u1))
      end) as Heval.
  { intros subject Hres Hgoal. cbn [port_Resolve ports kit_ports fst] in Hres.
    rewrite (st_directory _ _ Hst), Mock_Resolve_Ok in Hres. split; [done|]. cbn [port_Evaluate ports kit_ports fst snd].
    rewrite kit_evaluates_reading; [|apply Hst|apply Hst|by eapply known_and_stated_reads].
    destruct (ensurePolicy _ _) as [[sn|] seed]; [|done]. by rewrite (st_unpanicked _ _ Hst). }
  destruct (ensurePolicy (documents u1) (kit_seed k)) as [o seed] eqn:He.
  pose proof (ensurePolicy_step _ _ _ _ He) as (Hstep & Ho & _ & Hno).
  inversion Hsub as [Hg|err Hg Hres|subject err w1 Hg Hres Hev|subject d err w1 w2 Hg Hres Hev Hlog|subject d rec w1 w2 Hg Hres Hev Hlog];
    subst; clear Hsub.
  - split_and!; [by right|done| |by rewrite (st_unpanicked _ _ Hst)|by intros _ _ ?].
    intros _. unfold answered_by_policy. by rewrite decide_True by done.
  - cbn [port_Resolve ports kit_ports fst] in Hres. rewrite (st_directory _ _ Hst) in Hres.
    split_and!; [by right|done| |by rewrite (st_unpanicked _ _ Hst)|].
    + intros _. unfold answered_by_policy. rewrite decide_False by done. by rewrite Hres.
    + intros _ [s Hm] _. by rewrite (proj2 (Mock_Resolve_Ok NewMock (external_of intent) s) Hm) in Hres.
  - destruct (Heval subject Hres Hg) as [Hm Hev']. rewrite Hev in Hev'. destruct o as [sn|]; [done|]. injection Hev' as -> -> ->.
    split_and!; [done|exact (standing_after aud0 k _ _ seed u1 Hst He eq_refl)|done|by intros _; apply Hno|done].
  - destruct (Heval subject Hres Hg) as [Hm Hev']. rewrite Hev in Hev'. destruct o as [sn|]; [|done]. injection Hev' as -> ->.
    pose proof (proj1 (Ho sn) eq_refl) as ->.
    cbn in Hlog. unfold kit_logs in Hlog. cbn in Hlog. destruct (Log _ _ _) as [[?|e] b] eqn:Hl; [done|]. injection Hlog as <- <- <-.
    pose proof Hl as Hb. apply Log_Err in Hb as ->. cbn. split_and!; [done| | |done|].
    + exact (standing_after aud0 k _ _ _ u1 Hst He eq_refl).
    + intros _. unfold answered_by_policy. rewrite decide_False by done. rewrite (proj2 (Mock_Resolve_Ok NewMock (external_of intent) subject) Hm).
      exists sn, t_log, t_issue, token. split; [done|]. cbv zeta. by rewrite Hl.
    + intros Hsp. rewrite Hsp in He. by injection He.
  - destruct (Heval subject Hres Hg) as [Hm Hev']. rewrite Hev in Hev'. destruct o as [sn|]; [|done]. injection Hev' as -> ->.
    cbn in Hlog. unfold kit_logs in Hlog. cbn in Hlog. destruct (Log _ _ _) as [[rec'|e] b] eqn:Hl; [|done]. injection Hlog as <- <- <-.
    pose proof (proj1 (Ho sn) eq_refl) as ->. cbn. split_and!; [done| | |done|].
    + eapply (standing_logged aud0 (kit_with_seed k (Seeded sn) false) sn b);
        [exact (standing_after aud0 k _ _ _ u1 Hst He eq_refl)|done].
    + intros _. unfold answered_by_policy. rewrite decide_False by done. rewrite (proj2 (Mock_Resolve_Ok NewMock (external_of intent) subject) Hm).
      exists sn, t_log, t_issue, token. split; [done|]. cbv zeta. by rewrite Hl.
    + intros Hsp. rewrite Hsp in He. by injection He.
Qed.

Lemma seed_step_trans a b c : seed_step a b → seed_step b c → seed_step a c.
Proof. unfold seed_step. intros [->| ->] [->| ->]; auto. Qed.

(** What one request does to the process: nothing, or one question to the door. *)
Lemma handle_kit (s : Server J (Kit B * U)) request k u response s' k' u' :
  srv_door s = the_kit_door ParseFloat env sha256_hex documents draw →
  handle Now randomHex Format slog s request (k, u) = Some (response, s', (k', u')) →
  k' = k ∨ ∃ intent u1 r u2, Kit_Submit intent (k, u1) = (r, (k', u2)).
Proof.
  intros Hd. unfold handle, Handler. case_match.
  - unfold handleGovern. destruct (resolveCaller _ _ _) as [actor|err]; [|intros [= _ _ <- _]; by left].
    destruct (DecodeGovernRequest _) as [body|]; [|intros [= _ _ <- _]; by left].
    unfold newIntentID, lifted. cbn [fst snd]. destruct (Now u) as [t u1]. cbn [fst snd]. destruct (randomHex 4 u1) as [hex u2].
    rewrite Hd. destruct (door_Submit _ _ _) as [answer [k2 u3]] eqn:Hs. destruct (reply_to _ _ _ _ _) as [[status reply] line].
    intros [= _ _ Hw]. right. assert (k2 = k') as <- by (destruct line; by injection Hw). eexists _, u2, answer, u3. exact Hs.
  - case_match; [intros [= _ _ <- _]; by left|]. case_match; [|done]. unfold handleDevLogin.
    destruct (DecodeLogin _) as [user|]; [|intros [= _ _ <- _]; by left]. case_match; [intros [= _ _ <- _]; by left|].
    destruct (resolveUser _ _ _ _); [|intros [= _ _ <- _]; by left]. unfold lifted. cbn [fst snd].
    destruct (randomHex 16 u). intros [= _ _ <- _]. by left.
Qed.

Definition serving_kit (aud0 : B) (options : Options J (Kit B * U)) (s : Server J (Kit B * U)) (k : Kit B) : Prop :=
  standing aud0 k ∧ srv_options s = options ∧ srv_door s = the_kit_door ParseFloat env sha256_hex documents draw.

Lemma serve_request_standing aud0 options s k request u reply s' k' :
  serving_kit aud0 options s k → Serve_request s k request u = (reply, s', k') →
  serving_kit aud0 options s' k' ∧ seed_step (kit_seed k) (kit_seed k') ∧ (reply = Dropped → kit_seed k' = Spent).
Proof.
  intros (Hst & Ho & Hd). unfold serve_request.
  destruct (handle _ _ _ _ s request (k, u)) as [[[response s1] [k1 u1]]|] eqn:Hh;
    [|intros [= <- <- <-]; split; [done|]; split; [by right|done]].
  pose proof (Handler_keeps _ _ _ _ _ _ _ _ _ _ Hh) as (Ho' & Hd' & _).
  apply (handle_kit _ _ _ _ _ _ _ _ Hd) in Hh as [->|(intent & u2 & r & u3 & Hs)].
  - rewrite (st_unpanicked _ _ Hst). intros [= <- <- <-]. split; [|split; [by right|done]].
    split_and!; [done|congruence|congruence].
  - destruct (kit_Submit_standing aud0 _ _ _ _ _ _ Hst Hs) as (Hstep & Hst' & _ & Hp & _).
    destruct (kit_panicked k1) eqn:Hpk; intros [= <- <- <-].
    + split; [by split|]. split; [done|]. intros _. by apply Hp.
    + split; [|by split]. split_and!; [|congruence|congruence]. destruct Hst'. by split.
Qed.

Lemma serve_all_standing aud0 options requests : ∀ s k replies s' k',
  serving_kit aud0 options s k → Serve_all s k requests = (replies, s', k') →
  serving_kit aud0 options s' k' ∧ seed_step (kit_seed k) (kit_seed k') ∧ (Dropped ∈ replies → kit_seed k' = Spent).
Proof.
  induction requests as [|[request u] requests IH]; intros s k replies s' k' Hs; cbn [serve_all].
  - intros [= <- <- <-]. split; [done|]. split; [by right|by intros ?%not_elem_of_nil].
  - destruct (serve_request _ _ _ _ s k request u) as [[r s1] k1] eqn:Hr.
    destruct (serve_all _ _ _ _ s1 k1 requests) as [[rs s2] k2] eqn:Hrs. intros [= <- <- <-].
    destruct (serve_request_standing _ _ _ _ _ _ _ _ _ Hs Hr) as (Hs1 & Hstep1 & Hd1).
    destruct (IH _ _ _ _ _ Hs1 Hrs) as (Hs2 & Hstep2 & Hd2). split; [done|]. split; [by eapply seed_step_trans|].
    rewrite elem_of_cons. intros [Hr1|Hin]; [|by apply Hd2]. specialize (Hd1 (eq_sym Hr1)).
    destruct Hstep2 as [Hu|Hu]; congruence.
Qed.

Lemma runServe_Ok filepath_Join address s k :
  runServe (J := J) ParseFloat env sha256_hex audit_Open documents draw filepath_Join = Ok (address, s, k) →
  (os_Getenv env "MANTLEKEEP_USER_HEADER" ≠ "" ∨ os_Getenv env "MANTLEKEEP_DEV_LOGIN" = "true") ∧
  serving_kit (kit_Audit k) Options_ s k ∧ kit_seed k = Unread.
Proof.
  unfold runServe, NewInMemoryDoor, NewInMemoryDoorWithIdentity, NewDoorWithIdentity.
  destruct ((_ =s? "") && _) eqn:Hid; [done|]. destruct (audit_Open _) as [aud|]; [|done]. cbn [rbind].
  destruct (Server_New _) as [server|] eqn:Hs; [|done]. intros [= _ <- <-].
  apply Server_New_Ok in Hs as (Ho & _ & Hd). split.
  { destruct (os_Getenv env "MANTLEKEEP_USER_HEADER" =s? "") eqn:E; autorewrite with mk in E; [|by left].
    right. cbn in Hid. apply negb_false_iff, eqs_true in Hid. done. }
  split; [|done]. split; [by split|]. split; [done|]. by injection Hd.
Qed.

(** C27: a served door decides everything on one policy, for the built-in directory. When
    [mantlekeep serve] comes to listen, it was told how callers are identified. Whatever
    requests it then serves, and however the files change meanwhile: no group a request
    asserts is read; the documents, once a question was decided by them, are those of that
    one load for good, and until then the chain is as it was opened. Every question that gets
    an answer gets the one those documents decide, allowed or refused ([answered_by_policy]):
    without a goal, or from anybody who is not in the demo directory, it is refused without
    them. A request is left without an answer only because the documents could not be read,
    and then no question with a goal by a person of the demo directory is ever answered
    again; the others are still refused. *)
Theorem served_door_decides_on_one_policy filepath_Join address s0 k0 requests replies s k :
  runServe (J := J) ParseFloat env sha256_hex audit_Open documents draw filepath_Join = Ok (address, s0, k0) →
  Serve_all s0 k0 requests = (replies, s, k) →
  (os_Getenv env "MANTLEKEEP_USER_HEADER" ≠ "" ∨ os_Getenv env "MANTLEKEEP_DEV_LOGIN" = "true") ∧
  (∀ request, assertedGroups s request = []) ∧
  (∀ sn, kit_seed k = Seeded sn → ∃ u, documents u = Some sn) ∧
  ((∀ sn, kit_seed k ≠ Seeded sn) → kit_Audit k = kit_Audit k0) ∧
  (∀ more replies' s' k', Serve_all s k more = (replies', s', k') → kit_seed k ≠ Unread → kit_seed k' = kit_seed k) ∧
  (∀ intent u r w', door_Submit (srv_door s) intent (k, u) = (r, w') →
     (kit_seed k ≠ Unread → kit_seed w'.1 = kit_seed k) ∧ (kit_panicked w'.1 = false → answered_by_policy k intent r w'.1)) ∧
  (Dropped ∈ replies → kit_seed k = Spent) ∧
  (kit_seed k = Spent → ∀ intent u, is_Some (NewMock !! sub_ID (int_Subject intent)) → spec_Goal (int_Spec intent) ≠ "" →
     kit_panicked (door_Submit (srv_door s) intent (k, u)).2.1 = true).
Proof.
  intros (Hid & Hk0 & _)%runServe_Ok Hrun.
  destruct (serve_all_standing _ _ _ _ _ _ _ _ Hk0 Hrun) as (Hk & _ & Hdrop). pose proof Hk as (Hst & Ho & Hd).
  split; [done|]. split; [intros request; unfold assertedGroups; by rewrite Ho|]. split; [apply Hst|]. split; [apply Hst|].
  split.
  { intros more replies' s' k' Hmore Hseed. destruct (serve_all_standing _ _ _ _ _ _ _ _ Hk Hmore) as (_ & [?|?] & _); [done|done]. }
  split.
  { intros intent u r [k' u'] Hs. rewrite Hd in Hs.
    destruct (kit_Submit_standing _ _ _ _ _ _ _ Hst Hs) as ([?|?] & _ & Hok & _); by split. }
  split; [done|]. intros Hspent intent u Hknown Hgoal. rewrite Hd.
  destruct (door_Submit _ intent (k, u)) as [r [k' u']] eqn:Hs.
  destruct (kit_Submit_standing _ _ _ _ _ _ _ Hst Hs) as (_ & _ & _ & _ & Hp). by apply Hp.
Qed.
End served.

(** ** Examples and witness *)

(** The outside: the policy file there is, and a clock. *)
Notation DemoOutside := (string * Z)%type (only parsing).
Definition demo_documents (u : string * Z) : option grantsSnapshot :=
  seed_load (λ _ _, "r1")
    (MustLoad demo_clean (λ _, Ok (mkGrants ∅ [])) demo_decode_doc "{}" demo_env (demo_fs u.1))
    (MustLoadFloors demo_clean (λ _, Ok ∅) demo_decode_doc "{}" demo_env (demo_fs u.1)).
Definition demo_draw (u : string * Z) : (Time * Time * string) * (string * Z) :=
  ((u.2, u.2 + 1, "tok")%Z, (u.1, u.2 + 2)%Z).
Definition demo_now (u : string * Z) : Time * (string * Z) := (u.2, (u.1, u.2 + 1)%Z).
Definition demo_random (n : Z) (u : string * Z) : string * (string * Z) := ("r" +:+ Itoa u.2, (u.1, u.2 + 1)%Z).
Definition demo_serve_env : gmap string string :=
  <["MANTLEKEEP_USER_HEADER" := "x-auth-user"]> (<["MANTLEKEEP_DELEGATORS" := " estate ,"]> demo_env).
Definition demo_open (path : string) : result string ListBucket :=
  if path =s? "mantlekeep-data/audit.db" then Ok empty_bucket else Err "no such file".
Definition demo_Join (a b : string) : string := a +:+ "/" +:+ b.
Definition demo_start := runServe (J := demo_body) demo_ParseFloat demo_serve_env demo_sha demo_open demo_documents demo_draw demo_Join.
Definition demo_ship (who app : string) : Request demo_body :=
  mkRequest "POST" "/api/govern" {["x-auth-user" := who]} ∅
    (DGovern (mkGovernRequest "deploy.prod" "team/payments" "ship it" "" {["app" := VString app]})).
Definition demo_serve_all (requests : list (Request demo_body * (string * Z))) :=
  match demo_start with
  | Ok (_, s, k) => Some (serve_all demo_now demo_random demo_format (λ _ u, u) s k requests)
  | Err _ => None
  end.
Definition reply_status (r : served_reply (J := demo_body)) : Z :=
  match r with NoRoute => 404 | Dropped => 0 | Answered r => resp_Status r end.
Definition demo_statuses (requests : list (Request demo_body * (string * Z))) : option (list Z) :=
  (λ x, map reply_status x.1.1) <$> demo_serve_all requests.

(** The documents are those of the first question: a release after it changes nothing. *)
Example one_policy_for_good :
  demo_statuses [(demo_ship "lead-bob" "payments", ("new", 10%Z)); (demo_ship "lead-bob" "ledger", ("old", 20%Z));
                 (demo_ship "lead-bob" "payments", ("gone", 30%Z))] = Some [200; 403; 200]%Z.
Proof. by vm_compute. Qed.

(** In production behind a gateway's header, nobody of the deployment is known to it. *)
Example a_served_door_knows_only_the_demo_directory :
  demo_statuses [(demo_ship "ana@bank.example" "payments", ("new", 10%Z))] = Some [401]%Z.
Proof. by vm_compute. Qed.

(** A start with unreadable documents is no failure of the start, and repairing them does
    not help: the once has run, and every question dies on the nil pointer it left. *)
Example a_broken_policy_starts_and_never_answers :
  demo_statuses [(demo_ship "lead-bob" "payments", ("broken", 10%Z)); (demo_ship "lead-bob" "payments", ("new", 20%Z))]
  = Some [0; 0]%Z.
Proof. by vm_compute. Qed.

Definition demo_requests : list (Request demo_body * (string * Z)) :=
  [(demo_ship "lead-bob" "payments", ("new", 10%Z)); (demo_ship "lead-bob" "ledger", ("old", 20%Z))].
Definition demo_no_server : string * Server demo_body (Kit ListBucket * (string * Z)) * Kit ListBucket :=
  ("", mkServer (the_kit_door demo_ParseFloat demo_serve_env demo_sha demo_documents demo_draw) ∅
         (serve_options demo_ParseFloat demo_serve_env demo_sha demo_documents demo_draw),
   mkKit (λ _, Err "") NewRBAC false empty_bucket Unread false).
Definition demo_started := match demo_start with Ok x => x | Err _ => demo_no_server end.
Lemma demo_starts : demo_start = Ok demo_started.
Proof.
  assert (is_ok demo_start = true) as Hok by (by vm_compute). unfold demo_started. revert Hok.
  generalize demo_start as r. intros r. by destruct r.
Qed.
Definition demo_served :=
  serve_all demo_now demo_random demo_format (λ _ u, u) demo_started.1.2 demo_started.2 demo_requests.

Lemma served_door_decides_on_one_policy_witness :
  is_ok demo_start = true ∧ Count (kit_Audit demo_served.2) = 2%nat ∧
  (∀ more replies' s' k', serve_all demo_now demo_random demo_format (λ _ u, u) demo_served.1.2 demo_served.2 more = (replies', s', k') →
     kit_seed demo_served.2 ≠ Unread → kit_seed k' = kit_seed demo_served.2).
Proof.
  split; [by vm_compute|]. split; [by vm_compute|].
  refine (proj1 (proj2 (proj2 (proj2 (proj2 (served_door_decides_on_one_policy demo_ParseFloat demo_serve_env demo_sha demo_open demo_documents
    demo_draw demo_now demo_random demo_format (λ _ u, u) demo_Join demo_started.1.1 demo_started.1.2 demo_started.2 demo_requests
    demo_served.1.1 demo_served.1.2 demo_served.2 _ _)))))).
  - transitivity (Ok (E := start_error) demo_started); [|by destruct demo_started as [[? ?] ?]].
    apply demo_starts.
  - unfold demo_served. by destruct (serve_all _ _ _ _ _ _ _) as [[? ?] ?].
Defined.
