(* ===== verification/PolicyBundle.v ===== *)
(** The policy in force as a bundle: [mantlekeep-control/policybundle] ([bundle.go],
    [handler.go]) and the documents as JSON values ([RoleActionsAny], [FloorsAny] of
    [grants]).

    [json.Marshal], the tar and gzip writers are arguments; logging is left out. Who asks for
    the bundle (an OPA, as the package's comment has it) is outside: what is shown is what the
    handler answers to any request. *)
From S2P Require Import Prelude Contracts Cascade Grants Floors Engine Snapshot AuditChain DoorServer.

(** ** The documents as values (grants.go, floors.go) *)

Definition strsAny (s : list string) : value := VList (map VString s).

Definition RoleActionsAny (g : Grants) : gmap string value := strsAny <$> RoleActions g.
Definition ApprovalActionsAny (g : Grants) : list value := map VString (ApprovalActions g).

(** A key that is written only when the field is not empty. *)
Definition set_string (k v : string) (m : gmap string value) : gmap string value :=
  if negb (v =s? "") then <[k := VString v]> m else m.
Definition set_strings (k : string) (v : list string) (m : gmap string value) : gmap string value :=
  if (0 <? length v)%nat then <[k := strsAny v]> m else m.

Definition set_caps (caps : gmap string string) (m : gmap string value) : gmap string value :=
  if bool_decide (caps ≠ ∅) then <["caps" := VMap (VString <$> caps)]> m else m.

Definition ruleAny (r : FloorRule) : gmap string value :=
  let m := {["kind" := VString (fr_Kind r)]} in
  let m := set_string "param" (fr_Param r) m in
  let m := set_strings "values" (fr_Values r) m in
  let m := set_caps (fr_Caps r) m in
  let m := set_string "whenParam" (fr_WhenParam r) m in
  let m := set_strings "whenIn" (fr_WhenIn r) m in
  let m := set_string "whenValue" (fr_WhenValue r) m in
  let m := set_string "pattern" (fr_Pattern r) m in
  let m := set_string "role" (fr_Role r) m in
  set_string "message" (fr_Message r) m.

Definition FloorsAny (f : Floors) : gmap string value := (λ rules, VList (map (λ r, VMap (ruleAny r)) rules)) <$> f.

(** ** bundle.go *)

Record Bundle := mkBundle { bn_Body : string; bn_Revision : string }.

Record tarHeader := mkTarHeader { th_Name : string; th_Mode : Z; th_Size : Z; th_ModTime : Z }.

Inductive bundle_error :=
| BundleNoSource
| BundleSource (e : go_error)
| BundleNoDocuments
| BundleEncoding (what e : string).

Definition bundle_data (held : Grants) (floors : Floors) : value :=
  VMap {["grants" := VMap {["role_actions" := VMap (RoleActionsAny held); "approval_actions" := VList (ApprovalActionsAny held)]};
         "floors" := VMap (FloorsAny floors)]}.
Definition bundle_manifest (revision : string) : value :=
  VMap {["revision" := VString revision; "roots" := VList [VString ""]]}.

Section building.
Context (Marshal : value → result string string).
(** The tar of headers and contents, gzipped. *)
Context (archive : list (tarHeader * string) → result string string).

(** [time.Unix(0, 0)] is the modification time, in seconds of Unix. *)
Definition tar_entry (files : gmap string string) (name : string) : option (tarHeader * string) :=
  match files !! name with
  | None => None
  | Some content => Some (mkTarHeader name 384 (Z.of_nat (Stdlib.Strings.String.length content)) 0, content)
  end.
Definition targz (files : gmap string string) : result string string :=
  archive (omap (tar_entry files) [".manifest"; "data.json"]).

(** What a [grants.Loader] returns: the documents, nil or not, and their revision. *)
Notation loaded := (result go_error (option Grants * option Floors * string)) (only parsing).

(** A nil source is [None]. *)
Definition Build (source : option loaded) : result bundle_error Bundle :=
  match source with
  | None => Err BundleNoSource
  | Some (Err e) => Err (BundleSource e)
  | Some (Ok (Some held, Some floors, revision)) =>
      match Marshal (bundle_data held floors) with
      | Err e => Err (BundleEncoding "rendering the documents" e)
      | Ok data =>
          match Marshal (bundle_manifest revision) with
          | Err e => Err (BundleEncoding "rendering the manifest" e)
          | Ok manifest =>
              match targz {[".manifest" := manifest; "data.json" := data]} with
              | Err e => Err (BundleEncoding "writing the archive" e)
              | Ok body => Ok (mkBundle body revision)
              end
          end
      end
  | Some (Ok _) => Err BundleNoDocuments
  end.
End building.

(** ** handler.go *)

Record bundleResponse := mkBundleResponse {
  br_Status : Z;
  br_Header : gmap string string;
  br_Body : option string;
}.

Definition quoted (s : string) : string := bytes [34%N] +:+ s +:+ bytes [34%N].

Definition matchesETag (header tag : string) : bool :=
  existsb (λ candidate, let candidate := TrimSpace candidate in
    (candidate =s? "*") || (TrimPrefix candidate "W/" =s? tag)) (SplitByte "," header).

Definition StatusNotModified : Z := 304.
Definition StatusMethodNotAllowed : Z := 405.
Definition StatusServiceUnavailable : Z := 503.

Definition bundle_headers (b : Bundle) : gmap string string :=
  {["etag" := quoted (bn_Revision b); "x-policy-revision" := bn_Revision b;
    "content-type" := "application/gzip"; "cache-control" := "no-cache"]}.

(** [build] is what building gives at the time of the request. *)
Definition ServeBundle {E B} (build : result E Bundle) (request : Request B) : bundleResponse :=
  if negb (req_Method request =s? "GET") && negb (req_Method request =s? "HEAD")
  then mkBundleResponse StatusMethodNotAllowed {["allow" := "GET, HEAD"]} (Some "bundle: read only")
  else match build with
       | Err _ => mkBundleResponse StatusServiceUnavailable ∅ (Some "policy bundle unavailable")
       | Ok bundle =>
           let headers := bundle_headers bundle in
           if matchesETag (Header_Get request "If-None-Match") (quoted (bn_Revision bundle))
           then mkBundleResponse StatusNotModified headers None
           else if req_Method request =s? "HEAD" then mkBundleResponse StatusOK headers None
           else mkBundleResponse StatusOK headers (Some (bn_Body bundle))
       end.

(** ** Nothing is lost in the bundle *)

(** What the JSON of a rule holds for a field of the struct. *)
Definition string_at (m : gmap string value) (k : string) : string :=
  match m !! k with Some (VString s) => s | _ => "" end.
Definition strings_of (v : option value) : list string :=
  match v with Some (VList l) => map (λ v, match v with VString s => s | _ => "" end) l | _ => [] end.
Definition map_of (v : option value) : gmap string value := match v with Some (VMap m) => m | _ => ∅ end.

(** Decoding by the struct's JSON names. *)
Definition rule_of (m : gmap string value) : FloorRule :=
  mkFloorRule (string_at m "kind") (string_at m "param") (strings_of (m !! "values"))
    ((λ v, match v with VString s => s | _ => "" end) <$> map_of (m !! "caps"))
    (string_at m "whenParam") (strings_of (m !! "whenIn")) (string_at m "whenValue") (string_at m "pattern")
    (string_at m "role") (string_at m "message").
Definition rules_of (v : value) : list FloorRule :=
  match v with VList l => map (λ v, rule_of (map_of (Some v))) l | _ => [] end.
Definition documents_of (data : value) : Grants * Floors :=
  let grants := map_of (map_of (Some data) !! "grants") in
  (mkGrants ((λ v, strings_of (Some v)) <$> map_of (grants !! "role_actions")) (strings_of (grants !! "approval_actions")),
   rules_of <$> map_of (map_of (Some data) !! "floors")).

Lemma strings_of_strsAny l : strings_of (Some (strsAny l)) = l.
Proof. simpl. rewrite map_map. apply map_id. Qed.

(** A key that another setter writes, and the key itself when it was not there. *)
Lemma set_string_ne k v m k' : k ≠ k' → set_string k v m !! k' = m !! k'.
Proof. intros ?. unfold set_string. case_match; [by rewrite lookup_insert_ne|done]. Qed.
Lemma set_strings_ne k v m k' : k ≠ k' → set_strings k v m !! k' = m !! k'.
Proof. intros ?. unfold set_strings. case_match; [by rewrite lookup_insert_ne|done]. Qed.
Lemma set_caps_ne v m k' : "caps" ≠ k' → set_caps v m !! k' = m !! k'.
Proof. intros ?. unfold set_caps. case_match; [by rewrite lookup_insert_ne|done]. Qed.

Lemma read_string k v m : m !! k = None → string_at (set_string k v m) k = v.
Proof.
  intros H. unfold string_at, set_string. destruct (v =s? "") eqn:E; autorewrite with mk in E; simpl.
  - by rewrite H, E.
  - by rewrite lookup_insert_eq.
Qed.
Lemma read_strings k v m : m !! k = None → strings_of (set_strings k v m !! k) = v.
Proof.
  intros H. unfold set_strings. destruct v as [|x v]; simpl; [by rewrite H|]. rewrite lookup_insert_eq.
  exact (strings_of_strsAny (x :: v)).
Qed.
Lemma read_caps v m : m !! "caps" = None →
  (λ v, match v with VString s => s | _ => "" end) <$> map_of (set_caps v m !! "caps") = v.
Proof.
  intros H. unfold set_caps. case_bool_decide as Hv.
  - rewrite lookup_insert_eq. simpl. rewrite <- map_fmap_compose. apply map_fmap_id.
  - rewrite H. simpl. destruct (decide (v = ∅)) as [->|]; [apply fmap_empty|done].
Qed.

Ltac skip_keys :=
  repeat first [rewrite set_string_ne by discriminate | rewrite set_strings_ne by discriminate | rewrite set_caps_ne by discriminate].
Ltac absent_key := skip_keys; by rewrite lookup_singleton_ne by discriminate.

Lemma rule_of_ruleAny r : rule_of (ruleAny r) = r.
Proof.
  destruct r as [kind param values caps whenParam whenIn whenValue pattern role message].
  unfold rule_of, ruleAny. cbn [fr_Kind fr_Param fr_Values fr_Caps fr_WhenParam fr_WhenIn fr_WhenValue fr_Pattern fr_Role fr_Message].
  f_equal.
  - unfold string_at. skip_keys. by rewrite lookup_singleton_eq.
  - unfold string_at. skip_keys. apply read_string. absent_key.
  - skip_keys. apply read_strings. absent_key.
  - skip_keys. apply read_caps. absent_key.
  - unfold string_at. skip_keys. apply read_string. absent_key.
  - skip_keys. apply read_strings. absent_key.
  - unfold string_at. skip_keys. apply read_string. absent_key.
  - unfold string_at. skip_keys. apply read_string. absent_key.
  - unfold string_at. skip_keys. apply read_string. absent_key.
  - apply read_string. absent_key.
Qed.

Lemma documents_of_bundle held floors : documents_of (bundle_data held floors) = (held, floors).
Proof.
  destruct held as [ra aa]. unfold documents_of, bundle_data. cbn [map_of].
  rewrite lookup_insert_eq, lookup_insert_ne, lookup_singleton_eq by discriminate. cbn [map_of RoleActions ApprovalActions].
  unfold RoleActionsAny, ApprovalActionsAny, FloorsAny. cbn [RoleActions ApprovalActions].
  rewrite lookup_insert_eq, lookup_insert_ne, lookup_singleton_eq by discriminate. cbn [map_of].
  rewrite <- !map_fmap_compose. f_equal; [f_equal|].
  - rewrite <- (map_fmap_id ra) at 2. apply map_fmap_ext. intros role acts _. apply strings_of_strsAny.
  - apply strings_of_strsAny.
  - rewrite <- (map_fmap_id floors) at 2. apply map_fmap_ext. intros action rules _. simpl. rewrite map_map.
    rewrite <- (map_id rules) at 2. apply map_ext. intros r. apply rule_of_ruleAny.
Qed.

(** ** What the handler answers *)

Lemma matchesETag_quoted a b : char_in "," a = false → matchesETag (quoted a) (quoted b) = bool_decide (a = b).
Proof.
  intros Ha. unfold matchesETag.
  assert (∀ s, char_in "," s = false → char_in "," (s +:+ bytes [34%N]) = false) as Hq.
  { induction s as [|c s IH]; [done|]. simpl. intros [H1 H2]%orb_false_iff. by rewrite H1, IH. }
  rewrite SplitByte_no_sep by (unfold quoted; simpl; by apply Hq). cbn [existsb map]. rewrite orb_false_r.
  rewrite TrimSpace_edged.
  2: { unfold edged, quoted. rewrite !srev_app. apply andb_true_iff. split; [done|]. by apply starts_graphic_app, starts_graphic_app. }
  assert (TrimPrefix (quoted a) "W/" = quoted a) as -> by done. unfold quoted at 1. simpl.
  apply eq_bool_prop_intro. unfold eqs. rewrite !bool_decide_spec. unfold quoted. split.
  - intros [= H]. revert b H. clear. induction a as [|c a IH]; intros [|d b]; simpl; [done| | |]; intros H; injection H.
    + intros H1. by destruct b.
    + intros H1. by destruct a.
    + intros H1 ->. f_equal. by apply IH.
  - by intros ->.
Qed.

Section serving.
Context (Marshal : value → result string string) (archive : list (tarHeader * string) → result string string).

Notation loaded := (result go_error (option Grants * option Floors * string)) (only parsing).

(** The request holds the revision: some candidate of [If-None-Match] is it, or any. *)
Definition names_revision {B} (request : Request B) (revision : string) : Prop :=
  ∃ candidate, candidate ∈ map TrimSpace (SplitByte "," (Header_Get request "If-None-Match")) ∧
    (candidate = "*" ∨ TrimPrefix candidate "W/" = quoted revision).

Lemma matchesETag_true {B} (request : Request B) revision :
  matchesETag (Header_Get request "If-None-Match") (quoted revision) = true ↔ names_revision request revision.
Proof.
  unfold matchesETag, names_revision. rewrite existsb_true. setoid_rewrite elem_of_map.
  split.
  - intros (c & Hc & [H%eqs_true|H%eqs_true]%orb_true_iff); exists (TrimSpace c); split; eauto.
  - intros (_ & (c & -> & Hc) & H). exists c. split; [done|]. apply orb_true_iff. by rewrite !eqs_true.
Qed.

(** The bundle of these documents: an archive of the manifest, which names the revision and
    claims every path, and of the documents, both private to their owner and with no time of
    their own, so that equal documents are equal bytes. *)
Definition bundle_of (g : Grants) (f : Floors) (revision body : string) : Prop :=
  ∃ manifest data, Marshal (bundle_manifest revision) = Ok manifest ∧ Marshal (bundle_data g f) = Ok data ∧
    archive [(mkTarHeader ".manifest" 384 (Z.of_nat (slen manifest)) 0, manifest);
             (mkTarHeader "data.json" 384 (Z.of_nat (slen data)) 0, data)] = Ok body.

Lemma targz_entries manifest data :
  targz archive {[".manifest" := manifest; "data.json" := data]} =
  archive [(mkTarHeader ".manifest" 384 (Z.of_nat (slen manifest)) 0, manifest);
           (mkTarHeader "data.json" 384 (Z.of_nat (slen data)) 0, data)].
Proof.
  unfold targz, tar_entry. cbn [omap list_omap]. by rewrite lookup_insert_eq, lookup_insert_ne, lookup_singleton_eq by discriminate.
Qed.

(** Building succeeds exactly when the source delivers both documents and they can be
    rendered. *)
Lemma Build_Ok (load : option loaded) b :
  Build Marshal archive load = Ok b ↔
    ∃ g f, load = Some (Ok (Some g, Some f, bn_Revision b)) ∧ bundle_of g f (bn_Revision b) (bn_Body b).
Proof.
  unfold bundle_of. split.
  - destruct load as [[[[[g|] [f|]] revision]|e]|]; simpl; try done.
    destruct (Marshal (bundle_data g f)) as [data|] eqn:Hd; [|done].
    destruct (Marshal (bundle_manifest revision)) as [manifest|] eqn:Hm; [|done].
    rewrite targz_entries. destruct (archive _) as [body|] eqn:Ha; [|done]. intros [= <-].
    exists g, f. split; [done|]. by exists manifest, data.
  - destruct b as [body revision]. cbn [bn_Revision bn_Body].
    intros (g & f & -> & manifest & data & Hm & Hd & Ha). simpl. by rewrite Hd, Hm, targz_entries, Ha.
Qed.

(** What the handler answers, said without it. *)
Inductive answered {B} (load : option loaded) (request : Request B) : bundleResponse → Prop :=
| read_only : req_Method request ≠ "GET" → req_Method request ≠ "HEAD" →
    answered load request (mkBundleResponse 405 {["allow" := "GET, HEAD"]} (Some "bundle: read only"))
| unavailable : req_Method request = "GET" ∨ req_Method request = "HEAD" →
    (∀ g f revision body, load = Some (Ok (Some g, Some f, revision)) → ¬ bundle_of g f revision body) →
    answered load request (mkBundleResponse 503 ∅ (Some "policy bundle unavailable"))
| nothing_new g f revision body : req_Method request = "GET" ∨ req_Method request = "HEAD" →
    load = Some (Ok (Some g, Some f, revision)) → bundle_of g f revision body →
    names_revision request revision →
    answered load request (mkBundleResponse 304 (bundle_headers (mkBundle body revision)) None)
| served g f revision body : req_Method request = "GET" ∨ req_Method request = "HEAD" →
    load = Some (Ok (Some g, Some f, revision)) → bundle_of g f revision body →
    ¬ names_revision request revision →
    answered load request (mkBundleResponse 200 (bundle_headers (mkBundle body revision))
      (if req_Method request =s? "HEAD" then None else Some body)).

Lemma ServeBundle_answered {B} load (request : Request B) :
  answered load request (ServeBundle (Build Marshal archive load) request).
Proof.
  unfold ServeBundle. destruct (negb _ && negb _) eqn:Em.
  { apply andb_true_iff in Em as [H1%negb_true_iff%eqs_false H2%negb_true_iff%eqs_false]. by apply read_only. }
  assert (req_Method request = "GET" ∨ req_Method request = "HEAD") as Hm.
  { apply andb_false_iff in Em as [H%negb_false_iff%eqs_true|H%negb_false_iff%eqs_true]; auto. }
  destruct (Build Marshal archive load) as [b|e] eqn:Hb.
  - apply Build_Ok in Hb as (g & f & Hl & Hof). destruct b as [body revision]. cbn [bn_Revision bn_Body] in *.
    destruct (matchesETag _ _) eqn:Ht.
    + apply matchesETag_true in Ht. by eapply nothing_new.
    + assert (¬ names_revision request revision) as Hn by (rewrite <- matchesETag_true; by rewrite Ht).
      pose proof (served load request g f revision body Hm Hl Hof Hn) as H. by destruct (req_Method request =s? "HEAD").
  - apply unavailable; [done|]. intros g f revision body Hl Hof.
    assert (Build Marshal archive load = Ok (mkBundle body revision)) as Hok by (apply Build_Ok; eauto). congruence.
Qed.

(** C23: the bundle is the policy in force. Whatever the source loads at the time of a
    request, the handler's answer is determined: a method that is not a read is refused; a
    source that fails, or delivers no documents, or documents that cannot be rendered, is an
    unavailable policy, never an empty one; otherwise the answer names the revision the
    source loaded, and it is either that the caller has it, exactly when the caller names
    that revision, or the archive of the documents (none for HEAD). Nothing is lost on the
    way into the archive: the grants and the floors, every field of every rule, are read back
    from the JSON value it was rendered from. And the tag a caller was given with one answer
    is recognised later exactly when the source still loads that revision (a revision is hex,
    without a comma): what comes in between does not matter. *)
Theorem bundle_is_the_policy_in_force {B} load (request : Request B) :
  answered load request (ServeBundle (Build Marshal archive load) request) ∧
  (∀ g f, documents_of (bundle_data g f) = (g, f)) ∧
  ∀ before (first : Request B) tag g f revision,
    br_Header (ServeBundle (Build Marshal archive before) first) !! "etag" = Some tag →
    before = Some (Ok (Some g, Some f, revision)) → char_in "," revision = false →
    Header_Get request "If-None-Match" = tag → req_Method request = "GET" →
    ∀ g' f' revision' body, load = Some (Ok (Some g', Some f', revision')) → bundle_of g' f' revision' body →
      br_Status (ServeBundle (Build Marshal archive load) request) = (if decide (revision = revision') then 304 else 200)%Z.
Proof.
  split; [apply ServeBundle_answered|]. split; [apply documents_of_bundle|].
  intros before first tag g f revision Htag Hbefore Hcomma Hheader Hget g' f' revision' body Hload Hof.
  assert (tag = quoted revision) as ->.
  { pose proof (ServeBundle_answered before first) as Ha. revert Htag. inversion Ha; subst; simplify_eq; cbn [br_Header]; [done|done|..];
      unfold bundle_headers; rewrite lookup_insert_eq; by intros [= <-]. }
  assert (Build Marshal archive load = Ok (mkBundle body revision')) as -> by (apply Build_Ok; eauto).
  unfold ServeBundle. rewrite Hget, Hheader. cbn [bn_Revision negb andb eqs]. 
  change (negb ("GET" =s? "GET") && negb ("GET" =s? "HEAD")) with false. cbn iota.
  rewrite matchesETag_quoted by done. destruct (decide (revision = revision')) as [->|Hne].
  - by rewrite bool_decide_eq_true_2.
  - by rewrite bool_decide_eq_false_2.
Qed.
End serving.

(** ** Examples and witnesses *)

(** Two releases of the policy. *)
Definition demo_docs (action : string) : Grants * Floors :=
  (mkGrants {["L2-Operator" := [action]]} ["mr.approve"],
   {[action := [mkFloorRule "allowlist" "app" ["payments"] ∅ "" [] "" "" "" "only payments"]]}).
Definition demo_dev : Grants * Floors := demo_docs "deploy.dev".
Definition demo_prod : Grants * Floors := demo_docs "deploy.prod".
Definition demo_revision (g : Grants) (f : Floors) : string := Join (get_list (RoleActions g) "L2-Operator") "".

(** Documents are written as the action they name. *)
Definition demo_marshal (v : value) : result string string :=
  Ok (demo_revision (documents_of v).1 (documents_of v).2).
Definition demo_archive (entries : list (tarHeader * string)) : result string string :=
  Ok (bits (encode (map (λ e : tarHeader * string, (th_Name e.1, e.2)) entries))).

Definition demo_delivery (docs : Grants * Floors) : result go_error (option Grants * option Floors * string) :=
  Ok (Some docs.1, Some docs.2, demo_revision docs.1 docs.2).
Definition demo_answer (load : result go_error (option Grants * option Floors * string)) (tag : string) : bundleResponse :=
  ServeBundle (Build demo_marshal demo_archive (Some load))
    (mkRequest "GET" "" (if tag =s? "" then ∅ else Header_Set "If-None-Match" tag ∅) ∅ ()).

(** A first request, the same again with the tag, an outage, and the next release. *)
Example demo_statuses :
  [br_Status (demo_answer (demo_delivery demo_dev) "");
   br_Status (demo_answer (demo_delivery demo_dev) ("W/" +:+ quoted "deploy.dev"));
   br_Status (demo_answer (Err (ErrorText "the policy store is down")) (quoted "deploy.dev"));
   br_Status (demo_answer (demo_delivery demo_prod) (quoted "deploy.dev"))] = [200; 304; 503; 200]%Z.
Proof. by vm_compute. Qed.

Lemma bundle_is_the_policy_in_force_witness :
  br_Header (demo_answer (demo_delivery demo_dev) "") !! "etag" = Some (quoted "deploy.dev") ∧
  br_Status (demo_answer (demo_delivery demo_prod) (quoted "deploy.dev")) = 200%Z.
Proof.
  assert (br_Header (demo_answer (demo_delivery demo_dev) "") !! "etag" = Some (quoted "deploy.dev")) as Htag by (by vm_compute).
  split; [exact Htag|].
  destruct (bundle_is_the_policy_in_force demo_marshal demo_archive (Some (demo_delivery demo_prod))
    (mkRequest "GET" "" (Header_Set "If-None-Match" (quoted "deploy.dev") ∅) ∅ ())) as (_ & _ & H).
  apply (H (Some (demo_delivery demo_dev)) (mkRequest "GET" "" ∅ ∅ ()) _ demo_dev.1 demo_dev.2 "deploy.dev" Htag eq_refl eq_refl eq_refl eq_refl
    demo_prod.1 demo_prod.2 "deploy.prod"
    (bits (encode [(".manifest", demo_revision (documents_of (bundle_manifest "deploy.prod")).1 (documents_of (bundle_manifest "deploy.prod")).2);
                   ("data.json", demo_revision (documents_of (bundle_data demo_prod.1 demo_prod.2)).1 (documents_of (bundle_data demo_prod.1 demo_prod.2)).2)]))
    eq_refl).
  do 2 eexists. by split_and!.
Defined.
