(* ===== verification/DoorClient.v ===== *)
(** A door in another process: [mantlekeep-estate/doorclient/doorclient.go], and what the
    client and the server of [DoorServer] make of one another over a network that can lose
    a request or a reply. *)
From S2P Require Import Prelude Contracts AuditChain Fleet DoorServer.

(** ** The client *)

Definition onBehalfOfHeader : string := "X-On-Behalf-Of".
Definition groupsHeader : string := "X-Caller-Groups".

(** The HTTP client in it is [Do] below. *)
Record Client := mkClient {
  cl_baseURL : string;
  cl_serviceAccount : string;
  cl_callerHeader : string;
}.

(** [strings.TrimRight] of one byte. *)
Fixpoint trim_left_byte (c : ascii) (s : string) : string :=
  match s with
  | String d s' => if bool_decide (d = c) then trim_left_byte c s' else s
  | EmptyString => EmptyString
  end.
Definition TrimRightByte (c : ascii) (s : string) : string := srev (trim_left_byte c (srev s)).

Definition Client_New (baseURL serviceAccount : string) : Client :=
  mkClient (TrimRightByte "/" baseURL) serviceAccount "".

Definition WithCallerHeader (name : string) (client : Client) : Client :=
  mkClient (cl_baseURL client) (cl_serviceAccount client) (TrimSpace name).

Definition client_credentialHeaderNames : list string :=
  ["authorization"; "proxy-authorization"; "cookie"; "set-cookie"; "x-api-key"; "api-key"; "x-auth-token"; "x-access-token"].

(** The name that is refused. *)
Definition checkCallerHeader (name : string) : result string unit :=
  if name =s? "" then Ok tt
  else refuse slice_contains client_credentialHeaderNames (ToLower name) with name ; Ok tt.

Definition NewWithOptions (baseURL serviceAccount : string) (options : list (Client → Client)) :
    result string Client :=
  let client := foldl (λ client option, option client) (Client_New baseURL serviceAccount) options in
  _ <-? checkCallerHeader (cl_callerHeader client) ; Ok client.

(** The client's [governRequest]. *)
Record clientRequest := mkClientRequest {
  cq_ID : string;
  cq_Action : string;
  cq_Resource : string;
  cq_Goal : string;
  cq_Scope : string;
  cq_Params : gmap string value;
}.

(** The reply is read into the server's [governResponse]: its fields are the client's. *)
Class ClientJSON (B : Type) := {
  EncodeRequest : clientRequest → result string B;
  DecodeReply : B → result string governResponse;
}.

Definition summary (r : governResponse) : string := Join (map wr_Message (gr_Reasons r)) "; ".

Definition refusal (decoded : governResponse) (status : Z) : go_error :=
  let decision := gr_Outcome decoded in
  if decision =s? "" then
    ErrorText ("door answered HTTP " +:+ Itoa status +:+ " with no outcome: " +:+ summary decoded)
  else
    let reason := summary decoded in
    let reason := if reason =s? "" then "no reason given" else reason in
    ErrorRefused (mkRefused decision reason (gr_RequiredApprovers decoded) "").

(** What [Submit] sends, and under which headers. *)
Definition request_of (intent : Intent) : clientRequest :=
  mkClientRequest (int_ID intent) (int_Action intent) (int_Resource intent) (spec_Goal (int_Spec intent))
    (param_string (int_Params intent) "scope") (int_Params intent).

Definition headers_of (c : Client) (intent : Intent) : gmap string string :=
  let h := Header_Set "Content-Type" "application/json" ∅ in
  let h := Header_Set "Authorization" ("Bearer " +:+ cl_serviceAccount c) h in
  let h := if negb (cl_callerHeader c =s? "") then Header_Set (cl_callerHeader c) (cl_serviceAccount c) h else h in
  let h := if negb (sub_ID (int_Subject intent) =s? "")
           then Header_Set onBehalfOfHeader (sub_ID (int_Subject intent)) h else h in
  match sub_ADGroups (int_Subject intent) with
  | [] => h
  | groups => Header_Set groupsHeader (Join groups ",") h
  end.

Section client.
Context {B W : Type} `{!ClientJSON B}.
(** [http.NewRequest] rejects an address it cannot parse; [Do] posts headers and a body to
    one; the clock, and [time.Parse]. *)
Context (NewRequest : string → option string).
Context (Do : string → gmap string string → B → W → result string (Response B) * W).
Context (Now : W → Time * W) (Parse : string → string → option Time).

(** A reply that was read. *)
Definition accept (c : Client) (intent : Intent) (status : Z) (decoded : governResponse) (w : W) :
    result go_error ExecutionToken * W :=
  if negb (status =? StatusOK)%Z || negb (gr_Outcome decoded =s? ActionAllow) then (Err (refusal decoded status), w)
  else if gr_Token decoded =s? "" then
    (Err (ErrorText ("door: allowed intent " +:+ int_ID intent +:+ " but issued no execution token")), w)
  else
    let recorded := if gr_IntentID decoded =s? "" then int_ID intent else gr_IntentID decoded in
    let '(t, w) := Now w in
    (Ok (mkExecutionToken (gr_Token decoded) recorded (int_Resource intent) "" t
           (default 0%Z (Parse rfc3339 (gr_Expires decoded)))), w).

Definition Client_Submit (c : Client) (intent : Intent) (w : W) : result go_error ExecutionToken * W :=
  match EncodeRequest (request_of intent) with
  | Err err => (Err (ErrorWrap ("door: encoding intent " +:+ int_ID intent +:+ ": " +:+ err) [ErrorText err]), w)
  | Ok body =>
      let url := cl_baseURL c +:+ "/api/govern" in
      match NewRequest url with
      | Some err => (Err (ErrorWrap ("door: " +:+ err) [ErrorText err]), w)
      | None =>
          match Do url (headers_of c intent) body w with
          | (Err err, w) =>
              (Err (ErrorWrap ("door unreachable: " +:+ err +:+
                      " — no decision was made, so nothing may be treated as approved or refused") [ErrorText err]), w)
          | (Ok response, w) =>
              match DecodeReply (resp_Body response) with
              | Err err =>
                  (Err (ErrorWrap ("door unreadable: HTTP " +:+ Itoa (resp_Status response) +:+
                          " with an undecodable body: " +:+ err) [ErrorText err]), w)
              | Ok decoded => accept c intent (resp_Status response) decoded w
              end
          end
      end
  end.
End client.

(** ** The wire between them *)

(** What a number, a list or a map of an intent's parameters is read back as. *)
Fixpoint json_value (v : value) : value :=
  match v with
  | VList l => VList (map json_value l)
  | VMap m => VMap (json_value <$> m)
  | VStringMap m => VMap (VString <$> m)
  | v => v
  end.

(** The server's view of a client's request: it reads neither the id nor the scope. *)
Definition received (r : clientRequest) : governRequest :=
  mkGovernRequest (cq_Action r) (cq_Resource r) (cq_Goal r) "" (json_value <$> cq_Params r).

(** The two codecs agree on what JSON carries: UTF-8 text, and numbers a double holds. *)
Class Wire (B : Type) `{ServerJSON B, ClientJSON B} := {
  carried_request : clientRequest → Prop;
  carried_reply : governResponse → Prop;
  request_round_trip r : carried_request r →
    ∃ b, EncodeRequest r = Ok b ∧ DecodeGovernRequest b = Ok (received r);
  reply_round_trip r : carried_reply r → DecodeReply (EncodeBody (BodyGovern r)) = Ok r;
}.

(** RFC 3339 without fractions: what is parsed back is the time's whole second, and a time
    of a four-digit year is parsed. *)
Definition whole_second (t : Time) : Time := (t / 1000000000 * 1000000000)%Z.
Definition year_10000 : Time := (3652059 * 86400 * 1000000000)%Z.
Class Layout (Format : string → Time → string) (Parse : string → string → option Time) := {
  layout_floor t t' : Parse rfc3339 (Format rfc3339 t) = Some t' → t' = whole_second t;
  layout_parses t : (0 ≤ t < year_10000)%Z → is_Some (Parse rfc3339 (Format rfc3339 t));
}.

(** What becomes of one exchange. *)
Inductive Fate := Delivered | RequestLost (err : string) | ReplyLost (err : string).

Section network.
Context {B W : Type} `{!ServerJSON B}.
Context (Now : W → Time * W) (randomHex : Z → W → string * W) (Format : string → Time → string).
Context (slog : string * list (string * string) → W → W).
Context (s : Server B W) (base : string) (notFound : Response B).

(** A server at an address. A request that is lost never happened; a reply that is lost
    (or comes after the client's timeout) answers something that did. *)
Definition network (fate : Fate) (url : string) (header : gmap string string) (body : B) (w : W) :
    result string (Response B) * W :=
  match fate, CutPrefix url base with
  | RequestLost err, _ => (Err err, w)
  | _, None => (Err "no such host", w)
  | _, Some path =>
      let '(response, w) :=
        match Handler s Now randomHex Format slog (mkRequest "POST" path header ∅ body) w with
        | Some (response, _, w) => (response, w)
        | None => (notFound, w)
        end in
      match fate with
      | ReplyLost err => (Err err, w)
      | _ => (Ok response, w)
      end
  end.
End network.

(** ** A remote door is the door *)

(** A directory's group as gateways write it: no comma, no space at the ends. *)
Definition group_name (g : string) : bool := edged g && negb (char_in "," g).

(** The server knows the client's account: by an authenticator, which makes the account of
    the credential the client presents, or, without one, by the header the client names it
    under. *)
Definition knows_account {B W} (c : Client) (options : Options B W) : Prop :=
  match opt_Authenticator options with
  | Some Authenticate =>
      ∀ request, Header_Get request "Authorization" = "Bearer " +:+ cl_serviceAccount c →
        Authenticate request = Ok (cl_serviceAccount c)
  | None => ToLower (opt_TrustedUserHeader options) = ToLower (cl_callerHeader c) ∧ cl_callerHeader c ≠ ""
  end.

(** The deployment both sides were configured for: the server knows the client's account,
    which may act for others, and reads the headers the client sends; it may be one that
    trusts no header for groups. *)
Record paired {B W} (c : Client) (options : Options B W) : Prop := {
  pair_known : knows_account c options;
  pair_distinct : ToLower (cl_callerHeader c) ∉ ["x-on-behalf-of"; "x-caller-groups"; "authorization"];
  pair_groups : opt_TrustedGroupsHeader options = "" ∨ ToLower (opt_TrustedGroupsHeader options) = "x-caller-groups";
  pair_delegated : ToLower (opt_DelegatedSubjectHeader options) = "x-on-behalf-of";
  pair_account : edged (cl_serviceAccount c) = true;
  pair_delegator : cl_serviceAccount c ∈ opt_Delegators options;
}.

(** Whom the intent is for, and the service that is recorded beside him. *)
Definition for_whom (c : Client) (intent : Intent) : string * string :=
  let id := sub_ID (int_Subject intent) in
  if (id =s? "") || (id =s? cl_serviceAccount c) then (cl_serviceAccount c, "") else (id, cl_serviceAccount c).

(** The groups a server takes from the client. *)
Definition groups_for {B W} (options : Options B W) (intent : Intent) : list string :=
  if opt_TrustedGroupsHeader options =s? "" then [] else sub_ADGroups (int_Subject intent).

Definition external_for {B W} (c : Client) (options : Options B W) (intent : Intent) : ExternalIdentity :=
  mkExternalIdentity (for_whom c intent).1 (groups_for options intent) ∅.

(** The intent the door behind the server is asked about. *)
Definition forwarded (c : Client) (intent : Intent) (subject : Subject) (intentID : string) : Intent :=
  intent_of (mkCaller subject (for_whom c intent).2) intentID (received (request_of intent)).

(** The error the client makes of the door's. *)
Definition refused_remotely (e e' : go_error) : Prop :=
  match errors_as as_DecisionError e with
  | Some d =>
      AwaitingApproval (Some e') = AwaitingApproval (Some e) ∧
      (dec_Action d ≠ "" → ∃ reason, e' = ErrorRefused (mkRefused (dec_Action d) reason
         (if dec_Action d =s? ActionRequireApproval then dec_RequiredApprovers d else []) "") ∧
         (dec_Reason d ≠ "" → reason = dec_Reason d))
  | None => ∃ reason, e' = ErrorRefused (mkRefused "error" reason [] "")
  end.

Lemma ToLower_nonempty a b : ToLower a = ToLower b → b ≠ "" → a ≠ "".
Proof. by destruct a, b. Qed.

Lemma CutPrefix_app p t : CutPrefix (p +:+ t) p = Some t.
Proof.
  unfold CutPrefix. assert (HasPrefix (p +:+ t) p = true) as -> by (apply HasPrefix_spec; by exists t).
  f_equal. induction p as [|c p IH]; [done|]. exact IH.
Qed.

Section remote.
Context {B W : Type} `{Hwire : Wire B}.
Context (Now : W → Time * W) (randomHex : Z → W → string * W).
Context (Format : string → Time → string) (Parse : string → string → option Time) `{!Layout Format Parse}.
Context (slog : string * list (string * string) → W → W) (NewRequest : string → option string).
Context (s : Server B W) (c : Client) (notFound : Response B).
Context (Hurl : NewRequest (cl_baseURL c +:+ "/api/govern") = None).

Definition remote (fate : Fate) : Intent → W → result go_error ExecutionToken * W :=
  Client_Submit NewRequest (network Now randomHex Format slog s (cl_baseURL c) notFound fate) Now Parse c.

Definition sent (intent : Intent) (b : B) : Request B := mkRequest "POST" "/api/govern" (headers_of c intent) ∅ b.

Lemma network_govern fate intent b w :
  network Now randomHex Format slog s (cl_baseURL c) notFound fate (cl_baseURL c +:+ "/api/govern") (headers_of c intent) b w =
  match fate with
  | RequestLost err => (Err err, w)
  | Delivered => let '(r, w') := handleGovern s Now randomHex Format slog (sent intent b) w in (Ok r, w')
  | ReplyLost err => let '(r, w') := handleGovern s Now randomHex Format slog (sent intent b) w in (Err err, w')
  end.
Proof.
  unfold network. rewrite CutPrefix_app. destruct fate; [|done|];
    unfold Handler; simpl; unfold sent; by destruct (handleGovern _ _ _ _ _ _ _).
Qed.

(** What the server finds under the headers the client set. *)
Lemma sent_headers intent b :
  paired c (srv_options s) →
  let get := Header_Get (sent intent b) in
  get "Authorization" = "Bearer " +:+ cl_serviceAccount c ∧
  (cl_callerHeader c ≠ "" → get (cl_callerHeader c) = cl_serviceAccount c) ∧
  get onBehalfOfHeader = sub_ID (int_Subject intent) ∧
  get groupsHeader = Join (sub_ADGroups (int_Subject intent)) ",".
Proof.
  intros [_ Hd _ _ _ _]. unfold Header_Get, sent, headers_of, Header_Set. cbv zeta. cbn [req_Header].
  apply not_elem_of_cons in Hd as [Hd1 Hd]. apply not_elem_of_cons in Hd as [Hd2 Hd]. apply not_elem_of_cons in Hd as [Hd3 _].
  change (ToLower onBehalfOfHeader) with "x-on-behalf-of". change (ToLower groupsHeader) with "x-caller-groups".
  change (ToLower "Content-Type") with "content-type". change (ToLower "Authorization") with "authorization".
  set (h := if negb (cl_callerHeader c =s? "") then _ else _).
  assert (h !! "authorization" = Some ("Bearer " +:+ cl_serviceAccount c) ∧
          (cl_callerHeader c ≠ "" → h !! ToLower (cl_callerHeader c) = Some (cl_serviceAccount c)) ∧
          h !! "x-on-behalf-of" = None ∧ h !! "x-caller-groups" = None) as (Ha0 & H1 & H2 & H3).
  { unfold h. destruct (cl_callerHeader c =s? "") eqn:E; autorewrite with mk in E; cbn [negb].
    - by rewrite E.
    - split_and!; [by rewrite lookup_insert_ne, lookup_insert_eq by done|intros _; apply lookup_insert_eq|
        by rewrite !lookup_insert_ne by done..]. }
  clearbody h. set (h' := if negb _ then _ else h).
  assert (h' !! "authorization" = Some ("Bearer " +:+ cl_serviceAccount c) ∧
          (cl_callerHeader c ≠ "" → h' !! ToLower (cl_callerHeader c) = Some (cl_serviceAccount c)) ∧
          default "" (h' !! "x-on-behalf-of") = sub_ID (int_Subject intent) ∧ h' !! "x-caller-groups" = None) as (G0 & G1 & G2 & G3).
  { unfold h'. destruct (sub_ID (int_Subject intent) =s? "") eqn:E; autorewrite with mk in E; cbn [negb].
    - by rewrite H2, E.
    - split_and!; [by rewrite lookup_insert_ne by done|intros Hc; rewrite lookup_insert_ne by done; auto|
        by rewrite lookup_insert_eq|by rewrite lookup_insert_ne by done]. }
  clearbody h'. destruct (sub_ADGroups (int_Subject intent)) as [|g gs] eqn:Egs.
  - rewrite G0, G2, G3. split_and!; [done|intros Hc; by rewrite (G1 Hc)|done..].
  - rewrite !lookup_insert_ne, G0, G2, lookup_insert_eq by done.
    split_and!; [done|intros Hc; by rewrite (G1 Hc)|done..].
Qed.

(** The name of a header is read in any case. *)
Lemma Header_Get_case (request : Request B) name name' :
  ToLower name = ToLower name' → Header_Get request name = Header_Get request name'.
Proof. unfold Header_Get. by intros ->. Qed.

Lemma sent_groups intent b :
  paired c (srv_options s) → Forall (λ g, group_name g = true) (sub_ADGroups (int_Subject intent)) →
  assertedGroups s (sent intent b) = groups_for (srv_options s) intent.
Proof.
  intros Hp Hgs. pose proof (sent_headers intent b Hp) as (_ & _ & _ & Hg). unfold assertedGroups, groups_for. cbv zeta in Hg.
  destruct (opt_TrustedGroupsHeader (srv_options s) =s? "") eqn:Et; [done|]. apply eqs_false in Et.
  destruct (pair_groups _ _ Hp) as [?|HG]; [done|].
  rewrite (Header_Get_case _ _ groupsHeader), Hg by (by rewrite HG). assert (Forall (λ g, edged g = true) (sub_ADGroups (int_Subject intent)) ∧
    Forall (λ g, char_in "," g = false) (sub_ADGroups (int_Subject intent))) as [He Hc].
  { split; eapply Forall_impl; try apply Hgs; intros g [? ?]%andb_true_iff; [done|by apply negb_true_iff]. }
  destruct (sub_ADGroups (int_Subject intent)) as [|g gs] eqn:E; [done|].
  pose proof (edged_Join "," (g :: gs) ltac:(done) He) as HJ. rewrite TrimSpace_edged by done.
  assert (Join (g :: gs) "," =s? "" = false) as -> by (by apply eqs_false, edged_nonempty).
  rewrite SplitByte_Join by done. clear - He. induction He as [|x l Hx _ IH]; [done|].
  cbn [map]. rewrite (TrimSpace_edged x) by done. rewrite filter_cons_True by by apply edged_nonempty. by rewrite IH.
Qed.

(** The server makes the caller of the headers: the subject, and the account it came by. *)
Lemma sent_caller intent b subject w :
  paired c (srv_options s) → Forall (λ g, group_name g = true) (sub_ADGroups (int_Subject intent)) →
  sub_ID (int_Subject intent) = "" ∨ edged (sub_ID (int_Subject intent)) = true →
  door_Resolve (srv_door s) w (external_for c (srv_options s) intent) = Ok subject →
  resolveCaller s (sent intent b) w = Ok (mkCaller subject (for_whom c intent).2).
Proof.
  intros Hp Hgs Hid Hr. apply resolveCaller_Ok. pose proof (sent_headers intent b Hp) as (Hb & Hu & Hd & _). cbv zeta in Hb, Hu, Hd.
  exists (cl_serviceAccount c), (for_whom c intent).1.
  assert (edged (cl_serviceAccount c) = true) as Hacc by apply Hp.
  split; [|split].
  - pose proof (edged_nonempty _ Hacc) as Hne2%eqs_false. pose proof (pair_known _ _ Hp) as Hknown.
    unfold authenticatedCaller, knows_account in *. destruct (opt_Authenticator (srv_options s)) as [Authenticate|].
    { by rewrite (Hknown _ Hb), TrimSpace_edged, Hne2 by done. }
    destruct Hknown as [Hh Hn]. rewrite (Header_Get_case _ _ _ Hh), (Hu Hn), TrimSpace_edged by done.
    assert (opt_TrustedUserHeader (srv_options s) ≠ "") as Hne%eqs_false by (by eapply ToLower_nonempty).
    by rewrite Hne, Hne2.
  - assert (named s (sent intent b) = sub_ID (int_Subject intent)) as Hn.
    { unfold named. assert (opt_DelegatedSubjectHeader (srv_options s) ≠ "") as Hne%eqs_false.
      { intros E. pose proof (pair_delegated _ _ Hp) as HD. by rewrite E in HD. }
      rewrite Hne, (Header_Get_case _ _ onBehalfOfHeader), Hd by (by rewrite (pair_delegated _ _ Hp)). destruct Hid as [->|Hid]; [done|by apply TrimSpace_edged]. }
    unfold speaks_for, for_whom. rewrite Hn. destruct (sub_ID (int_Subject intent) =s? "") eqn:E1;
      [|destruct (sub_ID (int_Subject intent) =s? cl_serviceAccount c) eqn:E2]; autorewrite with mk in *; simpl.
    + left. tauto.
    + left. tauto.
    + right. split_and!; try done. apply Hp.
  - rewrite sent_groups by done. exact Hr.
Qed.
Lemma accept_refusal intent status decoded w :
  status ≠ StatusOK ∨ gr_Outcome decoded ≠ ActionAllow →
  accept Now Parse c intent status decoded w = (Err (refusal decoded status), w).
Proof.
  intros Hx. unfold accept.
  assert (negb (status =? StatusOK)%Z || negb (gr_Outcome decoded =s? ActionAllow) = true) as ->; [|done].
  rewrite orb_true_iff, !negb_true_iff, Z.eqb_neq, eqs_false. done.
Qed.

Lemma statusForDeny_not_OK code : statusForDeny code ≠ StatusOK.
Proof. unfold statusForDeny. by repeat case_match. Qed.

(** The reply to an error is never taken for an allow, and keeps what the error decided. *)
Lemma accept_error intent actor body intentID e w :
  let '(status, reply, _) := reply_to Format actor body intentID (Err e) in
  ∃ e', accept Now Parse c intent status reply w = (Err e', w) ∧ refused_remotely e e'.
Proof.
  unfold reply_to, refused_remotely. destruct (errors_as as_DecisionError e) as [d|] eqn:Hd.
  - assert (AwaitingApproval (Some e) = (dec_Action d =s? ActionRequireApproval)) as -> 
      by (unfold AwaitingApproval; by rewrite (DecisionFrom_decision _ _ Hd)).
    unfold writeDecision. destruct (dec_Action d =s? ActionRequireApproval) eqn:E; autorewrite with mk in E;
      eexists; (split; [apply accept_refusal|]); try (left; apply statusForDeny_not_OK).
    + right. simpl. by rewrite E.
    + unfold refusal, summary. simpl. rewrite E. simpl. split; [done|]. intros _. eexists. split; [done|].
      intros Hr. apply eqs_false in Hr. by rewrite Hr.
    + unfold refusal, summary. simpl. destruct (dec_Action d =s? "") eqn:E2; autorewrite with mk in E2.
      * by rewrite E2.
      * assert (dec_Action d =s? ActionRequireApproval = false) as E' by (by apply eqs_false).
        rewrite AwaitingApproval_Refused. unfold Refused_Pending. simpl. split; [done|]. intros _. eexists.
        split; [done|]. intros Hr. apply eqs_false in Hr. by rewrite Hr.
  - eexists. split; [by apply accept_refusal; left|]. eexists. unfold refusal, summary. simpl. done.
Qed.

(** C22: over a network that delivers, a client and a server configured for one another are
    the door itself, but for the id of the intent. Whatever the door answers for the intent
    the server makes (the caller's own subject, resolved by the directory from his id and his
    groups, where the server takes groups, with the client's account as the service that asked
    for him; the client's action, resource, goal and parameters; an id of the server's own
    making, whatever id the client sent), the client gives its caller that answer: a token
    with the door's value and record, for the intent's resource, that expires at the whole
    second of the door's; or an error that awaits approval exactly when the door's does, with
    the door's action, reason and required approvers. The server knows the client's account
    from its credential or from the header it is named under, and lets it act for others; the
    subject's id and groups survive a header (no blanks at the ends, no comma in a group),
    request and reply survive JSON, and the directory knows the subject. *)
Theorem remote_door_answers_as_the_door intent subject w :
  paired c (srv_options s) → carried_request (request_of intent) →
  Forall (λ g, group_name g = true) (sub_ADGroups (int_Subject intent)) →
  sub_ID (int_Subject intent) = "" ∨ edged (sub_ID (int_Subject intent)) = true →
  door_Resolve (srv_door s) w (external_for c (srv_options s) intent) = Ok subject →
  let '(intentID, w1) := newIntentID Now randomHex Format w in
  let '(answer, w2) := door_Submit (srv_door s) (forwarded c intent subject intentID) w1 in
  let '(_, reply, line) :=
    reply_to Format (mkCaller subject (for_whom c intent).2) (received (request_of intent)) intentID answer in
  let w3 := match line with Some d => slog (decisionLog_emit d) w2 | None => w2 end in
  carried_reply reply →
  match answer with
  | Ok token => tok_Value token ≠ "" → (0 ≤ tok_ExpiresAt token < year_10000)%Z →
      remote Delivered intent w =
        (Ok (mkExecutionToken (tok_Value token)
               (if tok_IntentID token =s? "" then int_ID intent else tok_IntentID token)
               (int_Resource intent) "" (Now w3).1 (whole_second (tok_ExpiresAt token))), (Now w3).2)
  | Err e => ∃ e', remote Delivered intent w = (Err e', w3) ∧ refused_remotely e e'
  end.
Proof.
  intros Hp Hreq Hgs Hid Hres. destruct (request_round_trip _ Hreq) as (b & Hb & Hdec).
  destruct (newIntentID _ _ _ w) as [intentID w1] eqn:Hi.
  destruct (door_Submit _ _ w1) as [answer w2] eqn:Hd.
  destruct (reply_to Format _ _ _ answer) as [[status reply] line] eqn:Hrep. intros w3 Hcar.
  assert (remote Delivered intent w = accept Now Parse c intent status reply w3) as Hremote.
  { unfold remote, Client_Submit. rewrite Hb, Hurl, network_govern. unfold handleGovern.
    rewrite (sent_caller intent b subject w Hp Hgs Hid Hres). cbn [req_Body sent]. rewrite Hdec, Hi.
    fold (forwarded c intent subject intentID). rewrite Hd, Hrep. simpl. by rewrite reply_round_trip. }
  rewrite Hremote. destruct answer as [token|e].
  - intros Hv He. simpl in Hrep. injection Hrep as <- <- <-. unfold accept. simpl.
    apply eqs_false in Hv. rewrite Hv. destruct (Now w3) as [t w4]. simpl.
    destruct (layout_parses (Format := Format) (Parse := Parse) _ He) as [t' Ht]. rewrite Ht.
    by rewrite (layout_floor _ _ Ht).
  - pose proof (accept_error intent (mkCaller subject (for_whom c intent).2) (received (request_of intent)) intentID e w3) as Ha.
    rewrite Hrep in Ha. exact Ha.
Qed.

Lemma accept_Ok intent status decoded w tok w' :
  accept Now Parse c intent status decoded w = (Ok tok, w') →
  status = StatusOK ∧ gr_Outcome decoded = ActionAllow ∧ gr_Token decoded ≠ "" ∧
  tok_Value tok = gr_Token decoded ∧ tok_Scope tok = int_Resource intent ∧
  tok_ExpiresAt tok = default 0%Z (Parse rfc3339 (gr_Expires decoded)).
Proof.
  unfold accept. destruct (negb _ || negb _) eqn:E1; [done|]. destruct (gr_Token decoded =s? "") eqn:E2; [done|].
  destruct (Now w). intros [= <- <-]. boolify. autorewrite with mk in *. simpl. split_and!; try done. lia.
Qed.

(** Only a token of the door is answered as an allow. *)
Lemma reply_to_allow actor body intentID answer status reply line :
  reply_to Format actor body intentID answer = (status, reply, line) → gr_Token reply ≠ "" →
  ∃ token, answer = Ok token ∧ gr_Token reply = tok_Value token ∧ gr_Expires reply = Format rfc3339 (tok_ExpiresAt token).
Proof.
  unfold reply_to. destruct answer as [token|e].
  - intros [= <- <- <-] _. by exists token.
  - destruct (errors_as _ e) as [d|]; [unfold writeDecision; destruct (_ =s? _)|]; by intros [= <- <- <-] ?.
Qed.

(** Whatever the network does to an exchange, the client hands out a token only when the
    door issued it: the reply was delivered, the server found a caller in the request, the
    door was asked about exactly the intent made of it and answered with a token of the same
    value, which is not empty; the client's copy is for the intent's resource and is never
    valid when the door's has expired. *)
Theorem remote_token_was_issued fate intent tok w w' :
  carried_request (request_of intent) →
  (∀ b status reply, (handleGovern s Now randomHex Format slog (sent intent b) w).1 = writeJSON status (BodyGovern reply) →
     carried_reply reply) →
  remote fate intent w = (Ok tok, w') →
  fate = Delivered ∧ ∃ b actor intentID w1 token w2,
    EncodeRequest (request_of intent) = Ok b ∧ resolveCaller s (sent intent b) w = Ok actor ∧
    newIntentID Now randomHex Format w = (intentID, w1) ∧
    door_Submit (srv_door s) (intent_of actor intentID (received (request_of intent))) w1 = (Ok token, w2) ∧
    tok_Value tok = tok_Value token ∧ tok_Value tok ≠ "" ∧ tok_Scope tok = int_Resource intent ∧
    ∀ t, (0 ≤ t)%Z → ExecutionToken_Valid tok t = true → ExecutionToken_Valid token t = true.
Proof.
  intros Hreq Hcar. destruct (request_round_trip _ Hreq) as (b & Hb & Hdec). specialize (Hcar b).
  unfold remote, Client_Submit. rewrite Hb, Hurl, network_govern. unfold handleGovern in *.
  destruct (resolveCaller s (sent intent b) w) as [actor|err] eqn:Hr.
  2: { destruct fate; [|done..]. simpl. rewrite (reply_round_trip _ (Hcar _ _ eq_refl)).
       intros Ha. by apply accept_Ok in Ha as (_ & ? & _). }
  cbn [req_Body sent] in *. rewrite Hdec in *. destruct (newIntentID _ _ _ w) as [intentID w1] eqn:Hi.
  destruct (door_Submit _ _ w1) as [answer w2] eqn:Hd.
  destruct (reply_to Format actor (received (request_of intent)) intentID answer) as [[status reply] line] eqn:Hrep.
  destruct fate; [|done..]. simpl. rewrite (reply_round_trip _ (Hcar _ _ eq_refl)). intros Ha. split; [done|].
  apply accept_Ok in Ha as (_ & _ & Hne & Hv & Hs & He).
  destruct (reply_to_allow _ _ _ _ _ _ _ Hrep Hne) as (token & -> & Hv' & He').
  exists b, actor, intentID, w1, token, w2. split_and!; try done; [congruence..|].
  intros t Ht. unfold ExecutionToken_Valid. rewrite He, He', !Z.ltb_lt.
  destruct (Parse rfc3339 (Format rfc3339 (tok_ExpiresAt token))) as [t'|] eqn:Hp; simpl; [|lia].
  apply layout_floor in Hp as ->. unfold whole_second. intros Hlt.
  pose proof (Z.mul_div_le (tok_ExpiresAt token) 1000000000). lia.
Qed.
End remote.

(** ** What the wire loses *)

(** A group whose name holds a comma, as every distinguished name of a directory does,
    arrives as two groups. *)
Example a_comma_splits_a_group :
  let intent := mkIntent "" (mkSubject "ana" [] ["CN=ops,OU=prod"] false ∅) "" "" (mkIntentSpec "" [] "" [] [] "") ∅ 0 0 "" in
  let c := mkClient "http://door" "estate" "X-Caller" in
  let s := mkServer demo_http_door ∅ demo_http_options in
  assertedGroups s (mkRequest "POST" "/api/govern" (headers_of c intent) ∅ (DLogin "")) = ["CN=ops"; "OU=prod"].
Proof. by vm_compute. Qed.

(** ** Witnesses *)

#[export] Instance demo_client_json : ClientJSON demo_body := {|
  EncodeRequest := λ r, Ok (DGovern (received r));
  DecodeReply := λ b, match b with DReply (BodyGovern r) => Ok r | _ => Err "not a reply" end;
|}.

#[export] Instance demo_wire : Wire demo_body.
Proof.
  refine {| carried_request := λ _, True; carried_reply := λ _, True |}.
  - intros r _. by exists (DGovern (received r)).
  - done.
Defined.

Definition demo_Format (layout : string) (t : Time) : string := bits (encode (t / 1000000000)%Z).
Definition demo_Parse (layout text : string) : option Time :=
  p ← of_bits text; seconds ← decode p; Some (seconds * 1000000000)%Z.

#[export] Instance demo_layout : Layout demo_Format demo_Parse.
Proof.
  assert (∀ t, demo_Parse rfc3339 (demo_Format rfc3339 t) = Some (whole_second t)) as Hp.
  { intros t. unfold demo_Parse, demo_Format. rewrite of_bits_bits.
    cbn [mbind option_bind]. by rewrite decode_encode. }
  split; intros t; rewrite Hp; [by intros t' [= <-]|done].
Qed.

(** The pair: a door that keeps a change for a second person unless one is named. *)
Definition demo_pair_door : Door Z := mkDoor
  (λ i w, if param_string (int_Params i) "requester" =s? ""
          then (Err (ErrorDecision (mkDecision ActionRequireApproval "a second person must approve" "" ["platform"] "p1" [] "")), w)
          else (Ok (mkExecutionToken "tok" (int_ID i) (int_Resource i) "p1" w (w + 1500000000)), (w + 1)%Z))
  (λ _ ext, Ok (mkSubject (ext_ID ext) [RoleOperator] (ext_Groups ext) false ∅)) (λ _, Ok true) None.
Definition demo_pair_server : Server demo_body Z := mkServer demo_pair_door ∅
  (mkOptions (Some demo_pair_door) "x-caller" "x-caller-groups" "x-on-behalf-of" ["estate"] false None).
Definition demo_pair_client : Client := WithCallerHeader " X-Caller " (Client_New "http://door:8080//" "estate").
Definition demo_remote := remote (W := Z) demo_tick demo_hex demo_Format demo_Parse (λ _ w, w) (λ _, None) demo_pair_server
  demo_pair_client (mkResponse 404 None (DLogin "")).

Definition demo_asking (requester : string) : Intent :=
  mkIntent "ESTATE-1" (mkSubject "ana" [] ["Domain Admins"; "ops"] false ∅) "estate.apply" "team/payments"
    (mkIntentSpec "ship it" [] "" [] [] "") {["requester" := VString requester; "scope" := VString "payments"]} 0 0 "".

Lemma demo_paired : paired demo_pair_client (srv_options demo_pair_server).
Proof. split; simpl; try done; try (by right); set_solver. Qed.

(** The pair of the repository's own round trip: the server authenticates the credential of
    the client and takes no groups from a header. *)
Definition demo_authenticate (request : Request demo_body) : result string string :=
  if Header_Get request "Authorization" =s? "Bearer estate" then Ok "estate"
  else Err "the presented credential does not verify".
Definition demo_auth_options : Options demo_body Z :=
  mkOptions (Some demo_pair_door) "X-Caller" "" "X-On-Behalf-Of" ["estate"] false (Some demo_authenticate).

Lemma demo_auth_paired : paired (Client_New "http://door:8080" "estate") demo_auth_options.
Proof.
  split; simpl; try done; try (by left); try set_solver.
  intros request Hh. unfold demo_authenticate. by rewrite Hh, eqs_refl.
Qed.

(** The id a client sends is not the id the door is asked about: two intents that differ in
    it alone are one to the server. *)
Lemma the_clients_id_is_ignored actor intentID intent id :
  intent_of actor intentID (received (request_of intent)) =
  intent_of actor intentID (received (request_of
    (mkIntent id (int_Subject intent) (int_Action intent) (int_Resource intent) (int_Spec intent) (int_Params intent)
       (int_SubmittedAt intent) (int_TTL intent) (int_Via intent)))).
Proof. done. Qed.

Definition demo_subject : Subject := mkSubject "ana" [RoleOperator] ["Domain Admins"; "ops"] false ∅.

(** What the door makes of a request, and what the client then answers. *)
Definition demo_agrees (requester : string) (w : Z) : Prop :=
  let '(intentID, w1) := newIntentID demo_tick demo_hex demo_Format w in
  let '(answer, w2) :=
    door_Submit demo_pair_door (forwarded demo_pair_client (demo_asking requester) demo_subject intentID) w1 in
  match answer with
  | Ok token => tok_Value token ≠ "" → (0 ≤ tok_ExpiresAt token < year_10000)%Z →
      demo_remote Delivered (demo_asking requester) w =
        (Ok (mkExecutionToken (tok_Value token)
               (if tok_IntentID token =s? "" then "ESTATE-1" else tok_IntentID token)
               "team/payments" "" (demo_tick w2).1 (whole_second (tok_ExpiresAt token))), (demo_tick w2).2)
  | Err e => ∃ e', demo_remote Delivered (demo_asking requester) w = (Err e', w2) ∧ refused_remotely e e'
  end.

(** A change that waits, and a token that was issued. *)
Lemma remote_door_answers_as_the_door_witness :
  match (demo_remote Delivered (demo_asking "") 7%Z).1 with Ok _ => false | Err e => AwaitingApproval (Some e) end = true ∧
  match (demo_remote Delivered (demo_asking "bo") 2999999999%Z).1 with Ok tok => tok_ExpiresAt tok | Err _ => 0%Z end = 4000000000%Z ∧
  demo_agrees "" 7%Z ∧ demo_agrees "bo" 2999999999%Z.
Proof.
  split; [by vm_compute|]. split; [by vm_compute|].
  pose proof (λ requester, remote_door_answers_as_the_door demo_tick demo_hex demo_Format demo_Parse (λ _ w, w) (λ _, None)
    demo_pair_server demo_pair_client (mkResponse 404 None (DLogin "")) eq_refl (demo_asking requester) demo_subject) as H.
  assert (∀ requester w, demo_agrees requester w) as Hall; [|by split].
  intros requester w. unfold demo_agrees.
  specialize (H requester w demo_paired I ltac:(by repeat constructor) ltac:(by right) eq_refl).
  change (srv_door demo_pair_server) with demo_pair_door in H.
  destruct (newIntentID demo_tick demo_hex demo_Format w) as [intentID w1]. destruct (door_Submit demo_pair_door _ w1) as [answer w2].
  destruct (reply_to _ _ _ _ answer) as [[status reply] [line|]]; exact (H I).
Defined.

(** The token of the second, and the reply of the second that is lost. *)
Definition demo_issued := demo_remote Delivered (demo_asking "bo") 7%Z.

Lemma remote_token_was_issued_witness :
  match demo_issued.1 with Ok tok => tok_Value tok = "tok" | Err _ => False end ∧
  ∀ tok, demo_issued.1 = Ok tok → ∃ b actor intentID w1 token w2,
    EncodeRequest (request_of (demo_asking "bo")) = Ok b ∧
    resolveCaller demo_pair_server (sent demo_pair_client (demo_asking "bo") b) 7%Z = Ok actor ∧
    newIntentID demo_tick demo_hex demo_Format 7%Z = (intentID, w1) ∧
    door_Submit demo_pair_door (intent_of actor intentID (received (request_of (demo_asking "bo")))) w1 = (Ok token, w2) ∧
    tok_Value tok = tok_Value token ∧ tok_Value tok ≠ "" ∧ tok_Scope tok = "team/payments" ∧
    ∀ t, (0 ≤ t)%Z → ExecutionToken_Valid tok t = true → ExecutionToken_Valid token t = true.
Proof.
  split; [by vm_compute|]. intros tok Htok.
  apply (remote_token_was_issued demo_tick demo_hex demo_Format demo_Parse (λ _ w, w) (λ _, None)
    demo_pair_server demo_pair_client (mkResponse 404 None (DLogin "")) eq_refl Delivered (demo_asking "bo") tok 7%Z demo_issued.2).
  - exact I.
  - by intros.
  - rewrite <- Htok. exact (surjective_pairing demo_issued).
Defined.

(** The error of a reply that was lost says that no decision was made. The door made one,
    issued a token and moved on. *)
Example lost_reply_was_decided :
  (demo_remote (ReplyLost "timeout") (demo_asking "bo") 7%Z).1 =
    Err (ErrorWrap ("door unreachable: timeout — no decision was made, so nothing may be treated as approved or refused")
           [ErrorText "timeout"]) ∧
  (demo_remote (ReplyLost "timeout") (demo_asking "bo") 7%Z).2 = 10%Z ∧
  (demo_remote (RequestLost "timeout") (demo_asking "bo") 7%Z).2 = 7%Z.
Proof. by vm_compute. Qed.

(** A door that failed decided nothing; its error reaches the client as a decision. *)
Example outage_reads_as_a_decision :
  let fails := mkDoor (λ _ w, (Err (ErrorWrap "audit error: disk full" [ErrorText "disk full"]), w))
                 (door_Resolve demo_pair_door) (λ _, Ok true) None in
  let answer := (remote (W := Z) demo_tick demo_hex demo_Format demo_Parse (λ _ w, w) (λ _, None)
    (mkServer fails ∅ (srv_options demo_pair_server)) demo_pair_client (mkResponse 404 None (DLogin ""))
    Delivered (demo_asking "bo") 7%Z).1 in
  (DecisionFrom (Some (ErrorWrap "audit error: disk full" [ErrorText "disk full"]))).2 = false ∧
  match answer with Err e => (dec_Action (DecisionFrom (Some e)).1, (DecisionFrom (Some e)).2) | Ok _ => ("", false) end
    = ("error", true).
Proof. by vm_compute. Qed.
