(* ===== verification/EstateConfig.v ===== *)
(** The estate's configuration and its fleet: [mantlekeep-estate/config] (config.go,
    floor.go, validate.go, ownership.go, live.go), [internal/safepath] and
    [mantlekeep-estate/fleet] (registry.go, capacity.go).

    The strict JSON decoders, SHA-256, files, HTTP and [strconv.ParseFloat] are arguments.
    Go ranges over the maps of a document in no order and stops at the first fault; the
    model takes one order, and what is accepted does not depend on it. *)
From S2P Require Import Prelude Contracts EstateFloor Placement Manifest EstateResolve Fleet.
From Stdlib Require Import Floats.SpecFloat.

(** ** Errors *)

Inductive config_error :=
| EConfigNoPath
| EConfigRead (e : string)
| EConfigDecode (e : string)
| EMissingLimits (asset : string) (tier : Tier)
| ENotPositive (asset : string) (tier : Tier) (field : string) (v : Z)
| ENoAppRuntimes
| ENoCPULimit (runtime : Runtime) (tier : Tier)
| ENoKubernetesVersions
| EMinOverMax (tier : Tier) (minNodes maxNodes : Z)
| EAnyInstanceType (tier : Tier)
| ERuleGateUnknown (name : string) (gate : Gate)
| ERuleUnqualified (name : string)
| ERuleWeakens (name : string) (gate floorGate : Gate) (tier : Tier)
| EGateMissing (tier : Tier)
| EGateUnknown (tier : Tier) (gate : Gate)
| EGateWeak (tier : Tier) (gate builtin : Gate)
| EEnvTierUnknown (env : string) (tier : Tier)
| EEnvTierWeak (env : string) (tier builtin : Tier)
| EConfigNothingToReload.

(** ** validate.go *)

Definition tiers : list Tier := [TierDev; TierShared; TierProd].

Definition missing (asset : string) (tier : Tier) : result config_error unit := Err (EMissingLimits asset tier).

Definition positive_limit (asset : string) (tier : Tier) (field : string) (v : Z) : result config_error unit :=
  if (0 <? v)%Z then Ok tt else Err (ENotPositive asset tier field v).

Definition validateKafkaFloor (floor : Floor) (tier : Tier) : result config_error unit :=
  match fl_Kafka floor !! tier with
  | None => missing "kafka" tier
  | Some limits =>
      _ <-? positive_limit "kafka" tier "producerBytesPerSec" (kl_ProducerBytesPerSec limits) ;
      _ <-? positive_limit "kafka" tier "consumerBytesPerSec" (kl_ConsumerBytesPerSec limits) ;
      positive_limit "kafka" tier "retention" (kl_Retention limits)
  end.

Definition validatePostgresFloor (floor : Floor) (tier : Tier) : result config_error unit :=
  match fl_Postgres floor !! tier with
  | None => missing "postgres" tier
  | Some postgres =>
      _ <-? positive_limit "postgres" tier "connectionLimit" (pl_ConnectionLimit postgres) ;
      _ <-? positive_limit "postgres" tier "statementTimeout" (pl_StatementTimeout postgres) ;
      positive_limit "postgres" tier "idleInTransactionTimeout" (pl_IdleInTransactionTimeout postgres)
  end.

Definition validateHarborFloor (floor : Floor) (tier : Tier) : result config_error unit :=
  match fl_Harbor floor !! tier with
  | None => missing "harbor" tier
  | Some harbor => positive_limit "harbor" tier "robotExpiry" (hl_RobotExpiry harbor)
  end.

Definition validateRuntimeTier (runtime : Runtime) (byTier : gmap string AppLimits) (tier : Tier) :
    result config_error unit :=
  match byTier !! tier with
  | None => missing ("app runtime " +:+ runtime) tier
  | Some limits =>
      _ <-? positive_limit runtime tier "replicas" (al_Replicas limits) ;
      _ <-? positive_limit runtime tier "memoryMiB" (al_MemoryMiB limits) ;
      refuse al_CPULimit limits =s? "" with ENoCPULimit runtime tier ;
      Ok tt
  end.

Definition validateAppFloor (app : gmap string (gmap string AppLimits)) : result config_error unit :=
  refuse bool_decide (app = ∅) with ENoAppRuntimes ;
  first_err (λ '(runtime, byTier), first_err (validateRuntimeTier runtime byTier) tiers) (map_to_list app).

Definition validate_pool (fleet : FleetFloor) (tier : Tier) : result config_error unit :=
  match ff_NodePool fleet !! tier with
  | None => missing "fleet nodePool" tier
  | Some limits =>
      _ <-? positive_limit "fleet nodePool" tier "maxNodes" (npl_MaxNodes limits) ;
      refuse (npl_MinNodes limits <? 0)%Z || (npl_MaxNodes limits <? npl_MinNodes limits)%Z
        with EMinOverMax tier (npl_MinNodes limits) (npl_MaxNodes limits) ;
      refuse bool_decide (npl_AllowedInstanceTypes limits = []) with EAnyInstanceType tier ;
      Ok tt
  end.

Definition validateFleet (fleet : FleetFloor) : result config_error unit :=
  refuse bool_decide (ff_KubernetesVersions fleet = []) with ENoKubernetesVersions ;
  first_err (validate_pool fleet) tiers.

Definition validateFloor (floor : Floor) : result config_error unit :=
  _ <-? first_err (λ tier, first_err (λ check, check floor tier)
          [validateKafkaFloor; validatePostgresFloor; validateHarborFloor]) tiers ;
  _ <-? validateAppFloor (fl_App floor) ;
  validateFleet (fl_Fleet floor).

Definition validate_rule (floor : Floor) (entry : string * AppRule) : result config_error unit :=
  let '(name, rule) := entry in
  if ar_Gate rule =s? "" then Ok tt
  else
    refuse (Gate_Strength (ar_Gate rule) =? 0)%nat with ERuleGateUnknown name (ar_Gate rule) ;
    refuse negb (Contains name "/") with ERuleUnqualified name ;
    first_err (λ tier, refuse (Gate_Strength (ar_Gate rule) <? Gate_Strength (GateFor floor tier))%nat
                         with ERuleWeakens name (ar_Gate rule) (GateFor floor tier) tier ; Ok tt) tiers.
Definition validateApps (floor : Floor) : result config_error unit :=
  first_err (validate_rule floor) (map_to_list (fl_Apps floor)).

Definition validate_gate (floor : Floor) (tier : Tier) : result config_error unit :=
  match fl_Gates floor !! tier with
  | None => Err (EGateMissing tier)
  | Some gate =>
      refuse (Gate_Strength gate =? 0)%nat with EGateUnknown tier gate ;
      let builtin := default "" (DefaultGates !! tier) in
      refuse (Gate_Strength gate <? Gate_Strength builtin)%nat with EGateWeak tier gate builtin ;
      Ok tt
  end.
Definition validateGates (floor : Floor) : result config_error unit := first_err (validate_gate floor) tiers.

Definition validate_env (entry : string * Tier) : result config_error unit :=
  let '(env, tier) := entry in
  refuse (Tier_Strength tier =? 0)%nat with EEnvTierUnknown env tier ;
  match DefaultEnvTiers !! env with
  | Some builtin => refuse (Tier_Strength tier <? Tier_Strength builtin)%nat with EEnvTierWeak env tier builtin ; Ok tt
  | None => Ok tt
  end.
Definition validateEnvTiers (floor : Floor) : result config_error unit :=
  first_err validate_env (map_to_list (fl_EnvTiers floor)).

(** ** floor.go *)

(** The limits of a document are those of the floor: [toFloor] copies each field, and a
    duration is the number of nanoseconds its text stands for. *)
Record fleetFloorDocument := mkFleetFloorDocument {
  ffd_NodePool : gmap string NodePoolLimits;
  ffd_KubernetesVersions : list string;
}.

Record floorDocument := mkFloorDocument {
  fd_Kafka : gmap string KafkaLimits;
  fd_Postgres : gmap string PostgresLimits;
  fd_Harbor : gmap string HarborLimits;
  fd_App : gmap string (gmap string AppLimits);
  fd_Fleet : fleetFloorDocument;
  fd_Gates : gmap string Gate;
  fd_Apps : gmap string AppRule;
  fd_EnvTiers : gmap string Tier;
}.

Definition duration_UnmarshalJSON (UnmarshalString : string → option string)
    (ParseDuration : string → result string Duration) (data : string) : result string Duration :=
  match UnmarshalString data with
  | None => Err ("a duration must be a quoted string such as " +:+ Quote "168h" +:+ " or " +:+ Quote "30s" +:+ ", not " +:+
      data +:+ " — a bare number would be read as nanoseconds, where a dropped zero silently shortens the limit")
  | Some text =>
      match ParseDuration text with
      | Err err => Err (Quote text +:+ " is not a duration: " +:+ err)
      | Ok parsed => Ok parsed
      end
  end.

Definition toFloor (f : floorDocument) : Floor := {|
  fl_Kafka := fd_Kafka f;
  fl_Postgres := fd_Postgres f;
  fl_Harbor := fd_Harbor f;
  fl_App := fd_App f;
  fl_EnvTiers := map_fold (λ env tier m, <[env := tier]> m) DefaultEnvTiers (fd_EnvTiers f);
  fl_Gates := map_fold (λ tier gate m, <[tier := gate]> m) DefaultGates (fd_Gates f);
  fl_Signatures := ∅;
  fl_Apps := fd_Apps f;
  fl_Fleet := {| ff_NodePool := ffd_NodePool (fd_Fleet f); ff_KubernetesVersions := ffd_KubernetesVersions (fd_Fleet f) |};
  fl_Revision := "";
|}.

(** ** ownership.go *)

Record ownershipDocument := mkOwnershipDocument {
  od_Governed : list string;
  od_Watched : list string;
}.

Definition mergeOntoDefault (o : ownershipDocument) : Ownership :=
  let promote (ownership : Ownership) field :=
    mkOwnership ({[field]} ∪ ow_Governed ownership) (ow_Watched ownership ∖ {[field]}) in
  let watch (ownership : Ownership) field :=
    if in_set (ow_Governed ownership) field then ownership
    else mkOwnership (ow_Governed ownership) ({[field]} ∪ ow_Watched ownership) in
  foldl watch (foldl promote DefaultOwnership (od_Governed o)) (od_Watched o).

(** ** internal/safepath *)

(** [filepath.Clean] is the argument. *)
Definition safepath_Clean (filepath_Clean : string → string) (path : string) : result string string :=
  refuse path =s? "" with "config path is empty" ;
  let clean := filepath_Clean path in
  refuse (clean =s? "..") || HasPrefix clean "../" || Contains clean "/../" || HasSuffix clean "/.."
    with "config path " +:+ Quote path +:+ " escapes upward via " +:+ Quote ".." ;
  Ok clean.

(** ** config.go and live.go *)

Record Config := mkConfig {
  cfg_Floor : Floor;
  cfg_Ownership : Ownership;
}.

Record document := mkDocument {
  doc_Floor : floorDocument;
  doc_Ownership : ownershipDocument;
}.

Definition with_revision (floor : Floor) (revision : string) : Floor := {|
  fl_Kafka := fl_Kafka floor; fl_Postgres := fl_Postgres floor; fl_Harbor := fl_Harbor floor; fl_App := fl_App floor;
  fl_EnvTiers := fl_EnvTiers floor; fl_Gates := fl_Gates floor; fl_Signatures := fl_Signatures floor;
  fl_Apps := fl_Apps floor; fl_Fleet := fl_Fleet floor; fl_Revision := revision;
|}.

Record Live := mkLive {
  lv_path : string;
  lv_current : Config;
}.

Section config.
Context (Decode : string → result string document) (sha256_hex : string → string).
Context (filepath_Clean : string → string).

Definition revisionOf (content : string) : string := take_bytes 12 (sha256_hex content).

Definition Config_Parse (content : string) : result config_error Config :=
  match Decode content with
  | Err err => Err (EConfigDecode err)
  | Ok parsed =>
      let floor := toFloor (doc_Floor parsed) in
      _ <-? validateFloor floor ;
      _ <-? validateGates floor ;
      _ <-? validateApps floor ;
      _ <-? validateEnvTiers floor ;
      Ok (mkConfig (with_revision floor (revisionOf content)) (mergeOntoDefault (doc_Ownership parsed)))
  end.

(** [ReadFile] is what the file system holds at the time of the call. *)
Definition Config_Load (ReadFile : string → result string string) (path : string) : result config_error Config :=
  refuse path =s? "" with EConfigNoPath ;
  match safepath_Clean filepath_Clean path with
  | Err err => Err (EConfigRead err)
  | Ok clean =>
      match ReadFile clean with
      | Err err => Err (EConfigRead err)
      | Ok content => Config_Parse content
      end
  end.

Definition OpenLive (ReadFile : string → result string string) (path : string) : result config_error Live :=
  loaded <-? Config_Load ReadFile path ; Ok (mkLive path loaded).

Definition NewLive (loaded : Config) : Live := mkLive "" loaded.

(** The configuration it returns, the error beside it, and the live value after it. *)
Definition Live_Reload (ReadFile : string → result string string) (l : Live) : Config * option config_error * Live :=
  if lv_path l =s? "" then (lv_current l, Some EConfigNothingToReload, l)
  else match Config_Load ReadFile (lv_path l) with
       | Err err => (lv_current l, Some err, l)
       | Ok loaded => (loaded, None, mkLive (lv_path l) loaded)
       end.
End config.

(** ** fleet/registry.go *)

Record fleet_cluster := mkFleetCluster {
  fcl_Name : string;
  fcl_Provider : string;
  fcl_Region : string;
  fcl_Env : string;
  fcl_Purpose : string;
  fcl_Residency : string;
  fcl_Namespace : string;
}.

Inductive fleet_registry_error :=
| ERegistryDecode (e : string)
| ERegistryEmpty
| EClusterNoName
| EClusterTwice (name : string)
| EClusterNoEnv (name : string)
| EClusterNoResidency (name : string)
| EClusterNamespace (name : string) (e : placement_error).

(** One entry of the registry, after [seen] and [clusters]. *)
Definition registry_entry (acc : gset string * list Cluster) (entry : fleet_cluster) :
    result fleet_registry_error (gset string * list Cluster) :=
  let '(seen, clusters) := acc in
  refuse fcl_Name entry =s? "" with EClusterNoName ;
  refuse in_set seen (fcl_Name entry) with EClusterTwice (fcl_Name entry) ;
  refuse fcl_Env entry =s? "" with EClusterNoEnv (fcl_Name entry) ;
  refuse fcl_Residency entry =s? "" with EClusterNoResidency (fcl_Name entry) ;
  match NamespacePattern_Validate (fcl_Namespace entry) with
  | Err err => Err (EClusterNamespace (fcl_Name entry) err)
  | Ok _ =>
      Ok ({[fcl_Name entry]} ∪ seen,
          clusters ++ [mkCluster (fcl_Name entry) (fcl_Provider entry) (fcl_Region entry) (fcl_Env entry)
                         (fcl_Purpose entry) (fcl_Residency entry) ∅ (fcl_Namespace entry) false])
  end.

Fixpoint registry_entries (acc : gset string * list Cluster) (entries : list fleet_cluster) :
    result fleet_registry_error (gset string * list Cluster) :=
  match entries with
  | [] => Ok acc
  | entry :: entries => acc <-? registry_entry acc entry ; registry_entries acc entries
  end.

Definition Fleet_Parse (Decode : string → result string (list fleet_cluster)) (content : string) :
    result fleet_registry_error (list Cluster) :=
  match Decode content with
  | Err err => Err (ERegistryDecode err)
  | Ok entries =>
      refuse bool_decide (entries = []) with ERegistryEmpty ;
      acc <-? registry_entries (∅, []) entries ; Ok acc.2
  end.

Definition with_reachable (cluster : Cluster) (reachable : bool) : Cluster :=
  mkCluster (cl_Name cluster) (cl_Provider cluster) (cl_Region cluster) (cl_Env cluster) (cl_Purpose cluster)
    (cl_Residency cluster) (cl_Labels cluster) (cl_Namespace cluster) reachable.

Definition MarkReachable (clusters : list Cluster) (reachable : gset string) : list Cluster :=
  map (λ cluster, with_reachable cluster (in_set reachable (cl_Name cluster))) clusters.

Definition assumeReachable (clusters : list Cluster) : gset string := list_to_set (map cl_Name clusters).

(** ** fleet/capacity.go *)

Definition float_add (a b : float64) : float64 := SFadd 53 1024 a b.
Definition float_sub (a b : float64) : float64 := SFsub 53 1024 a b.
Definition float_div (a b : float64) : float64 := SFdiv 53 1024 a b.
Definition zero64 : float64 := S754_zero false.

Section capacity.
Context (ParseFloat : string → option float64).

(** [line[strings.LastIndex(line, " ")+1:]] *)
Definition after_last_space (line : string) : option string :=
  match SplitByte " " line with
  | [_] | [] => None
  | parts => last parts
  end.

Definition memoryValue (line : string) : option float64 :=
  if negb (Contains line ("resource=" +:+ Quote "memory")) then None
  else text ← after_last_space line; ParseFloat (TrimSpace text).

Definition read_line (acc : float64 * float64) (line : string) : float64 * float64 :=
  let '(allocatable, requested) := acc in
  if (line =s? "") || HasPrefix line "#" then acc
  else match memoryValue line with
       | None => acc
       | Some v =>
           if HasPrefix line "kube_node_status_allocatable" then (float_add allocatable v, requested)
           else if HasPrefix line "kube_pod_container_resource_requests" then (allocatable, float_add requested v)
           else acc
       end.

(** The lines the bounded scanner gave, and its error. *)
Definition readMemory (scanned : list string * option string) : result string (float64 * float64) :=
  match scanned.2 with
  | Some err => Err err
  | None => Ok (foldl read_line (zero64, zero64) scanned.1)
  end.

(** The share of a cluster's memory, from the answer of its endpoint. *)
Definition KSM_free (endpoint : string) (answer : result string (Z * (list string * option string))) :
    result string float64 :=
  match answer with
  | Err err => Err err
  | Ok (status, body) =>
      refuse negb (status =? 200)%Z with "ksm: " +:+ endpoint +:+ " returned " +:+ Itoa status ;
      totals <-? readMemory body ;
      let '(allocatable, requested) := totals in
      refuse SFleb allocatable zero64 with "ksm: " +:+ endpoint +:+ " reported no allocatable memory" ;
      let free := float_div (float_sub allocatable requested) allocatable in
      Ok (if SFltb free zero64 then zero64 else free)
  end.

(** The reports, and the clusters that could not be read. *)
Definition KSM_Read (endpoints : gmap string string)
    (get : string → result string (Z * (list string * option string))) : list Capacity * list string :=
  foldl (λ '(reports, unread) '(cluster, endpoint),
    match KSM_free endpoint (get endpoint) with
    | Err _ => (reports, unread ++ [cluster])
    | Ok free => (reports ++ [mkCapacity cluster free], unread)
    end) ([], []) (map_to_list endpoints).
End capacity.

(** ** What a configuration is accepted for *)

(** The limits of the three tiers are there and are limits. *)
Record limited_tier (f : Floor) (tier : Tier) : Prop := {
  lt_kafka : ∃ l, fl_Kafka f !! tier = Some l ∧
    (0 < kl_ProducerBytesPerSec l ∧ 0 < kl_ConsumerBytesPerSec l ∧ 0 < kl_Retention l)%Z;
  lt_postgres : ∃ l, fl_Postgres f !! tier = Some l ∧
    (0 < pl_ConnectionLimit l ∧ 0 < pl_StatementTimeout l ∧ 0 < pl_IdleInTransactionTimeout l)%Z;
  lt_harbor : ∃ l, fl_Harbor f !! tier = Some l ∧ (0 < hl_RobotExpiry l)%Z;
  lt_app : ∀ runtime byTier, fl_App f !! runtime = Some byTier →
    ∃ l, byTier !! tier = Some l ∧ (0 < al_Replicas l)%Z ∧ (0 < al_MemoryMiB l)%Z ∧ al_CPULimit l ≠ "";
  lt_pool : ∃ l, ff_NodePool (fl_Fleet f) !! tier = Some l ∧
    (0 < npl_MaxNodes l)%Z ∧ (0 ≤ npl_MinNodes l ≤ npl_MaxNodes l)%Z ∧ npl_AllowedInstanceTypes l ≠ [];
  lt_gate : ∃ gate, fl_Gates f !! tier = Some gate ∧ Gate_Strength gate ≠ 0 ∧
    Gate_Strength (default "" (DefaultGates !! tier)) ≤ Gate_Strength gate;
}.

Record sound_floor (f : Floor) : Prop := {
  sf_tiers tier : tier ∈ tiers → limited_tier f tier;
  sf_runtimes : fl_App f ≠ ∅;
  sf_versions : ff_KubernetesVersions (fl_Fleet f) ≠ [];
  sf_rules name rule : fl_Apps f !! name = Some rule → ar_Gate rule = "" ∨
    (Gate_Strength (ar_Gate rule) ≠ 0 ∧ Contains name "/" = true ∧
     ∀ tier, tier ∈ tiers → Gate_Strength (GateFor f tier) ≤ Gate_Strength (ar_Gate rule));
  sf_envs env tier : fl_EnvTiers f !! env = Some tier → Tier_Strength tier ≠ 0 ∧
    ∀ builtin, DefaultEnvTiers !! env = Some builtin → Tier_Strength builtin ≤ Tier_Strength tier;
}.

Lemma first_err_map_Ok {V E} (f : string * V → result E unit) (m : gmap string V) :
  first_err f (map_to_list m) = Ok tt ↔ ∀ k v, m !! k = Some v → f (k, v) = Ok tt.
Proof.
  rewrite first_err_Ok, Forall_forall. split.
  - intros H k v Hkv. apply H. by apply elem_of_map_to_list.
  - intros H [k v] Hkv. apply H. by apply elem_of_map_to_list.
Qed.

Lemma positive_limit_Ok asset tier field v : positive_limit asset tier field v = Ok tt ↔ (0 < v)%Z.
Proof. unfold positive_limit. destruct (Z.ltb_spec 0 v); naive_solver lia. Qed.

#[local] Hint Rewrite @rbind_unit_Ok @refuse_Ok positive_limit_Ok eqs_false Z.ltb_ge Nat.ltb_ge Nat.eqb_neq orb_false_iff
  negb_false_iff bool_decide_eq_false : cfg.

#[local] Ltac limits_of m := let l := fresh "l" in destruct m as [l|]; autorewrite with cfg;
  [split; [intros; exists l; naive_solver lia|intros (? & [= <-] & ?); naive_solver lia]|split; [done|intros (? & ? & _); done]].

Lemma validate_tier_Ok f tier :
  first_err (λ check, check f tier) [validateKafkaFloor; validatePostgresFloor; validateHarborFloor] = Ok tt ↔
  (∃ l, fl_Kafka f !! tier = Some l ∧
    (0 < kl_ProducerBytesPerSec l ∧ 0 < kl_ConsumerBytesPerSec l ∧ 0 < kl_Retention l)%Z) ∧
  (∃ l, fl_Postgres f !! tier = Some l ∧
    (0 < pl_ConnectionLimit l ∧ 0 < pl_StatementTimeout l ∧ 0 < pl_IdleInTransactionTimeout l)%Z) ∧
  (∃ l, fl_Harbor f !! tier = Some l ∧ (0 < hl_RobotExpiry l)%Z).
Proof.
  simpl. autorewrite with cfg. unfold validateKafkaFloor, validatePostgresFloor, validateHarborFloor.
  assert (∀ (A B C A' B' C' : Prop), (A ↔ A') → (B ↔ B') → (C ↔ C') → (A ∧ B ∧ C ∧ Ok tt = Ok (E := config_error) tt ↔ A' ∧ B' ∧ C')) as Hiff by tauto.
  apply Hiff; clear Hiff.
  - limits_of (fl_Kafka f !! tier).
  - limits_of (fl_Postgres f !! tier).
  - limits_of (fl_Harbor f !! tier).
Qed.

Lemma validateAppFloor_Ok app :
  validateAppFloor app = Ok tt ↔ app ≠ ∅ ∧
  ∀ tier, tier ∈ tiers → ∀ runtime byTier, app !! runtime = Some byTier →
    ∃ l, byTier !! tier = Some l ∧ (0 < al_Replicas l)%Z ∧ (0 < al_MemoryMiB l)%Z ∧ al_CPULimit l ≠ "".
Proof.
  unfold validateAppFloor. autorewrite with cfg. rewrite first_err_map_Ok. apply and_iff_compat_l.
  assert (∀ runtime byTier tier, validateRuntimeTier runtime byTier tier = Ok tt ↔
    ∃ l, byTier !! tier = Some l ∧ (0 < al_Replicas l)%Z ∧ (0 < al_MemoryMiB l)%Z ∧ al_CPULimit l ≠ "") as Hone.
  { intros runtime byTier tier. unfold validateRuntimeTier. limits_of (byTier !! tier). }
  setoid_rewrite first_err_Ok. setoid_rewrite Forall_forall. setoid_rewrite Hone. naive_solver.
Qed.

Lemma validateFleet_Ok fleet :
  validateFleet fleet = Ok tt ↔ ff_KubernetesVersions fleet ≠ [] ∧
  ∀ tier, tier ∈ tiers → ∃ l, ff_NodePool fleet !! tier = Some l ∧
    (0 < npl_MaxNodes l)%Z ∧ (0 ≤ npl_MinNodes l ≤ npl_MaxNodes l)%Z ∧ npl_AllowedInstanceTypes l ≠ [].
Proof.
  unfold validateFleet. autorewrite with cfg. rewrite first_err_Ok, Forall_forall. apply and_iff_compat_l.
  apply forall_proper. intros tier. apply iff_trans with (B := tier ∈ tiers → validate_pool fleet tier = Ok tt); [done|].
  assert (validate_pool fleet tier = Ok tt ↔ ∃ l, ff_NodePool fleet !! tier = Some l ∧
    (0 < npl_MaxNodes l)%Z ∧ (0 ≤ npl_MinNodes l ≤ npl_MaxNodes l)%Z ∧ npl_AllowedInstanceTypes l ≠ []) as ->; [|done].
  unfold validate_pool. limits_of (ff_NodePool fleet !! tier).
Qed.

Lemma validateGates_Ok f :
  validateGates f = Ok tt ↔ ∀ tier, tier ∈ tiers →
    ∃ gate, fl_Gates f !! tier = Some gate ∧ Gate_Strength gate ≠ 0 ∧
      Gate_Strength (default "" (DefaultGates !! tier)) ≤ Gate_Strength gate.
Proof.
  unfold validateGates. rewrite first_err_Ok, Forall_forall.
  assert (∀ tier, validate_gate f tier = Ok tt ↔ ∃ gate, fl_Gates f !! tier = Some gate ∧ Gate_Strength gate ≠ 0 ∧
      Gate_Strength (default "" (DefaultGates !! tier)) ≤ Gate_Strength gate) as H.
  { intros tier. unfold validate_gate. limits_of (fl_Gates f !! tier). }
  by setoid_rewrite H.
Qed.

Lemma validateApps_Ok f :
  validateApps f = Ok tt ↔ ∀ name rule, fl_Apps f !! name = Some rule → ar_Gate rule = "" ∨
    (Gate_Strength (ar_Gate rule) ≠ 0 ∧ Contains name "/" = true ∧
     ∀ tier, tier ∈ tiers → Gate_Strength (GateFor f tier) ≤ Gate_Strength (ar_Gate rule)).
Proof.
  unfold validateApps. rewrite first_err_map_Ok. apply forall_proper. intros name. apply forall_proper. intros rule.
  unfold validate_rule. destruct (ar_Gate rule =s? "") eqn:E; autorewrite with mk in E; [tauto|].
  autorewrite with cfg. rewrite first_err_Ok, Forall_forall. setoid_rewrite refuse_Ok. setoid_rewrite Nat.ltb_ge.
  naive_solver.
Qed.

Lemma validateEnvTiers_Ok f :
  validateEnvTiers f = Ok tt ↔ ∀ env tier, fl_EnvTiers f !! env = Some tier → Tier_Strength tier ≠ 0 ∧
    ∀ builtin, DefaultEnvTiers !! env = Some builtin → Tier_Strength builtin ≤ Tier_Strength tier.
Proof.
  unfold validateEnvTiers. rewrite first_err_map_Ok. apply forall_proper. intros env. apply forall_proper. intros tier.
  unfold validate_env. autorewrite with cfg. destruct (DefaultEnvTiers !! env); autorewrite with cfg; naive_solver.
Qed.

Lemma sound_floor_Ok f :
  sound_floor f ↔ validateFloor f = Ok tt ∧ validateGates f = Ok tt ∧ validateApps f = Ok tt ∧ validateEnvTiers f = Ok tt.
Proof.
  unfold validateFloor. autorewrite with cfg.
  rewrite validateAppFloor_Ok, validateFleet_Ok, validateGates_Ok, validateApps_Ok, validateEnvTiers_Ok.
  rewrite first_err_Ok, Forall_forall. setoid_rewrite validate_tier_Ok. split.
  - intros [Ht Ha Hv Hr He]. split_and!; try done; intros tier Htier; destruct (Ht tier Htier); done.
  - intros ((Ht & (Ha & Hat) & Hv & Hp) & Hg & Hr & He). split; try done. intros tier Htier.
    destruct (Ht tier Htier) as (? & ? & ?). split; auto. intros rt bt Hrt. by apply (Hat tier Htier rt bt).
Qed.

Lemma sound_with_revision f r : sound_floor f → sound_floor (with_revision f r).
Proof.
  intros [Ht Ha Hv Hr He]. split; try done. intros tier Htier. by destruct (Ht tier Htier).
Qed.

Lemma accepted_is_sound Decode sha256_hex content cfg :
  Config_Parse Decode sha256_hex content = Ok cfg → sound_floor (cfg_Floor cfg).
Proof.
  intros H. unfold Config_Parse in H. destruct (Decode content) as [doc|]; [|done].
  apply rbind_Ok in H as ([] & H1 & H). apply rbind_Ok in H as ([] & H2 & H).
  apply rbind_Ok in H as ([] & H3 & H). apply rbind_Ok in H as ([] & H4 & H). injection H as <-.
  by apply sound_with_revision, sound_floor_Ok.
Qed.

(** Exactly the documents whose floor is sound are a configuration. [Parse] succeeds if and
    only if the strict decoder does and the floor made of the document (its gates and
    environment tiers over the built-in ones) gives, for every tier, positive limits for
    kafka, postgres, harbor, every runtime and the node pool, a gate that is known and no
    weaker than the built-in one; names a runtime and a version; has app rules that are
    team-qualified and no weaker than any tier's gate; and environment tiers no weaker than
    the built-in ones. The revision in force is the digest of the very bytes. *)
Theorem config_accepts_exactly Decode sha256_hex content cfg :
  Config_Parse Decode sha256_hex content = Ok cfg ↔
  ∃ doc, Decode content = Ok doc ∧ sound_floor (toFloor (doc_Floor doc)) ∧
    cfg = mkConfig (with_revision (toFloor (doc_Floor doc)) (take_bytes 12 (sha256_hex content)))
            (mergeOntoDefault (doc_Ownership doc)).
Proof.
  split.
  - intros H. pose proof (accepted_is_sound _ _ _ _ H) as Hs. unfold Config_Parse in H.
    destruct (Decode content) as [doc|]; [|done]. exists doc. split; [done|].
    repeat (apply rbind_Ok in H as ([] & ? & H)). injection H as <-. split; [|done].
    apply sound_floor_Ok. done.
  - intros (doc & Hd & (H1 & H2 & H3 & H4)%sound_floor_Ok & ->). unfold Config_Parse. by rewrite Hd, H1, H2, H3, H4.
Qed.

(** ** What an accepted configuration governs *)

(** No limit of a change is absent or zero. *)
Definition limited (l : limits) : Prop :=
  match l with
  | LKafka l => (0 < kl_ProducerBytesPerSec l ∧ 0 < kl_ConsumerBytesPerSec l ∧ 0 < kl_Retention l)%Z
  | LPostgres l => (0 < pl_ConnectionLimit l ∧ 0 < pl_StatementTimeout l ∧ 0 < pl_IdleInTransactionTimeout l)%Z
  | LHarbor l => (0 < hl_RobotExpiry l)%Z
  | LApp l => (0 < al_Replicas l)%Z ∧ (0 < al_MemoryMiB l)%Z ∧ al_CPULimit l ≠ ""
  | _ => False
  end.

Lemma Tier_valid_tiers t : Tier_valid t = true ↔ t ∈ tiers.
Proof.
  unfold Tier_valid, tiers. rewrite ?orb_true_iff, ?eqs_true, !elem_of_cons, elem_of_nil. tauto.
Qed.

Lemma sound_limits f i : sound_floor f → di_Tier i ∈ tiers → has_floor_limits f i → limited (di_Limits i).
Proof.
  intros Hs Ht. destruct (sf_tiers _ Hs _ Ht) as [(? & Hk & ?) (? & Hp & ?) (? & Hh & ?) Ha _ _].
  unfold has_floor_limits. destruct (di_Limits i); simpl; try done; try (intros [_ ?]; simplify_eq; done).
  intros [_ (byTier & Hb & Hl)]. destruct (Ha _ _ Hb) as (? & ? & ?). by simplify_eq.
Qed.

Lemma sound_gate f t : sound_floor f → t ∈ tiers →
  Gate_Strength (default "" (DefaultGates !! t)) ≤ Gate_Strength (GateFor f t).
Proof.
  intros Hs Ht. destruct (sf_tiers _ Hs _ Ht) as [_ _ _ _ _ (gate & Hg & _ & ?)].
  unfold GateFor. by rewrite Hg.
Qed.

Lemma MinTierFor_sound f env tier :
  sound_floor f → MinTierFor f env = Some tier →
  ∀ builtin, DefaultEnvTiers !! env = Some builtin → Tier_Strength builtin ≤ Tier_Strength tier.
Proof.
  intros Hs. unfold MinTierFor. destruct (fl_EnvTiers f !! env) eqn:E.
  - intros [= <-]. by apply (sf_envs _ Hs _ _ E).
  - intros Hd builtin Hb. simplify_eq. done.
Qed.

(** A change for a harbor project comes from the harbor section, at the section's own tier. *)
Lemma harbor_project_of_section m floor placer placed d i :
  ResolveWith m floor placer placed = Ok d → i ∈ d_Changes d → di_Asset i = "harbor" → di_Kind i = "project" →
  ∃ h l, m_Harbor m = Some h ∧ fl_Harbor floor !! orTier (hs_Tier h) (m_Tier m) = Some l ∧
    i = harbor_item m floor "project" (orName (hs_Project h) (m_Owns m)) (orTier (hs_Tier h) (m_Tier m)) l.
Proof.
  intros (k & p & h & a & Hk & Hp & Hh & Ha & ->)%resolve_Ok Hi Hasset Hkind. simpl in Hi. rewrite !elem_of_app in Hi.
  destruct Hi as [Hi|[Hi|[Hi|Hi]]]; [exfalso|exfalso| |exfalso].
  - unfold resolveKafka in Hk. destruct (m_Kafka m) as [ks|]; [|injection Hk as <-; by apply not_elem_of_nil in Hi].
    destruct (fl_Kafka floor !! _); [|done]. apply rbind_Ok in Hk as (ts & Hts & [= <-]).
    apply elem_of_cons in Hi as [->|Hi]; [done|]. destruct (mapM_err_elem _ _ _ _ Hts Hi) as (t & _ & Ht).
    unfold resolve_topic in Ht. destruct (fl_Kafka floor !! _); [|done]. by injection Ht as <-.
  - destruct (mapM_err_elem _ _ _ _ Hp Hi) as (t & _ & Ht). unfold resolve_bind in Ht.
    destruct (fl_Postgres floor !! _); [|done]. by injection Ht as <-.
  - unfold resolveHarbor in Hh. destruct (m_Harbor m) as [hs|]; [|injection Hh as <-; by apply not_elem_of_nil in Hi].
    destruct (fl_Harbor floor !! orTier _ _) as [l|] eqn:Hl; [|done]. apply rbind_Ok in Hh as (ts & Hts & [= <-]).
    apply elem_of_cons in Hi as [->|Hi]; [by exists hs, l|]. destruct (mapM_err_elem _ _ _ _ Hts Hi) as (t & _ & Ht).
    unfold resolve_robot in Ht. destruct (fl_Harbor floor !! tierOf m t); [|done]. by injection Ht as <-.
  - destruct (mapM_err_elem _ _ _ _ Ha Hi) as (x & _ & Hr). unfold resolve_app in Hr.
    apply rbind_Ok in Hr as ([tier l] & _ & Hr). apply rbind_Ok in Hr as ([? ?] & _ & Hr).
    destruct (Render _ _ _); [|done]. by injection Hr as <-.
Qed.

(** A change whose tier is no tier is a harbor project of a section that says so. *)
Lemma unknown_tier_is_a_section m floor placer placed d i :
  valid_manifest m → ResolveWith m floor placer placed = Ok d → i ∈ d_Changes d → Tier_valid (di_Tier i) = false →
  ∃ h l, m_Harbor m = Some h ∧ hs_Tier h ≠ "" ∧ Tier_valid (hs_Tier h) = false ∧ fl_Harbor floor !! hs_Tier h = Some l ∧
    i = harbor_item m floor "project" (orName (hs_Project h) (m_Owns m)) (hs_Tier h) l.
Proof.
  intros Hm Hr Hi Hv. pose proof (gc_tier _ _ _ _ (resolve_governed _ _ _ _ _ i Hm Hr Hi)) as Ht.
  pose proof (rank_strength _ (vm_tier _ Hm)) as Hrank.
  destruct (decide (di_Asset i = "harbor" ∧ di_Kind i = "project")) as [[Ha Hk]|Hn].
  - destruct (harbor_project_of_section _ _ _ _ _ _ Hr Hi Ha Hk) as (h & l & Hh & Hl & ->).
    exists h, l. assert (hs_Tier h ≠ "") as Hne.
    { intros E. unfold orTier in Hv. cbn [di_Tier harbor_item] in Hv. rewrite E in Hv.
      change (Tier_valid (m_Tier m) = false) in Hv.
      unfold Tier_valid in Hv. unfold Tier_Strength in Hrank.
      apply orb_false_iff in Hv as [[Hv1 Hv2]%orb_false_iff Hv3]. rewrite Hv1, Hv2, Hv3 in Hrank. lia. }
    assert (orTier (hs_Tier h) (m_Tier m) = hs_Tier h) as Ho.
    { unfold orTier. apply eqs_false in Hne. by rewrite Hne. }
    rewrite Ho in *. done.
  - exfalso. specialize (Ht Hn). assert (Tier_Strength (di_Tier i) = 0) as H0; [|lia].
    unfold Tier_valid in Hv. unfold Tier_Strength. by apply orb_false_iff in Hv as [[-> ->]%orb_false_iff ->].
Qed.

(** C29: configuration chooses the policy and cannot reach the guarantee. Whatever document a
    deployment writes, if it is accepted, every change of every valid manifest resolved
    against it carries limits that are all positive, has a gate at least as strong as the
    built-in one of its tier, and, for an app, is governed at least at the tier built in for
    the environment it runs in. There is one exception, and this is all of it: the harbor
    project of a manifest whose harbor section names a tier that is none of the three, where
    the document gives harbor limits for that very name. Such a project carries those limits
    and the document's gate for that name, which no check has looked at. *)
Theorem accepted_config_keeps_the_guarantee Decode sha256_hex content cfg m placer placed d i :
  Config_Parse Decode sha256_hex content = Ok cfg → valid_manifest m →
  ResolveWith m (cfg_Floor cfg) placer placed = Ok d → i ∈ d_Changes d →
  (∃ h l, m_Harbor m = Some h ∧ hs_Tier h ≠ "" ∧ Tier_valid (hs_Tier h) = false ∧
     fl_Harbor (cfg_Floor cfg) !! hs_Tier h = Some l ∧
     i = harbor_item m (cfg_Floor cfg) "project" (orName (hs_Project h) (m_Owns m)) (hs_Tier h) l) ∨
  limited (di_Limits i) ∧
  Gate_Strength (default "" (DefaultGates !! di_Tier i)) ≤ Gate_Strength (di_Gate i) ∧
  (di_Asset i = "app" → ∃ a, a ∈ m_Apps m ∧ app_Image a = di_Image i ∧
     ∀ builtin, DefaultEnvTiers !! pm_Env (app_Placement a) = Some builtin → Tier_Strength builtin ≤ Tier_Strength (di_Tier i)).
Proof.
  intros Hc Hm Hr Hi. apply accepted_is_sound in Hc.
  destruct (Tier_valid (di_Tier i)) eqn:Hv; [right|left; by eapply unknown_tier_is_a_section].
  apply Tier_valid_tiers in Hv. pose proof (resolve_governed _ _ _ _ _ i Hm Hr Hi) as [Hl Hg _ _ Ha].
  split; [by apply (sound_limits _ _ Hc)|]. split; [pose proof (sound_gate _ _ Hc Hv); lia|].
  intros Happ. destruct (Ha Happ) as (a & Hin & [_ (minimum & Hmin & ?) _ _ _ _ Himg _]). exists a. split_and!; try done.
  intros builtin Hb. pose proof (MinTierFor_sound _ _ _ Hc Hmin _ Hb). lia.
Qed.

(** The floor of a configuration asks for the built-in number of signatures, whatever the
    document says: it has no word for them. *)
Lemma signatures_are_not_configurable Decode sha256_hex content cfg gate :
  Config_Parse Decode sha256_hex content = Ok cfg →
  SignaturesFor (cfg_Floor cfg) gate = default 1%Z (DefaultSignatures !! gate).
Proof.
  unfold Config_Parse. destruct (Decode content); [|done]. intros H.
  repeat (apply rbind_Ok in H as ([] & ? & H)). by injection H as <-.
Qed.

(** ** Ownership *)

(** A document adds and promotes: nothing it says makes a governed field watched or
    unowned, and the two sets stay disjoint. *)
Lemma merge_only_tightens o :
  let ownership := mergeOntoDefault o in
  ow_Governed ownership = ow_Governed DefaultOwnership ∪ list_to_set (od_Governed o) ∧
  (∀ f, f ∈ ow_Watched ownership ↔
     (f ∈ ow_Watched DefaultOwnership ∨ f ∈ od_Watched o) ∧ f ∉ ow_Governed ownership) ∧
  ow_Governed ownership ## ow_Watched ownership.
Proof.
  cbv zeta. unfold mergeOntoDefault.
  assert (∀ l ow, ow_Governed ow ## ow_Watched ow →
    let r := foldl (λ ownership field, mkOwnership ({[field]} ∪ ow_Governed ownership) (ow_Watched ownership ∖ {[field]})) ow l in
    ow_Governed r = ow_Governed ow ∪ list_to_set l ∧
    (∀ f, f ∈ ow_Watched r ↔ f ∈ ow_Watched ow ∧ f ∉ ow_Governed r) ∧ ow_Governed r ## ow_Watched r) as Hpromote.
  { induction l as [|x l IH]; intros ow Hd; simpl; [set_solver|].
    destruct (IH (mkOwnership ({[x]} ∪ ow_Governed ow) (ow_Watched ow ∖ {[x]}))) as (H1 & H2 & H3); [set_solver|].
    simpl in *. split; [rewrite H1; set_solver|]. split; [|done]. intros f. rewrite H2, H1. set_solver. }
  assert (∀ l ow, ow_Governed ow ## ow_Watched ow →
    let r := foldl (λ ownership field, if in_set (ow_Governed ownership) field then ownership
      else mkOwnership (ow_Governed ownership) ({[field]} ∪ ow_Watched ownership)) ow l in
    ow_Governed r = ow_Governed ow ∧
    (∀ f, f ∈ ow_Watched r ↔ (f ∈ ow_Watched ow ∨ f ∈ l) ∧ f ∉ ow_Governed r)) as Hwatch.
  { induction l as [|x l IH]; intros ow Hd; simpl; [set_solver|].
    destruct (in_set (ow_Governed ow) x) eqn:E; autorewrite with mk in E.
    - destruct (IH ow Hd) as (H1 & H2). split; [done|]. intros f. rewrite H2, H1. set_solver.
    - destruct (IH (mkOwnership (ow_Governed ow) ({[x]} ∪ ow_Watched ow))) as (H1 & H2); [simpl; set_solver|].
      simpl in *. split; [done|]. intros f. rewrite H2, H1. set_solver. }
  assert (ow_Governed DefaultOwnership ## ow_Watched DefaultOwnership) as Hd.
  { apply (bool_decide_eq_true_1 (_ ## _)). by vm_compute. }
  destruct (Hpromote (od_Governed o) DefaultOwnership Hd) as (P1 & P2 & P3). cbv zeta in *.
  destruct (Hwatch (od_Watched o) _ P3) as (W1 & W2). cbv zeta in *.
  split_and!.
  - by rewrite W1.
  - intros f. rewrite W2, P2, W1. tauto.
  - intros f Hg Hw. apply W2 in Hw as [_ Hw]. done.
Qed.

(** ** Reloading *)

Section reloading.
Context (Decode : string → result string document) (sha256_hex : string → string) (filepath_Clean : string → string).

(** Reloads, each with the file system of its time. *)
Definition reload_all (reads : list (string → result string string)) (l : Live) : Live :=
  foldl (λ l ReadFile, (Live_Reload Decode sha256_hex filepath_Clean ReadFile l).2) l reads.

(** The last of some file systems whose file is a configuration. *)
Definition last_good (path : string) (reads : list (string → result string string)) (cfg : Config) : Prop :=
  ∃ before ReadFile after, reads = before ++ ReadFile :: after ∧
    Config_Load Decode sha256_hex filepath_Clean ReadFile path = Ok cfg ∧
    Forall (λ r, is_ok (Config_Load Decode sha256_hex filepath_Clean r path) = false) after.

Lemma Config_Load_Ok ReadFile path cfg :
  Config_Load Decode sha256_hex filepath_Clean ReadFile path = Ok cfg ↔
  path ≠ "" ∧ ∃ clean content, safepath_Clean filepath_Clean path = Ok clean ∧ ReadFile clean = Ok content ∧
    Config_Parse Decode sha256_hex content = Ok cfg.
Proof.
  unfold Config_Load. destruct (path =s? "") eqn:E; autorewrite with mk in E; [naive_solver|].
  destruct (safepath_Clean _ path) as [clean|]; [|naive_solver]. destruct (ReadFile clean) eqn:E2; split;
    [intros; eauto 8|intros (_ & ? & ? & [= <-] & ? & ?); congruence|done|intros (_ & ? & ? & [= <-] & ? & ?); congruence].
Qed.

(** A reload keeps the path, and holds the last file that was a configuration. *)
Lemma reload_all_good path reads pre l :
  path ≠ "" → lv_path l = path → last_good path pre (lv_current l) →
  lv_path (reload_all reads l) = path ∧ last_good path (pre ++ reads) (lv_current (reload_all reads l)).
Proof.
  intros Hne. revert pre l. induction reads as [|r reads IH]; intros pre l Hp Hg; [by rewrite app_nil_r|].
  rewrite cons_middle, app_assoc. change (reload_all (r :: reads) l) with (reload_all reads (Live_Reload Decode sha256_hex filepath_Clean r l).2).
  unfold Live_Reload. rewrite Hp, (proj2 (eqs_false path "") Hne).
  destruct (Config_Load _ _ _ r path) as [c|e] eqn:E; simpl; apply IH; try done.
  - exists pre, r, []. done.
  - destruct Hg as (before & x & after & -> & ? & Hf). exists before, x, (after ++ [r]).
    split; [by rewrite <- app_assoc|]. split; [done|]. apply Forall_app. split; [done|]. by rewrite Forall_singleton, E.
Qed.

Lemma OpenLive_Ok path ReadFile l : OpenLive Decode sha256_hex filepath_Clean ReadFile path = Ok l →
  path ≠ "" ∧ lv_path l = path ∧ last_good path [ReadFile] (lv_current l).
Proof.
  unfold OpenLive. intros (cfg & Hload & [= <-])%rbind_Ok. apply Config_Load_Ok in Hload as Hne.
  split; [apply Hne|]. split; [done|]. by exists [], ReadFile, [].
Qed.

(** Whatever is in force by then is one sound document. *)
Lemma last_good_sound path reads cfg : last_good path reads cfg →
  sound_floor (cfg_Floor cfg) ∧ ∃ content, Config_Parse Decode sha256_hex content = Ok cfg ∧
    fl_Revision (cfg_Floor cfg) = take_bytes 12 (sha256_hex content).
Proof.
  intros (_ & r & _ & _ & Hl & _). apply Config_Load_Ok in Hl as (_ & _ & content & _ & _ & Hparse).
  split; [by eapply accepted_is_sound|]. exists content. split; [done|].
  unfold Config_Parse in Hparse. destruct (Decode content); [|done].
  repeat (apply rbind_Ok in Hparse as ([] & ? & Hparse)). by injection Hparse as <-.
Qed.

(** The floor in force is always one whole, sound document. A live configuration that
    was opened holds, after any reload_all from whatever the file has become each time,
    exactly what the last file that was a configuration says: one content, parsed as a
    whole, with the revision of its bytes; never a mixture, never an unsound floor, and a
    file that is missing, unreadable, malformed or unsound changes nothing. *)
Theorem floor_in_force_is_always_sound path read0 reads l :
  OpenLive Decode sha256_hex filepath_Clean read0 path = Ok l →
  let l' := reload_all reads l in
  lv_path l' = path ∧ last_good path (read0 :: reads) (lv_current l') ∧ sound_floor (cfg_Floor (lv_current l')) ∧
  ∃ content, Config_Parse Decode sha256_hex content = Ok (lv_current l') ∧
    fl_Revision (cfg_Floor (lv_current l')) = take_bytes 12 (sha256_hex content).
Proof.
  intros (Hne & Hp & Hg)%OpenLive_Ok l'. destruct (reload_all_good path reads [read0] l Hne Hp Hg) as [H1 H2].
  split; [done|]. split; [done|]. by eapply last_good_sound.
Qed.
End reloading.

(** ** The fleet *)

(** What an entry of the registry must say. *)
Definition placeable_entry (e : fleet_cluster) : Prop :=
  fcl_Name e ≠ "" ∧ fcl_Env e ≠ "" ∧ fcl_Residency e ≠ "" ∧ NamespacePattern_Validate (fcl_Namespace e) = Ok tt.

Definition cluster_of (e : fleet_cluster) : Cluster :=
  mkCluster (fcl_Name e) (fcl_Provider e) (fcl_Region e) (fcl_Env e) (fcl_Purpose e) (fcl_Residency e) ∅ (fcl_Namespace e) false.

Lemma registry_entries_Ok entries seen clusters acc :
  registry_entries (seen, clusters) entries = Ok acc ↔
  Forall placeable_entry entries ∧ NoDup (map fcl_Name entries) ∧ (∀ n, n ∈ map fcl_Name entries → n ∉ seen) ∧
  acc = (list_to_set (map fcl_Name entries) ∪ seen, clusters ++ map cluster_of entries).
Proof.
  revert seen clusters. induction entries as [|e entries IH]; intros seen clusters; cbn [registry_entries].
  { rewrite app_nil_r. simpl. rewrite union_empty_l_L. split; [intros [= <-]|intros (_ & _ & _ & ->)]; [|done].
    split_and!; [constructor|constructor| |done]. intros n Hn. by apply not_elem_of_nil in Hn. }
  rewrite rbind_Ok. unfold registry_entry. setoid_rewrite refuse_Ok. setoid_rewrite refuse_Ok. setoid_rewrite refuse_Ok.
  setoid_rewrite refuse_Ok. setoid_rewrite eqs_false. setoid_rewrite in_set_false. cbn [map]. rewrite Forall_cons, NoDup_cons.
  unfold placeable_entry at 1. split.
  - intros (a & (Hn & Hs & He & Hr & Ha) & H). destruct (NamespacePattern_Validate (fcl_Namespace e)) as [[]|] eqn:Hv; [|done].
    injection Ha as <-. apply IH in H as (H1 & H2 & H3 & ->). split_and!; try done.
    + intros Hin. apply (H3 _ Hin). set_solver.
    + intros n [->|Hin]%elem_of_cons; [done|]. specialize (H3 _ Hin). set_solver.
    + apply (f_equal2 pair); [simpl; set_solver|by rewrite <- app_assoc].
  - intros (((Hn & He & Hr & Hv) & H1) & (H2 & H3) & H4 & ->). rewrite Hv.
    eexists. split; [split_and!; try done; apply H4; left|].
    apply IH. split_and!; try done.
    + intros n Hin. assert (n ≠ fcl_Name e) by (by intros ->). specialize (H4 n ltac:(by right)). set_solver.
    + apply (f_equal2 pair); [simpl; set_solver|by rewrite <- app_assoc].
Qed.

(** The registry is accepted exactly when it names clusters, each once, each with an
    environment, a residency and a readable namespace pattern; and what it gives is those
    clusters, none of them reachable until somebody looked. *)
Lemma registry_accepts_exactly DecodeFleet content clusters :
  Fleet_Parse DecodeFleet content = Ok clusters ↔
  ∃ entries, DecodeFleet content = Ok entries ∧ entries ≠ [] ∧ Forall placeable_entry entries ∧
    NoDup (map fcl_Name entries) ∧ clusters = map cluster_of entries.
Proof.
  unfold Fleet_Parse. destruct (DecodeFleet content) as [entries|e]; [|naive_solver].
  rewrite refuse_Ok, bool_decide_eq_false, rbind_Ok. setoid_rewrite registry_entries_Ok. split.
  - intros (Hne & a & (H1 & H2 & _ & ->) & [= <-]). by exists entries.
  - intros (? & [= <-] & Hne & H1 & H2 & ->). split; [done|]. eexists. split; [split_and!; try done; set_solver|done].
Qed.

Lemma MarkReachable_spec clusters reachable c :
  c ∈ MarkReachable clusters reachable ↔
  ∃ c0, c0 ∈ clusters ∧ c = with_reachable c0 (in_set reachable (cl_Name c0)).
Proof. unfold MarkReachable. rewrite elem_of_map. naive_solver. Qed.

(** ** Capacity *)

Lemma KSM_free_Ok ParseFloat endpoint answer free :
  KSM_free ParseFloat endpoint answer = Ok free →
  SFltb free zero64 = false ∧ ∃ lines totals, answer = Ok (200%Z, (lines, None)) ∧
    totals = foldl (read_line ParseFloat) (zero64, zero64) lines ∧ SFleb totals.1 zero64 = false.
Proof.
  unfold KSM_free. destruct answer as [[status [lines err]]|]; [|done]. rewrite refuse_Ok, negb_false_iff, Z.eqb_eq.
  intros [-> H]. apply rbind_Ok in H as ([a r] & Ht & H). apply refuse_Ok in H as [Hle [= <-]].
  unfold readMemory in Ht. simpl in Ht. destruct err; [done|]. injection Ht as Ht. split.
  - by destruct (SFltb (float_div (float_sub a r) a) zero64) eqn:E.
  - exists lines, (a, r). by rewrite Ht.
Qed.

(** Every cluster that has an endpoint is reported with what was measured, or listed as
    unread: a silent cluster is never reported as full, or as empty. *)
Lemma capacity_is_measured_or_unread ParseFloat endpoints get :
  let '(reports, unread) := KSM_Read ParseFloat endpoints get in
  (∀ c, c ∈ map cap_Cluster reports ∨ c ∈ unread ↔ is_Some (endpoints !! c)) ∧
  (∀ r, r ∈ reports → ∃ endpoint, endpoints !! cap_Cluster r = Some endpoint ∧
     KSM_free ParseFloat endpoint (get endpoint) = Ok (cap_AllocatablePct r)) ∧
  (∀ c, c ∈ unread → ∃ endpoint e, endpoints !! c = Some endpoint ∧ KSM_free ParseFloat endpoint (get endpoint) = Err e).
Proof.
  unfold KSM_Read.
  set (step := λ '(reports, unread) '(cluster, endpoint), match KSM_free ParseFloat endpoint (get endpoint) with
    | Err _ => (reports, unread ++ [cluster]) | Ok free => (reports ++ [mkCapacity cluster free], unread) end).
  assert (∀ l reports unread, let r := foldl step (reports, unread) l in
    r = (reports ++ omap (λ x, match KSM_free ParseFloat x.2 (get x.2) with Ok free => Some (mkCapacity x.1 free) | Err _ => None end) l,
         unread ++ omap (λ x, match KSM_free ParseFloat x.2 (get x.2) with Ok _ => None | Err _ => Some x.1 end) l)) as Hfold.
  { induction l as [|[c e] l IH]; intros reports unread; simpl; [by rewrite !app_nil_r|].
    destruct (KSM_free ParseFloat e (get e)); simpl; rewrite IH, <- app_assoc; done. }
  rewrite (Hfold _ [] []). simpl. clear Hfold step.
  assert (∀ r, r ∈ omap (λ x, match KSM_free ParseFloat x.2 (get x.2) with Ok free => Some (mkCapacity x.1 free) | Err _ => None end)
      (map_to_list endpoints) ↔ ∃ endpoint, endpoints !! cap_Cluster r = Some endpoint ∧
      KSM_free ParseFloat endpoint (get endpoint) = Ok (cap_AllocatablePct r)) as Hrep.
  { intros [c f]. rewrite list_elem_of_omap. setoid_rewrite <- elem_of_map_to_list. simpl. split.
    - intros ([c' e] & Hin & Hx). simpl in Hx. destruct (KSM_free _ e (get e)) eqn:E; [|done]. injection Hx as <- <-. by exists e.
    - intros (e & Hin & Hx). exists (c, e). split; [done|]. simpl. by rewrite Hx. }
  assert (∀ c : string, c ∈ omap (λ x : string * string, match KSM_free ParseFloat x.2 (get x.2) with Ok _ => None | Err _ => Some x.1 end)
      (map_to_list endpoints) ↔ ∃ endpoint e, endpoints !! c = Some endpoint ∧ KSM_free ParseFloat endpoint (get endpoint) = Err e) as Hun.
  { intros c. rewrite list_elem_of_omap. setoid_rewrite <- elem_of_map_to_list. split.
    - intros ([c' e] & Hin & Hx). simpl in Hx. destruct (KSM_free _ e (get e)) as [|err] eqn:E; [done|]. injection Hx as <-. by exists e, err.
    - intros (e & err & Hin & Hx). exists (c, e). split; [done|]. simpl. by rewrite Hx. }
  split; [|split].
  - intros c. rewrite elem_of_map. split.
    + intros [(r & -> & (e & He & _)%Hrep)|(e & err & He & _)%Hun]; by exists e.
    + intros [e He]. destruct (KSM_free ParseFloat e (get e)) as [f|err] eqn:E.
      * left. exists (mkCapacity c f). split; [done|]. apply Hrep. by exists e.
      * right. apply Hun. by exists e, err.
  - intros r Hr. by apply Hrep.
  - intros c Hc. by apply Hun.
Qed.

(** ** Witnesses *)

Definition demo_document : document := mkDocument
  (mkFloorDocument (fl_Kafka DefaultFloor) (fl_Postgres DefaultFloor) (fl_Harbor DefaultFloor) (fl_App DefaultFloor)
     (mkFleetFloorDocument (ff_NodePool DefaultFleetFloor) (ff_KubernetesVersions DefaultFleetFloor))
     {[TierDev := GateOwningTeam]} {["payments/checkout" := mkAppRule GatePlatform ["a"]]} {["sit" := TierProd]})
  (mkOwnershipDocument ["replicas"] ["digest"; "logLevel"]).
Definition demo_decode (content : string) : result string document :=
  if content =s? "good" then Ok demo_document else Err "malformed".
Definition demo_sha (content : string) : string := content +:+ "-0123456789abcdef".
Definition demo_config : result config_error Config := Config_Parse demo_decode demo_sha "good".

(** A gate is raised, an app is named, and "digest" stays governed although it was asked to
    be watched; lowering the gate of production is refused. *)
Lemma config_accepts_exactly_witness :
  match demo_config with
  | Ok cfg => fl_Revision (cfg_Floor cfg) = "good-0123456" ∧ GateFor (cfg_Floor cfg) TierDev = GateOwningTeam ∧
      in_set (ow_Watched (cfg_Ownership cfg)) "digest" = false
  | Err _ => False
  end ∧
  sound_floor (toFloor (doc_Floor demo_document)) ∧
  validate_gate (toFloor (mkFloorDocument ∅ ∅ ∅ ∅ (mkFleetFloorDocument ∅ []) {[TierProd := GateNone]} ∅ ∅)) TierProd
    = Err (EGateWeak TierProd GateNone GatePlatform).
Proof.
  split; [by vm_compute|]. split; [|by vm_compute].
  destruct (proj1 (config_accepts_exactly demo_decode demo_sha "good"
    (mkConfig (with_revision (toFloor (doc_Floor demo_document)) "good-0123456") (mergeOntoDefault (doc_Ownership demo_document)))))
    as (doc & Hdoc & Hs & _).
  - vm_compute. reflexivity.
  - injection Hdoc as <-. exact Hs.
Defined.

Definition demo_in_force : Config := match demo_config with Ok cfg => cfg | Err _ => mkConfig DefaultFloor DefaultOwnership end.
Definition demo_resolved : Desired :=
  match ResolveWith demo_manifest (cfg_Floor demo_in_force) (Some demo_fleet) ∅ with Ok d => d | Err _ => mkDesired "" "" [] end.

(** The last change is the app's. *)
Lemma accepted_config_keeps_the_guarantee_witness :
  match last (d_Changes demo_resolved) with
  | Some i => di_Asset i = "app" ∧
      ((∃ h l, m_Harbor demo_manifest = Some h ∧ hs_Tier h ≠ "" ∧ Tier_valid (hs_Tier h) = false ∧
          fl_Harbor (cfg_Floor demo_in_force) !! hs_Tier h = Some l ∧
          i = harbor_item demo_manifest (cfg_Floor demo_in_force) "project" (orName (hs_Project h) (m_Owns demo_manifest)) (hs_Tier h) l) ∨
       limited (di_Limits i) ∧
       Gate_Strength (default "" (DefaultGates !! di_Tier i)) ≤ Gate_Strength (di_Gate i) ∧
       (di_Asset i = "app" → ∃ a, a ∈ m_Apps demo_manifest ∧ app_Image a = di_Image i ∧
          ∀ builtin, DefaultEnvTiers !! pm_Env (app_Placement a) = Some builtin → Tier_Strength builtin ≤ Tier_Strength (di_Tier i)))
  | None => False
  end.
Proof.
  destruct (last (d_Changes demo_resolved)) as [i|] eqn:E; [|by vm_compute in E].
  split; [by vm_compute in E; injection E as <-|].
  apply (accepted_config_keeps_the_guarantee demo_decode demo_sha "good" demo_in_force demo_manifest (Some demo_fleet) ∅ demo_resolved).
  - vm_compute. reflexivity.
  - apply validate_Ok. vm_compute. reflexivity.
  - vm_compute. reflexivity.
  - apply last_Some in E as [l ->]. apply elem_of_app. right. left.
Defined.

(** A document that also gives harbor limits for a tier that does not exist is accepted, and a
    production team's harbor section that names it is valid: the project's robots never
    expire and its gate is none of the three. *)
Definition demo_bronze : document := mkDocument
  (mkFloorDocument (fl_Kafka DefaultFloor) (fl_Postgres DefaultFloor) (<["bronze" := mkHarborLimits 0]> (fl_Harbor DefaultFloor))
     (fl_App DefaultFloor) (mkFleetFloorDocument (ff_NodePool DefaultFleetFloor) (ff_KubernetesVersions DefaultFleetFloor)) ∅ ∅ ∅)
  (mkOwnershipDocument [] []).

Lemma unknown_harbor_tier_is_ungoverned :
  let m := mkManifest "payments" "pay" TierProd "" [] None [] (Some (mkHarborSection "" [] "bronze")) ∅ in
  validate m = Ok tt ∧
  match Config_Parse (λ _, Ok demo_bronze) demo_sha "bronze" with
  | Ok cfg => match ResolveWith m (cfg_Floor cfg) None ∅ with
              | Ok d => map (λ i, (di_Tier i, di_Gate i, di_Limits i)) (d_Changes d) = [("bronze", "", LHarbor (mkHarborLimits 0))]
              | Err _ => False
              end
  | Err _ => False
  end.
Proof. by vm_compute. Qed.

(** The file becomes malformed, then disappears: the good floor stays. *)
Definition demo_opened : Live := mkLive "estate.json" demo_in_force.
Definition demo_reads : list (string → result string string) := [(λ _, Ok "typo"); (λ _, Err "no such file")].

Lemma floor_in_force_is_always_sound_witness :
  map (λ r, (Live_Reload demo_decode demo_sha (λ p, p) r demo_opened).1.2) demo_reads =
    [Some (EConfigDecode "malformed"); Some (EConfigRead "no such file")] ∧
  sound_floor (cfg_Floor (lv_current (reload_all demo_decode demo_sha (λ p, p) demo_reads demo_opened))).
Proof.
  split; [by vm_compute|].
  apply (floor_in_force_is_always_sound demo_decode demo_sha (λ p, p) "estate.json" (λ _, Ok "good") demo_reads demo_opened).
  vm_compute. reflexivity.
Defined.

(** A metrics endpoint that answers infinities is read as a free share that is no number:
    the cluster is neither full nor the emptiest, so nothing is ever placed there. *)
Example infinite_memory_is_no_number :
  let parse s := if s =s? "+Inf" then Some (S754_infinity false) else None in
  let line := "kube_node_status_allocatable{resource=" +:+ Quote "memory" +:+ "} +Inf" in
  KSM_free parse "http://ksm" (Ok (200%Z, ([line], None))) = Ok S754_nan ∧
  let p := WithCapacity (NewPlacer [with_reachable (mkCluster "a" "" "" "prod" "" "eu" ∅ "" false) true]) [mkCapacity "a" S754_nan] in
  too_full p "a" = false ∧ emptiest p (pr_clusters p) = None.
Proof. by vm_compute. Qed.
