(* ===== verification/EstateApi.v ===== *)
(** The estate over HTTP: [mantlekeep-estate/api] ([handler.go], [caller.go], [status.go]).

    A handler runs in the monad of [Manager]. A body is its bytes; a reply is the value
    that is encoded, and an error reply the error whose text is sent. The JSON decoders and
    the resolver of callers are arguments. *)
From S2P Require Import Prelude Contracts EstateFloor Placement Manifest EstateResolve Fleet.
From S2P Require Import Reconcile Approvals Admissions Manager EstateService DoorServer.

(** ** caller.go *)

Definition UserHeader : string := "X-Caller".
Definition GroupsHeader : string := "X-Caller-Groups".

Definition api_assertedGroups {B} (request : Request B) : list string :=
  let raw := Header_Get request GroupsHeader in
  if TrimSpace raw =s? "" then []
  else filter (λ name, name ≠ "") (map TrimSpace (SplitByte "," raw)).

(** [HeaderCallers.Caller]: a subject of a name and groups, with no role and no attribute. *)
Definition HeaderCallers {B} (request : Request B) : result string Subject :=
  let name := TrimSpace (Header_Get request UserHeader) in
  if name =s? "" then
    Err ("no identity on the request — " +:+ UserHeader +:+ " names the authenticated caller, and a change with " +:+
         "nobody behind it cannot be governed or attributed")
  else Ok (mkSubject name [] (api_assertedGroups request) false ∅).

(** ** status.go *)

Definition StatusNotFound : Z := 404.
Definition StatusConflict : Z := 409.
Definition StatusNotImplemented : Z := 501.
Definition StatusBadGateway : Z := 502.

(** [strings.Cut(s, ": ")]: what stands before the first separator. *)
Fixpoint before_colon (s : string) : option string :=
  if HasPrefix s ": " then Some ""
  else match s with
       | EmptyString => None
       | String c s => String c <$> before_colon s
       end.

Definition decisionIn (refusal : string) : string :=
  match before_colon refusal with
  | None => ""
  | Some decision =>
      if (decision =s? ActionDeny) || (decision =s? ActionRequireApproval) then decision else ""
  end.

(** The loop over the refusals: [None] when one of them is no decision. *)
Fixpoint saw_approval (refused : list Result) (saw : bool) : option bool :=
  match refused with
  | [] => Some saw
  | r :: refused =>
      let decision := decisionIn (res_Refused r) in
      if decision =s? ActionRequireApproval then saw_approval refused true
      else if decision =s? ActionDeny then saw_approval refused saw
      else None
  end.

Definition statusFor (outcome : ApplyOutcome) : Z :=
  match ao_Refused outcome with
  | [] => StatusOK
  | refused =>
      if bool_decide (ao_Applied outcome ≠ []) || bool_decide (ao_Failed outcome ≠ []) then StatusOK
      else match saw_approval refused false with
           | None => StatusBadGateway
           | Some true => StatusConflict
           | Some false => StatusForbidden
           end
  end.

(** ** handler.go *)

Definition maxManifest : nat := 1048576.

(** The error whose text is sent. *)
Inductive api_message :=
| MsgCaller (e : string)
| MsgBody (e : string)
| MsgManifest (e : manifest_error)
| MsgTeam (declared posted : string)
| MsgApply (e : manager_error)
| MsgUnknownTeam (team : string)
| MsgRead (e : read_error)
| MsgDecode (what e : string)
| MsgApproval (e : approval_error).

Inductive api_body :=
| ApiOutcome (outcome : ApplyOutcome)
| ApiFootprint (footprint : Footprint)
| ApiReport (outcome : ApplyOutcome) (escalated : list Drift)
| ApiPending (pending : list Approval)
| ApiResult (r : Result)
| ApiDeclined (id : string)
| ApiError (m : api_message).

Definition reply : Type := Z * api_body.
Definition writeError (status : Z) (m : api_message) : reply := (status, ApiError m).

(** [errors.Is] against a sentinel of the estate. *)
Definition applyFailureStatus (err : manager_error) : Z :=
  match err with EStoreFailure _ => StatusInternalServerError | _ => StatusBadRequest end.

Definition statusForApproval (err : approval_error) : Z :=
  match err with
  | ErrApprovalNotFound => StatusNotFound
  | ErrApprovalNotPending => StatusConflict
  | ErrSelfApproval | ErrFloorMoved _ _ | ErrDuplicateSignature | ErrAIApproval => StatusForbidden
  | ErrStoreCannotCollectSignatures _ _ | ErrSignaturesOutstanding _ => StatusNotImplemented
  | _ => StatusBadGateway
  end.

Definition unknownTeam (team : string) : api_message := MsgUnknownTeam team.

(** What [Decode] of an optional body gives: a field, the end of the input, or an error. *)
Inductive optional_body := BodyField (v : string) | BodyEOF | BodyMalformed (e : string).

Section handlers.
Context {W : Type} (m : Manager W) (footprints : option (string → M W (result read_error Footprint))).
Context (service : Service W) (Caller : Request string → result string Subject).
Context (Decode : string → result string Manifest) (DecodeReference DecodeReason : string → optional_body).

Definition ReadAll (body : string) : result string string :=
  if (maxManifest <? slen body)%nat then Err "http: request body too large" else Ok body.

Definition api_apply (request : Request string) (team : string) : M W reply :=
  match Caller request with
  | Err err => mret (writeError StatusUnauthorized (MsgCaller err))
  | Ok actor =>
      match ReadAll (req_Body request) with
      | Err err => mret (writeError StatusBadRequest (MsgBody err))
      | Ok document =>
          match ParseManifest Decode document with
          | Err err => mret (writeError StatusBadRequest (MsgManifest err))
          | Ok manifest =>
              if negb (m_Team manifest =s? team)
              then mret (writeError StatusBadRequest (MsgTeam (m_Team manifest) team))
              else
                outcome ← Apply m actor manifest;
                mret match outcome with
                     | Err err => writeError (applyFailureStatus err) (MsgApply err)
                     | Ok outcome => (statusFor outcome, ApiOutcome outcome)
                     end
          end
      end
  end.

Definition api_read (request : Request string) (team : string) : M W reply :=
  match Caller request with
  | Err err => mret (writeError StatusUnauthorized (MsgCaller err))
  | Ok actor =>
      footprint ← Manager_Footprint m footprints actor team;
      mret match footprint with
           | Err (ErrReadRefused _) => writeError StatusNotFound (unknownTeam team)
           | Err ErrUnknownTeam => writeError StatusNotFound (unknownTeam team)
           | Err err => writeError StatusInternalServerError (MsgRead err)
           | Ok footprint => (StatusOK, ApiFootprint footprint)
           end
  end.

Definition api_reconcile (request : Request string) (team : string) : M W reply :=
  match Caller request with
  | Err err => mret (writeError StatusUnauthorized (MsgCaller err))
  | Ok actor =>
      recalled ← Service_Manifest service team;
      match recalled with
      | Err ErrUnknownTeam => mret (writeError StatusNotFound (MsgRead ErrUnknownTeam))
      | Err err => mret (writeError StatusInternalServerError (MsgRead err))
      | Ok manifest =>
          reconciled ← Manager_Reconcile m actor manifest;
          mret match reconciled with
               | Err err => writeError StatusBadGateway (MsgApply err)
               | Ok (outcome, escalated) => (statusFor outcome, ApiReport outcome escalated)
               end
      end
  end.

(** [team] is empty on the route of all teams. *)
Definition api_pendingApprovals (request : Request string) (team : string) : M W reply :=
  match Caller request with
  | Err err => mret (writeError StatusUnauthorized (MsgCaller err))
  | Ok _ => waiting ← PendingApprovals m team; mret (StatusOK, ApiPending waiting)
  end.

Definition api_approve (request : Request string) (id : string) : M W reply :=
  match Caller request with
  | Err err => mret (writeError StatusUnauthorized (MsgCaller err))
  | Ok caller =>
      match DecodeReference (req_Body request) with
      | BodyMalformed err => mret (writeError StatusBadRequest (MsgDecode "approve" err))
      | body =>
          let reference := match body with BodyField v => v | _ => "" end in
          approved ← ApproveCiting m caller id reference;
          mret match approved with
               | Err err => writeError (statusForApproval err) (MsgApproval err)
               | Ok r => (StatusOK, ApiResult r)
               end
      end
  end.

Definition api_decline (request : Request string) (id : string) : M W reply :=
  match Caller request with
  | Err err => mret (writeError StatusUnauthorized (MsgCaller err))
  | Ok caller =>
      match DecodeReason (req_Body request) with
      | BodyMalformed err => mret (writeError StatusBadRequest (MsgDecode "decline" err))
      | body =>
          let reason := match body with BodyField v => v | _ => "" end in
          declined ← Decline m caller id reason;
          mret match declined with
               | Err err => writeError (statusForApproval err) (MsgApproval err)
               | Ok _ => (StatusOK, ApiDeclined id)
               end
      end
  end.

(** The routes, on the segments of the path; [None] is the multiplexer's own answer. *)
Definition Routes (request : Request string) (segments : list string) : option (M W reply) :=
  let post := req_Method request =s? "POST" in
  let get := (req_Method request =s? "GET") || (req_Method request =s? "HEAD") in
  match segments with
  | [api; kind] =>
      if (api =s? "api") && (kind =s? "approvals") && get then Some (api_pendingApprovals request "") else None
  | [api; kind; team] =>
      if (api =s? "api") && (kind =s? "estate") then
        if post then Some (api_apply request team) else if get then Some (api_read request team) else None
      else None
  | [api; kind; name; verb] =>
      if (api =s? "api") && (kind =s? "estate") then
        if (verb =s? "reconcile") && post then Some (api_reconcile request name)
        else if (verb =s? "approvals") && get then Some (api_pendingApprovals request name) else None
      else if (api =s? "api") && (kind =s? "approvals") && post then
        if verb =s? "approve" then Some (api_approve request name)
        else if verb =s? "decline" then Some (api_decline request name) else None
      else None
  | _ => None
  end.
End handlers.

(** ** Statuses *)

Lemma before_colon_app a s : Contains a ":" = false → before_colon (a +:+ ": " +:+ s) = Some a.
Proof.
  induction a as [|c a IH]; intros H.
  - by destruct s.
  - change (String c a +:+ ": " +:+ s) with (String c (a +:+ ": " +:+ s)). cbn [before_colon].
    cbn [Contains] in H. apply orb_false_iff in H as [Hp Ha].
    assert (HasPrefix (String c (a +:+ ": " +:+ s)) ": " = false) as ->.
    { apply not_true_iff_false. intros [t Ht]%HasPrefix_spec. injection Ht as -> _. by destruct a. }
    by rewrite IH.
Qed.

(** The decision of a refused change is read back from its text, whatever the reason says;
    a failure of the policy, the log or the transport is never read as one. *)
Lemma decisionIn_refusal action reason :
  action = ActionDeny ∨ action = ActionRequireApproval →
  decisionIn (Error (ErrorRefused (mkRefused action reason [] ""))) = action ∧
  (∀ d, dec_Action d = action → decisionIn (Error (ErrorDecision d)) = action).
Proof.
  intros Ha. assert (∀ s, decisionIn (action +:+ ": " +:+ s) = action) as H.
  { intros s. unfold decisionIn. rewrite before_colon_app by (by destruct Ha as [->| ->]).
    by destruct Ha as [->| ->]. }
  split; [apply H|]. intros d <-. apply H.
Qed.

Lemma saw_approval_Some l saw b :
  saw_approval l saw = Some b ↔
  Forall (λ r, decisionIn (res_Refused r) = ActionDeny ∨ decisionIn (res_Refused r) = ActionRequireApproval) l ∧
  (b = true ↔ saw = true ∨ Exists (λ r, decisionIn (res_Refused r) = ActionRequireApproval) l).
Proof.
  revert saw. induction l as [|r l IH]; intros saw; cbn [saw_approval].
  { rewrite Exists_nil. split; [intros [= ->]; split; [constructor|tauto]|intros [_ H]; f_equal]. destruct saw, b; naive_solver. }
  rewrite Forall_cons, Exists_cons. destruct (_ =s? ActionRequireApproval) eqn:E1; autorewrite with mk in E1.
  - rewrite IH, E1. naive_solver.
  - destruct (_ =s? ActionDeny) eqn:E2; autorewrite with mk in E2.
    + rewrite IH, E2. naive_solver.
    + naive_solver.
Qed.

(** What the four statuses mean. *)
Lemma statusFor_spec outcome :
  let work := ao_Applied outcome ≠ [] ∨ ao_Failed outcome ≠ [] in
  let decisions := Forall (λ r, decisionIn (res_Refused r) = ActionDeny ∨ decisionIn (res_Refused r) = ActionRequireApproval)
                     (ao_Refused outcome) in
  let waits := Exists (λ r, decisionIn (res_Refused r) = ActionRequireApproval) (ao_Refused outcome) in
  (statusFor outcome = StatusOK ↔ ao_Refused outcome = [] ∨ work) ∧
  (statusFor outcome = StatusConflict ↔ ao_Refused outcome ≠ [] ∧ ¬ work ∧ decisions ∧ waits) ∧
  (statusFor outcome = StatusForbidden ↔ ao_Refused outcome ≠ [] ∧ ¬ work ∧ decisions ∧ ¬ waits) ∧
  (statusFor outcome = StatusBadGateway ↔ ao_Refused outcome ≠ [] ∧ ¬ work ∧ ¬ decisions).
Proof.
  cbv zeta. unfold statusFor.
  assert (saw_approval (ao_Refused outcome) false = None ↔ ¬ Forall (λ r, decisionIn (res_Refused r) = ActionDeny ∨
    decisionIn (res_Refused r) = ActionRequireApproval) (ao_Refused outcome)) as Hnone.
  { destruct (saw_approval (ao_Refused outcome) false) as [b|] eqn:Es.
    - apply saw_approval_Some in Es as [Hd _]. split; [done|tauto].
    - split; [|done]. intros _ Hd.
      assert (saw_approval (ao_Refused outcome) false = Some (bool_decide (Exists (λ r, decisionIn (res_Refused r) = ActionRequireApproval)
        (ao_Refused outcome)))) as Hx; [|congruence].
      apply saw_approval_Some. split; [done|]. rewrite bool_decide_eq_true. split; [by right|by intros [?|?]]. }
  pose proof (λ b, saw_approval_Some (ao_Refused outcome) false b) as Hsome. revert Hnone Hsome.
  generalize (Forall (λ r, decisionIn (res_Refused r) = ActionDeny ∨ decisionIn (res_Refused r) = ActionRequireApproval)
    (ao_Refused outcome)) (Exists (λ r, decisionIn (res_Refused r) = ActionRequireApproval) (ao_Refused outcome)).
  intros D X Hnone Hsome.
  assert (bool_decide (ao_Applied outcome ≠ []) || bool_decide (ao_Failed outcome ≠ []) = true ↔
    ao_Applied outcome ≠ [] ∨ ao_Failed outcome ≠ []) as Hw by (by rewrite orb_true_iff, !bool_decide_eq_true).
  revert Hw. generalize (ao_Applied outcome ≠ [] ∨ ao_Failed outcome ≠ []). intros P Hw.
  assert (StatusOK ≠ StatusConflict ∧ StatusOK ≠ StatusForbidden ∧ StatusOK ≠ StatusBadGateway ∧ StatusConflict ≠ StatusForbidden ∧
    StatusConflict ≠ StatusBadGateway ∧ StatusForbidden ≠ StatusBadGateway) as (? & ? & ? & ? & ? & ?) by done.
  destruct (ao_Refused outcome) as [|r l]; [naive_solver|]. destruct (_ || _).
  { assert P by tauto. naive_solver. }
  assert (¬ P) by (rewrite <- Hw; done). destruct (saw_approval (r :: l) false) as [[]|]; [|destruct (Hsome false)|];
  naive_solver.
Qed.

(** ** Every request acts as its caller *)

Section attribution.
Context {W : Type} (m : Manager W) (service : Service W) (Caller : Request string → result string Subject).
Context (reader : string → M W (result read_error Footprint)).
Context (Decode : string → result string Manifest) (DecodeReference DecodeReason : string → optional_body).

(** Reading asks and applies nothing more. *)
Definition quiet_reader : Prop := ∀ team, effect (reader team) (λ _ t, t = []).

(** What one request did: nothing without a caller; else changes, all decided and asked in
    the caller's name, or one question to read, in the caller's name. *)
Definition answered (request : Request string) (t : list event) : Prop :=
  match Caller request with
  | Err _ => t = []
  | Ok who => acted who t ∨ ∃ i answer, t = [EvSubmit i answer] ∧ int_Action i = "estate.read" ∧ int_Subject i = who
  end.

(** A request, and the segments of its path. *)
Definition arrival : Type := Request string * list string.

Definition serve_one (a : arrival) : M W (option reply) :=
  match Routes m (Some reader) service Caller Decode DecodeReference DecodeReason a.1 a.2 with
  | Some handler => r ← handler; mret (Some r)
  | None => mret None
  end.

Fixpoint serve (arrivals : list arrival) : M W (list (option reply)) :=
  match arrivals with
  | [] => mret []
  | a :: arrivals => r ← serve_one a; rs ← serve arrivals; mret (r :: rs)
  end.

(** The reply to a request without a caller. *)
Definition reply_fits (a : arrival) (r : option reply) : Prop :=
  match r, Caller a.1 with
  | Some r, Err e => r = writeError StatusUnauthorized (MsgCaller e)
  | _, _ => True
  end.

Definition served (a : arrival) (r : option reply) (t : list event) : Prop := reply_fits a r ∧ answered a.1 t.

Lemma effect_Service_Manifest team : effect (Service_Manifest service team) (λ _ t, t = []).
Proof. unfold Service_Manifest. silent (effect_world (svc_Recall service team)). by returns. Qed.

Lemma effect_PendingApprovals team : effect (PendingApprovals m team) (λ _ t, t = []).
Proof.
  unfold PendingApprovals, now. destruct (negb _); [by returns|]. silent (effect_world (mg_now m)).
  eapply effect_bind; [apply effect_read_store|]. intros ? ? ->. by returns.
Qed.

Lemma effect_read actor team : quiet_reader →
  effect (Manager_Footprint m (Some reader) actor team)
    (λ _ t, ∃ i answer, t = [EvSubmit i answer] ∧ int_Action i = "estate.read" ∧ int_Subject i = actor).
Proof.
  intros Hq. unfold Manager_Footprint.
  eapply effect_bind with (Q := λ i t, t = [] ∧ int_Action i = "estate.read" ∧ int_Subject i = actor).
  { unfold intentForRead, now. silent (effect_world (mg_now m)). silent (effect_world (mg_now m)). by returns. }
  intros i ? (-> & Ha & Hs). cbn [app]. eapply effect_bind; [apply effect_submit|]. intros answer ? ->. cbn [app].
  destruct answer.
  - eapply effect_weaken; [apply Hq|]. intros ? ? ->. by eexists _, _.
  - returns. by eexists _, _.
Qed.

(** A handler whose caller is known, from what its computation does. *)
Lemma effect_reply {A} (c : M W A) (f : A → reply) who (a : arrival) Q :
  Caller a.1 = Ok who → effect c Q → (∀ x t, Q x t → answered a.1 t) →
  effect (r ← (x ← c; mret (f x)); mret (Some r)) (λ r t, served a r t).
Proof.
  intros Hw Hc HQ. eapply effect_bind with (Q := λ _ t, answered a.1 t).
  - eapply effect_bind; [exact Hc|]. intros x t Ht. returns. rewrite app_nil_r. by eapply HQ.
  - intros r t Ht. returns. rewrite app_nil_r. split; [|done]. unfold reply_fits. by rewrite Hw.
Qed.

Lemma effect_refused (a : arrival) (r : reply) :
  (∀ e, Caller a.1 = Err e → r = writeError StatusUnauthorized (MsgCaller e)) →
  effect (r ← (mret r : M W reply); mret (Some r)) (λ r t, served a r t).
Proof.
  intros Hr. eapply effect_bind with (Q := λ x t, x = r ∧ t = []); [by returns|]. intros x ? [-> ->]. returns. split.
  - unfold reply_fits. destruct (Caller a.1) eqn:E; [done|]. by apply Hr.
  - unfold answered. destruct (Caller a.1); [left; apply acted_nil|done].
Qed.

Lemma acted_answered (a : arrival) who t : Caller a.1 = Ok who → acted who t → answered a.1 t.
Proof. unfold answered. intros ->. by left. Qed.
Lemma quiet_answered (a : arrival) who t : Caller a.1 = Ok who → t = [] → answered a.1 t.
Proof. intros Hw ->. eapply acted_answered; [done|apply acted_nil]. Qed.

Lemma effect_serve_one a : quiet_reader → effect (serve_one a) (λ r t, served a r t).
Proof.
  intros Hq. unfold serve_one.
  destruct (Routes m (Some reader) service Caller Decode DecodeReference DecodeReason a.1 a.2) as [handler|] eqn:Hr.
  2: { returns. split; [done|]. unfold answered. destruct (Caller a.1); [left; apply acted_nil|done]. }
  unfold Routes in Hr.
  assert (∃ x, handler = api_apply m Caller Decode a.1 x ∨ handler = api_read m (Some reader) Caller a.1 x ∨
    handler = api_reconcile m service Caller a.1 x ∨ handler = api_pendingApprovals m Caller a.1 x ∨
    handler = api_approve m Caller DecodeReference a.1 x ∨ handler = api_decline m Caller DecodeReason a.1 x) as [x Hx].
  { clear - Hr. repeat case_match; simplify_eq; eexists; tauto. }
  clear Hr. destruct (Caller a.1) as [who|e] eqn:Hw.
  2: { destruct Hx as [->|[->|[->|[->|[->| ->]]]]]; unfold api_apply, api_read, api_reconcile, api_pendingApprovals,
         api_approve, api_decline; rewrite Hw; apply effect_refused; congruence. }
  destruct Hx as [->|[->|[->|[->|[->| ->]]]]]; unfold api_apply, api_read, api_reconcile, api_pendingApprovals,
    api_approve, api_decline; rewrite Hw.
  - destruct (ReadAll _); [|apply effect_refused; congruence]. destruct (ParseManifest _ _) as [manifest|]; [|apply effect_refused; congruence].
    destruct (negb _); [apply effect_refused; congruence|].
    eapply (effect_reply (Apply m who manifest) _ who a); [done|apply effect_Apply|]. intros ? t Ht. by eapply acted_answered.
  - eapply (effect_reply (Manager_Footprint m (Some reader) who x) _ who a); [done|by apply effect_read|].
    intros ? t H. unfold answered. rewrite Hw. by right.
  - eapply effect_bind with (Q := λ _ t, answered a.1 t);
      [|intros r t Ht; returns; rewrite app_nil_r; split; [unfold reply_fits; by rewrite Hw|done]].
    silent (effect_Service_Manifest x). destruct a0 as [manifest|[]]; try (returns; by eapply quiet_answered).
    eapply effect_bind; [apply effect_Reconcile|]. intros r t Ht. returns. rewrite app_nil_r. by eapply acted_answered.
  - eapply (effect_reply (PendingApprovals m x) _ who a); [done|apply effect_PendingApprovals|]. intros ? t Ht. by eapply quiet_answered.
  - destruct (DecodeReference _); try (apply effect_refused; congruence);
      (eapply (effect_reply (ApproveCiting m who x _) _ who a); [done|apply effect_ApproveCiting|]; intros ? t Ht; by eapply acted_answered).
  - destruct (DecodeReason _); try (apply effect_refused; congruence);
      (eapply (effect_reply (Decline m who x _) _ who a); [done|apply effect_Decline|]; intros ? t Ht; by eapply quiet_answered).
Qed.

Lemma effect_serve arrivals : quiet_reader →
  effect (serve arrivals) (λ replies t, ∃ traces, t = concat traces ∧
    length replies = length arrivals ∧ Forall2 (λ ar t, served ar.1 ar.2 t) (zip arrivals replies) traces).
Proof.
  intros Hq. induction arrivals as [|a arrivals IH]; simpl; [returns; exists []; by repeat constructor|].
  eapply effect_bind; [by apply effect_serve_one|]. intros r t Ht.
  eapply effect_bind; [apply IH|]. intros rs t' (traces & -> & Hl & Hf). returns.
  exists (t :: traces). rewrite app_nil_r. simpl. split; [done|]. split; [by rewrite Hl|]. by constructor.
Qed.

(** Whatever reaches the estate over HTTP is done in its caller's name. For any requests
    in any order, the trace of the manager is the requests' own traces one after the other:
    that of a request whose caller is unknown is empty, and the request is answered 401; that
    of any other holds only questions to the door about that caller (changes, each handed to
    an adapter only on the token issued for it, or one question to read). Every stored
    approval is sound. *)
Theorem every_request_acts_as_its_caller arrivals w replies s' : quiet_reader →
  serve arrivals (mkState w ∅ []) = (replies, s') →
  length replies = length arrivals ∧
  (∃ traces, st_trace s' = concat traces ∧ Forall2 (λ ar t, served ar.1 ar.2 t) (zip arrivals replies) traces) ∧
  ∃ ops, st_store s' = run ops ∅ ∧
    ∀ id a, st_store s' !! id = Some a → ap_ID a = id ∧ ∃ t a0, (t, OOpen a0) ∈ ops ∧ ap_ID a0 = id ∧ sound ops a0 a.
Proof.
  intros Hq H. destruct (effect_serve arrivals Hq _ _ _ H) as (tr & ops & Htr & (traces & -> & Hl & Hf) & Hst & Hops).
  simpl in *. split; [done|]. split; [by exists traces|]. exists ops. split; [done|]. intros id a Ha. rewrite Hst in Ha.
  assert (H0 : store_sound [] ∅) by done. apply (run_sound ops [] ∅ H0 Hops id a Ha).
Qed.
End attribution.

(** ** What a refused read shows *)

(** A refused read looks like a team that does not exist. A caller who reads a team's
    estate makes the door answer exactly one question, about him and that team; if it
    refuses, the reply is the 404 of an unknown team, in the same words, whatever the door
    said and whatever is stored, observed or declared, and nothing was read; any other reply
    comes from the reader after the door allowed it. *)
Theorem refused_read_is_an_unknown_team {W} (m : Manager W) reader Caller request team actor s r s' :
  Caller request = Ok actor → api_read m (Some reader) Caller request team s = (r, s') →
  ∃ intent answer s1,
    int_Action intent = "estate.read" ∧ int_Subject intent = actor ∧ int_Resource intent = "team/" +:+ team ∧
    st_trace s1 = st_trace s ++ [EvSubmit intent answer] ∧ st_store s1 = st_store s ∧
    match answer with
    | Err _ => r = (StatusNotFound, ApiError (MsgUnknownTeam team)) ∧ s' = s1
    | Ok _ => ∃ res, reader team s1 = (res, s') ∧
        (∀ footprint, res = Ok footprint ↔ r = (StatusOK, ApiFootprint footprint))
    end.
Proof.
  intros Hc Hr. unfold api_read in Hr. rewrite Hc in Hr. apply bind_inv in Hr as (res & s2 & Hf & Hret).
  injection Hret as <- <-. apply reads_are_decided in Hf as (intent & answer & s1 & Ha & Hs & Hres & _ & Ht & Hst & Hans).
  exists intent, answer, s1. split_and!; try done. destruct answer as [token|e].
  - exists res. split; [done|]. intros footprint. destruct res as [f|[]]; split; by intros [= <-].
  - destruct Hans as [-> ->]. done.
Qed.

(** ** Examples and witnesses *)

(** Two callers, one who is nobody; the door of [Manager]'s examples. *)
Definition demo_by (method user body : string) : Request string :=
  mkRequest method "" (Header_Set UserHeader user ∅) ∅ body.
Definition demo_read_manifest (document : string) : result string Manifest :=
  if document =s? "manifest" then Ok demo_small else Err "malformed".
Definition demo_field (body : string) : optional_body := if body =s? "" then BodyEOF else BodyField body.
Definition demo_recall : Service Z := mkService (λ w, (demo_rules, w)) ∅ DefaultOwnership (λ w, (Some demo_fleet, w))
  (λ team w, (Ok (if team =s? "payments" then Some demo_small else None), w)) (λ w, (w, w)).
Definition demo_serve := serve demo_manager demo_recall HeaderCallers (Service_Footprint demo_recall) demo_read_manifest demo_field demo_field.

Definition demo_arrivals : list arrival :=
  [(demo_by "POST" "alice" "manifest", ["api"; "estate"; "payments"]);
   (demo_by "POST" " " "manifest", ["api"; "estate"; "payments"]);
   (demo_by "POST" "bob" "CHG-7", ["api"; "approvals"; "APR-payments-pay.settlements-5-ABCDEFGHIJKL"; "approve"]);
   (demo_by "GET" "mallory" "", ["api"; "estate"; "payments"])].
Definition demo_served := demo_serve demo_arrivals demo_start.

(** Reading a service's footprint asks and applies nothing. *)
Lemma Service_Footprint_quiet {W} (svc : Service W) : quiet_reader (Service_Footprint svc).
Proof.
  intros team. unfold Service_Footprint.
  eapply effect_bind; [unfold Service_Manifest; eapply effect_bind; [apply effect_world|];
    intros x ? ->; returns; instantiate (1 := λ _ t, t = []); done|].
  intros recalled ? ->. cbn [app]. destruct (declared_or_empty team recalled) as [[manifest declared]|]; [|by returns].
  assert (∀ ports placed, effect (placed_by (m_Team manifest) ports placed : M W _) (λ _ t, t = [])) as Hplaced.
  { induction ports as [|[asset port] ports IH]; intros placed; simpl; [by returns|].
    silent (effect_world (port_Observe port (m_Team manifest))). apply IH. }
  assert (∀ ports items, effect (observe_each team ports items : M W _) (λ _ t, t = [])) as Hobs.
  { induction ports as [|[asset port] ports IH]; intros items; simpl; [by returns|].
    silent (effect_world (port_Observe port team)). destruct a; [apply IH|by returns]. }
  eapply effect_bind with (Q := λ _ t, t = []).
  { unfold desired_of. destruct declared; [|by returns]. silent (effect_world (svc_floorOf svc)).
    silent (effect_world (svc_placerOf svc)). silent (Hplaced (map_to_list (svc_ports svc)) ∅). by returns. }
  intros resolved ? ->. cbn [app]. destruct resolved as [desired|]; [|by returns].
  eapply effect_bind with (Q := λ _ t, t = []).
  { unfold service_observe. silent (Hobs (map_to_list (svc_ports svc)) []). by returns. }
  intros seen ? ->. cbn [app]. destruct seen; [|by returns]. silent (effect_world (svc_now svc)). by returns.
Qed.

Lemma every_request_acts_as_its_caller_witness :
  map (λ r : option reply, fst <$> r) demo_served.1 = [Some 409; Some 401; Some 200; Some 404]%Z ∧
  length demo_served.1 = 4 ∧
  ∃ traces, st_trace demo_served.2 = concat traces ∧
    Forall2 (λ ar t, served HeaderCallers ar.1 ar.2 t) (zip demo_arrivals demo_served.1) traces.
Proof.
  split; [by vm_compute|].
  destruct (every_request_acts_as_its_caller demo_manager demo_recall HeaderCallers (Service_Footprint demo_recall)
    demo_read_manifest demo_field demo_field demo_arrivals 62135596800000000000%Z demo_served.1 demo_served.2)
    as (Hl & Ht & _).
  - apply Service_Footprint_quiet.
  - exact (surjective_pairing demo_served).
  - exact (conj Hl Ht).
Defined.

Definition demo_refused := api_read demo_manager (Some (Service_Footprint demo_recall)) HeaderCallers
  (demo_by "GET" "mallory" "") "payments" demo_start.

Lemma refused_read_is_an_unknown_team_witness :
  demo_refused.1 = (StatusNotFound, ApiError (MsgUnknownTeam "payments")) ∧
  ∃ intent answer s1,
    int_Action intent = "estate.read" ∧ int_Subject intent = mkSubject "mallory" [] [] false ∅ ∧
    int_Resource intent = "team/payments" ∧
    st_trace s1 = st_trace demo_start ++ [EvSubmit intent answer] ∧ st_store s1 = st_store demo_start ∧
    match answer with
    | Err _ => demo_refused.1 = (StatusNotFound, ApiError (MsgUnknownTeam "payments")) ∧ demo_refused.2 = s1
    | Ok _ => ∃ res, Service_Footprint demo_recall "payments" s1 = (res, demo_refused.2) ∧
        (∀ footprint, res = Ok footprint ↔ demo_refused.1 = (StatusOK, ApiFootprint footprint))
    end.
Proof.
  split; [by vm_compute|].
  apply (refused_read_is_an_unknown_team demo_manager (Service_Footprint demo_recall) HeaderCallers
    (demo_by "GET" "mallory" "") "payments" (mkSubject "mallory" [] [] false ∅) demo_start).
  - by vm_compute.
  - exact (surjective_pairing demo_refused).
Defined.

(** A reconcile looks the team up before the door is asked: the same caller learns from its
    status which teams have declared an estate. *)
Example reconcile_reveals_the_team :
  map (λ team, (api_reconcile demo_manager demo_recall HeaderCallers (demo_by "POST" "mallory" "") team demo_start).1.1)
    ["payments"; "nobody"] = [200; 404]%Z ∧
  st_trace (api_reconcile demo_manager demo_recall HeaderCallers (demo_by "POST" "mallory" "") "nobody" demo_start).2 = [].
Proof. by vm_compute. Qed.
