(* ===== verification/EstateServe.v ===== *)
(** The estate as a process: [mantlekeep-estate/serve] ([serve.go], [identity.go],
    [door.go]). What it reads at start, how it decides who its callers are, and the process
    that answers requests between reloads of its floor and its fleet.

    The door and the adapters are those of a world [X] of their own; the manifests are the
    process's in-memory store, and so are the approvals: this is the process of a deployment
    that supplies no store of approvals of its own ([Options.Approvals] is nil, and
    [approvalsFor] makes the in-memory one). A reload falls between two requests. *)
From S2P Require Import Prelude Contracts Startup EstateFloor Placement Manifest EstateResolve Fleet Reconcile.
From S2P Require Import Approvals Admissions Manager EstateService DoorServer DoorClient EstateConfig EstateApi.

(** ** identity.go *)

(** [net.SplitHostPort]. *)
Definition SplitHostPort (hostport : string) : option (string * string) :=
  match hostport with
  | String c rest =>
      if bool_decide (c = "["%char) then
        match Cut rest "]" with
        | Some (host, String colon port) =>
            if bool_decide (colon = ":"%char) && negb (char_in ":" port) && negb (char_in "[" rest) && negb (char_in "]" port)
            then Some (host, port) else None
        | _ => None
        end
      else match Cut (srev hostport) ":" with
           | Some (rport, rhost) =>
               let host := srev rhost in
               if char_in ":" host || char_in "[" hostport || char_in "]" hostport then None else Some (host, srev rport)
           | None => None
           end
  | EmptyString => None
  end.

Definition loopbackOnly (addr : string) : bool :=
  match SplitHostPort (TrimSpace addr) with
  | None => false
  | Some (host, _) => slice_contains ["localhost"; "127.0.0.1"; "::1"; "[::1]"] (ToLower host)
  end.

Definition TrustHeaderVar : string := "MANTLEKEEP_TRUST_HEADER".

Notation CallerResolver := (Request string → result string Subject) (only parsing).

Definition resolveCallers (env : gmap string string) (addr : string) (supplied : option CallerResolver) :
    result string CallerResolver :=
  match supplied with
  | Some callers => Ok callers
  | None =>
      if loopbackOnly addr then Ok HeaderCallers
      else refuse negb (os_Getenv env TrustHeaderVar =s? "true")
             with "identity: refusing to trust the " +:+ UserHeader +:+ " header on " +:+ addr ;
           Ok HeaderCallers
  end.

(** ** serve.go: the flags *)

Definition upper_ascii (c : ascii) : ascii :=
  let n := N_of_ascii c in
  if (97 <=? n)%N && (n <=? 122)%N then ascii_of_N (n - 32) else c.
(** [strings.ToUpper] of ASCII. *)
Fixpoint ToUpper (s : string) : string :=
  match s with
  | EmptyString => EmptyString
  | String c s => String (upper_ascii c) (ToUpper s)
  end.

Definition BrandPrefixVar : string := "MANTLEKEEP_BRAND".
Definition defaultBrand : string := "MANTLEKEEP".

Definition brandPrefix (env : gmap string string) : string :=
  let brand := TrimSpace (os_Getenv env BrandPrefixVar) in if brand =s? "" then defaultBrand else ToUpper brand.

(** The loop over the two prefixes. *)
Fixpoint first_prefixed (env : gmap string string) (prefixes : list string) (suffix fallback : string) : string :=
  match prefixes with
  | [] => fallback
  | prefix :: prefixes =>
      let value := TrimSpace (os_Getenv env (prefix +:+ "_" +:+ suffix)) in
      if value =s? "" then first_prefixed env prefixes suffix fallback else value
  end.
Definition envOr (env : gmap string string) (name fallback : string) : string :=
  first_prefixed env [brandPrefix env; defaultBrand] (TrimPrefix name (defaultBrand +:+ "_")) fallback.

Definition ksm_pair (endpoints : gmap string string) (pair : string) : gmap string string :=
  let pair := TrimSpace pair in
  if pair =s? "" then endpoints
  else match Cut pair "=" with
       | Some (cluster, url) => if (cluster =s? "") || (url =s? "") then endpoints else <[cluster := url]> endpoints
       | None => endpoints
       end.
Definition parseKSM (spec : string) : gmap string string := foldl ksm_pair ∅ (SplitByte "," spec).

(** ** door.go *)

Definition embeddedDoorLabel : string := "in-process".
Definition doorFor {D} (embedded : option D) (dial : unit → D) : D :=
  match embedded with Some door => door | None => dial tt end.
Definition doorLabel {D} (embedded : option D) (doorURL : string) : string :=
  match embedded with Some _ => embeddedDoorLabel | None => doorURL end.

(** ** The process *)

(** [fleet.Load]. *)
Inductive fleet_load_error :=
| EFleetNoPath
| EFleetRead (e : string)
| EFleetParse (e : fleet_registry_error).

(** The outside: the files and the metrics endpoints at one moment. *)
Record Outside := mkOutside {
  out_ReadFile : string → result string string;
  out_get : string → result string (Z * (list string * option string));
}.

(** What a deployment supplies, [Options] and the flags; [Options.Approvals] is nil. *)
Record Deployment (X : Type) := mkDeployment {
  dp_Ports : gmap string (Port X);
  dp_Callers : option CallerResolver;
  dp_Transform : option (string → DesiredItem → X → result string DesiredItem * X);
  dp_Door : option (Intent → X → result go_error ExecutionToken * X);
  dp_dial : Client → Intent → X → result go_error ExecutionToken * X;
  dp_now : X → Time * X;
  dp_rand : X → string * X;
  dp_env : gmap string string;
  dp_flags : gmap string string;
}.
Arguments mkDeployment {X}.
Arguments dp_Ports {X}.
Arguments dp_Callers {X}.
Arguments dp_Transform {X}.
Arguments dp_Door {X}.
Arguments dp_dial {X}.
Arguments dp_now {X}.
Arguments dp_rand {X}.
Arguments dp_env {X}.
Arguments dp_flags {X}.

Inductive serve_error :=
| EServeConfig (e : config_error)
| EServeFleet (e : fleet_load_error)
| EServeIdentity (e : string).

Section process.
Context (Decode : string → result string document) (sha256_hex : string → string) (filepath_Clean : string → string).
Context (DecodeFleet : string → result string (list fleet_cluster)) (ParseFloat : string → option SpecFloat.spec_float).
Context (DecodeManifest : string → result string Manifest) (DecodeReference DecodeReason : string → optional_body).
Context {X : Type} (dp : Deployment X).

Definition Fleet_Load (ReadFile : string → result string string) (path : string) : result fleet_load_error (list Cluster) :=
  refuse path =s? "" with EFleetNoPath ;
  match safepath_Clean filepath_Clean path with
  | Err err => Err (EFleetRead err)
  | Ok clean =>
      match ReadFile clean with
      | Err err => Err (EFleetRead err)
      | Ok content => match Fleet_Parse DecodeFleet content with Err err => Err (EFleetParse err) | Ok clusters => Ok clusters end
      end
  end.

(** The placer, and the clusters whose capacity could not be read. *)
Definition placerBuilder (ksmSpec : string) (get : string → result string (Z * (list string * option string)))
    (clusters : list Cluster) : Placer * list string :=
  let placer := NewPlacer clusters in
  let endpoints := parseKSM ksmSpec in
  if bool_decide (endpoints = ∅) then (placer, [])
  else let '(reports, unread) := KSM_Read ParseFloat endpoints get in (WithCapacity placer reports, unread).

(** A flag of the command line, or its default. *)
Definition flag (name fallback : string) : string := default fallback (dp_flags dp !! name).
Definition configPath : string := flag "config" (envOr (dp_env dp) "MANTLEKEEP_ESTATE_CONFIG" "").
Definition fleetPath : string := flag "fleet" (envOr (dp_env dp) "MANTLEKEEP_ESTATE_FLEET" "").
Definition ksmSpec : string := flag "ksm" (envOr (dp_env dp) "MANTLEKEEP_ESTATE_KSM" "").
Definition listenAddr : string := flag "addr" (envOr (dp_env dp) "MANTLEKEEP_ESTATE_ADDR" ":8092").
Definition doorURL : string := flag "door" (envOr (dp_env dp) "MANTLEKEEP_DOOR_URL" "http://localhost:8080").
Definition serviceAccount : string := flag "service-account" (envOr (dp_env dp) "MANTLEKEEP_SERVICE_ACCOUNT" "mantlekeep-estate").

(** The world of the handlers: the manifests and what lies outside. *)
Definition world_of : Type := MemoryManifests * X.
Definition lift {A} (f : X → A * X) (w : world_of) : A * world_of := let '(a, x) := f w.2 in (a, (w.1, x)).
Definition lift_port (port : Port X) : Port world_of :=
  mkPort (λ team, lift (port_Observe port team)) (λ token change, lift (port_Apply port token change)).

Record Process := mkProcess {
  ps_live : Live;
  ps_placer : Placer;
  ps_ownership : Ownership;
  ps_callers : CallerResolver;
  ps_state : state world_of;
}.

Definition the_door : Intent → X → result go_error ExecutionToken * X :=
  doorFor (dp_Door dp) (λ _, dp_dial dp (Client_New doorURL serviceAccount)).

(** The service is not given the configured ownership. *)
Definition serviceFor (p : Process) : Service world_of :=
  mkService (λ w, (cfg_Floor (lv_current (ps_live p)), w)) (lift_port <$> dp_Ports dp) DefaultOwnership
    (λ w, (Some (ps_placer p), w)) (λ team w, (Ok (Recall w.1 team), w)) (lift (dp_now dp)).

(** Gated changes wait in [approvalsFor options], the in-memory store. *)
Definition managerFor (p : Process) : Manager world_of :=
  mkManager (λ intent, lift (the_door intent)) (lift_port <$> dp_Ports dp) (λ w, (cfg_Floor (lv_current (ps_live p)), w)) None
    (Some (λ manifest w, (None, (Remember w.1 manifest, w.2)))) (ps_ownership p) true (λ w, (Some (ps_placer p), w))
    (match dp_Transform dp with Some f => Some (λ id change, lift (f id change)) | None => None end)
    (lift (dp_now dp)) (lift (dp_rand dp)).

(** [Run], to the point where it listens. *)
Definition Run_boot (outside : Outside) (x : X) : result serve_error Process :=
  match OpenLive Decode sha256_hex filepath_Clean (out_ReadFile outside) configPath with
  | Err e => Err (EServeConfig e)
  | Ok live =>
      match Fleet_Load (out_ReadFile outside) fleetPath with
      | Err e => Err (EServeFleet e)
      | Ok clusters =>
          let clusters := MarkReachable clusters (assumeReachable clusters) in
          let '(placer, _) := placerBuilder ksmSpec (out_get outside) clusters in
          match resolveCallers (dp_env dp) listenAddr (dp_Callers dp) with
          | Err e => Err (EServeIdentity e)
          | Ok callers => Ok (mkProcess live placer (cfg_Ownership (lv_current live)) callers (mkState (∅, x) ∅ []))
          end
      end
  end.

Definition reloadFloor (outside : Outside) (p : Process) : Process :=
  let '(_, _, live) := Live_Reload Decode sha256_hex filepath_Clean (out_ReadFile outside) (ps_live p) in
  mkProcess live (ps_placer p) (ps_ownership p) (ps_callers p) (ps_state p).

Definition reloadFleet (outside : Outside) (p : Process) : Process :=
  match Fleet_Load (out_ReadFile outside) fleetPath with
  | Err _ => p
  | Ok refreshed =>
      let refreshed := MarkReachable refreshed (assumeReachable refreshed) in
      let '(next, _) := placerBuilder ksmSpec (out_get outside) refreshed in
      mkProcess (ps_live p) next (ps_ownership p) (ps_callers p) (ps_state p)
  end.

(** What reaches a listening process: a request, or a hang-up signal. *)
Inductive stimulus :=
| Arrives (a : arrival)
| Hangup (outside : Outside).

Definition answer (a : arrival) (p : Process) : option reply * Process :=
  let '(r, s) := serve_one (managerFor p) (serviceFor p) (ps_callers p) (Service_Footprint (serviceFor p))
                   DecodeManifest DecodeReference DecodeReason a (ps_state p) in
  (r, mkProcess (ps_live p) (ps_placer p) (ps_ownership p) (ps_callers p) s).

(** The replies, in order; a signal has none. *)
Fixpoint run_process (stimuli : list stimulus) (p : Process) : list (option reply) * Process :=
  match stimuli with
  | [] => ([], p)
  | Arrives a :: stimuli =>
      let '(r, p) := answer a p in let '(rs, p) := run_process stimuli p in (r :: rs, p)
  | Hangup outside :: stimuli => run_process stimuli (reloadFleet outside (reloadFloor outside p))
  end.
End process.

(** ** Who may be believed *)

(** The two forms of an address. *)
Lemma SplitHostPort_Some s host port : SplitHostPort s = Some (host, port) →
  s = host +:+ ":" +:+ port ∧ char_in ":" host = false ∨ s = "[" +:+ host +:+ "]:" +:+ port.
Proof.
  unfold SplitHostPort. destruct s as [|c rest]; [done|]. case_bool_decide as Hc.
  - subst c. destruct (Cut rest "]") as [[h after]|] eqn:E; [|done]. apply Cut_Some in E as [-> _].
    destruct after as [|colon p]; [done|]. case_bool_decide as Hcolon; [|done]. destruct (_ && _); [|done].
    intros [= -> ->]. subst colon. by right.
  - destruct (Cut (srev (String c rest)) ":") as [[rport rhost]|] eqn:E; [|done]. apply Cut_Some in E as [E _].
    destruct (char_in ":" (srev rhost)) eqn:Ehost; [done|]. destruct (_ || _); [done|]. intros [= <- <-]. left. split; [|done].
    rewrite <- (srev_involutive (String c rest)), E. change (String ":" rhost) with (":" +:+ rhost).
    rewrite !srev_app. by rewrite append_assoc.
Qed.

Definition loopback_hosts : list string := ["localhost"; "127.0.0.1"; "::1"; "[::1]"].

(** A header names the caller only where the deployment decided so. *)
Lemma resolveCallers_Ok env addr supplied callers : resolveCallers env addr supplied = Ok callers →
  match supplied with
  | Some verifying => callers = verifying
  | None => callers = HeaderCallers ∧
      (os_Getenv env TrustHeaderVar = "true" ∨
       ∃ host port, ToLower host ∈ loopback_hosts ∧
         (TrimSpace addr = host +:+ ":" +:+ port ∨ TrimSpace addr = "[" +:+ host +:+ "]:" +:+ port))
  end.
Proof.
  unfold resolveCallers. destruct supplied as [c|]; [by intros [= ->]|]. unfold loopbackOnly.
  destruct (SplitHostPort (TrimSpace addr)) as [[host port]|] eqn:E.
  - destruct (slice_contains _ (ToLower host)) eqn:Eh.
    + apply slice_contains_true in Eh. intros [= <-]. split; [done|]. right. exists host, port. split; [done|].
      apply SplitHostPort_Some in E as [[? _]|?]; auto.
    + destruct (_ =s? "true") eqn:Et; simpl; [|done]. intros [= <-]. autorewrite with mk in Et. by split; [|left].
  - destruct (_ =s? "true") eqn:Et; simpl; [|done]. intros [= <-]. autorewrite with mk in Et. by split; [|left].
Qed.

(** The variables of a rebranded deployment, then the default ones. *)
Lemma envOr_first_set env suffix fallback :
  envOr env (defaultBrand +:+ "_" +:+ suffix) fallback =
  first_set [TrimSpace (os_Getenv env (brandPrefix env +:+ "_" +:+ suffix));
             TrimSpace (os_Getenv env (defaultBrand +:+ "_" +:+ suffix)); fallback].
Proof.
  unfold envOr. change (defaultBrand +:+ "_" +:+ suffix) with ((defaultBrand +:+ "_") +:+ suffix).
  unfold TrimPrefix. rewrite (proj2 (CutPrefix_Some _ (defaultBrand +:+ "_") suffix) eq_refl). cbn [default first_prefixed first_set].
  destruct (TrimSpace (os_Getenv env (brandPrefix env +:+ _)) =s? ""); [|done].
  destruct (TrimSpace _ =s? ""); [|done]. destruct (fallback =s? "") eqn:E; [|done]. by autorewrite with mk in E.
Qed.

(** ** The running process *)

Section process_props.
Context (Decode : string → result string document) (sha256_hex : string → string) (filepath_Clean : string → string).
Context (DecodeFleet : string → result string (list fleet_cluster)) (ParseFloat : string → option SpecFloat.spec_float).
Context (DecodeManifest : string → result string Manifest) (DecodeReference DecodeReason : string → optional_body).
Context {X : Type} (dp : Deployment X).
Implicit Types (p : Process (X := X)).

Let load_fleet (outside : Outside) := Fleet_Load filepath_Clean DecodeFleet (out_ReadFile outside) (fleetPath dp).
Let run_all := run_process Decode sha256_hex filepath_Clean DecodeFleet ParseFloat DecodeManifest DecodeReference DecodeReason dp.

Definition signals (stimuli : list stimulus) : list Outside :=
  omap (λ s, match s with Hangup outside => Some outside | Arrives _ => None end) stimuli.
Definition requests (stimuli : list stimulus) : list arrival :=
  omap (λ s, match s with Arrives a => Some a | Hangup _ => None end) stimuli.

Definition built_placer (outside : Outside) (clusters : list Cluster) : Placer :=
  (placerBuilder ParseFloat (ksmSpec dp) (out_get outside) (MarkReachable clusters (assumeReachable clusters))).1.

(** The placer of the last moment whose registry could be read. *)
Definition last_fleet (moments : list Outside) (placer : Placer) : Prop :=
  ∃ before outside after clusters, moments = before ++ outside :: after ∧ load_fleet outside = Ok clusters ∧
    placer = built_placer outside clusters ∧ Forall (λ o, is_ok (load_fleet o) = false) after.

Lemma reloadFleet_good outside p moments : last_fleet moments (ps_placer p) →
  last_fleet (moments ++ [outside]) (ps_placer (reloadFleet filepath_Clean DecodeFleet ParseFloat dp outside p)).
Proof.
  intros (before & o & after & clusters & -> & Ho & Hp & Hafter). unfold reloadFleet. fold (load_fleet outside).
  destruct (load_fleet outside) as [refreshed|e] eqn:E.
  - exists (before ++ o :: after), outside, [], refreshed. split_and!; [done|done| |constructor].
    unfold built_placer. by destruct (placerBuilder _ _ _ _).
  - exists before, o, (after ++ [outside]), clusters. split; [by rewrite <- app_assoc|]. split; [done|]. split; [done|].
    apply Forall_app. split; [done|]. by rewrite Forall_singleton, E.
Qed.

(** What reloads and requests leave alone. *)
Lemma run_keeps stimuli p moments path :
  path ≠ "" → lv_path (ps_live p) = path →
  last_good Decode sha256_hex filepath_Clean path (map out_ReadFile moments) (lv_current (ps_live p)) →
  last_fleet moments (ps_placer p) →
  let p' := (run_all stimuli p).2 in
  ps_callers p' = ps_callers p ∧ ps_ownership p' = ps_ownership p ∧
  last_good Decode sha256_hex filepath_Clean path (map out_ReadFile (moments ++ signals stimuli)) (lv_current (ps_live p')) ∧
  last_fleet (moments ++ signals stimuli) (ps_placer p').
Proof.
  intros Hne. unfold run_all. revert p moments. induction stimuli as [|[a|outside] stimuli IH]; intros p moments Hp Hg Hf; simpl.
  - by rewrite app_nil_r.
  - unfold answer. destruct (serve_one _ _ _ _ _ _ _ _ _) as [r s].
    specialize (IH (mkProcess (ps_live p) (ps_placer p) (ps_ownership p) (ps_callers p) s) moments Hp Hg Hf). simpl in IH.
    destruct (run_process _ _ _ _ _ _ _ _ _ stimuli _) as [rs p']. exact IH.
  - set (q := reloadFleet _ _ _ _ outside _).
    destruct (reload_all_good Decode sha256_hex filepath_Clean path [out_ReadFile outside] (map out_ReadFile moments) (ps_live p) Hne Hp Hg)
      as [Hp' Hg'].
    assert (ps_live q = reload_all Decode sha256_hex filepath_Clean [out_ReadFile outside] (ps_live p) ∧
      ps_callers q = ps_callers p ∧ ps_ownership q = ps_ownership p) as (Hl & Hc & Ho).
    { unfold q, reloadFleet, reloadFloor, reload_all. simpl. destruct (Live_Reload _ _ _ _ _) as [[c e] l]. simpl.
      destruct (Fleet_Load _ _ _ _); [by destruct (placerBuilder _ _ _ _)|done]. }
    destruct (IH q (moments ++ [outside])) as (H1 & H2 & H3 & H4).
    + by rewrite Hl.
    + by rewrite Hl, map_app.
    + apply reloadFleet_good. unfold reloadFloor. by destruct (Live_Reload _ _ _ _ _) as [[c e] l].
    + rewrite <- app_assoc in H3, H4. split_and!; [by rewrite H1|by rewrite H2|done|done].
Qed.

(** The requests, one after the other, whatever is reloaded between them. *)
Lemma run_served stimuli p :
  let '(replies, p') := run_all stimuli p in
  ∃ traces ops, st_trace (ps_state p') = st_trace (ps_state p) ++ concat traces ∧
    st_store (ps_state p') = run ops (st_store (ps_state p)) ∧ (∀ e, e ∈ ops → estate_op e.2) ∧
    length replies = length (requests stimuli) ∧
    Forall2 (λ ar t, served (ps_callers p) ar.1 ar.2 t) (zip (requests stimuli) replies) traces.
Proof.
  unfold run_all. revert p. induction stimuli as [|[a|outside] stimuli IH]; intros p; simpl.
  - exists [], []. simpl. rewrite app_nil_r. split_and!; try done. by intros e ?%elem_of_nil.
  - destruct (answer _ _ _ _ a p) as [r q] eqn:Ea. unfold answer in Ea.
    pose proof (effect_serve_one (managerFor dp p) (serviceFor dp p) (ps_callers p) (Service_Footprint (serviceFor dp p))
      DecodeManifest DecodeReference DecodeReason a (Service_Footprint_quiet (serviceFor dp p)) (ps_state p)) as He.
    destruct (serve_one _ _ _ _ _ _ _ a (ps_state p)) as [r' s]. injection Ea as -> <-.
    destruct (He r s eq_refl) as (tr & ops & Htr & Hserved & Hst & Hops). clear He.
    specialize (IH (mkProcess (ps_live p) (ps_placer p) (ps_ownership p) (ps_callers p) s)).
    destruct (run_process _ _ _ _ _ _ _ _ _ stimuli _) as [rs p']. destruct IH as (traces & ops' & Ht & Hs & Ho & Hl & Hf).
    exists (tr :: traces), (ops ++ ops'). simpl in *. split_and!.
    + by rewrite Ht, Htr, <- app_assoc.
    + rewrite Hs, Hst. unfold run. by rewrite foldl_app.
    + intros e [?|?]%elem_of_app; auto.
    + by rewrite Hl.
    + by constructor.
  - set (q := reloadFleet _ _ _ _ outside _). specialize (IH q).
    assert (ps_state q = ps_state p ∧ ps_callers q = ps_callers p) as [Hs Hc]; [|by rewrite Hs, Hc in IH].
    unfold q, reloadFleet, reloadFloor. destruct (Live_Reload _ _ _ _ _) as [[c e] l]. simpl.
    destruct (Fleet_Load _ _ _ _); [by destruct (placerBuilder _ _ _ _)|done].
Qed.

(** What the process promises for a moment: the configuration is the last sound one, the
    placer that of the last registry, and both the manager and the service read them. *)
Definition in_force (path : string) (moments : list Outside) p : Prop :=
  last_good Decode sha256_hex filepath_Clean path (map out_ReadFile moments) (lv_current (ps_live p)) ∧
  sound_floor (cfg_Floor (lv_current (ps_live p))) ∧ last_fleet moments (ps_placer p) ∧
  (∀ w, mg_floorOf (managerFor dp p) w = (cfg_Floor (lv_current (ps_live p)), w) ∧
        svc_floorOf (serviceFor dp p) w = (cfg_Floor (lv_current (ps_live p)), w) ∧
        mg_placerOf (managerFor dp p) w = (Some (ps_placer p), w) ∧
        svc_placerOf (serviceFor dp p) w = (Some (ps_placer p), w)).

(** C25: the whole estate process. Take a process that started, of a deployment that keeps
    its approvals in memory, and any requests and reload signals in any order, over files
    and endpoints that are whatever they have become by each. Then: the callers are the
    verifying resolver the deployment supplied, or a header is believed only because the
    listen address is loopback or the deployment said so by name; the floor is that of the
    last configuration that was sound, and the fleet that of the last registry that could be
    read, for the manager and for the page alike, through every failed reload; the manager
    judges fields by the ownership of the configuration the process started with, which no
    reload refreshes, and the page by the built-in one; every request was answered, and what
    it did was done in its caller's name alone (nothing at all without a caller); and every
    stored approval is sound. *)
Theorem estate_process_is_governed outside x stimuli p0 replies p :
  Run_boot Decode sha256_hex filepath_Clean DecodeFleet ParseFloat dp outside x = Ok p0 →
  run_all stimuli p0 = (replies, p) →
  (match dp_Callers dp with
   | Some verifying => ps_callers p = verifying
   | None => ps_callers p = HeaderCallers ∧
       (os_Getenv (dp_env dp) TrustHeaderVar = "true" ∨
        ∃ host port, ToLower host ∈ loopback_hosts ∧
          (TrimSpace (listenAddr dp) = host +:+ ":" +:+ port ∨ TrimSpace (listenAddr dp) = "[" +:+ host +:+ "]:" +:+ port))
   end) ∧
  in_force (configPath dp) (outside :: signals stimuli) p ∧
  (mg_ownership (managerFor dp p) = cfg_Ownership (lv_current (ps_live p0)) ∧
   svc_ownership (serviceFor dp p) = DefaultOwnership) ∧
  length replies = length (requests stimuli) ∧
  (∃ traces, st_trace (ps_state p) = concat traces ∧
     Forall2 (λ ar t, served (ps_callers p) ar.1 ar.2 t) (zip (requests stimuli) replies) traces) ∧
  ∃ ops, st_store (ps_state p) = run ops ∅ ∧
    ∀ id a, st_store (ps_state p) !! id = Some a → ap_ID a = id ∧ ∃ t a0, (t, OOpen a0) ∈ ops ∧ ap_ID a0 = id ∧ sound ops a0 a.
Proof.
  intros Hboot Hrun. unfold Run_boot in Hboot. fold (load_fleet outside) in Hboot.
  destruct (OpenLive _ _ _ _ _) as [live|] eqn:Hopen; [|done]. destruct (load_fleet outside) as [clusters|] eqn:Hfleet; [|done].
  destruct (placerBuilder _ _ _ _) as [placer unread] eqn:Hplacer. destruct (resolveCallers _ _ _) as [callers|] eqn:Hcallers; [|done].
  injection Hboot as <-. apply OpenLive_Ok in Hopen as (Hne & Hpath & Hgood). apply resolveCallers_Ok in Hcallers.
  set (p0 := mkProcess _ _ _ _ _) in *.
  assert (last_fleet [outside] (ps_placer p0)) as Hf0.
  { exists [], outside, [], clusters. split_and!; [done|done| |constructor]. unfold built_placer. by rewrite Hplacer. }
  destruct (run_keeps stimuli p0 [outside] (configPath dp) Hne Hpath Hgood Hf0) as (Hc & Ho & Hg & Hf).
  pose proof (run_served stimuli p0) as Hserved. rewrite Hrun in Hserved, Hc, Ho, Hg, Hf. cbn [snd] in *.
  destruct Hserved as (traces & ops & Ht & Hs & Hops & Hl & Hall).
  split; [|split_and!].
  - rewrite Hc. by destruct (dp_Callers dp).
  - split_and!; try done. by eapply last_good_sound.
  - simpl. by rewrite Ho.
  - done.
  - done.
  - exists traces. by rewrite Hc.
  - exists ops. split; [done|]. intros id a Ha. rewrite Hs in Ha.
    assert (H0 : store_sound [] ∅) by done. apply (run_sound ops [] ∅ H0 Hops id a Ha).
Qed.
End process_props.

(** ** Witness and examples *)

Definition demo_serve_env : gmap string string :=
  {["MANTLEKEEP_BRAND" := "acme"; "ACME_ESTATE_CONFIG" := "estate.json"; "MANTLEKEEP_ESTATE_FLEET" := "fleet.json"]}.
Definition demo_deployment : Deployment Z :=
  mkDeployment {["kafka" := demo_port]} None None (Some demo_door) (λ _, demo_door) (λ w, (w, w + 1)%Z) (λ w, ("ABCDEFGHIJKLMNOP", w))
    demo_serve_env {["addr" := "localhost:8092"]}.
Definition demo_moment (config : string) : Outside :=
  mkOutside (λ path, if path =s? "estate.json" then Ok config else Ok "fleet") (λ _, Err "unreachable").
Definition demo_decode_fleet (content : string) : result string (list fleet_cluster) :=
  Ok [mkFleetCluster "eu-1" "kind" "eu" "dev" "general" "eu" ""].

Definition demo_serve_boot : result serve_error (Process (X := Z)) :=
  Run_boot demo_decode demo_sha (λ p, p) demo_decode_fleet (λ _, None) demo_deployment (demo_moment "good") 62135596800000000000%Z.
Definition demo_serve_run := run_process demo_decode demo_sha (λ p, p) demo_decode_fleet (λ _, None) demo_read_manifest
  demo_field demo_field demo_deployment.
Definition demo_stimuli : list stimulus :=
  [Arrives (demo_by "POST" "alice" "manifest", ["api"; "estate"; "payments"]); Hangup (demo_moment "typo");
   Arrives (demo_by "POST" " " "manifest", ["api"; "estate"; "payments"]);
   Arrives (demo_by "GET" "alice" "", ["api"; "estate"; "payments"])].
Definition demo_statuses (booted : result serve_error (Process (X := Z))) : list (option Z) :=
  match booted with Ok p => map (λ r : option reply, fst <$> r) (demo_serve_run demo_stimuli p).1 | Err _ => [] end.

(** Off loopback and with nothing said, the process does not start. *)
Example demo_refuses_to_trust :
  map (λ addr, is_ok (resolveCallers ∅ addr None)) ["localhost:8092"; "[::1]:80"; ":8092"; "10.0.0.1:80"; "localhost"] =
  [true; true; false; false; false].
Proof. by vm_compute. Qed.

Lemma estate_process_is_governed_witness :
  demo_statuses demo_serve_boot = [Some 409; Some 401; Some 404]%Z ∧
  ∃ p0, demo_serve_boot = Ok p0 ∧
    sound_floor (cfg_Floor (lv_current (ps_live (demo_serve_run demo_stimuli p0).2))) ∧
    ps_callers (demo_serve_run demo_stimuli p0).2 = HeaderCallers.
Proof.
  split; [by vm_compute|]. destruct demo_serve_boot as [p0|e] eqn:Hboot.
  2: { exfalso. apply (f_equal is_ok) in Hboot. vm_compute in Hboot. discriminate Hboot. }
  exists p0. split; [done|].
  destruct (estate_process_is_governed demo_decode demo_sha (λ p, p) demo_decode_fleet (λ _, None) demo_read_manifest demo_field
    demo_field demo_deployment (demo_moment "good") 62135596800000000000%Z demo_stimuli p0 (demo_serve_run demo_stimuli p0).1
    (demo_serve_run demo_stimuli p0).2) as ([Hc _] & (_ & Hs & _) & _).
  - exact Hboot.
  - exact (surjective_pairing (demo_serve_run demo_stimuli p0)).
  - exact (conj Hs Hc).
Defined.

(** The page judges drift by the built-in ownership, the reconciler by the configured one. *)
Example the_page_judges_by_other_rules :
  match demo_serve_boot with
  | Ok p => Owns (mg_ownership (managerFor demo_deployment p)) "replicas" = true ∧
            Owns (svc_ownership (serviceFor demo_deployment p)) "replicas" = false
  | Err _ => False
  end.
Proof. by vm_compute. Qed.

(** The client the process dials with sends no caller header, so a door that learns its
    callers from a header refuses every change; with the header the same change passes. *)
Example a_header_door_refuses_the_estate :
  map (λ client, is_ok (remote (W := Z) demo_tick demo_hex demo_Format demo_Parse (λ _ w, w) (λ _, None) demo_pair_server client
    (mkResponse 404 None (DLogin "")) Delivered (demo_asking "bo") 2999999999%Z).1)
    [Client_New "http://door:8080" "estate"; WithCallerHeader "X-Caller" (Client_New "http://door:8080" "estate")] = [false; true].
Proof. by vm_compute. Qed.
