(* ===== verification/EstateCli.v ===== *)
(** The estate's command line: [mantlekeep-estate/cmd/mantlekeep-estate-cli] ([main.go],
    [token.go]). How a submission reads its arguments, checks a manifest before sending it,
    and what its exit code tells a pipeline about the change.

    The YAML converter, [url.Parse], the file system, the token endpoint and the HTTP client
    are arguments; printing is left out. The client runs in the monad of [Manager], so that
    the estate it talks to can be the one of [EstateApi]. *)
From S2P Require Import Prelude Contracts Startup EstateFloor Placement Manifest EstateResolve Fleet Reconcile.
From S2P Require Import Approvals Admissions Manager EstateService DoorServer EstateConfig EstateApi.

(** ** Arguments *)

(** The loop of [splitArguments]: whether the next argument is a flag's value. *)
Fixpoint split_arguments (valueExpected : bool) (arguments : list string) : list string * list string :=
  match arguments with
  | [] => ([], [])
  | argument :: arguments =>
      if valueExpected then
        let '(positional, flagArguments) := split_arguments false arguments in
        (positional, argument :: flagArguments)
      else if HasPrefix argument "-" then
        let '(positional, flagArguments) := split_arguments (negb (Contains argument "=")) arguments in
        (positional, argument :: flagArguments)
      else
        let '(positional, flagArguments) := split_arguments false arguments in
        (argument :: positional, flagArguments)
  end.
Definition splitArguments (arguments : list string) : list string * list string := split_arguments false arguments.

Inductive flag_error :=
| FlagSyntax (s : string)
| FlagHelp
| FlagUnknown (name : string)
| FlagNoValue (name : string).

Definition flag_names : list string := ["estate"; "team"; "user"].

(** [flag.FlagSet.Parse] for a set of string flags: one or two dashes, then the name, and
    the value after an equals sign or as the next argument. What does not start as a flag
    ends the parse. *)
Fixpoint flags_Parse (arguments : list string) (values : gmap string string) :
    result flag_error (gmap string string) :=
  match arguments with
  | [] => Ok values
  | s :: rest =>
      if (slen s <? 2) || negb (HasPrefix s "-") || (s =s? "--") then Ok values
      else
        let name := if HasPrefix s "--" then drop_bytes 2 s else drop_bytes 1 s in
        refuse (name =s? "") || HasPrefix name "-" || HasPrefix name "=" with FlagSyntax s ;
        let known name := slice_contains flag_names name in
        let unknown name := Err (if slice_contains ["help"; "h"] name then FlagHelp else FlagUnknown name) in
        match Cut name "=" with
        | Some (name, v) => if known name then flags_Parse rest (<[name := v]> values) else unknown name
        | None =>
            if known name then
              match rest with
              | v :: rest => flags_Parse rest (<[name := v]> values)
              | [] => Err (FlagNoValue name)
              end
            else unknown name
        end
  end.

(** ** The manifest *)

Inductive cli_error :=
| CliFlags (e : flag_error)
| CliUnknownCommand (command : string)
| CliNoFile
| CliRead (e : string)
| CliYAML (path e : string)
| CliManifest (path : string) (e : manifest_error)
| CliNoEstate
| CliToken (e : string)
| CliNoIdentity
| CliNoTeam
| CliAddress (e : string)
| CliNoAnswer (estate e : string)
| CliRefused (status : Z).

(** The errors that follow the sending of the request. *)
Definition after_sending (e : cli_error) : bool :=
  match e with CliNoAnswer _ _ | CliRefused _ => true | _ => false end.

Definition describe (path : string) : string := if path =s? "-" then "standard input" else path.

Section reading.
Context (filepath_Clean : string → string) (ReadFile : string → result string string) (Stdin : result string string).
Context (YAMLToJSON : string → result string string) (Decode : string → result string Manifest).

Definition readDocument (path : string) : result cli_error string :=
  refuse path =s? "" with CliNoFile ;
  if path =s? "-" then match Stdin with Ok document => Ok document | Err e => Err (CliRead e) end
  else match safepath_Clean filepath_Clean path with
       | Err e => Err (CliRead e)
       | Ok clean => match ReadFile clean with Ok document => Ok document | Err e => Err (CliRead e) end
       end.

Definition readManifest (path : string) : result cli_error (Manifest * string) :=
  document <-? readDocument path ;
  match YAMLToJSON document with
  | Err e => Err (CliYAML (describe path) e)
  | Ok asJSON =>
      match ParseManifest Decode asJSON with
      | Err e => Err (CliManifest (describe path) e)
      | Ok manifest => Ok (manifest, asJSON)
      end
  end.
End reading.

(** ** The estate's address and the caller's token *)

Record parsedURL := mkParsedURL { url_Scheme : string; url_Host : string; url_String : string }.

Definition tokenEnv : string := "MANTLEKEEP_TOKEN".
Definition tokenURLEnv : string := "MANTLEKEEP_OIDC_TOKEN_URL".
Definition clientIDEnv : string := "MANTLEKEEP_OIDC_CLIENT_ID".
Definition clientSecretEnv : string := "MANTLEKEEP_OIDC_CLIENT_SECRET".

(** What the token endpoint is asked: the form and the credentials of the header. *)
Record tokenRequest := mkTokenRequest {
  tr_URL : string;
  tr_Form : gmap string string;
  tr_BasicUser : string;
  tr_BasicPassword : string;
}.
Record tokenAnswer := mkTokenAnswer { ta_AccessToken : string; ta_Error : string }.

Definition upper_hex (n : N) : ascii := ascii_of_N (if (n <? 10)%N then 48 + n else 55 + n).
(** [url.QueryEscape]. *)
Definition escape_char (c : ascii) : string :=
  if is_lower c || is_digit c || is_lower (lower_ascii c) || char_in c "-_.~" then String c ""
  else if bool_decide (c = " "%char) then "+"
  else String "%" (String (upper_hex (N_of_ascii c / 16)) (String (upper_hex (N_of_ascii c mod 16)) "")).
Fixpoint QueryEscape (s : string) : string :=
  match s with EmptyString => "" | String c s => escape_char c +:+ QueryEscape s end.

Definition TrimSuffixByte (s : string) (c : ascii) : string :=
  match srev s with String d rest => if bool_decide (d = c) then srev rest else s | EmptyString => s end.

Section identity.
Context (url_Parse : string → result string parsedURL) (env : gmap string string).
(** The endpoint's status and, when the body is JSON, what it says. *)
Context (fetch : tokenRequest → result string (Z * option tokenAnswer)).

Definition estateEndpoint (raw : string) : result string string :=
  match url_Parse (TrimSuffixByte raw "/") with
  | Err e => Err ("-estate " +:+ Quote raw +:+ " is not a URL: " +:+ e)
  | Ok parsed =>
      refuse negb (url_Scheme parsed =s? "http") && negb (url_Scheme parsed =s? "https")
        with "-estate must be http or https, not " +:+ Quote (url_Scheme parsed) ;
      refuse url_Host parsed =s? "" with "-estate " +:+ Quote raw +:+ " names no host" ;
      Ok (url_String parsed)
  end.

Definition clientCredentials (tokenURL clientID secret : string) : result string string :=
  match fetch (mkTokenRequest tokenURL {["grant_type" := "client_credentials"]} (QueryEscape clientID) (QueryEscape secret)) with
  | Err e => Err ("the token endpoint did not answer: " +:+ e)
  | Ok (status, answer) =>
      let refusal := "the token endpoint refused the client (HTTP " +:+ Itoa status +:+ " " +:+
                     default "" (ta_Error <$> answer) +:+ ")" in
      match answer with
      | Some answer =>
          refuse negb (bool_decide (status = StatusOK)) with refusal ;
          refuse ta_AccessToken answer =s? "" with "the token endpoint returned no access token" ;
          Ok (ta_AccessToken answer)
      | None => Err refusal
      end
  end.

Definition bearerToken : result string string :=
  let token := TrimSpace (os_Getenv env tokenEnv) in
  if negb (token =s? "") then Ok token
  else
    let tokenURL := TrimSpace (os_Getenv env tokenURLEnv) in
    if tokenURL =s? "" then Ok ""
    else
      let clientID := os_Getenv env clientIDEnv in
      let secret := os_Getenv env clientSecretEnv in
      refuse (clientID =s? "") || (secret =s? "")
        with tokenURLEnv +:+ " is set, so " +:+ clientIDEnv +:+ " and " +:+ clientSecretEnv +:+ " are needed too" ;
      match estateEndpoint tokenURL with
      | Err e => Err (tokenURLEnv +:+ ": " +:+ e)
      | Ok _ => clientCredentials tokenURL clientID secret
      end.
End identity.

(** ** Submitting *)

(** What is sent; the client's own answer is a status and a body, or no answer. The body is
    what could be read of it: the code drops the error of reading. *)
Record cliRequest := mkCliRequest {
  cr_URL : string;
  cr_Header : gmap string string;
  cr_Body : string;
}.

Definition estateWebUserHeader : string := "X-Caller".

(** [exitFor]. [Unmarshal] counts what stands under "refused" and under "failed" in a body
    that is JSON of that shape. *)
Definition exitFor {B} (Unmarshal : B → option (nat * nat)) (status : Z) (body : B) : result cli_error Z :=
  if bool_decide (status = StatusConflict) then Ok 2%Z
  else if bool_decide (status = StatusForbidden) then Ok 3%Z
  else if (400 <=? status)%Z then Err (CliRefused status)
  else match Unmarshal body with
       | Some (refused, failed) => if (0 <? refused + failed)%nat then Ok 4%Z else Ok 0%Z
       | None => Ok 0%Z
       end.

Definition request_headers (token user : string) : gmap string string :=
  let header := Header_Set "Content-Type" "application/json" ∅ in
  if negb (token =s? "") then Header_Set "Authorization" ("Bearer " +:+ token) header
  else Header_Set estateWebUserHeader user header.

Section submitting.
Context {W B : Type} (Do : cliRequest → M W (result string (Z * B))) (Unmarshal : B → option (nat * nat)).
Context (filepath_Clean : string → string) (ReadFile : string → result string string) (Stdin : result string string).
Context (YAMLToJSON : string → result string string) (Decode : string → result string Manifest).
Context (url_Parse : string → result string parsedURL) (env : gmap string string).
Context (fetch : tokenRequest → result string (Z * option tokenAnswer)).

(** Everything [submit] does before it sends: the request, or why there is none. *)
Definition prepare (path estateURL team user : string) : result cli_error cliRequest :=
  refuse estateURL =s? "" with CliNoEstate ;
  match bearerToken url_Parse env fetch with
  | Err e => Err (CliToken e)
  | Ok token =>
      refuse (token =s? "") && (user =s? "") with CliNoIdentity ;
      read <-? readManifest filepath_Clean ReadFile Stdin YAMLToJSON Decode path ;
      let '(manifest, asJSON) := read in
      let team := if team =s? "" then m_Team manifest else team in
      refuse team =s? "" with CliNoTeam ;
      match estateEndpoint url_Parse estateURL with
      | Err e => Err (CliAddress e)
      | Ok base => Ok (mkCliRequest (base +:+ "/api/estate/" +:+ team) (request_headers token user) asJSON)
      end
  end.

Definition Cli_submit (path estateURL team user : string) : M W (result cli_error Z) :=
  match prepare path estateURL team user with
  | Err e => mret (Err e)
  | Ok request =>
      response ← Do request;
      mret match response with
           | Err e => Err (CliNoAnswer estateURL e)
           | Ok (status, body) => exitFor Unmarshal status body
           end
  end.

(** [run]; the commands that only print succeed with nothing to say. *)
Definition Cli_run (arguments : list string) : M W (result cli_error Z) :=
  match arguments with
  | [] => mret (Ok 0%Z)
  | command :: rest =>
      let '(positional, flagArguments) := splitArguments rest in
      match flags_Parse flagArguments ∅ with
      | Err e => mret (Err (CliFlags e))
      | Ok flags =>
          let flag name := default "" (flags !! name) in
          let file := default "" (head positional) in
          if (command =s? "validate") || (command =s? "json") then
            mret match readManifest filepath_Clean ReadFile Stdin YAMLToJSON Decode file with
                 | Err e => Err e
                 | Ok _ => Ok 0%Z
                 end
          else if command =s? "submit" then Cli_submit file (flag "estate") (flag "team") (flag "user")
          else if slice_contains ["help"; "-h"; "--help"] command then mret (Ok 0%Z)
          else mret (Err (CliUnknownCommand command))
      end
  end.

(** [main]: the exit code of the process. *)
Definition exit_code (r : result cli_error Z) : Z := match r with Ok code => code | Err _ => 1%Z end.
End submitting.

(** ** An estate at the other end *)

(** What becomes of one exchange: it is whole; the request, or the answer, is lost; the
    answer's body ends early; or something in front of the estate answers first with a
    permanent redirect to it, which [net/http] follows with a GET. *)
Inductive passage (B : Type) :=
| Whole
| Unsent (e : string)
| Unanswered (e : string)
| CutShort (read : B)
| Moved.
Arguments Whole {B}.
Arguments Unsent {B}.
Arguments Unanswered {B}.
Arguments CutShort {B}.
Arguments Moved {B}.

(** The encoding of replies, and what the client counts in one: the lists under "refused"
    and "failed". *)
Class CliWire (B : Type) := {
  EncodeReply : api_body → B;
  UnmarshalOutcome : B → option (nat * nat);
  outcome_counted outcome :
    UnmarshalOutcome (EncodeReply (ApiOutcome outcome)) = Some (length (ao_Refused outcome), length (ao_Failed outcome));
}.

Section network.
Context {W B : Type} `{!CliWire B} (m : Manager W) (footprints : option (string → M W (result read_error Footprint))).
Context (service : Service W) (Caller : Request string → result string Subject).
Context (Decode : string → result string Manifest) (DecodeReference DecodeReason : string → optional_body).
Context (base : string) (notFound : api_body).

(** The server at [base]; the segments of a path without escapes. *)
Definition estate_at (p : passage B) (r : cliRequest) : M W (result string (Z * B)) :=
  match p, CutPrefix (cr_URL r) base with
  | Unsent e, _ => mret (Err e)
  | _, None => mret (Err "no such host")
  | _, Some path =>
      let request := match p with
        | Moved => mkRequest "GET" path (cr_Header r) ∅ ""
        | _ => mkRequest "POST" path (cr_Header r) ∅ (cr_Body r)
        end in
      reply ← match Routes m footprints service Caller Decode DecodeReference DecodeReason request (tail (SplitByte "/" path)) with
              | Some handler => handler
              | None => mret (StatusNotFound, notFound)
              end;
      mret match p with
           | Unanswered e => Err e
           | CutShort read => Ok (reply.1, read)
           | _ => Ok (reply.1, EncodeReply reply.2)
           end
  end.
End network.

(** ** Arguments in any order *)

(** A command line as somebody means it: files, and flags with their values, joined by an
    equals sign or not. *)
Inductive word := File (name : string) | Flag (name v : string) | FlagEq (name v : string).

Definition write_word (w : word) : list string :=
  match w with
  | File name => [name]
  | Flag name v => ["-" +:+ name; v]
  | FlagEq name v => ["-" +:+ name +:+ "=" +:+ v]
  end.
Definition meant_file (w : word) : option string := match w with File name => Some name | _ => None end.
Definition set_flag (values : gmap string string) (w : word) : gmap string string :=
  match w with File _ => values | Flag name v | FlagEq name v => <[name := v]> values end.
Definition well_meant (w : word) : Prop :=
  match w with File name => HasPrefix name "-" = false | Flag name _ | FlagEq name _ => name ∈ flag_names end.

Lemma dashed t : HasPrefix ("-" +:+ t) "-" = true.
Proof. apply HasPrefix_spec. by exists t. Qed.

Lemma split_words words : Forall well_meant words →
  splitArguments (flat_map write_word words) =
    (omap meant_file words, flat_map (λ w, if meant_file w then [] else write_word w) words).
Proof.
  unfold splitArguments. induction 1 as [|w words Hw _ IH]; [done|]. destruct w as [name|name v|name v]; cbn [flat_map write_word app].
  - cbn [split_arguments]. cbn in Hw. by rewrite Hw, IH.
  - assert (Contains ("-" +:+ name) "=" = false) as He.
    { cbn in Hw. unfold flag_names in Hw. set_unfold in Hw. by destruct Hw as [->|[->|[->|[]]]]. }
    cbn [split_arguments]. rewrite dashed, He. cbn. by rewrite IH.
  - assert (Contains ("-" +:+ name +:+ "=" +:+ v) "=" = true) as He.
    { cbn in Hw. unfold flag_names in Hw. set_unfold in Hw. by destruct Hw as [->|[->|[->|[]]]]; destruct v. }
    cbn [split_arguments]. rewrite dashed, He. cbn. by rewrite IH.
Qed.

Lemma parse_words words values : Forall well_meant words →
  flags_Parse (flat_map (λ w, if meant_file w then [] else write_word w) words) values = Ok (foldl set_flag values words).
Proof.
  intros H. revert values. induction H as [|w words Hw _ IH]; intros values; [done|].
  destruct w as [name|name v|name v]; cbn [flat_map write_word app meant_file foldl set_flag]; [apply IH| |];
    cbn in Hw; unfold flag_names in Hw; set_unfold in Hw; destruct Hw as [->|[->|[->|[]]]]; apply IH.
Qed.

(** A flag stands on either side of the file: in whatever order files and flags are
    written, the files are the words that are none, and a flag has the last value written
    for it, also one that begins with a dash. *)
Theorem flags_stand_on_either_side words : Forall well_meant words →
  (splitArguments (flat_map write_word words)).1 = omap meant_file words ∧
  flags_Parse (splitArguments (flat_map write_word words)).2 ∅ = Ok (foldl set_flag ∅ words).
Proof. intros H. rewrite split_words by done. split; [done|by apply parse_words]. Qed.

(** Nothing that starts with a dash is ever a file. *)
Lemma positional_has_no_dash b arguments : Forall (λ a, HasPrefix a "-" = false) (split_arguments b arguments).1.
Proof.
  revert b. induction arguments as [|a arguments IH]; intros b; [constructor|]. cbn [split_arguments].
  destruct b; [|destruct (HasPrefix a "-") eqn:E].
  - specialize (IH false). by destruct (split_arguments false arguments).
  - specialize (IH (negb (Contains a "="))). by destruct (split_arguments _ arguments).
  - specialize (IH false). destruct (split_arguments false arguments). by constructor.
Qed.

(** ** What became of each change *)

Inductive fate := FateApplied | FateDenied | FateWaiting | FateUndecided | FateFailed.
#[export] Instance fate_eq_dec : EqDecision fate.
Proof. solve_decision. Defined.

(** As a result tells it. *)
Definition fate_of (r : Result) : fate :=
  if negb (res_Refused r =s? "") then
    if decisionIn (res_Refused r) =s? ActionRequireApproval then FateWaiting
    else if decisionIn (res_Refused r) =s? ActionDeny then FateDenied
    else FateUndecided
  else if negb (res_Failed r =s? "") then FateFailed else FateApplied.

(** As the trace shows it: the change that was asked about has the identity of the one of
    the manifest, and only an allowed one reaches an adapter. *)
Inductive fared (who : Subject) (change : DesiredItem) : fate → list event → Prop :=
| fared_applied c i token :
    DesiredItem_key c = DesiredItem_key change → names i c → int_Subject i = who →
    fared who change FateApplied [EvSubmit i (Ok token); EvApply token c None]
| fared_refused c i e f :
    DesiredItem_key c = DesiredItem_key change → names i c → int_Subject i = who →
    f = (if decisionIn (Error e) =s? ActionRequireApproval then FateWaiting
         else if decisionIn (Error e) =s? ActionDeny then FateDenied else FateUndecided) →
    fared who change f [EvSubmit i (Err e)]
| fared_failed c i token err :
    DesiredItem_key c = DesiredItem_key change → names i c → int_Subject i = who →
    fared who change FateFailed [EvSubmit i (Ok token); EvApply token c (Some err)]
| fared_not_asked : fared who change FateFailed [].

(** Every error has a text. *)
Definition worded (t : list event) : Prop :=
  (∀ i e, EvSubmit i (Err e) ∈ t → Error e ≠ "") ∧ (∀ token c, EvApply token c (Some "") ∉ t).

Lemma worded_app t1 t2 : worded (t1 ++ t2) → worded t1 ∧ worded t2.
Proof. unfold worded. intros [H1 H2]. setoid_rewrite elem_of_app in H1. setoid_rewrite elem_of_app in H2. naive_solver. Qed.

Lemma attempted_fared who team change r t : attempted (mkActing who "") team change r t → worded t → fared who change (fate_of r) t.
Proof.
  intros [(-> & _ & Hr & Hf)|(c & Hk & H)] [Hw1 Hw2]; unfold fate_of.
  - rewrite Hr, (proj2 (eqs_false _ _) Hf). apply fared_not_asked.
  - destruct H as [r Hc Hr Hf _|i e r Hn Hs Hc Hr _|i token failed r Hn Hs _ ->]; simpl in *.
    + rewrite Hr, (proj2 (eqs_false _ _) Hf). apply fared_not_asked.
    + assert (Error e ≠ "") as He by (eapply Hw1; left). rewrite Hr, (proj2 (eqs_false _ _) He). simpl.
      by eapply fared_refused.
    + destruct failed as [err|]; simpl; [|by eapply fared_applied].
      destruct (err =s? "") eqn:E; autorewrite with mk in E; simpl; [|by eapply fared_failed].
      subst err. exfalso. apply (Hw2 token c). right. left.
Qed.

Lemma all_fared who team changes rs traces :
  Forall3 (attempted (mkActing who "") team) changes rs traces → worded (concat traces) →
  Forall3 (fared who) changes (map fate_of rs) traces.
Proof.
  induction 1 as [|c r t changes rs traces Ha _ IH]; [constructor|]. simpl. intros [H1 H2]%worded_app.
  constructor; [by eapply attempted_fared|by apply IH].
Qed.

Lemma sorted_results rs o :
  foldl sort_result o rs = mkApplyOutcome
    (ao_Applied o ++ filter (λ r, fate_of r = FateApplied) rs)
    (ao_Refused o ++ filter (λ r, res_Refused r ≠ "") rs)
    (ao_Failed o ++ filter (λ r, fate_of r = FateFailed) rs).
Proof.
  revert o. induction rs as [|r rs IH]; intros o; [by destruct o; simpl; rewrite !app_nil_r|].
  cbn [foldl]. rewrite IH. unfold sort_result. destruct (res_Refused r =s? "") eqn:E1; autorewrite with mk in E1.
  - destruct (res_Failed r =s? "") eqn:E2; simpl.
    + assert (fate_of r = FateApplied) as Hf by (unfold fate_of; by rewrite E1, E2).
      rewrite filter_cons_True by done. rewrite filter_cons_False by (by intros []).
      rewrite filter_cons_False by (by rewrite Hf). by rewrite <- app_assoc.
    + assert (fate_of r = FateFailed) as Hf by (unfold fate_of; by rewrite E1, E2).
      rewrite filter_cons_False by (by rewrite Hf). rewrite filter_cons_False by (by intros []).
      rewrite filter_cons_True by done. by rewrite <- app_assoc.
  - assert (fate_of r ≠ FateApplied ∧ fate_of r ≠ FateFailed) as [??].
    { unfold fate_of. rewrite (proj2 (eqs_false _ _) E1). simpl. by repeat case_match. }
    simpl. rewrite filter_cons_False by done. rewrite filter_cons_True by done. rewrite filter_cons_False by done.
    by rewrite <- app_assoc.
Qed.

Definition refused_result (r : Result) : Prop := fate_of r ≠ FateApplied ∧ fate_of r ≠ FateFailed.

Lemma refused_result_spec r : refused_result r ↔ res_Refused r ≠ "".
Proof.
  unfold refused_result, fate_of. destruct (res_Refused r =s? "") eqn:E; autorewrite with mk in E; simpl.
  - split; [|done]. intros [? ?]. by destruct (res_Failed r =s? "").
  - split; [done|]. intros _. by repeat case_match.
Qed.

Lemma refused_fate r : res_Refused r ≠ "" →
  (fate_of r = FateWaiting ↔ decisionIn (res_Refused r) = ActionRequireApproval) ∧
  (fate_of r = FateDenied ↔ decisionIn (res_Refused r) = ActionDeny).
Proof.
  intros H. unfold fate_of. rewrite (proj2 (eqs_false _ _) H). simpl.
  destruct (_ =s? ActionRequireApproval) eqn:E1; autorewrite with mk in E1; [rewrite E1; by repeat split|].
  destruct (_ =s? ActionDeny) eqn:E2; autorewrite with mk in E2; [rewrite E2; by repeat split|]. by repeat split.
Qed.

Lemma no_work_refused rs (o := foldl sort_result no_outcome rs) :
  ¬ (ao_Applied o ≠ [] ∨ ao_Failed o ≠ []) → Forall (λ r, res_Refused r ≠ "") rs ∧ ao_Refused o = rs.
Proof.
  intros H. assert (Forall (λ r, res_Refused r ≠ "") rs) as Hf.
  { subst o. rewrite sorted_results in H. simpl in H. apply Forall_forall. intros r Hr. apply refused_result_spec.
    split; intros Hx; apply H; [left|right]; intros He; apply (not_elem_of_nil r); rewrite <- He; by apply list_elem_of_filter. }
  split; [done|]. subst o. rewrite sorted_results. simpl. clear H. induction Hf; [done|]. rewrite filter_cons_True by done. by f_equal.
Qed.

Definition told (code : Z) (fates : list fate) : Prop :=
  (code = 0%Z ∧ Forall (λ f, f = FateApplied) fates) ∨
  (code = 2%Z ∧ Forall (λ f, f = FateDenied ∨ f = FateWaiting) fates ∧ FateWaiting ∈ fates) ∨
  (code = 3%Z ∧ fates ≠ [] ∧ Forall (λ f, f = FateDenied) fates) ∨
  (code = 4%Z ∧ ∃ f, f ∈ fates ∧ f ≠ FateApplied).

Lemma statusFor_cases o :
  statusFor o = StatusOK ∨ statusFor o = StatusConflict ∨ statusFor o = StatusForbidden ∨ statusFor o = StatusBadGateway.
Proof. unfold statusFor. repeat case_match; auto. Qed.

Section codes.
Context {B : Type} `{!CliWire B}.

(** The exit code of an outcome, whatever its status. *)
Definition exit_of (o : ApplyOutcome) : result cli_error Z :=
  exitFor UnmarshalOutcome (statusFor o) (EncodeReply (ApiOutcome o)).

Lemma exit_of_done rs code (o := foldl sort_result no_outcome rs) :
  statusFor o = StatusOK → exit_of o = Ok code → told code (map fate_of rs).
Proof.
  intros Hs. unfold exit_of, exitFor. rewrite Hs, outcome_counted. simpl. subst o. rewrite sorted_results. simpl.
  destruct (0 <? _)%nat eqn:E; intros [= <-]; unfold told.
  - do 3 right. split; [done|]. apply Nat.ltb_lt in E.
    assert (∃ r, r ∈ rs ∧ fate_of r ≠ FateApplied) as (r & Hr & Hf).
    { destruct (filter (λ r, res_Refused r ≠ "") rs) as [|r l] eqn:E1.
      - destruct (filter (λ r, fate_of r = FateFailed) rs) as [|r l] eqn:E2; [simpl in E; lia|].
        assert (r ∈ filter (λ r, fate_of r = FateFailed) rs) as [Hr Hin]%list_elem_of_filter by (rewrite E2; left).
        exists r. split; [done|]. by rewrite Hr.
      - assert (r ∈ filter (λ r, res_Refused r ≠ "") rs) as [Hr Hin]%list_elem_of_filter by (rewrite E1; left).
        exists r. split; [done|]. by apply refused_result_spec in Hr as [? _]. }
    exists (fate_of r). split; [|done]. apply elem_of_map. by exists r.
  - left. split; [done|]. apply Nat.ltb_ge in E. apply Forall_forall. intros f (r & -> & Hr)%elem_of_map.
    assert (filter (λ r, res_Refused r ≠ "") rs = [] ∧ filter (λ r, fate_of r = FateFailed) rs = []) as [E1 E2]
      by (split; apply nil_length_inv; lia).
    assert (¬ (res_Refused r ≠ "") ∧ fate_of r ≠ FateFailed) as [H1 H2].
    { split; intros Hx; apply (not_elem_of_nil r); [rewrite <- E1|rewrite <- E2]; by apply list_elem_of_filter. }
    destruct (decide (fate_of r = FateApplied)); [done|]. exfalso. apply H1, refused_result_spec. done.
Qed.

Lemma exit_of_refused rs res (o := foldl sort_result no_outcome rs) :
  statusFor o ≠ StatusOK → exit_of o = res →
  Forall refused_result rs ∧ match res with Ok code => told code (map fate_of rs) | Err e => e = CliRefused StatusBadGateway end.
Proof.
  destruct (statusFor_spec o) as (S1 & S2 & S3 & S4). fold o. intros Hs. unfold exit_of, exitFor.
  destruct (statusFor_cases o) as [H|[H|[H|H]]]; [done| | |]; rewrite H; simpl; intros <-.
  - apply S2 in H as (Hne & Hw & Hd & Hx). apply no_work_refused in Hw as [Hf Ho]. fold o in Ho. rewrite Ho in *.
    split; [eapply Forall_impl; [exact Hf|]; intros r; apply refused_result_spec|]. right. left. split; [done|]. split.
    + apply Forall_map. rewrite Forall_forall in Hf, Hd |- *. intros r Hr. destruct (refused_fate r (Hf r Hr)). naive_solver.
    + apply Exists_exists in Hx as (r & Hr & Hx). rewrite Forall_forall in Hf. apply elem_of_map. exists r.
      split; [|done]. symmetry. by apply (refused_fate r (Hf r Hr)).
  - apply S3 in H as (Hne & Hw & Hd & Hx). apply no_work_refused in Hw as [Hf Ho]. fold o in Ho. rewrite Ho in *.
    split; [eapply Forall_impl; [exact Hf|]; intros r; apply refused_result_spec|]. right. right. left. split; [done|].
    split; [by destruct rs|]. apply Forall_map. rewrite Forall_forall in Hf, Hd |- *. intros r Hr. apply (refused_fate r (Hf r Hr)).
    destruct (Hd r Hr); [done|]. exfalso. apply Hx, Exists_exists. by exists r.
  - apply S4 in H as (Hne & Hw & Hd). apply no_work_refused in Hw as [Hf Ho].
    split; [eapply Forall_impl; [exact Hf|]; intros r; apply refused_result_spec|done].
Qed.
End codes.

(** ** The exit code *)

Lemma name_has_no_slash s : name_MatchString s = true → char_in "/" s = false.
Proof.
  destruct s as [|c rest]; [done|]. simpl. rewrite !andb_true_iff. intros [[[Hc _] _] Hr].
  assert (∀ d, is_lower d || is_digit d || is_hyphen d = true → bool_decide ("/"%char = d) = false) as Hd.
  { intros d Hd. apply bool_decide_eq_false. intros <-. discriminate Hd. }
  rewrite Hd by (by rewrite Hc). simpl. clear Hc. induction rest as [|d rest IH]; [done|]. simpl in *.
  apply andb_true_iff in Hr as [Hr1 Hr]. rewrite Hd by done. by apply IH.
Qed.

Lemma prepared_path base team : char_in "/" team = false →
  CutPrefix (base +:+ "/api/estate/" +:+ team) base = Some ("/api/estate/" +:+ team) ∧
  tail (SplitByte "/" ("/api/estate/" +:+ team)) = ["api"; "estate"; team].
Proof.
  intros H. split; [by apply CutPrefix_Some|].
  change ("/api/estate/" +:+ team) with ("" +:+ String "/" ("api" +:+ String "/" ("estate" +:+ String "/" team))).
  rewrite !SplitByte_app by done. by rewrite SplitByte_no_sep.
Qed.

Section submission.
Context {W B : Type} `{!CliWire B} (m : Manager W) (footprints : option (string → M W (result read_error Footprint))).
Context (service : Service W) (Caller : Request string → result string Subject).
Context (Decode : string → result string Manifest) (DecodeReference DecodeReason : string → optional_body).
Context (base : string) (notFound : api_body).
Context (filepath_Clean : string → string) (ReadFile : string → result string string) (Stdin : result string string).
Context (YAMLToJSON : string → result string string) (url_Parse : string → result string parsedURL) (env : gmap string string).
Context (fetch : tokenRequest → result string (Z * option tokenAnswer)).

(** A submission to the estate at [base] over one exchange. *)
Definition submission (p : passage B) (path estateURL team user : string) : M W (result cli_error Z) :=
  Cli_submit (estate_at m footprints service Caller Decode DecodeReference DecodeReason base notFound p) UnmarshalOutcome
    filepath_Clean ReadFile Stdin YAMLToJSON Decode url_Parse env fetch path estateURL team user.

Lemma readManifest_Err path e :
  readManifest filepath_Clean ReadFile Stdin YAMLToJSON Decode path = Err e → after_sending e = false.
Proof. unfold readManifest, readDocument. repeat case_match; simpl; repeat case_match; by intros [= <-]. Qed.

Lemma prepare_Err path estateURL team user e :
  prepare filepath_Clean ReadFile Stdin YAMLToJSON Decode url_Parse env fetch path estateURL team user = Err e → after_sending e = false.
Proof.
  unfold prepare. destruct (estateURL =s? ""); [by intros [= <-]|]. destruct (bearerToken _ _ _); [|by intros [= <-]].
  destruct (_ && _); [by intros [= <-]|]. rewrite rbind_Err. intros [H|([manifest asJSON] & _ & H)]; [by eapply readManifest_Err|].
  destruct (_ =s? ""); [by injection H as <-|]. destruct (estateEndpoint _ _); [done|by injection H as <-].
Qed.

Lemma prepare_Ok path estateURL team user request : estateEndpoint url_Parse estateURL = Ok base →
  team = "" ∨ name_MatchString team = true →
  prepare filepath_Clean ReadFile Stdin YAMLToJSON Decode url_Parse env fetch path estateURL team user = Ok request →
  ∃ manifest asJSON team' token,
    readManifest filepath_Clean ReadFile Stdin YAMLToJSON Decode path = Ok (manifest, asJSON) ∧
    ParseManifest Decode asJSON = Ok manifest ∧ bearerToken url_Parse env fetch = Ok token ∧
    team' = (if team =s? "" then m_Team manifest else team) ∧ char_in "/" team' = false ∧
    request = mkCliRequest (base +:+ "/api/estate/" +:+ team') (request_headers token user) asJSON.
Proof.
  intros Hb Ht. unfold prepare. destruct (estateURL =s? ""); [done|]. destruct (bearerToken _ _ _) as [token|]; [|done].
  destruct (_ && _); [done|]. rewrite rbind_Ok. intros ([manifest asJSON] & Hr & H). rewrite Hb in H.
  destruct (_ =s? "") eqn:E; [done|]. injection H as <-.
  assert (ParseManifest Decode asJSON = Ok manifest) as Hp.
  { unfold readManifest in Hr. apply rbind_Ok in Hr as (document & _ & Hr). destruct (YAMLToJSON document); [|done].
    destruct (ParseManifest _ _) eqn:Ep; [|done]. by injection Hr as <- <-. }
  exists manifest, asJSON, (if team =s? "" then m_Team manifest else team), token. split_and!; try done.
  apply name_has_no_slash. destruct (team =s? "") eqn:Et; autorewrite with mk in Et; [|by destruct Ht].
  apply parse_accepts_exactly in Hp as (? & _ & _ & Hv). apply Hv.
Qed.

(** Who the estate takes for the caller of a submission. *)
Definition submitter (team token user asJSON : string) : result string Subject :=
  Caller (mkRequest "POST" ("/api/estate/" +:+ team) (request_headers token user) ∅ asJSON).

(** What posting a manifest to the estate does. *)
Definition posted (manifest : Manifest) (sender : result string Subject) (r : reply) (t : list event) : Prop :=
  (t = [] ∧ ∃ status msg, r = writeError status msg ∧ (400 ≤ status)%Z ∧ status ≠ StatusConflict ∧ status ≠ StatusForbidden) ∨
  ∃ who floor placer placed desired rs traces (o := foldl sort_result no_outcome rs),
    sender = Ok who ∧ ResolveWith manifest floor placer placed = Ok desired ∧ r = (statusFor o, ApiOutcome o) ∧
    t = concat traces ∧ Forall3 (attempted (mkActing who "") (m_Team manifest)) (d_Changes desired) rs traces.

Lemma posted_error manifest sender status msg :
  (400 ≤ status)%Z → status ≠ StatusConflict → status ≠ StatusForbidden → posted manifest sender (writeError status msg) [].
Proof. intros ???. left. split; [done|]. by exists status, msg. Qed.

Lemma effect_api_apply manifest asJSON team token user : ParseManifest Decode asJSON = Ok manifest →
  effect (api_apply m Caller Decode (mkRequest "POST" ("/api/estate/" +:+ team) (request_headers token user) ∅ asJSON) team)
    (posted manifest (submitter team token user asJSON)).
Proof.
  intros Hp. unfold api_apply. fold (submitter team token user asJSON).
  destruct (submitter team token user asJSON) as [who|e]; [|returns; by apply posted_error].
  cbn [req_Body]. unfold ReadAll. destruct (_ <? _)%nat; [returns; by apply posted_error|]. rewrite Hp.
  destruct (negb _); [returns; by apply posted_error|].
  eapply effect_bind; [apply effect_Apply_results|]. intros [o|e] t Ht; returns; rewrite app_nil_r.
  - destruct Ht as (floor & placer & placed & desired & rs & traces & Hd & -> & -> & Hf). right.
    by exists who, floor, placer, placed, desired, rs, traces.
  - subst t. destruct e; by apply posted_error.
Qed.

(** What an exit code says, and what the trace shows. *)
Definition said (manifest : Manifest) (sender : result string Subject) (res : result cli_error Z) (t : list event) : Prop :=
  match res with
  | Err e => after_sending e = true ∧ (worded t → ∀ token change failed, EvApply token change failed ∉ t)
  | Ok code => worded t → ∃ who floor placer placed desired fates traces,
      sender = Ok who ∧ ResolveWith manifest floor placer placed = Ok desired ∧
      t = concat traces ∧ Forall3 (fared who) (d_Changes desired) fates traces ∧ told code fates
  end.

Lemma nothing_applied who changes rs traces : Forall refused_result rs →
  Forall3 (fared who) changes (map fate_of rs) traces → ∀ token change failed, EvApply token change failed ∉ concat traces.
Proof.
  intros Hr. revert changes traces. induction Hr as [|r rs Hr _ IH]; intros changes traces H; inversion H as [|? ? t ? ? ts Hf Hfs]; subst.
  { by intros ??? ?%not_elem_of_nil. }
  intros token change failed [Ht|Ht]%elem_of_app; [|by eapply IH].
  destruct Hr as [Ha Hb]. inversion Hf; subst; try congruence. by apply list_elem_of_singleton in Ht.
Qed.

Lemma exitFor_Err status (body : B) e : exitFor UnmarshalOutcome status body = Err e → after_sending e = true.
Proof. unfold exitFor. repeat case_match; by intros [= <-]. Qed.

Lemma posted_said manifest sender r t : posted manifest sender r t →
  said manifest sender (exitFor UnmarshalOutcome r.1 (EncodeReply (B:=B) r.2)) t.
Proof.
  intros Hposted. unfold said. destruct (exitFor _ _ _) as [code|e] eqn:He; [|split; [by eapply exitFor_Err|]]; intros Hw;
    destruct Hposted as [(-> & status & msg & -> & Hs & H1 & H2)|(who & floor & placer & placed & desired & rs & traces & -> & Hd & -> & -> & Hf)].
  - exfalso. unfold exitFor in He. cbn [fst snd writeError] in He. rewrite !bool_decide_eq_false_2 in He by done.
    by rewrite (proj2 (Z.leb_le _ _) Hs) in He.
  - apply all_fared in Hf; [|done]. exists who, floor, placer, placed, desired, (map fate_of rs), traces. split_and!; try done.
    destruct (decide (statusFor (foldl sort_result no_outcome rs) = StatusOK)) as [Hs|Hs]; [by eapply exit_of_done|].
    apply (exit_of_refused rs _ Hs He).
  - by intros ??? ?%not_elem_of_nil.
  - apply all_fared in Hf; [|done]. eapply nothing_applied; [|done].
    destruct (decide (statusFor (foldl sort_result no_outcome rs) = StatusOK)) as [Hs|Hs]; [|apply (exit_of_refused rs _ Hs He)].
    exfalso. cbn [fst snd] in He. unfold exitFor in He. rewrite Hs, outcome_counted in He. simpl in He. by destruct (0 <? _)%nat.
Qed.

Lemma effect_submission_post manifest asJSON team token user estateURL :
  ParseManifest Decode asJSON = Ok manifest → char_in "/" team = false →
  effect (response ← estate_at m footprints service Caller Decode DecodeReference DecodeReason base notFound Whole
            (mkCliRequest (base +:+ "/api/estate/" +:+ team) (request_headers token user) asJSON);
          mret match response with
               | Err e => Err (CliNoAnswer estateURL e)
               | Ok (status, body) => exitFor UnmarshalOutcome status body
               end : M W (result cli_error Z))
    (said manifest (submitter team token user asJSON)).
Proof.
  intros Hp Hs. destruct (prepared_path base team Hs) as [Hcut Hseg]. unfold estate_at. cbn [cr_URL cr_Header cr_Body].
  rewrite Hcut, Hseg.
  eapply effect_bind with (Q := λ res t, ∃ r, res = Ok (r.1, EncodeReply r.2) ∧ posted manifest (submitter team token user asJSON) r t).
  - eapply effect_bind; [by apply (effect_api_apply manifest)|]. intros r t Hr. returns. rewrite app_nil_r. by exists r.
  - intros res t (r & -> & Hr). returns. rewrite app_nil_r. by apply posted_said.
Qed.

(** C26: the exit code of a submission says what happened, under three conditions: the
    exchange with the estate is whole; a team given on the command line is a legal name; and
    the errors of the adapters that ran and the refusals of the door have a text ([worded];
    the examples show what happens otherwise). Then exit 0 means that every change of the resolved manifest was asked of the door
    in the caller's name, allowed, and applied by its adapter without a failure; exit 2 that
    every change was refused and at least one waits for a person; exit 3 that every change,
    of at least one, was denied; exit 4 that some change was not applied; exit 1 that no
    adapter was handed anything, and before anything was sent, that the estate was not even
    reached. What was resolved is the manifest that was read and checked locally. *)
Theorem exit_code_says_what_happened path estateURL team user s res s' :
  estateEndpoint url_Parse estateURL = Ok base → team = "" ∨ name_MatchString team = true →
  submission Whole path estateURL team user s = (res, s') →
  ∃ t, st_trace s' = st_trace s ++ t ∧
    match res with
    | Err e => if after_sending e then worded t → ∀ token change failed, EvApply token change failed ∉ t else s' = s
    | Ok code => ∃ manifest asJSON team' token,
        readManifest filepath_Clean ReadFile Stdin YAMLToJSON Decode path = Ok (manifest, asJSON) ∧
        team' = (if team =s? "" then m_Team manifest else team) ∧ bearerToken url_Parse env fetch = Ok token ∧
        said manifest (submitter team' token user asJSON) (Ok code) t
    end.
Proof.
  intros Hb Ht. unfold submission, Cli_submit. destruct (prepare _ _ _ _ _ _ _ _ _ _ _ _) as [request|e] eqn:Hp.
  - destruct (prepare_Ok path estateURL team user request Hb Ht Hp) as (manifest & asJSON & team' & token & Hr & Hj & Htok & Hteam & Hslash & ->).
    intros H. destruct (effect_submission_post manifest asJSON team' token user estateURL Hj Hslash _ _ _ H)
      as (t & ops & Htr & Hsaid & _ & _). exists t. split; [done|]. destruct res as [code|e].
    + by exists manifest, asJSON, team', token.
    + destruct Hsaid as [-> Hsaid]. exact Hsaid.
  - intros [= <- <-]. exists []. rewrite app_nil_r. split; [done|].
    assert (after_sending e = false) as -> by (by eapply prepare_Err). done.
Qed.
End submission.

(** ** Examples and witnesses *)

(** A body is the value it encodes, or what is left of one that was torn. *)
#[local] Instance demo_cli_wire : CliWire (option api_body) := {|
  EncodeReply := Some;
  UnmarshalOutcome b :=
    match b with
    | None => None
    | Some (ApiOutcome o) => Some (length (ao_Refused o), length (ao_Failed o))
    | Some _ => Some (0, 0)
    end;
  outcome_counted outcome := eq_refl;
|}.

Definition demo_parse_url (raw : string) : result string parsedURL := Ok (mkParsedURL "http" "estate:8097" raw).
Definition demo_files (path : string) : result string string :=
  if path =s? "pay.yaml" then Ok "manifest" else Err "no such file".
(** The door of [Manager]'s examples, which also lets everybody read. *)
Definition demo_read_door (i : Intent) (w : Z) : result go_error ExecutionToken * Z :=
  if int_Action i =s? "estate.read" then (Ok (mkExecutionToken "tok" (int_ID i) (int_Resource i) "" w (w + 100)), w) else demo_door i w.
Definition demo_estate (transform : option (string → DesiredItem → Z → result string DesiredItem * Z)) : Manager Z :=
  mkManager demo_read_door (mg_ports demo_manager) (mg_floorOf demo_manager) None None DefaultOwnership true
    (mg_placerOf demo_manager) transform (mg_now demo_manager) (mg_rand demo_manager).
Definition demo_not_admitted (team : string) (change : DesiredItem) (w : Z) : result string DesiredItem * Z := (Err "not admitted", w).

Definition demo_submission_to (m : Manager Z) (team : string) (p : passage (option api_body)) :=
  submission m (Some (Service_Footprint demo_recall)) demo_recall HeaderCallers demo_read_manifest demo_field demo_field
    "http://estate:8097" (ApiError (MsgUnknownTeam "")) (λ p, p) demo_files (Err "closed") Ok demo_parse_url ∅ (λ _, Err "offline")
    p "pay.yaml" "http://estate:8097/" team "alice" demo_start.
Definition demo_submission (transform : option (string → DesiredItem → Z → result string DesiredItem * Z)) (p : passage (option api_body)) :=
  demo_submission_to (demo_estate transform) "" p.

(** What was asked and what was done, in short. *)
Definition demo_seen (s : state Z) : list string :=
  map (λ e, match e with
       | EvSubmit i (Ok _) => int_Action i +:+ " allowed"
       | EvSubmit i (Err _) => int_Action i +:+ " refused"
       | EvApply _ c _ => "applied " +:+ di_Name c
       end) (st_trace s).

(** A change that did not apply is exit 4; when the answer is torn on its way, the same
    change, not applied either, is exit 0. *)
Example a_torn_answer_reads_as_applied :
  exit_code (demo_submission (Some demo_not_admitted) Whole).1 = 4%Z ∧
  exit_code (demo_submission (Some demo_not_admitted) (CutShort None)).1 = 0%Z ∧
  st_trace (demo_submission (Some demo_not_admitted) (CutShort None)).2 = [].
Proof. by vm_compute. Qed.

(** Behind a permanent redirect (from http to https, say) the submission becomes a read,
    nothing is asked about the manifest, and the exit code is that of an applied change. *)
Example a_redirected_submission_reads_as_applied :
  exit_code (demo_submission None Moved).1 = 0%Z ∧ demo_seen (demo_submission None Moved).2 = ["estate.read allowed"].
Proof. by vm_compute. Qed.

(** The team of the command line is not checked: this one is another route, which is asked to
    reconcile; the manifest is not submitted, and the exit code is that of an applied one. *)
Example a_team_with_a_slash_posts_elsewhere :
  exit_code (demo_submission_to (demo_estate None) "payments/reconcile" Whole).1 = 0%Z ∧
  st_trace (demo_submission_to (demo_estate None) "payments/reconcile" Whole).2 = [].
Proof. by vm_compute. Qed.

(** An adapter that fails with an error whose text is empty: nothing says that it failed. *)
Definition demo_mute : Port Z := mkPort (λ _ w, (Ok [], w)) (λ _ _ w, (Some "", w)).
Definition demo_mute_estate : Manager Z :=
  mkManager (λ i w, (Ok (mkExecutionToken "tok" (int_ID i) (int_Resource i) "" w (w + 100)%Z), w)) {["kafka" := demo_mute]}
    (mg_floorOf demo_manager) None None DefaultOwnership true (mg_placerOf demo_manager) None (mg_now demo_manager) (mg_rand demo_manager).
Example an_error_without_text_reads_as_applied :
  exit_code (demo_submission_to demo_mute_estate "" Whole).1 = 0%Z ∧
  existsb (λ e, match e with EvApply _ _ (Some _) => true | _ => false end) (st_trace (demo_submission_to demo_mute_estate "" Whole).2) = true.
Proof. by vm_compute. Qed.

(** The dash that stands for standard input never is a file. *)
Example a_dash_is_no_file {W B} (Do : cliRequest → M W (result string (Z * B))) count clean ReadFile Stdin yaml decode parse env fetch s :
  (∀ arguments, "-" ∉ (splitArguments arguments).1) ∧
  Cli_run Do count clean ReadFile Stdin yaml decode parse env fetch ["validate"; "-"] s = (Err CliNoFile, s).
Proof.
  split; [|done]. intros arguments H. unfold splitArguments in H.
  pose proof (positional_has_no_dash false arguments) as Hf. rewrite Forall_forall in Hf. discriminate (Hf _ H).
Qed.

Lemma exit_code_says_what_happened_witness :
  exit_code (demo_submission None Whole).1 = 2%Z ∧ demo_seen (demo_submission None Whole).2 = ["estate.apply refused"; "estate.apply refused"] ∧
  ∃ t, st_trace (demo_submission None Whole).2 = st_trace demo_start ++ t ∧
    ∃ manifest asJSON team' token,
      readManifest (λ p, p) demo_files (Err "closed") Ok demo_read_manifest "pay.yaml" = Ok (manifest, asJSON) ∧
      team' = m_Team manifest ∧ bearerToken demo_parse_url ∅ (λ _, Err "offline") = Ok token ∧
      said manifest (submitter HeaderCallers team' token "alice" asJSON) (Ok 2%Z) t.
Proof.
  split; [by vm_compute|]. split; [by vm_compute|].
  destruct (exit_code_says_what_happened (demo_estate None) (Some (Service_Footprint demo_recall)) demo_recall HeaderCallers
    demo_read_manifest demo_field demo_field "http://estate:8097" (ApiError (MsgUnknownTeam "")) (λ p, p) demo_files (Err "closed") Ok
    demo_parse_url ∅ (λ _, Err "offline") "pay.yaml" "http://estate:8097/" "" "alice" demo_start
    (Ok 2%Z) (demo_submission None Whole).2) as (t & Ht & H).
  - by vm_compute.
  - by left.
  - change (demo_submission None Whole = (Ok 2%Z, (demo_submission None Whole).2)).
    rewrite (surjective_pairing (demo_submission None Whole)) at 1. f_equal.
  - exists t. split; [exact Ht|]. exact H.
Defined.
