(* ===== verification/Lint.v ===== *)
(** What the repository's own checks share ([src/scripts/dupstrings]): the files they walk,
    and the tally behind rule S1192, which reports a literal that is repeated too often. *)
From S2P Require Import Prelude.

(** ** The walk *)

(** What [filepath.Walk] hands its function, in its order: a path, whether there was an error,
    whether it is a directory. The functions return nil always, so everything is visited. *)
Record Visit := mkVisit {
  vi_path : string;
  vi_err : bool;
  vi_dir : bool;
}.

(** A tree of files: what a root's walk visits, and what reading a path gives. *)
Record Tree := mkTree {
  tr_Walk : string → list Visit;
  tr_ReadFile : string → option string;
}.

(** Every rule walks the roots and reports on some of the files. *)
Definition walk {A} (tree : Tree) (roots : list string) (report : Visit → list A) : list A :=
  roots ≫= (λ root, tr_Walk tree root ≫= report).

(** [err != nil || info.IsDir()] *)
Definition passed_over (v : Visit) : bool := vi_err v || vi_dir v.

(** ** The tally *)

(** How often each literal occurs, and where it occurs first. *)
Definition add_literal (acc : gmap string nat * gmap string nat) (occurrence : string * nat) : gmap string nat * gmap string nat :=
  let '(counts, first) := acc in
  let '(lit, line) := occurrence in
  (<[lit := S (default 0 (counts !! lit))]> counts,
   match first !! lit with Some _ => first | None => <[lit := line]> first end).
Definition tally (occurrences : list (string * nat)) : gmap string nat * gmap string nat :=
  foldl add_literal (∅, ∅) occurrences.

(** Most frequent first; the order of equals is not stated. *)
Definition more_frequent (counts : gmap string nat) (a b : string) : Prop :=
  default 0 (counts !! b) ≤ default 0 (counts !! a).
#[export] Instance more_frequent_dec counts a b : Decision (more_frequent counts a b).
Proof. unfold more_frequent. apply _. Defined.
#[export] Instance more_frequent_total counts : Total (more_frequent counts).
Proof. intros a b. unfold more_frequent. lia. Qed.
#[export] Instance more_frequent_trans counts : Transitive (more_frequent counts).
Proof. intros a b c. unfold more_frequent. lia. Qed.

Definition over (counts : gmap string nat) (times : nat) : list string :=
  merge_sort (more_frequent counts) (map fst (filter (λ p, times ≤ p.2) (map_to_list counts))).

(** A report of rule S1192: where the literal is first, the literal, how often it occurs. *)
Definition over_repeated (occurrences : list (string * nat)) (times : nat) : list (nat * string * nat) :=
  let '(counts, first) := tally occurrences in
  map (λ lit, (default 0 (first !! lit), lit, default 0 (counts !! lit))) (over counts times).

(** ** Lemmas *)

Definition occurrences_of (lit : string) (l : list (string * nat)) : nat := length (filter (λ o, o.1 = lit) l).

Lemma tally_spec l lit :
  (tally l).1 !! lit = (if decide (occurrences_of lit l = 0) then None else Some (occurrences_of lit l)) ∧
  (tally l).2 !! lit = snd <$> head (filter (λ o, o.1 = lit) l).
Proof.
  unfold tally, occurrences_of. induction l as [|[x line] l IH] using rev_ind; [cbn [foldl fst snd]; by rewrite !lookup_empty|].
  rewrite foldl_app, filter_app. cbn [foldl]. destruct (foldl add_literal (∅, ∅) l) as [counts first]. cbn [fst snd] in IH. destruct IH as [IH1 IH2].
  unfold add_literal. cbn [fst snd]. rewrite length_app. destruct (decide (x = lit)) as [->|Hne].
  - rewrite filter_cons_True, filter_nil by done.
    rewrite lookup_insert_eq, IH1. cbn [length]. split.
    + destruct (decide (length (filter _ l) = 0)) as [->|Hz]; [done|]. rewrite decide_False by lia. f_equal. cbn. lia.
    + rewrite IH2. destruct (filter _ l) as [|o k]; cbn; [by rewrite lookup_insert_eq|by rewrite IH2].
  - rewrite filter_cons_False by done. rewrite filter_nil, app_nil_r, Nat.add_0_r. rewrite lookup_insert_ne by done. split; [done|].
    destruct (first !! x); [done|]. by rewrite lookup_insert_ne.
Qed.

(** Each literal that occurs at least [times] times is reported once, with its count and the
    place of its first occurrence, and the counts never rise along the report. *)
Lemma over_repeated_exactly l times :
  times ≠ 0 →
  (∀ line lit n, (line, lit, n) ∈ over_repeated l times ↔
     n = occurrences_of lit l ∧ times ≤ n ∧ ∃ rest, filter (λ o, o.1 = lit) l = (lit, line) :: rest) ∧
  NoDup (map (λ r, r.1.2) (over_repeated l times)) ∧
  Sorted (λ a b, b.2 ≤ a.2) (over_repeated l times).
Proof.
  intros Ht. unfold over_repeated. pose proof (tally_spec l) as Hspec. destruct (tally l) as [counts first]. cbn [fst snd] in Hspec.
  assert (∀ lit, lit ∈ over counts times ↔ times ≤ occurrences_of lit l) as Hover.
  { intros lit. unfold over. rewrite merge_sort_Permutation, elem_of_map. destruct (Hspec lit) as [Hc _]. split.
    - intros ([k n] & -> & [Hn Hin]%list_elem_of_filter). apply elem_of_map_to_list in Hin. cbn in *. rewrite Hc in Hin.
      destruct (decide _); [done|]. by injection Hin as ->.
    - intros Hle. exists (lit, occurrences_of lit l). split; [done|]. apply list_elem_of_filter. split; [done|].
      apply elem_of_map_to_list. rewrite Hc. by rewrite decide_False by lia. }
  split; [|split].
  - intros line lit n. rewrite elem_of_map. destruct (Hspec lit) as [Hc Hf]. split.
    + intros (lit' & [= -> -> ->] & Hin). apply Hover in Hin. rewrite Hc, Hf. rewrite decide_False by lia. split; [done|]. split; [done|].
      unfold occurrences_of in Hin. destruct (filter _ l) as [|[x line'] k] eqn:E; [cbn in Hin; lia|]. exists k. cbn. f_equal.
      assert ((x, line') ∈ filter (λ o : string * nat, o.1 = lit') l) as Hx by (rewrite E; by left). apply list_elem_of_filter in Hx as [<- _]. done.
    + intros (-> & Hle & rest & E). exists lit. rewrite Hc, Hf, E, decide_False by lia. cbn. split; [done|]. by apply Hover.
  - rewrite map_map. cbn. rewrite map_id. unfold over. rewrite merge_sort_Permutation.
    apply NoDup_fmap_fst; [|apply NoDup_filter, NoDup_map_to_list].
    intros x y1 y2 [_ H1]%list_elem_of_filter [_ H2]%list_elem_of_filter. apply elem_of_map_to_list in H1, H2. congruence.
  - assert (Sorted (more_frequent counts) (over counts times)) as Hs by (apply Sorted_merge_sort, _). clear Hover.
    induction Hs as [|lit k _ IH Hd]; [constructor|]. cbn [map]. constructor; [exact IH|].
    destruct Hd as [|lit' k Hd]; cbn [map]; constructor. exact Hd.
Qed.
