(* ===== verification/LintText.v ===== *)
(** Repeated literals in the languages the checks do not parse:
    [src/scripts/dupstrings/textual.go].

    A line is scanned once, with a state that says whether it is inside a quote. The scan gives
    back the literals of a line that is written out of code and quoted text; a comment is cut
    off by a test of its own, which does not always agree with the scan. *)
From S2P Require Import Prelude Manifest Lint.

(** ** [for i, r := range line] *)

(** The byte index of a rune, the rune, and what [WriteRune] writes for it: its own bytes, or
    those of U+FFFD where the bytes are not valid. *)
Record RuneAt := mkRuneAt {
  ra_index : nat;
  ra_rune : N;
  ra_written : string;
}.
Definition replacement : string := bytes [239; 191; 189]%N.
Fixpoint range_from (fuel i : nat) (s : string) : list RuneAt :=
  match fuel, s with
  | S fuel, String c _ =>
      let '(r, width) := decode_rune (N_of_ascii c) s in
      mkRuneAt i r (if (r =? rune_error)%N && (width =? 1) then replacement else take_bytes width s)
        :: range_from fuel (i + width) (drop_bytes width s)
  | _, _ => []
  end.
(** Each rune takes at least a byte. *)
Definition range (s : string) : list RuneAt := range_from (slen s) 0 s.

Definition quote : N := 34.
Definition backslash : N := 92.

(** [strings.Index] *)
Fixpoint Index (s sub : string) : option nat :=
  if HasPrefix s sub then Some 0
  else match s with EmptyString => None | String _ s => S <$> Index s sub end.

(** ** Literals *)

(** The quotes before [pos], counted while [i < pos]; one after a backslash is skipped. *)
Fixpoint quotes_before (line : string) (pos : nat) (rs : list RuneAt) : nat :=
  match rs with
  | [] => 0
  | r :: rs =>
      if pos <=? ra_index r then 0
      else (if (ra_rune r =? quote)%N &&
               ((ra_index r =? 0) || negb (bool_decide (byte_at (ra_index r - 1) line = Some backslash))) then 1 else 0)
           + quotes_before line pos rs
  end.
Definition insideQuote (line : string) (pos : nat) : bool := Nat.odd (quotes_before line pos (range line)).

Fixpoint scan_literals (rs : list RuneAt) (inside escaped : bool) (current : string) : list string :=
  match rs with
  | [] => []
  | r :: rs =>
      if escaped then scan_literals rs inside false (current +:+ ra_written r)
      else if (ra_rune r =? backslash)%N && inside then scan_literals rs inside true current
      else if (ra_rune r =? quote)%N then
        if inside then current :: scan_literals rs false false "" else scan_literals rs true false current
      else if inside then scan_literals rs inside false (current +:+ ra_written r)
      else scan_literals rs inside false current
  end.

Definition literalsIn (line comment : string) : list string :=
  let line := match Index line comment with
              | Some idx => if negb (insideQuote line idx) then take_bytes idx line else line
              | None => line
              end in
  scan_literals (range line) false false "".

Definition message_shaped (minLength : nat) (lit : string) : bool :=
  negb ((slen lit <? minLength) || negb (ContainsAny lit " %")).

(** The literals that are counted, with the numbers of their lines. *)
Fixpoint counted_from (n : nat) (lines : list string) (comment : string) (minLength : nat) : list (string * nat) :=
  match lines with
  | [] => []
  | line :: lines =>
      map (λ lit, (lit, n)) (List.filter (message_shaped minLength) (literalsIn line comment))
        ++ counted_from (S n) lines comment minLength
  end.
Definition counted (content comment : string) (minLength : nat) : list (string * nat) :=
  counted_from 1 (SplitByte "010"%char content) comment minLength.
Definition countTextualLiterals (content comment : string) (minLength : nat) : gmap string nat * gmap string nat :=
  tally (counted content comment minLength).

(** ** Reports *)

Definition scanLanguages : gmap string string := {[".java" := "//"; ".py" := "#"; ".js" := "//"; ".ts" := "//"]}.

(** [filepath.Ext]: from the last dot of the last element on. *)
Fixpoint ext_from (rev_path : string) (acc : string) : string :=
  match rev_path with
  | EmptyString => ""
  | String c s =>
      if bool_decide (c = "."%char) then String c acc
      else if bool_decide (c = "/"%char) then "" else ext_from s (String c acc)
  end.
Definition filepath_Ext (path : string) : string := ext_from (srev path) "".

(** A report: the path, and where and how often the literal is. *)
Definition reportTextualIn (tree : Tree) (path comment : string) (minLength times : nat) : list (string * (nat * string * nat)) :=
  match tr_ReadFile tree path with
  | None => []
  | Some content => map (λ r, (path, r)) (over_repeated (counted content comment minLength) times)
  end.

Definition generated (path : string) : bool :=
  Contains path "/build/" || Contains path "/.git/" || Contains path "/node_modules/" || Contains path "/target/".

Definition reportTextualDuplicates (tree : Tree) (roots : list string) (minLength times : nat) : list (string * (nat * string * nat)) :=
  walk tree roots (λ v,
    if passed_over v then []
    else if generated (vi_path v) then []
    else match scanLanguages !! filepath_Ext (vi_path v) with
         | None => []
         | Some comment => reportTextualIn tree (vi_path v) comment minLength times
         end).

(** ** Lines as they are written *)

(** Code outside quotes, and quoted text. *)
Inductive piece := Code (s : string) | Lit (s : string).

Fixpoint escape (s : string) : string :=
  match s with
  | EmptyString => EmptyString
  | String c s =>
      if (N_of_ascii c =? quote)%N || (N_of_ascii c =? backslash)%N then String (ascii_of_N backslash) (String c (escape s))
      else String c (escape s)
  end.
Definition written (p : piece) : string :=
  match p with Code s => s | Lit s => String (ascii_of_N quote) (escape s +:+ String (ascii_of_N quote) "") end.
Fixpoint render (ps : list piece) : string :=
  match ps with [] => "" | p :: ps => written p +:+ render ps end.
Definition literals (ps : list piece) : list string := omap (λ p, match p with Lit s => Some s | Code _ => None end) ps.

Definition ascii_only (s : string) : bool := all_chars (λ c, (N_of_ascii c <? 128)%N) s.
(** ASCII text, and no quote outside of a literal. *)
Definition well_written (p : piece) : bool :=
  match p with
  | Code s => ascii_only s && negb (char_in (ascii_of_N quote) s)
  | Lit s => ascii_only s
  end.

(** ** The scan gives the literals back *)

Lemma range_from_ascii fuel i c s :
  (N_of_ascii c <? 128)%N = true →
  range_from (S fuel) i (String c s) = mkRuneAt i (N_of_ascii c) (String c "") :: range_from fuel (i + 1) s.
Proof.
  intros Hc. cbn [range_from]. unfold decode_rune. rewrite Hc. cbn [drop_bytes take_bytes].
  assert ((N_of_ascii c =? rune_error)%N = false) as -> by (apply N.ltb_lt in Hc; apply N.eqb_neq; unfold rune_error; lia). done.
Qed.

(** On ASCII the scan goes byte by byte. *)
Fixpoint scan_bytes (s : string) (inside escaped : bool) (current : string) : list string :=
  match s with
  | EmptyString => []
  | String c s =>
      if escaped then scan_bytes s inside false (current +:+ String c "")
      else if (N_of_ascii c =? backslash)%N && inside then scan_bytes s inside true current
      else if (N_of_ascii c =? quote)%N then
        if inside then current :: scan_bytes s false false "" else scan_bytes s true false current
      else if inside then scan_bytes s inside false (current +:+ String c "")
      else scan_bytes s inside false current
  end.

Lemma scan_ascii s : ascii_only s = true → ∀ fuel i inside escaped current, slen s ≤ fuel →
  scan_literals (range_from fuel i s) inside escaped current = scan_bytes s inside escaped current.
Proof.
  induction s as [|c s IH]; intros Hs fuel i inside escaped current Hf; [by destruct fuel|].
  unfold ascii_only in Hs. cbn [all_chars] in Hs. apply andb_true_iff in Hs as [Hc Hs]. destruct fuel as [|fuel]; [cbn in Hf; lia|].
  rewrite range_from_ascii by done. cbn [scan_literals scan_bytes ra_rune ra_written]. cbn in Hf.
  destruct escaped; [apply IH; [done|lia]|]. destruct (_ && inside); [apply IH; [done|lia]|].
  destruct (N_of_ascii c =? quote)%N; destruct inside; try f_equal; (apply IH; [done|lia]).
Qed.

Lemma ascii_only_app a b : ascii_only (a +:+ b) = ascii_only a && ascii_only b.
Proof. unfold ascii_only. induction a as [|c a IH]; [done|]. change (String c a +:+ b) with (String c (a +:+ b)). cbn [all_chars]. by rewrite IH, andb_assoc. Qed.

Lemma ascii_only_escape s : ascii_only s = true → ascii_only (escape s) = true.
Proof.
  unfold ascii_only. induction s as [|c s IH]; [done|]. cbn [all_chars escape]. intros [Hc Hs]%andb_true_iff.
  destruct (_ || _); cbn [all_chars]; by rewrite Hc, IH.
Qed.

Lemma scan_code s rest :
  char_in (ascii_of_N quote) s = false → scan_bytes (s +:+ rest) false false "" = scan_bytes rest false false "".
Proof.
  induction s as [|c s IH]; [done|]. cbn [char_in]. intros [Hc Hs]%orb_false_iff. change (String c s +:+ rest) with (String c (s +:+ rest)).
  cbn [scan_bytes]. rewrite andb_false_r. assert ((N_of_ascii c =? quote)%N = false) as ->; [|by apply IH].
  apply N.eqb_neq. intros E. apply bool_decide_eq_false in Hc. apply Hc. by rewrite <- (ascii_N_embedding c), E.
Qed.

Lemma append_empty_r (s : string) : s +:+ "" = s.
Proof. induction s as [|c s IH]; [done|]. change (String c (s +:+ "") = String c s). by rewrite IH. Qed.

Lemma scan_literal s rest current :
  scan_bytes (escape s +:+ String (ascii_of_N quote) rest) true false current = (current +:+ s) :: scan_bytes rest false false "".
Proof.
  revert current. induction s as [|c s IH]; intros current; [cbn; by rewrite append_empty_r|]. cbn [escape].
  assert (∀ current, (current +:+ String c "") +:+ s = current +:+ String c s) as Happ by (intros; by rewrite append_assoc).
  destruct ((N_of_ascii c =? quote)%N || (N_of_ascii c =? backslash)%N) eqn:E.
  - change (String (ascii_of_N backslash) (String c (escape s)) +:+ String (ascii_of_N quote) rest)
      with (String (ascii_of_N backslash) (String c (escape s +:+ String (ascii_of_N quote) rest))).
    cbn [scan_bytes]. change ((N_of_ascii (ascii_of_N backslash) =? backslash)%N && true) with true. cbn iota. by rewrite IH, Happ.
  - apply orb_false_iff in E as [Eq Eb].
    change (String c (escape s) +:+ String (ascii_of_N quote) rest) with (String c (escape s +:+ String (ascii_of_N quote) rest)).
    cbn [scan_bytes]. rewrite Eq, Eb. cbn [andb]. cbn iota. by rewrite IH, Happ.
Qed.

Lemma scan_render ps : forallb well_written ps = true → scan_bytes (render ps) false false "" = literals ps.
Proof.
  induction ps as [|p ps IH]; [done|]. cbn [forallb render]. intros [Hp Hps]%andb_true_iff. specialize (IH Hps). destruct p as [s|s]; cbn [written well_written] in *.
  - apply andb_true_iff in Hp as [_ Hp]. apply negb_true_iff in Hp. by rewrite scan_code.
  - change (String (ascii_of_N quote) (escape s +:+ String (ascii_of_N quote) "") +:+ render ps)
      with (String (ascii_of_N quote) ((escape s +:+ String (ascii_of_N quote) "") +:+ render ps)).
    rewrite append_assoc. change (String (ascii_of_N quote) "" +:+ render ps) with (String (ascii_of_N quote) (render ps)).
    change (scan_bytes (escape s +:+ String (ascii_of_N quote) (render ps)) true false "" = s :: literals ps). by rewrite scan_literal, IH.
Qed.

Lemma render_ascii ps : forallb well_written ps = true → ascii_only (render ps) = true.
Proof.
  induction ps as [|p ps IH]; [done|]. cbn [forallb render]. intros [Hp Hps]%andb_true_iff. rewrite ascii_only_app, (IH Hps), andb_true_r.
  destruct p as [s|s]; cbn [written well_written] in *; [by apply andb_true_iff in Hp as [Hp _]|].
  change (ascii_only (escape s +:+ String (ascii_of_N quote) "") = true). by rewrite ascii_only_app, ascii_only_escape.
Qed.

Lemma literalsIn_render ps comment : forallb well_written ps = true → Index (render ps) comment = None → literalsIn (render ps) comment = literals ps.
Proof.
  intros Hw Hi. unfold literalsIn. rewrite Hi. unfold range. rewrite scan_ascii; [by apply scan_render|by apply render_ascii|done].
Qed.

(** ** The report *)

(** A file written line by line. *)
Record written_file (lines : list (list piece)) (comment : string) : Prop := {
  wf_pieces ps : ps ∈ lines → forallb well_written ps = true;
  wf_lines ps : ps ∈ lines → char_in "010" (render ps) = false;
  wf_comment ps : ps ∈ lines → Index (render ps) comment = None;
}.

Lemma counted_lines lines comment minLength n :
  written_file lines comment →
  counted_from n (map render lines) comment minLength =
    concat (imap (λ i ps, map (λ lit, (lit, n + i)) (List.filter (message_shaped minLength) (literals ps))) lines).
Proof.
  revert n. induction lines as [|ps lines IH]; intros n W; [done|]. cbn [map counted_from imap concat].
  rewrite literalsIn_render by (apply W; by left). rewrite Nat.add_0_r. f_equal.
  rewrite IH; [|split; intros; apply W; by right]. f_equal. apply imap_ext. intros j qs _. cbn. apply map_ext. intros lit. f_equal. lia.
Qed.

Lemma filter_lit_line minLength lit n ls :
  filter (λ o : string * nat, o.1 = lit) (map (λ lit, (lit, n)) (List.filter (message_shaped minLength) ls)) =
    if message_shaped minLength lit then replicate (length (filter (lit =.) ls)) (lit, n) else [].
Proof.
  induction ls as [|x ls IH]; [by destruct (message_shaped _ _)|]. cbn [List.filter]. rewrite filter_cons.
  destruct (message_shaped minLength x) eqn:Ex; cbn [map]; rewrite ?filter_cons; cbn [fst].
  - destruct (decide (x = lit)) as [->|Hne]; [rewrite decide_True by done|rewrite decide_False by congruence]; rewrite IH; [by rewrite Ex|done].
  - rewrite IH. destruct (decide (lit = x)) as [->|]; [by rewrite Ex|done].
Qed.

(** How often a literal is in a line and in the file, and the number of its first line. *)
Definition in_line (lit : string) (ps : list piece) : nat := length (filter (lit =.) (literals ps)).
Definition in_file (lit : string) (lines : list (list piece)) : nat := sum_list (map (in_line lit) lines).
Fixpoint first_line (n : nat) (lit : string) (lines : list (list piece)) : option nat :=
  match lines with
  | [] => None
  | ps :: lines => if decide (lit ∈ literals ps) then Some n else first_line (S n) lit lines
  end.

Lemma counted_of lit lines comment minLength n :
  written_file lines comment →
  let here := filter (λ o : string * nat, o.1 = lit) (counted_from n (map render lines) comment minLength) in
  if message_shaped minLength lit
  then length here = in_file lit lines ∧ snd <$> head here = first_line n lit lines ∧ Forall (λ o, o.1 = lit) here
  else here = [].
Proof.
  revert n. induction lines as [|ps lines IH]; intros n W; [by destruct (message_shaped _ _)|].
  assert (written_file lines comment) as W' by (split; intros; apply W; by right). specialize (IH (S n) W').
  cbn [map counted_from]. rewrite literalsIn_render by (apply W; by left). rewrite filter_app, filter_lit_line.
  cbn zeta in *. destruct (message_shaped minLength lit); [|by rewrite IH]. destruct IH as (IHl & IHh & IHf).
  rewrite length_app, length_replicate, IHl. split; [done|]. split.
  - cbn [first_line]. destruct (filter (lit =.) (literals ps)) as [|x k] eqn:E; cbn [length replicate app].
    + rewrite decide_False; [done|]. intros Hin. apply (not_elem_of_nil lit). rewrite <- E. by apply list_elem_of_filter.
    + rewrite decide_True; [done|]. assert (x ∈ filter (lit =.) (literals ps)) as [-> Hx]%list_elem_of_filter by (rewrite E; by left). done.
  - apply Forall_app. split; [by apply Forall_replicate|done].
Qed.

(** The report on a file that is written out of code and literals, without comments: each
    literal that reads like a message and occurs at least [times] times, with how often it
    occurs and its first line. *)
Lemma report_exactly tree path comment minLength times lines :
  written_file lines comment → lines ≠ [] → times ≠ 0 →
  tr_ReadFile tree path = Some (Join (map render lines) (String "010" "")) →
  ∀ line lit n, (path, (line, lit, n)) ∈ reportTextualIn tree path comment minLength times ↔
    message_shaped minLength lit = true ∧ n = in_file lit lines ∧ times ≤ n ∧ first_line 1 lit lines = Some line.
Proof.
  intros W Hne Ht Hread line lit n. unfold reportTextualIn. rewrite Hread. unfold counted. rewrite SplitByte_Join; first last.
  { apply Forall_forall. intros x (ps & -> & Hin)%elem_of_map. by apply W. } { by destruct lines. }
  rewrite elem_of_map. pose proof (counted_of lit lines comment minLength 1 W) as H. cbn zeta in H.
  destruct (over_repeated_exactly (counted_from 1 (map render lines) comment minLength) times Ht) as [Hover _]. split.
  - intros (r & [= <-] & Hin). apply Hover in Hin as (-> & Hle & rest & E). unfold occurrences_of in *.
    destruct (message_shaped minLength lit); [|by rewrite E in H]. destruct H as (Hl & Hh & _). rewrite E in Hh. by rewrite Hl in *.
  - intros (Hm & -> & Hle & Hf). rewrite Hm in H. destruct H as (Hl & Hh & Hall). exists (line, lit, in_file lit lines). split; [done|].
    apply Hover. unfold occurrences_of. rewrite Hl. split; [done|]. split; [done|].
    destruct (filter _ _) as [|[x l'] rest]; cbn in Hl; [lia|]. apply Forall_cons in Hall as [Hx _]. cbn in Hx, Hh. rewrite Hf in Hh.
    injection Hh as ->. subst x. by exists rest.
Qed.

(** ** Examples *)

Definition dquote : string := String (ascii_of_N quote) "".
Definition bslash : string := String (ascii_of_N backslash) "".

Example a_url_is_not_a_comment : literalsIn ("x = " +:+ dquote +:+ "http://a b" +:+ dquote +:+ ";") "//" = ["http://a b"].
Proof. reflexivity. Qed.
Example the_gap_is_not_a_literal : literalsIn ("foo(" +:+ dquote +:+ "a" +:+ dquote +:+ ", bar, " +:+ dquote +:+ "b" +:+ dquote +:+ ")") "//" = ["a"; "b"].
Proof. reflexivity. Qed.

(** Only the first [//] of a line is asked whether it is a comment: one inside a literal hides
    the real comment after it, whose quoted words are then literals. *)
Lemma a_url_hides_the_comment :
  literalsIn ("get(" +:+ dquote +:+ "http://h" +:+ dquote +:+ "); // says " +:+ dquote +:+ "not a literal" +:+ dquote) "//" = ["http://h"; "not a literal"].
Proof. reflexivity. Qed.

(** A double quote written as a Java character opens a literal, so what is between the next two
    literals is reported, which the file says its scan cannot do. *)
Lemma a_quote_character_reports_the_gap :
  literalsIn ("f('" +:+ dquote +:+ "', " +:+ dquote +:+ "a" +:+ dquote +:+ ", bar, " +:+ dquote +:+ "b" +:+ dquote +:+ ")") "//" = ["', "; ", bar, "].
Proof. reflexivity. Qed.

(** The two tests of a quote disagree on a backslash that is itself escaped: the scan closes the
    literal, [insideQuote] does not, and the comment is kept. *)
Lemma an_escaped_backslash_keeps_the_comment :
  literalsIn ("p = " +:+ dquote +:+ "c:" +:+ bslash +:+ bslash +:+ dquote +:+ "; // the " +:+ dquote +:+ "root dir" +:+ dquote) "//" = ["c:" +:+ bslash; "root dir"].
Proof. reflexivity. Qed.
