(* ===== verification/Regexp.v ===== *)
(** Regular expressions as the checks use them (package [regexp]): which texts match, and what
    an anchored expression leaves when its first match is cut off.

    [matches] says what an expression matches; [run] finds the ends of its matches in the
    order of preference of the package (the first alternative, the longest repetition). The two
    are shown to agree. *)
From S2P Require Import Prelude Manifest Lint LintText.

(** Runes classes, [\b], [^] and [$] of a text that is one line. *)
Inductive re :=
  | Eps
  | Cls (c : N → bool)
  | Seq (r s : re)
  | Alt (r s : re)
  | Star (r : re)
  | Boundary
  | Begin
  | End.

Definition Opt (r : re) : re := Alt r Eps.
Definition Plus (r : re) : re := Seq r (Star r).

(** A place in a text: the rune before it, and what comes after. *)
Definition spot : Type := option N * list N.

Definition in_range (lo hi r : N) : bool := (lo <=? r)%N && (r <=? hi)%N.
(** [\w] and [\s]: ASCII only. *)
Definition word_rune (r : N) : bool := in_range 48 57 r || in_range 65 90 r || (r =? 95)%N || in_range 97 122 r.
Definition space_rune (r : N) : bool := in_range 9 10 r || in_range 12 13 r || (r =? 32)%N.

Definition word_at (o : option N) : bool := match o with Some r => word_rune r | None => false end.
Definition at_boundary (p : spot) : bool := negb (Bool.eqb (word_at p.1) (word_at (head p.2))).

(** ** What matches *)

Inductive matches : re → spot → spot → Prop :=
  | m_eps p : matches Eps p p
  | m_cls c b x l : c x = true → matches (Cls c) (b, x :: l) (Some x, l)
  | m_seq r s p q t : matches r p q → matches s q t → matches (Seq r s) p t
  | m_left r s p q : matches r p q → matches (Alt r s) p q
  | m_right r s p q : matches s p q → matches (Alt r s) p q
  | m_stop r p : matches (Star r) p p
  | m_again r p q t : matches r p q → matches (Star r) q t → matches (Star r) p t
  | m_boundary p : at_boundary p = true → matches Boundary p p
  | m_begin l : matches Begin (None, l) (None, l)
  | m_end b : matches End (b, []) (b, []).

(** ** Finding it *)

(** As many rounds as there are runes left: a round that takes none is given up. *)
Definition star_run (run : spot → list spot) : nat → spot → list spot :=
  fix go n p :=
    match n with
    | 0 => [p]
    | S n => (run p ≫= λ q, if length q.2 <? length p.2 then go n q else []) ++ [p]
    end.
Fixpoint run (r : re) (p : spot) : list spot :=
  match r with
  | Eps => [p]
  | Cls c => match p.2 with x :: l => if c x then [(Some x, l)] else [] | [] => [] end
  | Seq r s => run r p ≫= run s
  | Alt r s => run r p ++ run s p
  | Star r => star_run (run r) (length p.2) p
  | Boundary => if at_boundary p then [p] else []
  | Begin => match p.1 with None => [p] | Some _ => [] end
  | End => match p.2 with [] => [p] | _ => [] end
  end.

(** The places of a text, from the first on. *)
Fixpoint places (before : option N) (l : list N) : list spot :=
  (before, l) :: match l with [] => [] | x :: l => places (Some x) l end.
Definition runes_of (s : string) : list N := map ra_rune (range s).

Definition matches_at (r : re) (p : spot) : bool := match run r p with [] => false | _ => true end.
Definition MatchString (r : re) (s : string) : bool := existsb (matches_at r) (places None (runes_of s)).

(** [ReplaceAllString(s, "")] for an expression that starts with [^] and takes a rune: only the
    beginning of the text can match. *)
Definition cut_prefix (r : re) (s : string) : string :=
  match run r (None, runes_of s) with
  | [] => s
  | q :: _ => match drop (length (runes_of s) - length q.2) (range s) with
              | x :: _ => drop_bytes (ra_index x) s
              | [] => ""
              end
  end.

(** ** They agree *)

Lemma matches_progress r p q : matches r p q → q = p ∨ length q.2 < length p.2.
Proof.
  induction 1 as [| |r s p q t _ [->|H1] _ [->|H2]| | | |r p q t _ [->|H1] _ [->|H2]| | |]; cbn in *; (by left) || (right; cbn; lia) || tauto.
Qed.

Lemma star_run_sound r (H : ∀ p q, q ∈ run r p → matches r p q) n p q : q ∈ star_run (run r) n p → matches (Star r) p q.
Proof.
  revert p. induction n as [|n IH]; intros p; cbn [star_run].
  - intros ->%list_elem_of_singleton. constructor.
  - intros [Hin|Hin]%elem_of_app; [|apply list_elem_of_singleton in Hin as ->; constructor].
    apply list_elem_of_bind in Hin as (t & Hq & Ht). destruct (_ <? _); [|by apply not_elem_of_nil in Hq].
    eapply m_again; [by apply H|]. by apply IH.
Qed.

Lemma star_run_stop f n p : p ∈ star_run f n p.
Proof. destruct n; cbn [star_run]; [by left|]. apply elem_of_app. right. by left. Qed.

Lemma star_run_complete r (H : ∀ p q, matches r p q → q ∈ run r p) p q :
  matches (Star r) p q → ∀ n, length p.2 ≤ n → q ∈ star_run (run r) n p.
Proof.
  intros M. remember (Star r) as e eqn:E. revert E. induction M as [| | | | | |r' p q t M1 _ M2 IH| | |]; intros [= ->] n Hn.
  - apply star_run_stop.
  - specialize (IH eq_refl). destruct (matches_progress _ _ _ M1) as [->|Hlt]; [by apply IH|].
    destruct n as [|n]; [lia|]. cbn [star_run]. apply elem_of_app. left. apply list_elem_of_bind. exists q. split; [|by apply H].
    rewrite (proj2 (Nat.ltb_lt _ _)) by done. apply IH. lia.
Qed.

Lemma run_matches r p q : q ∈ run r p ↔ matches r p q.
Proof.
  revert p q. induction r as [|c|r IHr s IHs|r IHr s IHs|r IHr| | |]; intros p q; cbn [run].
  - rewrite list_elem_of_singleton. split; [intros ->; constructor|by inversion 1].
  - destruct p as [b [|x l]]; cbn; [split; [by intros H%not_elem_of_nil|by inversion 1]|].
    destruct (c x) eqn:E; [rewrite list_elem_of_singleton|]; split.
    + intros ->. by constructor. + by inversion 1. + by intros H%not_elem_of_nil. + inversion 1. congruence.
  - rewrite list_elem_of_bind. split.
    + intros (t & Hs%IHs & Hr%IHr). by econstructor.
    + inversion 1; subst. eexists. by split; [apply IHs|apply IHr].
  - rewrite elem_of_app, IHr, IHs. split; [intros [?|?]; by constructor|]. inversion 1; subst; tauto.
  - split.
    + apply star_run_sound. intros. by apply IHr.
    + intros M. apply star_run_complete; [intros; by apply IHr|done|done].
  - destruct (at_boundary p) eqn:E; [rewrite list_elem_of_singleton|]; split.
    + intros ->. by constructor. + by inversion 1. + by intros H%not_elem_of_nil. + inversion 1. congruence.
  - destruct p as [[b|] l]; cbn; [|rewrite list_elem_of_singleton]; split.
    + by intros H%not_elem_of_nil. + by inversion 1. + intros ->. constructor. + by inversion 1.
  - destruct p as [b [|x l]]; cbn; [rewrite list_elem_of_singleton|]; split.
    + intros ->. constructor. + by inversion 1. + by intros H%not_elem_of_nil. + by inversion 1.
Qed.

(** A text matches exactly when the expression matches from some place of it on. *)
Lemma MatchString_exactly r s :
  MatchString r s = true ↔ ∃ p q, p ∈ places None (runes_of s) ∧ matches r p q.
Proof.
  unfold MatchString. rewrite existsb_exists. setoid_rewrite <- list_elem_of_In. unfold matches_at. split.
  - intros (p & Hp & Hm). destruct (run r p) as [|q l] eqn:E; [done|]. exists p, q. split; [done|]. apply run_matches. rewrite E. by left.
  - intros (p & q & Hp & Hm%run_matches). exists p. split; [done|]. destruct (run r p); [by apply not_elem_of_nil in Hm|done].
Qed.

(** ** Writing expressions *)

Definition rune_of (c : ascii) : N := N_of_ascii c.
Definition lit (c : ascii) : re := Cls (λ r, (r =? rune_of c)%N).
Definition space : re := Cls space_rune.
Definition word : re := Cls word_rune.
Fixpoint text (s : string) : re :=
  match s with EmptyString => Eps | String c s => Seq (lit c) (text s) end.
Fixpoint one_of (l : list string) : re :=
  match l with
  | [] => Cls (λ _, false)
  | [s] => text s
  | s :: l => Alt (text s) (one_of l)
  end.
Definition seq_of (l : list re) : re := foldr Seq Eps l.

(** ** Lemmas on matches *)

Lemma matches_suffix r p q : matches r p q → ∃ taken, p.2 = taken ++ q.2.
Proof.
  induction 1 as [|c b x l|r s p q t _ [a Ha] _ [a' Ha']| | | |r p q t _ [a Ha] _ [a' Ha']| | |]; try (by exists []) || done.
  - by exists [x].
  - exists (a ++ a'). by rewrite Ha, Ha', app_assoc.
  - exists (a ++ a'). by rewrite Ha, Ha', app_assoc.
Qed.

Lemma places_suffix b l p : p ∈ places b l → ∃ before, l = before ++ p.2.
Proof.
  revert b. induction l as [|x l IH]; intros b; cbn [places].
  - intros ->%list_elem_of_singleton. by exists [].
  - intros [->|H]%elem_of_cons; [by exists []|]. apply IH in H as [a ->]. by exists (x :: a).
Qed.
Lemma places_app b before l : ∃ b', (b', l) ∈ places b (before ++ l).
Proof.
  revert b. induction before as [|x before IH]; intros b; [exists b; destruct l; by left|].
  destruct (IH (Some x)) as [b' H]. exists b'. cbn [app places]. by right.
Qed.

(** A sequence with a class in it takes a rune of that class. *)
Lemma sequence_takes rs p q c : matches (seq_of rs) p q → Cls c ∈ rs → ∃ x, x ∈ p.2 ∧ c x = true.
Proof.
  revert p. induction rs as [|r rs IH]; intros p M Hin; [by apply not_elem_of_nil in Hin|].
  cbn in M. inversion M as [| |? ? ? t ? M1 M2| | | | | | |]; subst. apply elem_of_cons in Hin as [<-|Hin].
  - inversion M1; subst. eexists. split; [by left|done].
  - destruct (IH _ M2 Hin) as (x & Hx & Hc). exists x. split; [|done]. apply matches_suffix in M1 as [a ->]. apply elem_of_app. by right.
Qed.
Lemma MatchString_without rs s c : Cls c ∈ rs → Forall (λ x, c x = false) (runes_of s) → MatchString (seq_of rs) s = false.
Proof.
  intros Hin H. apply not_true_iff_false. intros (p & q & Hp & Hm)%MatchString_exactly.
  destruct (sequence_takes _ _ _ _ Hm Hin) as (x & Hx & Hc). apply places_suffix in Hp as [before E].
  rewrite Forall_forall in H. rewrite H in Hc; [done|]. rewrite E. apply elem_of_app. by right.
Qed.

(** An expression that starts with [^] is tried at the beginning only. *)
Lemma MatchString_anchored rs s : MatchString (seq_of (Begin :: rs)) s = matches_at (seq_of rs) (None, runes_of s).
Proof.
  unfold MatchString. assert (∀ x l, existsb (matches_at (seq_of (Begin :: rs))) (places (Some x) l) = false) as Hlater.
  { intros x l. revert x. induction l as [|y l IH]; intros x; [done|]. cbn [places existsb]. by rewrite IH. }
  assert (∀ l, matches_at (seq_of (Begin :: rs)) (None, l) = matches_at (seq_of rs) (None, l)) as Hhere.
  { intros l. unfold matches_at, seq_of. cbn. by rewrite app_nil_r. }
  destruct (runes_of s) as [|x l]; cbn [places existsb]; rewrite Hhere, ?Hlater; by rewrite orb_false_r.
Qed.

Lemma star_all c b l t : Forall (λ x, c x = true) l → ∃ b', matches (Star (Cls c)) (b, l ++ t) (b', t).
Proof.
  intros H. revert b. induction H as [|x l Hx _ IH]; intros b; [exists b; constructor|]. destruct (IH (Some x)) as [b' M].
  exists b'. cbn [app]. eapply m_again; [by constructor|done].
Qed.

(** On ASCII the runes are the bytes. *)
Definition bytes_of (s : string) : list N := map N_of_ascii (Stdlib.Strings.String.list_ascii_of_string s).
Lemma runes_ascii s : ascii_only s = true → runes_of s = bytes_of s.
Proof.
  unfold runes_of, range. assert (∀ fuel i, ascii_only s = true → slen s ≤ fuel → map ra_rune (range_from fuel i s) = bytes_of s) as H; [|by intros; apply H].
  induction s as [|c s IH]; intros fuel i Hs Hf; [by destruct fuel|].
  unfold ascii_only in Hs. cbn [all_chars] in Hs. apply andb_true_iff in Hs as [Hc Hs]. destruct fuel as [|fuel]; [cbn in Hf; lia|].
  rewrite range_from_ascii by done. cbn in Hf. cbn [map ra_rune]. unfold bytes_of in *. cbn. f_equal. apply IH; [done|lia].
Qed.
Lemma bytes_of_app a b : bytes_of (a +:+ b) = bytes_of a ++ bytes_of b.
Proof.
  unfold bytes_of. induction a as [|c a IH]; [done|]. change (String c a +:+ b) with (String c (a +:+ b)). cbn. by rewrite IH.
Qed.
