(* ===== verification/LintGo.v ===== *)
(** The rules over parsed Go: [src/scripts/dupstrings/main.go] (repeated literals),
    [ifdecl.go] (a binding an [if] does not need) and [cognitive.go] (how hard a function is
    to hold in the head).

    The parser is an argument. A node has the fields the rules read; [visit] is the order in
    which [ast.Walk] goes over them. *)
From S2P Require Import Prelude Manifest Lint LintText.

(** ** [go/ast] *)

Inductive token := STRING | LAND | LOR | DEFINE | token_other (text : string).
#[export] Instance token_eq_dec : EqDecision token.
Proof. solve_decision. Defined.

(** The nodes the rules tell apart; [Other] is any other node with its children. Lines are kept
    where a report prints them. *)
Inductive node :=
  | Ident (Name : string)
  | BasicLit (line : nat) (Kind : token) (Value : string)
  | BinaryExpr (X : node) (Op : token) (Y : node)
  | FuncLit (Type_ Body : node)
  | AssignStmt (Lhs : list node) (Tok : token) (Rhs : list node)
  | IfStmt (line : nat) (Init : option node) (Cond Body : node) (Else : option node)
  | ForStmt (Init Cond Post : option node) (Body : node)
  | RangeStmt (Key Value : option node) (X Body : node)
  | SwitchStmt (Init Tag : option node) (Body : node)
  | TypeSwitchStmt (Init : option node) (Assign Body : node)
  | SelectStmt (Body : node)
  | CaseClause (List_ Body : list node)
  | CommClause (Comm : option node) (Body : list node)
  | FuncDecl (line : nat) (Recv : option node) (Name Type_ : node) (Body : option node)
  | Other (children : list node).

Definition visit_opt {A} (f : node → list A) (o : option node) : list A :=
  match o with Some n => f n | None => [] end.
Definition visit_list {A} (f : node → list A) (l : list node) : list A := concat (map f l).
Definition visit {A} (f : node → list A) (n : node) : list A :=
  match n with
  | Ident _ | BasicLit _ _ _ => []
  | BinaryExpr x _ y => f x ++ f y
  | FuncLit ty body => f ty ++ f body
  | AssignStmt lhs _ rhs => visit_list f lhs ++ visit_list f rhs
  | IfStmt _ init cond body els => visit_opt f init ++ f cond ++ f body ++ visit_opt f els
  | ForStmt init cond post body => visit_opt f init ++ visit_opt f cond ++ visit_opt f post ++ f body
  | RangeStmt key value x body => visit_opt f key ++ visit_opt f value ++ f x ++ f body
  | SwitchStmt init tag body => visit_opt f init ++ visit_opt f tag ++ f body
  | TypeSwitchStmt init assign body => visit_opt f init ++ f assign ++ f body
  | SelectStmt body => f body
  | CaseClause l body => visit_list f l ++ visit_list f body
  | CommClause comm body => visit_opt f comm ++ visit_list f body
  | FuncDecl _ recv name ty body => visit_opt f recv ++ f name ++ f ty ++ visit_opt f body
  | Other l => visit_list f l
  end.

(** What [ast.Inspect] shows a function that returns true always. *)
Fixpoint preorder (n : node) : list node := n :: visit preorder n.

(** [ast.File]: the name of the package, and the declarations. *)
Record File := mkFile {
  fi_Name : node;
  Decls : list node;
}.
Definition file_node (f : File) : node := Other (fi_Name f :: Decls f).

(** ** [strconv.Unquote], for the two ways a string is written *)

Definition ValidRune (r : N) : bool := (r <? 55296)%N || ((57343 <? r) && (r <=? 1114111))%N.
(** [utf8.AppendRune] of a valid rune. *)
Definition encode_rune (r : N) : string :=
  bytes (if (r <? 128)%N then [r]
         else if (r <? 2048)%N then [192 + r / 64; 128 + r mod 64]
         else if (r <? 65536)%N then [224 + r / 4096; 128 + r / 64 mod 64; 128 + r mod 64]
         else [240 + r / 262144; 128 + r / 4096 mod 64; 128 + r / 64 mod 64; 128 + r mod 64])%N.

Definition unhex (c : ascii) : option N :=
  let c := N_of_ascii c in
  (if (48 <=? c) && (c <=? 57) then Some (c - 48)
   else if (97 <=? c) && (c <=? 102) then Some (c - 97 + 10)
   else if (65 <=? c) && (c <=? 70) then Some (c - 65 + 10)
   else None)%N.
Definition unoctal (c : ascii) : option N :=
  let c := N_of_ascii c in (if (48 <=? c) && (c <=? 55) then Some (c - 48) else None)%N.
(** [n] digits to the given base, and what is after them. *)
Fixpoint digits_of (digit : ascii → option N) (base : N) (n : nat) (v : N) (s : string) : option (N * string) :=
  match n, s with
  | 0, _ => Some (v, s)
  | S n, String c s => d ← digit c; digits_of digit base n (v * base + d)%N s
  | S _, EmptyString => None
  end.

(** [strconv.UnquoteChar] with the double quote: what is appended, and the rest. *)
Definition UnquoteChar (s : string) : option (string * string) :=
  match s with
  | EmptyString => None
  | String c rest =>
      if (N_of_ascii c =? quote)%N then None
      else if (128 <=? N_of_ascii c)%N then
        let '(r, width) := decode_rune (N_of_ascii c) s in
        Some (if (r =? rune_error)%N && (width =? 1) then replacement else take_bytes width s, drop_bytes width s)
      else if negb (N_of_ascii c =? backslash)%N then Some (String c "", rest)
      else match rest with
      | EmptyString => None
      | String e rest =>
          match N_of_ascii e with
          | 97%N => Some (bytes [7%N], rest) | 98%N => Some (bytes [8%N], rest) | 102%N => Some (bytes [12%N], rest)
          | 110%N => Some (bytes [10%N], rest) | 114%N => Some (bytes [13%N], rest) | 116%N => Some (bytes [9%N], rest) | 118%N => Some (bytes [11%N], rest)
          | 120%N => '(v, rest) ← digits_of unhex 16 2 0 rest; Some (bytes [v]%N, rest)
          | 117%N => '(v, rest) ← digits_of unhex 16 4 0 rest; if ValidRune v then Some (encode_rune v, rest) else None
          | 85%N => '(v, rest) ← digits_of unhex 16 8 0 rest; if ValidRune v then Some (encode_rune v, rest) else None
          | 92%N | 34%N => Some (String e "", rest)
          | 48%N | 49%N | 50%N | 51%N | 52%N | 53%N | 54%N | 55%N =>
              '(v, rest) ← digits_of unoctal 8 3 0 (String e rest); if (255 <? v)%N then None else Some (bytes [v]%N, rest)
          | _ => None
          end
      end
  end.

(** The characters up to the closing quote, which ends the text. *)
Fixpoint unquote_from (fuel : nat) (s buf : string) : option string :=
  match fuel, s with
  | S fuel, String c rest =>
      if (N_of_ascii c =? quote)%N then match rest with EmptyString => Some buf | _ => None end
      else if bool_decide (c = "010"%char) then None
      else '(written, rest) ← UnquoteChar s; unquote_from fuel rest (buf +:+ written)
  | _, _ => None
  end.

Definition backquote : N := 96.
Fixpoint without_cr (s : string) : string :=
  match s with
  | EmptyString => ""
  | String c s => if bool_decide (c = "013"%char) then without_cr s else String c (without_cr s)
  end.
(** The text up to the only other backquote, which is at the end. *)
Definition unquote_raw (s : string) : option string :=
  match SplitByte (ascii_of_N backquote) s with
  | [text; ""] => Some (without_cr text)
  | _ => None
  end.

(** Each character takes at least a byte of the text. *)
Definition Unquote (s : string) : option string :=
  match s with
  | EmptyString => None
  | String c rest =>
      if (N_of_ascii c =? quote)%N then unquote_from (slen s) rest ""
      else if (N_of_ascii c =? backquote)%N then unquote_raw rest
      else None
  end.

(** ** Repeated literals: [main.go] *)

Definition message_literal (minLength : nat) (n : node) : option (string * nat) :=
  match n with
  | BasicLit line STRING text =>
      match Unquote text with
      | None => None
      | Some value =>
          if slen value <? minLength then None
          else if negb (ContainsAny value " %") || Contains value ",omitempty" then None
          else Some (value, line)
      end
  | _ => None
  end.
Definition countLiterals (file : File) (minLength : nat) : gmap string nat * gmap string nat :=
  tally (omap (message_literal minLength) (preorder (file_node file))).

(** ** A binding an [if] does not need: [ifdecl.go] *)

Definition is_ident (name : string) (n : node) : bool :=
  match n with Ident x => bool_decide (x = name) | _ => false end.
Definition uses (n : node) (name : string) : nat := length (List.filter (is_ident name) (preorder n)).

Definition needlessBinding (stmt : node) : option string :=
  match stmt with
  | IfStmt _ (Some (AssignStmt [Ident name] tok _)) cond body els =>
      if negb (bool_decide (tok = DEFINE)) then None
      else if bool_decide (name = "_") then None
      else if negb (uses cond name =? 1) || (0 <? uses body name) then None
      else match els with
           | Some els => if 0 <? uses els name then None else Some name
           | None => Some name
           end
  | _ => None
  end.
Definition needless_in (n : node) : list (nat * string) :=
  match n with
  | IfStmt line _ _ _ _ => match needlessBinding n with Some name => [(line, name)] | None => [] end
  | _ => []
  end.

(** ** Cognitive complexity: [cognitive.go] *)

Definition boolean_op (n : node) : option token :=
  match n with
  | BinaryExpr _ LAND _ => Some LAND
  | BinaryExpr _ LOR _ => Some LOR
  | _ => None
  end.
(** Operators that differ from the one before. *)
Fixpoint sequences (before : option token) (ops : list token) : nat :=
  match ops with
  | [] => 0
  | op :: ops => (if bool_decide (before = Some op) then 0 else 1) + sequences (Some op) ops
  end.
Definition booleans (expr : node) : nat := sequences None (omap boolean_op (preorder expr)).

(** The score of one node, and whether [ast.Inspect] goes on below it. *)
Section Score.
Variable complexityOf : node → nat → nat.

Definition scoreIf (cond body : node) (els : option node) (nesting : nat) : nat :=
  let score := 1 + nesting + complexityOf body (nesting + 1) + booleans cond in
  match els with
  | Some els => score + (1 + complexityOf els (nesting + 1))
  | None => score
  end.
Definition scoreBody (body : list node) (nesting : nat) : nat :=
  sum_list (map (λ s, complexityOf s nesting) body).
Definition scoreNode (n : node) (nesting : nat) : nat * bool :=
  match n with
  | IfStmt _ _ cond body els => (scoreIf cond body els nesting, false)
  | ForStmt _ _ _ body => (1 + nesting + complexityOf body (nesting + 1), false)
  | RangeStmt _ _ _ body => (1 + nesting + complexityOf body (nesting + 1), false)
  | SwitchStmt _ _ body => (1 + nesting + complexityOf body (nesting + 1), false)
  | TypeSwitchStmt _ _ body => (1 + nesting + complexityOf body (nesting + 1), false)
  | SelectStmt body => (1 + nesting + complexityOf body (nesting + 1), false)
  | CaseClause _ body => (1 + scoreBody body nesting, false)
  | CommClause _ body => (1 + scoreBody body nesting, false)
  | FuncLit _ body => (complexityOf body (nesting + 1), false)
  | _ => (0, true)
  end.
End Score.

Fixpoint complexityOf (n : node) (nesting : nat) : nat :=
  let '(add, descend) := scoreNode complexityOf n nesting in
  add + (if descend then sum_list (visit (λ c, [complexityOf c nesting]) n) else 0).

(** The functions over the limit: line, name and score. *)
Definition over_limit (limit : nat) (decl : node) : list (nat * string * nat) :=
  match decl with
  | FuncDecl line _ (Ident name) _ (Some body) =>
      let score := complexityOf body 0 in
      if score <=? limit then [] else [(line, name, score)]
  | _ => []
  end.

(** ** The walks *)

Inductive Report :=
  | S1192 (path : string) (line : nat) (literal : string) (times : nat)
  | S1854 (path : string) (line : nat) (name : string)
  | S3776 (path : string) (line : nat) (name : string) (score : nat).

Section Parser.
(** [parser.ParseFile] on what a file holds; [None] where it is not Go. *)
Variable Parse : string → option File.

Definition ParseFile (tree : Tree) (path : string) : option File := tr_ReadFile tree path ≫= Parse.

Definition reportFile (tree : Tree) (path : string) (minLength times : nat) : list Report :=
  match ParseFile tree path with
  | None => []
  | Some file =>
      map (λ r, S1192 path r.1.1 r.1.2 r.2)
        (over_repeated (omap (message_literal minLength) (preorder (file_node file))) times)
  end.
Definition reportIfDeclsIn (tree : Tree) (path : string) : list Report :=
  match ParseFile tree path with
  | None => []
  | Some file => map (λ r, S1854 path r.1 r.2) (preorder (file_node file) ≫= needless_in)
  end.
Definition reportComplexityIn (tree : Tree) (path : string) (limit : nat) : list Report :=
  match ParseFile tree path with
  | None => []
  | Some file => map (λ r, S3776 path r.1.1 r.1.2 r.2) (Decls file ≫= over_limit limit)
  end.

(** A Go file, and a test only if tests are included. *)
Definition go_file (includeTests : bool) (v : Visit) : bool :=
  negb (passed_over v || negb (HasSuffix (vi_path v) ".go"))
  && negb (negb includeTests && HasSuffix (vi_path v) "_test.go").
Definition walk_go (tree : Tree) (roots : list string) (includeTests : bool) (report : string → list Report) : list Report :=
  walk tree roots (λ v, if go_file includeTests v then report (vi_path v) else []).

Definition reportDuplicateLiterals (tree : Tree) (roots : list string) (minLength times : nat) (includeTests : bool) : list Report :=
  walk_go tree roots includeTests (λ path, reportFile tree path minLength times).
Definition reportIfDecls (tree : Tree) (roots : list string) (includeTests : bool) : list Report :=
  walk_go tree roots includeTests (reportIfDeclsIn tree).
Definition reportComplexity (tree : Tree) (roots : list string) (limit : nat) (includeTests : bool) : list Report :=
  walk_go tree roots includeTests (λ path, reportComplexityIn tree path limit).
End Parser.

(** ** Going over a tree *)

Definition children (n : node) : list node := visit (λ c, [c]) n.

Lemma visit_children {A} (f : node → list A) n : visit f n = concat (map f (children n)).
Proof.
  assert (∀ l, concat (map f (concat (map (λ c, [c]) l))) = concat (map f l)) as Hl by (induction l as [|c l IH]; [done|]; cbn; by rewrite IH).
  unfold children.
  destruct n; cbn [visit];
    repeat match goal with o : option node |- _ => destruct o end;
    unfold visit_opt, visit_list; rewrite ?map_app, ?concat_app, ?Hl; cbn; rewrite ?app_nil_r; done.
Qed.

Fixpoint depth (n : node) : nat := S (max_list (visit (λ c, [depth c]) n)).

Lemma depth_child c n : c ∈ children n → depth c < depth n.
Proof.
  intros Hc. destruct n; (cbn [depth]; rewrite visit_children; apply Nat.lt_succ_r;
    clear -Hc; induction (children _) as [|x l IH]; [by apply not_elem_of_nil in Hc|]; cbn;
    apply elem_of_cons in Hc as [->|Hc]; [lia|]; specialize (IH Hc); cbn in IH; lia).
Qed.

(** A property that holds of a node when it holds of its children holds of every node. *)
Lemma node_children_ind (P : node → Prop) : (∀ n, (∀ c, c ∈ children n → P c) → P n) → ∀ n, P n.
Proof.
  intros H n. remember (depth n) as d eqn:E. revert n E. induction (lt_wf d) as [d _ IH]. intros n ->.
  apply H. intros c Hc. by apply (IH (depth c)); [apply depth_child|].
Qed.

Lemma preorder_unfold n : preorder n = n :: concat (map preorder (children n)).
Proof. destruct n; (cbn [preorder]; by rewrite visit_children). Qed.

(** Everything below a node is gone over with it. *)
Inductive below : node → node → Prop :=
  | below_here n : below n n
  | below_child c n m : c ∈ children n → below m c → below m n.

Lemma preorder_below n m : m ∈ preorder n ↔ below m n.
Proof.
  split.
  - revert m. induction n as [n IH] using node_children_ind. intros m. rewrite preorder_unfold.
    intros [->|Hin]%elem_of_cons; [constructor|]. apply list_elem_of_In, in_concat in Hin as (l & Hl & Hin).
    apply in_map_iff in Hl as (c & <- & Hc). apply list_elem_of_In in Hc, Hin. econstructor; [done|by apply IH].
  - induction 1 as [n|c n m Hc _ IH]; rewrite preorder_unfold; [by left|right].
    apply list_elem_of_In, in_concat. exists (preorder c). split; [|by apply list_elem_of_In]. by apply in_map, list_elem_of_In.
Qed.

Lemma uses_none n name : uses n name = 0 ↔ ¬ below (Ident name) n.
Proof.
  unfold uses. rewrite <- preorder_below. induction (preorder n) as [|x l IH].
  - split; [intros _ H; by apply not_elem_of_nil in H|done].
  - cbn [List.filter]. rewrite not_elem_of_cons, <- IH. destruct (is_ident name x) eqn:E; cbn.
    + destruct x; try done. apply bool_decide_eq_true in E as ->. split; [done|]. by intros [? _].
    + split; [|by intros [_ ?]]. intros H. split; [|done]. intros <-. cbn in E. by rewrite bool_decide_eq_true_2 in E.
Qed.

(** ** The rules *)

(** An [if] is reported when it declares one named variable that its condition uses once and
    neither branch mentions; a field or another variable of that name is a use. *)
Lemma needless_exactly line init cond body els name :
  needlessBinding (IfStmt line init cond body els) = Some name ↔
  (∃ rhs, init = Some (AssignStmt [Ident name] DEFINE rhs)) ∧ name ≠ "_" ∧
  uses cond name = 1 ∧ ¬ below (Ident name) body ∧ (∀ e, els = Some e → ¬ below (Ident name) e).
Proof.
  setoid_rewrite <- uses_none. split.
  - cbn [needlessBinding]. destruct init as [[| | | |lhs tok rhs| | | | | | | | | |]|]; try done.
    destruct lhs as [|[x| | | | | | | | | | | | | |] [|]]; try done.
    case_bool_decide as Htok; [|done]. subst tok. cbn [negb]. case_bool_decide as Hx; [done|].
    destruct (uses cond x =? 1) eqn:Hc; [|done]. cbn [negb orb]. apply Nat.eqb_eq in Hc.
    destruct (Nat.ltb_spec 0 (uses body x)) as [|Hb]; [done|]. destruct els as [e|].
    + destruct (Nat.ltb_spec 0 (uses e x)) as [|He]; [done|]. intros [= <-]. split; [by eexists|]. repeat split; try done; [lia|]. intros ? [= <-]. lia.
    + intros [= <-]. split; [by eexists|]. repeat split; try done; lia.
  - intros ([rhs ->] & Hne & Hc & Hb & He). cbn [needlessBinding]. rewrite bool_decide_eq_true_2 by done. cbn [negb].
    rewrite bool_decide_eq_false_2, Hc, Hb by done. cbn. destruct els as [e|]; [|done]. by rewrite (He e).
Qed.

(** The breaks in the flow of control that are scored. *)
Fixpoint breaks (n : node) : nat :=
  match n with
  | IfStmt _ _ _ body els => 1 + breaks body + match els with Some els => breaks els | None => 0 end
  | ForStmt _ _ _ body | RangeStmt _ _ _ body | SwitchStmt _ _ body | TypeSwitchStmt _ _ body | SelectStmt body => 1 + breaks body
  | CaseClause _ body | CommClause _ body => sum_list (map breaks body)
  | FuncLit _ body => breaks body
  | _ => sum_list (visit (λ c, [breaks c]) n)
  end.

Lemma sum_list_linear (f g : node → nat) (h : node → nat) k l :
  (∀ c, c ∈ l → f c = g c + k * h c) → sum_list (map f l) = sum_list (map g l) + k * sum_list (map h l).
Proof.
  induction l as [|c l IH]; intros H; [cbn; lia|]. cbn. rewrite IH by (intros; apply H; by right). rewrite H by (by left). lia.
Qed.

Lemma visit_sum (f : node → nat) n : sum_list (visit (λ c, [f c]) n) = sum_list (map f (children n)).
Proof. rewrite visit_children. by induction (children n) as [|c l IH]; [|cbn; rewrite IH]. Qed.

Lemma visit_list_self l : visit_list (λ c, [c]) l = l.
Proof. unfold visit_list. by induction l as [|c l IH]; [|cbn; rewrite IH]. Qed.

(** A level of nesting around a node costs one for each break in it: no more for a case, an
    else or a sequence of operators. *)
Lemma complexity_nesting n k : complexityOf n k = complexityOf n 0 + k * breaks n.
Proof.
  revert k. induction n as [n IH] using node_children_ind. intros k.
  assert (∀ c j, c ∈ children n → complexityOf c (j + 1) = complexityOf c 1 + j * breaks c) as IH1.
  { intros c j Hc. rewrite (IH c Hc (j + 1)), (IH c Hc 1). lia. }
  destruct n as [| | | | |line init cond body els|init cond post body|key value x body|init tag body|init assign body|body|cl body|comm body| |];
    cbn [complexityOf scoreNode breaks]; try (rewrite !visit_sum; cbn [Nat.add]; apply sum_list_linear; intros; by apply IH).
  - rewrite IH1; [|unfold children; cbn [visit visit_opt]; rewrite ?elem_of_app, ?list_elem_of_singleton; tauto]. change (0 + 1) with 1. lia.
  - unfold scoreIf. rewrite (IH1 body); [|unfold children; cbn [visit visit_opt]; rewrite ?elem_of_app, ?list_elem_of_singleton; tauto]. destruct els as [els|]; [rewrite (IH1 els); [|unfold children; cbn [visit visit_opt]; rewrite ?elem_of_app, ?list_elem_of_singleton; tauto]|]; change (0 + 1) with 1; lia.
  - rewrite (IH1 body); [|unfold children; cbn [visit visit_opt]; rewrite ?elem_of_app, ?list_elem_of_singleton; tauto]. change (0 + 1) with 1. lia.
  - rewrite (IH1 body); [|unfold children; cbn [visit visit_opt]; rewrite ?elem_of_app, ?list_elem_of_singleton; tauto]. change (0 + 1) with 1. lia.
  - rewrite (IH1 body); [|unfold children; cbn [visit visit_opt]; rewrite ?elem_of_app, ?list_elem_of_singleton; tauto]. change (0 + 1) with 1. lia.
  - rewrite (IH1 body); [|unfold children; cbn [visit visit_opt]; rewrite ?elem_of_app, ?list_elem_of_singleton; tauto]. change (0 + 1) with 1. lia.
  - rewrite (IH1 body); [|unfold children; cbn [visit visit_opt]; rewrite ?elem_of_app, ?list_elem_of_singleton; tauto]. change (0 + 1) with 1. lia.
  - unfold scoreBody. rewrite (sum_list_linear _ (λ s, complexityOf s 0) breaks k); [lia|].
    intros c Hc. apply IH. unfold children. cbn [visit]. rewrite elem_of_app, !visit_list_self. by right.
  - unfold scoreBody. rewrite (sum_list_linear _ (λ s, complexityOf s 0) breaks k); [lia|].
    intros c Hc. apply IH. unfold children. cbn [visit]. rewrite elem_of_app, !visit_list_self. by right.
Qed.

Lemma complexity_monotone n j k : j ≤ k → complexityOf n j ≤ complexityOf n k.
Proof. intros H. rewrite (complexity_nesting n j), (complexity_nesting n k). nia. Qed.

(** A function is reported exactly when its body scores over the limit. *)
Lemma over_limit_exactly limit decl line name score :
  (line, name, score) ∈ over_limit limit decl ↔
  ∃ recv ty body, decl = FuncDecl line recv (Ident name) ty (Some body) ∧ score = complexityOf body 0 ∧ limit < score.
Proof.
  split.
  - destruct decl as [| | | | | | | | | | | | |l recv fname ty body|]; try by intros H%not_elem_of_nil.
    destruct fname; try by intros H%not_elem_of_nil. destruct body as [body|]; [|by intros H%not_elem_of_nil].
    cbn [over_limit]. cbn zeta. destruct (Nat.leb_spec (complexityOf body 0) limit); [by intros H'%not_elem_of_nil|].
    intros [= -> -> ->]%list_elem_of_singleton. by eexists _, _, _.
  - intros (recv & ty & body & -> & -> & Hlt). cbn [over_limit]. cbn zeta. rewrite (proj2 (Nat.leb_gt _ _)) by done. by left.
Qed.

(** A literal is reported exactly when it reads like a message and is written [times] times:
    with the number of times, and the line of the first in the order of the walk. *)
Lemma reportFile_exactly Parse tree path minLength times file :
  times ≠ 0 → ParseFile Parse tree path = Some file →
  let literals := omap (message_literal minLength) (preorder (file_node file)) in
  ∀ line value n, S1192 path line value n ∈ reportFile Parse tree path minLength times ↔
    n = occurrences_of value literals ∧ times ≤ n ∧ ∃ rest, filter (λ o, o.1 = value) literals = (value, line) :: rest.
Proof.
  intros Ht Hp literals line value n. unfold reportFile. rewrite Hp, elem_of_map.
  rewrite <- (proj1 (over_repeated_exactly literals times Ht)). split.
  - intros ([[l v] m] & [= -> -> ->] & Hin). exact Hin.
  - intros Hin. by exists (line, value, n).
Qed.

(** ** A string that was quoted is read back *)

Lemma UnquoteChar_plain c s :
  (N_of_ascii c <? 128)%N = true → (N_of_ascii c =? quote)%N = false → (N_of_ascii c =? backslash)%N = false →
  UnquoteChar (String c s) = Some (String c "", s).
Proof. intros H1 H2 H3. cbn [UnquoteChar]. rewrite H2, H3. by rewrite N.leb_antisym, H1. Qed.

Lemma UnquoteChar_escaped c s :
  (N_of_ascii c =? quote)%N || (N_of_ascii c =? backslash)%N = true →
  UnquoteChar (String (ascii_of_N backslash) (String c s)) = Some (String c "", s).
Proof.
  intros H. assert (c = ascii_of_N quote ∨ c = ascii_of_N backslash) as [-> | ->]; [|done|done].
  apply orb_true_iff in H as [H|H]; apply N.eqb_eq in H; [left|right]; by rewrite <- (ascii_N_embedding c), H.
Qed.

Lemma unquote_escape s fuel buf :
  ascii_only s = true → char_in "010" s = false → slen (escape s) < fuel →
  unquote_from fuel (escape s +:+ String (ascii_of_N quote) "") buf = Some (buf +:+ s).
Proof.
  revert fuel buf. induction s as [|c s IH]; intros fuel buf Ha Hn Hf; [destruct fuel; [cbn in Hf; lia|]; cbn; by rewrite append_empty_r|].
  unfold ascii_only in Ha. cbn [all_chars] in Ha. apply andb_true_iff in Ha as [Hc Ha]. cbn [char_in] in Hn. apply orb_false_iff in Hn as [Hn1 Hn].
  assert ((buf +:+ String c "") +:+ s = buf +:+ String c s) as Happ by (by rewrite append_assoc).
  cbn [escape] in *. destruct (_ || _) eqn:E; destruct fuel as [|fuel]; cbn in Hf; [lia| |lia|].
  - change (String (ascii_of_N backslash) (String c (escape s)) +:+ String (ascii_of_N quote) "")
      with (String (ascii_of_N backslash) (String c (escape s +:+ String (ascii_of_N quote) ""))).
    cbn [unquote_from]. change (N_of_ascii (ascii_of_N backslash) =? quote)%N with false. cbn iota.
    rewrite bool_decide_eq_false_2 by done. rewrite UnquoteChar_escaped by done. cbn. rewrite IH; [by rewrite Happ|done|done|lia].
  - apply orb_false_iff in E as [Eq Eb].
    change (String c (escape s) +:+ String (ascii_of_N quote) "") with (String c (escape s +:+ String (ascii_of_N quote) "")).
    cbn [unquote_from]. rewrite Eq. rewrite bool_decide_eq_false_2; [|intros ->; by apply bool_decide_eq_false in Hn1].
    rewrite UnquoteChar_plain by done. cbn. rewrite IH; [by rewrite Happ|done|done|lia].
Qed.

Lemma Unquote_written s : ascii_only s = true → char_in "010" s = false → Unquote (written (Lit s)) = Some s.
Proof.
  intros Ha Hn. cbn [written]. unfold Unquote. change (N_of_ascii (ascii_of_N quote) =? quote)%N with true. cbn iota.
  apply (unquote_escape s _ ""); [done|done|].
  assert (∀ e t, slen e ≤ slen (e +:+ t)) as Hle by (clear; intros e t; induction e as [|c e IH]; [cbn; lia|];
    change (String c e +:+ t) with (String c (e +:+ t)); cbn; lia).
  specialize (Hle (escape s) (String (ascii_of_N quote) "")). exact (proj2 (Nat.lt_succ_r _ _) Hle).
Qed.

(** ** Examples *)

Definition quoted_literal (s : string) : string := written (Lit s).
Definition block (l : list node) : node := Other l.
Definition cond : node := Ident "ok".
Definition when (body : list node) (els : option node) : node := IfStmt 1 None cond (block body) els.

Example raw_string : Unquote (bytes [96; 97; 13; 98; 96]%N) = Some "ab".
Proof. reflexivity. Qed.
Example escapes : Unquote (dquote +:+ "a\u00e9\101\x41" +:+ dquote) = Some (bytes [97; 195; 169; 65; 65]%N).
Proof. reflexivity. Qed.

Example needless_example :
  needlessBinding (IfStmt 3 (Some (AssignStmt [Ident "ok"] DEFINE [Other [Ident "check"]])) cond (block []) None) = Some "ok".
Proof. reflexivity. Qed.

Example straight_line_is_free : complexityOf (block [Other [Ident "f"]; Other []]) 0 = 0.
Proof. reflexivity. Qed.

(** An else is charged one, as the file says; an else-if is charged for the else, as a break of
    its own, and for a level of nesting: three. *)
Lemma else_if_costs_three :
  complexityOf (when [] (Some (block []))) 0 = complexityOf (when [] None) 0 + 1 ∧
  complexityOf (when [] (Some (when [] None))) 0 = complexityOf (when [] None) 0 + 3.
Proof. done. Qed.

(** A sequence of operators is charged in the condition of an [if] only. *)
Lemma operators_outside_if_are_free :
  let both := BinaryExpr (Ident "a") LAND (Ident "b") in
  complexityOf (Other [both]) 0 = 0 ∧
  complexityOf (ForStmt None (Some both) None (block [])) 0 = complexityOf (ForStmt None None None (block [])) 0 ∧
  complexityOf (IfStmt 1 None both (block []) None) 0 = complexityOf (when [] None) 0 + 1.
Proof. done. Qed.

(** The operators are compared in the order of the tree, the outermost first, so
    [a && (b || c) && d], which alternates twice as it is read, has two sequences; and
    [(a || b) && (c || d)] has two where the text has three. *)
Lemma sequences_follow_the_tree :
  let v x := Ident x in
  booleans (BinaryExpr (BinaryExpr (v "a") LAND (Other [BinaryExpr (v "b") LOR (v "c")])) LAND (v "d")) = 2 ∧
  booleans (BinaryExpr (Other [BinaryExpr (v "a") LOR (v "b")]) LAND (Other [BinaryExpr (v "c") LOR (v "d")])) = 2.
Proof. done. Qed.

(** What an [if] declares first, and what is in a condition, is not scored. *)
Lemma closures_before_the_body_are_free :
  let closure := FuncLit (Other []) (block [when [] None]) in
  complexityOf (Other [closure]) 0 = 2 ∧
  complexityOf (IfStmt 1 (Some (AssignStmt [Ident "f"] DEFINE [closure])) cond (block []) None) 0 = complexityOf (when [] None) 0.
Proof. done. Qed.
