(* ===== verification/LintJava.v ===== *)
(** Rule S1186, a Java method with an empty body: [src/scripts/dupstrings/emptybody.go].

    The lines of a file, wrapped signatures folded onto one line, are classified by regular
    expressions; a method whose body is blank up to the closing brace is reported. *)
From S2P Require Import Prelude Manifest Lint LintText Regexp.

(** ** The expressions *)

Definition any_but_paren : re := Cls (λ r, negb (r =? 41)%N).
(** [\b\w+\s*\([^)]*\)\s*] and an optional [throws\s[\w,.\s]+] before the brace. *)
Definition signature (tail : list re) : re :=
  seq_of ([Boundary; Plus word; Star space; lit "("; Star any_but_paren; lit ")"; Star space;
           Opt (seq_of [text "throws"; space; Plus (Cls (λ r, word_rune r || (r =? 44)%N || (r =? 46)%N || space_rune r))]);
           lit "{"; Star space] ++ tail).
Definition methodOpensBody : re := signature [End].
Definition methodEmptyInline : re := signature [lit "}"; Star space; End].
Definition notAMethod : re :=
  seq_of [Begin; one_of ["class"; "interface"; "enum"; "record"; "new"; "if"; "else"; "for"; "while"; "switch";
                         "try"; "catch"; "finally"; "do"; "synchronized"]; Boundary].
Definition lambdaBody : re := seq_of [lit "-"; lit ">"; Star space; lit "{"; Star space; End].
Definition constructor_ : re := seq_of [Begin; Cls (in_range 65 90); Star word; Star space; lit "("].
Definition leadingNoise : re :=
  seq_of [Begin; Star space;
    Plus (Alt (seq_of [lit "@"; Plus word; Opt (seq_of [lit "("; Star any_but_paren; lit ")"]); Plus space])
              (Seq (one_of ["public"; "protected"; "private"; "static"; "final"; "abstract"; "synchronized"; "native"; "default"; "strictfp"])
                   (Plus space)))].

(** ** Parentheses outside of quotes *)

Definition apostrophe : N := 39.
(** A backslash inside a quote skips the byte after it. *)
Fixpoint paren_depth (s : string) (inString inChar skip : bool) : Z :=
  match s with
  | EmptyString => 0
  | String c s =>
      let c := N_of_ascii c in
      if skip then paren_depth s inString inChar false
      else if (inString || inChar) && (c =? backslash)%N then paren_depth s inString inChar true
      else if inString && (c =? quote)%N then paren_depth s false inChar false
      else if inChar && (c =? apostrophe)%N then paren_depth s inString false false
      else if inString || inChar then paren_depth s inString inChar false
      else if (c =? quote)%N then paren_depth s true inChar false
      else if (c =? apostrophe)%N then paren_depth s inString true false
      else if (c =? 40)%N then 1 + paren_depth s inString inChar false
      else if (c =? 41)%N then -1 + paren_depth s inString inChar false
      else paren_depth s inString inChar false
  end%Z.
Definition parenDepth (line : string) : Z := paren_depth line false false false.

(** ** Folding *)

(** [strings.TrimRight(s, chars)], of ASCII *)
Fixpoint drop_any (chars s : string) : string :=
  match s with
  | EmptyString => ""
  | String c rest => if char_in c chars then drop_any chars rest else s
  end.
Definition TrimRight (s chars : string) : string := srev (drop_any chars (srev s)).

(** The lines that are pulled in are left blank. *)
Fixpoint pull (line : string) (rest : list string) : string * list string :=
  match rest with
  | [] => (line, [])
  | x :: rest =>
      if (0 <? parenDepth line)%Z then
        let '(line, rest) := pull (TrimRight line (bytes [32; 9]%N) +:+ " " +:+ TrimSpace x) rest in
        (line, "" :: rest)
      else (line, x :: rest)
  end.
Fixpoint fold_lines (fuel : nat) (lines : list string) : list string :=
  match fuel, lines with
  | S fuel, line :: rest =>
      if (parenDepth line <=? 0)%Z then line :: fold_lines fuel rest
      else let '(line, rest) := pull line rest in line :: fold_lines fuel rest
  | _, _ => []
  end.
(** A line is done in each round. *)
Definition joinWrappedSignatures (lines : list string) : list string := fold_lines (length lines) lines.

(** ** Empty bodies *)

Fixpoint body_is_empty (lines : list string) : bool :=
  match lines with
  | [] => false
  | line :: lines =>
      let body := TrimSpace line in
      if bool_decide (body = "}") then true
      else if negb (bool_decide (body = "")) then false
      else body_is_empty lines
  end.
Definition bodyIsEmpty (lines : list string) (start : nat) : bool := body_is_empty (drop start lines).

(** Line [i] of the file, classified with its annotations and modifiers cut off. *)
Definition empty_method (joined : list string) (i : nat) (raw : string) : option string :=
  let line := TrimSpace raw in
  let declaration := cut_prefix leadingNoise line in
  if MatchString lambdaBody line || MatchString notAMethod declaration || MatchString constructor_ declaration then None
  else if MatchString methodEmptyInline line then Some line
  else if negb (MatchString methodOpensBody line) then None
  else if bodyIsEmpty joined (i + 1) then Some line else None.

Record emptyBody := mkEmptyBody {
  eb_number : nat;
  eb_text : string;
}.
Definition empty_bodies (joined : list string) : list emptyBody :=
  concat (imap (λ i raw, match empty_method joined i raw with Some line => [mkEmptyBody (i + 1) line] | None => [] end) joined).

(** [bufio.Scanner] with a buffer of 4 MiB: the lines without their ends, up to one that does
    not fit. *)
Definition drop_cr (s : string) : string :=
  match srev s with
  | String c rest => if bool_decide (c = "013"%char) then srev rest else s
  | EmptyString => s
  end.
Fixpoint fitting (lines : list string) : list string :=
  match lines with
  | [] => []
  | line :: lines => if (N.of_nat (slen line) <? 4 * 1024 * 1024)%N then drop_cr line :: fitting lines else []
  end.
Definition without_last_empty (lines : list string) : list string :=
  match reverse lines with "" :: l => reverse l | _ => lines end.
Definition scan_lines (content : string) : list string := fitting (without_last_empty (SplitByte "010"%char content)).

Definition emptyBodiesIn (tree : Tree) (path : string) : list emptyBody :=
  match tr_ReadFile tree path with
  | None => []
  | Some content => empty_bodies (joinWrappedSignatures (scan_lines content))
  end.

Definition isBuildOutput (path : string) : bool :=
  existsb (Contains path) ["/target/"; "/build/"; "/.gradle/"; "/node_modules/"].

Definition reportEmptyBodies (tree : Tree) (roots : list string) : list (string * emptyBody) :=
  walk tree roots (λ v,
    if passed_over v then []
    else if negb (HasSuffix (vi_path v) ".java") || isBuildOutput (vi_path v) then []
    else map (λ line, (vi_path v, line)) (emptyBodiesIn tree (vi_path v))).

(** ** Folding *)

Lemma pull_length line rest : length (pull line rest).2 = length rest.
Proof.
  revert line. induction rest as [|x rest IH]; intros line; [done|]. cbn [pull]. destruct (0 <? _)%Z; [|done].
  specialize (IH (TrimRight line (bytes [32; 9]%N) +:+ " " +:+ TrimSpace x)). destruct (pull _ rest) as [l r]. cbn in *. by rewrite IH.
Qed.

(** Every line keeps its number. *)
Lemma fold_lines_length fuel lines : length lines ≤ fuel → length (fold_lines fuel lines) = length lines.
Proof.
  revert lines. induction fuel as [|fuel IH]; intros [|line rest]; cbn; [done|lia|done|]. intros Hle.
  destruct (_ <=? 0)%Z; cbn; [by rewrite IH by lia|]. pose proof (pull_length line rest) as Hp. destruct (pull line rest) as [l r]. cbn in *. rewrite IH by lia. by rewrite Hp.
Qed.
Lemma joinWrappedSignatures_length lines : length (joinWrappedSignatures lines) = length lines.
Proof. by apply fold_lines_length. Qed.

(** What follows an unclosed list to the end of the file is pulled in. *)
Lemma pull_balances line rest : let '(l, r) := pull line rest in (parenDepth l <= 0)%Z ∨ Forall (λ x, x = "") r.
Proof.
  revert line. induction rest as [|x rest IH]; intros line; cbn [pull]; [by right|].
  destruct (Z.ltb_spec 0 (parenDepth line)) as [Hd|Hd]; [|by left].
  specialize (IH (TrimRight line (bytes [32; 9]%N) +:+ " " +:+ TrimSpace x)). destruct (pull _ rest) as [l r].
  destruct IH as [IH|IH]; [by left|right]. by constructor.
Qed.

Lemma fold_blank fuel lines : Forall (λ x, x = "") lines → Forall (λ x, x = "") (fold_lines fuel lines).
Proof.
  revert lines. induction fuel as [|fuel IH]; intros [|line rest]; cbn; try done. intros [-> H]%Forall_cons. cbn. constructor; [done|by apply IH].
Qed.

(** After folding, a line whose parentheses are still open is the last that is not blank. *)
Lemma joined_is_balanced lines i line :
  joinWrappedSignatures lines !! i = Some line →
  (parenDepth line <= 0)%Z ∨ Forall (λ x, x = "") (drop (i + 1) (joinWrappedSignatures lines)).
Proof.
  unfold joinWrappedSignatures. generalize (length lines) at 1 2 as fuel. intros fuel. revert lines i. induction fuel as [|fuel IH]; intros lines i; [done|].
  destruct lines as [|l rest]; [done|]. cbn [fold_lines]. destruct (Z.leb_spec (parenDepth l) 0) as [Hd|Hd].
  - destruct i as [|i]; cbn; [intros [= <-]; by left|]. apply IH.
  - pose proof (pull_balances l rest) as Hp. destruct (pull l rest) as [l' r]. destruct i as [|i]; cbn; [|apply IH].
    intros [= <-]. destruct Hp as [Hp|Hp]; [by left|right]. rewrite drop_0. by apply fold_blank.
Qed.

(** Lines with no open parenthesis are left as they are. *)
Lemma fold_balanced before after fuel :
  Forall (λ l, (parenDepth l <= 0)%Z) before → length (before ++ after) ≤ fuel →
  ∃ fuel', length after ≤ fuel' ∧ fold_lines fuel (before ++ after) = before ++ fold_lines fuel' after.
Proof.
  intros H. revert fuel. induction H as [|l before Hl _ IH]; intros fuel Hf; [by exists fuel|]. destruct fuel as [|fuel]; cbn in Hf; [lia|].
  destruct (IH fuel) as (fuel' & ? & E); [lia|]. exists fuel'. split; [done|]. cbn [app fold_lines]. by rewrite (proj2 (Z.leb_le _ _)), E.
Qed.

(** ** The body *)

(** A body is empty when nothing but blank lines comes before a line that is the closing
    brace alone. *)
Lemma bodyIsEmpty_exactly lines start :
  bodyIsEmpty lines start = true ↔
  ∃ blanks close rest, drop start lines = blanks ++ close :: rest ∧ Forall (λ l, TrimSpace l = "") blanks ∧ TrimSpace close = "}".
Proof.
  unfold bodyIsEmpty. induction (drop start lines) as [|line l IH]; cbn [body_is_empty].
  - split; [done|]. by intros ([|] & ? & ? & [=] & _).
  - cbn zeta. case_bool_decide as H1; [|case_bool_decide as H2]; cbn [negb].
    + split; [|done]. intros _. by exists [], line, l.
    + rewrite IH. split.
      * intros (blanks & close & rest & -> & Hb & Hc). exists (line :: blanks), close, rest. by repeat constructor.
      * intros ([|b blanks] & close & rest & [= -> ->] & Hb & Hc); [congruence|]. apply Forall_cons in Hb as [_ Hb]. by exists blanks, close, rest.
    + split; [done|]. intros ([|b blanks] & close & rest & [= -> ->] & Hb & Hc); [congruence|]. by apply Forall_cons in Hb as [Hb _].
Qed.

(** ** A method is recognised *)

Definition java_identifier (name : string) : bool := negb (name =s? "") && all_chars (λ c, word_rune (N_of_ascii c)) name.
Definition void_method (name : string) : string := "void " +:+ name +:+ "() {".

Lemma word_ascii c : word_rune (N_of_ascii c) = true → (N_of_ascii c <? 128)%N = true.
Proof. unfold word_rune, in_range. rewrite !orb_true_iff, !andb_true_iff, !N.leb_le, N.eqb_eq, N.ltb_lt. lia. Qed.
Lemma identifier_ascii name : java_identifier name = true → ascii_only name = true.
Proof.
  unfold java_identifier, ascii_only. intros [_ H]%andb_true_iff. induction name as [|c name IH]; [done|]. cbn [all_chars] in *.
  apply andb_true_iff in H as [Hc H]. rewrite (word_ascii _ Hc). by apply IH.
Qed.
Lemma identifier_words name : java_identifier name = true → Forall (λ x, word_rune x = true) (bytes_of name).
Proof.
  unfold java_identifier. intros [_ H]%andb_true_iff. induction name as [|c name IH]; [constructor|]. cbn [all_chars] in *.
  apply andb_true_iff in H as [Hc H]. constructor; [done|by apply IH].
Qed.

Lemma void_method_runes name :
  java_identifier name = true → runes_of (void_method name) = [118; 111; 105; 100; 32]%N ++ bytes_of name ++ [40; 41; 32; 123]%N.
Proof.
  intros H%identifier_ascii. rewrite runes_ascii; [by unfold void_method; rewrite !bytes_of_app|].
  unfold void_method. by rewrite !ascii_only_app, H.
Qed.

(** A rune that is neither in a word nor in the fixed part is not in the line. *)
Lemma void_method_lacks name c :
  java_identifier name = true → (∀ x, c x = true → word_rune x = false) → forallb (λ x, negb (c x)) [32; 40; 41; 123]%N = true →
  Forall (λ x, c x = false) (runes_of (void_method name)).
Proof.
  intros H Hc Hf. rewrite void_method_runes by done.
  assert (∀ x, word_rune x = true → c x = false) as Hw by (intros x Hx; destruct (c x) eqn:E; [apply Hc in E; congruence|done]).
  cbn in Hf. rewrite !andb_true_iff, !negb_true_iff in Hf. destruct Hf as (H1 & H2 & H3 & H4 & _).
  rewrite !Forall_app. split; [by repeat constructor; try (by apply Hw)|]. split; [|by repeat constructor].
  eapply Forall_impl; [by apply identifier_words|]. apply Hw.
Qed.

Lemma void_method_unchanged name : java_identifier name = true → cut_prefix leadingNoise (void_method name) = void_method name.
Proof. intros H. unfold cut_prefix. rewrite void_method_runes by done. reflexivity. Qed.

Lemma void_method_opens name : java_identifier name = true → MatchString methodOpensBody (void_method name) = true.
Proof.
  intros H. apply MatchString_exactly. rewrite void_method_runes by done. pose proof (identifier_words name H) as Hw.
  destruct (bytes_of name) as [|x l] eqn:E.
  { destruct name; [done|]. by cbn in E. }
  apply Forall_cons in Hw as [Hx Hl]. destruct (star_all word_rune (Some x) l [40; 41; 32; 123]%N Hl) as [b M].
  exists (Some 32%N, (x :: l) ++ [40; 41; 32; 123]%N), (Some 123%N, []). split.
  - cbn. do 5 (apply elem_of_cons; right). by left.
  - unfold methodOpensBody, signature, seq_of. cbn [app foldr].
    eapply m_seq. { apply m_boundary. unfold at_boundary. cbn. by rewrite Hx. }
    eapply m_seq. { eapply m_seq; [by apply m_cls|exact M]. }
    eapply m_seq; [apply m_stop|]. eapply m_seq; [by apply m_cls|]. eapply m_seq; [apply m_stop|]. eapply m_seq; [by apply m_cls|].
    eapply m_seq. { eapply m_again; [by apply m_cls|apply m_stop]. }
    eapply m_seq; [apply m_right, m_eps|]. eapply m_seq; [by apply m_cls|]. eapply m_seq; [apply m_stop|]. eapply m_seq; [apply m_end|apply m_eps].
Qed.

Lemma void_method_classified name joined i raw :
  java_identifier name = true → TrimSpace raw = void_method name →
  empty_method joined i raw = if bodyIsEmpty joined (i + 1) then Some (void_method name) else None.
Proof.
  intros H Ht. unfold empty_method. rewrite Ht, (void_method_unchanged _ H). cbn zeta.
  assert (MatchString lambdaBody (void_method name) = false) as ->.
  { apply (MatchString_without _ _ (λ r, (r =? 45)%N)); [by left|]. apply void_method_lacks; [done| |done]. by intros x ->%N.eqb_eq. }
  assert (MatchString methodEmptyInline (void_method name) = false) as ->.
  { apply (MatchString_without _ _ (λ r, (r =? 125)%N)); [repeat (apply elem_of_cons; (by left) || right)|].
    apply void_method_lacks; [done| |done]. by intros x ->%N.eqb_eq. }
  unfold notAMethod, constructor_. rewrite !MatchString_anchored, void_method_runes, (void_method_opens _ H) by done. reflexivity.
Qed.

(** ** A method with an empty body is reported *)

Definition indentation (s : string) : bool := all_chars (λ c, (N_of_ascii c =? 32)%N || (N_of_ascii c =? 9)%N) s.
Definition no_syntax (c : ascii) : bool := forallb (λ x, negb (N_of_ascii c =? x)%N) [34; 39; 40; 41]%N.

Lemma parenDepth_plain a s : all_chars no_syntax a = true → parenDepth (a +:+ s) = parenDepth s.
Proof.
  unfold parenDepth. induction a as [|c a IH]; [done|]. cbn [all_chars]. intros [Hc Ha]%andb_true_iff.
  change (String c a +:+ s) with (String c (a +:+ s)). cbn [paren_depth andb orb]. unfold no_syntax in Hc. cbn [forallb] in Hc.
  rewrite !andb_true_iff, !negb_true_iff in Hc. destruct Hc as (H1 & H2 & H3 & H4 & _). unfold quote, apostrophe. rewrite H1, H2, H3, H4. by apply IH.
Qed.

Lemma all_chars_impl (f g : ascii → bool) s : (∀ c, f c = true → g c = true) → all_chars f s = true → all_chars g s = true.
Proof. intros H. induction s as [|c s IH]; [done|]. cbn [all_chars]. rewrite !andb_true_iff. intros [? ?]. auto. Qed.

Lemma indentation_plain s : indentation s = true → all_chars no_syntax s = true.
Proof. apply all_chars_impl. intros c [H|H]%orb_true_iff; apply N.eqb_eq in H; unfold no_syntax; by rewrite H. Qed.
Lemma word_plain s : all_chars (λ c, word_rune (N_of_ascii c)) s = true → all_chars no_syntax s = true.
Proof.
  apply all_chars_impl. intros c H. unfold word_rune, in_range in H. unfold no_syntax. cbn [forallb].
  rewrite !orb_true_iff, !andb_true_iff, !N.leb_le, N.eqb_eq in H. rewrite !andb_true_iff, !negb_true_iff, !N.eqb_neq. lia.
Qed.

Lemma void_method_depth indent name : indentation indent = true → java_identifier name = true → parenDepth (indent +:+ void_method name) = 0%Z.
Proof.
  intros Hi [_ Hn]%andb_true_iff. rewrite parenDepth_plain by by apply indentation_plain. unfold void_method.
  rewrite (parenDepth_plain "void ") by done. by rewrite parenDepth_plain by by apply word_plain.
Qed.

Lemma cut_indent c s :
  (N_of_ascii c =? 32)%N || (N_of_ascii c =? 9)%N = true → cut_any space_encodings (String c s) = Some s.
Proof.
  intros H. assert (c = " "%char ∨ c = "009"%char) as [-> | ->]; [|by destruct s|by destruct s].
  apply orb_true_iff in H as [H|H]; apply N.eqb_eq in H; [left|right]; by rewrite <- (ascii_N_embedding c), H.
Qed.
Lemma TrimSpace_indent indent s : indentation indent = true → TrimSpace (indent +:+ s) = TrimSpace s.
Proof.
  intros H. unfold TrimSpace. assert (trim_with (slen (indent +:+ s)) space_encodings (indent +:+ s) = trim_with (slen s) space_encodings s) as ->; [|done].
  unfold indentation in H. induction indent as [|c indent IH]; [done|]. cbn [all_chars] in H. apply andb_true_iff in H as [Hc H].
  change (String c indent +:+ s) with (String c (indent +:+ s)).
  change (slen (String c (indent +:+ s))) with (S (slen (indent +:+ s))). cbn [trim_with]. rewrite cut_indent by done. by apply IH.
Qed.
Lemma void_method_edged name : edged (void_method name) = true.
Proof. unfold edged, void_method. rewrite !srev_app. done. Qed.

(** Wherever a file of balanced lines has a method that returns nothing, whose body is blank
    up to a closing brace on a line of its own, the method is reported at its line. *)
Lemma an_empty_method_is_reported before indent name blanks indent' after :
  Forall (λ l, (parenDepth l <= 0)%Z) before → indentation indent = true → java_identifier name = true →
  Forall (λ l, indentation l = true) blanks → indentation indent' = true →
  mkEmptyBody (length before + 1) (void_method name) ∈
    empty_bodies (joinWrappedSignatures (before ++ (indent +:+ void_method name) :: blanks ++ (indent' +:+ "}") :: after)).
Proof.
  intros Hb Hi Hn Hbl Hi'. set (raw := indent +:+ void_method name).
  assert (∀ s, indentation s = true → ∀ t, parenDepth (s +:+ t) = parenDepth t) as Hdepth by (intros; by apply parenDepth_plain, indentation_plain).
  assert (∃ tail, joinWrappedSignatures (before ++ raw :: blanks ++ (indent' +:+ "}") :: after) = before ++ raw :: blanks ++ (indent' +:+ "}") :: tail) as [tail E].
  { assert (∀ x, before ++ raw :: blanks ++ (indent' +:+ "}") :: x = (before ++ raw :: blanks ++ [indent' +:+ "}"]) ++ x) as Hassoc
      by (intros; cbn; by rewrite <- !app_assoc; cbn; rewrite <- app_assoc).
    assert (Forall (λ l, (parenDepth l <= 0)%Z) (before ++ raw :: blanks ++ [indent' +:+ "}"])) as Hall.
    { apply Forall_app. split; [done|]. constructor; [unfold raw; by rewrite void_method_depth|]. apply Forall_app. split.
      - eapply Forall_impl; [exact Hbl|]. intros l Hl. rewrite <- (append_empty_r l), Hdepth by done. done.
      - repeat constructor. by rewrite Hdepth. }
    setoid_rewrite Hassoc. unfold joinWrappedSignatures. destruct (fold_balanced _ after _ Hall (le_n _)) as (fuel & _ & ->). by eexists. }
  rewrite E. unfold empty_bodies. apply list_elem_of_In, in_concat. exists [mkEmptyBody (length before + 1) (void_method name)].
  split; [|by left]. apply list_elem_of_In, list_elem_of_lookup. exists (length before). rewrite list_lookup_imap.
  rewrite lookup_app_r by done. rewrite Nat.sub_diag. cbn [fmap option_fmap option_map lookup list_lookup].
  rewrite (void_method_classified name); [|done|].
  - rewrite (proj2 (bodyIsEmpty_exactly _ _)); [done|]. exists blanks, (indent' +:+ "}"), tail. split; [|split].
    + rewrite drop_app_ge by lia. by replace (length before + 1 - length before) with 1 by lia.
    + eapply Forall_impl; [exact Hbl|]. intros l Hl. rewrite <- (append_empty_r l). by rewrite TrimSpace_indent.
    + by rewrite TrimSpace_indent.
  - unfold raw. rewrite TrimSpace_indent by done. apply TrimSpace_edged, void_method_edged.
Qed.

(** ** Examples *)

Definition java (lines : list string) : list emptyBody := empty_bodies (joinWrappedSignatures lines).

(** The cases of [emptybody_test.go]. *)
Lemma what_counts_as_an_undocumented_empty_body :
  java ["public class Probe {"; "    void leak() {"; "    }"; "}"] = [mkEmptyBody 2 "void leak() {"] ∧
  java ["public class Probe {"; "    public void close() {}"; "}"] = [mkEmptyBody 2 "public void close() {}"] ∧
  java ["public class Probe {"; "    public void close() {"; "        // Nothing to release: this holds no handle."; "    }"; "}"] = [] ∧
  java ["public final class Probe {"; "    private Probe() {"; "    }"; "}"] = [] ∧
  java ["public class Probe {"; "    void act() {"; "        run();"; "    }"; "}"] = [].
Proof. vm_compute. done. Qed.
Lemma the_shapes_that_broke_this_detector_before :
  java ["public class Probe {"; "    void save(Record record) {"; "    }"; "}"] = [mkEmptyBody 2 "void save(Record record) {"] ∧
  java ["public class Probe {"; "    void wide("; "        String a) {"; "    }"; "}"] = [mkEmptyBody 2 "void wide( String a) {"] ∧
  java ["public class Probe {"; "    @Inject Probe() {"; "    }"; "}"] = [] ∧
  java ["public class Probe {"; "    static {"; "    }"; "}"] = [].
Proof. vm_compute. done. Qed.

(** A [catch] or an [else if] after a closing brace is control flow, but the line does not
    start with the keyword: an empty one is reported as a method. *)
Lemma an_empty_catch_is_reported :
  java ["    try {"; "        close();"; "    } catch (IOException e) {"; "    }"] = [mkEmptyBody 3 "} catch (IOException e) {"] ∧
  java ["    if (a) {"; "        run();"; "    } else if (b) {"; "    }"] = [mkEmptyBody 3 "} else if (b) {"].
Proof. vm_compute. done. Qed.

(** A parameter list with parentheses of its own is not recognised: the empty method is not
    reported. *)
Lemma an_annotated_parameter_hides_the_method :
  java ["    void save(@Size(min = 1) String name) {"; "    }"] = [].
Proof. vm_compute. done. Qed.

(** A build directory is looked for between slashes, so one at the top of the default root,
    whose paths do not start with one, is not passed over. *)
Lemma build_output_at_the_top_is_scanned :
  isBuildOutput "target/generated/A.java" = false ∧ isBuildOutput "app/target/generated/A.java" = true ∧
  generated "node_modules/lib/a.js" = false ∧ generated "web/node_modules/lib/a.js" = true.
Proof. done. Qed.
