(* ===== verification/Dupstrings.v ===== *)
(** The command that runs the repository's checks: [main] of [src/scripts/dupstrings].

    It exits with 1 when any of the five rules reports. The theorem says what every file that is
    walked looks like when it exits with 0. *)
From S2P Require Import Prelude Manifest Lint LintText LintGo LintJava.

Record Flags := mkFlags {
  fl_min : nat;
  fl_times : nat;
  fl_tests : bool;
  fl_limit : nat;
  fl_Args : list string;
}.
Definition default_flags : Flags := mkFlags 8 3 true 15 [].
Definition roots_of (flags : Flags) : list string := match fl_Args flags with [] => ["."] | roots => roots end.

Definition any {A} (reports : list A) : bool := match reports with [] => false | _ => true end.

Section Main.
Variable Parse : string → option File.

(** The status the command exits with. *)
Definition main (flags : Flags) (tree : Tree) : nat :=
  let roots := roots_of flags in
  let found := any (reportDuplicateLiterals Parse tree roots (fl_min flags) (fl_times flags) (fl_tests flags)) in
  let found := if any (reportIfDecls Parse tree roots (fl_tests flags)) then true else found in
  let found := if any (reportComplexity Parse tree roots (fl_limit flags) (fl_tests flags)) then true else found in
  let found := if any (reportTextualDuplicates tree roots (fl_min flags) (fl_times flags)) then true else found in
  let found := if any (reportEmptyBodies tree roots) then true else found in
  if found then 1 else 0.

(** ** What a clean exit means *)

(** No literal is written too often. *)
Definition seldom (times : nat) (literals : list (string * nat)) : Prop := ∀ lit, occurrences_of lit literals < times.

Record clean_go (flags : Flags) (file : File) : Prop := {
  cg_literals : seldom (fl_times flags) (omap (message_literal (fl_min flags)) (preorder (file_node file)));
  cg_bindings stmt : below stmt (file_node file) → needlessBinding stmt = None;
  cg_functions line recv name ty body : FuncDecl line recv (Ident name) ty (Some body) ∈ Decls file → complexityOf body 0 ≤ fl_limit flags;
}.
Record clean (flags : Flags) (tree : Tree) (v : Visit) : Prop := {
  cl_go file : go_file (fl_tests flags) v = true → ParseFile Parse tree (vi_path v) = Some file → clean_go flags file;
  cl_text comment content :
    passed_over v = false → generated (vi_path v) = false → scanLanguages !! filepath_Ext (vi_path v) = Some comment →
    tr_ReadFile tree (vi_path v) = Some content → seldom (fl_times flags) (counted content comment (fl_min flags));
  cl_java :
    passed_over v = false → HasSuffix (vi_path v) ".java" = true → isBuildOutput (vi_path v) = false →
    emptyBodiesIn tree (vi_path v) = [];
}.
End Main.

(** ** Lemmas *)

Lemma walk_nil {A} tree roots (report : Visit → list A) :
  walk tree roots report = [] ↔ ∀ root v, root ∈ roots → v ∈ tr_Walk tree root → report v = [].
Proof.
  assert (∀ {B} (f : B → list A) l, l ≫= f = [] ↔ ∀ x, x ∈ l → f x = []) as Hbind.
  { intros B f l. induction l as [|x l IH]; [split; [by intros _ y H%not_elem_of_nil|done]|]. cbn. rewrite app_nil, IH. split.
    - intros [H1 H2] y [->|Hy]%elem_of_cons; auto.
    - intros H. split; [apply H; by left|]. intros y Hy. apply H. by right. }
  unfold walk. rewrite Hbind. setoid_rewrite Hbind. naive_solver.
Qed.

Lemma over_repeated_nil l times : times ≠ 0 → over_repeated l times = [] ↔ seldom times l.
Proof.
  intros Ht. destruct (over_repeated_exactly l times Ht) as [H _]. split.
  - intros E lit. apply not_le. intros Hle.
    assert (∃ o rest, filter (λ o : string * nat, o.1 = lit) l = o :: rest ∧ o.1 = lit) as (o & rest & Eo & Ho).
    { unfold occurrences_of in Hle. destruct (filter _ l) as [|o rest] eqn:Ef; [cbn in Hle; lia|]. exists o, rest. split; [done|].
      assert (o ∈ filter (λ o : string * nat, o.1 = lit) l) as [? _]%list_elem_of_filter by (rewrite Ef; by left). done. }
    destruct o as [x line]. cbn in Ho. subst x. apply (not_elem_of_nil (line, lit, occurrences_of lit l)). rewrite <- E. apply H.
    split; [done|]. split; [lia|]. by exists rest.
  - intros Hs. destruct (over_repeated l times) as [|[[line lit] n] r] eqn:E; [done|].
    destruct (proj1 (H line lit n)) as (-> & Hle & _); [by left|]. specialize (Hs lit). lia.
Qed.

Lemma any_false {A} (l : list A) : any l = false ↔ l = [].
Proof. by destruct l. Qed.

Lemma map_nil_iff {A B} (f : A → B) l : map f l = [] ↔ l = [].
Proof. by destruct l. Qed.

(** ** The command exits with 0 exactly when everything it walked is clean *)

Section Exit.
Context (Parse : string → option File) (flags : Flags) (tree : Tree).
Hypothesis times_positive : fl_times flags ≠ 0.

Lemma go_rules_clean v :
  (if go_file (fl_tests flags) v then reportFile Parse tree (vi_path v) (fl_min flags) (fl_times flags) else []) = [] ∧
  (if go_file (fl_tests flags) v then reportIfDeclsIn Parse tree (vi_path v) else []) = [] ∧
  (if go_file (fl_tests flags) v then reportComplexityIn Parse tree (vi_path v) (fl_limit flags) else []) = [] ↔
  ∀ file, go_file (fl_tests flags) v = true → ParseFile Parse tree (vi_path v) = Some file → clean_go flags file.
Proof.
  destruct (go_file _ v); [|naive_solver]. unfold reportFile, reportIfDeclsIn, reportComplexityIn.
  destruct (ParseFile Parse tree (vi_path v)) as [file|]; [|naive_solver]. rewrite !map_nil_iff, over_repeated_nil by done. split.
  - intros (H1 & H2 & H3) ? _ [= <-]. split; [done| |].
    + intros stmt Hs. destruct (needlessBinding stmt) as [name|] eqn:E; [|done].
      destruct stmt as [| | | | |line init cnd body els| | | | | | | | |]; try done. exfalso. apply (not_elem_of_nil (line, name)). rewrite <- H2.
      apply list_elem_of_bind. eexists. split; [|by apply preorder_below]. unfold needless_in. rewrite E. by left.
    + intros line recv name ty body Hd. apply not_lt. intros Hlt. apply (not_elem_of_nil (line, name, complexityOf body 0)). rewrite <- H3.
      apply list_elem_of_bind. eexists. split; [|done]. apply over_limit_exactly. by eexists _, _, _.
  - intros H. destruct (H file eq_refl eq_refl) as [H1 H2 H3]. split; [done|]. split.
    + destruct (_ ≫= needless_in) as [|[line name] l] eqn:E; [done|]. assert ((line, name) ∈ preorder (file_node file) ≫= needless_in) as Hin by (rewrite E; by left).
      apply list_elem_of_bind in Hin as (stmt & Hin & Hb%preorder_below). specialize (H2 _ Hb). destruct stmt; cbn [needless_in] in Hin; try by apply not_elem_of_nil in Hin.
      rewrite H2 in Hin. by apply not_elem_of_nil in Hin.
    + destruct (_ ≫= over_limit _) as [|[[line name] score] l] eqn:E; [done|].
      assert ((line, name, score) ∈ Decls file ≫= over_limit (fl_limit flags)) as Hin by (rewrite E; by left).
      apply list_elem_of_bind in Hin as (decl & (recv & ty & body & -> & -> & Hlt)%over_limit_exactly & Hd). apply H3 in Hd. lia.
Qed.

Lemma text_rule_clean v :
  (if passed_over v then [] else if generated (vi_path v) then []
   else match scanLanguages !! filepath_Ext (vi_path v) with
        | None => [] | Some comment => reportTextualIn tree (vi_path v) comment (fl_min flags) (fl_times flags) end) = [] ↔
  ∀ comment content, passed_over v = false → generated (vi_path v) = false → scanLanguages !! filepath_Ext (vi_path v) = Some comment →
    tr_ReadFile tree (vi_path v) = Some content → seldom (fl_times flags) (counted content comment (fl_min flags)).
Proof.
  destruct (passed_over v); [naive_solver|]. destruct (generated (vi_path v)); [naive_solver|].
  destruct (scanLanguages !! filepath_Ext (vi_path v)) as [comment|]; [|naive_solver]. unfold reportTextualIn.
  destruct (tr_ReadFile tree (vi_path v)) as [content|]; [|naive_solver]. rewrite map_nil_iff, over_repeated_nil by done. naive_solver.
Qed.

Lemma java_rule_clean v :
  (if passed_over v then [] else if negb (HasSuffix (vi_path v) ".java") || isBuildOutput (vi_path v) then []
   else map (λ line, (vi_path v, line)) (emptyBodiesIn tree (vi_path v))) = [] ↔
  (passed_over v = false → HasSuffix (vi_path v) ".java" = true → isBuildOutput (vi_path v) = false → emptyBodiesIn tree (vi_path v) = []).
Proof.
  destruct (passed_over v), (HasSuffix (vi_path v) ".java"), (isBuildOutput (vi_path v)); cbn [negb orb]; rewrite ?map_nil_iff; naive_solver.
Qed.

Lemma exit_clean :
  main Parse flags tree = 0 ↔ ∀ root v, root ∈ roots_of flags → v ∈ tr_Walk tree root → clean Parse flags tree v.
Proof using times_positive.
  assert (main Parse flags tree = 0 ↔
    reportDuplicateLiterals Parse tree (roots_of flags) (fl_min flags) (fl_times flags) (fl_tests flags) = [] ∧
    reportIfDecls Parse tree (roots_of flags) (fl_tests flags) = [] ∧
    reportComplexity Parse tree (roots_of flags) (fl_limit flags) (fl_tests flags) = [] ∧
    reportTextualDuplicates tree (roots_of flags) (fl_min flags) (fl_times flags) = [] ∧
    reportEmptyBodies tree (roots_of flags) = []) as ->.
  { unfold main. rewrite <- !any_false. do 5 destruct (any _); naive_solver. }
  unfold reportDuplicateLiterals, reportIfDecls, reportComplexity, reportTextualDuplicates, reportEmptyBodies, walk_go. rewrite !walk_nil. split.
  - intros (H1 & H2 & H3 & H4 & H5) root v Hr Hv.
    pose proof (proj1 (go_rules_clean v) (conj (H1 _ _ Hr Hv) (conj (H2 _ _ Hr Hv) (H3 _ _ Hr Hv)))) as Hgo.
    split; [done|by apply text_rule_clean, (H4 root)|by apply java_rule_clean, (H5 root)].
  - intros H.
    assert (∀ root v, root ∈ roots_of flags → v ∈ tr_Walk tree root → _) as Hgo by (intros root v Hr Hv; exact (proj2 (go_rules_clean v) (cl_go _ _ _ _ (H root v Hr Hv)))).
    split; [intros; by eapply Hgo|]. split; [intros; by eapply Hgo|]. split; [intros; by eapply Hgo|].
    split; intros root v Hr Hv; destruct (H root v Hr Hv); [by apply text_rule_clean|by apply java_rule_clean].
Qed.
End Exit.
