(* ===== verification/Mounting.v ===== *)
(** Routes a deployment adds: [serve/mount.go] of the estate and [extension/] of the door.

    A multiplexer is the list of what was registered with it; registering a pattern that
    conflicts with one before it panics. *)
From S2P Require Import Prelude.

(** ** [http.ServeMux] *)

Section mux.
(** [conflicts] is the multiplexer's rule: at least the same pattern twice. *)
Context {H : Type} (conflicts : string → string → bool).

Definition ServeMux : Type := list (string * H).
Definition HandleFunc (mux : ServeMux) (pattern : string) (handler : H) : option ServeMux :=
  if existsb (λ r, conflicts r.1 pattern) mux then None else Some (mux ++ [(pattern, handler)]).

(** ** [extension.Routes] *)

Record Route := mkRoute {
  rt_Method : string;
  rt_Pattern : string;
  rt_Handler : H;
}.
(** A router takes a route or panics. *)
Definition MountRoutes {R} (route : R → string → string → H → option R) (rs : list Route) (r : R) : option R :=
  foldl (λ r rt, r ← r; route r (rt_Method rt) (rt_Pattern rt) (rt_Handler rt)) (Some r) rs.
(** The router that registers a method and a path as a multiplexer reads them. *)
Definition mux_route (mux : ServeMux) (method pattern : string) (handler : H) : option ServeMux :=
  HandleFunc mux (method +:+ " " +:+ pattern) handler.

(** ** [serve.mount] *)

(** What a deployment's routes are given; [D], [C] and [F] are the door, the resolver of
    callers and the reader of footprints of the estate. *)
Context {D C F : Type}.
Record mountParts := mkMountParts {
  mp_door : D;
  mp_callers : C;
  mp_footprints : F;
}.
Record Mounting := mkMounting {
  mo_Mux : ServeMux;
  mo_Door : D;
  mo_Callers : C;
  mo_Footprints : F;
}.
Definition mount (mux : ServeMux) (engine_Routes : ServeMux → option ServeMux) (built : mountParts)
    (routes : option (Mounting → option ServeMux)) : option ServeMux :=
  mux ← engine_Routes mux;
  match routes with
  | None => Some mux
  | Some routes => routes (mkMounting mux (mp_door built) (mp_callers built) (mp_footprints built))
  end.

(** ** What is registered *)

Definition pattern_of (rt : Route) : string := rt_Method rt +:+ " " +:+ rt_Pattern rt.

(** Mounting registers the routes in their order, after what was there, each without a
    conflict with any before it; or it panics. *)
Lemma MountRoutes_exactly rs mux mux' :
  MountRoutes mux_route rs mux = Some mux' ↔
  mux' = mux ++ map (λ rt, (pattern_of rt, rt_Handler rt)) rs ∧
  ∀ before rt after, rs = before ++ rt :: after →
    Forall (λ r, conflicts r.1 (pattern_of rt) = false) (mux ++ map (λ rt, (pattern_of rt, rt_Handler rt)) before).
Proof.
  revert mux'. induction rs as [|rt rs IH] using rev_ind; intros mux'.
  - cbn. rewrite app_nil_r. split; [intros [= <-]; split; [done|by intros [|] ? ? [=]]|by intros [-> _]].
  - unfold MountRoutes in *. rewrite foldl_app. cbn [foldl]. rewrite bind_Some. split.
    + intros (m & Hm & Hr). apply IH in Hm as [-> Hc]. unfold mux_route, HandleFunc in Hr.
      destruct (existsb _ _) eqn:E; [done|]. injection Hr as <-. rewrite map_app, <- app_assoc. split; [done|].
      intros before x after Heq. destruct after as [|y after _] using rev_ind.
      * apply app_inj_tail in Heq as [-> ->]. apply Forall_forall. intros r Hr. apply not_true_iff_false. intros Hconf.
        assert (existsb (λ r, conflicts r.1 (pattern_of x)) (mux ++ map (λ rt, (pattern_of rt, rt_Handler rt)) before) = true) as Hex.
        { apply existsb_exists. exists r. split; [by apply list_elem_of_In|done]. }
        unfold pattern_of in Hex at 1. by rewrite Hex in E.
      * rewrite app_comm_cons, app_assoc in Heq. apply app_inj_tail in Heq as [Heq _]. by apply (Hc before x after).
    + intros [-> Hc]. exists (mux ++ map (λ rt, (pattern_of rt, rt_Handler rt)) rs). split.
      * apply IH. split; [done|]. intros before x after ->. apply (Hc before x (after ++ [rt])). by rewrite <- app_assoc.
      * unfold mux_route, HandleFunc. rewrite map_app, app_assoc. cbn [map].
        assert (existsb (λ r, conflicts r.1 (rt_Method rt +:+ " " +:+ rt_Pattern rt)) (mux ++ map (λ rt, (pattern_of rt, rt_Handler rt)) rs) = false) as ->; [|done].
        apply not_true_iff_false. intros (r & Hr & Hconf)%existsb_exists. specialize (Hc rs rt [] eq_refl).
        rewrite Forall_forall in Hc. apply list_elem_of_In in Hr. specialize (Hc r Hr). unfold pattern_of in Hc. congruence.
Qed.

(** The engine's own routes come first: whatever a deployment mounts, they stay as they are,
    and a deployment that names one of their patterns again panics as it starts. *)
Lemma engine_routes_stay mux engine built rs mux' own :
  (∀ p, conflicts p p = true) → engine mux = Some own →
  mount mux engine built (Some (λ m, MountRoutes mux_route rs (mo_Mux m))) = Some mux' →
  mux' = own ++ map (λ rt, (pattern_of rt, rt_Handler rt)) rs ∧ ∀ rt, rt ∈ rs → pattern_of rt ∉ map fst own.
Proof.
  intros Hself He Hm. unfold mount in Hm. rewrite He in Hm. cbn in Hm. apply MountRoutes_exactly in Hm as [-> Hc]. split; [done|].
  intros rt (before & after & ->)%list_elem_of_split (r & Heq & Hr)%elem_of_map. specialize (Hc before rt after eq_refl).
  rewrite Forall_forall in Hc. specialize (Hc r). rewrite elem_of_app in Hc. specialize (Hc (or_introl Hr)).
  rewrite Heq in Hc. by rewrite Hself in Hc.
Qed.
End mux.

(** ** Examples *)

Definition same (a b : string) : bool := a =s? b.
Definition demo_engine (mux : list (string * nat)) : option (list (string * nat)) := HandleFunc same mux "GET /api/estate" 1.
Definition demo_parts : mountParts := mkMountParts tt tt tt.

Example a_deployment_adds_a_route :
  mount [] demo_engine demo_parts (Some (λ m, MountRoutes (mux_route same) [mkRoute "GET" "/hello" 2] (mo_Mux m))) =
    Some [("GET /api/estate", 1); ("GET /hello", 2)].
Proof. reflexivity. Qed.
Example a_duplicate_panics :
  mount [] demo_engine demo_parts (Some (λ m, MountRoutes (mux_route same) [mkRoute "GET" "/api/estate" 2] (mo_Mux m))) = None.
Proof. reflexivity. Qed.
